(* ===== verification/_CoqProject ===== *)
-Q . S2P
Prelude.v
MapCommon.v
Primes.v
HashMap.v
FixHashMap.v
ArrayMap.v
PerCpuArray.v
VarHash.v
PerCpuHash.v
LruHash.v
FdArrays.v
Ringbuf.v
PerfEvent.v
KernelUser.v
MapHandler.v
HandlerManager.v
Shm.v
HelperMem.v
Helpers.v
Config.v
Ufunc.v
Cuda.v
Prog.v
AttachCtx.v
SyscallTrace.v
FridaAttach.v
PosCheckpoint.v
PosCow.v
PosHandle.v
SyscallCtx.v
Timespan.v
EventSpan.v
StepDetails.v
StepIntersection.v
DutyCycle.v
LevelDb.v
PosFiles.v
PosDump.v
PrefixTrie.v
NwayMerge.v
TraceEvent.v
RawData.v
Visibility.v
TraceLevels.v
TraceStore.v
TraceLoad.v
TraceReload.v
TraceContainer.v
TraceSearch.v
