(* ===== verification/Prelude.v ===== *)
(** * The bpftime runtime of eGPU, its checkpoints, and the trace store of XProf, verified

    bpftime runs eBPF programs in user space. Its runtime, under
    src/papers/egpu/artifact/runtime, keeps maps, programs, links and perf events
    in a shared memory segment and offers them, by descriptor, to the syscall
    server and to the helpers of running programs. This library models that
    runtime from the bottom up and proves what each layer promises to the next.
    Paths below are relative to the runtime directory. The files from Timespan.v on
    model a second program of the repository, the XProf profiler, under
    src/papers/xprof/artifact/xprof: the time breakdown and the alignment of steps
    (directory utils), the duty cycle (convert) and the store of trace events behind
    the trace viewer (convert/trace_viewer).

    ** Parts of the program and files of the library

    - Prelude.v: machine integers with their wrap-around, bytes and little-endian
      words, buffers read and written by range, the execution monad [M S A]
      (a state, errno, and three outcomes: [Ok], a C++ exception [Throw],
      undefined behaviour [Ub]), pointers, bounded loops, tactics.
    - MapCommon.v: update flags (src/bpf_map/map_common_def.hpp), Boost's
      unordered_map as the class [UnorderedMap], the interface [MapImpl] between
      the map handler and an implementation, and the contract [spec_update] of a
      bounded key/value map.
    - Primes.v, HashMap.v, FixHashMap.v: src/bpf_map/bpftime_hash_map.hpp and
      userspace/fix_hash_map.*, the open-addressing table over one byte buffer.
    - ArrayMap.v: userspace/array_map.* and map_in_maps.hpp.
    - PerCpuArray.v, PerCpuHash.v: userspace/per_cpu_array_map.*,
      per_cpu_hash_map.*; the current CPU is an argument of an operation.
    - VarHash.v: userspace/var_hash_map.*.
    - LruHash.v: userspace/lru_var_hash_map.*, a container plus a doubly linked
      list of shared and weak pointers in an explicit heap.
    - FdArrays.v: userspace/perf_event_array_map.*, prog_array.*.
    - Ringbuf.v: userspace/ringbuf_map.*, the byte ring with its two positions, and
      the steps of concurrent [reserve] calls.
    - PerfEvent.v: src/handler/perf_event_handler.*, the software event ring and
      the kinds of perf event.
    - KernelUser.v: src/bpf_map/shared, the front ends of kernel maps over a kernel
      given by the classes [BpfKernel] and [PerfTransport].
    - MapHandler.v: src/handler/map_handler.*, dispatch by type, the spin lock,
      creation and destruction in the managed shared memory [shm], plugins.
    - HandlerManager.v: src/handler/handler_manager.* and the link, program and
      epoll handlers, the table of descriptors.
    - Shm.v: src/bpftime_shm_internal.* and bpftime_shm.cpp, the operations by
      descriptor and the C interface.
    - HelperMem.v, Helpers.v: src/bpf_helper.cpp, the helpers programs call: those on
      raw memory (probe reads and writes, strings, checksum, XDP packets) and those
      on the shared memory (maps, ring buffers, perf output, tail calls, ids).
    - Config.v: include/bpftime_config.hpp and src/bpftime_config.cpp.
    - Ufunc.v: src/ufunc.cpp, the registry of user functions and its dispatcher.
    - Cuda.v: src/attach/bpf_attach_ctx_cuda.cpp and the device side of
      attach/nv_attach_impl/examples/default_trampoline: helper calls of GPU threads,
      one memory access a step, and the table of maps given to the device.
    - Prog.v: helper groups (src/bpf_helper.cpp, extension/extension_helper.cpp) and
      programs (src/bpftime_prog.cpp) over a virtual machine given by class [Vm].
    - AttachCtx.v: src/attach/bpf_attach_ctx.cpp, the instantiation of the handlers of
      the table into attach implementations given by the class [AttachImpl].
    - SyscallTrace.v: attach/syscall_trace_attach_impl (beside the runtime directory),
      the callbacks on system calls, their dispatch, and the registration of this
      implementation of [AttachImpl] at an attach context.
    - FridaAttach.v: attach/frida_uprobe_attach_impl, the probes on functions, one hook
      for each address, and the listener that runs them, over Gum's interceptor.
    - PosCheckpoint.v: pos/src/checkpoint_enable.cpp and what memory handles do with it
      (pos/include/handle.h, pos/cuda_impl/src/handle/memory.cpp): the bag of checkpoint
      slots of a handle, on the device and on the host, active and spare.
    - PosCow.v: pos/src/handle.cpp, the protocol on the preserve counter between the
      worker, which saves a buffer before it is overwritten, and the checkpoint thread.
    - PosHandle.v: the handle manager of pos/include/handle.h (addresses, mocked views,
      status changes, the pool) and the collection and traversal of broken handles.
    - PosFiles.v (listed after LevelDb.v, whose [Proto] it uses): the files of a checkpoint
      and the calls that were not executed, from pos/src/api_context.cpp, client.cpp and
      worker.cpp.
    - PosDump.v: the files of handles, the synchronous checkpoint of the worker and the
      restore of a memory, from pos/src/handle.cpp, worker.cpp, include/handle.h and
      cuda_impl/src/handle/memory.cpp.
    - SyscallCtx.v: syscall-server, the intercepted calls of a program, over the C
      library given by the class [Libc].
    - Timespan.v (the class of XLA's Timespan), EventSpan.v and StepDetails.v
      (event_span.h and event_span.cc), StepIntersection.v (step_intersection.h and
      step_intersection.cc).
    - DutyCycle.v: convert/duty_cycle_tracker.* and duty_cycle_combiner.h, the set of
      active intervals, its unions, and the sums over cores and chips.
    - LevelDb.v: the sorted tables of LevelDB ([TableLib]) and the serialization of
      protobuf messages ([Proto]), libraries, as classes with their documented laws.
    - PrefixTrie.v: convert/trace_viewer/prefix_trie.*, the index of event names.
    - NwayMerge.v: trace_events_util.h, the merge of sorted ranges through a heap
      whose construction (std::make_heap) is the class [MakeHeap].
    - TraceEvent.v: the messages TraceEvent, Device, Resource and Trace, comparators,
      spans, flows, zoom levels, table keys and serials of trace_events.* and
      trace_events_util.*.
    - RawData.v: the raw data of events and the interning of their strings.
    - Visibility.v: trace_viewer_visibility.*, which events are drawn at a resolution.
    - TraceLevels.v: GetEventsByLevel and what it calls, the zoom level of every event.
    - TraceStore.v, TraceLoad.v, TraceReload.v: writing the levels as a table,
      loading a span at a resolution with filters, and the two composed.
    - TraceContainer.v: the class TraceEventsContainerBase, its arena of events, its
      tracks by device and resource or name, and the operations that change them.
    - TraceSearch.v: the three tables (events, metadata, names), search by prefix and
      reading one event, and these operations of the container.

    A trace is collected in a container (TraceContainer), its events get levels and
    serials (TraceLevels, TraceStore), and are written to tables with an index of
    names (TraceStore, TraceSearch, PrefixTrie); the viewer loads a span of them
    (TraceLoad, with NwayMerge and Visibility), or searches and reads single events
    (TraceSearch).

    PhoenixOS (directory pos) checkpoints the state of a GPU process. Every resource is
    a handle (PosHandle) with a bag of checkpoint slots (PosCheckpoint); a checkpoint
    may run while kernels change the memory it saves (PosCow). A dump writes the handles
    (PosDump) and the calls still in the queue (PosFiles) to a directory, from which a
    restore makes them again.

    A map call of a program descends SyscallCtx (or Helpers, or Cuda) -> Shm ->
    HandlerManager -> MapHandler -> an instance of [MapImpl]; the handler's theorems
    are proved against [MapImpl] and a lawful [view] of the implementation's place in
    memory, so a new implementation needs only its instance.

    ** What the theorems show

    - Containers: for each map a relation between its bytes and an abstract map, list
      or queue ([hm_rel], [fh_rel], [vh_rel], [pch_rel], [lru_rel], [rb_rel],
      [sp_rel]), and that every operation refines the abstract one, errors and
      errno included; iteration with [map_get_next_key] terminates and lists the
      keys; sequences of calls are free of undefined behaviour.
    - Map handler: calls on a live map reach the right implementation (or are refused, for
      the updates and deletes of an array of maps by a program), release the
      lock and disturb no other map; [map_init] on every branch; [map_free] undoes
      [map_init].
    - Manager: lowest free slot, every branch of [set_handler], cascading close
      without dangling links, [clear_all] always empties the table.
    - Interface: bad descriptors, fake descriptors above the standard ones, links,
      map pointers, epoll.
    - Helpers: a ring buffer output is one committed record with its bytes, or, at the
      edge of the ring, with the bytes that were there before; map helpers are the
      operations for programs; memory helpers copy, fault and fill as documented.
    - Programs: the virtual machine sees exactly the helpers of the enabled groups;
      instantiation terminates on any table, cycles of links included, and attaches
      only links whose program and event exist; detaching undoes it.
    - Attach implementations: a dispatched system call runs exactly the callbacks that
      are attached and returns what the last override says; a tracepoint link attaches
      and detaches again; any session of attaching and detaching probes gives the answers
      of a table of probes by address, and leaves its probes and hooks; entering and
      leaving a function runs its probes with the registers of the interceptor.
    - Checkpoints: every call on a bag refines a contract on saved and spare contents, with
      the calls that throw or overrun named; from the construction on, in any sequence of calls whose copies succeed, a
      checkpoint holds the bytes a call for its version gave; the copy taken before a
      write is what a later commit stores; whatever the interleaving of worker and
      checkpoint thread, and whichever copies fail, the bytes of a successful commit are
      those at the start of the checkpoint unless the worker's own copy failed, and both
      threads can finish. The handle manager refines an index from addresses to handles,
      duplicates included; broken handles are restored parents first, as long as the list
      that the views of a call share has no layers too many. A synchronous checkpoint
      writes the files of exactly the live handles, from which an active memory below 2 GiB
      is restored with its bytes, and the saved calls are queued again, in the order of
      their names, up to the first one with a handle that does not exist any more.
    - GPU calls: in every interleaving at most one thread is inside a call, answers
      go to the calls they were written for, and all calls can complete.
    - Syscall server: a session of bpf(2) calls on a hash map answers, end to end, as the
      documented contract as long as this refuses nothing, and in general as a map that
      loses updates silently; mocked files read back in order; mappings are paired; the
      server's own state is invariant under any sequence of calls.
    - XProf: the breakdown of events of positive duration tiles the time and types every
      instant with the highest priority open there; the counters of a step account for the
      transfers recorded for it, through every operation; the merge that aligns two step
      sequences stays in bounds, and for steps that do not overlap it equals a quadratic
      reference and finds an offset of greatest overlap; the intersection of hosts consists
      of steps all of them have; active and idle times of the duty
      cycle are those of the set of instants covered.
    - Trace store: a container built by any operations has every event on the track
      of its device and resource; every event is at exactly one level; keys sort as
      level, time and serial; what is stored is loaded again, complete but for the
      serials that do not fit a key; loading a window misses no event of the levels it
      needs; down-sampling drops only events close to a drawn one; a prefix search
      finds exactly the events of that prefix; reading an event gives it back, but for the
      raw data of counters; interning and merging lose nothing.
    - Divergences: where the code does not do what its comments or the kernel's
      interface say, a theorem states what it does instead (keys hidden by a delete,
      32-bit sizes, a record lost at the ring's edge, overlapping producers, overlapping
      steps, duplicate handles, leaks and double destruction by name, lost errors, reversed timeouts).

    ** Bounds and fuel

    Loops run on fuel that is proved to be enough: the probe loops of the hash table
    on its bucket count, [next_prime] on 2^33 turns (there is a prime right above
    2^32), [is_prime] on 2^32, the bit count on 64, [fetch_data] on the bytes
    between the positions, the recursion of [clear_id_at] on 2, the tokens of a
    configuration on the length of the string, the merge of two step sequences on
    their lengths, instantiation on one level more than there are handlers, iteration
    on one turn more than there are keys, the loop over a level on the entries left in
    the table, the loop over levels on one turn more than there are levels (the last
    resolution is 0), the traversal of the name index on its nodes, its search on the
    entries of the table, the sinking of a heap element on the size of the heap,
    the collection of broken handles on the rank of a handle in the graph of parents,
    the traversal of the collected layers on one turn more than handles and layers
    together. The loop of [epoll_wait] runs on a list of
    turns, each with the clock, a possible signal and the effect of other threads; it
    reports [None] when the turns are used up.

    ** Parameters

    Boost's unordered_map (where a new node goes), the kernel and libbpf, the plugin
    operations, open and dup, the C library behind the syscall server, the file
    system and std::regex, the program queries of the program array, the virtual
    machine, the attach implementations, the functions behind user functions, XLA's
    Timespan, LevelDB's tables, protobuf's serialization, std::sort and std::make_heap,
    the iteration order of hash maps, the hash of strings, the answers of the file
    system to a table's file, the plane names of XLA, the user's callbacks, Gum's
    interceptor, the tracing file system, the addresses given by allocators, the first
    element of a hash map (begin()), the outcomes of CUDA's copies, which files can be
    written and the order of a directory. Their documented guarantees are class fields or
    hypotheses, and the witnesses instantiate them with concrete functions.

    ** Not modelled

    Memory ordering below the step granularity of Ringbuf.v and Cuda.v; allocation
    failure of the segment; logging; opening the segment for other processes, CUDA
    registration and memory protection keys (bpftime_shm_internal.cpp); the
    transporter program and the per-process cache of user ring buffers
    (perf_event_array_kernel_user.cpp); trace_printk; the PTX passes of
    bpftime_prog.cpp; JSON import and export; the build with the verifier; the text
    segment transformer and the attach implementation for CUDA, which patch native and
    PTX code; the daemon. Of PhoenixOS, the parsing, launching and remoting of CUDA
    calls, its sockets, queues and processes, the restore of handles other than memories, the
    thread loops of its workers around the
    protocol of PosCow.v, and the migration of handles. Of XProf, the thread pools
    (their tasks run one after the other, which no result depends on), floating-point
    ratios, resource names and groups, the JSON and delta series export, the converters
    to reports, the front end; and the other artifacts of the repository. *)
From Stdlib Require Import ZArith Lia.
From stdpp Require Import base list gmap strings sorting.
Local Open Scope Z_scope.

(** ** Machine integers *)

(** The wrap-around of the unsigned types of the source (uint8_t, uint16_t,
    uint32_t, uint64_t/size_t) and the value of a signed 32-bit [int]. *)
Definition wrap (w : Z) (z : Z) : Z := z mod 2 ^ w.
Definition s32 (z : Z) : Z := (z + 2 ^ 31) mod 2 ^ 32 - 2 ^ 31.
Definition s64 (z : Z) : Z := (z + 2 ^ 63) mod 2 ^ 64 - 2 ^ 63.

Abbreviation u16 := (wrap 16).
Abbreviation u32 := (wrap 32).
Abbreviation u64 := (wrap 64).

Lemma wrap_small w z : 0 <= z < 2 ^ w -> wrap w z = z.
Proof. apply Z.mod_small. Qed.

Lemma wrap_range w z : 0 <= w -> 0 <= wrap w z < 2 ^ w.
Proof. intros. apply Z.mod_pos_bound. lia. Qed.

Lemma s32_small z : - 2 ^ 31 <= z < 2 ^ 31 -> s32 z = z.
Proof. intros. unfold s32. rewrite Z.mod_small; lia. Qed.

Lemma s64_small z : - 2 ^ 63 <= z < 2 ^ 63 -> s64 z = z.
Proof. intros. unfold s64. rewrite Z.mod_small; lia. Qed.

(** [x & (size - 1)] for a power of two. *)
Lemma land_mask x n : 0 <= n -> Z.land x (2 ^ n - 1) = x mod 2 ^ n.
Proof. intros. rewrite <- Z.land_ones by done. f_equal. rewrite Z.ones_equiv. lia. Qed.

(** A field in the upper bits, another one below it. *)
Lemma lor_shiftl x y n : 0 <= n -> 0 <= y < 2 ^ n -> Z.lor (Z.shiftl x n) y = x * 2 ^ n + y.
Proof.
  intros Hn Hy. assert (Z.land (Z.shiftl x n) y = 0) as Hl.
  { rewrite <- (Z.mod_small y (2 ^ n)) by done. rewrite <- Z.land_ones by done.
    apply Z.bits_inj'. intros i Hi. rewrite !Z.land_spec, Z.bits_0, Z.shiftl_spec, Z.testbit_ones by lia.
    destruct (decide (i < n)).
    - by rewrite Z.testbit_neg_r by lia.
    - rewrite (proj2 (Z.ltb_ge _ _)) by lia. by rewrite !andb_false_r. }
  rewrite <- Z.lxor_lor, <- Z.add_nocarry_lxor by done. by rewrite Z.shiftl_mul_pow2.
Qed.

(** The bit-counting loop [while (x) { ret += (x & 1); x >>= 1; }] of
    perf_event_handler.cpp and of [map_init] in map_handler.cpp; a 64-bit [x] is
    zero after 64 turns. *)
Fixpoint popcnt_loop (fuel : nat) (x ret : Z) : Z :=
  match fuel with
  | O => ret
  | S fuel' => if x =? 0 then ret else popcnt_loop fuel' (Z.shiftr x 1) (ret + Z.land x 1)
  end.
Definition popcnt (x : Z) : Z := popcnt_loop 64 x 0.

Lemma popcnt_loop_acc fuel x ret : popcnt_loop fuel x ret = ret + popcnt_loop fuel x 0.
Proof.
  revert x ret. induction fuel as [|fuel IH]; intros x ret; simpl; [lia|].
  destruct (x =? 0); [lia|]. rewrite IH, (IH _ (Z.land x 1)). lia.
Qed.

Lemma popcnt_loop_step fuel x :
  0 <= x -> popcnt_loop (S fuel) x 0 = x mod 2 + popcnt_loop fuel (x / 2) 0.
Proof.
  intros Hx. cbn [popcnt_loop]. destruct (Z.eqb_spec x 0) as [->|].
  - destruct fuel; done.
  - rewrite popcnt_loop_acc. change (Z.land x 1) with (Z.land x (Z.ones 1)).
    rewrite Z.land_ones, Z.shiftr_div_pow2 by lia. done.
Qed.

Lemma popcnt_loop_zero fuel x :
  0 <= x < 2 ^ Z.of_nat fuel -> 0 <= popcnt_loop fuel x 0 /\ (popcnt_loop fuel x 0 = 0 <-> x = 0).
Proof.
  revert x. induction fuel as [|fuel IH]; intros x Hx; [simpl in *; split; [lia|split; lia]|].
  rewrite popcnt_loop_step by lia. rewrite Nat2Z.inj_succ, Z.pow_succ_r in Hx by lia.
  pose proof (Z.div_mod x 2). pose proof (Z.mod_pos_bound x 2).
  destruct (IH (x / 2)) as [Hp Hz]; lia.
Qed.

(** The count is one exactly for the powers of two. *)
Lemma popcnt_loop_one fuel x :
  0 <= x < 2 ^ Z.of_nat fuel -> (popcnt_loop fuel x 0 = 1 <-> exists n, 0 <= n /\ x = 2 ^ n).
Proof.
  revert x. induction fuel as [|fuel IH]; intros x Hx.
  { simpl in *. split; [lia|]. intros (n & Hn & ->). pose proof (Z.pow_pos_nonneg 2 n). lia. }
  rewrite popcnt_loop_step by lia. rewrite Nat2Z.inj_succ, Z.pow_succ_r in Hx by lia.
  pose proof (Z.div_mod x 2). pose proof (Z.mod_pos_bound x 2).
  destruct (popcnt_loop_zero fuel (x / 2)) as [Hp Hz]; [lia|]. specialize (IH (x / 2) ltac:(lia)).
  split.
  - intros Hc. assert (x mod 2 = 0 \/ x mod 2 = 1) as [Hm|Hm] by lia.
    + destruct (proj1 IH) as (n & Hn & Hx2); [lia|]. exists (Z.succ n). rewrite Z.pow_succ_r by lia. lia.
    + exists 0. simpl. lia.
  - intros (n & Hn & ->). destruct (decide (n = 0)) as [->|]; [change (2 ^ 0) with 1 in *; simpl in *; lia|].
    replace n with (Z.succ (n - 1)) in * by lia. rewrite Z.pow_succ_r in * by lia.
    rewrite (Z.mul_comm 2), Z.div_mul in * by lia. rewrite Z.mod_mul by lia.
    enough (popcnt_loop fuel (2 ^ (n - 1)) 0 = 1) by lia. apply IH. exists (n - 1). lia.
Qed.

Lemma popcnt_pow2 x : 0 <= x < 2 ^ 64 -> (popcnt x = 1 <-> exists n, 0 <= n /\ x = 2 ^ n).
Proof. apply (popcnt_loop_one 64). Qed.

(** ** Filtered and mapped lists *)

Section lists.
Context {A : Type} (P : A -> Prop) `{!forall x, Decision (P x)}.
Implicit Types l : list A.

Lemma filter_all l : Forall P l -> filter P l = l.
Proof. induction 1 as [|x l Hx _ IH]; [done|]. by rewrite filter_cons_True, IH. Qed.

Lemma filter_none l : Forall (fun x => ~ P x) l -> filter P l = [].
Proof. induction 1 as [|x l Hx _ IH]; [done|]. by rewrite filter_cons_False, IH. Qed.

Lemma StronglySorted_filter (R : relation A) l : StronglySorted R l -> StronglySorted R (filter P l).
Proof.
  induction 1 as [|x l _ IH Hall]; [constructor|]. rewrite filter_cons. case_decide; [|done].
  constructor; [done|]. rewrite Forall_forall in *. intros y [_ ?]%list_elem_of_filter. auto.
Qed.
End lists.

Lemma filter_iff_in {A} (P Q : A -> Prop) `{!forall x, Decision (P x), !forall x, Decision (Q x)} (l : list A) :
  Forall (fun x => P x <-> Q x) l -> filter P l = filter Q l.
Proof.
  induction 1 as [|x l Hx _ IH]; [done|]. rewrite !filter_cons, IH. by destruct (decide (P x)), (decide (Q x)); try tauto.
Qed.

Lemma filter_fmap {A B} (f : A -> B) (P : B -> Prop) `{!forall x, Decision (P x)} (l : list A) :
  filter P (f <$> l) = f <$> filter (fun x => P (f x)) l.
Proof. induction l as [|x l IH]; [done|]. rewrite fmap_cons, !filter_cons. case_decide; csimpl; by rewrite IH. Qed.

Lemma StronglySorted_lookup_lt {A} (R : relation A) (l : list A) i j x y :
  StronglySorted R l -> l !! i = Some x -> l !! j = Some y -> (i < j)%nat -> R x y.
Proof.
  intros Hs. revert i j. induction Hs as [|z l _ IH Hall]; intros [|i] [|j] Hx Hy Hij; simplify_eq/=; try lia.
  - rewrite Forall_lookup in Hall. eauto.
  - apply (IH i j); [done..|lia].
Qed.

(** ** Linux error numbers used by the runtime *)

Definition EPERM := 1.
Definition ENOENT := 2.
Definition EINTR := 4.
Definition E2BIG := 7.
Definition EBADF := 9.
Definition EFAULT := 14.
Definition EEXIST := 17.
Definition EINVAL := 22.
Definition ENOSPC := 28.
Definition ENOTSUP := 95.

(** ** Bytes in memory *)

(** A byte buffer; every element is a byte, [0 <= b < 256]. *)
Abbreviation bytes := (list Z).

Definition is_byte (b : Z) : Prop := 0 <= b < 256.

(** Little-endian integers (the runtime builds for x86_64 and aarch64 only). *)
Fixpoint le_decode (bs : bytes) : Z :=
  match bs with
  | [] => 0
  | b :: bs' => b + 256 * le_decode bs'
  end.

Fixpoint le_encode (n : nat) (z : Z) : bytes :=
  match n with
  | O => []
  | S n' => z mod 256 :: le_encode n' (z / 256)
  end.

Lemma length_le_encode n z : length (le_encode n z) = n.
Proof. revert z. induction n; intros; simpl; auto. Qed.

Lemma le_encode_bytes n z : Forall is_byte (le_encode n z).
Proof.
  revert z. induction n; intros; simpl; constructor; auto.
  apply Z.mod_pos_bound. lia.
Qed.

Lemma le_decode_encode n z :
  0 <= z < 256 ^ Z.of_nat n -> le_decode (le_encode n z) = z.
Proof.
  revert z. induction n as [|n IH]; intros z Hz; [simpl in *; lia|].
  cbn [le_encode le_decode]. rewrite IH.
  - pose proof (Z.div_mod z 256). lia.
  - rewrite Nat2Z.inj_succ, Z.pow_succ_r in Hz by lia.
    split; [apply Z.div_pos; lia | apply Z.div_lt_upper_bound; lia].
Qed.

Lemma le_decode_range bs :
  Forall is_byte bs -> 0 <= le_decode bs < 256 ^ Z.of_nat (length bs).
Proof.
  induction 1 as [|b bs [? ?] Hbs IH]; [simpl; lia|].
  cbn [le_decode length]. rewrite Nat2Z.inj_succ, Z.pow_succ_r by lia. lia.
Qed.

(** Reads and writes of a contiguous range; [None] when the range leaves the
    buffer (undefined behaviour in the source). *)
Definition read_range (off len : nat) (buf : bytes) : option bytes :=
  if decide (off + len <= length buf)%nat then Some (take len (drop off buf)) else None.

Definition write_range (off : nat) (bs buf : bytes) : option bytes :=
  if decide (off + length bs <= length buf)%nat
  then Some (take off buf ++ bs ++ drop (off + length bs) buf) else None.

Definition zeros (n : nat) : bytes := replicate n 0.

Section ranges.
Implicit Types buf bs : bytes.

Lemma read_range_Some off len buf :
  (off + len <= length buf)%nat ->
  read_range off len buf = Some (take len (drop off buf)).
Proof. intros. unfold read_range. by rewrite decide_True. Qed.

Lemma read_range_length off len buf bs :
  read_range off len buf = Some bs -> length bs = len.
Proof.
  unfold read_range. case_decide; [|done]. intros [= <-].
  rewrite length_take, length_drop. lia.
Qed.

Lemma write_range_Some off bs buf :
  (off + length bs <= length buf)%nat ->
  write_range off bs buf = Some (take off buf ++ bs ++ drop (off + length bs) buf).
Proof. intros. unfold write_range. by rewrite decide_True. Qed.

Lemma write_range_length off bs buf buf' :
  write_range off bs buf = Some buf' -> length buf' = length buf.
Proof.
  unfold write_range. case_decide; [|done]. intros [= <-].
  rewrite !length_app, length_take, length_drop. lia.
Qed.

Lemma write_range_lookup off bs buf buf' i :
  write_range off bs buf = Some buf' ->
  buf' !! i = if decide (off <= i < off + length bs)%nat then bs !! (i - off)%nat else buf !! i.
Proof.
  unfold write_range. case_decide; [|done]. intros [= <-].
  case_decide as Hi.
  - rewrite lookup_app_r; rewrite length_take; [|lia].
    rewrite lookup_app_l by lia. f_equal. lia.
  - destruct (decide (i < off)%nat).
    + rewrite lookup_app_l by (rewrite length_take; lia). by rewrite lookup_take_lt.
    + rewrite lookup_app_r; rewrite length_take; [|lia].
      rewrite lookup_app_r by lia. rewrite lookup_drop. f_equal. lia.
Qed.

Lemma read_range_lookup off len buf bs i :
  read_range off len buf = Some bs ->
  bs !! i = if decide (i < len)%nat then buf !! (off + i)%nat else None.
Proof.
  unfold read_range. case_decide; [|done]. intros [= <-]. case_decide.
  - by rewrite lookup_take_lt, lookup_drop.
  - rewrite lookup_take_ge by lia. done.
Qed.

Lemma read_write_same off bs buf buf' :
  write_range off bs buf = Some buf' -> read_range off (length bs) buf' = Some bs.
Proof.
  intros Hw. pose proof (write_range_length _ _ _ _ Hw) as Hl.
  assert (off + length bs <= length buf)%nat as Hle.
  { unfold write_range in Hw. by case_decide. }
  destruct (read_range off (length bs) buf') as [bs'|] eqn:Hr.
  - f_equal. apply list_eq. intros i. rewrite (read_range_lookup _ _ _ _ i Hr).
    rewrite (write_range_lookup _ _ _ _ _ Hw). repeat case_decide; try lia.
    + f_equal. lia.
    + symmetry. apply lookup_ge_None. lia.
  - unfold read_range in Hr. rewrite decide_True in Hr by lia. done.
Qed.

Lemma read_write_len off bs buf buf' len :
  write_range off bs buf = Some buf' -> length bs = len -> read_range off len buf' = Some bs.
Proof. intros ? <-. by eapply read_write_same. Qed.

Lemma read_write_disjoint off bs buf buf' off' len' :
  write_range off bs buf = Some buf' ->
  (off' + len' <= off \/ off + length bs <= off')%nat ->
  read_range off' len' buf' = read_range off' len' buf.
Proof.
  intros Hw Hd. pose proof (write_range_length _ _ _ _ Hw) as Hl.
  unfold read_range. rewrite Hl. case_decide; [|done]. f_equal.
  apply list_eq. intros i. destruct (decide (i < len')%nat).
  - rewrite !lookup_take_lt, !lookup_drop by done.
    rewrite (write_range_lookup _ _ _ _ _ Hw). case_decide; [lia|done].
  - by rewrite !lookup_take_ge by lia.
Qed.

Lemma write_range_is_Some off bs buf :
  (off + length bs <= length buf)%nat <-> is_Some (write_range off bs buf).
Proof.
  unfold write_range. case_decide; split; try done; eauto.
Qed.

Lemma write_range_bytes off bs buf buf' :
  write_range off bs buf = Some buf' ->
  Forall is_byte bs -> Forall is_byte buf -> Forall is_byte buf'.
Proof.
  unfold write_range. case_decide; [|done]. intros [= <-] ??.
  rewrite !Forall_app. split_and!; auto using Forall_take, Forall_drop.
Qed.

Lemma read_range_bytes off len buf bs :
  read_range off len buf = Some bs -> Forall is_byte buf -> Forall is_byte bs.
Proof.
  unfold read_range. case_decide; [|done]. intros [= <-] ?.
  auto using Forall_take, Forall_drop.
Qed.

Lemma length_zeros n : length (zeros n) = n.
Proof. apply length_replicate. Qed.

Lemma zeros_bytes n : Forall is_byte (zeros n).
Proof. apply Forall_replicate. unfold is_byte. lia. Qed.

Lemma read_zeros off len n :
  (off + len <= n)%nat -> read_range off len (zeros n) = Some (zeros len).
Proof.
  intros. rewrite read_range_Some by (by rewrite length_zeros).
  unfold zeros. rewrite drop_replicate, take_replicate. do 2 f_equal. lia.
Qed.

(** Records of [sz] bytes laid out one after the other. *)
Lemma record_range sz i n :
  (i < n)%nat -> (i * sz + sz <= n * sz)%nat.
Proof. intros. nia. Qed.

Lemma record_disjoint sz i j :
  i <> j -> (i * sz + sz <= j * sz \/ j * sz + sz <= i * sz)%nat.
Proof. intros. destruct (decide (i < j)%nat); [left|right]; nia. Qed.

Lemma read_write_record sz i j bs buf buf' :
  write_range (i * sz) bs buf = Some buf' -> length bs = sz -> i <> j ->
  read_range (j * sz) sz buf' = read_range (j * sz) sz buf.
Proof.
  intros Hw Hl Hne. apply (read_write_disjoint _ _ _ _ _ _ Hw).
  pose proof (record_disjoint sz i j Hne). lia.
Qed.

End ranges.

(** ** The execution monad

    An operation of the runtime runs on the state [S] of its object and on the
    thread's [errno]. It returns normally ([Ok]), throws a C++ exception
    ([Throw]), or does something the language leaves undefined, such as
    dereferencing a null pointer or leaving an array ([Ub]); waiting for ever on
    a lock is [Ub] too. *)

Inductive out (S A : Type) : Type :=
| Ok (a : A) (s : S) (err : Z)
| Throw (what : string) (s : S) (err : Z)
| Ub (why : string).
Arguments Ok {S A} a s err.
Arguments Throw {S A} what s err.
Arguments Ub {S A} why.

Definition M (S A : Type) : Type := S -> Z -> out S A.

#[export] Instance M_ret S : MRet (M S) := fun A a s e => Ok a s e.
#[export] Instance M_bind S : MBind (M S) := fun A B k m s e =>
  match m s e with
  | Ok a s' e' => k a s' e'
  | Throw w s' e' => Throw w s' e'
  | Ub w => Ub w
  end.

Section operations.
Context {S : Type}.

Definition get : M S S := fun s e => Ok s s e.
Definition gets {A} (f : S -> A) : M S A := fun s e => Ok (f s) s e.
Definition put (s : S) : M S unit := fun _ e => Ok tt s e.
Definition modify (f : S -> S) : M S unit := fun s e => Ok tt (f s) e.
Definition get_errno : M S Z := fun s e => Ok e s e.
Definition set_errno (e : Z) : M S unit := fun s _ => Ok tt s e.
Definition ub {A} (why : string) : M S A := fun _ _ => Ub why.
Definition throw {A} (what : string) : M S A := fun s e => Throw what s e.

(** [errno = e; return a;] *)
Definition fail_with {A} (e : Z) (a : A) : M S A := fun s _ => Ok a s e.

(** A value that must exist for the next step to be defined. *)
Definition need {A} (why : string) (o : option A) : M S A :=
  match o with Some a => mret a | None => ub why end.

(** [try { m } catch (std::exception &) { return a; }] *)
Definition try_catch {A} (m : M S A) (a : A) : M S A := fun s e =>
  match m s e with
  | Throw _ s' e' => Ok a s' e'
  | r => r
  end.

End operations.

(** Running an operation of a member object [T] of [S]. *)
Definition zoom {S T A} (view : S -> T) (upd : T -> S -> S) (m : M T A) : M S A := fun s e =>
  match m (view s) e with
  | Ok a t e' => Ok a (upd t s) e'
  | Throw w t e' => Throw w (upd t s) e'
  | Ub w => Ub w
  end.

Declare Scope bpf_scope.
Delimit Scope bpf_scope with bpf.

(** [⟪ s ; e ⟫ c ⟪ a ; s' ; e' ⟫]: from state [s] and errno [e] the operation [c]
    returns [a] and leaves state [s'] and errno [e']. *)
Notation "⟪ s ; e ⟫ c ⟪ a ; s' ; e' ⟫" := (c s e = Ok a s' e')
  (at level 0, s at level 60, e at level 60, c at level 60, a at level 60,
   s' at level 60, e' at level 60) : bpf_scope.

(** An operation that always returns: no exception, no undefined behaviour. *)
Definition returns {S A} (c : M S A) (s : S) (e : Z) : Prop :=
  exists a s' e', c s e = Ok a s' e'.

(** ** Pointer arguments

    A [const void *] argument is [None] for [nullptr] and otherwise the bytes
    that can be read behind it. *)
Abbreviation ptr := (option bytes).

Definition deref {S} (n : nat) (p : ptr) : M S bytes :=
  match p with
  | None => ub "null pointer dereference"
  | Some bs => need "read past the end of an argument" (read_range 0 n bs)
  end.

Definition deref_u32 {S} (p : ptr) : M S Z := bs ← deref 4 p; mret (le_decode bs).
Definition deref_i32 {S} (p : ptr) : M S Z := bs ← deref 4 p; mret (s32 (le_decode bs)).

(** A pointer argument from which [n] bytes can be read. *)
Definition points_to (p : ptr) (bs : bytes) : Prop :=
  exists rest, p = Some (bs ++ rest).

(** ** Loops

    [loop_pos step p a] runs at most [p] iterations of a loop body [step] that
    either continues ([inl]) or leaves the loop ([inr]). The recursion is on the
    binary representation of [p], so a generous bound costs nothing when the
    definition is evaluated. *)
Fixpoint loop_nat {A B} (step : A -> A + B) (n : nat) (a : A) : A + B :=
  match n with
  | O => inl a
  | S n' => match step a with inl a' => loop_nat step n' a' | inr b => inr b end
  end.

Fixpoint loop_pos {A B} (step : A -> A + B) (p : positive) (a : A) : A + B :=
  match p with
  | xH => step a
  | xO p' =>
      match loop_pos step p' a with
      | inl a' => loop_pos step p' a'
      | inr b => inr b
      end
  | xI p' =>
      match step a with
      | inl a0 =>
          match loop_pos step p' a0 with
          | inl a' => loop_pos step p' a'
          | inr b => inr b
          end
      | inr b => inr b
      end
  end.

Section loops.
Context {A B : Type} (step : A -> A + B).

Lemma loop_nat_add n m a :
  loop_nat step (n + m) a =
  match loop_nat step n a with inl a' => loop_nat step m a' | inr b => inr b end.
Proof.
  revert a. induction n as [|n IH]; intros a; simpl; [done|].
  destruct (step a); [apply IH|done].
Qed.

Lemma loop_pos_nat p a : loop_pos step p a = loop_nat step (Pos.to_nat p) a.
Proof.
  revert a. induction p as [p IH|p IH|]; intros a; cbn [loop_pos].
  - rewrite Pos2Nat.inj_xI. cbn [loop_nat]. destruct (step a) as [a0|b]; [|done].
    replace (2 * Pos.to_nat p)%nat with (Pos.to_nat p + Pos.to_nat p)%nat by lia.
    rewrite loop_nat_add, <- IH. destruct (loop_pos step p a0); [apply IH|done].
  - rewrite Pos2Nat.inj_xO.
    replace (2 * Pos.to_nat p)%nat with (Pos.to_nat p + Pos.to_nat p)%nat by lia.
    rewrite loop_nat_add, <- IH. destruct (loop_pos step p a); [apply IH|done].
  - change (Pos.to_nat 1) with 1%nat. simpl. by destruct (step a).
Qed.

(** More fuel does not change a loop that has already left. *)
Lemma loop_nat_mono n m a b :
  loop_nat step n a = inr b -> (n <= m)%nat -> loop_nat step m a = inr b.
Proof.
  intros Hn Hm. replace m with (n + (m - n))%nat by lia.
  rewrite loop_nat_add. by rewrite Hn.
Qed.

Lemma loop_pos_of_nat n p a b :
  loop_nat step n a = inr b -> (n <= Pos.to_nat p)%nat -> loop_pos step p a = inr b.
Proof. rewrite loop_pos_nat. apply loop_nat_mono. Qed.

(** Partial-correctness rule: an invariant kept by [inl] steps and giving the
    postcondition at the exit. *)
Lemma loop_nat_inv (Inv : A -> Prop) (Post : B -> Prop) n a b :
  Inv a ->
  (forall x y, Inv x -> step x = inl y -> Inv y) ->
  (forall x y, Inv x -> step x = inr y -> Post y) ->
  loop_nat step n a = inr b -> Post b.
Proof.
  intros Ha Hl Hr. revert a Ha. induction n as [|n IH]; intros a Ha; simpl; [done|].
  destruct (step a) eqn:E; eauto. intros [= <-]. eauto.
Qed.

(** Termination rule: a measure that decreases along [inl] steps. *)
Lemma loop_nat_total (Inv : A -> Prop) (mu : A -> nat) :
  (forall x y, Inv x -> step x = inl y -> Inv y /\ (mu y < mu x)%nat) ->
  forall n a, Inv a -> (mu a < n)%nat -> exists b, loop_nat step n a = inr b.
Proof.
  intros Hs n. induction n as [|n IH]; intros a Ha Hn; [lia|]. simpl.
  destruct (step a) as [y|b] eqn:E; [|eauto].
  destruct (Hs a y Ha E). apply IH; [done|lia].
Qed.

End loops.

(** ** Automation *)

Create HintDb bpf.
Create Rewrite HintDb bpf.
#[export] Hint Resolve length_le_encode le_encode_bytes length_zeros zeros_bytes : bpf.
#[export] Hint Resolve write_range_bytes read_range_bytes : bpf.
#[export] Hint Rewrite @length_app @length_take @length_drop @length_insert length_le_encode
  length_zeros : bpf.

(** Symbolic execution of the monad. *)
Ltac mrun :=
  cbv beta iota zeta delta
    [mbind M_bind mret M_ret get gets put modify get_errno set_errno ub throw fail_with
     need try_catch zoom deref deref_u32 deref_i32] in *.

(** The same without the pointer and option accesses. *)
Ltac mbase :=
  cbv beta iota zeta delta
    [mbind M_bind mret M_ret get gets put modify get_errno set_errno ub throw fail_with].

(** Case analysis on the conditionals of the goal, closing arithmetic branches. *)
Ltac zify_bool :=
  rewrite ?andb_true_iff, ?andb_false_iff, ?orb_true_iff, ?orb_false_iff, ?negb_true_iff,
    ?negb_false_iff, ?Z.eqb_eq, ?Z.eqb_neq, ?Z.ltb_lt, ?Z.ltb_ge, ?Z.leb_le, ?Z.leb_gt in *.

Ltac split_ifs :=
  repeat match goal with
  | |- context [if ?b then _ else _] => destruct b eqn:?
  end.

Lemma decide_is_Some {A B} (o : option A) (x y : B) :
  (if decide (is_Some o) then x else y) = match o with Some _ => x | None => y end.
Proof. destruct o; [by rewrite decide_True by eauto|by rewrite decide_False by (by intros [? [=]])]. Qed.

Section pointers.
Context {S : Type}.

Lemma deref_points_to p bs (s : S) e :
  points_to p bs -> deref (length bs) p s e = Ok bs s e.
Proof.
  intros [rest ->]. mrun. unfold read_range. rewrite decide_True.
  - by rewrite drop_0, take_app_length.
  - rewrite length_app. lia.
Qed.

Lemma deref_len n p bs (s : S) e :
  points_to p bs -> length bs = n -> deref n p s e = Ok bs s e.
Proof. intros ? <-. by apply deref_points_to. Qed.

Lemma deref_u32_points_to p k (s : S) e :
  points_to p (le_encode 4 k) -> 0 <= k < 2 ^ 32 -> deref_u32 p s e = Ok k s e.
Proof.
  intros Hp Hk. unfold deref_u32. unfold mbind, M_bind.
  rewrite (deref_len 4 _ _ _ _ Hp) by apply length_le_encode.
  unfold mret, M_ret. rewrite le_decode_encode; [done|simpl; lia].
Qed.

Lemma points_to_self bs : points_to (Some bs) bs.
Proof. exists []. by rewrite app_nil_r. Qed.

End pointers.
#[export] Hint Resolve points_to_self : bpf.
