(* ===== verification/MapCommon.v ===== *)
(** Definitions shared by the map implementations: the flags of an update and
    their check (map_common_def.hpp, var_hash_map.cpp, lru_var_hash_map.cpp), the
    kind of pointer a lookup returns, the hash container of Boost, and the
    interface ([MapImpl]) that the map handler expects of every implementation. *)
From Stdlib Require Import ZArith Lia.
From stdpp Require Import base list gmap strings.
From S2P Require Import Prelude.
Local Open Scope Z_scope.

(** ** Update flags (linux/bpf.h) *)
Definition BPF_ANY := 0.
Definition BPF_NOEXIST := 1.
Definition BPF_EXIST := 2.
Definition BPF_F_RDONLY := 8.
Definition BPF_F_WRONLY := 16.

Definition check_update_flags {S} (flags : Z) : M S bool :=
  if negb (flags =? 0) && negb (flags =? 1) && negb (flags =? 2)
  then fail_with EINVAL false
  else mret true.

Definition is_good_update_flag (flags : Z) : bool :=
  (flags =? BPF_ANY) || (flags =? BPF_EXIST) || (flags =? BPF_NOEXIST).

(** ** The pointer a lookup returns

    Where a [void *] returned by [elem_lookup] points: nowhere, at an offset of
    the implementation's flat buffer, at an offset of the value stored in the
    hash node of a key, at the implementation's scratch buffer, at a thread-local
    variable holding [v], or at no object at all (an integer cast to a pointer). *)
Inductive vptr :=
| VNull
| VBuf (off : nat)
| VNode (key : bytes) (off : nat)
| VScratch
| VThread (v : Z)
| VWord (w : Z).

#[export] Instance vptr_eq_dec : EqDecision vptr.
Proof. solve_decision. Defined.

(** ** boost::unordered_map

    The container is a list of its nodes in iteration order. Where a new node
    goes is the container's business (a rehash may move every node), so the
    insertion is an operation of this class with the documented guarantee: the
    old nodes and the new one, in some order. Finding, assigning through an
    iterator and erasing do not move the other nodes. *)
Class UnorderedMap := {
  um_place : forall {V : Type}, bytes -> V -> list (bytes * V) -> list (bytes * V);
  um_place_perm : forall {V : Type} k (v : V) l, um_place k v l ≡ₚ (k, v) :: l
}.

Section unordered_map.
Context {V : Type}.
Implicit Types (k : bytes) (v : V) (l : list (bytes * V)).

Fixpoint um_find k l : option V :=
  match l with
  | [] => None
  | (k', v) :: l' => if decide (k' = k) then Some v else um_find k l'
  end.

Fixpoint um_assign k v l : list (bytes * V) :=
  match l with
  | [] => []
  | (k', v') :: l' =>
      if decide (k' = k) then (k', v) :: l' else (k', v') :: um_assign k v l'
  end.

Fixpoint um_erase k l : list (bytes * V) :=
  match l with
  | [] => []
  | (k', v') :: l' => if decide (k' = k) then l' else (k', v') :: um_erase k l'
  end.

(** [find(k)], then [itr++]: the key after [k], if any. *)
Fixpoint um_next k l : option bytes :=
  match l with
  | [] => None
  | (k', _) :: l' => if decide (k' = k) then fst <$> head l' else um_next k l'
  end.

Definition um_insert_or_assign `{UnorderedMap} k v l : list (bytes * V) :=
  match um_find k l with
  | Some _ => um_assign k v l
  | None => um_place k v l
  end.

(** Distinct keys, and the finite map a container stands for. *)
Definition um_wf l : Prop := NoDup l.*1.
Definition um_abs l : gmap bytes V := list_to_map l.

End unordered_map.

(** ** What the map handler expects of an implementation

    The generic lambdas of map_handler.cpp ([do_lookup], [do_update],
    [do_delete], [do_get_next_key]) call these members of whatever
    implementation the map's type selects. [map_get_next_key key next_key]
    takes whether [next_key] is non-null and returns the code with what was
    written behind [next_key]. *)
Class MapImpl (S : Type) := {
  should_lock : bool;
  elem_lookup : ptr -> M S vptr;
  elem_update : ptr -> ptr -> Z -> M S Z;
  elem_delete : ptr -> M S Z;
  map_get_next_key : ptr -> bool -> M S (Z * option bytes)
}.

(** [std::copy(.., next_key); return 0;] *)
Definition write_next_key {S} (next_key : bool) (k : bytes) : M S (Z * option bytes) :=
  if next_key then mret (0, Some k) else ub "null pointer dereference".

(** The body of [map_get_next_key] of the maps indexed by a [uint32_t] below
    [max_entries] (array_map.cpp and per_cpu_array_map.cpp have the same text). *)
Definition index_next_key {S} (max_entries : Z) (key : ptr) (next_key : bool)
    : M S (Z * option bytes) :=
  match key with
  | None => write_next_key next_key (le_encode 4 0)
  | Some _ =>
      deref_key ← deref_u32 key;
      if max_entries <=? deref_key then write_next_key next_key (le_encode 4 0)
      else if deref_key =? u32 (max_entries - 1) then fail_with ENOENT (-1, None)
      else write_next_key next_key (le_encode 4 (u32 (deref_key + 1)))
  end.

(** The first key of a container, and the one after [key] (the first one again
    when [key] is not there): the tail of [map_get_next_key] of the maps built on
    boost::unordered_map. *)
Definition um_first_key {S V} (l : list (bytes * V)) (next_key : bool) : M S (Z * option bytes) :=
  match l with
  | [] => fail_with ENOENT (-1, None)
  | (k, _) :: _ => write_next_key next_key k
  end.

Definition um_key_after {S V} (k : bytes) (l : list (bytes * V)) (next_key : bool)
    : M S (Z * option bytes) :=
  match um_find k l with
  | None => um_first_key l next_key
  | Some _ =>
      match um_next k l with
      | None => fail_with ENOENT (-1, None)
      | Some k' => write_next_key next_key k'
      end
  end.

(** The client loop described in the comments of map_handler.hpp: ask for the
    first key, then for the one after it, until -1. *)
Fixpoint iterate_keys {S} `{MapImpl S} (fuel : nat) (key : ptr) : M S (list bytes) :=
  match fuel with
  | O => ub "loop bound"
  | S fuel' =>
      r ← map_get_next_key key true;
      if r.1 <? 0 then mret []
      else match r.2 with
           | Some k => ks ← iterate_keys fuel' (Some k); mret (k :: ks)
           | None => mret []
           end
  end.

(** ** The contract of a bounded key/value map

    What linux/bpf.h and the comments of map_handler.hpp promise of an update of
    a hash-like map holding [g] with room for [max] elements: the errno and the
    new contents. *)
Definition spec_update (max : Z) (k v : bytes) (flags : Z) (g : gmap bytes bytes)
    : Z + gmap bytes bytes :=
  if negb (is_good_update_flag flags) then inl EINVAL
  else match g !! k with
       | Some _ => if flags =? BPF_NOEXIST then inl EEXIST else inr (<[k := v]> g)
       | None =>
           if flags =? BPF_EXIST then inl ENOENT
           else if Z.of_nat (size g) =? max then inl E2BIG
           else inr (<[k := v]> g)
       end.

(** The [long] and the errno of a call that ends with the outcome [o]. *)
Definition spec_ret {A} (o : Z + A) : Z := match o with inl _ => -1 | inr _ => 0 end.
Definition spec_errno {A} (o : Z + A) (e : Z) : Z := match o with inl e' => e' | inr _ => e end.

(** ** Lemmas *)

Lemma check_update_flags_run {S} flags (s : S) e :
  check_update_flags flags s e =
  if is_good_update_flag flags then Ok true s e else Ok false s EINVAL.
Proof.
  unfold check_update_flags, is_good_update_flag, BPF_ANY, BPF_EXIST, BPF_NOEXIST. mrun.
  destruct (flags =? 0), (flags =? 1), (flags =? 2); done.
Qed.

(** One turn of the iteration. *)
Lemma iterate_keys_done {S} `{MapImpl S} fuel key (s : S) e s' e' :
  map_get_next_key key true s e = Ok (-1, None) s' e' ->
  iterate_keys (Datatypes.S fuel) key s e = Ok [] s' e'.
Proof. intros Hn. cbn [iterate_keys]. mbase. by rewrite Hn. Qed.

Lemma iterate_keys_more {S} `{MapImpl S} fuel key k ks (s : S) e s' e' s'' e'' :
  map_get_next_key key true s e = Ok (0, Some k) s' e' ->
  iterate_keys fuel (Some k) s' e' = Ok ks s'' e'' ->
  iterate_keys (Datatypes.S fuel) key s e = Ok (k :: ks) s'' e''.
Proof. intros Hn Hi. cbn [iterate_keys]. mbase. rewrite Hn. simpl. by rewrite Hi. Qed.

(** The keys [from], .., [from + n - 1] of an indexed map, encoded. *)
Definition index_keys (from n : nat) : list bytes :=
  (fun i => le_encode 4 (Z.of_nat i)) <$> seq from n.

(** Iteration over an indexed map. *)
Section index_iteration.
Context {S : Type} `{MapImpl S} (s : S) (max : Z).
Hypothesis Hmax : 0 < max < 2 ^ 32.
Hypothesis Hnext : forall key e, map_get_next_key key true s e = index_next_key max key true s e.

Lemma index_next_key_run i e :
  0 <= i < max ->
  index_next_key max (Some (le_encode 4 i)) true s e =
  if decide (i + 1 = max) then Ok (-1, None) s ENOENT
  else Ok (0, Some (le_encode 4 (i + 1))) s e.
Proof using Hmax.
  intros Hi. unfold index_next_key. mbase.
  rewrite (deref_u32_points_to _ i) by (auto with bpf; lia).
  rewrite (proj2 (Z.leb_gt _ _)) by lia. rewrite !wrap_small by lia.
  case_decide as Hd.
  - by rewrite (proj2 (Z.eqb_eq _ _)) by lia.
  - by rewrite (proj2 (Z.eqb_neq _ _)) by lia.
Qed.

Lemma index_iterate_from n i fuel e :
  Z.of_nat (i + Datatypes.S n) = max -> (n < fuel)%nat ->
  iterate_keys fuel (Some (le_encode 4 (Z.of_nat i))) s e =
  Ok (index_keys (Datatypes.S i) n) s ENOENT.
Proof.
  revert i fuel e. induction n as [|n IH]; intros i fuel e Hi Hf;
    (destruct fuel as [|fuel]; [lia|]).
  - apply iterate_keys_done. rewrite Hnext, index_next_key_run by lia. by rewrite decide_True by lia.
  - eapply iterate_keys_more with (k := le_encode 4 (Z.of_nat (Datatypes.S i))); [|apply IH; lia].
    rewrite Hnext, index_next_key_run by lia. rewrite decide_False by lia. do 4 f_equal. lia.
Qed.

Lemma index_iterate e :
  iterate_keys (Datatypes.S (Z.to_nat max)) None s e = Ok (index_keys 0 (Z.to_nat max)) s ENOENT.
Proof.
  destruct (Z.to_nat max) as [|n] eqn:Hn; [lia|].
  eapply iterate_keys_more with (k := le_encode 4 (Z.of_nat 0)); [by rewrite Hnext|].
  by apply (index_iterate_from n); lia.
Qed.

End index_iteration.

Section unordered_map_lemmas.
Context {V : Type}.
Implicit Types (k : bytes) (v : V) (l : list (bytes * V)).

Lemma um_find_abs k l : um_find k l = um_abs l !! k.
Proof.
  unfold um_abs. induction l as [|[k' v'] l IH]; simpl; [by rewrite lookup_empty|].
  case_decide; [subst; by rewrite lookup_insert_eq|by rewrite lookup_insert_ne].
Qed.

Lemma um_find_None k l : um_find k l = None <-> k ∉ l.*1.
Proof. rewrite um_find_abs. unfold um_abs. symmetry. apply not_elem_of_list_to_map. Qed.

Lemma um_find_elem k v l : um_find k l = Some v -> (k, v) ∈ l.
Proof.
  induction l as [|[k' v'] l IH]; simpl; [done|].
  case_decide; [intros [= ->]; subst; left|intros; right; auto].
Qed.

Lemma um_elem_find k v l : um_wf l -> (k, v) ∈ l -> um_find k l = Some v.
Proof. intros. rewrite um_find_abs. by apply elem_of_list_to_map. Qed.

Lemma um_size l : um_wf l -> size (um_abs l) = length l.
Proof.
  intros Hwf. unfold um_abs, um_wf in *. induction l as [|[k v] l IH]; simpl in *; [done|].
  apply NoDup_cons in Hwf as [Hk Hwf].
  rewrite map_size_insert_None by (by apply not_elem_of_list_to_map_1). by rewrite IH.
Qed.

Lemma um_assign_keys k v l : (um_assign k v l).*1 = l.*1.
Proof. induction l as [|[k' v'] l IH]; simpl; [done|]. case_decide; simpl; by f_equal. Qed.

Lemma um_assign_wf k v l : um_wf l -> um_wf (um_assign k v l).
Proof. unfold um_wf. by rewrite um_assign_keys. Qed.

Lemma um_assign_abs k v l :
  is_Some (um_find k l) -> um_abs (um_assign k v l) = <[k := v]> (um_abs l).
Proof.
  unfold um_abs. induction l as [|[k' v'] l IH]; simpl; [intros [? [=]]|].
  case_decide as Hk; simpl.
  - intros _. subst. by rewrite insert_insert_eq.
  - intros Hs. rewrite IH by done. by apply insert_insert_ne.
Qed.

Lemma um_erase_keys_sub k l : (um_erase k l).*1 ⊆ l.*1.
Proof.
  induction l as [|[k' v'] l IH]; simpl; [done|]. intros x Hx.
  case_decide; simpl in *; [by right|].
  apply elem_of_cons in Hx as [->|Hx]; [left|right; by apply IH].
Qed.

Lemma um_erase_wf k l : um_wf l -> um_wf (um_erase k l).
Proof.
  unfold um_wf. induction l as [|[k' v'] l IH]; simpl; [done|].
  rewrite NoDup_cons. intros [Hk Hl]. case_decide; [done|]. simpl.
  apply NoDup_cons. split; [|auto]. intros Hin. apply Hk. by apply (um_erase_keys_sub k).
Qed.

Lemma um_erase_abs k l : um_wf l -> um_abs (um_erase k l) = delete k (um_abs l).
Proof.
  unfold um_wf, um_abs. induction l as [|[k' v'] l IH]; simpl; [by rewrite delete_empty|].
  rewrite NoDup_cons. intros [Hk Hl]. case_decide as He.
  - subst. rewrite delete_insert_eq. symmetry. apply delete_id.
    by apply not_elem_of_list_to_map_1.
  - simpl. rewrite IH by done. by rewrite delete_insert_ne.
Qed.

Lemma um_erase_length k l :
  is_Some (um_find k l) -> S (length (um_erase k l)) = length l.
Proof.
  induction l as [|[k' v'] l IH]; simpl; [intros [? [=]]|].
  case_decide; simpl; [done|]. intros. by rewrite IH.
Qed.

Context `{UnorderedMap}.

Lemma um_place_wf k v l : um_wf l -> um_find k l = None -> um_wf (um_place k v l).
Proof.
  intros Hl Hk. unfold um_wf. rewrite (um_place_perm k v l). simpl.
  apply NoDup_cons. split; [by apply um_find_None|done].
Qed.

Lemma um_place_abs k v l :
  um_wf l -> um_find k l = None -> um_abs (um_place k v l) = <[k := v]> (um_abs l).
Proof.
  intros Hl Hk. unfold um_abs.
  change (<[k:=v]> (list_to_map l)) with (list_to_map ((k, v) :: l) : gmap bytes V).
  apply list_to_map_proper; [by apply um_place_wf|apply um_place_perm].
Qed.

Lemma um_insert_or_assign_wf k v l : um_wf l -> um_wf (um_insert_or_assign k v l).
Proof.
  intros. unfold um_insert_or_assign.
  destruct (um_find k l) eqn:?; [by apply um_assign_wf|by apply um_place_wf].
Qed.

Lemma um_insert_or_assign_abs k v l :
  um_wf l -> um_abs (um_insert_or_assign k v l) = <[k := v]> (um_abs l).
Proof.
  intros. unfold um_insert_or_assign.
  destruct (um_find k l) eqn:E; [apply um_assign_abs; eauto|by apply um_place_abs].
Qed.

(** Following [um_next] from the first key walks through the keys in order. *)
Lemma um_next_lookup l i k :
  um_wf l -> l.*1 !! i = Some k -> um_next k l = l.*1 !! S i.
Proof.
  unfold um_wf. revert i. induction l as [|[k' v'] l IH]; intros i Hl Hi; simpl in *; [done|].
  apply NoDup_cons in Hl as [Hk Hl]. destruct i as [|i]; simpl in *.
  - injection Hi as ->. rewrite decide_True by done. destruct l as [|[??]]; done.
  - case_decide; [|by apply IH]. subst. exfalso. apply Hk. by eapply list_elem_of_lookup_2.
Qed.

Lemma um_next_None_last k l :
  um_wf l -> is_Some (um_find k l) -> um_next k l = None -> last l.*1 = Some k.
Proof.
  intros Hwf [v Hv] Hn. apply um_find_elem in Hv.
  apply (list_elem_of_fmap_2 fst) in Hv. simpl in Hv.
  apply list_elem_of_lookup in Hv as [i Hi].
  rewrite (um_next_lookup l i k) in Hn by done.
  rewrite last_lookup. apply lookup_ge_None in Hn.
  pose proof (lookup_lt_Some _ _ _ Hi). rewrite <- Hi. f_equal. lia.
Qed.

End unordered_map_lemmas.

(** Iteration over a container-based map: an operation that keeps the container
    [l] (and the invariant [Inv] of the rest of the state) lists its keys. *)
Section um_iteration.
Context {S V : Type} `{MapImpl S} (l : list (bytes * V)) (Inv : S -> Prop).
Hypothesis Hwf : um_wf l.
Hypothesis Hfirst : forall s e, Inv s ->
  exists s', Inv s' /\ map_get_next_key None true s e = um_first_key l true s' e.
Hypothesis Hnext : forall s e k, Inv s -> k ∈ l.*1 ->
  exists s', Inv s' /\ map_get_next_key (Some k) true s e = um_key_after k l true s' e.

Lemma um_iterate_from n i k s e :
  Inv s -> l.*1 !! i = Some k -> (n = length l - i)%nat ->
  exists s', Inv s' /\ iterate_keys n (Some k) s e = Ok (drop (Datatypes.S i) l.*1) s' ENOENT.
Proof using Hwf Hnext.
  revert i k s e. induction n as [|n IH]; intros i k s e Hs Hk Hn.
  { apply lookup_lt_Some in Hk. rewrite length_fmap in Hk. lia. }
  pose proof (list_elem_of_lookup_2 _ _ _ Hk) as Hin.
  destruct (Hnext s e k Hs Hin) as (s1 & Hs1 & Hrun). unfold um_key_after in Hrun.
  destruct (um_find k l) eqn:Hf; [|by apply um_find_None in Hf].
  rewrite (um_next_lookup l i k Hwf Hk) in Hrun.
  destruct (l.*1 !! Datatypes.S i) as [k'|] eqn:Hk'.
  - destruct (IH (Datatypes.S i) k' s1 e Hs1 Hk' ltac:(lia)) as (s2 & Hs2 & Hit).
    exists s2. split; [done|]. rewrite (drop_S _ k' _ Hk').
    by eapply iterate_keys_more.
  - exists s1. split; [done|]. rewrite drop_ge by (by apply lookup_ge_None).
    by apply iterate_keys_done.
Qed.

Lemma um_iterate s e :
  Inv s ->
  exists s', Inv s' /\ iterate_keys (Datatypes.S (length l)) None s e = Ok l.*1 s' ENOENT.
Proof using Hwf Hfirst Hnext.
  intros Hs. destruct (Hfirst s e Hs) as (s1 & Hs1 & Hrun).
  assert (l.*1 = [] \/ exists k ks, l.*1 = k :: ks) as [El|(k & ks & El)].
  { destruct (l.*1); eauto. }
  - exists s1. split; [done|]. rewrite El. apply iterate_keys_done. rewrite Hrun.
    by apply fmap_nil_inv in El as ->.
  - destruct (um_iterate_from (length l) 0 k s1 e Hs1) as (s2 & Hs2 & Hit);
      [by rewrite El|lia|].
    exists s2. split; [done|]. rewrite El in *. eapply iterate_keys_more; [|exact Hit].
    rewrite Hrun. clear - El. destruct l as [|[??] ?]; by simplify_eq/=.
Qed.

End um_iteration.

#[export] Hint Resolve um_assign_wf um_erase_wf um_place_wf um_insert_or_assign_wf : bpf.

(** A container that appends new nodes: the documented guarantee can be met. *)
Lemma um_append_perm {V} (k : bytes) (v : V) l : l ++ [(k, v)] ≡ₚ (k, v) :: l.
Proof. by rewrite Permutation_app_comm. Qed.

Definition um_append : UnorderedMap :=
  {| um_place := fun V k v l => l ++ [(k, v)]; um_place_perm := fun V => um_append_perm |}.
