(* ===== verification/Primes.v ===== *)
(** The bucket count of a hash map: [bpftime_hash_map::is_prime] and
    [next_prime] (bpf_map/bpftime_hash_map.hpp), with their correctness against
    the number-theoretic notion and the bound on what the constructor computes. *)
From Stdlib Require Import ZArith Znumtheory Lia.
From stdpp Require Import base list.
From S2P Require Import Prelude.
Local Open Scope Z_scope.

(** One turn of [for (size_t i = 5; i * i <= n; i += 6)]. *)
Definition is_prime_step (n i : Z) : Z + bool :=
  if u64 (i * i) <=? n then
    if (n mod i =? 0) || (n mod (u64 (i + 2)) =? 0) then inr false else inl (u64 (i + 6))
  else inr true.

Definition is_prime (n : Z) : bool :=
  if n <=? 1 then false
  else if n <=? 3 then true
  else if (n mod 2 =? 0) || (n mod 3 =? 0) then false
  else match loop_pos (is_prime_step n) (2 ^ 32)%positive 5 with
       | inr b => b
       | inl _ => false
       end.

(** [while (!is_prime(n)) ++n; return n;] *)
Definition next_prime_step (n : Z) : Z + Z :=
  if is_prime n then inr n else inl (u64 (n + 1)).

Definition next_prime (n : Z) : Z :=
  match loop_pos next_prime_step (2 ^ 33)%positive n with
  | inr p => p
  | inl _ => 0
  end.

Section trial_division.
Variable n : Z.
Hypothesis Hn : 3 < n < 2 ^ 62.
Hypothesis Hodd : n mod 2 <> 0.
Hypothesis Hthree : n mod 3 <> 0.

(** What is known when the loop variable is [i]. *)
Definition trial_inv (i : Z) : Prop :=
  5 <= i <= 2 ^ 31 + 6 /\ i mod 6 = 5 /\ forall d, 1 < d < i -> ~ (d | n).

Lemma divide_mod_trans d p : 0 < p -> d mod p = 0 -> n mod p <> 0 -> ~ (d | n).
Proof.
  intros Hp Hd Hnp Hdn. apply Hnp. apply Z.mod_divide; [lia|].
  apply Z.divide_trans with d; [apply Z.mod_divide; [lia|done]|done].
Qed.

Lemma trial_inv_start : trial_inv 5.
Proof.
  split; [lia|split; [done|]]. intros d Hd.
  assert (d = 2 \/ d = 3 \/ d = 4) as [->|[->| ->]] by lia;
    [apply (divide_mod_trans _ 2)|apply (divide_mod_trans _ 3)|apply (divide_mod_trans _ 2)];
    done || lia.
Qed.

Lemma trial_square i : trial_inv i -> u64 (i * i) = i * i.
Proof. intros (Hi & _). apply wrap_small. nia. Qed.

Lemma trial_next i :
  trial_inv i -> is_prime_step n i = inl (u64 (i + 6)) -> trial_inv (i + 6) /\ i < 2 ^ 31.
Proof.
  intros Hinv. pose proof (trial_square i Hinv) as Hsq.
  destruct Hinv as (Hi & Hi6 & Hd). unfold is_prime_step. rewrite Hsq.
  destruct (Z.leb_spec (i * i) n) as [Hle|]; [|done].
  assert (i < 2 ^ 31) by nia.
  rewrite (wrap_small 64 (i + 2)) by lia.
  destruct (_ || _) eqn:Hmod; [done|]. intros _. zify_bool. destruct Hmod as [Hm1 Hm2].
  split; [|done]. split; [lia|split].
  - rewrite <- Z.add_mod_idemp_l, Hi6 by lia. done.
  - intros d Hd'. destruct (decide (d < i)); [apply Hd; lia|].
    destruct (decide (d = i)) as [->|]; [rewrite <- Z.mod_divide by lia; lia|].
    destruct (decide (d = i + 2)) as [->|]; [rewrite <- Z.mod_divide by lia; lia|].
    assert (exists q, i = 6 * q + 5) as [q ->] by (exists (i / 6); pose proof (Z.div_mod i 6); lia).
    assert (d = 6 * q + 6 \/ d = 6 * q + 8 \/ d = 6 * q + 9 \/ d = 6 * q + 10)
      as [->|[->|[->| ->]]] by lia;
      [apply (divide_mod_trans _ 2)|apply (divide_mod_trans _ 2)
      |apply (divide_mod_trans _ 3)|apply (divide_mod_trans _ 2)]; try done; try lia.
    all: apply Z.mod_divide; [lia|].
    + exists (3 * q + 3); lia.
    + exists (3 * q + 4); lia.
    + exists (2 * q + 3); lia.
    + exists (3 * q + 5); lia.
Qed.

Lemma trial_exit i b : trial_inv i -> is_prime_step n i = inr b -> (b = true <-> prime n).
Proof.
  intros Hinv. pose proof (trial_square i Hinv) as Hsq.
  destruct Hinv as (Hi & Hi6 & Hd). unfold is_prime_step. rewrite Hsq.
  rewrite <- prime_alt.
  destruct (Z.leb_spec (i * i) n) as [Hle|Hgt].
  - assert (i < 2 ^ 31) by nia. rewrite (wrap_small 64 (i + 2)) by lia.
    destruct (_ || _) eqn:Hmod; [|done]. intros [= <-]. split; [done|].
    intros [_ Hp]. exfalso. zify_bool. destruct Hmod as [Hm|Hm].
    + apply (Hp i); [nia|]. apply Z.mod_divide; lia.
    + apply (Hp (i + 2)); [nia|]. apply Z.mod_divide; lia.
  - intros [= <-]. split; [|done]. intros _. split; [lia|].
    intros d Hdn [q Hq]. destruct (decide (d < i)).
    + apply (Hd d); [lia|]. by exists q.
    + apply (Hd q); [nia|]. exists d. lia.
Qed.

Lemma trial_step_inl i j : is_prime_step n i = inl j -> j = u64 (i + 6).
Proof. unfold is_prime_step. repeat case_match; congruence. Qed.

Lemma trial_loop :
  exists b, loop_pos (is_prime_step n) (2 ^ 32)%positive 5 = inr b /\ (b = true <-> prime n).
Proof.
  assert (forall i j, trial_inv i -> is_prime_step n i = inl j -> trial_inv j /\ j = i + 6 /\ i < 2 ^ 31)
    as Hstep.
  { intros i j Hi Hj. pose proof (trial_step_inl _ _ Hj) as ->.
    destruct (trial_next i Hi Hj) as [Hinv Hlt].
    rewrite wrap_small by (destruct Hi; lia). done. }
  destruct (loop_nat_total (is_prime_step n) trial_inv (fun i => Z.to_nat (2 ^ 31 + 6 - i)))
    with (n := Pos.to_nat (2 ^ 32)) (a := 5) as [b Hb].
  - intros x y Hx Hy. destruct (Hstep x y Hx Hy) as (? & -> & ?). split; [done|lia].
  - apply trial_inv_start.
  - lia.
  - exists b. rewrite loop_pos_nat. split; [done|].
    apply (loop_nat_inv (is_prime_step n) trial_inv (fun b => b = true <-> prime n)
             (Pos.to_nat (2 ^ 32)) 5 b trial_inv_start); [|by apply trial_exit|done].
    intros x y Hx Hy. by apply (Hstep x y).
Qed.

End trial_division.

Lemma is_prime_correct n : 0 <= n < 2 ^ 62 -> (is_prime n = true <-> prime n).
Proof.
  intros Hn. unfold is_prime.
  destruct (Z.leb_spec n 1).
  { split; [done|]. intros [? _]. lia. }
  destruct (Z.leb_spec n 3).
  { split; [|done]. intros _. assert (n = 2 \/ n = 3) as [->| ->] by lia;
      [apply prime_2|apply prime_3]. }
  destruct (_ || _) eqn:Hm.
  - split; [done|]. rewrite <- prime_alt. intros [_ Hp]. exfalso. zify_bool. destruct Hm as [Hm|Hm].
    + apply (Hp 2); [lia|]. apply Z.mod_divide; lia.
    + apply (Hp 3); [lia|]. apply Z.mod_divide; lia.
  - zify_bool. destruct Hm. destruct (trial_loop n) as (b & -> & Hb); [lia|done|done|done].
Qed.

(** The first prime above 2^32, which bounds every bucket count. *)
Definition bucket_bound : Z := 4294967311.

Lemma bucket_bound_prime : is_prime bucket_bound = true.
Proof. vm_compute. reflexivity. Qed.

Lemma next_prime_correct n :
  0 <= n <= 2 ^ 32 ->
  n <= next_prime n <= bucket_bound /\ prime (next_prime n) /\
  forall q, n <= q < next_prime n -> ~ prime q.
Proof.
  intros Hn. unfold next_prime.
  set (Inv := fun x => n <= x <= bucket_bound /\ forall q, n <= q < x -> ~ prime q).
  assert (forall x y, Inv x -> next_prime_step x = inl y -> Inv y /\ y = x + 1 /\ x < bucket_bound)
    as Hstep.
  { intros x y [Hx Hq]. unfold next_prime_step. destruct (is_prime x) eqn:E; [done|].
    intros [= <-]. assert (x <> bucket_bound) by (intros ->; rewrite bucket_bound_prime in E; done).
    unfold bucket_bound in *. rewrite wrap_small by lia. split; [|lia]. split; [lia|].
    intros q Hq'. destruct (decide (q < x)); [apply Hq; lia|].
    assert (q = x) as -> by lia. rewrite <- is_prime_correct by lia. by rewrite E. }
  assert (Inv n) as Hinv by (split; [unfold bucket_bound; lia|lia]).
  destruct (loop_nat_total next_prime_step Inv (fun x => Z.to_nat (bucket_bound - x)))
    with (n := Pos.to_nat (2 ^ 33)) (a := n) as [p Hp].
  - intros x y Hx Hy. destruct (Hstep x y Hx Hy) as (? & -> & ?). split; [done|lia].
  - done.
  - unfold bucket_bound. lia.
  - rewrite loop_pos_nat, Hp.
    apply (loop_nat_inv next_prime_step Inv
             (fun p => n <= p <= bucket_bound /\ prime p /\ forall q, n <= q < p -> ~ prime q)
             (Pos.to_nat (2 ^ 33)) n p Hinv); [|intros x y [Hx Hq]|done].
    + intros x y Hx Hy. by apply (Hstep x y).
    + unfold next_prime_step. destruct (is_prime x) eqn:E; [|done]. intros [= <-].
      split; [done|split; [|done]]. apply is_prime_correct; [unfold bucket_bound in *; lia|done].
Qed.

Lemma next_prime_example : next_prime 4 = 5 /\ next_prime 1024 = 1031 /\ next_prime 0 = 2.
Proof. vm_compute. done. Qed.
