(* ===== verification/HashMap.v ===== *)
(** [bpftime_hash_map] (bpf_map/bpftime_hash_map.hpp): the fixed-size hash table
    with open addressing and linear probing that backs BPF_MAP_TYPE_HASH, kept
    in one byte buffer of [4 + key_size + value_size] bytes per bucket.

    The operations are modelled on the buffer, byte by byte. [hm_slot] reads a
    bucket back as an optional key/value pair, and the theorems relate the
    operations to what the buckets hold. *)
From Stdlib Require Import ZArith Znumtheory Lia.
From stdpp Require Import base list gmap strings.
From S2P Require Import Prelude MapCommon Primes.
Local Open Scope Z_scope.
#[local] Arguments Nat.add : simpl never.
#[local] Arguments Nat.mul : simpl never.

Record bpftime_hash_map := mk_hash_map {
  hm_key_size : nat;
  hm_value_size : nat;
  hm_num_buckets : nat;
  hm_max_element_count : Z;
  hm_count : Z;
  hm_data_buffer : bytes
}.

Definition hm_set_data (b : bytes) (m : bpftime_hash_map) : bpftime_hash_map :=
  mk_hash_map (hm_key_size m) (hm_value_size m) (hm_num_buckets m)
    (hm_max_element_count m) (hm_count m) b.
Definition hm_set_count (c : Z) (m : bpftime_hash_map) : bpftime_hash_map :=
  mk_hash_map (hm_key_size m) (hm_value_size m) (hm_num_buckets m)
    (hm_max_element_count m) c (hm_data_buffer m).

(** The constructor; the size of the buffer is a [size_t] product. *)
Definition hash_map_new (num_buckets key_size value_size : Z) : bpftime_hash_map :=
  let nb := next_prime num_buckets in
  mk_hash_map (Z.to_nat key_size) (Z.to_nat value_size) (Z.to_nat nb) num_buckets 0
    (zeros (Z.to_nat (u64 (nb * (4 + key_size + value_size))))).

Definition get_elem_offset (m : bpftime_hash_map) (index : nat) : nat :=
  index * (4 + hm_key_size m + hm_value_size m).

Definition hash_step (hash b : Z) : Z := u64 (hash * 31 + b).
Definition hash_func (key : bytes) : Z := foldl hash_step 0 key.

Section accessors.
Abbreviation HM := (M bpftime_hash_map).

Definition is_empty (index : nat) : HM bool :=
  m ← get;
  flag ← need "read outside data_buffer"
    (read_range (get_elem_offset m index) 4 (hm_data_buffer m));
  mret (le_decode flag =? 0).

Definition hm_write (off : nat) (bs : bytes) : HM unit :=
  m ← get;
  b ← need "write outside data_buffer" (write_range off bs (hm_data_buffer m));
  put (hm_set_data b m).

Definition set_empty (index : nat) : HM unit :=
  m ← get; hm_write (get_elem_offset m index) (le_encode 4 0).

Definition set_filled (index : nat) : HM unit :=
  m ← get; hm_write (get_elem_offset m index) (le_encode 4 1).

(** [get_key] and [get_value] return addresses inside the buffer. *)
Definition get_key (m : bpftime_hash_map) (index : nat) : nat :=
  (get_elem_offset m index + 4)%nat.

Definition get_value (m : bpftime_hash_map) (index : nat) : nat :=
  (get_elem_offset m index + 4 + hm_key_size m)%nat.

(** [None] stands for [(size_t)-1]. *)
Definition get_index_of_value (m : bpftime_hash_map) (value : vptr) : option nat :=
  match value with
  | VBuf off =>
      if decide (length (hm_data_buffer m) <= off)%nat then None
      else Some (off / (4 + hm_key_size m + hm_value_size m))%nat
  | _ => None
  end.

(** [std::memcmp(get_key(index), key, _key_size) == 0] *)
Definition key_matches (index : nat) (key : bytes) : HM bool :=
  m ← get;
  k ← need "read outside data_buffer"
    (read_range (get_key m index) (hm_key_size m) (hm_data_buffer m));
  mret (bool_decide (k = key)).

(** The first bucket to try, [hash_func(key) % _num_buckets]. *)
Definition start_bucket (key : bytes) : HM nat :=
  m ← get;
  if (hm_num_buckets m =? 0)%nat then ub "division by zero"
  else mret (Z.to_nat (hash_func key mod Z.of_nat (hm_num_buckets m))).

Definition next_bucket (m : bpftime_hash_map) (index : nat) : nat :=
  ((index + 1) mod hm_num_buckets m)%nat.

(** The three probe loops, [do { ... } while (index != start_index);]. They make
    at most [_num_buckets] turns, which is the fuel they are started with. *)
Fixpoint lookup_loop (fuel : nat) (key : bytes) (start index : nat) : HM vptr :=
  match fuel with
  | O => ub "loop bound"
  | S fuel' =>
      empty ← is_empty index;
      if (empty : bool) then mret VNull
      else
        eq ← key_matches index key;
        m ← get;
        if (eq : bool) then mret (VBuf (get_value m index))
        else if (next_bucket m index =? start)%nat then mret VNull
             else lookup_loop fuel' key start (next_bucket m index)
  end.

Definition hash_map_elem_lookup (key : ptr) : HM vptr :=
  m ← get;
  k ← deref (hm_key_size m) key;
  start ← start_bucket k;
  lookup_loop (hm_num_buckets m) k start start.

Fixpoint update_loop (fuel : nat) (key : bytes) (value : ptr) (start index : nat) : HM bool :=
  match fuel with
  | O => ub "loop bound"
  | S fuel' =>
      empty ← is_empty index;
      m ← get;
      if (empty : bool) then
        if hm_max_element_count m <=? hm_count m then mret false
        else
          hm_write (get_key m index) key;;
          v ← deref (hm_value_size m) value;
          hm_write (get_value m index) v;;
          set_filled index;;
          modify (fun m => hm_set_count (u64 (hm_count m + 1)) m);;
          mret true
      else
        eq ← key_matches index key;
        if (eq : bool) then
          v ← deref (hm_value_size m) value;
          hm_write (get_value m index) v;; mret true
        else if (next_bucket m index =? start)%nat then mret false
             else update_loop fuel' key value start (next_bucket m index)
  end.

Definition hash_map_elem_update (key value : ptr) : HM bool :=
  m ← get;
  k ← deref (hm_key_size m) key;
  start ← start_bucket k;
  update_loop (hm_num_buckets m) k value start start.

Fixpoint delete_loop (fuel : nat) (key : bytes) (start index : nat) : HM bool :=
  match fuel with
  | O => ub "loop bound"
  | S fuel' =>
      empty ← is_empty index;
      if (empty : bool) then mret false
      else
        eq ← key_matches index key;
        m ← get;
        if (eq : bool) then
          set_empty index;;
          modify (fun m => hm_set_count (u64 (hm_count m - 1)) m);;
          mret true
        else if (next_bucket m index =? start)%nat then mret false
             else delete_loop fuel' key start (next_bucket m index)
  end.

Definition hash_map_elem_delete (key : ptr) : HM bool :=
  m ← get;
  k ← deref (hm_key_size m) key;
  start ← start_bucket k;
  delete_loop (hm_num_buckets m) k start start.

Definition get_elem_count (m : bpftime_hash_map) : Z := hm_count m.

End accessors.

(** ** What a bucket holds *)

Definition hm_esz (m : bpftime_hash_map) : nat := 4 + hm_key_size m + hm_value_size m.

Definition hm_bytes (m : bpftime_hash_map) (off len : nat) : bytes :=
  default [] (read_range off len (hm_data_buffer m)).

Definition hm_slot (m : bpftime_hash_map) (i : nat) : option (bytes * bytes) :=
  if le_decode (hm_bytes m (get_elem_offset m i) 4) =? 0 then None
  else Some (hm_bytes m (get_key m i) (hm_key_size m),
             hm_bytes m (get_value m i) (hm_value_size m)).

Definition hm_slots (m : bpftime_hash_map) : list (option (bytes * bytes)) :=
  hm_slot m <$> seq 0 (hm_num_buckets m).

(** The key/value pairs of the filled buckets, in bucket order. *)
Definition hm_entries (m : bpftime_hash_map) : list (bytes * bytes) :=
  omap id (hm_slots m).

(** The shape every operation preserves: the buffer has room for the buckets,
    the element counter counts the filled buckets and never exceeds the limit. *)
Record hm_wf (m : bpftime_hash_map) : Prop := {
  hm_wf_buckets : (0 < hm_num_buckets m)%nat;
  hm_wf_length : length (hm_data_buffer m) = (hm_num_buckets m * hm_esz m)%nat;
  hm_wf_count : hm_count m = Z.of_nat (length (hm_entries m));
  hm_wf_limit : hm_count m <= hm_max_element_count m <= Z.of_nat (hm_num_buckets m);
  hm_wf_u64 : Z.of_nat (hm_num_buckets m) < 2 ^ 64
}.

(** Two tables of the same geometry. *)
Definition hm_same (m m' : bpftime_hash_map) : Prop :=
  hm_key_size m' = hm_key_size m /\ hm_value_size m' = hm_value_size m /\
  hm_num_buckets m' = hm_num_buckets m /\
  hm_max_element_count m' = hm_max_element_count m /\
  length (hm_data_buffer m') = length (hm_data_buffer m).

Section bucket_lemmas.
Implicit Types m : bpftime_hash_map.

Lemma hm_bytes_Some m off len :
  (off + len <= length (hm_data_buffer m))%nat ->
  read_range off len (hm_data_buffer m) = Some (hm_bytes m off len).
Proof. intros. unfold hm_bytes. by rewrite read_range_Some. Qed.

Lemma hm_bytes_length m off len :
  (off + len <= length (hm_data_buffer m))%nat -> length (hm_bytes m off len) = len.
Proof. intros H. by eapply read_range_length, hm_bytes_Some. Qed.

(** Buckets lie inside the buffer, one after the other. *)
Lemma hm_bucket_range m i :
  length (hm_data_buffer m) = (hm_num_buckets m * hm_esz m)%nat -> (i < hm_num_buckets m)%nat ->
  (get_elem_offset m i + hm_esz m <= length (hm_data_buffer m))%nat.
Proof. intros -> Hi. unfold get_elem_offset. fold (hm_esz m). nia. Qed.

Lemma hm_bucket_disjoint m i j :
  i <> j ->
  (get_elem_offset m i + hm_esz m <= get_elem_offset m j \/
   get_elem_offset m j + hm_esz m <= get_elem_offset m i)%nat.
Proof.
  intros Hne. unfold get_elem_offset. fold (hm_esz m).
  destruct (decide (i < j)%nat); [left|right]; nia.
Qed.

Lemma hm_slots_length m : length (hm_slots m) = hm_num_buckets m.
Proof. unfold hm_slots. by rewrite length_fmap, length_seq. Qed.

Lemma hm_slots_lookup m i :
  (i < hm_num_buckets m)%nat -> hm_slots m !! i = Some (hm_slot m i).
Proof. intros. unfold hm_slots. rewrite list_lookup_fmap, lookup_seq_lt; done. Qed.

Lemma is_empty_run m i e :
  length (hm_data_buffer m) = (hm_num_buckets m * hm_esz m)%nat -> (i < hm_num_buckets m)%nat ->
  is_empty i m e = Ok (bool_decide (hm_slot m i = None)) m e.
Proof.
  intros Hl Hi. pose proof (hm_bucket_range m i Hl Hi). unfold hm_esz in *.
  unfold is_empty. mrun. rewrite hm_bytes_Some by lia.
  unfold hm_slot. f_equal. by destruct (_ =? 0).
Qed.

Lemma key_matches_run m i k v key e :
  length (hm_data_buffer m) = (hm_num_buckets m * hm_esz m)%nat -> (i < hm_num_buckets m)%nat ->
  hm_slot m i = Some (k, v) ->
  key_matches i key m e = Ok (bool_decide (k = key)) m e.
Proof.
  intros Hl Hi Hs. pose proof (hm_bucket_range m i Hl Hi). unfold hm_esz, get_key in *.
  unfold key_matches. mrun. unfold get_key. rewrite hm_bytes_Some by lia.
  unfold hm_slot in Hs. destruct (_ =? 0); [done|]. injection Hs as <- <-. done.
Qed.

Lemma hm_slot_lengths m i k v :
  length (hm_data_buffer m) = (hm_num_buckets m * hm_esz m)%nat -> (i < hm_num_buckets m)%nat ->
  hm_slot m i = Some (k, v) -> length k = hm_key_size m /\ length v = hm_value_size m.
Proof.
  intros Hl Hi. pose proof (hm_bucket_range m i Hl Hi).
  unfold hm_esz, get_key, get_value, hm_slot in *.
  destruct (_ =? 0); [done|]. intros [= <- <-]. unfold get_key, get_value.
  split; apply hm_bytes_length; lia.
Qed.

(** Reading a bucket after a write into bucket [i]. *)
Lemma hm_slot_write_other m b i o bs j :
  write_range (get_elem_offset m i + o) bs (hm_data_buffer m) = Some b ->
  (o + length bs <= hm_esz m)%nat -> i <> j ->
  hm_slot (hm_set_data b m) j = hm_slot m j.
Proof.
  intros Hw Ho Hne. pose proof (hm_bucket_disjoint m i j Hne). unfold hm_esz in *.
  unfold hm_slot, hm_bytes, get_key, get_value, get_elem_offset in *; simpl.
  rewrite !(read_write_disjoint _ _ _ _ _ _ Hw) by lia. done.
Qed.

Lemma hm_write_run m off bs e :
  (off + length bs <= length (hm_data_buffer m))%nat ->
  exists b, write_range off bs (hm_data_buffer m) = Some b /\
    length b = length (hm_data_buffer m) /\
    hm_write off bs m e = Ok tt (hm_set_data b m) e.
Proof.
  intros Hle. apply write_range_is_Some in Hle as [b Hb]. exists b.
  split; [done|]. split; [by eapply write_range_length|]. unfold hm_write. mrun. by rewrite Hb.
Qed.

End bucket_lemmas.

(** ** Storing into and clearing a bucket *)

(** The table after bucket [i] was set to [o]. *)
Definition hm_upd (m m' : bpftime_hash_map) (i : nat) (o : option (bytes * bytes)) : Prop :=
  hm_same m m' /\ hm_slots m' = <[i := o]> (hm_slots m).

Section store_lemmas.
Implicit Types m : bpftime_hash_map.

Lemma hm_same_offsets m m' i :
  hm_same m m' ->
  get_elem_offset m' i = get_elem_offset m i /\ get_key m' i = get_key m i /\
  get_value m' i = get_value m i /\ hm_esz m' = hm_esz m.
Proof.
  intros (Hk & Hv & _). unfold get_key, get_value, get_elem_offset, hm_esz.
  by rewrite Hk, Hv.
Qed.

Lemma hm_upd_pointwise m m' i o :
  hm_same m m' -> (i < hm_num_buckets m)%nat ->
  hm_slot m' i = o -> (forall j, j <> i -> hm_slot m' j = hm_slot m j) -> hm_upd m m' i o.
Proof.
  intros Hs Hi Ho Hj. split; [done|]. apply list_eq. intros j.
  destruct Hs as (_ & _ & Hnb & _).
  destruct (decide (j < hm_num_buckets m)%nat) as [Hlt|].
  - rewrite hm_slots_lookup by lia. destruct (decide (j = i)) as [->|].
    + rewrite list_lookup_insert_eq by (by rewrite hm_slots_length). by rewrite Ho.
    + rewrite list_lookup_insert_ne, hm_slots_lookup by (done || lia). by rewrite Hj.
  - rewrite !lookup_ge_None_2; [done| |]; rewrite ?length_insert, hm_slots_length; lia.
Qed.

(** Overwriting the value of a filled bucket. *)
Lemma store_value_run m i k old v e :
  length (hm_data_buffer m) = (hm_num_buckets m * hm_esz m)%nat -> (i < hm_num_buckets m)%nat ->
  hm_slot m i = Some (k, old) -> length v = hm_value_size m ->
  exists m', hm_write (get_value m i) v m e = Ok tt m' e /\
    hm_upd m m' i (Some (k, v)) /\ hm_count m' = hm_count m.
Proof.
  intros Hl Hi Hs Hv. pose proof (hm_bucket_range m i Hl Hi) as Hr. unfold hm_esz in Hr.
  destruct (hm_write_run m (get_value m i) v e) as (b & Hb & Hlb & Hw);
    [unfold get_value; lia|].
  exists (hm_set_data b m). split; [done|]. split; [|done].
  apply hm_upd_pointwise; [by repeat split|done| |].
  - unfold hm_slot in *. destruct (_ =? 0) eqn:E; [done|]. injection Hs as <- _.
    revert E. unfold hm_bytes; simpl. unfold get_key, get_value, get_elem_offset in *; simpl.
    rewrite (read_write_disjoint _ _ _ _ (i * _) 4 Hb) by lia. intros ->.
    rewrite (read_write_disjoint _ _ _ _ _ (hm_key_size m) Hb) by lia.
    by rewrite (read_write_len _ _ _ _ _ Hb Hv).
  - intros j Hj. unfold get_value in Hb. rewrite <- Nat.add_assoc in Hb.
    apply (hm_slot_write_other m b i _ v j Hb); unfold hm_esz; [lia|done].
Qed.

(** Filling an empty bucket: key, value, then the flag. *)
Lemma fill_run m i k v (vp : ptr) e :
  length (hm_data_buffer m) = (hm_num_buckets m * hm_esz m)%nat -> (i < hm_num_buckets m)%nat ->
  length k = hm_key_size m -> length v = hm_value_size m -> points_to vp v ->
  exists m',
    (hm_write (get_key m i) k;;
     v' ← deref (hm_value_size m) vp;
     hm_write (get_value m i) v';;
     set_filled i;;
     modify (fun m => hm_set_count (u64 (hm_count m + 1)) m);;
     mret true) m e = Ok true m' e /\
    hm_upd m m' i (Some (k, v)) /\ hm_count m' = u64 (hm_count m + 1).
Proof.
  intros Hl Hi Hk Hv Hp. pose proof (hm_bucket_range m i Hl Hi) as Hr. unfold hm_esz in Hr.
  destruct (hm_write_run m (get_key m i) k e) as (b1 & Hb1 & Hl1 & Hw1);
    [unfold get_key; lia|].
  set (m1 := hm_set_data b1 m) in *.
  destruct (hm_write_run m1 (get_value m i) v e) as (b2 & Hb2 & Hl2 & Hw2);
    [unfold get_value; simpl; rewrite Hl1; lia|].
  set (m2 := hm_set_data b2 m1) in *.
  destruct (hm_write_run m2 (get_elem_offset m i) (le_encode 4 1) e) as (b3 & Hb3 & Hl3 & Hw3);
    [rewrite length_le_encode; simpl in *; lia|].
  set (m3 := hm_set_data b3 m2) in *.
  exists (hm_set_count (u64 (hm_count m + 1)) m3).
  split; [|split; [|done]].
  - unfold set_filled. mbase. rewrite Hw1, (deref_len _ _ v _ _ Hp Hv), Hw2.
    change (get_elem_offset m2 i) with (get_elem_offset m i). by rewrite Hw3.
  - simpl in *. apply hm_upd_pointwise; [repeat split; simpl; congruence|done| |].
    + unfold hm_slot, hm_bytes. simpl. unfold get_key, get_value, get_elem_offset in *; simpl in *.
      rewrite (read_write_len _ _ _ _ 4 Hb3) by done. simpl.
      rewrite !(read_write_disjoint _ _ _ _ _ _ Hb3) by (simpl; lia).
      rewrite (read_write_disjoint _ _ _ _ _ (hm_key_size m) Hb2) by lia.
      by rewrite (read_write_len _ _ _ _ _ Hb1 Hk), (read_write_len _ _ _ _ _ Hb2 Hv).
    + intros j Hj. assert (i <> j) as Hne by congruence.
      unfold get_key in Hb1. unfold get_value in Hb2. rewrite <- Nat.add_assoc in Hb2.
      rewrite <- (Nat.add_0_r (get_elem_offset m i)) in Hb3.
      transitivity (hm_slot m2 j); [|transitivity (hm_slot m1 j)].
      * apply (hm_slot_write_other m2 b3 i _ _ j Hb3); [|done].
        unfold hm_esz. simpl. lia.
      * apply (hm_slot_write_other m1 b2 i _ _ j Hb2); [|done]. unfold hm_esz. simpl. lia.
      * apply (hm_slot_write_other m b1 i _ _ j Hb1); [|done]. unfold hm_esz. lia.
Qed.

(** Clearing the flag of a bucket. *)
Lemma clear_run m i e :
  length (hm_data_buffer m) = (hm_num_buckets m * hm_esz m)%nat -> (i < hm_num_buckets m)%nat ->
  exists m',
    (set_empty i;;
     modify (fun m => hm_set_count (u64 (hm_count m - 1)) m);;
     mret true) m e = Ok true m' e /\
    hm_upd m m' i None /\ hm_count m' = u64 (hm_count m - 1).
Proof.
  intros Hl Hi. pose proof (hm_bucket_range m i Hl Hi) as Hr. unfold hm_esz in Hr.
  destruct (hm_write_run m (get_elem_offset m i) (le_encode 4 0) e) as (b & Hb & Hlb & Hw);
    [rewrite length_le_encode; lia|].
  exists (hm_set_count (u64 (hm_count m - 1)) (hm_set_data b m)).
  split; [|split; [|done]].
  - unfold set_empty. mbase. by rewrite Hw.
  - apply hm_upd_pointwise; [by repeat split|done| |].
    + unfold hm_slot, hm_bytes. simpl. unfold get_elem_offset in *; simpl in *.
      by rewrite (read_write_len _ _ _ _ 4 Hb).
    + intros j Hj. rewrite <- (Nat.add_0_r (get_elem_offset m i)) in Hb.
      apply (hm_slot_write_other m b i 0 _ j Hb); [|done].
      rewrite length_le_encode. unfold hm_esz. lia.
Qed.

End store_lemmas.

(** ** Probing *)

(** The bucket where a probe for [key] starting at [idx] stops within [n] turns:
    the first one that is empty or holds [key]. *)
Fixpoint probe (n : nat) (sl : list (option (bytes * bytes))) (key : bytes) (idx : nat)
    : option nat :=
  match n with
  | O => None
  | S n' =>
      match sl !! idx with
      | Some (Some (k, _)) =>
          if decide (k = key) then Some idx
          else probe n' sl key ((idx + 1) mod length sl)%nat
      | _ => Some idx
      end
  end.

(** Bucket [i] is filled with a key other than [key]. *)
Definition other_at (sl : list (option (bytes * bytes))) (key : bytes) (i : nat) : Prop :=
  exists k v, sl !! i = Some (Some (k, v)) /\ k <> key.

Definition home (m : bpftime_hash_map) (key : bytes) : nat :=
  Z.to_nat (hash_func key mod Z.of_nat (hm_num_buckets m)).

Section probe_lemmas.
Implicit Types (m : bpftime_hash_map) (sl : list (option (bytes * bytes))).

Lemma probe_mod_step nb idx j :
  (0 < nb)%nat -> (((idx + 1) mod nb + j) mod nb = (idx + S j) mod nb)%nat.
Proof. intros. rewrite Nat.Div0.add_mod_idemp_l. f_equal. lia. Qed.

Lemma probe_Some n sl key idx i :
  (0 < length sl)%nat -> (idx < length sl)%nat -> probe n sl key idx = Some i ->
  exists j, (j < n)%nat /\ i = ((idx + j) mod length sl)%nat /\
    (sl !! i = Some None \/ exists v, sl !! i = Some (Some (key, v))) /\
    forall j', (j' < j)%nat -> other_at sl key ((idx + j') mod length sl).
Proof.
  intros Hnb. revert idx. induction n as [|n IH]; intros idx Hidx; [done|].
  cbn [probe]. destruct (lookup_lt_is_Some_2 sl idx Hidx) as [[[k v]|] Hs]; rewrite Hs.
  - case_decide as Hk.
    + intros [= <-]. exists 0%nat. subst. rewrite Nat.add_0_r, Nat.mod_small by lia.
      split; [lia|]. split; [done|]. split; [right; eauto|lia].
    + intros Hp. apply IH in Hp as (j & Hj & -> & Hi & Hall); [|by apply Nat.mod_upper_bound; lia].
      rewrite probe_mod_step in * by done. exists (S j). split; [lia|]. split; [done|].
      split; [done|]. intros [|j'] Hj'.
      * rewrite Nat.add_0_r, Nat.mod_small by lia. by exists k, v.
      * specialize (Hall j'). rewrite probe_mod_step in Hall by done. apply Hall. lia.
  - intros [= <-]. exists 0%nat. rewrite Nat.add_0_r, Nat.mod_small by lia.
    split; [lia|]. split; [done|]. split; [by left|lia].
Qed.

Lemma probe_None n sl key idx :
  (0 < length sl)%nat -> (idx < length sl)%nat -> probe n sl key idx = None ->
  forall j, (j < n)%nat -> other_at sl key ((idx + j) mod length sl).
Proof.
  intros Hnb. revert idx. induction n as [|n IH]; intros idx Hidx; [intros _ j ?; lia|].
  cbn [probe]. destruct (lookup_lt_is_Some_2 sl idx Hidx) as [[[k v]|] Hs]; rewrite Hs; [|done].
  case_decide as Hk; [done|]. intros Hp [|j] Hj.
  - rewrite Nat.add_0_r, Nat.mod_small by lia. by exists k, v.
  - rewrite <- probe_mod_step by done. apply IH; [apply Nat.mod_upper_bound; lia|done|lia].
Qed.

(** The loop variable comes back to the first bucket exactly in the last turn. *)
Lemma back_at_start nb start n :
  (0 < n <= nb)%nat -> (start < nb)%nat ->
  (((start + (nb - n)) mod nb + 1) mod nb =? start)%nat = (n =? 1)%nat.
Proof.
  intros Hn Hs. rewrite Nat.Div0.add_mod_idemp_l.
  destruct (Nat.eqb_spec n 1) as [->|Hne].
  - replace (start + (nb - 1) + 1)%nat with (start + 1 * nb)%nat by lia.
    rewrite Nat.Div0.mod_add, Nat.mod_small by lia. apply Nat.eqb_refl.
  - apply Nat.eqb_neq. destruct (decide (start + (nb - n) + 1 < nb)%nat).
    + rewrite Nat.mod_small; lia.
    + replace (start + (nb - n) + 1)%nat with (start + 1 - n + 1 * nb)%nat by lia.
      rewrite Nat.Div0.mod_add, Nat.mod_small; lia.
Qed.

Lemma next_turn nb start n :
  (1 < n <= nb)%nat ->
  (((start + (nb - n)) mod nb + 1) mod nb = (start + (nb - (n - 1))) mod nb)%nat.
Proof. intros Hn. rewrite Nat.Div0.add_mod_idemp_l. f_equal. lia. Qed.

Section run.
Variable m : bpftime_hash_map.
Hypothesis Hlen : length (hm_data_buffer m) = (hm_num_buckets m * hm_esz m)%nat.
Hypothesis Hnb : (0 < hm_num_buckets m)%nat.
Abbreviation nb := (hm_num_buckets m).

Lemma start_bucket_run k e : start_bucket k m e = Ok (home m k) m e.
Proof.
  unfold start_bucket. mbase. destruct (Nat.eqb_spec (hm_num_buckets m) 0); [lia|done].
Qed.

Lemma home_lt k : (home m k < nb)%nat.
Proof using Hnb.
  clear Hlen.
  unfold home. pose proof (Z.mod_pos_bound (hash_func k) (Z.of_nat (hm_num_buckets m))). lia.
Qed.

(** What each loop does once the probe has stopped. *)
Definition lookup_result (o : option nat) : vptr :=
  match o with
  | Some i => match hm_slot m i with Some _ => VBuf (get_value m i) | None => VNull end
  | None => VNull
  end.

Lemma lookup_loop_run n key start e :
  (0 < n <= nb)%nat -> (start < nb)%nat ->
  lookup_loop n key start ((start + (nb - n)) mod nb) m e =
  Ok (lookup_result (probe n (hm_slots m) key ((start + (nb - n)) mod nb))) m e.
Proof.
  induction n as [|n IH]; intros Hn Hs; [lia|].
  set (idx := ((start + (nb - S n)) mod nb)%nat).
  assert (idx < nb)%nat as Hidx by (apply Nat.mod_upper_bound; lia).
  cbn [lookup_loop probe]. mbase. rewrite is_empty_run by done.
  rewrite hm_slots_lookup by done. destruct (hm_slot m idx) as [[k v]|] eqn:Es; simpl.
  - rewrite (key_matches_run m idx k v) by done.
    destruct (decide (k = key)) as [->|Hk]; simpl.
    + rewrite bool_decide_true by done. simpl. by rewrite Es.
    + rewrite bool_decide_false by done. unfold next_bucket.
      rewrite hm_slots_length. subst idx. rewrite back_at_start by lia.
      destruct (Nat.eqb_spec (S n) 1) as [Hn1|Hn1]; [by replace n with 0%nat by lia|].
      rewrite next_turn by lia. replace (S n - 1)%nat with n by lia. apply IH; lia.
  - by rewrite Es.
Qed.

(** Turning the last-turn test and the next bucket into the shape of [probe]. *)
Ltac next_probe n IH :=
  unfold next_bucket; rewrite hm_slots_length;
  rewrite back_at_start by lia;
  destruct (Nat.eqb_spec (S n) 1); [by replace n with 0%nat by lia|];
  rewrite next_turn by lia; replace (S n - 1)%nat with n by lia; apply IH; lia.

(** The effect of an update on the buckets, by where the probe stopped. *)
Definition update_outcome (o : option nat) (key v : bytes) (r : out bpftime_hash_map bool) (e : Z)
    : Prop :=
  match o with
  | None => r = Ok false m e
  | Some i =>
      match hm_slot m i with
      | None =>
          if hm_max_element_count m <=? hm_count m then r = Ok false m e
          else exists m', r = Ok true m' e /\ hm_upd m m' i (Some (key, v)) /\
                 hm_count m' = u64 (hm_count m + 1)
      | Some _ =>
          exists m', r = Ok true m' e /\ hm_upd m m' i (Some (key, v)) /\ hm_count m' = hm_count m
      end
  end.

Lemma update_loop_run n key v vp start e :
  (0 < n <= nb)%nat -> (start < nb)%nat ->
  length key = hm_key_size m -> length v = hm_value_size m -> points_to vp v ->
  update_outcome (probe n (hm_slots m) key ((start + (nb - n)) mod nb)) key v
    (update_loop n key vp start ((start + (nb - n)) mod nb) m e) e.
Proof.
  intros Hn Hs Hk Hv Hp. induction n as [|n IH]; [lia|].
  set (idx := ((start + (nb - S n)) mod nb)%nat).
  assert (idx < nb)%nat as Hidx by (apply Nat.mod_upper_bound; lia).
  cbn [update_loop probe]. rewrite hm_slots_lookup by done.
  unfold mbind at 1, M_bind at 1. rewrite is_empty_run by done.
  unfold mbind at 1, M_bind at 1, get at 1.
  destruct (hm_slot m idx) as [[k old]|] eqn:Es.
  - rewrite bool_decide_false by done.
    unfold mbind at 1, M_bind at 1. rewrite (key_matches_run m idx k old) by done.
    destruct (decide (k = key)) as [->|Hne].
    + rewrite bool_decide_true by done. simpl. rewrite Es. mbase.
      rewrite (deref_len _ _ v _ _ Hp Hv).
      destruct (store_value_run m idx key old v e) as (m' & -> & ? & ?); [done..|]. eauto.
    + rewrite bool_decide_false by done. subst idx. next_probe n IH.
  - rewrite bool_decide_true by done. simpl. rewrite Es.
    destruct (hm_max_element_count m <=? hm_count m); [done|]. by apply fill_run.
Qed.

Definition delete_outcome (o : option nat) (r : out bpftime_hash_map bool) (e : Z) : Prop :=
  match o ≫= hm_slot m with
  | None => r = Ok false m e
  | Some _ =>
      exists i m', o = Some i /\ r = Ok true m' e /\ hm_upd m m' i None /\
                 hm_count m' = u64 (hm_count m - 1)
  end.

Lemma delete_loop_run n key start e :
  (0 < n <= nb)%nat -> (start < nb)%nat ->
  delete_outcome (probe n (hm_slots m) key ((start + (nb - n)) mod nb))
    (delete_loop n key start ((start + (nb - n)) mod nb) m e) e.
Proof.
  intros Hn Hs. induction n as [|n IH]; [lia|].
  set (idx := ((start + (nb - S n)) mod nb)%nat).
  assert (idx < nb)%nat as Hidx by (apply Nat.mod_upper_bound; lia).
  cbn [delete_loop probe]. rewrite hm_slots_lookup by done.
  unfold mbind at 1, M_bind at 1. rewrite is_empty_run by done.
  destruct (hm_slot m idx) as [[k old]|] eqn:Es.
  - rewrite bool_decide_false by done.
    unfold mbind at 1, M_bind at 1. rewrite (key_matches_run m idx k old) by done.
    unfold mbind at 1, M_bind at 1, get at 1.
    destruct (decide (k = key)) as [->|Hne].
    + rewrite bool_decide_true by done. unfold delete_outcome. simpl. rewrite Es.
      destruct (clear_run m idx e) as (m' & -> & ? & ?); [done..|]. by exists idx, m'.
    + rewrite bool_decide_false by done. subst idx. next_probe n IH.
  - unfold delete_outcome. simpl. by rewrite Es.
Qed.

End run.
End probe_lemmas.

(** ** The table as a finite map *)

(** Every filled bucket is reachable from its key's first bucket through buckets
    filled with other keys: what a lookup relies on. *)
Definition probe_inv (m : bpftime_hash_map) : Prop :=
  forall i k v, hm_slots m !! i = Some (Some (k, v)) ->
  exists j, (j < hm_num_buckets m)%nat /\ i = ((home m k + j) mod hm_num_buckets m)%nat /\
    forall j', (j' < j)%nat -> other_at (hm_slots m) k ((home m k + j') mod hm_num_buckets m).

(** The table [m] holds exactly the map [g]. *)
Record hm_rel (m : bpftime_hash_map) (g : gmap bytes bytes) : Prop := {
  hm_rel_wf : hm_wf m;
  hm_rel_inv : probe_inv m;
  hm_rel_map : forall k v, g !! k = Some v <-> exists i, hm_slots m !! i = Some (Some (k, v))
}.

(** No key is stored twice. *)
Definition keys_once (sl : list (option (bytes * bytes))) : Prop :=
  forall i j k v v', sl !! i = Some (Some (k, v)) -> sl !! j = Some (Some (k, v')) -> i = j.

Section slot_lists.
Implicit Types (sl : list (option (bytes * bytes))).

Lemma entries_cons o sl :
  omap id (o :: sl) = match o with Some kv => kv :: omap id sl | None => omap id sl end.
Proof. by destruct o. Qed.

Lemma entries_insert sl i o o' :
  sl !! i = Some o ->
  exists l1 l2, omap id sl = l1 ++ omap id [o] ++ l2 /\
                omap id (<[i := o']> sl) = l1 ++ omap id [o'] ++ l2.
Proof.
  intros Hi. exists (omap id (take i sl)), (omap id (drop (S i) sl)).
  pose proof (lookup_lt_Some _ _ _ Hi). split.
  - rewrite <- (take_drop_middle sl i o Hi) at 1. rewrite omap_app.
    change (o :: drop (S i) sl) with ([o] ++ drop (S i) sl). by rewrite omap_app.
  - rewrite insert_take_drop, omap_app by done.
    change (o' :: drop (S i) sl) with ([o'] ++ drop (S i) sl). by rewrite omap_app.
Qed.

Lemma entries_length_insert sl i o o' :
  sl !! i = Some o ->
  (length (omap id (<[i := o']> sl)) + length (omap id [o]) =
   length (omap id sl) + length (omap id [o']))%nat.
Proof.
  intros Hi. destruct (entries_insert sl i o o' Hi) as (l1 & l2 & -> & ->).
  rewrite !length_app. lia.
Qed.

Lemma elem_of_entries sl kv : kv ∈ omap id sl <-> exists i, sl !! i = Some (Some kv).
Proof.
  rewrite list_elem_of_omap. split.
  - intros (x & Hx & Hid). unfold id in Hid. subst. by apply list_elem_of_lookup.
  - intros Hx. exists (Some kv). split; [by apply list_elem_of_lookup|done].
Qed.

Lemma entries_NoDup sl : keys_once sl -> NoDup (omap id sl).*1.
Proof.
  induction sl as [|o sl IH]; intros Hu; [constructor|].
  assert (keys_once sl) as Hu'.
  { intros i j k v v' Hi Hj. specialize (Hu (S i) (S j) k v v' Hi Hj). lia. }
  rewrite entries_cons. destruct o as [[k v]|]; [|by apply IH].
  simpl. constructor; [|by apply IH].
  rewrite list_elem_of_fmap. intros ([k' v'] & Heq & Hin). simpl in Heq. subst k'.
  apply elem_of_entries in Hin as [i Hi]. specialize (Hu 0%nat (S i) k v v' eq_refl Hi). done.
Qed.

Lemma entries_full sl :
  (length (omap id sl) <= length sl)%nat /\
  ((forall i, (i < length sl)%nat -> sl !! i <> Some None) -> length (omap id sl) = length sl).
Proof.
  induction sl as [|o sl [IH1 IH2]]; [done|]. cbn [length]. split.
  - rewrite entries_cons. destruct o; simpl; lia.
  - intros Hf. rewrite entries_cons. destruct o as [kv|].
    + simpl. f_equal. apply IH2. intros i Hi. apply (Hf (S i)). lia.
    + exfalso. apply (Hf 0%nat); [lia|done].
Qed.

(** Filling a free bucket, or the bucket of the same key, keeps the paths of all
    the other keys. *)
Lemma other_at_insert sl i k v k2 x :
  sl !! i = Some None \/ (exists v0, sl !! i = Some (Some (k, v0))) ->
  other_at sl k2 x -> other_at (<[i := Some (k, v)]> sl) k2 x.
Proof.
  intros Hi (k' & v' & Hx & Hne). unfold other_at.
  destruct (decide (i = x)) as [->|].
  - destruct Hi as [Hi|[v0 Hi]]; [congruence|].
    exists k, v. rewrite list_lookup_insert_eq by (by eapply lookup_lt_Some).
    split; [done|]. congruence.
  - exists k', v'. by rewrite list_lookup_insert_ne.
Qed.

End slot_lists.

Section refinement_lemmas.
Implicit Types (m : bpftime_hash_map) (g : gmap bytes bytes).

Lemma probe_inv_once m : probe_inv m -> keys_once (hm_slots m).
Proof.
  intros Hinv i1 i2 k v1 v2 H1 H2.
  destruct (Hinv _ _ _ H1) as (j1 & _ & -> & P1).
  destruct (Hinv _ _ _ H2) as (j2 & _ & -> & P2).
  destruct (Nat.lt_trichotomy j1 j2) as [Hlt|[->|Hlt]]; [| done |].
  - destruct (P2 j1 Hlt) as (k' & v' & Hs & Hne). congruence.
  - destruct (P1 j2 Hlt) as (k' & v' & Hs & Hne). congruence.
Qed.

Lemma hm_rel_size m g : hm_rel m g -> Z.of_nat (size g) = hm_count m.
Proof.
  intros [Hwf Hinv Hg]. rewrite (hm_wf_count m Hwf).
  assert (NoDup (hm_entries m).*1) as Hnd by (by apply entries_NoDup, probe_inv_once).
  assert (g = um_abs (hm_entries m)) as ->.
  { apply map_eq. intros k. apply option_eq. intros v. rewrite Hg, <- elem_of_entries.
    unfold um_abs. by rewrite <- elem_of_list_to_map. }
  by rewrite um_size.
Qed.

Lemma probe_inv_fill m m' i k v :
  hm_upd m m' i (Some (k, v)) -> (0 < hm_num_buckets m)%nat -> probe_inv m ->
  probe (hm_num_buckets m) (hm_slots m) k (home m k) = Some i -> probe_inv m'.
Proof.
  intros [(_ & _ & Hnb & _) Hsl] Hpos Hinv Hp.
  apply probe_Some in Hp as (j & Hj & Hij & Hi & Hpath);
    [|by rewrite hm_slots_length|rewrite hm_slots_length; by apply home_lt].
  rewrite hm_slots_length in *.
  intros i2 k2 v2. unfold home. rewrite Hnb, Hsl.
  change (Z.to_nat (hash_func k2 mod Z.of_nat (hm_num_buckets m))) with (home m k2).
  intros H2. destruct (decide (i = i2)) as [<-|Hne].
  - rewrite list_lookup_insert_eq in H2
      by (rewrite hm_slots_length; subst i; apply Nat.mod_upper_bound; lia).
    injection H2 as <- <-. exists j. split; [done|]. split; [done|].
    intros j' Hj'. apply other_at_insert; auto.
  - rewrite list_lookup_insert_ne in H2 by done.
    destruct (Hinv _ _ _ H2) as (j2 & ? & -> & P2). exists j2. split; [done|]. split; [done|].
    intros j' Hj'. apply other_at_insert; auto.
Qed.

Lemma probe_exhausted m k j :
  (0 < hm_num_buckets m)%nat -> probe (hm_num_buckets m) (hm_slots m) k (home m k) = None ->
  (j < hm_num_buckets m)%nat ->
  other_at (hm_slots m) k ((home m k + j) mod hm_num_buckets m).
Proof.
  intros Hpos Hp Hj. pose proof (home_lt m Hpos k).
  pose proof (probe_None (hm_num_buckets m) (hm_slots m) k (home m k)) as HN.
  rewrite hm_slots_length in HN. by apply HN.
Qed.

Lemma probe_found m g k v :
  hm_rel m g -> g !! k = Some v ->
  exists i, probe (hm_num_buckets m) (hm_slots m) k (home m k) = Some i /\
            hm_slots m !! i = Some (Some (k, v)).
Proof.
  intros [Hwf Hinv Hg] Hk. apply Hg in Hk as [i Hi].
  destruct (Hinv _ _ _ Hi) as (j & Hj & Hij & Hpath).
  pose proof (hm_wf_buckets m Hwf) as Hpos. pose proof (home_lt m Hpos k) as Hh.
  exists i. split; [|done].
  destruct (probe _ _ _ _) as [i'|] eqn:Hp.
  - apply probe_Some in Hp as (j' & Hj' & -> & Hi' & Hpath'); [|by rewrite hm_slots_length..].
    rewrite hm_slots_length in *. f_equal.
    destruct (Nat.lt_trichotomy j j') as [Hlt|[->|Hlt]]; [|done|].
    + destruct (Hpath' j Hlt) as (? & ? & ? & ?). congruence.
    + destruct (Hpath j' Hlt) as (? & ? & ? & ?). destruct Hi' as [Hi'|[? Hi']]; congruence.
  - destruct (probe_exhausted m k j Hpos Hp Hj) as (? & ? & ? & ?). congruence.
Qed.

Lemma probe_absent m g k :
  hm_rel m g -> g !! k = None ->
  match probe (hm_num_buckets m) (hm_slots m) k (home m k) with
  | Some i => (i < hm_num_buckets m)%nat /\ hm_slots m !! i = Some None
  | None => hm_count m = Z.of_nat (hm_num_buckets m)
  end.
Proof.
  intros [Hwf Hinv Hg] Hk.
  pose proof (hm_wf_buckets m Hwf) as Hpos. pose proof (home_lt m Hpos k) as Hh.
  destruct (probe _ _ _ _) as [i|] eqn:Hp.
  - apply probe_Some in Hp as (j & Hj & Hij & Hi & _); [|by rewrite hm_slots_length..].
    rewrite hm_slots_length in *. split; [subst i; apply Nat.mod_upper_bound; lia|].
    destruct Hi as [?|[v Hi]]; [done|]. assert (g !! k = Some v) by (apply Hg; eauto). congruence.
  - rewrite (hm_wf_count m Hwf). f_equal. rewrite <- hm_slots_length at 1.
    apply entries_full. rewrite hm_slots_length. intros i Hi Hn.
    (* every bucket is visited by the probe *)
    assert (exists j, (j < hm_num_buckets m)%nat /\ ((home m k + j) mod hm_num_buckets m = i)%nat)
      as (j & Hj & Hij).
    { destruct (decide (home m k <= i)%nat).
      - exists (i - home m k)%nat. split; [lia|]. rewrite Nat.mod_small; lia.
      - exists (i + hm_num_buckets m - home m k)%nat. split; [lia|].
        replace (home m k + (i + hm_num_buckets m - home m k))%nat
          with (i + 1 * hm_num_buckets m)%nat by lia.
        rewrite Nat.Div0.mod_add, Nat.mod_small; lia. }
    destruct (probe_exhausted m k j Hpos Hp Hj) as (? & ? & ? & ?). congruence.
Qed.

End refinement_lemmas.

(** ** Whole operations *)

Section operations.
Implicit Types (m : bpftime_hash_map) (g : gmap bytes bytes) (k v : bytes).

Lemma hm_slot_lookup_eq m i o :
  hm_slots m !! i = Some o -> (i < hm_num_buckets m)%nat /\ hm_slot m i = o.
Proof.
  intros Hi. pose proof (lookup_lt_Some _ _ _ Hi) as Hlt. rewrite hm_slots_length in Hlt.
  rewrite hm_slots_lookup in Hi by done. by injection Hi.
Qed.

(** A full turn of a loop from the first bucket of the key. *)
Lemma full_turn m k :
  (0 < hm_num_buckets m)%nat ->
  ((home m k + (hm_num_buckets m - hm_num_buckets m)) mod hm_num_buckets m = home m k)%nat.
Proof.
  intros Hpos. pose proof (home_lt m Hpos k). rewrite Nat.sub_diag, Nat.add_0_r.
  by apply Nat.mod_small.
Qed.

Lemma elem_lookup_run m key k e :
  hm_wf m -> points_to key k -> length k = hm_key_size m ->
  hash_map_elem_lookup key m e =
  Ok (lookup_result m (probe (hm_num_buckets m) (hm_slots m) k (home m k))) m e.
Proof.
  intros [Hpos Hl _ _ _] Hp Hk. unfold hash_map_elem_lookup. mbase.
  rewrite (deref_len _ _ _ _ _ Hp Hk), start_bucket_run by done.
  rewrite <- (full_turn m k Hpos) at 2 3.
  rewrite (lookup_loop_run m Hl Hpos) by (split_and?; try lia; by apply home_lt).
  by rewrite full_turn.
Qed.

Lemma elem_update_run m key value k v e :
  hm_wf m -> points_to key k -> points_to value v ->
  length k = hm_key_size m -> length v = hm_value_size m ->
  update_outcome m (probe (hm_num_buckets m) (hm_slots m) k (home m k)) k v
    (hash_map_elem_update key value m e) e.
Proof.
  intros [Hpos Hl _ _ _] Hp Hpv Hk Hv. unfold hash_map_elem_update. mbase.
  rewrite (deref_len _ _ _ _ _ Hp Hk), start_bucket_run by done.
  pose proof (update_loop_run m Hl Hpos (hm_num_buckets m) k v value (home m k) e) as HU.
  rewrite full_turn in HU by done. apply HU; try done. by apply home_lt.
Qed.

Lemma elem_delete_run m key k e :
  hm_wf m -> points_to key k -> length k = hm_key_size m ->
  delete_outcome m (probe (hm_num_buckets m) (hm_slots m) k (home m k))
    (hash_map_elem_delete key m e) e.
Proof.
  intros [Hpos Hl _ _ _] Hp Hk. unfold hash_map_elem_delete. mbase.
  rewrite (deref_len _ _ _ _ _ Hp Hk), start_bucket_run by done.
  pose proof (delete_loop_run m Hl Hpos (hm_num_buckets m) k (home m k) e) as HU.
  rewrite full_turn in HU by done. apply HU; try done. by apply home_lt.
Qed.

Lemma hm_upd_wf m m' i o o' :
  hm_wf m -> hm_upd m m' i o' -> hm_slots m !! i = Some o ->
  hm_count m' = hm_count m + Z.of_nat (length (omap id [o'])) - Z.of_nat (length (omap id [o])) ->
  hm_count m' <= hm_max_element_count m -> hm_wf m'.
Proof.
  intros Hwf [(Hk & Hv & Hnb & Hmax & Hlen) Hsl] Hi Hc Hle. destruct Hwf as [W1 W2 W3 W4 W5].
  pose proof (entries_length_insert (hm_slots m) i o o' Hi) as Hlen'.
  constructor; unfold hm_esz in *; rewrite ?Hk, ?Hv, ?Hnb, ?Hmax, ?Hlen; try done; try lia.
  unfold hm_entries in *. rewrite Hsl. lia.
Qed.

Lemma hm_rel_upd m m' g i o k v :
  hm_rel m g -> hm_upd m m' i (Some (k, v)) ->
  hm_slots m !! i = Some o -> (o = None /\ g !! k = None \/ exists v0, o = Some (k, v0)) ->
  forall k' v', <[k := v]> g !! k' = Some v' <-> exists i', hm_slots m' !! i' = Some (Some (k', v')).
Proof.
  intros [_ Hinv Hg] [_ Hsl] Hi Ho k' v'. rewrite Hsl.
  pose proof (lookup_lt_Some _ _ _ Hi) as Hlt.
  destruct (decide (k = k')) as [<-|Hne].
  - rewrite lookup_insert_eq. split.
    + intros [= <-]. exists i. by rewrite list_lookup_insert_eq.
    + intros [i' Hi']. destruct (decide (i = i')) as [<-|].
      * rewrite list_lookup_insert_eq in Hi' by done. congruence.
      * rewrite list_lookup_insert_ne in Hi' by done. exfalso.
        destruct Ho as [[-> Hn]|[v0 ->]].
        -- assert (g !! k = Some v') by (apply Hg; eauto). congruence.
        -- by pose proof (probe_inv_once m Hinv _ _ _ _ _ Hi Hi').
  - rewrite lookup_insert_ne, Hg by done. split; intros [i' Hi']; exists i'.
    + rewrite list_lookup_insert_ne; [done|]. intros <-.
      destruct Ho as [[-> _]|[v0 ->]]; congruence.
    + destruct (decide (i = i')) as [<-|].
      * rewrite list_lookup_insert_eq in Hi' by done. congruence.
      * by rewrite list_lookup_insert_ne in Hi' by done.
Qed.

Lemma hm_rel_delete m m' g i k v :
  hm_rel m g -> hm_upd m m' i None -> hm_slots m !! i = Some (Some (k, v)) ->
  forall k' v', delete k g !! k' = Some v' <-> exists i', hm_slots m' !! i' = Some (Some (k', v')).
Proof.
  intros [_ Hinv Hg] [_ Hsl] Hi k' v'. rewrite Hsl.
  pose proof (lookup_lt_Some _ _ _ Hi) as Hlt. rewrite lookup_delete_Some, Hg. split.
  - intros [Hne [i' Hi']]. exists i'. rewrite list_lookup_insert_ne; [done|]. congruence.
  - intros [i' Hi']. destruct (decide (i = i')) as [<-|Hne].
    + by rewrite list_lookup_insert_eq in Hi' by done.
    + rewrite list_lookup_insert_ne in Hi' by done. split; [|eauto].
      intros <-. by pose proof (probe_inv_once m Hinv _ _ _ _ _ Hi Hi').
Qed.

(** A new table holds no key. *)
Lemma hash_map_new_slots num ks vs i :
  0 <= num <= 2 ^ 32 -> 0 <= ks -> 0 <= vs -> next_prime num * (4 + ks + vs) < 2 ^ 64 ->
  (i < hm_num_buckets (hash_map_new num ks vs))%nat ->
  hm_slot (hash_map_new num ks vs) i = None.
Proof.
  intros Hn Hk Hv Hof. destruct (next_prime_correct num Hn) as ((? & ?) & _).
  unfold hm_slot, hm_bytes, get_elem_offset. simpl.
  rewrite wrap_small by nia. intros Hi.
  rewrite read_zeros; [done|]. apply Nat2Z.inj_le.
  rewrite Nat2Z.inj_add, Nat2Z.inj_mul, !Nat2Z.inj_add, !Z2Nat.id by nia. nia.
Qed.

Lemma hash_map_new_rel num ks vs :
  0 <= num <= 2 ^ 32 -> 0 <= ks -> 0 <= vs -> next_prime num * (4 + ks + vs) < 2 ^ 64 ->
  hm_rel (hash_map_new num ks vs) ∅.
Proof.
  intros Hn Hk Hv Hof. pose proof (hash_map_new_slots num ks vs) as Hslot.
  destruct (next_prime_correct num Hn) as ((? & ?) & [? _] & _). unfold bucket_bound in *.
  assert (forall i o, hm_slots (hash_map_new num ks vs) !! i = Some o -> o = None) as Hnone.
  { intros i o Hi. apply hm_slot_lookup_eq in Hi as [Hlt <-]. by apply Hslot. }
  split.
  - split; simpl; try lia.
    + rewrite length_zeros, wrap_small by nia. unfold hm_esz. simpl. lia.
    + enough (hm_entries (hash_map_new num ks vs) = []) as -> by done.
      unfold hm_entries. destruct (omap id _) as [|kv l] eqn:E; [done|exfalso].
      assert (kv ∈ omap id (hm_slots (hash_map_new num ks vs))) as Hin by (rewrite E; left).
      apply elem_of_entries in Hin as [i Hi]. by apply Hnone in Hi.
  - intros i k v Hi. by apply Hnone in Hi.
  - intros k v. rewrite lookup_empty. split; [done|]. intros [i Hi]. by apply Hnone in Hi.
Qed.

End operations.

(** ** Theorems *)

(** Sequences of calls made by the clients of a table. *)
Inductive hm_call := CallLookup (k : bytes) | CallUpdate (k v : bytes) | CallDelete (k : bytes).

Definition run_call (c : hm_call) : M bpftime_hash_map unit :=
  match c with
  | CallLookup k => hash_map_elem_lookup (Some k);; mret tt
  | CallUpdate k v => hash_map_elem_update (Some k) (Some v);; mret tt
  | CallDelete k => hash_map_elem_delete (Some k);; mret tt
  end.

Fixpoint run_calls (cs : list hm_call) : M bpftime_hash_map unit :=
  match cs with
  | [] => mret tt
  | c :: cs' => run_call c;; run_calls cs'
  end.

(** The arguments have the key and value sizes of the table. *)
Definition call_ok (ks vs : nat) (c : hm_call) : Prop :=
  match c with
  | CallLookup k | CallDelete k => length k = ks
  | CallUpdate k v => length k = ks /\ length v = vs
  end.

Lemma hm_same_refl m : hm_same m m.
Proof. by repeat split. Qed.

Lemma run_call_wf m c e :
  hm_wf m -> call_ok (hm_key_size m) (hm_value_size m) c ->
  exists m', run_call c m e = Ok tt m' e /\ hm_wf m' /\ hm_same m m'.
Proof.
  intros Hwf Hc. pose proof (hm_wf_limit m Hwf). pose proof (hm_wf_u64 m Hwf).
  pose proof (hm_wf_count m Hwf).
  destruct c as [k|k v|k]; simpl in *.
  - mbase. rewrite (elem_lookup_run m _ k) by eauto with bpf. eauto using hm_same_refl.
  - destruct Hc as [Hk Hv]. mbase.
    pose proof (elem_update_run m (Some k) (Some v) k v e Hwf (points_to_self k)
                  (points_to_self v) Hk Hv) as HU.
    destruct (probe _ _ _ _) as [i|] eqn:Hp; unfold update_outcome in HU;
      [|rewrite HU; eauto using hm_same_refl].
    apply probe_Some in Hp as (j & _ & Hij & Hi & _); rewrite ?hm_slots_length in *;
      [|apply (hm_wf_buckets m Hwf)|apply home_lt, (hm_wf_buckets m Hwf)].
    destruct Hi as [Hi|[v0 Hi]]; destruct (hm_slot_lookup_eq _ _ _ Hi) as [_ Hs];
      rewrite Hs in HU.
    + destruct (Z.leb_spec (hm_max_element_count m) (hm_count m));
        [rewrite HU; eauto using hm_same_refl|].
      destruct HU as (m' & -> & Hu & Hcnt). rewrite wrap_small in Hcnt by lia.
      exists m'. split; [done|]. split; [|apply Hu].
      apply (hm_upd_wf m m' i None _ Hwf Hu Hi); simpl; lia.
    + destruct HU as (m' & -> & Hu & Hcnt). exists m'. split; [done|]. split; [|apply Hu].
      apply (hm_upd_wf m m' i _ _ Hwf Hu Hi); simpl; lia.
  - mbase. pose proof (elem_delete_run m (Some k) k e Hwf (points_to_self k) Hc) as HD.
    unfold delete_outcome in HD. destruct (_ ≫= hm_slot m) as [kv|] eqn:Ho;
      [|rewrite HD; eauto using hm_same_refl].
    destruct HD as (i & m' & Hp & -> & Hu & Hcnt). rewrite Hp in Ho. simpl in Ho.
    apply probe_Some in Hp as (j & _ & Hij & _); rewrite ?hm_slots_length in *;
      [|apply (hm_wf_buckets m Hwf)|apply home_lt, (hm_wf_buckets m Hwf)].
    assert (hm_slots m !! i = Some (Some kv)) as Hi.
    { rewrite hm_slots_lookup by (subst i; apply Nat.mod_upper_bound;
        pose proof (hm_wf_buckets m Hwf); lia). by rewrite Ho. }
    assert (0 < hm_count m).
    { destruct (entries_insert _ _ _ None Hi) as (l1 & l2 & He & _).
      unfold hm_entries in *. rewrite He in *. rewrite !length_app in *. simpl in *. lia. }
    rewrite wrap_small in Hcnt by lia.
    exists m'. split; [done|]. split; [|apply Hu].
    apply (hm_upd_wf m m' i _ _ Hwf Hu Hi); simpl; lia.
Qed.

(** C1. Any sequence of lookups, updates and deletions on a well-formed table
    returns: no call reads or writes outside the bucket array, no probe runs for
    ever, and the element counter keeps counting the filled buckets and stays
    within the limit. *)
Theorem hash_map_calls_safe m cs e :
  hm_wf m -> Forall (call_ok (hm_key_size m) (hm_value_size m)) cs ->
  exists m', run_calls cs m e = Ok tt m' e /\ hm_wf m' /\
    get_elem_count m' = Z.of_nat (length (hm_entries m')) /\
    get_elem_count m' <= hm_max_element_count m.
Proof.
  intros Hwf Hcs. revert m Hwf Hcs. induction cs as [|c cs IH]; intros m Hwf Hcs; simpl.
  - exists m. unfold get_elem_count. destruct Hwf as [? ? ? ? ?]. repeat split; try done; lia.
  - apply Forall_cons in Hcs as [Hc Hcs].
    destruct (run_call_wf m c e Hwf Hc) as (m1 & H1 & Hwf1 & (Hk & Hv & _ & Hmax & _)).
    mbase. rewrite H1. rewrite <- Hk, <- Hv in Hcs. rewrite <- Hmax. by apply IH.
Qed.

(** On a table holding the map [g], an update stores the pair when the key is
    present or the limit is not reached, and is refused with nothing changed
    otherwise: insertion into a bounded finite map. *)
Lemma elem_update_rel m g key value k v e :
  hm_rel m g -> points_to key k -> points_to value v ->
  length k = hm_key_size m -> length v = hm_value_size m ->
  if bool_decide (is_Some (g !! k)) || (Z.of_nat (size g) <? hm_max_element_count m)
  then exists m', hash_map_elem_update key value m e = Ok true m' e /\
         hm_rel m' (<[k := v]> g) /\ hm_same m m'
  else hash_map_elem_update key value m e = Ok false m e.
Proof.
  intros Hrel Hkp Hvp Hk Hv. pose proof (hm_rel_size m g Hrel) as Hsz.
  pose proof Hrel as [Hwf Hinv Hg]. pose proof (hm_wf_limit m Hwf). pose proof (hm_wf_u64 m Hwf).
  pose proof (hm_wf_count m Hwf) as Hcount.
  pose proof (elem_update_run m key value k v e Hwf Hkp Hvp Hk Hv) as HU.
  destruct (g !! k) as [v0|] eqn:Hgk.
  - rewrite bool_decide_true by eauto. simpl.
    destruct (probe_found m g k v0 Hrel Hgk) as (i & Hp & Hi).
    destruct (hm_slot_lookup_eq _ _ _ Hi) as [_ Hs].
    rewrite Hp in HU. unfold update_outcome in HU. rewrite Hs in HU.
    destruct HU as (m' & -> & Hu & Hcnt). exists m'. split; [done|]. split; [|apply Hu].
    split; [apply (hm_upd_wf m m' i _ _ Hwf Hu Hi); simpl; lia
           |by eapply probe_inv_fill, Hp; [|apply (hm_wf_buckets m Hwf)|]|].
    apply (hm_rel_upd m m' g i _ k v Hrel Hu Hi). eauto.
  - rewrite bool_decide_false by (by intros [? [=]]). simpl.
    pose proof (probe_absent m g k Hrel Hgk) as Hpa.
    destruct (probe _ _ _ _) as [i|] eqn:Hp; unfold update_outcome in HU.
    + destruct Hpa as [Hlt Hi]. destruct (hm_slot_lookup_eq _ _ _ Hi) as [_ Hs].
      rewrite Hs in HU. rewrite Hsz.
      destruct (Z.leb_spec (hm_max_element_count m) (hm_count m)).
      { rewrite (proj2 (Z.ltb_ge _ _)) by lia. done. }
      rewrite (proj2 (Z.ltb_lt _ _)) by lia.
      destruct HU as (m' & -> & Hu & Hcnt). rewrite wrap_small in Hcnt by lia.
      exists m'. split; [done|]. split; [|apply Hu].
      split; [apply (hm_upd_wf m m' i _ _ Hwf Hu Hi); simpl; lia
             |by eapply probe_inv_fill, Hp; [|apply (hm_wf_buckets m Hwf)|]|].
      apply (hm_rel_upd m m' g i _ k v Hrel Hu Hi). auto.
    + rewrite Hsz, (proj2 (Z.ltb_ge _ _)) by lia. done.
Qed.

(** On a table holding the map [g], a lookup returns null exactly for the
    absent keys, and otherwise a pointer to the stored value inside the buffer. *)
Lemma elem_lookup_rel m g key k e :
  hm_rel m g -> points_to key k -> length k = hm_key_size m ->
  match g !! k with
  | None => hash_map_elem_lookup key m e = Ok VNull m e
  | Some v => exists off, hash_map_elem_lookup key m e = Ok (VBuf off) m e /\
                read_range off (hm_value_size m) (hm_data_buffer m) = Some v
  end.
Proof.
  intros Hrel Hkp Hk. pose proof (hm_rel_wf m g Hrel) as Hwf.
  rewrite (elem_lookup_run m key k e Hwf Hkp Hk). unfold lookup_result.
  destruct (g !! k) as [v|] eqn:Hgk.
  - destruct (probe_found m g k v Hrel Hgk) as (i & -> & Hi).
    destruct (hm_slot_lookup_eq _ _ _ Hi) as [Hlt Hs]. rewrite Hs.
    exists (get_value m i). split; [done|].
    pose proof (hm_bucket_range m i (hm_wf_length m Hwf) Hlt) as Hr.
    unfold hm_slot in Hs. destruct (_ =? 0); [done|]. injection Hs as _ <-.
    apply hm_bytes_Some. unfold hm_esz, get_value in *. lia.
  - pose proof (probe_absent m g k Hrel Hgk) as Hpa. destruct (probe _ _ _ _) as [i|]; [|done].
    destruct Hpa as [_ Hi]. destruct (hm_slot_lookup_eq _ _ _ Hi) as [_ ->]. done.
Qed.

(** Clearing the last bucket of a run of filled buckets cuts no probe path. *)
Lemma probe_inv_clear m m' i :
  hm_upd m m' i None -> (0 < hm_num_buckets m)%nat -> probe_inv m -> (i < hm_num_buckets m)%nat ->
  hm_slots m !! ((i + 1) mod hm_num_buckets m)%nat = Some None -> probe_inv m'.
Proof.
  intros [(_ & _ & Hnb & _) Hsl] Hpos Hinv Hi Hnext i2 k2 v2. unfold home. rewrite Hnb, Hsl.
  change (Z.to_nat (hash_func k2 mod Z.of_nat (hm_num_buckets m))) with (home m k2).
  intros H2. destruct (decide (i = i2)) as [<-|Hne].
  { by rewrite list_lookup_insert_eq in H2 by (by rewrite hm_slots_length). }
  rewrite list_lookup_insert_ne in H2 by done.
  destruct (Hinv _ _ _ H2) as (j2 & ? & Hj2 & P2). exists j2. split; [done|]. split; [done|].
  intros j' Hj'. destruct (P2 j' Hj') as (k' & v' & Hs & Hk').
  exists k', v'. split; [|done]. rewrite list_lookup_insert_ne; [done|]. intros Heq.
  assert (((i + 1) mod hm_num_buckets m = (home m k2 + S j') mod hm_num_buckets m)%nat) as Hmod.
  { rewrite Heq, Nat.Div0.add_mod_idemp_l. f_equal. lia. }
  rewrite Hmod in Hnext. destruct (decide (S j' = j2)) as [Hl|].
  - rewrite Hl, <- Hj2, H2 in Hnext. done.
  - destruct (P2 (S j')) as (? & ? & ? & ?); [lia|]. congruence.
Qed.

(** Deleting a key whose bucket is followed by a free bucket removes exactly
    that key; deleting an absent key changes nothing and reports failure. *)
Theorem hash_map_delete_refines m g key k e :
  hm_rel m g -> points_to key k -> length k = hm_key_size m ->
  match g !! k with
  | None => hash_map_elem_delete key m e = Ok false m e
  | Some v =>
      exists m', hash_map_elem_delete key m e = Ok true m' e /\ hm_wf m' /\
        (forall k' v', delete k g !! k' = Some v' <->
           exists i, hm_slots m' !! i = Some (Some (k', v'))) /\
        forall i, hm_slots m !! i = Some (Some (k, v)) ->
          hm_slots m !! ((i + 1) mod hm_num_buckets m)%nat = Some None -> hm_rel m' (delete k g)
  end.
Proof.
  intros Hrel Hkp Hk. pose proof Hrel as [Hwf Hinv Hg].
  pose proof (hm_wf_limit m Hwf). pose proof (hm_wf_u64 m Hwf).
  pose proof (hm_rel_size m g Hrel) as Hsz.
  pose proof (elem_delete_run m key k e Hwf Hkp Hk) as HD. unfold delete_outcome in HD.
  destruct (g !! k) as [v|] eqn:Hgk.
  - destruct (probe_found m g k v Hrel Hgk) as (i & Hp & Hi).
    destruct (hm_slot_lookup_eq _ _ _ Hi) as [Hlt Hs].
    rewrite Hp in HD. simpl in HD. rewrite Hs in HD.
    destruct HD as (i' & m' & [= <-] & -> & Hu & Hcnt).
    assert (size g <> 0%nat).
    { intros Hz. apply map_size_empty_inv in Hz. subst. by rewrite lookup_empty in Hgk. }
    rewrite wrap_small in Hcnt by lia.
    assert (hm_wf m') as Hwf' by (apply (hm_upd_wf m m' i _ _ Hwf Hu Hi); simpl; lia).
    pose proof (hm_rel_delete m m' g i k v Hrel Hu Hi) as Hmap.
    exists m'. split; [done|]. split; [done|]. split; [done|]. intros i2 Hi2 Hnext.
    pose proof (probe_inv_once m Hinv _ _ _ _ _ Hi Hi2) as <-.
    split; [done| |done]. apply (probe_inv_clear m m' i); auto. apply (hm_wf_buckets m Hwf).
  - pose proof (probe_absent m g k Hrel Hgk) as Hpa.
    destruct (probe _ _ _ _) as [i|]; simpl in HD; [|done].
    destruct Hpa as [_ Hi]. destruct (hm_slot_lookup_eq _ _ _ Hi) as [_ Hs]. by rewrite Hs in HD.
Qed.

(** The constructor of a table of at most 2^32 elements picks the least prime
    that is not below the requested size and creates an empty table, as long as
    the buffer size fits a [size_t]. *)
Theorem hash_map_new_correct num ks vs :
  0 <= num <= 2 ^ 32 -> 0 <= ks -> 0 <= vs -> next_prime num * (4 + ks + vs) < 2 ^ 64 ->
  let m := hash_map_new num ks vs in
  hm_rel m ∅ /\ prime (Z.of_nat (hm_num_buckets m)) /\
  num <= Z.of_nat (hm_num_buckets m) <= bucket_bound /\
  forall q, num <= q < Z.of_nat (hm_num_buckets m) -> ~ prime q.
Proof.
  intros Hn Hk Hv Hof m. destruct (next_prime_correct num Hn) as (Hr & Hp & Hmin).
  split; [by apply hash_map_new_rel|].
  assert (Z.of_nat (hm_num_buckets m) = next_prime num) as -> by (simpl; lia). done.
Qed.

(** The calls of the next theorem: two keys with the same first bucket, the first
    of which is deleted again. *)
Definition shadow_calls : list hm_call :=
  [CallUpdate [0] [10]; CallUpdate [2] [20]; CallDelete [0]].

(** Deleting a key can hide another one: the flag of the deleted bucket is
    cleared without leaving a mark, so a probe for a key stored further down the
    run stops there. The key is still in the table, a lookup does not find it,
    and updating it stores it a second time. *)
Theorem hash_map_delete_hides_key :
  exists m m2 : bpftime_hash_map,
    run_calls shadow_calls (hash_map_new 2 1 1) 0 = Ok tt m 0 /\
    hm_entries m = [([2], [20])] /\
    hash_map_elem_lookup (Some [2]) m 0 = Ok VNull m 0 /\
    hash_map_elem_update (Some [2]) (Some [30]) m 0 = Ok true m2 0 /\
    hm_entries m2 = [([2], [30]); ([2], [20])].
Proof.
  do 2 eexists. split; [vm_compute; reflexivity|]. split; [vm_compute; reflexivity|].
  split; [vm_compute; reflexivity|]. split; vm_compute; reflexivity.
Qed.

(** *** Witnesses *)

Lemma small_table_rel : hm_rel (hash_map_new 4 1 1) ∅.
Proof. apply hash_map_new_rel; try lia. vm_compute. done. Qed.

Lemma hash_map_calls_safe_witness :
  exists m', run_calls [CallUpdate [1] [7]; CallLookup [1]; CallDelete [1]] (hash_map_new 4 1 1) 0
    = Ok tt m' 0 /\ hm_wf m' /\ get_elem_count m' = Z.of_nat (length (hm_entries m')) /\
    get_elem_count m' <= 4.
Proof.
  apply (hash_map_calls_safe (hash_map_new 4 1 1)).
  - apply (hm_rel_wf _ _ small_table_rel).
  - repeat constructor.
Defined.

Lemma hash_map_delete_refines_witness :
  hash_map_elem_delete (Some [1]) (hash_map_new 4 1 1) 0 = Ok false (hash_map_new 4 1 1) 0.
Proof.
  exact (hash_map_delete_refines (hash_map_new 4 1 1) ∅ (Some [1]) [1] 0
    small_table_rel (points_to_self _) eq_refl).
Defined.

Lemma hash_map_new_correct_witness :
  hm_rel (hash_map_new 1024 4 8) ∅ /\
  prime (Z.of_nat (hm_num_buckets (hash_map_new 1024 4 8))) /\
  1024 <= Z.of_nat (hm_num_buckets (hash_map_new 1024 4 8)) <= bucket_bound /\
  forall q, 1024 <= q < Z.of_nat (hm_num_buckets (hash_map_new 1024 4 8)) -> ~ prime q.
Proof. apply (hash_map_new_correct 1024 4 8); try lia. vm_compute. done. Defined.
