(* ===== verification/FixHashMap.v ===== *)
(** [fix_size_hash_map_impl] (bpf_map/userspace/fix_hash_map.{hpp,cpp}): the
    implementation of BPF_MAP_TYPE_HASH, a wrapper of [bpftime_hash_map]. *)
From Stdlib Require Import ZArith Znumtheory Lia.
From stdpp Require Import base list gmap strings.
From S2P Require Import Prelude MapCommon Primes HashMap.
Local Open Scope Z_scope.

Record fix_size_hash_map_impl := mk_fix_hash {
  fh_map_impl : bpftime_hash_map;
  fh_key_size : nat;
  fh_value_size : nat;
  fh_num_buckets : nat
}.

Abbreviation FH := (M fix_size_hash_map_impl).

Definition fh_set_impl (h : bpftime_hash_map) (s : fix_size_hash_map_impl) :
    fix_size_hash_map_impl :=
  mk_fix_hash h (fh_key_size s) (fh_value_size s) (fh_num_buckets s).

(** Calling a member function of [map_impl]. *)
Definition on_impl {A} (c : M bpftime_hash_map A) : FH A := zoom fh_map_impl fh_set_impl c.

(** The constructor; [_num_buckets] keeps the requested count as a [uint32_t]. *)
Definition fix_hash_new (num_buckets key_size value_size : Z) : fix_size_hash_map_impl :=
  mk_fix_hash (hash_map_new num_buckets key_size value_size)
    (Z.to_nat (u32 key_size)) (Z.to_nat (u32 value_size)) (Z.to_nat (u32 num_buckets)).

Definition fix_elem_lookup (key : ptr) : FH vptr := on_impl (hash_map_elem_lookup key).

(** The result of the table's [elem_update] is dropped, and so are the flags. *)
Definition fix_elem_update (key value : ptr) (flags : Z) : FH Z :=
  on_impl (hash_map_elem_update key value);; mret 0.

Definition fix_elem_delete (key : ptr) : FH Z :=
  on_impl (hash_map_elem_delete key);; mret 0.

(** [for (i = from; i < _num_buckets; i++)]: [n] turns are left. *)
Fixpoint scan_buckets (n i : nat) : FH (Z * option bytes) :=
  match n with
  | O => fail_with ENOENT (-1, None)
  | S n' =>
      empty ← on_impl (is_empty i);
      if (empty : bool) then scan_buckets n' (S i)
      else
        s ← get;
        k ← need "read outside data_buffer"
          (read_range (get_key (fh_map_impl s) i) (fh_key_size s)
             (hm_data_buffer (fh_map_impl s)));
        mret (0, Some k)
  end.

Definition scan_from (from : nat) : FH (Z * option bytes) :=
  s ← get; scan_buckets (fh_num_buckets s - from) from.

Definition fix_map_get_next_key (key : ptr) (next_key : bool) : FH (Z * option bytes) :=
  if negb next_key then fail_with EINVAL (-1, None)
  else match key with
       | None => scan_from 0
       | Some _ =>
           value_ptr ← fix_elem_lookup key;
           match value_ptr with
           | VNull => scan_from 0
           | _ =>
               s ← get;
               match get_index_of_value (fh_map_impl s) value_ptr with
               | Some index => scan_from (index + 1)
               | None => scan_from 0  (* (size_t)-1 + 1 *)
               end
           end
       end.

#[export] Instance fix_hash_MapImpl : MapImpl fix_size_hash_map_impl := {
  should_lock := true;
  elem_lookup := fix_elem_lookup;
  elem_update := fix_elem_update;
  elem_delete := fix_elem_delete;
  map_get_next_key := fix_map_get_next_key
}.

(** ** Lemmas *)

(** A wrapper whose sizes are those of its table, which holds [g]. *)
Record fh_rel (s : fix_size_hash_map_impl) (g : gmap bytes bytes) : Prop := {
  fh_rel_impl : hm_rel (fh_map_impl s) g;
  fh_rel_key : fh_key_size s = hm_key_size (fh_map_impl s);
  fh_rel_value : fh_value_size s = hm_value_size (fh_map_impl s);
  fh_rel_pos : (0 < hm_value_size (fh_map_impl s))%nat;
  fh_rel_num : (fh_num_buckets s <= hm_num_buckets (fh_map_impl s))%nat
}.

(** The buckets that [map_get_next_key] looks at, from [from] on. *)
Definition visited (s : fix_size_hash_map_impl) (from : nat) : list (bytes * bytes) :=
  omap id (drop from (take (fh_num_buckets s) (hm_slots (fh_map_impl s)))).

Lemma fh_set_impl_id s : fh_set_impl (fh_map_impl s) s = s.
Proof. by destruct s. Qed.

Section scan.
Variables (s : fix_size_hash_map_impl) (g : gmap bytes bytes).
Hypothesis Hrel : fh_rel s g.
Abbreviation sl := (hm_slots (fh_map_impl s)).
Abbreviation nb := (fh_num_buckets s).

Lemma drop_visited i :
  (i < nb)%nat ->
  exists o, sl !! i = Some o /\ drop i (take nb sl) = o :: drop (S i) (take nb sl).
Proof.
  intros Hi. destruct Hrel as [_ _ _ _ Hnum].
  destruct (lookup_lt_is_Some_2 sl i) as [o Ho]; [rewrite hm_slots_length; lia|].
  exists o. split; [done|]. apply drop_S. by rewrite lookup_take_lt.
Qed.

(** A scan stops at the first filled bucket it visits. *)
Lemma scan_buckets_run n i e :
  (i + n = nb)%nat ->
  scan_buckets n i s e =
  match visited s i with
  | [] => Ok (-1, None) s ENOENT
  | (k, _) :: _ => Ok (0, Some k) s e
  end.
Proof.
  revert i. induction n as [|n IH]; intros i Hi.
  - unfold visited. rewrite drop_ge; [done|]. rewrite length_take. lia.
  - destruct (drop_visited i) as (o & Ho & Hd); [lia|].
    apply hm_slot_lookup_eq in Ho as [Hlt Hs].
    destruct Hrel as [Hr Hk Hv Hp Hn]. pose proof (hm_wf_length _ (hm_rel_wf _ _ Hr)) as Hl.
    cbn [scan_buckets]. unfold on_impl, zoom. mbase.
    rewrite is_empty_run by done. rewrite fh_set_impl_id, Hs.
    unfold visited. rewrite Hd, entries_cons. destruct o as [[k v]|].
    + rewrite bool_decide_false by done. unfold need. rewrite Hk.
      pose proof (hm_bucket_range _ i Hl Hlt) as Hrange.
      rewrite hm_bytes_Some by (unfold hm_esz, get_key in *; lia).
      unfold hm_slot in Hs. destruct (_ =? 0); [done|]. by injection Hs as <- _.
    + rewrite bool_decide_true by done. apply IH. lia.
Qed.

Lemma scan_from_run i e :
  (i <= nb)%nat ->
  scan_from i s e =
  match visited s i with
  | [] => Ok (-1, None) s ENOENT
  | (k, _) :: _ => Ok (0, Some k) s e
  end.
Proof. intros. unfold scan_from. mbase. apply scan_buckets_run. lia. Qed.

(** The bucket of a pointer returned by a lookup. *)
Lemma index_of_found i :
  (i < hm_num_buckets (fh_map_impl s))%nat ->
  get_index_of_value (fh_map_impl s) (VBuf (get_value (fh_map_impl s) i)) = Some i.
Proof.
  intros Hi. destruct Hrel as [Hr Hk Hv Hp Hn].
  pose proof (hm_bucket_range _ i (hm_wf_length _ (hm_rel_wf _ _ Hr)) Hi) as Hrange.
  unfold get_index_of_value. unfold hm_esz, get_value, get_elem_offset in *.
  rewrite decide_False by lia. f_equal.
  rewrite <- Nat.add_assoc, Nat.add_comm, Nat.div_add by lia. rewrite Nat.div_small; lia.
Qed.

(** After a stored key comes the key of the next filled bucket. *)
Lemma next_key_run i k v e :
  sl !! i = Some (Some (k, v)) -> (i < nb)%nat ->
  fix_map_get_next_key (Some k) true s e =
  match visited s (S i) with
  | [] => Ok (-1, None) s ENOENT
  | (k', _) :: _ => Ok (0, Some k') s e
  end.
Proof.
  intros Hi Hlt. pose proof Hrel as [Hr Hk Hv Hp Hn]. pose proof (hm_rel_wf _ _ Hr) as Hwf.
  assert (g !! k = Some v) as Hg by (apply (hm_rel_map _ _ Hr); eauto).
  destruct (hm_slot_lookup_eq _ _ _ Hi) as [Hlt' Hs].
  assert (length k = hm_key_size (fh_map_impl s)) as Hlk
    by (by eapply hm_slot_lengths; [apply (hm_wf_length _ Hwf)| |]).
  destruct (probe_found _ g k v Hr Hg) as (i' & Hpr & Hi').
  pose proof (probe_inv_once _ (hm_rel_inv _ _ Hr) _ _ _ _ _ Hi Hi') as <-.
  unfold fix_map_get_next_key, fix_elem_lookup, on_impl, zoom. mbase. cbn [negb]; cbv beta iota.
    rewrite (elem_lookup_run _ (Some k) k e Hwf (points_to_self k) Hlk), Hpr.
  rewrite fh_set_impl_id. unfold lookup_result. rewrite Hs.
  rewrite index_of_found by done. rewrite Nat.add_1_r. apply scan_from_run. lia.
Qed.

Lemma first_visited x k v rest :
  visited s x = (k, v) :: rest ->
  exists i, (x <= i < nb)%nat /\ sl !! i = Some (Some (k, v)) /\ rest = visited s (S i).
Proof.
  unfold visited. remember (nb - x)%nat as d eqn:Hd. revert x Hd.
  induction d as [|d IHd]; intros x Hd Hv.
  - rewrite drop_ge in Hv; [done|]. rewrite length_take. lia.
  - destruct (drop_visited x) as (o & Ho & Hdr); [lia|]. rewrite Hdr, entries_cons in Hv.
    destruct o as [kv|].
    + injection Hv as -> <-. exists x. split; [lia|done].
    + destruct (IHd (S x)) as (i & ? & ? & ?); [lia|done|]. exists i. split; [lia|done].
Qed.

(** Iterating from a stored key lists the keys of the buckets after it. *)
Lemma iterate_from fuel i k v e :
  sl !! i = Some (Some (k, v)) -> (i < nb)%nat -> (nb - i <= fuel)%nat ->
  iterate_keys fuel (Some k) s e = Ok (visited s (S i)).*1 s ENOENT.
Proof.
  revert i k v e. induction fuel as [|fuel IH]; intros i k v e Hi Hlt Hf; [lia|].
  pose proof (next_key_run i k v e Hi Hlt) as Hn.
  destruct (visited s (S i)) as [|[k' v'] rest] eqn:Hv; [by apply iterate_keys_done|].
  destruct (first_visited (S i) k' v' rest Hv) as (i' & Hi' & Hs' & ->).
  eapply iterate_keys_more; [exact Hn|]. apply (IH i' k' v'); done || lia.
Qed.

End scan.

Lemma fh_rel_set s g h g' :
  fh_rel s g -> hm_rel h g' -> hm_same (fh_map_impl s) h -> fh_rel (fh_set_impl h s) g'.
Proof.
  intros [Hr Hk Hv Hp Hn] Hr' (Sk & Sv & Sn & _). split; simpl; try done; congruence || lia.
Qed.

Lemma visited_all s :
  fh_num_buckets s = hm_num_buckets (fh_map_impl s) -> visited s 0 = hm_entries (fh_map_impl s).
Proof.
  intros Hn. unfold visited, hm_entries. rewrite drop_0, take_ge; [done|].
  rewrite hm_slots_length. lia.
Qed.

Lemma visited_elem s k :
  k ∈ (visited s 0).*1 <->
  exists i v, (i < fh_num_buckets s)%nat /\ hm_slots (fh_map_impl s) !! i = Some (Some (k, v)).
Proof.
  unfold visited. rewrite drop_0, list_elem_of_fmap. split.
  - intros ([k' v] & -> & Hin). apply elem_of_entries in Hin as [i Hi].
    apply lookup_take_Some in Hi as [Hi Hlt]. eauto.
  - intros (i & v & Hlt & Hi). exists (k, v). split; [done|]. apply elem_of_entries.
    exists i. by rewrite lookup_take_lt.
Qed.

Lemma visited_NoDup s g : fh_rel s g -> NoDup (visited s 0).*1.
Proof.
  intros [Hr _ _ _ _]. apply entries_NoDup. rewrite drop_0. intros i j k v v' Hi Hj.
  apply lookup_take_Some in Hi as [Hi _]. apply lookup_take_Some in Hj as [Hj _].
  by eapply (probe_inv_once _ (hm_rel_inv _ _ Hr)).
Qed.

(** ** Theorems *)

(** Both operations, on the abstract map; an update keeps the sizes and the limit. *)
Lemma fix_update_run s g key value k v flags e :
  fh_rel s g -> points_to key k -> points_to value v ->
  length k = fh_key_size s -> length v = fh_value_size s ->
  exists s', fix_elem_update key value flags s e = Ok 0 s' e /\
    fh_rel s' (if bool_decide (is_Some (g !! k)) ||
                  (Z.of_nat (size g) <? hm_max_element_count (fh_map_impl s))
               then <[k := v]> g else g) /\
    fh_key_size s' = fh_key_size s /\ fh_value_size s' = fh_value_size s /\
    hm_max_element_count (fh_map_impl s') = hm_max_element_count (fh_map_impl s).
Proof.
  intros Hrel Hkp Hvp Hk Hv. pose proof Hrel as [Hr Ek Ev _ _]. rewrite Ek in Hk. rewrite Ev in Hv.
  pose proof (elem_update_rel _ g key value k v e Hr Hkp Hvp Hk Hv) as HU.
  unfold fix_elem_update, on_impl, zoom. mbase. destruct (_ || _).
  - destruct HU as (h & -> & Hr' & Hs). eexists. split; [done|]. split; [by eapply fh_rel_set|].
    destruct Hs as (_ & _ & _ & ? & _). done.
  - rewrite HU, fh_set_impl_id. by exists s.
Qed.

Lemma fix_lookup_run s g key k e :
  fh_rel s g -> points_to key k -> length k = fh_key_size s ->
  match g !! k with
  | None => fix_elem_lookup key s e = Ok VNull s e
  | Some v => exists off, fix_elem_lookup key s e = Ok (VBuf off) s e /\
      read_range off (fh_value_size s) (hm_data_buffer (fh_map_impl s)) = Some v
  end.
Proof.
  intros Hrel Hkp Hk. pose proof Hrel as [Hr Ek Ev _ _]. rewrite Ek in Hk. rewrite Ev.
  pose proof (elem_lookup_rel _ g key k e Hr Hkp Hk) as HL.
  unfold fix_elem_lookup, on_impl, zoom. destruct (g !! k) as [v|].
  - destruct HL as (off & -> & Hrd). exists off. by rewrite fh_set_impl_id.
  - by rewrite HL, fh_set_impl_id.
Qed.

(** BPF_MAP_TYPE_HASH, update: the pair is stored when the key is present or
    the limit is not reached; otherwise nothing changes. In every case, and
    whatever the flags, the call returns 0 and leaves errno alone. *)
Theorem fix_hash_update_refines s g key value k v flags e :
  fh_rel s g -> points_to key k -> points_to value v ->
  length k = fh_key_size s -> length v = fh_value_size s ->
  exists s', fix_elem_update key value flags s e = Ok 0 s' e /\
    fh_rel s' (if bool_decide (is_Some (g !! k)) ||
                  (Z.of_nat (size g) <? hm_max_element_count (fh_map_impl s))
               then <[k := v]> g else g).
Proof.
  intros Hrel Hkp Hvp Hk Hv.
  destruct (fix_update_run s g key value k v flags e Hrel Hkp Hvp Hk Hv) as (s' & ? & ? & _). eauto.
Qed.

(** BPF_MAP_TYPE_HASH, lookup: null exactly for the absent keys, otherwise a
    pointer to the stored value; the map is not changed. *)
Theorem fix_hash_lookup_refines s g key k e :
  fh_rel s g -> points_to key k -> length k = fh_key_size s ->
  match g !! k with
  | None => fix_elem_lookup key s e = Ok VNull s e
  | Some v => exists off, fix_elem_lookup key s e = Ok (VBuf off) s e /\
      read_range off (fh_value_size s) (hm_data_buffer (fh_map_impl s)) = Some v
  end.
Proof. apply fix_lookup_run. Qed.

(** Iterating with map_get_next_key from a null key ends with ENOENT after
    listing, once each, the keys of the first [_num_buckets] buckets; when the
    requested size is a prime, these are all the keys of the map. *)
Theorem fix_hash_iteration s g e :
  fh_rel s g ->
  exists ks, iterate_keys (S (fh_num_buckets s)) None s e = Ok ks s ENOENT /\ NoDup ks /\
    (forall k, k ∈ ks <-> exists i v, (i < fh_num_buckets s)%nat /\
       hm_slots (fh_map_impl s) !! i = Some (Some (k, v))) /\
    (fh_num_buckets s = hm_num_buckets (fh_map_impl s) -> forall k, k ∈ ks <-> is_Some (g !! k)).
Proof.
  intros Hrel. exists (visited s 0).*1. split; [|split; [by eapply visited_NoDup|split]].
  - pose proof (scan_from_run s g Hrel 0 e ltac:(lia)) as Hn.
    destruct (visited s 0) as [|[k v] rest] eqn:Hv; [by apply iterate_keys_done|].
    destruct (first_visited s g Hrel 0 k v rest Hv) as (i & Hi & Hs & ->).
    eapply iterate_keys_more; [exact Hn|]. apply (iterate_from s g Hrel _ i k v); done || lia.
  - intros k. apply visited_elem.
  - intros Hn k. rewrite visited_elem. pose proof (fh_rel_impl s g Hrel) as Hr. split.
    + intros (i & v & _ & Hi). exists v. apply (hm_rel_map _ _ Hr). eauto.
    + intros [v Hv]. apply (hm_rel_map _ _ Hr) in Hv as [i Hi]. exists i, v. split; [|done].
      destruct (hm_slot_lookup_eq _ _ _ Hi). lia.
Qed.

(** The contents of a map of four elements after storing the key [4]. *)
Definition one_key_map : fix_size_hash_map_impl :=
  match fix_elem_update (Some [4]) (Some [9]) BPF_ANY (fix_hash_new 4 1 1) 0 with
  | Ok _ s _ => s
  | _ => fix_hash_new 4 1 1
  end.

(** When the requested size is not a prime, the buckets past it are used but
    never enumerated: a map of four elements with one key in its fifth bucket
    finds the key by lookup and reports that it has no first key. *)
Theorem fix_hash_iteration_misses_key :
  fix_elem_lookup (Some [4]) one_key_map 0 = Ok (VBuf 29) one_key_map 0 /\
  hm_entries (fh_map_impl one_key_map) = [([4], [9])] /\
  fix_map_get_next_key None true one_key_map 0 = Ok (-1, None) one_key_map ENOENT.
Proof. split; [|split]; vm_compute; reflexivity. Qed.

(** *** Witnesses *)

Lemma small_fix_rel : fh_rel (fix_hash_new 5 1 1) ∅.
Proof.
  split; try done; [|vm_compute; lia..].
  change (hm_rel (hash_map_new 5 1 1) ∅). apply hash_map_new_rel; try lia. vm_compute. done.
Qed.

Lemma fix_hash_update_refines_witness :
  exists s', fix_elem_update (Some [1]) (Some [7]) BPF_NOEXIST (fix_hash_new 5 1 1) 0 = Ok 0 s' 0 /\
    fh_rel s' (<[[1] := [7]]> ∅).
Proof.
  exact (fix_hash_update_refines (fix_hash_new 5 1 1) ∅ (Some [1]) (Some [7]) [1] [7] BPF_NOEXIST 0
    small_fix_rel (points_to_self _) (points_to_self _) eq_refl eq_refl).
Defined.

Lemma fix_hash_lookup_refines_witness :
  fix_elem_lookup (Some [1]) (fix_hash_new 5 1 1) 0 = Ok VNull (fix_hash_new 5 1 1) 0.
Proof.
  exact (fix_hash_lookup_refines (fix_hash_new 5 1 1) ∅ (Some [1]) [1] 0
    small_fix_rel (points_to_self _) eq_refl).
Defined.

Lemma fix_hash_iteration_witness :
  exists ks, iterate_keys 6 None (fix_hash_new 5 1 1) 0 = Ok ks (fix_hash_new 5 1 1) ENOENT /\
    NoDup ks /\
    (forall k, k ∈ ks <-> exists i v, (i < 5)%nat /\
       hm_slots (hash_map_new 5 1 1) !! i = Some (Some (k, v))) /\
    (5 = hm_num_buckets (hash_map_new 5 1 1) -> forall k, k ∈ ks <-> is_Some ((∅ : gmap bytes bytes) !! k))%nat.
Proof. exact (fix_hash_iteration (fix_hash_new 5 1 1) ∅ 0 small_fix_rel). Defined.
