(* ===== verification/ArrayMap.v ===== *)
(** [array_map_impl] (bpf_map/userspace/array_map.{hpp,cpp}) and
    [array_map_of_maps_impl] (bpf_map/userspace/map_in_maps.hpp): values of
    [_value_size] bytes in one flat buffer, indexed by a [uint32_t] key. *)
From Stdlib Require Import ZArith Lia.
From stdpp Require Import base list gmap strings.
From S2P Require Import Prelude MapCommon.
Local Open Scope Z_scope.
#[local] Arguments Nat.mul : simpl never.

Record array_map_impl := mk_array_map {
  am_data : bytes;
  am_value_size : Z;
  am_max_entries : Z
}.

Abbreviation AM := (M array_map_impl).

Definition am_set_data (d : bytes) (s : array_map_impl) : array_map_impl :=
  mk_array_map d (am_value_size s) (am_max_entries s).

(** The constructor: the buffer size is a product of two [uint32_t]. *)
Definition array_map_new (value_size max_entries : Z) : array_map_impl :=
  mk_array_map (zeros (Z.to_nat (u32 (value_size * max_entries)))) value_size max_entries.

(** [&data[key_val * _value_size]], an index into the vector. *)
Definition array_slot_ptr (key_val : Z) : AM nat :=
  s ← get;
  let off := Z.to_nat (u32 (key_val * am_value_size s)) in
  if decide (off < length (am_data s))%nat then mret off else ub "index outside data".

Definition array_elem_lookup (key : ptr) : AM vptr :=
  key_val ← deref_u32 key;
  s ← get;
  if am_max_entries s <=? key_val then fail_with ENOENT VNull
  else off ← array_slot_ptr key_val; mret (VBuf off).

Definition array_elem_update (key value : ptr) (flags : Z) : AM Z :=
  ok ← check_update_flags flags;
  if negb ok then mret (-1)
  else
    key_val ← deref_u32 key;
    s ← get;
    if (key_val <? am_max_entries s) && (flags =? BPF_NOEXIST) then fail_with EEXIST (-1)
    else if am_max_entries s <=? key_val then fail_with E2BIG (-1)
    else
      v ← deref (Z.to_nat (am_value_size s)) value;
      off ← array_slot_ptr key_val;
      d ← need "copy outside data" (write_range off v (am_data s));
      put (am_set_data d s);;
      mret 0.

Definition array_elem_delete (key : ptr) : AM Z :=
  _ ← deref_u32 key;
  fail_with EINVAL (-1).

Definition array_map_get_next_key (key : ptr) (next_key : bool) : AM (Z * option bytes) :=
  s ← get;
  index_next_key (am_max_entries s) key next_key.

(** [get_raw_data] *)
Definition array_get_raw_data (s : array_map_impl) : vptr := VBuf 0.

#[export] Instance array_MapImpl : MapImpl array_map_impl := {
  should_lock := false;
  elem_lookup := array_elem_lookup;
  elem_update := array_elem_update;
  elem_delete := array_elem_delete;
  map_get_next_key := array_map_get_next_key
}.

(** *** Array of maps: [sizeof(int)]-byte values holding map descriptors *)

Definition array_of_maps_new (max_entries : Z) : array_map_impl := array_map_new 4 max_entries.

(** The descriptor, sign-extended and shifted into the upper half of a pointer. *)
Definition array_of_maps_elem_lookup (key : ptr) : AM vptr :=
  key_val ← array_elem_lookup key;
  match key_val with
  | VBuf off =>
      s ← get;
      bs ← need "read outside data" (read_range off 4 (am_data s));
      mret (VWord (u64 (Z.shiftl (s32 (le_decode bs)) 32)))
  | _ => ub "null pointer dereference"
  end.

(** The rest is inherited. *)
Definition array_of_maps_MapImpl : MapImpl array_map_impl := {|
  should_lock := false;
  elem_lookup := array_of_maps_elem_lookup;
  elem_update := array_elem_update;
  elem_delete := array_elem_delete;
  map_get_next_key := array_map_get_next_key
|}.

(** What a program does with a pointer into the buffer: load and store. *)
Definition am_load (off len : nat) : AM bytes :=
  s ← get; need "load outside data" (read_range off len (am_data s)).

Definition am_store (off : nat) (bs : bytes) : AM unit :=
  s ← get;
  d ← need "store outside data" (write_range off bs (am_data s));
  put (am_set_data d s).

(** ** Lemmas *)

(** A map whose buffer has room for its entries: sizes that fit in 32 bits. *)
Record am_wf (s : array_map_impl) : Prop := {
  am_wf_value : 0 < am_value_size s;
  am_wf_max : 0 <= am_max_entries s;
  am_wf_u32 : am_value_size s * am_max_entries s < 2 ^ 32;
  am_wf_data : length (am_data s) = (Z.to_nat (am_max_entries s) * Z.to_nat (am_value_size s))%nat
}.

(** The value stored at index [i]. *)
Definition am_slot (s : array_map_impl) (i : Z) : option bytes :=
  read_range (Z.to_nat i * Z.to_nat (am_value_size s)) (Z.to_nat (am_value_size s)) (am_data s).

Section array_lemmas.
Variable s : array_map_impl.
Hypothesis Hwf : am_wf s.

Lemma array_off i :
  0 <= i < am_max_entries s ->
  Z.to_nat (u32 (i * am_value_size s)) = (Z.to_nat i * Z.to_nat (am_value_size s))%nat.
Proof.
  intros Hi. destruct Hwf as [? ? ? ?]. rewrite wrap_small by nia. by rewrite Z2Nat.inj_mul by lia.
Qed.

Lemma array_off_range i :
  0 <= i < am_max_entries s ->
  (Z.to_nat i * Z.to_nat (am_value_size s) + Z.to_nat (am_value_size s) <= length (am_data s))%nat.
Proof. intros Hi. destruct Hwf as [? ? ? ->]. apply record_range. lia. Qed.

Lemma array_slot_ptr_run i e :
  0 <= i < am_max_entries s ->
  array_slot_ptr i s e = Ok (Z.to_nat i * Z.to_nat (am_value_size s))%nat s e.
Proof.
  intros Hi. unfold array_slot_ptr. mbase. rewrite array_off by done.
  pose proof (array_off_range i Hi). destruct Hwf. rewrite decide_True by lia. done.
Qed.

Lemma am_slot_Some i : 0 <= i < am_max_entries s -> is_Some (am_slot s i).
Proof. intros Hi. unfold am_slot. rewrite read_range_Some by (by apply array_off_range). eauto. Qed.

(** Writing a whole value changes that index only. *)
Lemma am_write_slot i v :
  0 <= i < am_max_entries s -> length v = Z.to_nat (am_value_size s) ->
  exists d, write_range (Z.to_nat i * Z.to_nat (am_value_size s)) v (am_data s) = Some d /\
    am_wf (am_set_data d s) /\
    forall j, 0 <= j -> am_slot (am_set_data d s) j = if decide (j = i) then Some v else am_slot s j.
Proof.
  intros Hi Hv. pose proof (array_off_range i Hi) as Hr. rewrite <- Hv in Hr at 2.
  apply write_range_is_Some in Hr as [d Hd]. exists d. split; [done|].
  pose proof (write_range_length _ _ _ _ Hd) as Hl. split.
  - destruct Hwf. split; simpl; try done. congruence.
  - intros j Hj. unfold am_slot. simpl. case_decide as Hji.
    + subst. by apply (read_write_len _ _ _ _ _ Hd).
    + apply (read_write_record _ _ _ _ _ _ Hd Hv). lia.
Qed.

End array_lemmas.

Lemma array_map_new_wf vs me :
  0 < vs -> 0 <= me -> vs * me < 2 ^ 32 -> am_wf (array_map_new vs me).
Proof.
  intros. split; simpl; try lia. rewrite length_zeros, wrap_small by nia.
  rewrite Z2Nat.inj_mul by lia. lia.
Qed.

(** ** Theorems *)

(** The outcome of an array update at index [i]: an errno, or the new values. *)
Definition spec_array_update (max i : Z) (v : bytes) (flags : Z) (f : Z -> option bytes)
    : Z + (Z -> option bytes) :=
  if negb (is_good_update_flag flags) then inl EINVAL
  else if decide (i < max) then
    if flags =? BPF_NOEXIST then inl EEXIST
    else inr (fun j => if decide (j = i) then Some v else f j)
  else inl E2BIG.

(** BPF_MAP_TYPE_ARRAY, update: unknown flags give EINVAL, BPF_NOEXIST on a
    valid index EEXIST, an index past the end E2BIG, and nothing changes;
    otherwise the call returns 0, stores the value at the index and leaves every
    other index alone. *)
Theorem array_update_refines s key value i v flags e :
  am_wf s -> points_to key (le_encode 4 i) -> 0 <= i < 2 ^ 32 ->
  points_to value v -> length v = Z.to_nat (am_value_size s) ->
  let o := spec_array_update (am_max_entries s) i v flags (am_slot s) in
  exists s', array_elem_update key value flags s e = Ok (spec_ret o) s' (spec_errno o e) /\
    am_wf s' /\ am_max_entries s' = am_max_entries s /\ am_value_size s' = am_value_size s /\
    match o with
    | inl _ => s' = s
    | inr f => forall j, 0 <= j -> am_slot s' j = f j
    end.
Proof.
  intros Hwf Hk Hi Hv Hl. cbv zeta. unfold array_elem_update, spec_array_update. mbase.
  rewrite check_update_flags_run. destruct (is_good_update_flag flags); cbn [negb]; [|by exists s].
  rewrite (deref_u32_points_to _ i) by done.
  case_decide as Hm.
  - rewrite (proj2 (Z.ltb_lt _ _)), (proj2 (Z.leb_gt _ _)) by lia. cbn [andb].
    destruct (flags =? BPF_NOEXIST); [by exists s|].
    rewrite (deref_len _ _ v) by done. rewrite array_slot_ptr_run by (done || lia).
    destruct (am_write_slot s Hwf i v ltac:(lia) Hl) as (d & Hd & Hwf' & Hs).
    rewrite Hd. cbn. eauto 10.
  - rewrite (proj2 (Z.ltb_ge _ _)), (proj2 (Z.leb_le _ _)) by lia. by exists s.
Qed.

(** BPF_MAP_TYPE_ARRAY, lookup: an index past the end gives null and ENOENT;
    otherwise the pointer addresses the value of the index, and a store through
    it changes this value and no other. *)
Theorem array_lookup_aliases s key i v e :
  am_wf s -> points_to key (le_encode 4 i) -> 0 <= i < 2 ^ 32 ->
  length v = Z.to_nat (am_value_size s) ->
  if decide (i < am_max_entries s) then
    exists off old s', array_elem_lookup key s e = Ok (VBuf off) s e /\
      am_slot s i = Some old /\ am_load off (Z.to_nat (am_value_size s)) s e = Ok old s e /\
      am_store off v s e = Ok tt s' e /\ am_wf s' /\
      (forall j, 0 <= j -> am_slot s' j = if decide (j = i) then Some v else am_slot s j)
  else array_elem_lookup key s e = Ok VNull s ENOENT.
Proof.
  intros Hwf Hk Hi Hl. unfold array_elem_lookup. mbase.
  rewrite (deref_u32_points_to _ i) by done. case_decide as Hm.
  - rewrite (proj2 (Z.leb_gt _ _)) by lia. rewrite array_slot_ptr_run by (done || lia).
    destruct (am_slot_Some s Hwf i) as [old Hold]; [lia|].
    destruct (am_write_slot s Hwf i v ltac:(lia) Hl) as (d & Hd & Hwf' & Hs).
    eexists _, old, (am_set_data d s). split; [done|]. split; [done|].
    unfold am_load, am_store. mbase. unfold am_slot in Hold. rewrite Hold, Hd. done.
  - by rewrite (proj2 (Z.leb_le _ _)) by lia.
Qed.

(** BPF_MAP_TYPE_ARRAY, iteration: from a null key [map_get_next_key]
    enumerates 0, 1, .., max_entries - 1 in this order and then fails with
    ENOENT, without touching the map. *)
Theorem array_iteration s e :
  0 < am_max_entries s < 2 ^ 32 ->
  iterate_keys (S (Z.to_nat (am_max_entries s))) None s e =
  Ok (index_keys 0 (Z.to_nat (am_max_entries s))) s ENOENT.
Proof.
  intros Hm. by apply index_iterate.
Qed.

(** The buffer size and the element offsets are products of two 32-bit
    numbers, taken modulo 2^32: an array of 65536 values of 65536 bytes has an
    empty buffer, and looking up any of its valid indexes leaves it. *)
Theorem array_size_overflow :
  am_data (array_map_new 65536 65536) = [] /\
  forall i e, 0 <= i < 65536 ->
    array_elem_lookup (Some (le_encode 4 i)) (array_map_new 65536 65536) e =
    Ub "index outside data".
Proof.
  split; [vm_compute; reflexivity|]. intros i e Hi. unfold array_elem_lookup. mbase.
  rewrite (deref_u32_points_to _ i) by (auto with bpf; lia).
  change (am_max_entries (array_map_new 65536 65536)) with 65536.
  rewrite (proj2 (Z.leb_gt _ _)) by lia.
  unfold array_slot_ptr. mbase. rewrite decide_False; [done|].
  change (am_data (array_map_new 65536 65536)) with (@nil Z). simpl. lia.
Qed.

(** BPF_MAP_TYPE_ARRAY_OF_MAPS: for a stored descriptor [fd] the lookup
    returns the word [fd << 32]; for an index past the end it dereferences the
    null pointer that the array lookup gave it. *)
Theorem array_of_maps_lookup s i fd e :
  am_wf s -> am_value_size s = 4 -> 0 <= i < 2 ^ 32 ->
  (i < am_max_entries s -> am_slot s i = Some (le_encode 4 fd)) -> 0 <= fd < 2 ^ 31 ->
  array_of_maps_elem_lookup (Some (le_encode 4 i)) s e =
  if decide (i < am_max_entries s) then Ok (VWord (Z.shiftl fd 32)) s e
  else Ub "null pointer dereference".
Proof.
  intros Hwf H4 Hi Hfd Hr. unfold array_of_maps_elem_lookup, array_elem_lookup. mbase.
  rewrite (deref_u32_points_to _ i) by auto with bpf. case_decide as Hm.
  - rewrite (proj2 (Z.leb_gt _ _)) by lia. rewrite array_slot_ptr_run by (done || lia).
    specialize (Hfd Hm). unfold am_slot in Hfd. rewrite H4 in *. change (Z.to_nat 4) with 4%nat in *. rewrite Hfd.
    unfold need. mbase. rewrite le_decode_encode by (simpl; lia).
    rewrite s32_small by lia. rewrite wrap_small; [done|].
    rewrite Z.shiftl_mul_pow2 by lia. lia.
  - by rewrite (proj2 (Z.leb_le _ _)) by lia.
Qed.

(** *** Witnesses *)

Lemma small_array_wf : am_wf (array_map_new 4 3).
Proof. apply array_map_new_wf; lia. Qed.

Lemma array_update_refines_witness :
  let s := array_map_new 4 3 in
  let o := spec_array_update 3 2 [1; 2; 3; 4] BPF_ANY (am_slot s) in
  exists s', array_elem_update (Some (le_encode 4 2)) (Some [1; 2; 3; 4]) BPF_ANY s 0 =
      Ok (spec_ret o) s' (spec_errno o 0) /\
    am_wf s' /\ am_max_entries s' = 3 /\ am_value_size s' = 4 /\
    match o with inl _ => s' = s | inr f => forall j, 0 <= j -> am_slot s' j = f j end.
Proof.
  refine (array_update_refines (array_map_new 4 3) (Some (le_encode 4 2)) (Some [1; 2; 3; 4])
    2 [1; 2; 3; 4] BPF_ANY 0 small_array_wf (points_to_self _) _ (points_to_self _) eq_refl).
  lia.
Defined.

Lemma array_lookup_aliases_witness :
  exists off old s', array_elem_lookup (Some (le_encode 4 1)) (array_map_new 4 3) 0 =
      Ok (VBuf off) (array_map_new 4 3) 0 /\
    am_slot (array_map_new 4 3) 1 = Some old /\
    am_load off 4 (array_map_new 4 3) 0 = Ok old (array_map_new 4 3) 0 /\
    am_store off [1; 2; 3; 4] (array_map_new 4 3) 0 = Ok tt s' 0 /\ am_wf s' /\
    (forall j, 0 <= j ->
      am_slot s' j = if decide (j = 1) then Some [1; 2; 3; 4] else am_slot (array_map_new 4 3) j).
Proof.
  refine (array_lookup_aliases (array_map_new 4 3) (Some (le_encode 4 1)) 1 [1; 2; 3; 4] 0
    small_array_wf (points_to_self _) _ eq_refl).
  lia.
Defined.

Lemma array_iteration_witness :
  iterate_keys 4 None (array_map_new 4 3) 0 = Ok (index_keys 0 3) (array_map_new 4 3) ENOENT.
Proof. refine (array_iteration (array_map_new 4 3) 0 _). simpl. lia. Defined.

Lemma array_of_maps_lookup_witness :
  array_of_maps_elem_lookup (Some (le_encode 4 2)) (mk_array_map [5; 0; 0; 0; 6; 0; 0; 0; 7; 0; 0; 0] 4 3) 0 =
  Ok (VWord (Z.shiftl 7 32)) (mk_array_map [5; 0; 0; 0; 6; 0; 0; 0; 7; 0; 0; 0] 4 3) 0.
Proof.
  refine (array_of_maps_lookup (mk_array_map [5; 0; 0; 0; 6; 0; 0; 0; 7; 0; 0; 0] 4 3) 2 7 0
    _ eq_refl _ (fun _ => eq_refl) _); [split; simpl; lia|lia..].
Defined.
