(* ===== verification/PerCpuArray.v ===== *)
(** [per_cpu_array_map_impl] (bpf_map/userspace/per_cpu_array_map.{hpp,cpp}): one
    value per index and CPU, in one flat buffer. The program-side operations work
    on the value of the CPU they run on ([my_sched_getcpu()], the argument [cpu]),
    the userspace side on the values of all CPUs at once. *)
From Stdlib Require Import ZArith Lia.
From stdpp Require Import base list gmap strings.
From S2P Require Import Prelude MapCommon ArrayMap.
Local Open Scope Z_scope.
#[local] Arguments Nat.mul : simpl never.

Record per_cpu_array_map_impl := mk_pca {
  pca_data : bytes;
  pca_ncpu : Z;
  pca_value_size : Z;
  pca_max_ent : Z
}.

Abbreviation PCA := (M per_cpu_array_map_impl).

Definition pca_set_data (d : bytes) (s : per_cpu_array_map_impl) : per_cpu_array_map_impl :=
  mk_pca d (pca_ncpu s) (pca_value_size s) (pca_max_ent s).

(** [data_at(idx, cpu)], in 64-bit arithmetic. *)
Definition pca_data_at (s : per_cpu_array_map_impl) (idx cpu : Z) : nat :=
  Z.to_nat (u64 (idx * pca_value_size s * pca_ncpu s + cpu * pca_value_size s)).

(** The constructor: the buffer size is computed in 32-bit arithmetic. *)
Definition pca_new (value_size max_entries ncpu : Z) : per_cpu_array_map_impl :=
  mk_pca (zeros (Z.to_nat (u32 (max_entries * ncpu * value_size))))
    (s32 ncpu) value_size max_entries.

Definition pca_copy (off : nat) (v : bytes) : PCA unit :=
  s ← get;
  d ← need "copy outside data" (write_range off v (pca_data s));
  put (pca_set_data d s).

Section on_cpu.
Variable cpu : Z.

Definition pca_elem_lookup (key : ptr) : PCA vptr :=
  match key with
  | None => fail_with ENOENT VNull
  | Some _ =>
      key_val ← deref_u32 key;
      s ← get;
      if pca_max_ent s <=? key_val then fail_with ENOENT VNull
      else mret (VBuf (pca_data_at s key_val cpu))
  end.

Definition pca_elem_update (key value : ptr) (flags : Z) : PCA Z :=
  ok ← check_update_flags flags;
  if negb ok then mret (-1)
  else match key with
  | None => fail_with ENOENT (-1)
  | Some _ =>
      key_val ← deref_u32 key;
      s ← get;
      if (key_val <? pca_max_ent s) && (flags =? BPF_NOEXIST) then fail_with EEXIST (-1)
      else if pca_max_ent s <=? key_val then fail_with E2BIG (-1)
      else
        v ← deref (Z.to_nat (pca_value_size s)) value;
        pca_copy (pca_data_at s key_val cpu) v;;
        mret 0
  end.

Definition pca_elem_delete (key : ptr) : PCA Z := fail_with EINVAL (-1).

Definition pca_map_get_next_key (key : ptr) (next_key : bool) : PCA (Z * option bytes) :=
  s ← get;
  index_next_key (pca_max_ent s) key next_key.

(** The program side, as the map handler calls it. *)
Definition pca_MapImpl : MapImpl per_cpu_array_map_impl := {|
  should_lock := false;
  elem_lookup := pca_elem_lookup;
  elem_update := pca_elem_update;
  elem_delete := pca_elem_delete;
  map_get_next_key := pca_map_get_next_key
|}.

End on_cpu.

Definition pca_elem_lookup_userspace (key : ptr) : PCA vptr :=
  match key with
  | None => fail_with ENOENT VNull
  | Some _ =>
      key_val ← deref_u32 key;
      s ← get;
      if pca_max_ent s <=? key_val then fail_with ENOENT VNull
      else mret (VBuf (pca_data_at s key_val 0))
  end.

Definition pca_elem_update_userspace (key value : ptr) (flags : Z) : PCA Z :=
  ok ← check_update_flags flags;
  if negb ok then mret (-1)
  else match key with
  | None => fail_with ENOENT (-1)
  | Some _ =>
      key_val ← deref_u32 key;
      s ← get;
      if (key_val <? pca_max_ent s) && (flags =? BPF_NOEXIST) then fail_with EEXIST (-1)
      else if pca_max_ent s <=? key_val then fail_with E2BIG (-1)
      else
        v ← deref (Z.to_nat (u32 (pca_ncpu s * pca_value_size s))) value;
        pca_copy (pca_data_at s key_val 0) v;;
        mret 0
  end.

Definition pca_elem_delete_userspace (key : ptr) : PCA Z := fail_with EINVAL (-1).

(** The userspace side. *)
Definition pca_MapImpl_userspace : MapImpl per_cpu_array_map_impl := {|
  should_lock := false;
  elem_lookup := pca_elem_lookup_userspace;
  elem_update := pca_elem_update_userspace;
  elem_delete := pca_elem_delete_userspace;
  map_get_next_key := pca_map_get_next_key
|}.

(** ** Lemmas *)

(** A map whose size fits in 32 bits. *)
Record pca_wf (s : per_cpu_array_map_impl) : Prop := {
  pca_wf_value : 0 < pca_value_size s;
  pca_wf_ncpu : 0 < pca_ncpu s < 2 ^ 31;
  pca_wf_max : 0 <= pca_max_ent s;
  pca_wf_u32 : pca_max_ent s * pca_ncpu s * pca_value_size s < 2 ^ 32;
  pca_wf_data : length (pca_data s) =
    Z.to_nat (pca_max_ent s * pca_ncpu s * pca_value_size s)
}.

(** The bytes of [n] CPUs of index [i], from CPU [c] on. *)
Definition pca_cells (s : per_cpu_array_map_impl) (i c n : Z) : option bytes :=
  read_range (Z.to_nat ((i * pca_ncpu s + c) * pca_value_size s))
    (Z.to_nat (n * pca_value_size s)) (pca_data s).

(** The value of index [i] on CPU [c], and the values of all CPUs. *)
Definition pca_slot (s : per_cpu_array_map_impl) (c i : Z) : option bytes := pca_cells s i c 1.
Definition pca_row (s : per_cpu_array_map_impl) (i : Z) : option bytes :=
  pca_cells s i 0 (pca_ncpu s).

Section pca_lemmas.
Variable s : per_cpu_array_map_impl.
Hypothesis Hwf : pca_wf s.

Lemma pca_bounds i c :
  0 <= i < pca_max_ent s -> 0 <= c < pca_ncpu s ->
  0 <= (i * pca_ncpu s + c) * pca_value_size s /\
  (i * pca_ncpu s + c + 1) * pca_value_size s <=
    pca_max_ent s * pca_ncpu s * pca_value_size s.
Proof. intros. destruct Hwf. split; [nia|]. apply Z.mul_le_mono_nonneg_r; nia. Qed.

Lemma pca_data_at_eq i c :
  0 <= i < pca_max_ent s -> 0 <= c < pca_ncpu s ->
  pca_data_at s i c = Z.to_nat ((i * pca_ncpu s + c) * pca_value_size s).
Proof.
  intros Hi Hc. pose proof (pca_bounds i c Hi Hc). destruct Hwf. unfold pca_data_at.
  rewrite wrap_small by nia. f_equal. lia.
Qed.

Lemma pca_cells_range i c n :
  0 <= i < pca_max_ent s -> 0 <= c -> 0 < n -> c + n <= pca_ncpu s ->
  (Z.to_nat ((i * pca_ncpu s + c) * pca_value_size s) + Z.to_nat (n * pca_value_size s) <=
   length (pca_data s))%nat.
Proof.
  intros Hi Hc Hn Hcn. pose proof (pca_bounds i (c + n - 1) Hi ltac:(lia)).
  pose proof (pca_bounds i c Hi ltac:(lia)). destruct Hwf as [? ? ? ? ->].
  rewrite <- Z2Nat.inj_add by nia. apply Z2Nat.inj_le; nia.
Qed.

(** Copying whole values changes the cells it covers and no others. *)
Lemma pca_copy_run i c n v e :
  0 <= i < pca_max_ent s -> 0 <= c -> 0 < n -> c + n <= pca_ncpu s ->
  length v = Z.to_nat (n * pca_value_size s) ->
  exists s', pca_copy (pca_data_at s i c) v s e = Ok tt s' e /\ pca_wf s' /\
    pca_ncpu s' = pca_ncpu s /\ pca_value_size s' = pca_value_size s /\
    pca_max_ent s' = pca_max_ent s /\ pca_cells s' i c n = Some v /\
    forall j d m, 0 <= j -> 0 <= d -> 0 < m -> d + m <= pca_ncpu s ->
      (j <> i \/ d + m <= c \/ c + n <= d) -> pca_cells s' j d m = pca_cells s j d m.
Proof.
  intros Hi Hc Hn Hcn Hv. pose proof (pca_cells_range i c n Hi Hc Hn Hcn) as Hr.
  rewrite <- Hv in Hr. apply write_range_is_Some in Hr as [b Hb].
  exists (pca_set_data b s). unfold pca_copy. mbase. rewrite pca_data_at_eq, Hb by lia.
  split; [done|]. pose proof (write_range_length _ _ _ _ Hb) as Hl.
  split; [destruct Hwf; split; simpl; congruence || done|]. do 3 (split; [done|]).
  split; [by apply (read_write_len _ _ _ _ _ Hb)|]. intros j d m Hj Hd Hm Hdm Hdis.
  unfold pca_cells. simpl. apply (read_write_disjoint _ _ _ _ _ _ Hb).
  rewrite Hv. destruct Hwf. rewrite <- !Z2Nat.inj_add by nia.
  assert (j * pca_ncpu s + d + m <= i * pca_ncpu s + c \/
          i * pca_ncpu s + c + n <= j * pca_ncpu s + d) as [H|H].
  { destruct (Z.lt_trichotomy j i) as [Hji|[->|Hji]]; [left|lia|right].
    - pose proof (Z.mul_le_mono_nonneg_r (j + 1) i (pca_ncpu s)). lia.
    - pose proof (Z.mul_le_mono_nonneg_r (i + 1) j (pca_ncpu s)). lia. }
  - left. apply Z2Nat.inj_le; nia.
  - right. apply Z2Nat.inj_le; nia.
Qed.

Lemma pca_cells_Some i c n :
  0 <= i < pca_max_ent s -> 0 <= c -> 0 < n -> c + n <= pca_ncpu s -> is_Some (pca_cells s i c n).
Proof. intros. unfold pca_cells. rewrite read_range_Some by (by apply pca_cells_range). eauto. Qed.

(** The value of a CPU is its chunk of the values of all CPUs. *)
Lemma pca_slot_of_row i c v :
  0 <= i -> 0 <= c < pca_ncpu s -> pca_row s i = Some v ->
  pca_slot s c i =
  Some (take (Z.to_nat (pca_value_size s)) (drop (Z.to_nat (c * pca_value_size s)) v)).
Proof.
  intros Hi Hc. unfold pca_row, pca_slot, pca_cells, read_range. case_decide as Hr; [|done].
  intros [= <-]. destruct Hwf. rewrite !Z2Nat.inj_mul in Hr by nia. rewrite decide_True.
  - f_equal. rewrite skipn_firstn_comm, drop_drop, firstn_firstn.
    f_equal; [rewrite <- !Z2Nat.inj_sub by nia|f_equal; rewrite <- Z2Nat.inj_add by nia; f_equal; lia].
    rewrite <- Z2Nat.inj_min by lia. f_equal. rewrite Z.min_l; nia.
  - rewrite <- !Z2Nat.inj_mul in Hr by nia. rewrite <- !Z2Nat.inj_add in * by nia.
    etrans; [|exact Hr]. apply Z2Nat.inj_le; nia.
Qed.

End pca_lemmas.

Lemma pca_new_wf vs me ncpu :
  0 < vs -> 0 <= me -> 0 < ncpu < 2 ^ 31 -> me * ncpu * vs < 2 ^ 32 -> pca_wf (pca_new vs me ncpu).
Proof.
  intros. split; simpl; rewrite ?s32_small by lia; try lia.
  rewrite length_zeros, wrap_small by nia. done.
Qed.

(** Both updates go through the same checks; [n] CPUs are written from [c] on. *)
Lemma pca_update_spec (upd : ptr -> ptr -> Z -> PCA Z) s c n i v flags e :
  pca_wf s -> 0 <= i < 2 ^ 32 -> 0 <= c -> 0 < n -> c + n <= pca_ncpu s ->
  length v = Z.to_nat (n * pca_value_size s) ->
  forall key value,
  upd key value flags s e =
    (if negb (is_good_update_flag flags) then Ok (-1) s EINVAL
     else if (i <? pca_max_ent s) && (flags =? BPF_NOEXIST) then Ok (-1) s EEXIST
     else if pca_max_ent s <=? i then Ok (-1) s E2BIG
     else match pca_copy (pca_data_at s i c) v s e with
          | Ok _ s' e' => Ok 0 s' e'
          | Throw w s' e' => Throw w s' e'
          | Ub w => Ub w
          end) ->
  let o := spec_array_update (pca_max_ent s) i v flags (fun j => pca_cells s j c n) in
  exists s', upd key value flags s e = Ok (spec_ret o) s' (spec_errno o e) /\ pca_wf s' /\
    pca_ncpu s' = pca_ncpu s /\ pca_value_size s' = pca_value_size s /\
    pca_max_ent s' = pca_max_ent s /\
    match o with
    | inl _ => s' = s
    | inr f => (forall j, 0 <= j -> pca_cells s' j c n = f j) /\
        forall j d m, 0 <= j -> 0 <= d -> 0 < m -> d + m <= pca_ncpu s ->
          (j <> i \/ d + m <= c \/ c + n <= d) -> pca_cells s' j d m = pca_cells s j d m
    end.
Proof.
  intros Hwf Hi Hc Hn Hcn Hl key value ->. cbv zeta. unfold spec_array_update.
  destruct (is_good_update_flag flags); cbn [negb]; [|by exists s].
  case_decide as Hm.
  - rewrite (proj2 (Z.ltb_lt _ _)), (proj2 (Z.leb_gt _ _)) by lia. cbn [andb].
    destruct (flags =? BPF_NOEXIST); [by exists s|].
    destruct (pca_copy_run s Hwf i c n v e ltac:(lia) Hc Hn Hcn Hl)
      as (s' & -> & Hwf' & Hnc & Hvs & Hme & Hcell & Hframe).
    exists s'. do 5 (split; [done|]). split; [|done]. intros j Hj. case_decide as Hji.
    + by subst.
    + apply Hframe; lia || auto.
  - rewrite (proj2 (Z.ltb_ge _ _)), (proj2 (Z.leb_le _ _)) by lia. by exists s.
Qed.

(** ** Theorems *)

(** Per-CPU array, program-side update on CPU [cpu]: the errors of the array
    map (EINVAL, EEXIST, E2BIG) leave the map alone; a successful update stores
    the value at this index for this CPU, and changes neither another index nor
    another CPU's value of the same index. *)
Theorem pca_update_isolated s cpu key value i v flags e :
  pca_wf s -> 0 <= cpu < pca_ncpu s -> points_to key (le_encode 4 i) -> 0 <= i < 2 ^ 32 ->
  points_to value v -> length v = Z.to_nat (pca_value_size s) ->
  let o := spec_array_update (pca_max_ent s) i v flags (pca_slot s cpu) in
  exists s', pca_elem_update cpu key value flags s e = Ok (spec_ret o) s' (spec_errno o e) /\
    pca_wf s' /\
    match o with
    | inl _ => s' = s
    | inr f => (forall j, 0 <= j -> pca_slot s' cpu j = f j) /\
        forall c j, 0 <= j -> 0 <= c < pca_ncpu s -> c <> cpu -> pca_slot s' c j = pca_slot s c j
    end.
Proof.
  intros Hwf Hc Hk Hi Hv Hl. cbv zeta.
  destruct (pca_update_spec (pca_elem_update cpu) s cpu 1 i v flags e Hwf Hi
    ltac:(lia) ltac:(lia) ltac:(lia) ltac:(by rewrite Z.mul_1_l) key value)
    as (s' & Hrun & Hwf' & _ & _ & _ & Ho).
  - unfold pca_elem_update. mbase. rewrite check_update_flags_run.
    destruct (is_good_update_flag flags); cbn [negb]; [|done]. pose proof Hk as [rest ->].
    rewrite (deref_u32_points_to _ i) by done. split_ifs; try done.
    by rewrite (deref_len _ _ v) by done.
  - exists s'. split; [exact Hrun|]. split; [done|].
    change (fun j => pca_cells s j cpu 1) with (pca_slot s cpu) in Ho.
    destruct (spec_array_update _ _ _ _ _); [done|]. destruct Ho as [H1 H2].
    split; [done|]. intros c j Hj Hcc Hne. apply H2; lia.
Qed.

(** Per-CPU array, userspace update: with the checks of the array map, it
    stores the values of all CPUs at the index; afterwards a program running on
    CPU [cpu] finds its own chunk of the value through [elem_lookup]. *)
Theorem pca_update_userspace_visible s cpu key value i v flags e :
  pca_wf s -> 0 <= cpu < pca_ncpu s -> points_to key (le_encode 4 i) -> 0 <= i < 2 ^ 32 ->
  points_to value v -> length v = Z.to_nat (pca_ncpu s * pca_value_size s) ->
  pca_ncpu s * pca_value_size s < 2 ^ 32 ->
  let o := spec_array_update (pca_max_ent s) i v flags (pca_row s) in
  exists s', pca_elem_update_userspace key value flags s e = Ok (spec_ret o) s' (spec_errno o e) /\
    pca_wf s' /\
    match o with
    | inl _ => s' = s
    | inr f => (forall j, 0 <= j -> pca_row s' j = f j) /\
        exists off, pca_elem_lookup cpu key s' e = Ok (VBuf off) s' e /\
          read_range off (Z.to_nat (pca_value_size s)) (pca_data s') =
          Some (take (Z.to_nat (pca_value_size s)) (drop (Z.to_nat (cpu * pca_value_size s)) v))
    end.
Proof.
  intros Hwf Hc Hk Hi Hv Hl Hw. cbv zeta. pose proof Hk as [rest Hkey].
  destruct (pca_update_spec pca_elem_update_userspace s 0 (pca_ncpu s) i v flags e Hwf Hi
    ltac:(lia) ltac:(lia) ltac:(lia) Hl key value) as (s' & Hrun & Hwf' & Hnc & Hvs & Hme & Ho).
  - unfold pca_elem_update_userspace. mbase. rewrite check_update_flags_run.
    destruct (is_good_update_flag flags); cbn [negb]; [|done]. rewrite Hkey in *.
    rewrite (deref_u32_points_to _ i) by done. split_ifs; try done.
    rewrite wrap_small by (destruct Hwf; nia). by rewrite (deref_len _ _ v) by done.
  - exists s'. split; [exact Hrun|]. split; [done|].
    change (fun j => pca_cells s j 0 (pca_ncpu s)) with (pca_row s) in Ho.
    destruct (spec_array_update _ _ _ _ _) as [|f] eqn:Hspec; [done|]. destruct Ho as [H1 _].
    assert (forall j, 0 <= j -> pca_row s' j = f j) as H1' by (unfold pca_row; by rewrite Hnc).
    split; [done|]. unfold spec_array_update in Hspec. destruct (negb _); [done|].
    destruct (decide (i < _)) as [Hm|]; [|done]. destruct (_ =? _); [done|].
    injection Hspec as <-. exists (pca_data_at s' i cpu). split.
    + unfold pca_elem_lookup. mbase. rewrite Hkey in *. rewrite (deref_u32_points_to _ i) by done.
      rewrite Hme, (proj2 (Z.leb_gt _ _)) by lia. done.
    + specialize (H1' i ltac:(lia)). cbv beta in H1'. rewrite decide_True in H1' by done.
      pose proof (pca_slot_of_row s' Hwf' i cpu v ltac:(lia) ltac:(lia) H1') as Hs.
      unfold pca_slot, pca_cells in Hs. rewrite Z.mul_1_l, Hvs in Hs.
      rewrite (pca_data_at_eq s' Hwf') by lia. by rewrite Hvs.
Qed.

(** Per-CPU array, lookup: null and ENOENT for a null key or an index past the
    end, from either side; otherwise the program's pointer addresses the value of
    its CPU and the userspace pointer the values of all CPUs. *)
Theorem pca_lookup_values s cpu i e :
  pca_wf s -> 0 <= cpu < pca_ncpu s -> 0 <= i < 2 ^ 32 ->
  pca_elem_lookup cpu None s e = Ok VNull s ENOENT /\
  pca_elem_lookup_userspace None s e = Ok VNull s ENOENT /\
  if decide (i < pca_max_ent s) then
    exists p q v row,
      pca_elem_lookup cpu (Some (le_encode 4 i)) s e = Ok (VBuf p) s e /\
      read_range p (Z.to_nat (pca_value_size s)) (pca_data s) = Some v /\ pca_slot s cpu i = Some v /\
      pca_elem_lookup_userspace (Some (le_encode 4 i)) s e = Ok (VBuf q) s e /\
      read_range q (Z.to_nat (pca_ncpu s * pca_value_size s)) (pca_data s) = Some row /\
      pca_row s i = Some row
  else pca_elem_lookup cpu (Some (le_encode 4 i)) s e = Ok VNull s ENOENT /\
       pca_elem_lookup_userspace (Some (le_encode 4 i)) s e = Ok VNull s ENOENT.
Proof.
  intros Hwf Hc Hi. do 2 (split; [done|]). unfold pca_elem_lookup, pca_elem_lookup_userspace.
  mbase. rewrite !(deref_u32_points_to _ i) by auto with bpf. case_decide as Hm.
  - rewrite (proj2 (Z.leb_gt _ _)) by lia.
    destruct (pca_cells_Some s Hwf i cpu 1) as [v Hv]; [lia..|].
    destruct (pca_cells_Some s Hwf i 0 (pca_ncpu s)) as [row Hrow]; [lia..|].
    exists (pca_data_at s i cpu), (pca_data_at s i 0), v, row.
    rewrite !pca_data_at_eq by (done || lia). unfold pca_slot, pca_row.
    do 3 (split; [done || (unfold pca_cells in Hv; by rewrite Z.mul_1_l in Hv)|]). done.
  - by rewrite (proj2 (Z.leb_le _ _)) by lia.
Qed.

(** The constructor computes the buffer size in 32 bits while [data_at] works
    in 64 bits: a map of 65536 values of 65536 bytes gets an empty buffer, and an
    update of any of its indexes writes outside it. *)
Theorem pca_size_overflow i v e :
  0 <= i < 65536 -> length v = Z.to_nat 65536 ->
  pca_elem_update 0 (Some (le_encode 4 i)) (Some v) BPF_ANY (pca_new 65536 65536 1) e =
  Ub "copy outside data".
Proof.
  intros Hi Hl. unfold pca_elem_update. mbase. cbn [negb].
  change (check_update_flags BPF_ANY ?s ?e) with (@Ok per_cpu_array_map_impl bool true s e).
  cbv beta iota. cbn [negb]. rewrite (deref_u32_points_to _ i) by (auto with bpf; lia).
  change (pca_max_ent (pca_new 65536 65536 1)) with 65536.
  rewrite (proj2 (Z.leb_gt _ _)) by lia. rewrite andb_false_r.
  change (pca_value_size (pca_new 65536 65536 1)) with 65536.
  rewrite (deref_len _ _ v) by auto with bpf. unfold pca_copy. mbase.
  change (pca_data (pca_new 65536 65536 1)) with (@nil Z).
  unfold write_range. rewrite decide_False; [done|]. simpl. lia.
Qed.

(** *** Witnesses *)

Lemma small_pca_wf : pca_wf (pca_new 2 3 2).
Proof. apply pca_new_wf; lia. Qed.

Lemma pca_update_isolated_witness :
  let s := pca_new 2 3 2 in
  let o := spec_array_update 3 2 [8; 9] BPF_ANY (pca_slot s 1) in
  exists s', pca_elem_update 1 (Some (le_encode 4 2)) (Some [8; 9]) BPF_ANY s 0 =
      Ok (spec_ret o) s' (spec_errno o 0) /\ pca_wf s' /\ 
    match o with
    | inl _ => s' = s
    | inr f => (forall j, 0 <= j -> pca_slot s' 1 j = f j) /\
        forall c j, 0 <= j -> 0 <= c < 2 -> c <> 1 -> pca_slot s' c j = pca_slot s c j
    end.
Proof.
  refine (pca_update_isolated (pca_new 2 3 2) 1 (Some (le_encode 4 2)) (Some [8; 9]) 2 [8; 9]
    BPF_ANY 0 small_pca_wf _ (points_to_self _) _ (points_to_self _) eq_refl); split_and?; vm_compute; done.
Defined.

Lemma pca_update_userspace_visible_witness :
  let s := pca_new 2 3 2 in
  let o := spec_array_update 3 1 [5; 6; 7; 8] BPF_EXIST (pca_row s) in
  exists s', pca_elem_update_userspace (Some (le_encode 4 1)) (Some [5; 6; 7; 8]) BPF_EXIST s 0 =
      Ok (spec_ret o) s' (spec_errno o 0) /\ pca_wf s' /\
    match o with
    | inl _ => s' = s
    | inr f => (forall j, 0 <= j -> pca_row s' j = f j) /\
        exists off, pca_elem_lookup 1 (Some (le_encode 4 1)) s' 0 = Ok (VBuf off) s' 0 /\
          read_range off 2 (pca_data s') = Some [7; 8]
    end.
Proof.
  refine (pca_update_userspace_visible (pca_new 2 3 2) 1 (Some (le_encode 4 1))
    (Some [5; 6; 7; 8]) 1 [5; 6; 7; 8] BPF_EXIST 0
    small_pca_wf _ (points_to_self _) _ (points_to_self _) eq_refl _); split_and?; vm_compute; done.
Defined.

Lemma pca_lookup_values_witness :
  let s := pca_new 2 3 2 in
  pca_elem_lookup 1 None s 0 = Ok VNull s ENOENT /\
  pca_elem_lookup_userspace None s 0 = Ok VNull s ENOENT /\
  pca_elem_lookup 1 (Some (le_encode 4 3)) s 0 = Ok VNull s ENOENT /\
  pca_elem_lookup_userspace (Some (le_encode 4 3)) s 0 = Ok VNull s ENOENT.
Proof. refine (pca_lookup_values (pca_new 2 3 2) 1 3 0 small_pca_wf _ _); split_and?; vm_compute; done. Defined.

Lemma pca_size_overflow_witness :
  pca_elem_update 0 (Some (le_encode 4 7)) (Some (zeros (Z.to_nat 65536))) BPF_ANY
    (pca_new 65536 65536 1) 0 = Ub "copy outside data".
Proof. refine (pca_size_overflow 7 (zeros (Z.to_nat 65536)) 0 _ (length_zeros _)). lia. Defined.
