(* ===== verification/VarHash.v ===== *)
(** [var_size_hash_map_impl] (bpf_map/userspace/var_hash_map.{hpp,cpp}): a hash map
    on boost::unordered_map with the flags of the map itself. *)
From Stdlib Require Import ZArith Lia.
From stdpp Require Import base list gmap strings.
From S2P Require Import Prelude MapCommon.
Local Open Scope Z_scope.

Record var_size_hash_map_impl := mk_var_hash {
  vh_map_impl : list (bytes * bytes);
  vh_key_size : nat;
  vh_value_size : nat;
  vh_max_entries : Z;
  vh_flags : Z;
  vh_key_vec : bytes;
  vh_value_vec : bytes
}.

Abbreviation VH := (M var_size_hash_map_impl).

Definition vh_set_map (l : list (bytes * bytes)) (s : var_size_hash_map_impl) :=
  mk_var_hash l (vh_key_size s) (vh_value_size s) (vh_max_entries s) (vh_flags s)
    (vh_key_vec s) (vh_value_vec s).

Definition vh_set_key_vec (k : bytes) (s : var_size_hash_map_impl) :=
  mk_var_hash (vh_map_impl s) (vh_key_size s) (vh_value_size s) (vh_max_entries s) (vh_flags s)
    k (vh_value_vec s).

Definition vh_set_value_vec (v : bytes) (s : var_size_hash_map_impl) :=
  mk_var_hash (vh_map_impl s) (vh_key_size s) (vh_value_size s) (vh_max_entries s) (vh_flags s)
    (vh_key_vec s) v.

Definition var_hash_new (key_size value_size max_entries flags : Z) : var_size_hash_map_impl :=
  mk_var_hash [] (Z.to_nat (u32 key_size)) (Z.to_nat (u32 value_size)) (u32 max_entries) (u32 flags)
    (zeros (Z.to_nat (u32 key_size))) (zeros (Z.to_nat (u32 value_size))).

(** [flags & f] as a condition. *)
Definition vh_has_flag (f : Z) (s : var_size_hash_map_impl) : bool :=
  negb (Z.land (vh_flags s) f =? 0).

(** [key_vec.assign(key, key + _key_size)], and the same for the value. *)
Definition vh_assign_key (key : ptr) : VH bytes :=
  s ← get;
  k ← deref (vh_key_size s) key;
  modify (vh_set_key_vec k);;
  mret k.

Definition vh_assign_value (value : ptr) : VH bytes :=
  s ← get;
  v ← deref (vh_value_size s) value;
  modify (vh_set_value_vec v);;
  mret v.

Definition var_elem_lookup (key : ptr) : VH vptr :=
  s ← get;
  if vh_has_flag BPF_F_WRONLY s then fail_with EPERM VNull
  else
    key_vec ← vh_assign_key key;
    match um_find key_vec (vh_map_impl s) with
    | Some _ => mret (VNode key_vec 0)
    | None => fail_with ENOENT VNull
    end.

Section update.
Context `{UnorderedMap}.

Definition var_elem_update (key value : ptr) (flags : Z) : VH Z :=
  if negb (is_good_update_flag flags) then fail_with EINVAL (-1)
  else
    key_vec ← vh_assign_key key;
    value_vec ← vh_assign_value value;
    s ← get;
    let element_exists := bool_decide (is_Some (um_find key_vec (vh_map_impl s))) in
    if (flags =? BPF_NOEXIST) && element_exists then fail_with EEXIST (-1)
    else if (flags =? BPF_EXIST) && negb element_exists then fail_with ENOENT (-1)
    else if negb element_exists && (Z.of_nat (length (vh_map_impl s)) =? vh_max_entries s)
    then fail_with E2BIG (-1)
    else if negb element_exists && vh_has_flag BPF_F_RDONLY s then fail_with EPERM (-1)
    else
      put (vh_set_map (um_insert_or_assign key_vec value_vec (vh_map_impl s)) s);;
      mret 0.

End update.

Definition var_elem_delete (key : ptr) : VH Z :=
  key_vec ← vh_assign_key key;
  s ← get;
  match um_find key_vec (vh_map_impl s) with
  | None => fail_with ENOENT (-1)
  | Some _ => put (vh_set_map (um_erase key_vec (vh_map_impl s)) s);; mret 0
  end.

(** [lookup_and_delete(key, value_out)]: the code and the bytes copied out. *)
Definition var_lookup_and_delete (key : ptr) : VH (Z * option bytes) :=
  key_vec ← vh_assign_key key;
  s ← get;
  match um_find key_vec (vh_map_impl s) with
  | None => fail_with ENOENT (-1, None)
  | Some v =>
      out ← need "memcpy past the value" (read_range 0 (vh_value_size s) v);
      put (vh_set_map (um_erase key_vec (vh_map_impl s)) s);;
      mret (0, Some out)
  end.

Definition var_map_get_next_key (key : ptr) (next_key : bool) : VH (Z * option bytes) :=
  s ← get;
  if vh_has_flag BPF_F_WRONLY s then fail_with EPERM (-1, None)
  else match key with
       | None => um_first_key (vh_map_impl s) next_key
       | Some _ =>
           key_vec ← vh_assign_key key;
           um_key_after key_vec (vh_map_impl s) next_key
       end.

#[export] Instance var_hash_MapImpl `{UnorderedMap} : MapImpl var_size_hash_map_impl := {
  should_lock := true;
  elem_lookup := var_elem_lookup;
  elem_update := var_elem_update;
  elem_delete := var_elem_delete;
  map_get_next_key := var_map_get_next_key
}.

(** ** Lemmas *)

(** The contents of the container; keys and values have the declared sizes. *)
Record vh_rel (s : var_size_hash_map_impl) (g : gmap bytes bytes) : Prop := {
  vh_rel_wf : um_wf (vh_map_impl s);
  vh_rel_abs : um_abs (vh_map_impl s) = g;
  vh_rel_len : forall k v, g !! k = Some v ->
    length k = vh_key_size s /\ length v = vh_value_size s
}.

(** Two states with the same parameters: [key_size], [value_size], .. *)
Definition vh_same (s s' : var_size_hash_map_impl) : Prop :=
  vh_key_size s' = vh_key_size s /\ vh_value_size s' = vh_value_size s /\
  vh_max_entries s' = vh_max_entries s /\ vh_flags s' = vh_flags s.

Lemma vh_assign_key_run key k s e :
  points_to key k -> length k = vh_key_size s ->
  vh_assign_key key s e = Ok k (vh_set_key_vec k s) e.
Proof. intros. unfold vh_assign_key. mbase. by rewrite (deref_len _ _ k) by done. Qed.

Lemma vh_assign_value_run value v s e :
  points_to value v -> length v = vh_value_size s ->
  vh_assign_value value s e = Ok v (vh_set_value_vec v s) e.
Proof. intros. unfold vh_assign_value. mbase. by rewrite (deref_len _ _ v) by done. Qed.

Lemma vh_rel_key_vec s g k : vh_rel s g -> vh_rel (vh_set_key_vec k s) g.
Proof. intros [???]. by split. Qed.

Lemma vh_rel_value_vec s g v : vh_rel s g -> vh_rel (vh_set_value_vec v s) g.
Proof. intros [???]. by split. Qed.

Lemma vh_rel_erase s g k :
  vh_rel s g -> vh_rel (vh_set_map (um_erase k (vh_map_impl s)) s) (delete k g).
Proof.
  intros [Hwf Ha Hl]. split; simpl; auto with bpf.
  - by rewrite um_erase_abs, Ha.
  - intros k' v' Hk'. apply lookup_delete_Some in Hk' as [_ Hk']. by apply Hl.
Qed.

Lemma vh_rel_insert `{UnorderedMap} s g k v :
  vh_rel s g -> length k = vh_key_size s -> length v = vh_value_size s ->
  vh_rel (vh_set_map (um_insert_or_assign k v (vh_map_impl s)) s) (<[k := v]> g).
Proof.
  intros [Hwf Ha Hl] Hk Hv. split; simpl; auto with bpf.
  - by rewrite um_insert_or_assign_abs, Ha.
  - intros k' v' Hk'. apply lookup_insert_Some in Hk' as [[<- <-]|[_ Hk']]; [done|by apply Hl].
Qed.

Lemma vh_rel_find s g k : vh_rel s g -> um_find k (vh_map_impl s) = g !! k.
Proof. intros [_ <- _]. apply um_find_abs. Qed.

Lemma vh_rel_size s g : vh_rel s g -> length (vh_map_impl s) = size g.
Proof. intros [Hwf <- _]. by rewrite um_size. Qed.

#[export] Hint Resolve vh_rel_key_vec vh_rel_value_vec : bpf.

(** ** Theorems *)

(** The contract of an update of a map created with [map_flags]: a read-only map
    refuses new keys with EPERM after every other check has passed. *)
Definition spec_var_update (map_flags max : Z) (k v : bytes) (flags : Z) (g : gmap bytes bytes)
    : Z + gmap bytes bytes :=
  match spec_update max k v flags g with
  | inr g' =>
      if bool_decide (g !! k = None) && negb (Z.land map_flags BPF_F_RDONLY =? 0)
      then inl EPERM else inr g'
  | inl err => inl err
  end.

(** Variable-size hash map, update: it follows the contract of linux/bpf.h for
    the flags (EINVAL, EEXIST, ENOENT), the limit (E2BIG) and a read-only map
    (EPERM); on an error the contents do not change. *)
Theorem var_hash_update_refines `{UnorderedMap} s g key value k v flags e :
  vh_rel s g -> points_to key k -> points_to value v ->
  length k = vh_key_size s -> length v = vh_value_size s ->
  let o := spec_var_update (vh_flags s) (vh_max_entries s) k v flags g in
  exists s', var_elem_update key value flags s e = Ok (spec_ret o) s' (spec_errno o e) /\
    vh_same s s' /\ vh_rel s' (match o with inl _ => g | inr g' => g' end).
Proof.
  intros Hr Hk Hv Lk Lv. cbv zeta. unfold spec_var_update, spec_update, var_elem_update.
  destruct (is_good_update_flag flags); cbn [negb]; [|by exists s].
  mbase. rewrite (vh_assign_key_run _ k) by done. rewrite (vh_assign_value_run _ v) by done.
  set (s1 := vh_set_value_vec v (vh_set_key_vec k s)).
  assert (vh_rel s1 g) as Hr1 by (subst s1; auto with bpf).
  rewrite (vh_rel_find s1 g k Hr1), (vh_rel_size s1 g Hr1).
  assert (vh_same s s1) as Hs1 by done.
  change (vh_max_entries s1) with (vh_max_entries s).
  change (vh_has_flag BPF_F_RDONLY s1) with (negb (Z.land (vh_flags s) BPF_F_RDONLY =? 0)).
  assert (vh_rel (vh_set_map (um_insert_or_assign k v (vh_map_impl s1)) s1) (<[k:=v]> g))
    as Hins by (by apply vh_rel_insert).
  destruct (g !! k) as [v0|] eqn:Hg; cbn [negb andb].
  - rewrite bool_decide_true, (bool_decide_false (Some v0 = None)) by (done || eauto).
    rewrite andb_true_r, andb_false_r. cbn [negb andb].
    destruct (flags =? BPF_NOEXIST); [by exists s1|]. eauto.
  - rewrite bool_decide_false, (bool_decide_true (None = None)) by (done || by intros [? [=]]).
    rewrite andb_false_r, andb_true_r. cbn [negb andb].
    destruct (flags =? BPF_EXIST); [by exists s1|].
    destruct (_ =? vh_max_entries s); [by exists s1|].
    destruct (negb _); [by exists s1|eauto].
Qed.

(** Variable-size hash map, lookup and delete: a lookup finds exactly the
    stored keys (EPERM on a write-only map); delete and lookup_and_delete remove
    a stored key (the latter copies its value out) and fail with ENOENT, changing
    nothing, on any other. *)
Theorem var_hash_lookup_delete_refine s g key k e :
  vh_rel s g -> points_to key k -> length k = vh_key_size s ->
  (exists s1, vh_same s s1 /\ vh_rel s1 g /\
     var_elem_lookup key s e =
     if vh_has_flag BPF_F_WRONLY s then Ok VNull s1 EPERM
     else if decide (is_Some (g !! k)) then Ok (VNode k 0) s1 e else Ok VNull s1 ENOENT) /\
  (exists s2, vh_same s s2 /\ vh_rel s2 (delete k g) /\
     var_elem_delete key s e = if decide (is_Some (g !! k)) then Ok 0 s2 e else Ok (-1) s2 ENOENT) /\
  (exists s3, vh_same s s3 /\ vh_rel s3 (delete k g) /\
     var_lookup_and_delete key s e =
     match g !! k with Some v => Ok (0, Some v) s3 e | None => Ok (-1, None) s3 ENOENT end).
Proof.
  intros Hr Hk Lk. pose proof (vh_rel_key_vec s g k Hr) as Hr1.
  unfold var_elem_lookup, var_elem_delete, var_lookup_and_delete. mbase.
  rewrite (vh_assign_key_run _ k) by done.
  rewrite !(vh_rel_find _ g k Hr1). split; [|split].
  - destruct (vh_has_flag _ _); [by exists s|]. exists (vh_set_key_vec k s).
    split; [done|]. split; [done|].
    rewrite (vh_assign_key_run _ k), (vh_rel_find _ g k Hr) by done. destruct (g !! k).
    + by rewrite decide_True by eauto.
    + by rewrite decide_False by (by intros [? [=]]).
  - destruct (g !! k) as [v|] eqn:Hg.
    + eexists. rewrite decide_True by eauto. split; [|split; [apply vh_rel_erase, Hr1|]]; done.
    + eexists. rewrite decide_False by (by intros [? [=]]). split; [|split; [|done]]; [done|].
      by rewrite delete_id.
  - destruct (g !! k) as [v|] eqn:Hg.
    + destruct (vh_rel_len _ _ Hr1 k v Hg) as [_ Lv].
      eexists. rewrite read_range_Some by (simpl in *; lia).
      rewrite drop_0, take_ge by (simpl in *; lia). split; [|split; [apply vh_rel_erase, Hr1|]]; done.
    + eexists. split; [|split; [|done]]; [done|]. by rewrite delete_id.
Qed.

(** Variable-size hash map, iteration: from a null key, [map_get_next_key]
    lists every stored key exactly once and then fails with ENOENT. *)
Theorem var_hash_iteration `{UnorderedMap} s g e :
  vh_rel s g -> vh_has_flag BPF_F_WRONLY s = false ->
  exists ks s', iterate_keys (S (size g)) None s e = Ok ks s' ENOENT /\
    vh_rel s' g /\ NoDup ks /\ forall k, k ∈ ks <-> is_Some (g !! k).
Proof.
  intros Hr Hw. pose proof (vh_rel_wf s g Hr) as Hwf. set (l := vh_map_impl s) in *.
  destruct (um_iterate (S := var_size_hash_map_impl) l
    (fun s' => vh_rel s' g /\ vh_same s s' /\ vh_map_impl s' = l) Hwf) with (s := s) (e := e)
    as (s' & (Hr' & _ & _) & Hit); [| |done|].
  - intros s1 e1 (Hr1 & (Hks & Hvs & Hme & Hf) & Hl). exists s1. split; [done|].
    cbn [map_get_next_key var_hash_MapImpl]. unfold var_map_get_next_key. mbase.
    unfold vh_has_flag in *. by rewrite Hf, Hw, Hl.
  - intros s1 e1 k (Hr1 & Hs1 & Hl) Hk. exists (vh_set_key_vec k s1).
    split; [split; [auto with bpf|done]|].
    cbn [map_get_next_key var_hash_MapImpl]. unfold var_map_get_next_key. mbase.
    destruct (Hs1) as (Hks & _ & _ & Hf). unfold vh_has_flag in *. rewrite Hf, Hw.
    apply list_elem_of_fmap in Hk as ([k0 v] & -> & Hin).
    apply um_elem_find in Hin; [|done]. rewrite (vh_rel_find s g _ Hr) in Hin.
    destruct (vh_rel_len _ _ Hr _ _ Hin) as [Lk _].
    rewrite (vh_assign_key_run _ k0) by (auto with bpf; simpl; congruence). by rewrite Hl.
  - exists l.*1, s'. rewrite <- (vh_rel_size s g Hr). split; [done|]. split; [done|].
    split; [done|]. intros k. rewrite <- (vh_rel_find s g k Hr).
    rewrite <- not_eq_None_Some, um_find_None. fold l.
    destruct (decide (k ∈ l.*1)); tauto.
Qed.

(** *** Witnesses *)

Definition small_var_hash : var_size_hash_map_impl := mk_var_hash [([1], [7])] 1 1 2 0 [0] [0].

Lemma small_var_hash_rel : vh_rel small_var_hash {[ [1] := [7] ]}.
Proof.
  split; simpl; [by apply NoDup_singleton|by vm_compute|].
  intros k v Hk. apply lookup_singleton_Some in Hk as [<- <-]. done.
Qed.

Lemma var_hash_update_refines_witness :
  let o := spec_var_update 0 2 [2] [8] BPF_NOEXIST {[ [1] := [7] ]} in
  exists s', @var_elem_update um_append (Some [2]) (Some [8]) BPF_NOEXIST small_var_hash 0 =
      Ok (spec_ret o) s' (spec_errno o 0) /\
    vh_same small_var_hash s' /\
    vh_rel s' (match o with inl _ => {[ [1] := [7] ]} | inr g' => g' end).
Proof.
  exact (@var_hash_update_refines um_append small_var_hash {[ [1] := [7] ]} (Some [2]) (Some [8])
    [2] [8] BPF_NOEXIST 0 small_var_hash_rel (points_to_self _) (points_to_self _) eq_refl eq_refl).
Defined.

Lemma var_hash_lookup_delete_refine_witness :
  (exists s1, vh_same small_var_hash s1 /\ vh_rel s1 {[ [1] := [7] ]} /\
     var_elem_lookup (Some [1]) small_var_hash 0 = Ok (VNode [1] 0) s1 0) /\
  (exists s2, vh_same small_var_hash s2 /\ vh_rel s2 (delete [1] {[ [1] := [7] ]}) /\
     var_elem_delete (Some [1]) small_var_hash 0 = Ok 0 s2 0) /\
  (exists s3, vh_same small_var_hash s3 /\ vh_rel s3 (delete [1] {[ [1] := [7] ]}) /\
     var_lookup_and_delete (Some [1]) small_var_hash 0 = Ok (0, Some [7]) s3 0).
Proof.
  exact (var_hash_lookup_delete_refine small_var_hash {[ [1] := [7] ]} (Some [1]) [1] 0
    small_var_hash_rel (points_to_self _) eq_refl).
Defined.

Lemma var_hash_iteration_witness :
  exists ks s', @iterate_keys _ (@var_hash_MapImpl um_append) 2 None small_var_hash 0 =
      Ok ks s' ENOENT /\
    vh_rel s' {[ [1] := [7] ]} /\ NoDup ks /\
    forall k, k ∈ ks <-> is_Some (({[ [1] := [7] ]} : gmap bytes bytes) !! k).
Proof.
  exact (@var_hash_iteration um_append small_var_hash {[ [1] := [7] ]} 0 small_var_hash_rel eq_refl).
Defined.
