(* ===== verification/PerCpuHash.v ===== *)
(** [per_cpu_hash_map_impl] (bpf_map/userspace/per_cpu_hash_map.{hpp,cpp}): a
    boost::unordered_map from keys to the concatenated values of all CPUs. The
    program-side operations work on the CPU they run on ([my_sched_getcpu()], the
    argument [cpu]), the userspace side on the values of all CPUs. *)
From Stdlib Require Import ZArith Lia.
From stdpp Require Import base list gmap strings.
From S2P Require Import Prelude MapCommon.
Local Open Scope Z_scope.
#[local] Arguments Nat.mul : simpl never.

Record per_cpu_hash_map_impl := mk_pch {
  pch_impl : list (bytes * bytes);
  pch_key_size : Z;
  pch_value_size : Z;
  pch_ncpu : Z;
  pch_max_entries : Z;
  pch_value_template : bytes;
  pch_key_templates : list bytes;
  pch_single_value_templates : list bytes
}.

Abbreviation PCH := (M per_cpu_hash_map_impl).

Definition pch_set_impl (l : list (bytes * bytes)) (s : per_cpu_hash_map_impl) :=
  mk_pch l (pch_key_size s) (pch_value_size s) (pch_ncpu s) (pch_max_entries s)
    (pch_value_template s) (pch_key_templates s) (pch_single_value_templates s).

Definition pch_set_keys (ks : list bytes) (s : per_cpu_hash_map_impl) :=
  mk_pch (pch_impl s) (pch_key_size s) (pch_value_size s) (pch_ncpu s) (pch_max_entries s)
    (pch_value_template s) ks (pch_single_value_templates s).

Definition pch_set_values (vs : list bytes) (s : per_cpu_hash_map_impl) :=
  mk_pch (pch_impl s) (pch_key_size s) (pch_value_size s) (pch_ncpu s) (pch_max_entries s)
    (pch_value_template s) (pch_key_templates s) vs.

Definition pch_new (key_size value_size max_entries ncpu : Z) : per_cpu_hash_map_impl :=
  mk_pch [] key_size value_size ncpu max_entries
    (zeros (Z.to_nat (u32 (value_size * ncpu))))
    (replicate (Z.to_nat ncpu) (zeros (Z.to_nat key_size)))
    (replicate (Z.to_nat ncpu) (zeros (Z.to_nat value_size))).

(** [key_templates[cpu].assign(key, key + key_size)] *)
Definition pch_assign_key (cpu : Z) (key : ptr) : PCH bytes :=
  s ← get;
  if decide (0 <= cpu < Z.of_nat (length (pch_key_templates s))) then
    k ← deref (Z.to_nat (pch_key_size s)) key;
    modify (pch_set_keys (<[Z.to_nat cpu := k]> (pch_key_templates s)));;
    mret k
  else ub "index outside key_templates".

(** [single_value_templates[cpu].assign(value, value + value_size)] *)
Definition pch_assign_single_value (cpu : Z) (value : ptr) : PCH bytes :=
  s ← get;
  if decide (0 <= cpu < Z.of_nat (length (pch_single_value_templates s))) then
    v ← deref (Z.to_nat (pch_value_size s)) value;
    modify (pch_set_values (<[Z.to_nat cpu := v]> (pch_single_value_templates s)));;
    mret v
  else ub "index outside single_value_templates".

(** [cpu * value_size], an [int] times a [uint32_t]. *)
Definition pch_offset (s : per_cpu_hash_map_impl) (cpu : Z) : nat :=
  Z.to_nat (u32 (cpu * pch_value_size s)).

Section on_cpu.
Context `{UnorderedMap}.
Variable cpu : Z.

Definition pch_elem_lookup (key : ptr) : PCH vptr :=
  match key with
  | None => fail_with ENOENT VNull
  | Some _ =>
      key_vec ← pch_assign_key cpu key;
      s ← get;
      match um_find key_vec (pch_impl s) with
      | Some v =>
          if decide (pch_offset s cpu < length v)%nat then mret (VNode key_vec (pch_offset s cpu))
          else ub "index outside the value"
      | None => fail_with ENOENT VNull
      end
  end.

Definition pch_elem_update (key value : ptr) (flags : Z) : PCH Z :=
  ok ← check_update_flags flags;
  if negb ok then mret (-1)
  else
    key_vec ← pch_assign_key cpu key;
    value_vec ← pch_assign_single_value cpu value;
    s ← get;
    match um_find key_vec (pch_impl s) with
    | Some old =>
        new ← need "copy outside the value" (write_range (pch_offset s cpu) value_vec old);
        put (pch_set_impl (um_assign key_vec new (pch_impl s)) s);;
        mret 0
    | None =>
        full ← need "copy outside the value"
          (write_range (pch_offset s cpu) value_vec (pch_value_template s));
        put (pch_set_impl (um_place key_vec full (pch_impl s)) s);;
        mret 0
    end.

(** The delete of the program side fills the bytes before its own CPU's value. *)
Definition pch_elem_delete (key : ptr) : PCH Z :=
  key_vec ← pch_assign_key cpu key;
  s ← get;
  match um_find key_vec (pch_impl s) with
  | Some old =>
      new ← need "fill outside the value" (write_range 0 (zeros (pch_offset s cpu)) old);
      put (pch_set_impl (um_assign key_vec new (pch_impl s)) s);;
      mret 0
  | None => mret 0
  end.

Definition pch_map_get_next_key (key : ptr) (next_key : bool) : PCH (Z * option bytes) :=
  s ← get;
  match key with
  | None => um_first_key (pch_impl s) next_key
  | Some _ =>
      key_vec ← pch_assign_key 0 key;
      um_key_after key_vec (pch_impl s) next_key
  end.

Definition pch_MapImpl : MapImpl per_cpu_hash_map_impl := {|
  should_lock := false;
  elem_lookup := pch_elem_lookup;
  elem_update := pch_elem_update;
  elem_delete := pch_elem_delete;
  map_get_next_key := pch_map_get_next_key
|}.

Definition pch_elem_lookup_userspace (key : ptr) : PCH vptr :=
  match key with
  | None => fail_with ENOENT VNull
  | Some _ =>
      key_vec ← pch_assign_key 0 key;
      s ← get;
      match um_find key_vec (pch_impl s) with
      | Some v => if decide (0 < length v)%nat then mret (VNode key_vec 0)
                  else ub "index outside the value"
      | None => fail_with ENOENT VNull
      end
  end.

Definition pch_elem_update_userspace (key value : ptr) (flags : Z) : PCH Z :=
  ok ← check_update_flags flags;
  if negb ok then mret (-1)
  else
    key_vec ← pch_assign_key 0 key;
    s ← get;
    value_vec ← deref (Z.to_nat (u32 (pch_value_size s * pch_ncpu s))) value;
    let elem_exists := bool_decide (is_Some (um_find key_vec (pch_impl s))) in
    if (flags =? BPF_NOEXIST) && elem_exists then fail_with EEXIST (-1)
    else if (flags =? BPF_EXIST) && negb elem_exists then fail_with ENOENT (-1)
    else if negb elem_exists && (Z.of_nat (length (pch_impl s)) =? pch_max_entries s)
    then fail_with E2BIG (-1)
    else
      put (pch_set_impl (um_insert_or_assign key_vec value_vec (pch_impl s)) s);;
      mret 0.

Definition pch_elem_delete_userspace (key : ptr) : PCH Z :=
  key_vec ← pch_assign_key 0 key;
  s ← get;
  match um_find key_vec (pch_impl s) with
  | None => fail_with ENOENT (-1)
  | Some _ => put (pch_set_impl (um_erase key_vec (pch_impl s)) s);; mret 0
  end.

(** [lookup_and_delete_userspace(key, value)]: the code and the bytes copied out. *)
Definition pch_lookup_and_delete_userspace (key : ptr) : PCH (Z * option bytes) :=
  key_vec ← pch_assign_key 0 key;
  s ← get;
  match um_find key_vec (pch_impl s) with
  | None => fail_with ENOENT (-1, None)
  | Some v =>
      out ← need "memcpy past the value"
        (read_range 0 (Z.to_nat (u32 (pch_ncpu s * pch_value_size s))) v);
      put (pch_set_impl (um_erase key_vec (pch_impl s)) s);;
      mret (0, Some out)
  end.

Definition pch_MapImpl_userspace : MapImpl per_cpu_hash_map_impl := {|
  should_lock := false;
  elem_lookup := pch_elem_lookup_userspace;
  elem_update := pch_elem_update_userspace;
  elem_delete := pch_elem_delete_userspace;
  map_get_next_key := pch_map_get_next_key
|}.

End on_cpu.

(** ** Lemmas *)

(** The size of a stored value, and the value of one CPU in it. *)
Definition pch_row_size (s : per_cpu_hash_map_impl) : nat := Z.to_nat (pch_ncpu s * pch_value_size s).
Definition pch_slot (s : per_cpu_hash_map_impl) (cpu : Z) (row : bytes) : option bytes :=
  read_range (Z.to_nat (cpu * pch_value_size s)) (Z.to_nat (pch_value_size s)) row.

(** The map holds [g]; its sizes fit in 32 bits. *)
Record pch_rel (s : per_cpu_hash_map_impl) (g : gmap bytes bytes) : Prop := {
  pch_rel_value : 0 < pch_value_size s;
  pch_rel_ncpu : 0 < pch_ncpu s;
  pch_rel_u32 : pch_ncpu s * pch_value_size s < 2 ^ 32;
  pch_rel_keys : Z.of_nat (length (pch_key_templates s)) = pch_ncpu s;
  pch_rel_values : Z.of_nat (length (pch_single_value_templates s)) = pch_ncpu s;
  pch_rel_template : pch_value_template s = zeros (pch_row_size s);
  pch_rel_wf : um_wf (pch_impl s);
  pch_rel_abs : um_abs (pch_impl s) = g;
  pch_rel_len : forall k v, g !! k = Some v ->
    length k = Z.to_nat (pch_key_size s) /\ length v = pch_row_size s
}.

(** Two states with the same parameters. *)
Definition pch_same (s s' : per_cpu_hash_map_impl) : Prop :=
  pch_key_size s' = pch_key_size s /\ pch_value_size s' = pch_value_size s /\
  pch_ncpu s' = pch_ncpu s /\ pch_max_entries s' = pch_max_entries s.

Lemma pch_new_rel ks vs me ncpu :
  0 < vs -> 0 < ncpu -> ncpu * vs < 2 ^ 32 -> pch_rel (pch_new ks vs me ncpu) ∅.
Proof.
  intros. split; simpl; rewrite ?length_replicate; try lia.
  - unfold pch_row_size. simpl. rewrite wrap_small by nia. f_equal. f_equal. lia.
  - apply NoDup_nil_2.
  - done.
  - intros k v Hk. by rewrite lookup_empty in Hk.
Qed.

Section pch_lemmas.
Variables (s : per_cpu_hash_map_impl) (g : gmap bytes bytes).
Hypothesis Hrel : pch_rel s g.

Lemma pch_rel_set_keys c k : pch_rel (pch_set_keys (<[c := k]> (pch_key_templates s)) s) g.
Proof. destruct Hrel. split; simpl; try done. by rewrite length_insert. Qed.

Lemma pch_rel_set_values c k :
  pch_rel (pch_set_values (<[c := k]> (pch_single_value_templates s)) s) g.
Proof. destruct Hrel. split; simpl; try done. by rewrite length_insert. Qed.

Lemma pch_assign_key_run c key k e :
  0 <= c < pch_ncpu s -> points_to key k -> length k = Z.to_nat (pch_key_size s) ->
  exists s', pch_assign_key c key s e = Ok k s' e /\ pch_rel s' g /\ pch_same s s' /\
    pch_impl s' = pch_impl s.
Proof.
  intros Hc Hk Hl. eexists. unfold pch_assign_key. mbase.
  rewrite decide_True by (destruct Hrel; lia). rewrite (deref_len _ _ k) by done.
  split; [done|]. split; [apply pch_rel_set_keys|done].
Qed.

Lemma pch_assign_value_run c value v e :
  0 <= c < pch_ncpu s -> points_to value v -> length v = Z.to_nat (pch_value_size s) ->
  exists s', pch_assign_single_value c value s e = Ok v s' e /\ pch_rel s' g /\ pch_same s s' /\
    pch_impl s' = pch_impl s.
Proof.
  intros Hc Hk Hl. eexists. unfold pch_assign_single_value. mbase.
  rewrite decide_True by (destruct Hrel; lia). rewrite (deref_len _ _ v) by done.
  split; [done|]. split; [apply pch_rel_set_values|done].
Qed.

Lemma pch_offset_eq c :
  0 <= c < pch_ncpu s -> pch_offset s c = Z.to_nat (c * pch_value_size s).
Proof. intros. destruct Hrel. unfold pch_offset. rewrite wrap_small by nia. done. Qed.

Lemma pch_offset_range c :
  0 <= c < pch_ncpu s ->
  (Z.to_nat (c * pch_value_size s) + Z.to_nat (pch_value_size s) <= pch_row_size s)%nat.
Proof.
  intros. destruct Hrel. unfold pch_row_size. rewrite <- Z2Nat.inj_add by nia.
  apply Z2Nat.inj_le; nia.
Qed.

Lemma pch_find k : um_find k (pch_impl s) = g !! k.
Proof. destruct Hrel. subst. apply um_find_abs. Qed.

Lemma pch_size : length (pch_impl s) = size g.
Proof. destruct Hrel. subst. by rewrite um_size. Qed.

(** Replacing the container by one that holds [g']. *)
Lemma pch_rel_set_impl l g' :
  um_wf l -> um_abs l = g' ->
  (forall k v, g' !! k = Some v ->
     length k = Z.to_nat (pch_key_size s) /\ length v = pch_row_size s) ->
  pch_rel (pch_set_impl l s) g'.
Proof. intros Hw Ha Hlen. destruct Hrel. by split. Qed.

Lemma pch_len_insert k v :
  length k = Z.to_nat (pch_key_size s) -> length v = pch_row_size s ->
  forall k' v', <[k := v]> g !! k' = Some v' ->
    length k' = Z.to_nat (pch_key_size s) /\ length v' = pch_row_size s.
Proof.
  intros Hk Hv k' v' H. apply lookup_insert_Some in H as [[<- <-]|[_ H]]; [done|].
  by apply (pch_rel_len _ _ Hrel).
Qed.

Lemma pch_rel_assign k v v0 :
  g !! k = Some v0 -> length v = pch_row_size s ->
  pch_rel (pch_set_impl (um_assign k v (pch_impl s)) s) (<[k := v]> g).
Proof.
  intros Hk Hv. destruct (pch_rel_len _ _ Hrel k v0 Hk) as [Hlk _].
  apply pch_rel_set_impl; [apply um_assign_wf, Hrel| |by apply pch_len_insert].
  rewrite um_assign_abs by (rewrite pch_find; eauto). by rewrite (pch_rel_abs _ _ Hrel).
Qed.

Lemma pch_rel_place `{UnorderedMap} k v :
  g !! k = None -> length k = Z.to_nat (pch_key_size s) -> length v = pch_row_size s ->
  pch_rel (pch_set_impl (um_place k v (pch_impl s)) s) (<[k := v]> g).
Proof.
  intros Hk Hlk Hv. rewrite <- pch_find in Hk. pose proof (pch_rel_wf _ _ Hrel).
  apply pch_rel_set_impl; [by apply um_place_wf| |by apply pch_len_insert].
  by rewrite um_place_abs, (pch_rel_abs _ _ Hrel).
Qed.

Lemma pch_rel_erase k : pch_rel (pch_set_impl (um_erase k (pch_impl s)) s) (delete k g).
Proof.
  pose proof (pch_rel_wf _ _ Hrel). apply pch_rel_set_impl; [by apply um_erase_wf| |].
  - by rewrite um_erase_abs, (pch_rel_abs _ _ Hrel).
  - intros k' v' Hk. apply lookup_delete_Some in Hk as [_ Hk]. by apply (pch_rel_len _ _ Hrel).
Qed.

(** Writing the value of one CPU. *)
Lemma pch_write_slot c v row :
  0 <= c < pch_ncpu s -> length v = Z.to_nat (pch_value_size s) -> length row = pch_row_size s ->
  exists row', write_range (Z.to_nat (c * pch_value_size s)) v row = Some row' /\
    length row' = pch_row_size s /\
    forall d, 0 <= d -> pch_slot s d row' = if decide (d = c) then Some v else pch_slot s d row.
Proof.
  intros Hc Hv Hrow. pose proof (pch_offset_range c Hc) as Hr.
  rewrite <- Hv, <- Hrow in Hr. apply write_range_is_Some in Hr as [row' Hw].
  exists row'. split; [done|]. split; [by rewrite (write_range_length _ _ _ _ Hw)|].
  intros d Hd. unfold pch_slot. case_decide as Hdc.
  - subst. by apply (read_write_len _ _ _ _ _ Hw).
  - pose proof Hrel as [? ? _ _ _ _ _ _ _]. rewrite !Z2Nat.inj_mul in * by lia.
    apply (read_write_record _ _ _ _ _ _ Hw Hv). lia.
Qed.

End pch_lemmas.

(** ** Theorems *)

(** Per-CPU hash map, program side on CPU [cpu]: an update with an accepted
    flag always succeeds, stores the value of this CPU and keeps the values of
    the other CPUs (zero for a new key), whatever BPF_EXIST, BPF_NOEXIST or the
    limit would ask for; then a lookup on the same CPU finds the value. Other
    flags give EINVAL and change nothing. *)
Theorem pch_update_on_cpu `{UnorderedMap} s g cpu key value k v flags e :
  pch_rel s g -> 0 <= cpu < pch_ncpu s -> points_to key k -> points_to value v ->
  length k = Z.to_nat (pch_key_size s) -> length v = Z.to_nat (pch_value_size s) ->
  if is_good_update_flag flags then
    exists s' row, pch_elem_update cpu key value flags s e = Ok 0 s' e /\
      pch_rel s' (<[k := row]> g) /\ pch_same s s' /\
      (forall c, 0 <= c -> pch_slot s c row =
         if decide (c = cpu) then Some v
         else pch_slot s c (default (zeros (pch_row_size s)) (g !! k))) /\
      exists s'', pch_rel s'' (<[k := row]> g) /\ pch_same s s'' /\
        pch_elem_lookup cpu key s' e = Ok (VNode k (Z.to_nat (cpu * pch_value_size s))) s'' e
  else pch_elem_update cpu key value flags s e = Ok (-1) s EINVAL.
Proof.
  intros Hr Hc Hk Hv Lk Lv. unfold pch_elem_update. mbase. rewrite check_update_flags_run.
  destruct (is_good_update_flag flags); cbn [negb]; [|done].
  destruct (pch_assign_key_run s g Hr cpu key k e Hc Hk Lk) as (s1 & -> & Hr1 & S1 & _).
  destruct S1 as (E1 & E2 & E3 & E4). rewrite <- E3 in Hc. rewrite <- E2 in Lv.
  destruct (pch_assign_value_run s1 g Hr1 cpu value v e Hc Hv Lv) as (s2 & -> & Hr2 & S2 & _).
  destruct S2 as (F1 & F2 & F3 & F4). rewrite <- F3 in Hc. rewrite <- F2 in Lv.
  assert (pch_row_size s2 = pch_row_size s) as Hrow by (unfold pch_row_size; congruence).
  assert (forall c row, pch_slot s c row = pch_slot s2 c row) as Hslot
    by (intros; unfold pch_slot; congruence).
  destruct (pch_write_slot s2 g Hr2 cpu v (default (zeros (pch_row_size s)) (g !! k)))
    as (row & Hw & Lrow & Hs); [done..| |].
  { destruct (g !! k) eqn:Hg; simpl; [|by rewrite length_zeros].
    by apply (pch_rel_len _ _ Hr2) in Hg as [_ ?]. }
  rewrite (pch_find s2 g Hr2), (pch_offset_eq s2 g Hr2) by done.
  assert (exists s3, pch_rel s3 (<[k := row]> g) /\ pch_same s s3 /\
    match g !! k with
    | Some old => s3 = pch_set_impl (um_assign k row (pch_impl s2)) s2
    | None => s3 = pch_set_impl (um_place k row (pch_impl s2)) s2 end) as (s3 & Hr3 & S3 & H3).
  { destruct (g !! k) as [old|] eqn:Hg.
    - eexists. split; [by eapply pch_rel_assign|]. split; [|done]. unfold pch_same; simpl; intuition congruence.
    - eexists. split; [apply pch_rel_place; congruence || done|]. split; [|done].
      unfold pch_same; simpl; intuition congruence. }
  exists s3, row. split.
  { destruct (g !! k) eqn:Hg; simpl in Hw; [|rewrite (pch_rel_template _ _ Hr2), Hrow];
      rewrite Hw; simpl; by rewrite H3. }
  split; [done|]. split; [done|]. split.
  { intros c Hcc. rewrite !Hslot. by apply Hs. }
  destruct S3 as (T1 & T2 & T3 & T4).
  destruct (pch_assign_key_run s3 _ Hr3 cpu key k e ltac:(lia) Hk ltac:(congruence))
    as (s4 & Hrun & Hr4 & (U1 & U2 & U3 & U4) & _).
  exists s4. split; [done|]. split; [unfold pch_same; intuition congruence|].
  unfold pch_elem_lookup. destruct Hk as [rest ->]. mbase. rewrite Hrun.
  rewrite (pch_find s4 _ Hr4), lookup_insert_eq, (pch_offset_eq s4 _ Hr4) by lia.
  rewrite decide_True; [by rewrite U2, T2|].
  pose proof (pch_offset_range s4 _ Hr4 cpu ltac:(lia)). pose proof (pch_rel_value _ _ Hr4).
  assert (pch_row_size s4 = pch_row_size s2) by (unfold pch_row_size; congruence). lia.
Qed.

(** Per-CPU hash map, program-side delete on CPU [cpu]: it returns 0, keeps
    the key, zeroes the values of the CPUs below [cpu] and leaves the value of
    [cpu] itself and of the CPUs above it as they were. *)
Theorem pch_delete_on_cpu s g cpu key k row e :
  pch_rel s g -> 0 <= cpu < pch_ncpu s -> points_to key k ->
  length k = Z.to_nat (pch_key_size s) -> g !! k = Some row ->
  exists s' row', pch_elem_delete cpu key s e = Ok 0 s' e /\ pch_rel s' (<[k := row']> g) /\
    forall c, 0 <= c < pch_ncpu s -> pch_slot s c row' =
      if decide (c < cpu) then Some (zeros (Z.to_nat (pch_value_size s))) else pch_slot s c row.
Proof.
  intros Hr Hc Hk Lk Hg. unfold pch_elem_delete. mbase.
  destruct (pch_assign_key_run s g Hr cpu key k e Hc Hk Lk) as (s1 & -> & Hr1 & S1 & _).
  destruct S1 as (E1 & E2 & E3 & E4). rewrite <- E3 in Hc.
  rewrite (pch_find s1 g Hr1), Hg, (pch_offset_eq s1 g Hr1) by done.
  destruct (pch_rel_len _ _ Hr1 k row Hg) as [_ Lrow].
  pose proof (pch_offset_range s1 g Hr1 cpu Hc) as Hrange.
  destruct (proj1 (write_range_is_Some 0 (zeros (Z.to_nat (cpu * pch_value_size s1))) row))
    as [row' Hw]; [rewrite length_zeros; lia|].
  rewrite Hw. simpl. eexists _, row'. split; [done|]. split.
  { eapply pch_rel_assign; [done..|]. by rewrite (write_range_length _ _ _ _ Hw). }
  intros c Hcc. pose proof (pch_rel_value _ _ Hr). unfold pch_slot. rewrite <- E2 in *.
  case_decide as Hlt.
  - assert (Z.to_nat (c * pch_value_size s1) + Z.to_nat (pch_value_size s1) <=
            Z.to_nat (cpu * pch_value_size s1))%nat as Hle
      by (rewrite <- Z2Nat.inj_add by nia; apply Z2Nat.inj_le; nia).
    pose proof (write_range_length _ _ _ _ Hw). rewrite read_range_Some by lia.
    unfold write_range in Hw. rewrite length_zeros in Hw. case_decide; [|done].
    injection Hw as <-. simpl. rewrite skipn_app, firstn_app.
    rewrite length_drop, length_zeros.
    replace (_ - (_ - _))%nat with O by lia. simpl. rewrite app_nil_r.
    unfold zeros. rewrite drop_replicate, take_replicate. do 2 f_equal. lia.
  - apply (read_write_disjoint _ _ _ _ _ _ Hw). right. rewrite length_zeros.
    simpl. apply Z2Nat.inj_le; nia.
Qed.

(** Per-CPU hash map, userspace side: update follows the contract of
    linux/bpf.h for flags and limit, delete and lookup_and_delete remove exactly
    the stored keys (ENOENT otherwise), the latter copying the values of all CPUs
    out, and lookup finds exactly the stored keys. *)
Theorem pch_userspace_refines `{UnorderedMap} s g key value k v flags e :
  pch_rel s g -> points_to key k -> points_to value v ->
  length k = Z.to_nat (pch_key_size s) -> length v = pch_row_size s ->
  (let o := spec_update (pch_max_entries s) k v flags g in
   exists s1, pch_elem_update_userspace key value flags s e = Ok (spec_ret o) s1 (spec_errno o e) /\
     pch_rel s1 (match o with inl _ => g | inr g' => g' end)) /\
  (exists s2, pch_rel s2 (delete k g) /\ pch_elem_delete_userspace key s e =
     if decide (is_Some (g !! k)) then Ok 0 s2 e else Ok (-1) s2 ENOENT) /\
  (exists s3, pch_rel s3 (delete k g) /\ pch_lookup_and_delete_userspace key s e =
     match g !! k with Some row => Ok (0, Some row) s3 e | None => Ok (-1, None) s3 ENOENT end) /\
  (exists s4, pch_rel s4 g /\ pch_elem_lookup_userspace key s e =
     if decide (is_Some (g !! k)) then Ok (VNode k 0) s4 e else Ok VNull s4 ENOENT).
Proof.
  intros Hr Hk Hv Lk Lv. pose proof Hr as [Hvs Hnc Hu _ _ _ _ _ _].
  destruct (pch_assign_key_run s g Hr 0 key k e ltac:(lia) Hk Lk)
    as (s0 & Hrun & Hr0 & (E1 & E2 & E3 & E4) & _).
  assert (pch_row_size s0 = pch_row_size s) as Hrow by (unfold pch_row_size; congruence).
  assert (Z.to_nat (u32 (pch_ncpu s0 * pch_value_size s0)) = pch_row_size s) as Hw.
  { rewrite E2, E3, wrap_small by nia. done. }
  split_and!.
  - cbv zeta. unfold pch_elem_update_userspace, spec_update. mbase. rewrite check_update_flags_run.
    destruct (is_good_update_flag flags); cbn [negb]; [|by exists s].
    rewrite Hrun, (Z.mul_comm (pch_value_size s0)), Hw, (deref_len _ _ v) by done.
    rewrite (pch_find s0 g Hr0), (pch_size s0 g Hr0), E4. unfold um_insert_or_assign.
    rewrite (pch_find s0 g Hr0). destruct (g !! k) as [v0|] eqn:Hg.
    + rewrite bool_decide_true by eauto. rewrite andb_true_r. cbn [negb andb]. rewrite andb_false_r.
      destruct (flags =? BPF_NOEXIST); [by exists s0|]. eexists. split; [done|].
      by eapply pch_rel_assign; [..|by rewrite Hrow].
    + rewrite bool_decide_false by (by intros [? [=]]). rewrite andb_false_r. cbn [negb andb].
      rewrite andb_true_r. destruct (flags =? BPF_EXIST); [by exists s0|].
      destruct (_ =? pch_max_entries s); [by exists s0|]. eexists. split; [done|].
      apply pch_rel_place; congruence || done.
  - unfold pch_elem_delete_userspace. mbase. rewrite Hrun, (pch_find s0 g Hr0).
    destruct (g !! k) eqn:Hg; eexists; rewrite decide_is_Some; (split; [|done]).
    + by apply pch_rel_erase.
    + by rewrite delete_id.
  - unfold pch_lookup_and_delete_userspace. mbase. rewrite Hrun, (pch_find s0 g Hr0), Hw.
    destruct (g !! k) as [row|] eqn:Hg.
    + destruct (pch_rel_len _ _ Hr k row Hg) as [_ Lr]. eexists.
      rewrite read_range_Some by lia. rewrite drop_0, take_ge by lia.
      split; [by apply pch_rel_erase|done].
    + eexists. split; [|done]. by rewrite delete_id.
  - unfold pch_elem_lookup_userspace. mbase. destruct Hk as [rest ->].
    rewrite Hrun, (pch_find s0 g Hr0). exists s0. split; [done|].
    destruct (g !! k) as [row|] eqn:Hg.
    + destruct (pch_rel_len _ _ Hr k row Hg) as [_ Lr]. rewrite decide_is_Some, decide_True; [done|].
      unfold pch_row_size in Lr. lia.
    + by rewrite decide_is_Some.
Qed.

(** The program-side update has no limit and no notion of existence: on a map
    of one entry, three updates with BPF_EXIST of absent keys all return 0 and
    leave three keys, where the userspace side refuses the first with ENOENT. *)
Theorem pch_update_ignores_limit :
  let m := pch_new 1 1 1 1 in
  let insert k := @pch_elem_update um_append 0 (Some [k]) (Some [9]) BPF_EXIST in
  (exists s, (insert 1;; insert 2;; insert 3) m 0 = Ok 0 s 0 /\
     pch_impl s = [([1], [9]); ([2], [9]); ([3], [9])] /\ pch_max_entries s = 1) /\
  exists s, @pch_elem_update_userspace um_append (Some [1]) (Some [9]) BPF_EXIST m 0 =
    Ok (-1) s ENOENT.
Proof. split; eexists; [split; [|split]|]; vm_compute; reflexivity. Qed.

(** *** Witnesses *)

Definition small_pch : per_cpu_hash_map_impl :=
  mk_pch [([1], [5; 6; 7])] 1 1 3 2 [0; 0; 0] [[0]; [0]; [0]] [[0]; [0]; [0]].

Lemma small_pch_rel : pch_rel small_pch {[ [1] := [5; 6; 7] ]}.
Proof.
  split; simpl; try lia; try done; [by apply NoDup_singleton|].
  intros k v Hk. apply lookup_singleton_Some in Hk as [<- <-]. done.
Qed.

Lemma pch_update_on_cpu_witness :
  exists s' row, @pch_elem_update um_append 1 (Some [1]) (Some [9]) BPF_NOEXIST small_pch 0 =
      Ok 0 s' 0 /\
    pch_rel s' (<[[1] := row]> {[ [1] := [5; 6; 7] ]}) /\ pch_same small_pch s' /\
    (forall c, 0 <= c -> pch_slot small_pch c row =
       if decide (c = 1) then Some [9] else pch_slot small_pch c [5; 6; 7]) /\
    exists s'', pch_rel s'' (<[[1] := row]> {[ [1] := [5; 6; 7] ]}) /\ pch_same small_pch s'' /\
      pch_elem_lookup 1 (Some [1]) s' 0 = Ok (VNode [1] 1) s'' 0.
Proof.
  refine (@pch_update_on_cpu um_append small_pch {[ [1] := [5; 6; 7] ]} 1 (Some [1]) (Some [9])
    [1] [9] BPF_NOEXIST 0 small_pch_rel _ (points_to_self _) (points_to_self _) eq_refl eq_refl).
  simpl. lia.
Defined.

Lemma pch_delete_on_cpu_witness :
  exists s' row', pch_elem_delete 2 (Some [1]) small_pch 0 = Ok 0 s' 0 /\
    pch_rel s' (<[[1] := row']> {[ [1] := [5; 6; 7] ]}) /\
    forall c, 0 <= c < 3 -> pch_slot small_pch c row' =
      if decide (c < 2) then Some [0] else pch_slot small_pch c [5; 6; 7].
Proof.
  refine (pch_delete_on_cpu small_pch {[ [1] := [5; 6; 7] ]} 2 (Some [1]) [1] [5; 6; 7] 0
    small_pch_rel _ (points_to_self _) eq_refl eq_refl).
  simpl. lia.
Defined.

Lemma pch_userspace_refines_witness :
  let g : gmap bytes bytes := {[ [1] := [5; 6; 7] ]} in
  (let o := spec_update 2 [1] [1; 2; 3] BPF_NOEXIST g in
   exists s1, @pch_elem_update_userspace um_append (Some [1]) (Some [1; 2; 3]) BPF_NOEXIST small_pch 0 =
       Ok (spec_ret o) s1 (spec_errno o 0) /\
     pch_rel s1 (match o with inl _ => g | inr g' => g' end)) /\
  (exists s2, pch_rel s2 (delete [1] g) /\
     pch_elem_delete_userspace (Some [1]) small_pch 0 = Ok 0 s2 0) /\
  (exists s3, pch_rel s3 (delete [1] g) /\
     pch_lookup_and_delete_userspace (Some [1]) small_pch 0 = Ok (0, Some [5; 6; 7]) s3 0) /\
  (exists s4, pch_rel s4 g /\
     pch_elem_lookup_userspace (Some [1]) small_pch 0 = Ok (VNode [1] 0) s4 0).
Proof.
  exact (@pch_userspace_refines um_append small_pch {[ [1] := [5; 6; 7] ]} (Some [1])
    (Some [1; 2; 3]) [1] [1; 2; 3] BPF_NOEXIST 0 small_pch_rel (points_to_self _)
    (points_to_self _) eq_refl eq_refl).
Defined.
