(* ===== verification/LruHash.v ===== *)
(** [lru_var_hash_map_impl] (bpf_map/userspace/lru_var_hash_map.{hpp,cpp}): a
    boost::unordered_map whose nodes point into a doubly linked list, most
    recently used first; a full map evicts the last entry. The list entries live
    in a heap: [next_entry], [linked_list_entry], the head and the tail are
    shared pointers, [previous_entry] is a weak one. *)
From Stdlib Require Import ZArith Lia.
From stdpp Require Import base list gmap strings infinite.
From S2P Require Import Prelude MapCommon.
Local Open Scope Z_scope.

Record lru_linklist_entry := mk_lru_entry {
  le_key : bytes;
  le_next : option nat;
  le_prev : option nat
}.

(** [hash_map_value]: the value and its list entry. *)
Abbreviation hash_map_value := (bytes * nat)%type.

Record lru_var_hash_map_impl := mk_lru {
  lru_map_impl : list (bytes * hash_map_value);
  lru_head : option nat;
  lru_tail : option nat;
  lru_heap : gmap nat lru_linklist_entry;
  lru_key_size : nat;
  lru_value_size : nat;
  lru_max_entries : Z;
  lru_key_vec : bytes;
  lru_value_vec : bytes
}.

Abbreviation LRU := (M lru_var_hash_map_impl).

Section setters.
Variable s : lru_var_hash_map_impl.
Definition lru_set_map m := mk_lru m (lru_head s) (lru_tail s) (lru_heap s) (lru_key_size s)
  (lru_value_size s) (lru_max_entries s) (lru_key_vec s) (lru_value_vec s).
Definition lru_set_head h := mk_lru (lru_map_impl s) h (lru_tail s) (lru_heap s) (lru_key_size s)
  (lru_value_size s) (lru_max_entries s) (lru_key_vec s) (lru_value_vec s).
Definition lru_set_tail t := mk_lru (lru_map_impl s) (lru_head s) t (lru_heap s) (lru_key_size s)
  (lru_value_size s) (lru_max_entries s) (lru_key_vec s) (lru_value_vec s).
Definition lru_set_heap h := mk_lru (lru_map_impl s) (lru_head s) (lru_tail s) h (lru_key_size s)
  (lru_value_size s) (lru_max_entries s) (lru_key_vec s) (lru_value_vec s).
Definition lru_set_key_vec k := mk_lru (lru_map_impl s) (lru_head s) (lru_tail s) (lru_heap s)
  (lru_key_size s) (lru_value_size s) (lru_max_entries s) k (lru_value_vec s).
Definition lru_set_value_vec v := mk_lru (lru_map_impl s) (lru_head s) (lru_tail s) (lru_heap s)
  (lru_key_size s) (lru_value_size s) (lru_max_entries s) (lru_key_vec s) v.
End setters.

Definition lru_new (key_size value_size max_entries : Z) : lru_var_hash_map_impl :=
  mk_lru [] None None ∅ (Z.to_nat key_size) (Z.to_nat value_size) max_entries
    (zeros (Z.to_nat key_size)) (zeros (Z.to_nat value_size)).

(** *** Pointers *)

Definition le_set_next (n : option nat) (en : lru_linklist_entry) : lru_linklist_entry :=
  mk_lru_entry (le_key en) n (le_prev en).
Definition le_set_prev (p : option nat) (en : lru_linklist_entry) : lru_linklist_entry :=
  mk_lru_entry (le_key en) (le_next en) p.

(** [p->..] and [p->.. = ..] through a shared pointer. *)
Definition lru_at (p : nat) : LRU lru_linklist_entry :=
  s ← get; need "dangling pointer" (lru_heap s !! p).

Definition lru_alter (p : nat) (f : lru_linklist_entry -> lru_linklist_entry) : LRU unit :=
  _ ← lru_at p;
  modify (fun s => lru_set_heap s (alter f p (lru_heap s))).

(** [weak.lock()]: null when the entry has been freed. *)
Definition lru_lock (w : option nat) : LRU (option nat) :=
  s ← get;
  mret (match w with
        | Some p => if decide (is_Some (lru_heap s !! p)) then Some p else None
        | None => None
        end).

Definition lru_non_null (p : option nat) : LRU nat := need "null pointer dereference" p.

(** Does any shared pointer of the map refer to the entry [p]? *)
Definition lru_referenced (s : lru_var_hash_map_impl) (p : nat) : bool :=
  bool_decide (lru_head s = Some p) || bool_decide (lru_tail s = Some p) ||
  existsb (fun kv => bool_decide (kv.2.2 = p)) (lru_map_impl s) ||
  existsb (fun pe => bool_decide (le_next pe.2 = Some p)) (map_to_list (lru_heap s)).

(** A shared pointer to [p] goes out of scope: without other references the entry
    is freed, and its own [next_entry] goes with it. *)
Fixpoint lru_release (fuel : nat) (p : nat) (s : lru_var_hash_map_impl) : lru_var_hash_map_impl :=
  match fuel with
  | O => s
  | S fuel' =>
      if lru_referenced s p then s
      else match lru_heap s !! p with
           | None => s
           | Some en =>
               let s' := lru_set_heap s (delete p (lru_heap s)) in
               match le_next en with
               | Some n => lru_release fuel' n s'
               | None => s'
               end
           end
  end.

Definition lru_drop (p : nat) : LRU unit := modify (fun s => lru_release (S (size (lru_heap s))) p s).

(** [map_impl.erase]: the node goes, and its [linked_list_entry] with it. *)
Definition lru_erase (k : bytes) : LRU unit :=
  s ← get;
  match um_find k (lru_map_impl s) with
  | Some (_, p) => put (lru_set_map s (um_erase k (lru_map_impl s)));; lru_drop p
  | None => mret tt
  end.

(** *** The list *)

Definition move_to_head (entry : nat) : LRU unit :=
  s ← get;
  if decide (Some entry = lru_head s) then mret tt
  else
    en ← lru_at entry;
    prev ← lru_lock (le_prev en);
    let next := le_next en in
    p ← lru_non_null prev;
    lru_alter p (le_set_next next);;
    match next with
    | Some n => lru_alter n (le_set_prev prev)
    | None => modify (fun s => lru_set_tail s prev)
    end;;
    s ← get;
    lru_alter entry (le_set_next (lru_head s));;
    lru_alter entry (le_set_prev None);;
    h ← lru_non_null (lru_head s);
    lru_alter h (le_set_prev (Some entry));;
    modify (fun s => lru_set_head s (Some entry)).

Definition insert_new_entry (key : bytes) : LRU nat :=
  s ← get;
  let entry := fresh (dom (lru_heap s)) in
  put (lru_set_heap s (<[entry := mk_lru_entry key None None]> (lru_heap s)));;
  match lru_head s with
  | None => modify (fun s => lru_set_tail (lru_set_head s (Some entry)) (Some entry))
  | Some h =>
      lru_alter entry (le_set_next (Some h));;
      lru_alter h (le_set_prev (Some entry));;
      modify (fun s => lru_set_head s (Some entry))
  end;;
  mret entry.

Definition evict_entry (entry : nat) : LRU unit :=
  s ← get;
  en ← lru_at entry;
  (if decide (Some entry = lru_tail s) then
     if decide (Some entry = lru_head s) then
       modify (fun s => lru_set_tail (lru_set_head s None) None)
     else
       prev ← lru_lock (le_prev en);
       p ← lru_non_null prev;
       lru_alter p (le_set_next None);;
       modify (fun s => lru_set_tail s prev)
   else if decide (Some entry = lru_head s) then
     n ← lru_non_null (le_next en);
     lru_alter n (le_set_prev None);;
     modify (fun s => lru_set_head s (le_next en))
   else
     prev ← lru_lock (le_prev en);
     p ← lru_non_null prev;
     lru_alter p (le_set_next (le_next en));;
     n ← lru_non_null (le_next en);
     lru_alter n (le_set_prev prev));;
  lru_drop entry.

(** *** The operations *)

Definition lru_assign_key (key : ptr) : LRU bytes :=
  s ← get;
  k ← deref (lru_key_size s) key;
  modify (fun s => lru_set_key_vec s k);;
  mret k.

Definition lru_elem_lookup (key : ptr) : LRU vptr :=
  key_vec ← lru_assign_key key;
  s ← get;
  match um_find key_vec (lru_map_impl s) with
  | Some (_, entry) => move_to_head entry;; mret (VNode key_vec 0)
  | None => fail_with ENOENT VNull
  end.

Section update.
Context `{UnorderedMap}.

Definition lru_elem_update (key value : ptr) (flags : Z) : LRU Z :=
  if negb (is_good_update_flag flags) then fail_with EINVAL (-1)
  else
    key_vec ← lru_assign_key key;
    s ← get;
    let itr := um_find key_vec (lru_map_impl s) in
    let element_exists := bool_decide (is_Some itr) in
    if (flags =? BPF_NOEXIST) && element_exists then fail_with EEXIST (-1)
    else if (flags =? BPF_EXIST) && negb element_exists then fail_with ENOENT (-1)
    else
      (if negb element_exists && (Z.of_nat (length (lru_map_impl s)) =? lru_max_entries s) then
         tail ← lru_non_null (lru_tail s);
         en ← lru_at tail;
         lru_erase (le_key en);;
         s ← get;
         tail ← lru_non_null (lru_tail s);
         evict_entry tail
       else mret tt);;
      match itr with
      | Some (_, entry) =>
          s ← get;
          v ← deref (lru_value_size s) value;
          put (lru_set_map s (um_assign key_vec (v, entry) (lru_map_impl s)));;
          move_to_head entry;;
          mret 0
      | None =>
          s ← get;
          v ← deref (lru_value_size s) value;
          put (lru_set_value_vec s v);;
          entry ← insert_new_entry key_vec;
          modify (fun s => lru_set_map s (um_place key_vec (v, entry) (lru_map_impl s)));;
          mret 0
      end.

End update.

Definition lru_elem_delete (key : ptr) : LRU Z :=
  key_vec ← lru_assign_key key;
  s ← get;
  match um_find key_vec (lru_map_impl s) with
  | None => fail_with ENOENT (-1)
  | Some (_, entry) => evict_entry entry;; lru_erase key_vec;; mret 0
  end.

Definition lru_map_get_next_key (key : ptr) (next_key : bool) : LRU (Z * option bytes) :=
  s ← get;
  match key with
  | None => um_first_key (lru_map_impl s) next_key
  | Some _ =>
      key_vec ← lru_assign_key key;
      um_key_after key_vec (lru_map_impl s) next_key
  end.

#[export] Instance lru_MapImpl `{UnorderedMap} : MapImpl lru_var_hash_map_impl := {
  should_lock := true;
  elem_lookup := lru_elem_lookup;
  elem_update := lru_elem_update;
  elem_delete := lru_elem_delete;
  map_get_next_key := lru_map_get_next_key
}.

(** ** The linked list as a sequence of nodes *)

(** A node of the list: its address, key and value. *)
Record lnode := mk_lnode { ln_p : nat; ln_k : bytes; ln_v : bytes }.

Abbreviation addrs L := (ln_p <$> L).
Definition ln_pair (x : lnode) : bytes * bytes := (ln_k x, ln_v x).
Definition ln_hash (x : lnode) : bytes * hash_map_value := (ln_k x, (ln_v x, ln_p x)).

(** The address of the first (last) node of [L], or what comes after (before) it. *)
Definition first_or (L : list lnode) (nx : option nat) : option nat :=
  match L with [] => nx | x :: _ => Some (ln_p x) end.
Definition last_or (pr : option nat) (L : list lnode) : option nat :=
  match last L with Some x => Some (ln_p x) | None => pr end.

(** The nodes [L] are linked in the heap between [pr] and [nx]. *)
Fixpoint dseg (h : gmap nat lru_linklist_entry) (pr : option nat) (L : list lnode)
    (nx : option nat) : Prop :=
  match L with
  | [] => True
  | x :: L' =>
      h !! ln_p x = Some (mk_lru_entry (ln_k x) (first_or L' nx) pr) /\
      dseg h (Some (ln_p x)) L' nx
  end.

Section dseg.
Implicit Types (h : gmap nat lru_linklist_entry) (L A B : list lnode) (x : lnode).

Lemma first_or_app A B nx : first_or (A ++ B) nx = first_or A (first_or B nx).
Proof. by destruct A. Qed.

Lemma last_or_snoc pr A x : last_or pr (A ++ [x]) = Some (ln_p x).
Proof. unfold last_or. by rewrite last_snoc. Qed.

Lemma last_or_app pr A B : last_or pr (A ++ B) = last_or (last_or pr A) B.
Proof. unfold last_or. rewrite last_app. by destruct (last B). Qed.

Lemma last_or_cons pr x A : last_or pr (x :: A) = last_or (Some (ln_p x)) A.
Proof. by apply (last_or_app pr [x] A). Qed.

Lemma dseg_app h pr A B nx :
  dseg h pr (A ++ B) nx <-> dseg h pr A (first_or B nx) /\ dseg h (last_or pr A) B nx.
Proof.
  revert pr. induction A as [|x A IH]; intros pr; simpl; [tauto|].
  rewrite IH, first_or_app, last_or_cons. tauto.
Qed.

Lemma dseg_frame h f p pr L nx :
  p ∉ addrs L -> dseg (alter f p h) pr L nx <-> dseg h pr L nx.
Proof.
  revert pr. induction L as [|x L IH]; intros pr Hp; simpl; [done|].
  apply not_elem_of_cons in Hp as [Hne Hp]. rewrite lookup_alter_ne by done. by rewrite IH.
Qed.

Lemma dseg_insert_frame h en p pr L nx :
  p ∉ addrs L -> dseg (<[p := en]> h) pr L nx <-> dseg h pr L nx.
Proof.
  revert pr. induction L as [|x L IH]; intros pr Hp; simpl; [done|].
  apply not_elem_of_cons in Hp as [Hne Hp]. rewrite lookup_insert_ne by done. by rewrite IH.
Qed.

Lemma dseg_delete_frame h p pr L nx :
  p ∉ addrs L -> dseg (delete p h) pr L nx <-> dseg h pr L nx.
Proof.
  revert pr. induction L as [|x L IH]; intros pr Hp; simpl; [done|].
  apply not_elem_of_cons in Hp as [Hne Hp]. rewrite lookup_delete_ne by done. by rewrite IH.
Qed.

(** Relinking the end of a segment. *)
Lemma dseg_set_next h pr A y nx n :
  ln_p y ∉ addrs A -> dseg h pr (A ++ [y]) nx ->
  dseg (alter (le_set_next n) (ln_p y) h) pr (A ++ [y]) n.
Proof.
  intros Hy. rewrite !dseg_app. intros [HA [Hl _]]. split; [by apply dseg_frame|].
  simpl. by rewrite lookup_alter_eq, Hl.
Qed.

(** Relinking the start of a segment, if it has one. *)
Definition relink_prev (q : option nat) (L : list lnode) (h : gmap nat lru_linklist_entry) :=
  match L with [] => h | x :: _ => alter (le_set_prev q) (ln_p x) h end.

Lemma dseg_set_prev h pr L nx q :
  NoDup (addrs L) -> dseg h pr L nx -> dseg (relink_prev q L h) q L nx.
Proof.
  destruct L as [|x L]; simpl; [done|]. rewrite NoDup_cons. intros [Hx _] [Hl Hr].
  rewrite lookup_alter_eq, Hl. split; [done|]. by apply dseg_frame.
Qed.

Lemma dseg_relink_frame h q B pr L nx :
  (addrs B) ## (addrs L) -> dseg (relink_prev q B h) pr L nx <-> dseg h pr L nx.
Proof.
  destruct B as [|x B]; simpl; [done|]. intros Hd. apply dseg_frame.
  intros Hin. apply (Hd (ln_p x)); [left|done].
Qed.

Lemma dseg_lookup h pr L nx x :
  dseg h pr L nx -> x ∈ L ->
  exists en, h !! ln_p x = Some en /\ le_key en = ln_k x /\
    (le_next en = nx \/ exists y, y ∈ L /\ le_next en = Some (ln_p y)).
Proof.
  revert pr. induction L as [|y L IH]; intros pr; simpl; [by intros _ ?%elem_of_nil|].
  intros [Hy HL] [->|Hx]%elem_of_cons.
  - eexists. split; [done|]. split; [done|]. simpl. destruct L as [|z L]; simpl; [auto|].
    right. exists z. split; [right; left|done].
  - destruct (IH _ HL Hx) as (en & Hl & Hk & [Hn|(z & Hz & Hn)]); exists en; eauto.
    do 2 (split; [done|]). right. exists z. split; [by right|done].
Qed.

Lemma relink_prev_dom q L h : dom (relink_prev q L h) = dom h.
Proof. destruct L; simpl; [done|apply dom_alter_L]. Qed.

Lemma relink_prev_lookup_ne q L h p : p ∉ addrs L -> relink_prev q L h !! p = h !! p.
Proof. destruct L; simpl; [done|]. intros [? _]%not_elem_of_cons. by rewrite lookup_alter_ne. Qed.

End dseg.

(** ** The representation relation *)

Record lru_rep (s : lru_var_hash_map_impl) (L : list lnode) : Prop := {
  lr_map : lru_map_impl s ≡ₚ ln_hash <$> L;
  lr_keys : NoDup (ln_k <$> L);
  lr_addrs : NoDup (addrs L);
  lr_seg : dseg (lru_heap s) None L None;
  lr_head : lru_head s = first_or L None;
  lr_tail : lru_tail s = last_or None L;
  lr_dom : dom (lru_heap s) = list_to_set (addrs L);
  lr_len : Forall (fun x => length (ln_k x) = lru_key_size s /\
                            length (ln_v x) = lru_value_size s) L;
  lr_max : Z.of_nat (length L) <= lru_max_entries s
}.

(** The state holds the pairs [l], most recently used first, and nothing else: in
    particular every entry of the heap belongs to a stored key. *)
Definition lru_rel (s : lru_var_hash_map_impl) (l : list (bytes * bytes)) : Prop :=
  exists L, lru_rep s L /\ l = ln_pair <$> L.

Lemma lru_new_rel ks vs me : 0 <= me -> lru_rel (lru_new ks vs me) [].
Proof. intros. exists []. split; [|done]. split; simpl; try done; apply NoDup_nil_2. Qed.

(** Container lemmas up to order. *)
Section containers.
Context {V : Type}.
Implicit Types (l : list (bytes * V)).

Lemma um_erase_perm k v l : um_find k l = Some v -> l ≡ₚ (k, v) :: um_erase k l.
Proof.
  induction l as [|[k' v'] l IH]; simpl; [done|]. case_decide.
  - intros [= ->]. by subst.
  - intros Hf. rewrite (IH Hf) at 1. apply Permutation_swap.
Qed.

Lemma um_assign_perm k v w l :
  um_find k l = Some v -> um_assign k w l ≡ₚ (k, w) :: um_erase k l.
Proof.
  induction l as [|[k' v'] l IH]; simpl; [done|]. case_decide.
  - intros _. by subst.
  - intros Hf. rewrite (IH Hf). apply Permutation_swap.
Qed.

Lemma um_erase_absent k l : um_find k l = None -> um_erase k l = l.
Proof. induction l as [|[k' v'] l IH]; simpl; [done|]. case_decide; [done|]. intros. by rewrite IH. Qed.

Lemma um_perm_wf l l' : l ≡ₚ l' -> um_wf l' -> um_wf l.
Proof. intros Hp. unfold um_wf. by rewrite Hp. Qed.

Lemma um_find_perm k l l' : um_wf l' -> l ≡ₚ l' -> um_find k l = um_find k l'.
Proof.
  intros Hw Hp. pose proof (um_perm_wf _ _ Hp Hw) as Hl. rewrite !um_find_abs. unfold um_abs.
  f_equal. by apply list_to_map_proper.
Qed.

Lemma um_erase_perm_of k v l l' :
  um_wf l -> l ≡ₚ (k, v) :: l' -> um_erase k l ≡ₚ l' /\ um_find k l = Some v.
Proof.
  intros Hw Hp. assert (um_find k l = Some v) as Hf.
  { apply um_elem_find; [done|]. rewrite Hp. left. }
  split; [|done]. apply (Permutation_cons_inv (a := (k, v))).
  by rewrite <- Hp, <- um_erase_perm.
Qed.
End containers.

Section heap_surgery.
Implicit Types (h : gmap nat lru_linklist_entry) (A B : list lnode) (x y : lnode).

Lemma addrs_split A x B :
  NoDup (addrs (A ++ x :: B)) ->
  (ln_p x ∉ addrs A) /\ (ln_p x ∉ addrs B) /\ (addrs B) ## (addrs A) /\ (addrs A) ## (addrs B) /\
  NoDup (addrs A) /\ NoDup (addrs B).
Proof.
  rewrite fmap_app, fmap_cons. intros (HA & Hd & HB)%NoDup_app.
  apply NoDup_cons in HB as [Hx HB]. split_and!; try done.
  - intros Hin. apply (Hd _ Hin). left.
  - intros p Hp HpA. apply (Hd _ HpA). by right.
  - intros p HpA Hp. apply (Hd _ HpA). by right.
Qed.

(** The heap after unlinking [x] from behind [A ++ [y]] and pushing it in front. *)
Definition moved_heap A y x B h :=
  relink_prev (Some (ln_p x)) (A ++ [y])
    (alter (le_set_prev None) (ln_p x)
      (alter (le_set_next (first_or (A ++ [y]) None)) (ln_p x)
        (relink_prev (Some (ln_p y)) B
          (alter (le_set_next (first_or B None)) (ln_p y) h)))).

Lemma moved_heap_seg A y x B h :
  NoDup (addrs ((A ++ [y]) ++ x :: B)) -> dseg h None ((A ++ [y]) ++ x :: B) None ->
  dseg (moved_heap A y x B h) None (x :: (A ++ [y]) ++ B) None /\
  dom (moved_heap A y x B h) = dom h.
Proof.
  intros Hnd Hs. destruct (addrs_split _ _ _ Hnd) as (HxA & HxB & HBA & HAB & NA & NB).
  unfold moved_heap. split; [|by rewrite !relink_prev_dom, !dom_alter_L, relink_prev_dom, dom_alter_L].
  assert (ln_p y ∉ addrs A) as HyA.
  { rewrite fmap_app in NA. apply NoDup_app in NA as (_ & Hd & _). intros Hin.
    apply (Hd _ Hin). left. }
  assert (ln_p y ∈ addrs (A ++ [y])) as Hyin by (rewrite fmap_app; apply elem_of_app; right; left).
  apply dseg_app in Hs as [HsA [Hx HsB]]. rewrite last_or_snoc in *.
  change (x :: (A ++ [y]) ++ B) with ([x] ++ (A ++ [y]) ++ B). rewrite dseg_app, (dseg_app _ _ (A ++ [y])).
  split; [|split].
  - simpl. split; [|done]. rewrite relink_prev_lookup_ne by done. rewrite !lookup_alter_eq.
    rewrite relink_prev_lookup_ne by done. rewrite lookup_alter_ne by (intros E; rewrite E in *; done).
    rewrite Hx. unfold le_set_prev, le_set_next; simpl. do 2 f_equal.
    destruct A; done.
  - apply dseg_set_prev with (pr := None); [done|]. rewrite !dseg_frame by done.
    rewrite dseg_relink_frame by done. by eapply dseg_set_next.
  - rewrite last_or_snoc. rewrite dseg_relink_frame by done. rewrite !dseg_frame by done.
    apply dseg_set_prev with (pr := Some (ln_p x)); [done|]. apply dseg_frame; [|done].
    intros Hin. by apply (HBA (ln_p y)).
Qed.

End heap_surgery.

Definition lru_same (s s' : lru_var_hash_map_impl) : Prop :=
  lru_key_size s' = lru_key_size s /\ lru_value_size s' = lru_value_size s /\
  lru_max_entries s' = lru_max_entries s.

Lemma lru_alter_run p f s e en :
  lru_heap s !! p = Some en ->
  lru_alter p f s e = Ok tt (lru_set_heap s (alter f p (lru_heap s))) e.
Proof. intros Hp. unfold lru_alter, lru_at. mbase. by rewrite Hp. Qed.

Lemma lru_at_run p s e en : lru_heap s !! p = Some en -> lru_at p s e = Ok en s e.
Proof. intros Hp. unfold lru_at. mbase. by rewrite Hp. Qed.

Lemma lru_lock_run p s e en :
  lru_heap s !! p = Some en -> lru_lock (Some p) s e = Ok (Some p) s e.
Proof. intros Hp. unfold lru_lock. mbase. by rewrite decide_True by (rewrite Hp; eauto). Qed.

(** The entries that are linked into the list can be reached in the heap. *)
Lemma lru_in_heap s L p : lru_rep s L -> p ∈ addrs L -> is_Some (lru_heap s !! p).
Proof. intros Hr Hp. apply elem_of_dom. rewrite (lr_dom _ _ Hr). by apply elem_of_list_to_set. Qed.

Lemma dom_alter_is_Some (h : gmap nat lru_linklist_entry) f p q :
  is_Some (h !! q) -> is_Some (alter f p h !! q).
Proof. rewrite <- !elem_of_dom. by rewrite dom_alter_L. Qed.

(** Moving around the same nodes keeps what the relation says of the container. *)
Lemma lru_rep_permute s s' L L' :
  lru_rep s L -> L ≡ₚ L' -> lru_map_impl s' = lru_map_impl s -> lru_same s s' ->
  dseg (lru_heap s') None L' None -> lru_head s' = first_or L' None ->
  lru_tail s' = last_or None L' -> dom (lru_heap s') = dom (lru_heap s) -> lru_rep s' L'.
Proof.
  intros [Hm Hk Ha _ _ _ Hd Hl Hx] Hp Em (E1 & E2 & E3) Hs Hh Ht Edom. split; try done.
  - by rewrite Em, Hm, Hp.
  - by rewrite <- Hp.
  - by rewrite <- Hp.
  - rewrite Edom, Hd. apply list_to_set_perm_L. by rewrite Hp.
  - rewrite <- Hp. by rewrite E1, E2.
  - rewrite <- Hp. by rewrite E3.
Qed.

Lemma move_to_head_run s A x B e :
  lru_rep s (A ++ x :: B) ->
  exists s', move_to_head (ln_p x) s e = Ok tt s' e /\ lru_rep s' (x :: A ++ B) /\
    lru_same s s' /\ lru_map_impl s' = lru_map_impl s.
Proof.
  intros Hr. pose proof Hr as [_ _ Ha Hseg Hh Ht _ _ _].
  destruct A as [|y A _] using rev_ind.
  { exists s. split; [|done]. unfold move_to_head. mbase. by rewrite decide_True. }
  destruct (addrs_split _ _ _ Ha) as (HxA & HxB & HBA & HAB & NA & NB).
  assert (Hx : lru_heap s !! ln_p x = Some (mk_lru_entry (ln_k x) (first_or B None) (Some (ln_p y)))).
  { apply dseg_app in Hseg as [_ [Hx _]]. by rewrite last_or_snoc in Hx. }
  assert (Hin : forall z, z ∈ addrs ((A ++ [y]) ++ x :: B) -> is_Some (lru_heap s !! z))
    by (intros; by eapply lru_in_heap).
  assert (is_Some (lru_heap s !! ln_p y)) as [eny Hy].
  { apply Hin. rewrite !fmap_app. apply elem_of_app. left. apply elem_of_app. right. left. }
  destruct (first_or (A ++ [y]) None) as [hp|] eqn:Ehd; [|by destruct A].
  assert (Hhp : hp ∈ addrs (A ++ [y])).
  { destruct A; injection Ehd as <-; left. }
  assert (Hxhp : ln_p x <> hp) by (intros E; by rewrite E in HxA).
  assert (lru_head s = Some hp) as Hhead by (rewrite Hh; by destruct A).
  destruct (moved_heap_seg A y x B (lru_heap s) Ha Hseg) as [Hseg' Hdom'].
  set (h1 := alter (le_set_next (first_or B None)) (ln_p y) (lru_heap s)).
  set (h2 := relink_prev (Some (ln_p y)) B h1).
  assert (Hh2 : forall z, z ∈ addrs ((A ++ [y]) ++ x :: B) -> is_Some (h2 !! z)).
  { intros z Hz. apply elem_of_dom. unfold h2, h1. rewrite relink_prev_dom, dom_alter_L.
    apply elem_of_dom. by apply Hin. }
  destruct (Hh2 (ln_p x)) as [enx Henx]; [rewrite fmap_app; apply elem_of_app; right; left|].
  destruct (Hh2 hp) as [enh Henh]; [rewrite fmap_app; apply elem_of_app; by left|].
  set (tl := match B with [] => Some (ln_p y) | _ => lru_tail s end).
  exists (lru_set_head (lru_set_heap (lru_set_tail s tl) (moved_heap A y x B (lru_heap s)))
            (Some (ln_p x))).
  split; [|split; [|done]].
  - unfold move_to_head. mbase. rewrite Hhead. rewrite decide_False by congruence.
    rewrite (lru_at_run _ _ _ _ Hx). cbn [le_next le_prev].
    rewrite (lru_lock_run _ _ _ _ Hy). unfold lru_non_null, need. mbase.
    rewrite (lru_alter_run _ _ _ _ _ Hy). fold h1.
    assert (Hstep : (match first_or B None with
      | Some n => lru_alter n (le_set_prev (Some (ln_p y)))
      | None => λ s0 e0, Ok tt (lru_set_tail s0 (Some (ln_p y))) e0 end)
      (lru_set_heap s h1) e = Ok tt (lru_set_heap (lru_set_tail s tl) h2) e).
    { unfold tl, h2. clear Hh2 Henx Henh Hseg' Hdom'. destruct B as [|b B]; simpl; [done|].
      destruct (Hin (ln_p b)) as [enb Hb]; [rewrite fmap_app; apply elem_of_app; right; right; left|].
      assert (is_Some (h1 !! ln_p b)) as [? Hb1] by (apply dom_alter_is_Some; eauto).
      by rewrite (lru_alter_run _ _ (lru_set_heap s h1) _ _ Hb1). }
    rewrite Hstep.
    cbn [lru_set_heap lru_set_tail lru_head lru_heap]. rewrite Hhead.
    erewrite lru_alter_run by (simpl; exact Henx). simpl.
    erewrite lru_alter_run by (simpl; rewrite lookup_alter_eq, Henx; reflexivity). simpl.
    erewrite lru_alter_run by (simpl; rewrite !lookup_alter_ne by done; exact Henh). simpl.
    unfold moved_heap. rewrite Ehd. fold h1 h2.
    destruct A as [|a A]; injection Ehd as <-; done.
  - eapply lru_rep_permute; [exact Hr|..|exact Hdom']; try done.
    + symmetry. apply Permutation_middle.
    + simpl. unfold tl. destruct B as [|b B] using rev_ind.
      * rewrite app_nil_r, last_or_cons, last_or_snoc. done.
      * rewrite Ht. rewrite last_or_cons, !last_or_app, last_or_cons.
        destruct B; simpl; by rewrite ?last_or_cons, ?last_or_snoc.
Qed.

(** *** Unlinking *)

Definition relink_next (q : option nat) (A : list lnode) (h : gmap nat lru_linklist_entry) :=
  match last A with Some y => alter (le_set_next q) (ln_p y) h | None => h end.

Lemma relink_next_dom q A h : dom (relink_next q A h) = dom h.
Proof. unfold relink_next. destruct (last A); [apply dom_alter_L|done]. Qed.

Lemma last_in_addrs A y : last A = Some y -> ln_p y ∈ addrs A.
Proof. intros Hl. by apply (list_elem_of_fmap_2 ln_p), last_Some_elem_of. Qed.

(** The list without [x], in the heap where its neighbours skip it. *)
Definition unlinked_heap A B h := relink_prev (last_or None A) B (relink_next (first_or B None) A h).

Lemma unlinked_heap_seg A x B h :
  NoDup (addrs (A ++ x :: B)) -> dseg h None (A ++ x :: B) None ->
  dseg (unlinked_heap A B h) None (A ++ B) None /\ dom (unlinked_heap A B h) = dom h /\
  unlinked_heap A B h !! ln_p x = Some (mk_lru_entry (ln_k x) (first_or B None) (last_or None A)).
Proof.
  intros Hnd Hs. destruct (addrs_split _ _ _ Hnd) as (HxA & HxB & HBA & HAB & NA & NB).
  apply dseg_app in Hs as [HsA [Hx HsB]]. unfold unlinked_heap. split; [|split].
  - apply dseg_app. split.
    + rewrite dseg_relink_frame by done. unfold relink_next.
      destruct A as [|y A _] using rev_ind; [done|]. rewrite last_snoc.
      eapply dseg_set_next; [|done]. rewrite fmap_app in NA. apply NoDup_app in NA as (_ & Hd & _).
      intros Hin. apply (Hd _ Hin). left.
    + apply dseg_set_prev with (pr := Some (ln_p x)); [done|]. unfold relink_next.
      destruct (last A) as [y|] eqn:Hl; [|done]. apply dseg_frame; [|done].
      intros Hin. apply (HBA _ Hin). by apply last_in_addrs.
  - by rewrite relink_prev_dom, relink_next_dom.
  - rewrite relink_prev_lookup_ne by done. unfold relink_next.
    destruct (last A) as [y|] eqn:Hl; [|done]. rewrite lookup_alter_ne; [done|].
    intros E. apply HxA. rewrite <- E. by apply last_in_addrs.
Qed.

(** The list structure alone, without the container. *)
Record lru_list (s : lru_var_hash_map_impl) (L : list lnode) : Prop := {
  ll_addrs : NoDup (addrs L);
  ll_seg : dseg (lru_heap s) None L None;
  ll_head : lru_head s = first_or L None;
  ll_tail : lru_tail s = last_or None L;
  ll_dom : dom (lru_heap s) = list_to_set (addrs L)
}.

Lemma lru_rep_list s L : lru_rep s L -> lru_list s L.
Proof. intros []. by split. Qed.

(** The state after [evict_entry] has unlinked [x], before [x] is dropped. *)
Definition unlinked (s : lru_var_hash_map_impl) (A B : list lnode) : lru_var_hash_map_impl :=
  lru_set_heap (lru_set_tail (lru_set_head s (first_or (A ++ B) None)) (last_or None (A ++ B)))
    (unlinked_heap A B (lru_heap s)).

Lemma lru_eta s h t hp :
  lru_head s = h -> lru_tail s = t -> lru_heap s = hp ->
  lru_set_heap (lru_set_tail (lru_set_head s h) t) hp = s.
Proof. by destruct s; simpl; intros -> -> ->. Qed.

Lemma evict_entry_run s A x B e :
  lru_list s (A ++ x :: B) ->
  evict_entry (ln_p x) s e = lru_drop (ln_p x) (unlinked s A B) e.
Proof.
  intros [Ha Hseg Hh Ht Hd]. destruct (addrs_split _ _ _ Ha) as (HxA & HxB & HBA & HAB & NA & NB).
  assert (Hin : forall z, z ∈ addrs (A ++ x :: B) -> is_Some (lru_heap s !! z)).
  { intros z Hz. apply elem_of_dom. rewrite Hd. by apply elem_of_list_to_set. }
  assert (Hx : lru_heap s !! ln_p x = Some (mk_lru_entry (ln_k x) (first_or B None) (last_or None A)))
    by (by apply dseg_app in Hseg as [_ [Hx _]]).
  assert (HinA : forall y, ln_p y ∈ addrs A -> is_Some (lru_heap s !! ln_p y)).
  { intros y Hy. apply Hin. rewrite fmap_app. apply elem_of_app. by left. }
  assert (HinB : forall y, ln_p y ∈ addrs B -> is_Some (lru_heap s !! ln_p y)).
  { intros y Hy. apply Hin. rewrite fmap_app. apply elem_of_app. right. by right. }
  unfold evict_entry. mbase. rewrite (lru_at_run _ _ _ _ Hx). rewrite Hh, Ht.
  rewrite last_or_app, last_or_cons. cbn [le_next le_prev]. unfold unlinked, unlinked_heap.
  destruct B as [|b B].
  - rewrite decide_True by done. rewrite app_nil_r. simpl (first_or [] None).
    destruct A as [|y A _] using rev_ind.
    + rewrite decide_True by done. simpl. destruct s; reflexivity.
    + rewrite decide_False.
      2:{ intros E. apply HxA. destruct A; injection E as ->; left. }
      rewrite last_or_snoc. destruct (HinA y) as [eny Hy].
      { rewrite fmap_app. apply elem_of_app. right. left. }
      rewrite (lru_lock_run _ _ _ _ Hy). unfold lru_non_null, need. mbase.
      rewrite (lru_alter_run _ _ _ _ _ Hy). unfold relink_next. rewrite last_snoc. simpl.
      f_equal. rewrite first_or_app in Hh. destruct s; simpl in *. rewrite Hh. by destruct A.
  - rewrite decide_False.
    2:{ intros E. apply HxB. destruct B as [|c B _] using rev_ind.
        - injection E as ->. left.
        - rewrite last_or_cons, last_or_snoc in E. injection E as ->.
          rewrite fmap_cons, fmap_app. right. apply elem_of_app. right. left. }
    destruct (HinB b) as [enb Hb]; [left|].
    destruct A as [|y A _] using rev_ind.
    + rewrite decide_True by done. simpl. unfold lru_non_null, need. mbase.
      rewrite (lru_alter_run _ _ _ _ _ Hb). simpl. f_equal. destruct s; simpl in *.
      by rewrite Ht, !last_or_cons.
    + rewrite decide_False.
      2:{ intros E. apply HxA. destruct A; injection E as ->; left. }
      rewrite last_or_snoc. destruct (HinA y) as [eny Hy].
      { rewrite fmap_app. apply elem_of_app. right. left. }
      rewrite (lru_lock_run _ _ _ _ Hy). unfold lru_non_null, need. mbase.
      rewrite (lru_alter_run _ _ _ _ _ Hy). simpl.
      destruct (dom_alter_is_Some (lru_heap s) (le_set_next (Some (ln_p b))) (ln_p y) (ln_p b))
        as [enb' Hb']; [eauto|].
      erewrite lru_alter_run by (simpl; exact Hb'). unfold relink_next. rewrite last_snoc. simpl.
      f_equal. destruct s; simpl in *.
      rewrite Hh, Ht, !last_or_app, !last_or_cons. by destruct A.
Qed.

(** *** Freeing *)

Lemma lru_drop_referenced s p e : lru_referenced s p = true -> lru_drop p s e = Ok tt s e.
Proof. intros Hr. unfold lru_drop. mbase. simpl. by rewrite Hr. Qed.

Lemma referenced_by_map s L x :
  lru_map_impl s ≡ₚ ln_hash <$> L -> x ∈ L -> lru_referenced s (ln_p x) = true.
Proof.
  intros Hm Hx. unfold lru_referenced. apply orb_true_iff. left. apply orb_true_iff. right.
  apply existsb_exists. exists (ln_hash x). split; [|by apply bool_decide_true].
  apply list_elem_of_In. rewrite Hm. by apply list_elem_of_fmap_2.
Qed.

(** No shared pointer refers to an entry outside the list. *)
Lemma garbage_unreferenced s L p en :
  dseg (lru_heap s) None L None -> lru_head s = first_or L None -> lru_tail s = last_or None L ->
  p ∉ addrs L -> lru_map_impl s ≡ₚ ln_hash <$> L ->
  dom (lru_heap s) = {[p]} ∪ list_to_set (addrs L) ->
  lru_heap s !! p = Some en -> (forall n, le_next en = Some n -> n ∈ addrs L) ->
  lru_referenced s p = false.
Proof.
  intros Hs Hh Ht Hp Hm Hd Hen Hnx. unfold lru_referenced. rewrite Hh, Ht. rewrite !orb_false_iff.
  split_and!.
  - apply bool_decide_false. destruct L; [done|]. intros [= <-]. apply Hp. left.
  - apply bool_decide_false. unfold last_or. destruct (last L) as [y|] eqn:Hl; [|done].
    intros [= <-]. apply Hp. by apply last_in_addrs.
  - apply not_true_is_false. rewrite existsb_exists. intros ([k [v q]] & Hin & Hq).
    apply bool_decide_eq_true in Hq. simpl in Hq. subst q. apply list_elem_of_In in Hin.
    rewrite Hm in Hin. apply list_elem_of_fmap in Hin as (x & [= -> -> ->] & Hx).
    apply Hp. by apply list_elem_of_fmap_2.
  - apply not_true_is_false. rewrite existsb_exists. intros ([q eq] & Hin & Hq).
    apply bool_decide_eq_true in Hq. simpl in Hq.
    apply list_elem_of_In, elem_of_map_to_list in Hin.
    assert (q ∈ dom (lru_heap s)) as Hqd by (apply elem_of_dom; eauto).
    rewrite Hd in Hqd. apply elem_of_union in Hqd as [->%elem_of_singleton|Hq'%elem_of_list_to_set].
    + rewrite Hen in Hin. injection Hin as <-. apply Hp. by apply Hnx.
    + apply list_elem_of_fmap in Hq' as (x & -> & Hx).
      destruct (dseg_lookup _ _ _ _ _ Hs Hx) as (en' & He' & _ & Hn). rewrite Hin in He'.
      injection He' as <-. destruct Hn as [Hn|(y & Hy & Hn)]; rewrite Hq in Hn; [done|].
      injection Hn as ->. apply Hp. by apply list_elem_of_fmap_2.
Qed.

Lemma lru_drop_garbage s L p en e :
  dseg (lru_heap s) None L None -> lru_head s = first_or L None -> lru_tail s = last_or None L ->
  p ∉ addrs L -> lru_map_impl s ≡ₚ ln_hash <$> L ->
  dom (lru_heap s) = {[p]} ∪ list_to_set (addrs L) ->
  lru_heap s !! p = Some en -> (forall n, le_next en = Some n -> n ∈ addrs L) ->
  lru_drop p s e = Ok tt (lru_set_heap s (delete p (lru_heap s))) e.
Proof.
  intros Hs Hh Ht Hp Hm Hd Hen Hnx. unfold lru_drop. mbase. f_equal. cbn [lru_release].
  rewrite (garbage_unreferenced s L p en) by done. rewrite Hen.
  destruct (le_next en) as [n|] eqn:Hn; [|done]. destruct (size (lru_heap s)); [done|].
  cbn [lru_release]. specialize (Hnx n eq_refl). apply list_elem_of_fmap in Hnx as (x & -> & Hx).
  by rewrite (referenced_by_map _ L x).
Qed.

(** *** Removing a node *)

Section remove.
Variables (s : lru_var_hash_map_impl) (A B : list lnode) (x : lnode).
Variable m : list (bytes * hash_map_value).
Hypothesis Hrep : lru_rep s (A ++ x :: B).
Hypothesis Hm : m ≡ₚ ln_hash <$> (A ++ B).

(** Unlinked, removed from the container and freed. *)
Definition removed : lru_var_hash_map_impl :=
  lru_set_heap (lru_set_map (unlinked s A B) m) (delete (ln_p x) (unlinked_heap A B (lru_heap s))).

Lemma remove_addrs : ln_p x ∉ addrs (A ++ B).
Proof using Hrep.
  destruct (addrs_split _ _ _ (lr_addrs _ _ Hrep)) as (HA & HB & _).
  rewrite fmap_app. intros [?|?]%elem_of_app; done.
Qed.

Lemma unlinked_dom :
  dom (unlinked_heap A B (lru_heap s)) = {[ln_p x]} ∪ list_to_set (addrs (A ++ B)).
Proof using Hrep.
  destruct (unlinked_heap_seg A x B (lru_heap s) (lr_addrs _ _ Hrep) (lr_seg _ _ Hrep))
    as (_ & -> & _). rewrite (lr_dom _ _ Hrep).
  apply set_eq. intros z. rewrite elem_of_union, elem_of_singleton, !elem_of_list_to_set.
  rewrite !fmap_app, fmap_cons, !elem_of_app, elem_of_cons. tauto.
Qed.

Lemma drop_removed e : lru_drop (ln_p x) (lru_set_map (unlinked s A B) m) e = Ok tt removed e.
Proof using Hrep Hm.
  destruct (unlinked_heap_seg A x B (lru_heap s) (lr_addrs _ _ Hrep) (lr_seg _ _ Hrep))
    as (Hs & _ & Hx).
  erewrite (lru_drop_garbage _ (A ++ B)); simpl; try done.
  - apply remove_addrs.
  - apply unlinked_dom.
  - simpl. intros n Hn. rewrite fmap_app. apply elem_of_app. right.
    destruct B; [done|]. injection Hn as <-. left.
Qed.

Lemma removed_rep : lru_rep removed (A ++ B).
Proof using Hrep Hm.
  destruct (unlinked_heap_seg A x B (lru_heap s) (lr_addrs _ _ Hrep) (lr_seg _ _ Hrep))
    as (Hs & _ & _).
  assert (A ++ x :: B ≡ₚ x :: A ++ B) as Hp by (symmetry; apply Permutation_middle).
  pose proof Hrep as [_ Hk Ha _ _ _ _ Hl Hx]. rewrite Hp in Hk, Ha, Hl, Hx.
  apply NoDup_cons in Hk as [_ Hk]. apply NoDup_cons in Ha as [Hxa Ha].
  apply Forall_cons in Hl as [_ Hl]. split; simpl; try done.
  - by apply dseg_delete_frame.
  - rewrite dom_delete_L, unlinked_dom. apply set_eq. intros z.
    rewrite elem_of_difference, elem_of_union, elem_of_singleton, elem_of_list_to_set.
    split; [tauto|]. intros Hz. split; [tauto|]. intros ->. by apply remove_addrs.
  - simpl in Hx. lia.
Qed.

Lemma removed_same : lru_same s removed.
Proof. done. Qed.

End remove.

(** *** Inserting a node *)

Lemma insert_new_entry_run `{UnorderedMap} s L k v e :
  lru_rep s L -> k ∉ ln_k <$> L -> length k = lru_key_size s -> length v = lru_value_size s ->
  Z.of_nat (length L) < lru_max_entries s ->
  exists p s', insert_new_entry k s e = Ok p s' e /\ lru_same s s' /\
    lru_rep (lru_set_map s' (um_place k (v, p) (lru_map_impl s'))) (mk_lnode p k v :: L).
Proof.
  intros Hr Hk Lk Lv Hlt. pose proof Hr as [Hm Hks Ha Hseg Hh Ht Hd Hl Hx].
  set (p := fresh (dom (lru_heap s))).
  assert (p ∉ dom (lru_heap s)) as Hp by apply is_fresh.
  assert (p ∉ addrs L) as HpL by (rewrite Hd in Hp; by rewrite elem_of_list_to_set in Hp).
  set (x := mk_lnode p k v).
  set (h' := relink_prev (Some p) L (<[p := mk_lru_entry k (first_or L None) None]> (lru_heap s))).
  set (s' := lru_set_heap (lru_set_tail (lru_set_head s (Some p)) (last_or None (x :: L))) h').
  exists p, s'. split; [|split; [done|]].
  - unfold insert_new_entry. mbase. fold p. rewrite Hh. unfold s', h'. destruct L as [|y L]; simpl.
    + done.
    + erewrite lru_alter_run by (simpl; apply lookup_insert_eq). simpl.
      assert (p <> ln_p y) as Hne by (intros E; apply HpL; rewrite E; left).
      destruct Hseg as [Hy _].
      erewrite lru_alter_run
        by (simpl; rewrite lookup_alter_ne, lookup_insert_ne by done; exact Hy).
      simpl. f_equal. rewrite alter_insert_eq. destruct s; simpl in *. rewrite Ht. done.
  - split; simpl; try done.
    + rewrite um_place_perm, Hm. done.
    + by apply NoDup_cons.
    + by apply NoDup_cons.
    + split.
      * unfold h'. rewrite relink_prev_lookup_ne by done. apply lookup_insert_eq.
      * unfold h'. apply dseg_set_prev with (pr := None); [done|]. by apply dseg_insert_frame.
    + unfold h'. rewrite relink_prev_dom, dom_insert_L, Hd. done.
    + by constructor.
    + lia.
Qed.

(** ** The operations against the abstract list *)

Lemma um_find_split {V} k (v : V) l1 l2 :
  k ∉ l1.*1 -> um_find k (l1 ++ (k, v) :: l2) = Some v /\
  um_erase k (l1 ++ (k, v) :: l2) = l1 ++ l2.
Proof.
  induction l1 as [|[k' v'] l1 IH]; simpl; [by rewrite !decide_True by done|].
  intros [Hne Hk]%not_elem_of_cons. rewrite !decide_False by (by intros ->).
  destruct (IH Hk) as [-> ->]. done.
Qed.

Lemma ln_pair_keys L : (ln_pair <$> L).*1 = ln_k <$> L.
Proof. rewrite <- list_fmap_compose. done. Qed.

(** The node of a key in the container, in the list and in the abstract list. *)
Lemma lru_rep_find s L k :
  lru_rep s L ->
  match um_find k (lru_map_impl s) with
  | Some (v, p) => exists A B, L = A ++ mk_lnode p k v :: B /\
      um_find k (ln_pair <$> L) = Some v /\ um_erase k (ln_pair <$> L) = ln_pair <$> (A ++ B)
  | None => um_find k (ln_pair <$> L) = None /\ k ∉ ln_k <$> L
  end.
Proof.
  intros Hr. destruct (um_find k (lru_map_impl s)) as [[v p]|] eqn:Hf.
  - apply um_find_elem in Hf. rewrite (lr_map _ _ Hr) in Hf.
    apply list_elem_of_fmap in Hf as ([p' k' v'] & [= -> -> ->] & Hin).
    apply list_elem_of_split in Hin as (A & B & ->). exists A, B. split; [done|].
    pose proof (lr_keys _ _ Hr) as Hk. rewrite fmap_app, fmap_cons in Hk.
    apply NoDup_app in Hk as (_ & Hd & _).
    assert (k' ∉ (ln_pair <$> A).*1) as HkA.
    { rewrite ln_pair_keys. intros Hin. apply (Hd _ Hin). left. }
    rewrite !fmap_app, fmap_cons. by apply um_find_split.
  - assert (k ∉ ln_k <$> L) as Hk.
    { apply um_find_None in Hf. rewrite (lr_map _ _ Hr) in Hf. intros Hin. apply Hf.
      rewrite <- list_fmap_compose. exact Hin. }
    split; [|done]. apply um_find_None. by rewrite ln_pair_keys.
Qed.

Lemma lru_wf s L : lru_rep s L -> um_wf (lru_map_impl s).
Proof.
  intros Hr. eapply um_perm_wf; [apply (lr_map _ _ Hr)|]. unfold um_wf.
  rewrite <- list_fmap_compose. apply (lr_keys _ _ Hr).
Qed.

Lemma lru_rep_key_vec s L k : lru_rep s L -> lru_rep (lru_set_key_vec s k) L.
Proof. intros []. by split. Qed.

Lemma lru_rep_value_vec s L v : lru_rep s L -> lru_rep (lru_set_value_vec s v) L.
Proof. intros []. by split. Qed.

Lemma lru_assign_key_run key k s e :
  points_to key k -> length k = lru_key_size s ->
  lru_assign_key key s e = Ok k (lru_set_key_vec s k) e.
Proof. intros. unfold lru_assign_key. mbase. by rewrite (deref_len _ _ k) by done. Qed.

(** Overwriting the value of a node. *)
Lemma lru_rep_assign s A B p k v w :
  lru_rep s (A ++ mk_lnode p k v :: B) -> length w = lru_value_size s ->
  lru_rep (lru_set_map s (um_assign k (w, p) (lru_map_impl s))) (A ++ mk_lnode p k w :: B).
Proof.
  intros Hr Lw. pose proof (lru_wf _ _ Hr) as Hwf.
  destruct Hr as [Hm Hk Ha Hseg Hh Ht Hd Hl Hx].
  rewrite fmap_app, fmap_cons in Hm. rewrite <- Permutation_middle in Hm.
  destruct (um_erase_perm_of k (v, p) _ _ Hwf Hm) as [He Hf].
  split; simpl; try done.
  - rewrite (um_assign_perm _ _ _ _ Hf), He. rewrite fmap_app, fmap_cons.
    apply Permutation_middle.
  - by rewrite fmap_app, fmap_cons in Hk |- *.
  - by rewrite fmap_app, fmap_cons in Ha |- *.
  - by rewrite dseg_app in Hseg |- *.
  - rewrite Hh. by destruct A.
  - by rewrite Ht, !last_or_app, !last_or_cons.
  - by rewrite fmap_app, fmap_cons in Hd |- *.
  - apply Forall_app in Hl as [HA [Hn HB]%Forall_cons]. apply Forall_app. split; [done|].
    apply Forall_cons. split; [|done]. simpl in *. by split; [apply Hn|].
  - by rewrite length_app in Hx |- *.
Qed.

(** Evicting the last node, as a full map does before an insertion. *)
Lemma lru_evict_last s A x e :
  lru_rep s (A ++ [x]) ->
  exists s1 s2, lru_tail s = Some (ln_p x) /\
    lru_heap s !! ln_p x = Some (mk_lru_entry (ln_k x) None (last_or None A)) /\
    lru_erase (ln_k x) s e = Ok tt s1 e /\ lru_tail s1 = Some (ln_p x) /\
    evict_entry (ln_p x) s1 e = Ok tt s2 e /\ lru_rep s2 A /\ lru_same s s2.
Proof.
  intros Hr. pose proof (lru_wf _ _ Hr) as Hwf. pose proof (lr_map _ _ Hr) as Hm.
  assert (lru_tail s = Some (ln_p x)) as Ht by (rewrite (lr_tail _ _ Hr); apply last_or_snoc).
  rewrite fmap_app in Hm. rewrite Permutation_app_comm in Hm.
  destruct (um_erase_perm_of (ln_k x) (ln_v x, ln_p x) _ _ Hwf Hm) as [He Hf].
  set (m := um_erase (ln_k x) (lru_map_impl s)).
  assert (m ≡ₚ ln_hash <$> (A ++ [])) as Hm' by (by rewrite app_nil_r).
  exists (lru_set_map s m), (removed s A [] x m).
  split; [done|]. split.
  { pose proof (lr_seg _ _ Hr) as Hs. apply dseg_app in Hs as [_ [Hx _]]. exact Hx. }
  split.
  { unfold lru_erase. mbase. rewrite Hf. rewrite lru_drop_referenced; [done|].
    unfold lru_referenced. simpl. rewrite Ht. rewrite (bool_decide_true (Some _ = _)) by done.
    by rewrite orb_true_r. }
  split; [done|]. split.
  { rewrite (evict_entry_run _ A x []).
    - exact (drop_removed s A [] x m Hr Hm' e).
    - destruct (lru_rep_list _ _ Hr). by split. }
  split; [|done]. pose proof (removed_rep s A [] x m Hr Hm') as HR. by rewrite app_nil_r in HR.
Qed.

(** ** Theorems *)

(** An update of a map holding [l], most recently used first: the errno or the
    new contents. A full map loses its least recently used pair. *)
Definition spec_lru_update (max : Z) (k v : bytes) (flags : Z) (l : list (bytes * bytes))
    : Z + list (bytes * bytes) :=
  if negb (is_good_update_flag flags) then inl EINVAL
  else match um_find k l with
       | Some _ => if flags =? BPF_NOEXIST then inl EEXIST else inr ((k, v) :: um_erase k l)
       | None =>
           if flags =? BPF_EXIST then inl ENOENT
           else inr ((k, v) :: if Z.of_nat (length l) =? max then removelast l else l)
       end.

(** LRU hash map, lookup: a stored key is found and becomes the most recently
    used one, keeping its value; an absent key gives null and ENOENT and the
    order does not change. The linked list, the heap and the hash table stay
    consistent. *)
Theorem lru_lookup_refines s l key k e :
  lru_rel s l -> points_to key k -> length k = lru_key_size s ->
  exists s', lru_same s s' /\
    match um_find k l with
    | Some v => lru_elem_lookup key s e = Ok (VNode k 0) s' e /\ lru_rel s' ((k, v) :: um_erase k l)
    | None => lru_elem_lookup key s e = Ok VNull s' ENOENT /\ lru_rel s' l
    end.
Proof.
  intros (L & Hr & ->) Hk Lk. unfold lru_elem_lookup. mbase.
  rewrite (lru_assign_key_run _ k) by done. apply (lru_rep_key_vec _ _ k) in Hr.
  pose proof (lru_rep_find _ L k Hr) as Hf.
  destruct (um_find k (lru_map_impl _)) as [[v p]|] eqn:Hm.
  - destruct Hf as (A & B & -> & -> & ->).
    destruct (move_to_head_run _ A (mk_lnode p k v) B e Hr) as (s' & Hrun & Hr' & Hs & _).
    exists s'. split; [done|]. simpl in Hrun. rewrite Hrun. split; [done|]. by eexists.
  - destruct Hf as [-> _]. eexists. split; [|split; [done|by exists L]]. done.
Qed.

(** C15. LRU hash map, update: the flags are checked as in linux/bpf.h; a stored
    key gets the new value and becomes the most recently used one; a new key goes
    to the front, and a full map first loses its least recently used key. The
    size never exceeds max_entries and no list entry is leaked. *)
Theorem lru_update_refines `{UnorderedMap} s l key value k v flags e :
  lru_rel s l -> 0 < lru_max_entries s -> points_to key k -> points_to value v ->
  length k = lru_key_size s -> length v = lru_value_size s ->
  let o := spec_lru_update (lru_max_entries s) k v flags l in
  exists s', lru_elem_update key value flags s e = Ok (spec_ret o) s' (spec_errno o e) /\
    lru_same s s' /\ lru_rel s' (match o with inl _ => l | inr l' => l' end).
Proof.
  intros (L & Hr & ->) Hmax Hk Hv Lk Lv. cbv zeta. unfold lru_elem_update, spec_lru_update.
  destruct (is_good_update_flag flags); cbn [negb].
  2:{ exists s. split; [done|]. split; [done|]. by exists L. }
  mbase. rewrite (lru_assign_key_run _ k) by done. apply (lru_rep_key_vec _ _ k) in Hr.
  set (s0 := lru_set_key_vec s k) in *. change (lru_max_entries s) with (lru_max_entries s0) in *.
  change (lru_value_size s) with (lru_value_size s0) in *.
  pose proof (lru_rep_find _ L k Hr) as Hf. rewrite length_fmap.
  assert (length (lru_map_impl s0) = length L) as Hlen
    by (rewrite (lr_map _ _ Hr); apply length_fmap).
  destruct (um_find k (lru_map_impl s0)) as [[v0 p]|] eqn:Hm.
  - rewrite bool_decide_true by eauto. cbn [negb andb]. rewrite andb_true_r, andb_false_r.
    destruct Hf as (A & B & HL & Hfl & Hel). rewrite Hfl, Hel. destruct (flags =? BPF_NOEXIST).
    { exists s0. split; [done|]. split; [done|]. by exists L. }
    rewrite HL in Hr. rewrite (deref_len _ _ v) by done.
    pose proof (lru_rep_assign _ _ _ _ _ _ v Hr Lv) as Hr1.
    destruct (move_to_head_run _ A (mk_lnode p k v) B e Hr1) as (s' & Hrun & Hr' & Hs & _).
    simpl in Hrun. simpl. rewrite Hrun. exists s'. split; [done|]. split; [done|]. by eexists.
  - rewrite bool_decide_false by (by intros [? [=]]). cbn [negb andb].
    rewrite andb_true_r, andb_false_r. destruct Hf as [-> Hkn]. destruct (flags =? BPF_EXIST).
    { exists s0. split; [done|]. split; [done|]. by exists L. }
    rewrite Hlen. destruct (Z.of_nat (length L) =? lru_max_entries s0) eqn:Hfull.
    + apply Z.eqb_eq in Hfull. destruct L as [|x A _] using rev_ind; [simpl in *; lia|].
      destruct (lru_evict_last s0 A x e Hr) as (s1 & s2 & Ht & Hx & Her & Ht1 & Hev & Hr2 & E1 & E2 & E3).
      rewrite Ht. unfold lru_non_null, need. mbase. rewrite (lru_at_run _ _ _ _ Hx). cbn [le_key].
      rewrite Her, Ht1. mbase. rewrite Hev. rewrite (deref_len _ _ v) by (done || congruence).
      apply (lru_rep_value_vec _ _ v) in Hr2.
      assert (k ∉ ln_k <$> A) as HkA.
      { rewrite fmap_app in Hkn. intros Hin. apply Hkn, elem_of_app. by left. }
      rewrite length_app in Hfull. simpl in Hfull, E1, E2, E3.
      destruct (insert_new_entry_run _ A k v e Hr2 HkA) as (p & s' & Hins & Hs & Hr');
        [simpl in *; congruence || lia..|].
      rewrite Hins. eexists. split; [done|]. split; [unfold lru_same in *; simpl in *; intuition congruence|].
      eexists. split; [exact Hr'|]. rewrite fmap_app. simpl. by rewrite removelast_last.
    + simpl. rewrite (deref_len _ _ v) by done. apply (lru_rep_value_vec _ _ v) in Hr.
      pose proof (lr_max _ _ Hr) as Hmx. simpl in Hmx.
      destruct (insert_new_entry_run _ L k v e Hr Hkn) as (p & s' & Hins & Hs & Hr');
        [simpl in *; done || (apply Z.eqb_neq in Hfull; lia)..|].
      rewrite Hins. eexists. split; [done|]. split; [done|]. by eexists.
Qed.

(** LRU hash map, delete: a stored key is removed from the hash table and the
    list, its list entry is freed and the order of the others kept; an absent key
    gives -1 and ENOENT. *)
Theorem lru_delete_refines s l key k e :
  lru_rel s l -> points_to key k -> length k = lru_key_size s ->
  exists s', lru_same s s' /\ lru_rel s' (um_erase k l) /\
    lru_elem_delete key s e =
    match um_find k l with Some _ => Ok 0 s' e | None => Ok (-1) s' ENOENT end.
Proof.
  intros (L & Hr & ->) Hk Lk. unfold lru_elem_delete. mbase.
  rewrite (lru_assign_key_run _ k) by done. apply (lru_rep_key_vec _ _ k) in Hr.
  set (s0 := lru_set_key_vec s k) in *. pose proof (lru_rep_find _ L k Hr) as Hf.
  destruct (um_find k (lru_map_impl s0)) as [[v p]|] eqn:Hm.
  - destruct Hf as (A & B & -> & -> & ->). pose proof (lr_map _ _ Hr) as Hp.
    set (x := mk_lnode p k v) in *. set (m := um_erase k (lru_map_impl s0)).
    assert (m ≡ₚ ln_hash <$> (A ++ B)) as Hm'.
    { rewrite fmap_app, fmap_cons in Hp. rewrite <- Permutation_middle in Hp.
      destruct (um_erase_perm_of k (v, p) _ _ (lru_wf _ _ Hr) Hp) as [He _].
      unfold m. by rewrite He, fmap_app. }
    exists (removed s0 A B x m). split; [done|]. split.
    { exists (A ++ B). split; [by apply removed_rep|done]. }
    change p with (ln_p x). rewrite (evict_entry_run s0 A x B) by (by apply lru_rep_list).
    rewrite lru_drop_referenced.
    2:{ apply (referenced_by_map _ (A ++ x :: B)); [done|]. apply elem_of_app. right. left. }
    unfold lru_erase. mbase. change (lru_map_impl (unlinked s0 A B)) with (lru_map_impl s0). rewrite Hm.
    change (lru_set_map (unlinked s0 A B) _) with (lru_set_map (unlinked s0 A B) m).
    change p with (ln_p x). by rewrite (drop_removed s0 A B x m Hr Hm').
  - destruct Hf as [Hn _]. rewrite Hn. exists s0. split; [done|]. split; [|done].
    exists L. split; [done|]. by apply um_erase_absent.
Qed.

(** LRU hash map, iteration: [map_get_next_key] lists every stored key exactly
    once and does not touch the recency order. *)
Theorem lru_iteration `{UnorderedMap} s l e :
  lru_rel s l ->
  exists ks s', iterate_keys (S (length l)) None s e = Ok ks s' ENOENT /\
    lru_rel s' l /\ ks ≡ₚ l.*1 /\ NoDup ks.
Proof.
  intros (L & Hr & ->). pose proof (lru_wf _ _ Hr) as Hwf. set (m := lru_map_impl s) in *.
  destruct (um_iterate (S := lru_var_hash_map_impl) m
    (fun s' => lru_rep s' L /\ lru_same s s' /\ lru_map_impl s' = m) Hwf) with (s := s) (e := e)
    as (s' & (Hr' & _ & _) & Hit); [| |done|].
  - intros s1 e1 (Hr1 & Hs1 & Hl). exists s1. split; [done|].
    cbn [map_get_next_key lru_MapImpl]. unfold lru_map_get_next_key. mbase. by rewrite Hl.
  - intros s1 e1 k (Hr1 & Hs1 & Hl) Hk. exists (lru_set_key_vec s1 k).
    split; [split; [by apply lru_rep_key_vec|done]|].
    cbn [map_get_next_key lru_MapImpl]. unfold lru_map_get_next_key. mbase.
    subst m. rewrite (lr_map _ _ Hr), <- list_fmap_compose in Hk.
    apply list_elem_of_fmap in Hk as (x & -> & Hx).
    pose proof (lr_len _ _ Hr1) as Hlen. rewrite Forall_forall in Hlen.
    destruct (Hlen x Hx) as [Lk _].
    rewrite (lru_assign_key_run _ (ln_k x)) by (auto with bpf). by rewrite Hl.
  - exists m.*1, s'. rewrite length_fmap.
    assert (length m = length L) as <- by (subst m; rewrite (lr_map _ _ Hr); apply length_fmap).
    split; [done|]. split; [by exists L|]. split; [|done].
    subst m. rewrite (lr_map _ _ Hr), <- list_fmap_compose, ln_pair_keys. done.
Qed.

(** An LRU map created with max_entries = 0 counts as full while it is empty:
    every insertion dereferences the null tail pointer. *)
Theorem lru_zero_capacity ks vs key value k v flags e `{UnorderedMap} :
  points_to key k -> points_to value v ->
  length k = Z.to_nat ks -> length v = Z.to_nat vs ->
  flags = BPF_ANY \/ flags = BPF_NOEXIST ->
  lru_elem_update key value flags (lru_new ks vs 0) e = Ub "null pointer dereference".
Proof.
  intros Hk Hv Lk Lv Hf. unfold lru_elem_update.
  assert (is_good_update_flag flags = true) as -> by (destruct Hf; subst; done).
  mbase. cbn [negb]. rewrite (lru_assign_key_run _ k) by done. simpl.
  rewrite andb_false_r, andb_true_r. destruct Hf; subst; done.
Qed.

(** *** Witnesses *)

(** A full map of two entries: [2] was used last. *)
Definition small_lru : lru_var_hash_map_impl :=
  mk_lru [([1], ([11], 0%nat)); ([2], ([12], 1%nat))] (Some 1%nat) (Some 0%nat)
    (<[0%nat := mk_lru_entry [1] None (Some 1%nat)]>
      (<[1%nat := mk_lru_entry [2] (Some 0%nat) None]> ∅)) 1 1 2 [0] [0].

Lemma small_lru_rel : lru_rel small_lru [([2], [12]); ([1], [11])].
Proof.
  exists [mk_lnode 1 [2] [12]; mk_lnode 0 [1] [11]]. split; [|done].
  split; try done; try (vm_compute; lia).
  - apply Permutation_swap.
  - apply (bool_decide_unpack _). by vm_compute.
  - apply (bool_decide_unpack _). by vm_compute.
  - vm_compute. set_solver.
Qed.

Lemma lru_lookup_refines_witness :
  exists s', lru_same small_lru s' /\
    lru_elem_lookup (Some [1]) small_lru 0 = Ok (VNode [1] 0) s' 0 /\
    lru_rel s' [([1], [11]); ([2], [12])].
Proof.
  exact (lru_lookup_refines small_lru [([2], [12]); ([1], [11])] (Some [1]) [1] 0
    small_lru_rel (points_to_self _) eq_refl).
Defined.

Lemma lru_update_refines_witness :
  exists s', @lru_elem_update um_append (Some [3]) (Some [13]) BPF_ANY small_lru 0 = Ok 0 s' 0 /\
    lru_same small_lru s' /\ lru_rel s' [([3], [13]); ([2], [12])].
Proof.
  exact (@lru_update_refines um_append small_lru [([2], [12]); ([1], [11])] (Some [3]) (Some [13])
    [3] [13] BPF_ANY 0 small_lru_rel eq_refl (points_to_self _) (points_to_self _) eq_refl eq_refl).
Defined.

Lemma lru_delete_refines_witness :
  exists s', lru_same small_lru s' /\ lru_rel s' [([1], [11])] /\
    lru_elem_delete (Some [2]) small_lru 0 = Ok 0 s' 0.
Proof.
  exact (lru_delete_refines small_lru [([2], [12]); ([1], [11])] (Some [2]) [2] 0
    small_lru_rel (points_to_self _) eq_refl).
Defined.

Lemma lru_iteration_witness :
  exists ks s', @iterate_keys _ (@lru_MapImpl um_append) 3 None small_lru 0 = Ok ks s' ENOENT /\
    lru_rel s' [([2], [12]); ([1], [11])] /\ ks ≡ₚ [[2]; [1]] /\ NoDup ks.
Proof.
  exact (@lru_iteration um_append small_lru [([2], [12]); ([1], [11])] 0 small_lru_rel).
Defined.

Lemma lru_zero_capacity_witness :
  @lru_elem_update um_append (Some [3]) (Some [13]) BPF_ANY (lru_new 1 1 0) 0 =
  Ub "null pointer dereference".
Proof.
  exact (@lru_zero_capacity 1 1 (Some [3]) (Some [13]) [3] [13] BPF_ANY 0 um_append
    (points_to_self _) (points_to_self _) eq_refl eq_refl (or_introl eq_refl)).
Defined.
