(* ===== verification/FdArrays.v ===== *)
(** The maps of descriptors: [perf_event_array_map_impl]
    (bpf_map/userspace/perf_event_array_map.{hpp,cpp}) and [prog_array_map_impl]
    (bpf_map/userspace/prog_array.{hpp,cpp}), both a vector of [int32_t]. *)
From Stdlib Require Import ZArith Lia.
From stdpp Require Import base list gmap strings.
From S2P Require Import Prelude MapCommon.
Local Open Scope Z_scope.

Record i32_array := mk_i32_array { ia_data : list Z }.

Abbreviation IA := (M i32_array).

(** Both constructors: the vector is filled with -1; other sizes are refused. *)
Definition i32_array_new (key_size value_size max_entries : Z) : string + i32_array :=
  if negb (key_size =? 4) || negb (value_size =? 4)
  then inl "Key size and value size must be 4"%string
  else inr (mk_i32_array (replicate (Z.to_nat max_entries) (-1))).

(** [k < 0 || (size_t)k >= data.size()], an error in every operation. *)
Definition ia_bad_index (k : Z) (s : i32_array) : bool :=
  (k <? 0) || (Z.of_nat (length (ia_data s)) <=? k).

Definition ia_set (k v : Z) : IA unit :=
  modify (fun s => mk_i32_array (<[Z.to_nat k := v]> (ia_data s))).

(** [data[k] = -1], with its check. *)
Definition ia_elem_delete (key : ptr) : IA Z :=
  k ← deref_i32 key;
  s ← get;
  if ia_bad_index k s then fail_with EINVAL (-1)
  else ia_set k (-1);; mret 0.

(** [k + 1] is computed in [int] before the bounds are checked. *)
Definition ia_map_get_next_key (key : ptr) (next_key : bool) : IA (Z * option bytes) :=
  match key with
  | None => write_next_key next_key (le_encode 4 0)
  | Some _ =>
      k ← deref_i32 key;
      s ← get;
      if k =? 2 ^ 31 - 1 then ub "signed overflow"
      else if u64 (k + 1) =? Z.of_nat (length (ia_data s)) then fail_with ENOENT (-1, None)
      else if ia_bad_index k s then fail_with EINVAL (-1, None)
      else write_next_key next_key (le_encode 4 (k + 1))
  end.

(** *** perf_event_array_map_impl *)

Definition perf_elem_lookup (key : ptr) : IA vptr :=
  k ← deref_i32 key;
  s ← get;
  if ia_bad_index k s then fail_with EINVAL VNull
  else mret (VBuf (4 * Z.to_nat k)).

Definition perf_elem_update (key value : ptr) (flags : Z) : IA Z :=
  k ← deref_i32 key;
  s ← get;
  if ia_bad_index k s then fail_with EINVAL (-1)
  else
    v ← deref_i32 value;
    ia_set k v;;
    mret 0.

Definition perf_event_array_MapImpl : MapImpl i32_array := {|
  should_lock := true;
  elem_lookup := perf_elem_lookup;
  elem_update := perf_elem_update;
  elem_delete := ia_elem_delete;
  map_get_next_key := ia_map_get_next_key
|}.

(** *** prog_array_map_impl

    The kernel is reached through libc's [syscall]: [prog_fd n id] is the answer
    to the [n]-th BPF_PROG_GET_FD_BY_ID call in a row for [id], and [prog_info fd]
    that of BPF_OBJ_GET_INFO_BY_FD: an errno, or the id of the program. *)
Section prog_array.
Variable prog_fd : nat -> Z -> Z.
Variable prog_info : Z -> Z + Z.

Definition EAGAIN := 11.

(** [do { fd = .. } while (fd < 0 && fd == -EAGAIN && --attempts > 0)] after
    [n] calls: the result and the number of calls made. *)
Fixpoint my_bpf_syscall_fd (attempts n : nat) (id : Z) : Z * nat :=
  let fd := prog_fd n id in
  match attempts with
  | S (S _ as attempts') =>
      if (fd <? 0) && (fd =? - EAGAIN) then my_bpf_syscall_fd attempts' (S n) id else (fd, S n)
  | _ => (fd, S n)
  end.

Definition my_bpf_prog_get_fd_by_id (id : Z) : Z := (my_bpf_syscall_fd 5 0 (u32 id)).1.

(** The descriptor is stored in a thread-local [uint32_t], even when negative. *)
Definition prog_elem_lookup (key : ptr) : IA vptr :=
  k ← deref_i32 key;
  s ← get;
  if ia_bad_index k s then fail_with EINVAL VNull
  else
    id ← need "index outside data" (ia_data s !! Z.to_nat k);
    mret (VThread (u32 (my_bpf_prog_get_fd_by_id id))).

(** Accepts a descriptor, stores the id of its program. *)
Definition prog_elem_update (key value : ptr) (flags : Z) : IA Z :=
  k ← deref_i32 key;
  s ← get;
  if ia_bad_index k s then fail_with EINVAL (-1)
  else
    v ← deref_i32 value;
    match prog_info v with
    | inl err => fail_with err (-1)
    | inr id => ia_set k (s32 id);; mret 0
    end.

Definition prog_array_MapImpl : MapImpl i32_array := {|
  should_lock := false;
  elem_lookup := prog_elem_lookup;
  elem_update := prog_elem_update;
  elem_delete := ia_elem_delete;
  map_get_next_key := ia_map_get_next_key
|}.

End prog_array.

(** ** Lemmas *)

Lemma s32_u32 z : - 2 ^ 31 <= z < 2 ^ 31 -> s32 (u32 z) = z.
Proof.
  intros. unfold s32, wrap. destruct (decide (0 <= z)).
  - rewrite (Z.mod_small z) by lia. rewrite Z.mod_small; lia.
  - replace (z mod 2 ^ 32) with (z + 2 ^ 32) by (apply Z.mod_unique with (q := -1); lia).
    replace ((z + 2 ^ 32 + 2 ^ 31) mod 2 ^ 32) with (z + 2 ^ 31); [lia|].
    apply Z.mod_unique with (q := 1); lia.
Qed.

Lemma u32_s32 z : 0 <= z < 2 ^ 32 -> u32 (s32 z) = z.
Proof.
  intros. unfold s32, wrap. destruct (decide (z < 2 ^ 31)).
  - rewrite (Z.mod_small (z + _)) by lia. rewrite Z.mod_small; lia.
  - replace ((z + 2 ^ 31) mod 2 ^ 32) with (z - 2 ^ 31).
    + symmetry. apply Z.mod_unique with (q := -1); lia.
    + apply Z.mod_unique with (q := 1); lia.
Qed.

(** Reading an [int] argument. *)
Lemma deref_i32_points_to {S} p k (s : S) e :
  points_to p (le_encode 4 (u32 k)) -> - 2 ^ 31 <= k < 2 ^ 31 -> deref_i32 p s e = Ok k s e.
Proof.
  intros Hp Hk. unfold deref_i32. unfold mbind, M_bind.
  rewrite (deref_len 4 _ _ _ _ Hp) by apply length_le_encode. unfold mret, M_ret.
  pose proof (wrap_range 32 k). rewrite le_decode_encode by (simpl; lia). by rewrite s32_u32.
Qed.

(** The keys that name a slot. *)
Definition ia_valid (s : i32_array) (k : Z) : Prop := 0 <= k < Z.of_nat (length (ia_data s)).

Lemma ia_bad_index_iff k s : ia_bad_index k s = bool_decide (~ ia_valid s k).
Proof.
  unfold ia_bad_index, ia_valid. case_bool_decide; zify_bool; lia || (apply orb_false_iff; zify_bool; lia).
Qed.

Lemma ia_good_index k s : ia_valid s k -> ia_bad_index k s = false.
Proof. intros. rewrite ia_bad_index_iff. apply bool_decide_false. tauto. Qed.

Lemma ia_bad_index_true k s : ~ ia_valid s k -> ia_bad_index k s = true.
Proof. intros. rewrite ia_bad_index_iff. by apply bool_decide_true. Qed.

(** ** Theorems *)

(** Perf event array: update, lookup and delete work on the slots 0 .. size-1
    only, whatever the flags; any other key, negative ones included, gives EINVAL
    and changes nothing. *)
Theorem perf_array_refines s k v flags e :
  - 2 ^ 31 <= k < 2 ^ 31 -> - 2 ^ 31 <= v < 2 ^ 31 ->
  let key := Some (le_encode 4 (u32 k)) in
  let value := Some (le_encode 4 (u32 v)) in
  if decide (ia_valid s k) then
    perf_elem_update key value flags s e =
      Ok 0 (mk_i32_array (<[Z.to_nat k := v]> (ia_data s))) e /\
    perf_elem_lookup key s e = Ok (VBuf (4 * Z.to_nat k)) s e /\
    ia_elem_delete key s e = Ok 0 (mk_i32_array (<[Z.to_nat k := -1]> (ia_data s))) e
  else
    perf_elem_update key value flags s e = Ok (-1) s EINVAL /\
    perf_elem_lookup key s e = Ok VNull s EINVAL /\
    ia_elem_delete key s e = Ok (-1) s EINVAL.
Proof.
  intros Hk Hv. cbv zeta. unfold perf_elem_update, perf_elem_lookup, ia_elem_delete. mbase.
  rewrite (deref_i32_points_to _ k) by auto with bpf. case_decide as Hd.
  - rewrite (ia_good_index k s Hd). by rewrite (deref_i32_points_to _ v) by auto with bpf.
  - by rewrite (ia_bad_index_true k s Hd).
Qed.

(** Program array: an update stores the id of the program behind the
    descriptor, and a later lookup of the slot returns the descriptor the kernel
    gives for that id in this process; a descriptor the kernel does not know
    changes nothing. *)
Theorem prog_array_stores_id prog_fd prog_info s k v flags e :
  - 2 ^ 31 <= k < 2 ^ 31 -> - 2 ^ 31 <= v < 2 ^ 31 -> ia_valid s k ->
  (forall id, prog_info v = inr id -> 0 <= id < 2 ^ 32) ->
  let key := Some (le_encode 4 (u32 k)) in
  let value := Some (le_encode 4 (u32 v)) in
  match prog_info v with
  | inl err => prog_elem_update prog_info key value flags s e = Ok (-1) s err
  | inr id => exists s', prog_elem_update prog_info key value flags s e = Ok 0 s' e /\
      (forall j, j <> Z.to_nat k -> ia_data s' !! j = ia_data s !! j) /\
      prog_elem_lookup prog_fd key s' e =
        Ok (VThread (u32 ((my_bpf_syscall_fd prog_fd 5 0 id).1))) s' e
  end.
Proof.
  intros Hk Hv Hd Hid. cbv zeta. unfold prog_elem_update, prog_elem_lookup. mbase.
  rewrite (deref_i32_points_to _ k) by auto with bpf. rewrite (ia_good_index k s Hd).
  rewrite (deref_i32_points_to _ v) by auto with bpf.
  destruct (prog_info v) as [err|id] eqn:Hp; [done|]. eexists. split; [done|]. split.
  - intros j Hj. simpl. by rewrite list_lookup_insert_ne.
  - rewrite (deref_i32_points_to _ k) by auto with bpf.
    rewrite ia_good_index by (unfold ia_valid in *; simpl; by rewrite length_insert).
    cbn [ia_data]. rewrite list_lookup_insert_eq by (unfold ia_valid in Hd; lia). unfold need. mbase.
    unfold my_bpf_prog_get_fd_by_id. by rewrite u32_s32 by (by apply Hid).
Qed.

(** Iterating over a descriptor array of [n > 0] slots lists 0 .. n-1; the
    empty array still reports a first key 0, and the key INT_MAX overflows. *)
Theorem fd_array_next_key s k e :
  (length (ia_data s) < Z.to_nat (2 ^ 31))%nat -> - 2 ^ 31 <= k < 2 ^ 31 ->
  let n := Z.of_nat (length (ia_data s)) in
  ia_map_get_next_key None true s e = Ok (0, Some (le_encode 4 0)) s e /\
  ia_map_get_next_key (Some (le_encode 4 (u32 k))) true s e =
    if decide (k = 2 ^ 31 - 1) then Ub "signed overflow"
    else if decide (k + 1 = n) then Ok (-1, None) s ENOENT
    else if decide (0 <= k < n) then Ok (0, Some (le_encode 4 (k + 1))) s e
    else Ok (-1, None) s EINVAL.
Proof.
  intros Hlen Hk. split; [done|]. unfold ia_map_get_next_key. mbase.
  rewrite (deref_i32_points_to _ k) by auto with bpf. case_decide as H1.
  { by rewrite (proj2 (Z.eqb_eq _ _)) by lia. }
  rewrite (proj2 (Z.eqb_neq k _)) by lia. case_decide as H2.
  { rewrite wrap_small by lia. by rewrite (proj2 (Z.eqb_eq _ _)) by lia. }
  assert (u64 (k + 1) <> Z.of_nat (length (ia_data s))) as H3.
  { destruct (decide (0 <= k + 1)); [rewrite wrap_small by lia; lia|]. unfold wrap.
    replace ((k + 1) mod 2 ^ 64) with (k + 1 + 2 ^ 64); [lia|].
    apply Z.mod_unique with (q := -1); lia. }
  rewrite (proj2 (Z.eqb_neq (u64 _) _)) by done. case_decide as H4.
  - by rewrite (ia_good_index k s H4).
  - by rewrite (ia_bad_index_true k s H4).
Qed.

(** libc's [syscall] reports every failure as -1, so the retry loop of
    [my_bpf_syscall_fd], which waits for -EAGAIN, never makes a second call. *)
Theorem prog_array_never_retries prog_fd id :
  (forall n, -1 <= prog_fd n id) ->
  my_bpf_syscall_fd prog_fd 5 0 id = (prog_fd 0%nat id, 1%nat).
Proof.
  intros Hlibc. specialize (Hlibc 0%nat). unfold my_bpf_syscall_fd, EAGAIN. fold my_bpf_syscall_fd.
  cbv zeta. rewrite (proj2 (Z.eqb_neq _ (- 11))) by lia. by rewrite andb_false_r.
Qed.

(** *** Witnesses *)

Definition small_fds : i32_array := mk_i32_array [-1; -1; -1].

Lemma perf_array_refines_witness :
  perf_elem_update (Some (le_encode 4 2)) (Some (le_encode 4 9)) 0 small_fds 0 =
    Ok 0 (mk_i32_array [-1; -1; 9]) 0 /\
  perf_elem_lookup (Some (le_encode 4 2)) small_fds 0 = Ok (VBuf 8) small_fds 0 /\
  ia_elem_delete (Some (le_encode 4 2)) small_fds 0 = Ok 0 (mk_i32_array [-1; -1; -1]) 0.
Proof. refine (perf_array_refines small_fds 2 9 0 0 _ _); lia. Defined.

Lemma prog_array_stores_id_witness :
  exists s', prog_elem_update (fun fd => inr (fd + 100)) (Some (le_encode 4 1))
      (Some (le_encode 4 7)) 0 small_fds 0 = Ok 0 s' 0 /\
    (forall j, j <> 1%nat -> ia_data s' !! j = ia_data small_fds !! j) /\
    prog_elem_lookup (fun _ id => id - 100) (Some (le_encode 4 1)) s' 0 = Ok (VThread 7) s' 0.
Proof.
  refine (prog_array_stores_id (fun _ id => id - 100) (fun fd => inr (fd + 100)) small_fds
    1 7 0 0 _ _ _ _); [lia|lia|unfold ia_valid; simpl; lia|intros id [= <-]; lia].
Defined.

Lemma fd_array_next_key_witness :
  ia_map_get_next_key None true small_fds 0 = Ok (0, Some (le_encode 4 0)) small_fds 0 /\
  ia_map_get_next_key (Some (le_encode 4 1)) true small_fds 0 =
    Ok (0, Some (le_encode 4 2)) small_fds 0.
Proof. refine (fd_array_next_key small_fds 1 0 _ _); [simpl; lia|lia]. Defined.

Lemma prog_array_never_retries_witness : my_bpf_syscall_fd (fun _ _ => -1) 5 0 3 = (-1, 1%nat).
Proof. refine (prog_array_never_retries (fun _ _ => -1) 3 _). lia. Defined.
