(* ===== verification/Ringbuf.v ===== *)
(** [ringbuf] and [ringbuf_map_impl] (bpf_map/userspace/ringbuf_map.{hpp,cpp}):
    a byte ring with 8-byte record headers. The data region has [2 * max_ent]
    bytes; positions grow without bound and are taken modulo [max_ent]. *)
From Stdlib Require Import ZArith Lia.
From stdpp Require Import base list gmap strings.
From S2P Require Import Prelude MapCommon.
Local Open Scope Z_scope.

Definition BPF_RINGBUF_BUSY_BIT := 2147483648.
Definition BPF_RINGBUF_DISCARD_BIT := 1073741824.
Definition BPF_RINGBUF_HDR_SZ := 8.

Record ringbuf := mk_ringbuf {
  rb_max_ent : Z;
  rb_consumer_pos : Z;
  rb_producer_pos : Z;
  rb_data : bytes
}.

Abbreviation RB := (M ringbuf).

Definition rb_set_consumer (p : Z) (s : ringbuf) :=
  mk_ringbuf (rb_max_ent s) p (rb_producer_pos s) (rb_data s).
Definition rb_set_producer (p : Z) (s : ringbuf) :=
  mk_ringbuf (rb_max_ent s) (rb_consumer_pos s) p (rb_data s).
Definition rb_set_data (d : bytes) (s : ringbuf) :=
  mk_ringbuf (rb_max_ent s) (rb_consumer_pos s) (rb_producer_pos s) d.

Definition rb_mask (s : ringbuf) : Z := u32 (rb_max_ent s - 1).

(** The constructor: two pages for the positions and the data behind them; the
    size of the raw buffer is a 32-bit sum. *)
Definition ringbuf_new (page_size max_ent : Z) : ringbuf :=
  let raw := u32 (page_size * 2 + max_ent * 2) in
  mk_ringbuf max_ent 0 0 (zeros (Z.to_nat (raw - page_size * 2))).

(** [roundup_len(len)], in [__u32] arithmetic. *)
Definition roundup_len (len : Z) : Z :=
  let len := Z.shiftr (u32 (Z.shiftl len 2)) 2 in
  let len := u32 (len + BPF_RINGBUF_HDR_SZ) in
  u32 (len + 7) / 8 * 8.

(** 32-bit accesses to the data region. *)
Definition rb_load32 (off : Z) : RB Z :=
  s ← get;
  bs ← need "load outside the buffer" (read_range (Z.to_nat off) 4 (rb_data s));
  mret (le_decode bs).

Definition rb_store32 (off v : Z) : RB unit :=
  s ← get;
  d ← need "store outside the buffer" (write_range (Z.to_nat off) (le_encode 4 v) (rb_data s));
  put (rb_set_data d s).

Definition rb_reserve (size : Z) (self_fd : Z) : RB vptr :=
  if negb (Z.land size (Z.lor BPF_RINGBUF_BUSY_BIT BPF_RINGBUF_DISCARD_BIT) =? 0)
  then fail_with E2BIG VNull
  else
    s ← get;
    let cons_pos := rb_consumer_pos s in
    let prod_pos := rb_producer_pos s in
    let avail_size := u64 (rb_max_ent s - u64 (prod_pos - cons_pos)) in
    let total_size := u64 (size + BPF_RINGBUF_HDR_SZ + 7) / 8 * 8 in
    if rb_max_ent s <? total_size then fail_with E2BIG VNull
    else if avail_size <? total_size then fail_with ENOSPC VNull
    else
      let header := Z.land prod_pos (rb_mask s) in
      rb_store32 header (u32 (Z.lor size BPF_RINGBUF_BUSY_BIT));;
      rb_store32 (header + 4) (u32 self_fd);;
      modify (rb_set_producer (u64 (prod_pos + total_size)));;
      mret (VBuf (Z.to_nat (Z.land (u64 (prod_pos + BPF_RINGBUF_HDR_SZ)) (rb_mask s)))).

(** [submit(sample, discard)], [sample] being the offset [off] from [data]. *)
Definition rb_submit (off : nat) (discard : bool) : RB unit :=
  s ← get;
  let hdr_offset := u64 (u32 (rb_mask s + 1) + Z.of_nat off - BPF_RINGBUF_HDR_SZ) in
  let hdr := Z.land hdr_offset (rb_mask s) in
  len ← rb_load32 hdr;
  let new_len := Z.land len (2 ^ 32 - 1 - BPF_RINGBUF_BUSY_BIT) in
  rb_store32 hdr (if discard then Z.lor new_len BPF_RINGBUF_DISCARD_BIT else new_len).

(** How the inner loop of [fetch_data] ends: at a record that is not committed
    yet, on an error of the callback, or with everything consumed. *)
Inductive fetch_exit :=
| FetchBusy
| FetchError (err : Z)
| FetchDrained (got_new_data : bool) (cons_pos : Z).

Section fetch.
Variable cb : bytes -> Z.

(** [while (cons_pos < prod_pos)], collecting in [seen] what the callback saw;
    [cnt] is the length of [seen] when the callback accepted every sample. *)
Fixpoint fetch_inner (fuel : nat) (cons_pos prod_pos : Z) (got : bool) (seen : list bytes)
    : RB (fetch_exit * list bytes) :=
  match fuel with
  | O => ub "loop bound"
  | S fuel' =>
      if negb (cons_pos <? prod_pos) then mret (FetchDrained got cons_pos, seen)
      else
        s ← get;
        let len_ptr := Z.land cons_pos (rb_mask s) in
        len ← rb_load32 len_ptr;
        if negb (Z.land len BPF_RINGBUF_BUSY_BIT =? 0) then mret (FetchBusy, seen)
        else
          let cons_pos' := u64 (cons_pos + roundup_len len) in
          if Z.land len BPF_RINGBUF_DISCARD_BIT =? 0 then
            sample ← need "sample outside the buffer"
              (read_range (Z.to_nat (len_ptr + BPF_RINGBUF_HDR_SZ)) (Z.to_nat len) (rb_data s));
            let err := cb sample in
            modify (rb_set_consumer cons_pos');;
            if err <? 0 then mret (FetchError err, seen ++ [sample])
            else fetch_inner fuel' cons_pos' prod_pos true (seen ++ [sample])
          else
            modify (rb_set_consumer cons_pos');;
            fetch_inner fuel' cons_pos' prod_pos true seen
  end.

(** [do { .. } while (got_new_data)]; the producer position is read anew in every
    turn. Without a concurrent producer the second turn finds nothing. *)
Fixpoint fetch_outer (fuel : nat) (cons_pos : Z) (seen : list bytes) : RB (Z * list bytes) :=
  match fuel with
  | O => ub "loop bound"
  | S fuel' =>
      s ← get;
      let prod_pos := rb_producer_pos s in
      r ← fetch_inner (S (Z.to_nat (prod_pos - cons_pos))) cons_pos prod_pos false seen;
      match r with
      | (FetchBusy, seen') => mret (s32 (Z.of_nat (length seen')), seen')
      | (FetchError err, seen') => mret (err, seen')
      | (FetchDrained got cons_pos', seen') =>
          if got : bool then fetch_outer fuel' cons_pos' seen'
          else mret (s32 (Z.of_nat (length seen')), seen')
      end
  end.

(** The code and the samples handed to the callback, in order. *)
Definition rb_fetch_data : RB (Z * list bytes) :=
  s ← get; fetch_outer 2 (rb_consumer_pos s) [].

End fetch.

Definition rb_has_data : RB bool :=
  s ← get;
  if rb_consumer_pos s <? rb_producer_pos s then
    len ← rb_load32 (Z.land (rb_consumer_pos s) (rb_mask s));
    mret (Z.land len BPF_RINGBUF_BUSY_BIT =? 0)
  else mret false.

(** What a program does with the reserved area. *)
Definition rb_store (off : nat) (bs : bytes) : RB unit :=
  s ← get;
  d ← need "store outside the buffer" (write_range off bs (rb_data s));
  put (rb_set_data d s).

(** The map interface: nothing but errors. *)
Definition ringbuf_elem_lookup (key : ptr) : RB vptr := fail_with ENOTSUP VNull.
Definition ringbuf_elem_update (key value : ptr) (flags : Z) : RB Z := fail_with ENOTSUP (-1).
Definition ringbuf_elem_delete (key : ptr) : RB Z := fail_with ENOTSUP (-1).
Definition ringbuf_map_get_next_key (key : ptr) (next_key : bool) : RB (Z * option bytes) :=
  fail_with ENOTSUP (-1, None).

#[export] Instance ringbuf_MapImpl : MapImpl ringbuf := {
  should_lock := false;
  elem_lookup := ringbuf_elem_lookup;
  elem_update := ringbuf_elem_update;
  elem_delete := ringbuf_elem_delete;
  map_get_next_key := ringbuf_map_get_next_key
}.

(** ** The ring as a queue of records *)

Inductive rstate := RBusy | RDone (payload : bytes) | RDiscard.

Record rrec := mk_rrec { rr_size : Z; rr_state : rstate }.

(** The bytes a record of [size] takes, and the word in its header. *)
Definition rec_total (size : Z) : Z := (size + 8 + 7) / 8 * 8.
Definition rec_word (r : rrec) : Z :=
  rr_size r + match rr_state r with RBusy => 2 ^ 31 | RDone _ => 0 | RDiscard => 2 ^ 30 end.

Definition q_len (q : list rrec) : Z := foldr (fun r n => rec_total (rr_size r) + n) 0 q.

(** The records [q] lie one after the other from position [pos] on, and the
    payload of a committed one is where the consumer looks for it. *)
Fixpoint rb_recs (max : Z) (d : bytes) (pos : Z) (q : list rrec) : Prop :=
  match q with
  | [] => True
  | r :: q' =>
      0 <= rr_size r < 2 ^ 30 /\
      read_range (Z.to_nat (pos mod max)) 4 d = Some (le_encode 4 (rec_word r)) /\
      match rr_state r with
      | RDone p => Z.of_nat (length p) = rr_size r /\
          read_range (Z.to_nat (pos mod max + 8)) (length p) d = Some p
      | _ => True
      end /\
      rb_recs max d (pos + rec_total (rr_size r)) q'
  end.

Record rb_rel (s : ringbuf) (q : list rrec) : Prop := {
  rr_pow : exists n, 3 <= n <= 30 /\ rb_max_ent s = 2 ^ n;
  rr_data : Z.of_nat (length (rb_data s)) = 2 * rb_max_ent s;
  rr_cons : 0 <= rb_consumer_pos s /\ rb_consumer_pos s mod 8 = 0;
  rr_prod : rb_producer_pos s = rb_consumer_pos s + q_len q;
  rr_u64 : rb_producer_pos s < 2 ^ 64;
  rr_fits : q_len q <= rb_max_ent s;
  rr_recs : rb_recs (rb_max_ent s) (rb_data s) (rb_consumer_pos s) q
}.

(** *** Arithmetic *)

Lemma rec_total_bounds size : 0 <= size -> size + 8 <= rec_total size <= size + 15.
Proof. intros. unfold rec_total. pose proof (Z.div_mod (size + 8 + 7) 8). pose proof (Z.mod_pos_bound (size + 8 + 7) 8). lia. Qed.

Lemma rec_total_mod size : rec_total size mod 8 = 0.
Proof. apply Z.mod_mul. lia. Qed.

Lemma rec_total_pos size : 0 <= size -> 8 <= rec_total size.
Proof. intros. pose proof (rec_total_bounds size). lia. Qed.

Lemma q_len_app q1 q2 : q_len (q1 ++ q2) = q_len q1 + q_len q2.
Proof. induction q1 as [|r q1 IH]; simpl; [done|]. rewrite IH. lia. Qed.

Lemma land_pow2 x n : 0 <= n -> Z.land x (2 ^ n) = if Z.testbit x n then 2 ^ n else 0.
Proof.
  intros Hn. apply Z.bits_inj'. intros i Hi. rewrite Z.land_spec, Z.pow2_bits_eqb by done.
  destruct (Z.eqb_spec n i) as [->|Hne].
  - rewrite andb_true_r. destruct (Z.testbit x i); [by rewrite Z.pow2_bits_true|by rewrite Z.bits_0].
  - rewrite andb_false_r. destruct (Z.testbit x n); [|by rewrite Z.bits_0].
    by rewrite Z.pow2_bits_false by lia.
Qed.

Lemma testbit_div x n : 0 <= n -> Z.testbit x n = ((x / 2 ^ n) mod 2 =? 1).
Proof.
  intros Hn. destruct (Z.testbit x n) eqn:Ht.
  - symmetry. apply Z.eqb_eq. by apply Z.testbit_true.
  - symmetry. apply Z.eqb_neq. apply Z.testbit_false in Ht; [|done]. lia.
Qed.

Lemma testbit_small x n : 0 <= n -> 0 <= x < 2 ^ n -> Z.testbit x n = false.
Proof. intros. rewrite testbit_div by done. rewrite Z.div_small by done. done. Qed.

Lemma testbit_add x n : 0 <= n -> 0 <= x < 2 ^ n -> Z.testbit (x + 2 ^ n) n = true.
Proof.
  intros. rewrite testbit_div by done. replace ((x + 2 ^ n) / 2 ^ n) with 1; [done|].
  apply Z.div_unique with (r := x); lia.
Qed.

Lemma lor_pow2 x n : 0 <= n -> 0 <= x < 2 ^ n -> Z.lor x (2 ^ n) = x + 2 ^ n.
Proof.
  intros Hn Hx. assert (Z.land x (2 ^ n) = 0) as Hl
    by (rewrite land_pow2 by done; by rewrite testbit_small).
  rewrite Z.add_nocarry_lxor by done. by rewrite Z.lxor_lor.
Qed.

(** A header word read back: is it busy, is it discarded, and how long. *)
Lemma rec_word_bits r :
  0 <= rr_size r < 2 ^ 30 ->
  0 <= rec_word r < 2 ^ 32 /\
  (Z.land (rec_word r) BPF_RINGBUF_BUSY_BIT =? 0) =
    (match rr_state r with RBusy => false | _ => true end) /\
  (rr_state r <> RBusy -> (Z.land (rec_word r) BPF_RINGBUF_DISCARD_BIT =? 0) =
    (match rr_state r with RDiscard => false | _ => true end) /\
   roundup_len (rec_word r) = rec_total (rr_size r)).
Proof.
  intros Hs. unfold BPF_RINGBUF_BUSY_BIT, BPF_RINGBUF_DISCARD_BIT.
  change 2147483648 with (2 ^ 31). change 1073741824 with (2 ^ 30). unfold rec_word.
  rewrite !land_pow2 by lia. split; [destruct (rr_state r); lia|].
  assert (roundup_len (rr_size r) = rec_total (rr_size r) /\
          roundup_len (rr_size r + 2 ^ 30) = rec_total (rr_size r)) as [R1 R2].
  { unfold roundup_len, rec_total, BPF_RINGBUF_HDR_SZ. rewrite !Z.shiftl_mul_pow2 by lia.
    rewrite !Z.shiftr_div_pow2 by lia. rewrite (wrap_small 32 (rr_size r * 2 ^ 2)) by lia.
    replace (u32 ((rr_size r + 2 ^ 30) * 2 ^ 2)) with (rr_size r * 2 ^ 2)
      by (apply Z.mod_unique with (q := 1); lia).
    rewrite Z.div_mul by lia. rewrite (wrap_small 32 (rr_size r + 8)) by lia.
    rewrite wrap_small by lia. done. }
  destruct (rr_state r); (split; [|intros Hne; split]); rewrite ?Z.add_0_r; try done;
    try (by rewrite testbit_add by lia); try (by rewrite testbit_small by lia).
Qed.

Lemma roundup_done size : 0 <= size < 2 ^ 30 -> u64 (size + BPF_RINGBUF_HDR_SZ + 7) / 8 * 8 = rec_total size.
Proof. intros. unfold BPF_RINGBUF_HDR_SZ. by rewrite wrap_small by lia. Qed.

(** Records that are disjoint modulo the window are disjoint in the buffer. *)
Lemma phys_disjoint max a t b u :
  0 < max -> 0 <= t -> 0 <= u -> a + t <= b -> b + u <= a + max ->
  a mod max + t <= b mod max \/ b mod max + u <= a mod max.
Proof.
  intros Hm Ht Hu Hab Hba. pose proof (Z.div_mod a max ltac:(lia)) as Ha.
  pose proof (Z.div_mod b max ltac:(lia)) as Hb.
  pose proof (Z.mod_pos_bound a max Hm). pose proof (Z.mod_pos_bound b max Hm).
  assert (b / max = a / max \/ b / max = a / max + 1) as [E|E] by nia.
  - left. nia.
  - right. nia.
Qed.

(** *** Framing *)

Lemma q_len_nonneg max d q pos : rb_recs max d pos q -> 0 <= q_len q.
Proof.
  revert pos. induction q as [|r q IH]; intros pos; simpl; [done|].
  intros (Hs & _ & _ & Hq). pose proof (rec_total_pos (rr_size r)). specialize (IH _ Hq). lia.
Qed.

Section frame.
Variables (max : Z) (d d' : bytes) (w : nat) (bs : bytes) (a t : Z).
Hypothesis Hmax : 0 < max.
Hypothesis Hw : write_range w bs d = Some d'.
(** The write stays inside the region of a record at [a] of [t] bytes. *)
Hypothesis Hin : a mod max <= Z.of_nat w /\ Z.of_nat w + Z.of_nat (length bs) <= a mod max + t.
Hypothesis Ht : 0 <= t.

Lemma rec_frame pos r :
  0 <= rr_size r ->
  (a + t <= pos /\ pos + rec_total (rr_size r) <= a + max) \/
  (pos + rec_total (rr_size r) <= a /\ a + t <= pos + max) ->
  forall off len, pos mod max <= off -> 0 <= len -> off + len <= pos mod max + rec_total (rr_size r) ->
    read_range (Z.to_nat off) (Z.to_nat len) d' = read_range (Z.to_nat off) (Z.to_nat len) d.
Proof.
  intros Hs Hor off len Ho Hl Hol. apply (read_write_disjoint _ _ _ _ _ _ Hw).
  pose proof (rec_total_pos _ Hs). pose proof (Z.mod_pos_bound pos max Hmax).
  destruct Hor as [[H1 H2]|[H1 H2]].
  - destruct (phys_disjoint max a t pos (rec_total (rr_size r))) as [|]; lia.
  - destruct (phys_disjoint max pos (rec_total (rr_size r)) a t) as [|]; lia.
Qed.

Lemma rec_frame_step pos r q :
  (a + t <= pos /\ pos + rec_total (rr_size r) <= a + max) \/
  (pos + rec_total (rr_size r) <= a /\ a + t <= pos + max) ->
  rb_recs max d pos (r :: q) ->
  rb_recs max d' (pos + rec_total (rr_size r)) q -> rb_recs max d' pos (r :: q).
Proof.
  intros Hor (Hs & Hh & Hp & _) Hq. pose proof (rec_total_bounds (rr_size r)).
  cbn [rb_recs]. split; [done|]. split; [|split; [|done]].
  - rewrite <- Hh. change 4%nat with (Z.to_nat 4). apply (rec_frame pos r); lia.
  - destruct (rr_state r) as [|p|]; try done. destruct Hp as [Hl Hp]. split; [done|].
    rewrite <- Hp. rewrite <- (Nat2Z.id (length p)). apply (rec_frame pos r); lia.
Qed.

Lemma recs_frame pos q :
  (a + t <= pos /\ pos + q_len q <= a + max) \/ (pos + q_len q <= a /\ a + t <= pos + max) ->
  rb_recs max d pos q -> rb_recs max d' pos q.
Proof.
  revert pos. induction q as [|r q IH]; intros pos Hor Hq; [done|].
  pose proof Hq as (Hs & _ & _ & Hq'). pose proof (q_len_nonneg _ _ _ _ Hq').
  pose proof (rec_total_pos (rr_size r)). cbn [q_len foldr] in Hor. fold (q_len q) in Hor.
  apply rec_frame_step; [lia|done|]. apply IH; [lia|done].
Qed.

End frame.

Lemma rb_recs_app max d pos q1 q2 :
  rb_recs max d pos (q1 ++ q2) <-> rb_recs max d pos q1 /\ rb_recs max d (pos + q_len q1) q2.
Proof.
  revert pos. induction q1 as [|r q1 IH]; intros pos; simpl.
  - rewrite Z.add_0_r. tauto.
  - rewrite IH, Z.add_assoc. tauto.
Qed.

(** *** Facts of a well-formed ring *)

Section rel.
Variables (s : ringbuf) (q : list rrec).
Hypothesis Hrel : rb_rel s q.

Lemma rb_max_bounds : 8 <= rb_max_ent s <= 2 ^ 30 /\ rb_max_ent s mod 8 = 0.
Proof.
  destruct (rr_pow _ _ Hrel) as (n & Hn & ->). split.
  - split; [change 8 with (2 ^ 3)|]; apply Z.pow_le_mono_r; lia.
  - replace n with ((n - 3) + 3) by lia. rewrite Z.pow_add_r by lia. apply Z.mod_mul. lia.
Qed.

Lemma rb_mask_land x : Z.land x (rb_mask s) = x mod rb_max_ent s.
Proof.
  pose proof rb_max_bounds as [Hb _]. unfold rb_mask. rewrite wrap_small by lia.
  destruct (rr_pow _ _ Hrel) as (n & Hn & ->). apply land_mask. lia.
Qed.

(** Every record starts on a multiple of eight: its header lies in the first half. *)
Lemma rb_pos_mod x : x mod 8 = 0 ->
  0 <= x mod rb_max_ent s <= rb_max_ent s - 8 /\ (x mod rb_max_ent s) mod 8 = 0.
Proof.
  intros Hx. destruct rb_max_bounds as [Hb Hm8].
  pose proof (Z.mod_pos_bound x (rb_max_ent s) ltac:(lia)) as Hr.
  assert ((x mod rb_max_ent s) mod 8 = 0) as H8.
  { rewrite Z.mod_mod_divide; [done|]. apply Z.mod_divide; lia. }
  split; [|done]. split; [lia|].
  pose proof (Z.div_mod (x mod rb_max_ent s) 8). pose proof (Z.div_mod (rb_max_ent s) 8). lia.
Qed.

Lemma q_len_mod q' : q_len q' mod 8 = 0.
Proof.
  induction q' as [|r q' IH]; [done|]. cbn [q_len foldr]. fold (q_len q').
  rewrite Zplus_mod, rec_total_mod, IH. done.
Qed.

Lemma rb_prod_mod : rb_producer_pos s mod 8 = 0.
Proof. rewrite (rr_prod _ _ Hrel), Zplus_mod, q_len_mod. by destruct (rr_cons _ _ Hrel) as [_ ->]. Qed.

Lemma rb_qlen : 0 <= q_len q.
Proof. exact (q_len_nonneg _ _ q _ (rr_recs _ _ Hrel)). Qed.

Lemma rb_store32_run off v e :
  0 <= off -> off + 4 <= 2 * rb_max_ent s ->
  exists d, write_range (Z.to_nat off) (le_encode 4 v) (rb_data s) = Some d /\
    rb_store32 off v s e = Ok tt (rb_set_data d s) e.
Proof.
  intros Ho Hm. destruct (proj1 (write_range_is_Some (Z.to_nat off) (le_encode 4 v) (rb_data s)))
    as [d Hd]; [rewrite length_le_encode; pose proof (rr_data _ _ Hrel); lia|].
  exists d. split; [done|]. unfold rb_store32. mbase. by rewrite Hd.
Qed.

Lemma rb_rel_data d :
  length d = length (rb_data s) -> rb_recs (rb_max_ent s) d (rb_consumer_pos s) q ->
  rb_rel (rb_set_data d s) q.
Proof. intros Hl Hq. destruct Hrel. split; simpl; try done. by rewrite Hl. Qed.

End rel.

(** The outcome of [reserve] on a ring of [max] bytes holding [q]. *)
Definition spec_reserve (max size : Z) (q : list rrec) : Z + list rrec :=
  if max <? rec_total size then inl E2BIG
  else if max <? q_len q + rec_total size then inl ENOSPC
  else inr (q ++ [mk_rrec size RBusy]).

Lemma reserve_guards s q size :
  rb_rel s q -> 0 <= size < 2 ^ 63 ->
  (if negb (Z.land size (Z.lor BPF_RINGBUF_BUSY_BIT BPF_RINGBUF_DISCARD_BIT) =? 0)
   then rec_total size > rb_max_ent s
   else u64 (size + BPF_RINGBUF_HDR_SZ + 7) / 8 * 8 = rec_total size /\
     u64 (rb_max_ent s - u64 (rb_producer_pos s - rb_consumer_pos s)) = rb_max_ent s - q_len q).
Proof.
  intros Hr Hs. destruct (rb_max_bounds s q Hr) as [Hb _]. pose proof (rb_qlen s q Hr).
  pose proof (rec_total_bounds size). pose proof (rr_fits _ _ Hr).
  destruct (decide (size < 2 ^ 30)) as [Hlt|Hge].
  - assert (Z.land size (Z.lor BPF_RINGBUF_BUSY_BIT BPF_RINGBUF_DISCARD_BIT) = 0) as ->.
    { rewrite Z.land_lor_distr_r. unfold BPF_RINGBUF_BUSY_BIT, BPF_RINGBUF_DISCARD_BIT.
      change 2147483648 with (2 ^ 31). change 1073741824 with (2 ^ 30).
      rewrite !land_pow2 by lia. rewrite !testbit_small by lia. done. }
    simpl. split; [apply roundup_done; lia|]. rewrite (rr_prod _ _ Hr).
    replace (_ + q_len q - _) with (q_len q) by lia. rewrite (wrap_small 64 (q_len q)) by lia.
    by rewrite wrap_small by lia.
  - destruct (negb _); [lia|]. split; [unfold BPF_RINGBUF_HDR_SZ; by rewrite wrap_small by lia|].
    rewrite (rr_prod _ _ Hr). replace (_ + q_len q - _) with (q_len q) by lia.
    rewrite (wrap_small 64 (q_len q)) by lia. by rewrite wrap_small by lia.
Qed.

(** What [reserve] does, on every branch. *)
Lemma reserve_run s q size fd e :
  rb_rel s q -> 0 <= size < 2 ^ 63 -> rb_producer_pos s + rb_max_ent s < 2 ^ 64 ->
  let o := spec_reserve (rb_max_ent s) size q in
  exists s', rb_max_ent s' = rb_max_ent s /\ rb_consumer_pos s' = rb_consumer_pos s /\
    match o with
    | inl err => s' = s /\ rb_reserve size fd s e = Ok VNull s err
    | inr q' => rb_rel s' q' /\
        rb_reserve size fd s e =
        Ok (VBuf (Z.to_nat ((rb_producer_pos s + 8) mod rb_max_ent s))) s' e
    end.
Proof.
  intros Hr Hs Hu. pose proof (reserve_guards s q size Hr Hs) as Hg. unfold rb_reserve.
  destruct (rb_max_bounds s q Hr) as [Hb _]. pose proof (rec_total_bounds size).
  pose proof (rb_qlen s q Hr) as Hq0. destruct (rr_cons _ _ Hr) as [Hc0 _].
  pose proof (rr_prod _ _ Hr) as Hprod. unfold spec_reserve. cbv zeta.
  destruct (negb _).
  { exists s. do 2 (split; [done|]). rewrite (proj2 (Z.ltb_lt _ _)) by lia. done. }
  destruct Hg as [Ht Ha]. mbase. rewrite Ht, Ha.
  destruct (rb_max_ent s <? rec_total size) eqn:E1; [by exists s|].
  apply Z.ltb_ge in E1. destruct (rb_max_ent s <? q_len q + rec_total size) eqn:E2.
  { exists s. do 2 (split; [done|]). apply Z.ltb_lt in E2. by rewrite (proj2 (Z.ltb_lt _ _)) by lia. }
  apply Z.ltb_ge in E2. rewrite (proj2 (Z.ltb_ge _ _)) by lia.
  rewrite !(rb_mask_land s q Hr). pose proof (rb_prod_mod s q Hr) as Hp8.
  destruct (rb_pos_mod s q Hr _ Hp8) as [Hpm _].
  set (h := rb_producer_pos s mod rb_max_ent s) in *.
  assert (u32 (Z.lor size BPF_RINGBUF_BUSY_BIT) = rec_word (mk_rrec size RBusy)) as ->.
  { unfold BPF_RINGBUF_BUSY_BIT. change 2147483648 with (2 ^ 31).
    rewrite lor_pow2 by lia. unfold rec_word. simpl. by rewrite wrap_small by lia. }
  destruct (rb_store32_run s q Hr h (rec_word (mk_rrec size RBusy)) e) as (d1 & Hd1 & ->); [lia..|].
  pose proof (write_range_length _ _ _ _ Hd1) as L1.
  assert (rb_rel (rb_set_data d1 s) q) as Hr1.
  { apply rb_rel_data; [done..|]. eapply recs_frame with (a := rb_producer_pos s) (t := rec_total size);
      [lia|exact Hd1|rewrite length_le_encode; fold h; lia|lia|..|apply Hr].
    right. rewrite (rr_prod _ _ Hr). lia. }
  destruct (rb_store32_run _ q Hr1 (h + 4) (u32 fd) e) as (d2 & Hd2 & ->); [simpl; lia..|].
  cbn [rb_data rb_set_data] in Hd2. pose proof (write_range_length _ _ _ _ Hd2) as L2.
  eexists. split; [|split]; [..|split; [|unfold BPF_RINGBUF_HDR_SZ; by rewrite (wrap_small 64 (_ + 8)) by lia]].
  1,2: done.
  rewrite (wrap_small 64 (_ + rec_total size)) by lia.
  destruct Hr1 as [R1 R2 R3 R4 R5 R6 R7].
  cbn [rb_data rb_set_data rb_max_ent rb_consumer_pos rb_producer_pos] in *.
  split; simpl; try done.
  - by rewrite L2.
  - rewrite q_len_app. simpl. lia.
  - lia.
  - rewrite q_len_app. simpl. lia.
  - apply rb_recs_app. split.
    + eapply recs_frame with (a := rb_producer_pos s) (t := rec_total size);
        [lia|exact Hd2|rewrite length_le_encode; fold h; lia|lia|..|done]. lia.
    + rewrite <- Hprod. fold h. split; [simpl; lia|]. split; [|done].
      rewrite (read_write_disjoint _ _ _ _ _ _ Hd2) by lia.
      by apply (read_write_len _ _ _ _ _ Hd1).
Qed.

(** Ring buffer, reserve: a record that can never fit gives E2BIG, one that
    does not fit beside the unconsumed records ENOSPC, and nothing changes;
    otherwise a busy record is appended, every earlier record keeps its header
    and payload, and the pointer is eight bytes past the old producer position,
    modulo the size of the ring. *)
Theorem ringbuf_reserve_refines s q size fd e :
  rb_rel s q -> 0 <= size < 2 ^ 63 -> rb_producer_pos s + rb_max_ent s < 2 ^ 64 ->
  let o := spec_reserve (rb_max_ent s) size q in
  exists s', rb_max_ent s' = rb_max_ent s /\ rb_consumer_pos s' = rb_consumer_pos s /\
    match o with
    | inl err => s' = s /\ rb_reserve size fd s e = Ok VNull s err
    | inr q' => rb_rel s' q' /\
        rb_reserve size fd s e =
        Ok (VBuf (Z.to_nat ((rb_producer_pos s + 8) mod rb_max_ent s))) s' e
    end.
Proof. intros. by apply reserve_run. Qed.

(** *** Writing inside one record *)

Section one_record.
Variables (s : ringbuf) (q1 q2 : list rrec) (r : rrec).
Hypothesis Hrel : rb_rel s (q1 ++ r :: q2).

(** The position of the record, its place in the buffer. *)
Definition rec_pos : Z := rb_consumer_pos s + q_len q1.
Definition rec_off : Z := rec_pos mod rb_max_ent s.

Lemma rec_facts :
  0 <= rec_off <= rb_max_ent s - 8 /\ 0 <= rr_size r < 2 ^ 30 /\ 0 <= rec_pos < 2 ^ 64 /\
  rec_total (rr_size r) <= rb_max_ent s /\
  read_range (Z.to_nat rec_off) 4 (rb_data s) = Some (le_encode 4 (rec_word r)).
Proof using Hrel.
  pose proof (rr_recs _ _ Hrel) as Hq. apply rb_recs_app in Hq as [Hq1 (Hs & Hh & _ & Hq2)].
  pose proof (q_len_nonneg _ _ _ _ Hq1). pose proof (q_len_nonneg _ _ _ _ Hq2).
  pose proof (rr_fits _ _ Hrel) as Hf. pose proof (rr_prod _ _ Hrel) as Hp.
  rewrite q_len_app in Hf, Hp. simpl in Hf, Hp. fold (q_len q2) in Hf, Hp.
  pose proof (rr_u64 _ _ Hrel). pose proof (rec_total_pos (rr_size r)).
  destruct (rr_cons _ _ Hrel) as [Hc0 Hc8]. split.
  - apply (rb_pos_mod s _ Hrel). unfold rec_pos. rewrite Zplus_mod, Hc8, q_len_mod. done.
  - unfold rec_off, rec_pos. split_and!; try done; lia.
Qed.

Lemma rec_replace w bs d' r' :
  write_range w bs (rb_data s) = Some d' ->
  rec_off <= Z.of_nat w -> Z.of_nat w + Z.of_nat (length bs) <= rec_off + rec_total (rr_size r) ->
  rr_size r' = rr_size r ->
  read_range (Z.to_nat rec_off) 4 d' = Some (le_encode 4 (rec_word r')) ->
  match rr_state r' with
  | RDone p => Z.of_nat (length p) = rr_size r' /\
      read_range (Z.to_nat (rec_off + 8)) (length p) d' = Some p
  | _ => True
  end ->
  rb_rel (rb_set_data d' s) (q1 ++ r' :: q2).
Proof using Hrel.
  intros Hw H1 H2 Hsz Hh Hp. pose proof (write_range_length _ _ _ _ Hw) as Hl.
  pose proof rec_facts as (Hoff & Hsize & _ & _ & _). pose proof (rec_total_pos (rr_size r)).
  pose proof (rb_max_bounds s _ Hrel) as [Hb _].
  destruct Hrel as [R1 R2 R3 R4 R5 R6 R7]. rewrite q_len_app in R4, R6. simpl in R4, R6.
  fold (q_len q2) in R4, R6. apply rb_recs_app in R7 as [Hq1 (_ & _ & _ & Hq2)].
  pose proof (q_len_nonneg _ _ _ _ Hq1). pose proof (q_len_nonneg _ _ _ _ Hq2).
  split; simpl; try done.
  - by rewrite Hl.
  - rewrite q_len_app. simpl. by rewrite Hsz.
  - rewrite q_len_app. simpl. by rewrite Hsz.
  - apply rb_recs_app. split; [|split; [by rewrite Hsz|split; [done|split; [done|]]]].
    + eapply recs_frame with (a := rec_pos) (t := rec_total (rr_size r));
        [lia|exact Hw|fold rec_off; lia|lia|unfold rec_pos; lia|done].
    + rewrite Hsz. eapply recs_frame with (a := rec_pos) (t := rec_total (rr_size r));
        [lia|exact Hw|fold rec_off; lia|lia|unfold rec_pos; lia|done].
Qed.

(** The program fills its reservation; [bs] lands where the consumer will look
    unless the header occupies the last eight bytes of the ring. *)
Lemma store_run bs e :
  rr_state r = RBusy -> Z.of_nat (length bs) = rr_size r -> rec_off <> rb_max_ent s - 8 ->
  exists s', rb_store (Z.to_nat ((rec_pos + 8) mod rb_max_ent s)) bs s e = Ok tt s' e /\
    rb_rel s' (q1 ++ r :: q2) /\ rb_max_ent s' = rb_max_ent s /\
    rb_consumer_pos s' = rb_consumer_pos s /\
    read_range (Z.to_nat (rec_off + 8)) (length bs) (rb_data s') = Some bs.
Proof using Hrel.
  intros Hbusy Hl Hedge. pose proof rec_facts as (Hoff & Hsize & _ & Htot & Hh).
  pose proof (rec_total_bounds (rr_size r)). pose proof (rr_data _ _ Hrel).
  pose proof (rb_max_bounds s _ Hrel) as [Hb Hb8].
  assert ((rec_pos + 8) mod rb_max_ent s = rec_off + 8) as ->.
  { rewrite Zplus_mod, (Z.mod_small 8) by (unfold rec_off in *; lia). fold rec_off.
    assert (rec_pos mod 8 = 0) as H8.
    { unfold rec_pos. rewrite Zplus_mod, q_len_mod. by destruct (rr_cons _ _ Hrel) as [_ ->]. }
    destruct (rb_pos_mod s _ Hrel rec_pos H8) as [_ H8']. fold rec_off in H8'.
    apply Z.mod_small. pose proof (Z.div_mod rec_off 8). pose proof (Z.div_mod (rb_max_ent s) 8). lia. }
  destruct (proj1 (write_range_is_Some (Z.to_nat (rec_off + 8)) bs (rb_data s))) as [d Hd]; [lia|].
  exists (rb_set_data d s). unfold rb_store. mbase. rewrite Hd. split; [done|]. split.
  - apply (rec_replace _ _ _ r Hd); [lia..|done| |by rewrite Hbusy].
    rewrite (read_write_disjoint _ _ _ _ _ _ Hd) by lia. exact Hh.
  - do 2 (split; [done|]). by apply (read_write_same _ _ _ _ Hd).
Qed.

(** When the header does occupy the last eight bytes, [bs] lands at the start of the
    buffer: no record is changed by it, nor are the bytes behind the header. *)
Lemma store_edge_run bs e :
  rr_state r = RBusy -> Z.of_nat (length bs) = rr_size r -> rec_off = rb_max_ent s - 8 ->
  exists s', rb_store (Z.to_nat ((rec_pos + 8) mod rb_max_ent s)) bs s e = Ok tt s' e /\
    rb_rel s' (q1 ++ r :: q2) /\ rb_max_ent s' = rb_max_ent s /\
    rb_consumer_pos s' = rb_consumer_pos s /\
    read_range (Z.to_nat (rec_off + 8)) (length bs) (rb_data s') =
    read_range (Z.to_nat (rec_off + 8)) (length bs) (rb_data s).
Proof using Hrel.
  intros Hbusy Hl Hedge. pose proof rec_facts as (Hoff & Hsize & _ & Htot & Hh).
  pose proof (rec_total_bounds (rr_size r)). pose proof (rb_max_bounds s _ Hrel) as [Hb _].
  assert ((rec_pos + 8) mod rb_max_ent s = 0) as H0.
  { rewrite <- Zplus_mod_idemp_l. fold rec_off. rewrite Hedge. replace (_ - 8 + 8) with (rb_max_ent s) by lia.
    apply Z.mod_same. lia. }
  rewrite H0. pose proof (rr_data _ _ Hrel) as Hdata.
  destruct (proj1 (write_range_is_Some 0 bs (rb_data s))) as [d Hd]; [lia|].
  exists (rb_set_data d s). unfold rb_store. mbase. change (Z.to_nat 0) with 0%nat. rewrite Hd. split; [done|].
  split; [|split_and!; [done..|]; apply (read_write_disjoint _ _ _ _ _ _ Hd); lia].
  apply (rb_rel_data _ _ Hrel); [by apply (write_range_length _ _ _ _ Hd)|].
  pose proof (rr_fits _ _ Hrel) as Hf. rewrite q_len_app in Hf. cbn [q_len foldr] in Hf. fold (q_len q2) in Hf.
  pose proof (rr_recs _ _ Hrel) as Hq. apply rb_recs_app in Hq as [Hq1 (_ & _ & _ & Hq2)].
  pose proof (q_len_nonneg _ _ _ _ Hq1). pose proof (q_len_nonneg _ _ _ _ Hq2).
  assert (forall pos q, rb_recs (rb_max_ent s) (rb_data s) pos q ->
    (rec_pos + rec_total (rr_size r) <= pos /\ pos + q_len q <= rec_pos + 8 + rb_max_ent s) \/
    (pos + q_len q <= rec_pos + 8 /\ rec_pos + rec_total (rr_size r) <= pos + rb_max_ent s) ->
    rb_recs (rb_max_ent s) d pos q) as Hframe.
  { intros pos q Hq Hor. eapply recs_frame with (a := rec_pos + 8) (t := rec_total (rr_size r) - 8); try done; lia. }
  apply rb_recs_app. split; [apply Hframe; [done|unfold rec_pos; lia]|]. split; [done|]. split; [|split].
  - fold rec_pos. fold rec_off. rewrite (read_write_disjoint _ _ _ _ _ _ Hd); [done|lia].
  - by rewrite Hbusy.
  - apply Hframe; [done|unfold rec_pos; lia].
Qed.

Lemma submit_run p discard e :
  rr_state r = RBusy -> Z.of_nat (length p) = rr_size r ->
  read_range (Z.to_nat (rec_off + 8)) (length p) (rb_data s) = Some p ->
  exists s', rb_submit (Z.to_nat ((rec_pos + 8) mod rb_max_ent s)) discard s e = Ok tt s' e /\
    rb_max_ent s' = rb_max_ent s /\ rb_consumer_pos s' = rb_consumer_pos s /\
    rb_rel s' (q1 ++ mk_rrec (rr_size r) (if discard then RDiscard else RDone p) :: q2).
Proof using Hrel.
  intros Hbusy Hl Hp. pose proof rec_facts as (Hoff & Hsize & Hpos & Htot & Hh).
  pose proof (rec_total_bounds (rr_size r)). pose proof (rb_max_bounds s _ Hrel) as [Hb _].
  pose proof (rr_data _ _ Hrel) as Hd. unfold rb_submit. mbase.
  assert (Z.land (u64 (u32 (rb_mask s + 1) + Z.of_nat (Z.to_nat ((rec_pos + 8) mod rb_max_ent s)) -
    BPF_RINGBUF_HDR_SZ)) (rb_mask s) = rec_off) as ->.
  { pose proof (Z.mod_pos_bound (rec_pos + 8) (rb_max_ent s) ltac:(lia)).
    unfold rb_mask at 1. rewrite (wrap_small 32 (_ - 1)) by lia.
    replace (rb_max_ent s - 1 + 1) with (rb_max_ent s) by ring. rewrite (wrap_small 32 (rb_max_ent s)) by lia.
    unfold BPF_RINGBUF_HDR_SZ. rewrite Z2Nat.id by lia. rewrite wrap_small by lia.
    rewrite (rb_mask_land s _ Hrel). unfold rec_off.
    rewrite (Z.mod_eq (rec_pos + 8)) by lia.
    replace (_ + _ - 8) with (rec_pos + (1 - (rec_pos + 8) / rb_max_ent s) * rb_max_ent s) by ring.
    apply Z.mod_add. lia. }
  unfold rb_load32. mbase. rewrite Hh. unfold need. mbase.
  destruct (rec_word_bits r Hsize) as (Hw & _ & _). rewrite le_decode_encode by (simpl; lia).
  set (r' := mk_rrec (rr_size r) (if discard then RDiscard else RDone p)).
  assert ((if discard
    then Z.lor (Z.land (rec_word r) (2 ^ 32 - 1 - BPF_RINGBUF_BUSY_BIT)) BPF_RINGBUF_DISCARD_BIT
    else Z.land (rec_word r) (2 ^ 32 - 1 - BPF_RINGBUF_BUSY_BIT)) = rec_word r') as ->.
  { change (2 ^ 32 - 1 - BPF_RINGBUF_BUSY_BIT) with (2 ^ 31 - 1). rewrite land_mask by lia.
    unfold rec_word. rewrite Hbusy. replace ((rr_size r + 2 ^ 31) mod 2 ^ 31) with (rr_size r)
      by (apply Z.mod_unique with (q := 1); lia).
    subst r'. destruct discard; simpl; [|lia].
    change BPF_RINGBUF_DISCARD_BIT with (2 ^ 30). by rewrite lor_pow2 by lia. }
  destruct (rb_store32_run s _ Hrel rec_off (rec_word r') e) as (d & Hd' & ->); [lia..|].
  eexists. split; [done|]. do 2 (split; [done|]).
  apply (rec_replace _ _ _ r' Hd'); rewrite ?length_le_encode; [lia..|done| |].
  - by apply (read_write_len _ _ _ _ _ Hd').
  - subst r'. destruct discard; simpl; [done|]. split; [done|].
    rewrite (read_write_disjoint _ _ _ _ _ _ Hd'); [done|]. rewrite length_le_encode. lia.
Qed.

End one_record.

(** *** Consuming *)

(** What [fetch_data] does to the queue: it stops at the first busy record, hands
    the committed payloads to the callback and skips the discarded ones. *)
Fixpoint spec_fetch (cb : bytes -> Z) (q : list rrec) : list bytes * option Z * list rrec :=
  match q with
  | [] => ([], None, [])
  | r :: q' =>
      match rr_state r with
      | RBusy => ([], None, q)
      | RDiscard => spec_fetch cb q'
      | RDone p =>
          if cb p <? 0 then ([p], Some (cb p), q')
          else let '(ps, err, rest) := spec_fetch cb q' in (p :: ps, err, rest)
      end
  end.

Lemma rb_rel_pop s r q :
  rb_rel s (r :: q) ->
  rb_rel (rb_set_consumer (rb_consumer_pos s + rec_total (rr_size r)) s) q.
Proof.
  intros [R1 R2 [R3 R3'] R4 R5 R6 (Hs & _ & _ & R7)]. simpl in *. fold (q_len q) in *.
  pose proof (rec_total_pos (rr_size r)). split; simpl; try done; try lia.
  split; [lia|]. rewrite Zplus_mod, R3', rec_total_mod. done.
Qed.

Lemma q_len_length q max d pos : rb_recs max d pos q -> Z.of_nat (length q) <= q_len q.
Proof.
  revert pos. induction q as [|r q IH]; intros pos; simpl; [done|].
  intros (Hs & _ & _ & Hq). pose proof (rec_total_pos (rr_size r)). specialize (IH _ Hq).
  fold (q_len q). lia.
Qed.

Definition fetch_result (cb : bytes -> Z) (got : bool) (prod : Z) (q : list rrec) : fetch_exit :=
  match (spec_fetch cb q).1.2, (spec_fetch cb q).2 with
  | Some err, _ => FetchError err
  | None, [] => FetchDrained (got || match q with [] => false | _ => true end) prod
  | None, _ => FetchBusy
  end.

Lemma fetch_inner_run cb fuel s q got seen e :
  rb_rel s q -> (length q < fuel)%nat ->
  exists s', fetch_inner cb fuel (rb_consumer_pos s) (rb_producer_pos s) got seen s e =
      Ok (fetch_result cb got (rb_producer_pos s) q, seen ++ (spec_fetch cb q).1.1) s' e /\
    rb_rel s' (spec_fetch cb q).2 /\ rb_producer_pos s' = rb_producer_pos s /\
    rb_max_ent s' = rb_max_ent s.
Proof.
  revert fuel s got seen. induction q as [|r q IH]; intros fuel s got seen Hr Hf;
    (destruct fuel as [|fuel]; [simpl in Hf; lia|]); cbn [fetch_inner]; unfold fetch_result.
  - exists s. rewrite (rr_prod _ _ Hr). simpl. rewrite Z.add_0_r, Z.ltb_irrefl, orb_false_r, app_nil_r.
    done.
  - pose proof (rec_facts s [] q r Hr) as (Hoff & Hs & _ & Htot & Hh). unfold rec_off, rec_pos in *.
    change (q_len []) with 0 in *. rewrite Z.add_0_r in Hoff, Hh.
    pose proof (rb_qlen s _ Hr) as Hq0. pose proof (rec_total_bounds (rr_size r)).
    pose proof (rb_rel_pop s r q Hr) as Hpop. pose proof (rb_qlen _ _ Hpop).
    pose proof (rr_prod _ _ Hr) as Hprod. cbn [q_len foldr] in Hprod. fold (q_len q) in Hprod.
    rewrite (proj2 (Z.ltb_lt _ _)) by lia. cbn [negb]. mbase. rewrite (rb_mask_land s _ Hr).
    unfold rb_load32. mbase. rewrite Hh. unfold need. mbase.
    destruct (rec_word_bits r Hs) as (Hw & Hb & Hd). rewrite le_decode_encode by (simpl; lia).
    rewrite Hb. cbn [spec_fetch]. destruct (rr_state r) as [|p|] eqn:Hst; cbn [negb].
    + exists s. rewrite app_nil_r. done.
    + destruct Hd as [-> ->]; [done|]. destruct Hr as [R1 R2 [R3 _] R4 R5 R6 (_ & _ & Hp & _)].
      rewrite Hst in Hp. destruct Hp as [Hlp Hp].
      assert (rec_word r = Z.of_nat (length p)) as -> by (unfold rec_word; rewrite Hst; lia).
      unfold BPF_RINGBUF_HDR_SZ. rewrite Nat2Z.id, Hp. rewrite wrap_small by lia.
      destruct (cb p <? 0) eqn:Hcb.
      * eexists. split; [done|]. done.
      * destruct (IH fuel _ true (seen ++ [p]) Hpop) as (s' & Hrun & Hr' & Hp' & Hm');
          [simpl in Hf; lia|]. simpl in Hrun, Hp', Hm'. exists s'. rewrite Hrun.
        destruct (spec_fetch cb q) as [[ps err] rest] eqn:Hsp. simpl in *.
        rewrite <- app_assoc. unfold fetch_result. rewrite Hsp. simpl.
        rewrite orb_true_r. done.
    + destruct Hd as [-> ->]; [done|]. rewrite wrap_small by (pose proof (rr_u64 _ _ Hr);
        destruct (rr_cons _ _ Hr); lia).
      destruct (IH fuel _ true seen Hpop) as (s' & Hrun & Hr' & Hp' & Hm'); [simpl in Hf; lia|].
      simpl in Hrun, Hp', Hm'. exists s'. rewrite Hrun. unfold fetch_result.
      rewrite orb_true_r. done.
Qed.

(** Filling a record and submitting it. *)
Lemma commit_run s q1 q2 size bs discard e :
  let r := mk_rrec size RBusy in
  let off := Z.to_nat ((rec_pos s q1 + 8) mod rb_max_ent s) in
  rb_rel s (q1 ++ r :: q2) -> Z.of_nat (length bs) = size ->
  rec_off s q1 <> rb_max_ent s - 8 ->
  exists s1 s', rb_store off bs s e = Ok tt s1 e /\ rb_submit off discard s1 e = Ok tt s' e /\
    rb_consumer_pos s' = rb_consumer_pos s /\
    rb_rel s' (q1 ++ mk_rrec size (if discard then RDiscard else RDone bs) :: q2).
Proof.
  cbv zeta. intros Hr Hl Hedge.
  destruct (store_run s q1 q2 _ Hr bs e eq_refl Hl Hedge) as (s1 & Hst & Hr1 & Hm1 & Hc1 & Hrd).
  assert (rec_pos s1 q1 = rec_pos s q1) as Hp by (unfold rec_pos; congruence).
  assert (rec_off s1 q1 = rec_off s q1) as Ho by (unfold rec_off; congruence).
  rewrite <- Ho in Hrd.
  destruct (submit_run s1 q1 q2 _ Hr1 bs discard e eq_refl Hl Hrd) as (s2 & Hsub & Hm2 & Hc2 & Hr2).
  rewrite Hp, Hm1 in Hsub. exists s1, s2. rewrite Hst, Hsub. split_and!; [done..|congruence|done].
Qed.

(** The same when the header occupies the last eight bytes: the record is committed with
    the bytes that were behind its header. *)
Lemma commit_edge_run s q1 q2 size bs discard e :
  let r := mk_rrec size RBusy in
  let off := Z.to_nat ((rec_pos s q1 + 8) mod rb_max_ent s) in
  rb_rel s (q1 ++ r :: q2) -> Z.of_nat (length bs) = size ->
  rec_off s q1 = rb_max_ent s - 8 ->
  exists s1 s' got, rb_store off bs s e = Ok tt s1 e /\ rb_submit off discard s1 e = Ok tt s' e /\
    read_range (Z.to_nat (rb_max_ent s)) (length bs) (rb_data s) = Some got /\
    rb_rel s' (q1 ++ mk_rrec size (if discard then RDiscard else RDone got) :: q2).
Proof.
  cbv zeta. intros Hr Hl Hedge.
  destruct (store_edge_run s q1 q2 _ Hr bs e eq_refl Hl Hedge) as (s1 & Hst & Hr1 & Hm1 & Hc1 & Hrd).
  assert (rec_pos s1 q1 = rec_pos s q1) as Hp by (unfold rec_pos; congruence).
  assert (rec_off s1 q1 = rec_off s q1) as Ho by (unfold rec_off; congruence).
  pose proof (rec_facts s q1 q2 _ Hr) as (_ & Hs & _ & Ht & _). pose proof (rec_total_bounds size). simpl in Hs, Ht.
  pose proof (rr_data _ _ Hr). replace (rec_off s q1 + 8) with (rb_max_ent s) in Hrd by lia.
  pose proof (read_range_Some (Z.to_nat (rb_max_ent s)) (length bs) (rb_data s) ltac:(lia)) as Hg. set (got := take _ _) in Hg.
  assert (length got = length bs) as Hlg by (by apply read_range_length in Hg).
  destruct (submit_run s1 q1 q2 _ Hr1 got discard e eq_refl) as (s2 & Hsub & Hm2 & Hc2 & Hr2); [simpl; lia| |].
  { rewrite Ho, Hedge, Hlg. replace (_ - 8 + 8) with (rb_max_ent s) by lia. congruence. }
  rewrite Hp, Hm1 in Hsub. by exists s1, s2, got.
Qed.

(** ** Theorems *)

(** Ring buffer, commit: the owner of any busy record, oldest or not, fills it
    and submits it; the record becomes committed with exactly these bytes (or
    discarded) and all other records are untouched. The header must not occupy
    the last eight bytes of the ring. *)
Theorem ringbuf_commit_refines s q1 q2 size bs discard e :
  let r := mk_rrec size RBusy in
  let off := Z.to_nat ((rec_pos s q1 + 8) mod rb_max_ent s) in
  rb_rel s (q1 ++ r :: q2) -> Z.of_nat (length bs) = size ->
  rec_off s q1 <> rb_max_ent s - 8 ->
  exists s', (rb_store off bs;; rb_submit off discard) s e = Ok tt s' e /\
    rb_consumer_pos s' = rb_consumer_pos s /\
    rb_rel s' (q1 ++ mk_rrec size (if discard then RDiscard else RDone bs) :: q2).
Proof.
  cbv zeta. intros Hr Hl Hedge.
  destruct (commit_run s q1 q2 size bs discard e Hr Hl Hedge) as (s1 & s' & Hst & Hsub & Hc & Hr').
  exists s'. mbase. by rewrite Hst, Hsub.
Qed.

(** C19. Ring buffer, fetch_data: it terminates, hands the committed payloads before
    the first busy record to the callback in the order of their reservation,
    skips the discarded ones, returns the number of samples or the callback's
    first error, and removes from the ring exactly what it passed over. *)
Theorem ringbuf_fetch_refines cb s q e :
  rb_rel s q ->
  let '(ps, err, rest) := spec_fetch cb q in
  exists s', rb_fetch_data cb s e = Ok (default (Z.of_nat (length ps)) err, ps) s' e /\
    rb_rel s' rest.
Proof.
  intros Hr. destruct (spec_fetch cb q) as [[ps err] rest] eqn:Hsp.
  assert (s32 (Z.of_nat (length ps)) = Z.of_nat (length ps)) as Hcnt.
  { assert (length ps <= length q)%nat as Hle.
    { clear Hr. revert ps err rest Hsp. induction q as [|r q IH]; simpl; intros ps err rest Hsp;
        [by simplify_eq|]. destruct (rr_state r); [by simplify_eq/=; lia| |by specialize (IH _ _ _ Hsp); lia].
      destruct (_ <? 0); [by simplify_eq/=; lia|]. destruct (spec_fetch cb q) as [[? ?] ?].
      simplify_eq/=. specialize (IH _ _ _ eq_refl). lia. }
    pose proof (q_len_length _ _ _ _ (rr_recs _ _ Hr)). pose proof (rr_fits _ _ Hr).
    destruct (rb_max_bounds s q Hr). apply s32_small. lia. }
  unfold rb_fetch_data. mbase. cbn [fetch_outer]. mbase.
  pose proof (q_len_length _ _ _ _ (rr_recs _ _ Hr)) as Hql. pose proof (rr_prod _ _ Hr) as Hprod.
  destruct (fetch_inner_run cb (S (Z.to_nat (rb_producer_pos s - rb_consumer_pos s))) s q false [] e Hr)
    as (s1 & Hrun & Hr1 & Hp1 & _); [lia|].
  rewrite Hrun. unfold fetch_result. rewrite Hsp in *. simpl in *.
  destruct err as [err|]; [by exists s1|]. destruct rest as [|r rest]; [|rewrite Hcnt; by exists s1].
  destruct q as [|r q]; simpl; [rewrite Hcnt; by exists s1|].
  rewrite Hp1, Z.ltb_irrefl. simpl. rewrite Hcnt. eauto.
Qed.

(** Ring buffer, has_data: true exactly when the oldest record is committed or
    discarded, that is, when fetch_data would make progress. *)
Theorem ringbuf_has_data_spec s q e :
  rb_rel s q ->
  rb_has_data s e =
  Ok (match q with [] => false | r :: _ => match rr_state r with RBusy => false | _ => true end end) s e.
Proof.
  intros Hr. unfold rb_has_data. mbase. rewrite (rr_prod _ _ Hr). destruct q as [|r q].
  - simpl. by rewrite Z.add_0_r, Z.ltb_irrefl.
  - pose proof (rec_facts s [] q r Hr) as (Hoff & Hs & _ & _ & Hh). unfold rec_off, rec_pos in *.
    change (q_len []) with 0 in *. rewrite Z.add_0_r in Hh.
    pose proof (rb_qlen _ _ (rb_rel_pop s r q Hr)). pose proof (rec_total_pos (rr_size r)).
    cbn [q_len foldr]. fold (q_len q). rewrite (proj2 (Z.ltb_lt _ _)) by lia.
    rewrite (rb_mask_land s _ Hr). unfold rb_load32. mbase. rewrite Hh. unfold need. mbase.
    destruct (rec_word_bits r Hs) as (Hw & Hb & _). rewrite le_decode_encode by (simpl; lia).
    by rewrite Hb.
Qed.

(** One producer and one consumer on a ring of 32 bytes: a record of 16 bytes is
    produced and consumed, then one of four bytes. *)
Definition produce (bs : bytes) : RB unit :=
  p ← rb_reserve (Z.of_nat (length bs)) 3;
  match p with
  | VBuf off => rb_store off bs;; rb_submit off false
  | _ => ub "no space"
  end.

(** When the header of a record occupies the last eight bytes of the ring,
    [reserve] hands out offset 0 while [fetch_data] reads behind the header, at
    offset [max_ent], which is not a mirror of offset 0: the consumer is given
    four zero bytes in place of the payload 1, 2, 3, 4. *)
Theorem ringbuf_edge_record_lost :
  exists s, (produce (zeros 16);; rb_fetch_data (fun _ => 0);; produce [1; 2; 3; 4];;
             rb_fetch_data (fun _ => 0)) (ringbuf_new 4096 32) 0 = Ok (1, [[0; 0; 0; 0]]) s 0.
Proof. eexists. vm_compute. reflexivity. Qed.

(** ** Two producers

    [reserve] runs under a [sharable_lock], which any number of threads may hold
    at a time. The steps of a call between which another thread may run: *)
Inductive producer_pc :=
| PcStart (size : Z)
| PcLocked (size : Z)
| PcConsumer (size cons_pos : Z)
| PcProducer (size cons_pos prod_pos : Z)
| PcHeader (size prod_pos : Z)
| PcPublished (size prod_pos : Z)
| PcReturned (sample : vptr).

(** The ring, the number of sharers of [reserve_mutex], the threads. *)
Record producers := mk_producers { ps_ring : ringbuf; ps_sharers : nat; ps_pcs : list producer_pc }.

Definition reserve_step (i : nat) (c : producers) : option producers :=
  let s := ps_ring c in
  let go s' n pc := Some (mk_producers s' n (<[i := pc]> (ps_pcs c))) in
  pc ← ps_pcs c !! i;
  match pc with
  | PcStart size => go s (S (ps_sharers c)) (PcLocked size)
  | PcLocked size => go s (ps_sharers c) (PcConsumer size (rb_consumer_pos s))
  | PcConsumer size cons_pos => go s (ps_sharers c) (PcProducer size cons_pos (rb_producer_pos s))
  | PcProducer size cons_pos prod_pos =>
      let total_size := u64 (size + BPF_RINGBUF_HDR_SZ + 7) / 8 * 8 in
      if (rb_max_ent s <? total_size) || (u64 (rb_max_ent s - u64 (prod_pos - cons_pos)) <? total_size)
      then go s (pred (ps_sharers c)) (PcReturned VNull)
      else
        let header := Z.land prod_pos (rb_mask s) in
        match (rb_store32 header (u32 (Z.lor size BPF_RINGBUF_BUSY_BIT));;
               rb_store32 (header + 4) 0) s 0 with
        | Ok _ s' _ => go s' (ps_sharers c) (PcHeader size prod_pos)
        | _ => None
        end
  | PcHeader size prod_pos =>
      let total_size := u64 (size + BPF_RINGBUF_HDR_SZ + 7) / 8 * 8 in
      go (rb_set_producer (u64 (prod_pos + total_size)) s) (ps_sharers c) (PcPublished size prod_pos)
  | PcPublished size prod_pos =>
      go s (pred (ps_sharers c))
        (PcReturned (VBuf (Z.to_nat (Z.land (u64 (prod_pos + BPF_RINGBUF_HDR_SZ)) (rb_mask s)))))
  | PcReturned _ => None
  end.

(** A schedule: which thread moves next. *)
Definition run_schedule (l : list nat) (c : producers) : option producers :=
  foldl (fun o i => c ← o; reserve_step i c) (Some c) l.

(** Under the sharable lock two threads that reserve at the same time can both
    read the same producer position: with this schedule both calls return the
    same eight bytes, and the ring accounts for one record only. *)
Theorem ringbuf_producers_overlap :
  option_map (fun c => (ps_pcs c, rb_producer_pos (ps_ring c)))
    (run_schedule [0; 1; 0; 1; 0; 1; 0; 1; 0; 1; 0; 1]%nat
       (mk_producers (ringbuf_new 4096 64) 0 [PcStart 8; PcStart 8])) =
  Some ([PcReturned (VBuf 8); PcReturned (VBuf 8)], 16).
Proof. vm_compute. reflexivity. Qed.

(** A new ring is empty. *)
Lemma ringbuf_new_rel page n :
  3 <= n <= 30 -> 0 <= page -> page * 2 + 2 ^ n * 2 < 2 ^ 32 -> rb_rel (ringbuf_new page (2 ^ n)) [].
Proof.
  intros Hn Hp Hu. assert (0 < 2 ^ n) by lia. split; simpl; try done; [by exists n| |lia].
  rewrite length_zeros, wrap_small by lia. lia.
Qed.

(** *** Witnesses *)

(** A ring of 32 bytes with a committed record of two bytes and a busy one. *)
Definition small_ring : ringbuf :=
  mk_ringbuf 32 0 32 ([2; 0; 0; 0; 7; 0; 0; 0; 5; 6; 0; 0; 0; 0; 0; 0] ++
                      [4; 0; 0; 128; 7; 0; 0; 0; 0; 0; 0; 0; 0; 0; 0; 0] ++ zeros 32).

Definition small_q : list rrec := [mk_rrec 2 (RDone [5; 6]); mk_rrec 4 RBusy].

Lemma small_ring_rel : rb_rel small_ring small_q.
Proof. split; try done. by exists 5. Qed.

Lemma ringbuf_reserve_refines_witness :
  exists s', rb_max_ent s' = 32 /\ rb_consumer_pos s' = 0 /\ rb_rel s' [mk_rrec 4 RBusy] /\
    rb_reserve 4 7 (ringbuf_new 4096 32) 0 = Ok (VBuf 8) s' 0.
Proof.
  refine (ringbuf_reserve_refines (ringbuf_new 4096 32) [] 4 7 0 _ _ _); [|lia|simpl; lia].
  apply (ringbuf_new_rel 4096 5); lia.
Defined.

Lemma ringbuf_commit_refines_witness :
  exists s', (rb_store 24 [1; 2; 3; 4];; rb_submit 24 false) small_ring 0 = Ok tt s' 0 /\
    rb_consumer_pos s' = 0 /\
    rb_rel s' [mk_rrec 2 (RDone [5; 6]); mk_rrec 4 (RDone [1; 2; 3; 4])].
Proof.
  refine (ringbuf_commit_refines small_ring [mk_rrec 2 (RDone [5; 6])] [] 4 [1; 2; 3; 4] false 0
    small_ring_rel eq_refl _). vm_compute. lia.
Defined.

Lemma ringbuf_fetch_refines_witness :
  exists s', rb_fetch_data (fun _ => 0) small_ring 0 = Ok (1, [[5; 6]]) s' 0 /\
    rb_rel s' [mk_rrec 4 RBusy].
Proof. exact (ringbuf_fetch_refines (fun _ => 0) small_ring small_q 0 small_ring_rel). Defined.

Lemma ringbuf_has_data_spec_witness : rb_has_data small_ring 0 = Ok true small_ring 0.
Proof. exact (ringbuf_has_data_spec small_ring small_q 0 small_ring_rel). Defined.
