(* ===== verification/PerfEvent.v ===== *)
(** Perf event handlers (handler/perf_event_handler.{hpp,cpp}): the sample ring of
    a software event ([software_perf_event_data]) and the handler that describes
    an attach point ([bpf_perf_event_handler]). *)
From Stdlib Require Import ZArith Lia.
From stdpp Require Import base list gmap strings.
From S2P Require Import Prelude MapCommon.
Local Open Scope Z_scope.

(** ** The sample ring

    [mmap_buffer] is one page with the header ([data_head], [data_tail],
    [data_offset], [data_size]) followed by [sp_data]. *)
Record software_perf_event_data := mk_sw_event {
  sp_cpu : Z;
  sp_config : Z;
  sp_sample_type : Z;
  sp_pagesize : Z;
  sp_data_head : Z;
  sp_data_tail : Z;
  sp_data_offset : Z;
  sp_data_size : Z;
  sp_data : bytes;
  sp_copy_buffer : bytes
}.

Abbreviation SP := (M software_perf_event_data).

Section setters.
Variable s : software_perf_event_data.
Definition sp_set_head h := mk_sw_event (sp_cpu s) (sp_config s) (sp_sample_type s) (sp_pagesize s)
  h (sp_data_tail s) (sp_data_offset s) (sp_data_size s) (sp_data s) (sp_copy_buffer s).
Definition sp_set_tail t := mk_sw_event (sp_cpu s) (sp_config s) (sp_sample_type s) (sp_pagesize s)
  (sp_data_head s) t (sp_data_offset s) (sp_data_size s) (sp_data s) (sp_copy_buffer s).
Definition sp_set_data d := mk_sw_event (sp_cpu s) (sp_config s) (sp_sample_type s) (sp_pagesize s)
  (sp_data_head s) (sp_data_tail s) (sp_data_offset s) (sp_data_size s) d (sp_copy_buffer s).
Definition sp_set_size n := mk_sw_event (sp_cpu s) (sp_config s) (sp_sample_type s) (sp_pagesize s)
  (sp_data_head s) (sp_data_tail s) (sp_data_offset s) n (sp_data s) (sp_copy_buffer s).
Definition sp_set_copy b := mk_sw_event (sp_cpu s) (sp_config s) (sp_sample_type s) (sp_pagesize s)
  (sp_data_head s) (sp_data_tail s) (sp_data_offset s) (sp_data_size s) (sp_data s) b.
End setters.

Definition sw_event_new (page_size cpu config sample_type : Z) : software_perf_event_data :=
  mk_sw_event cpu config sample_type page_size 0 0 page_size 0 [] (zeros (Z.to_nat page_size)).

Definition sp_mmap_size (s : software_perf_event_data) : Z := Z.of_nat (length (sp_data s)).

Definition sp_has_data : SP bool :=
  s ← get; mret (negb (sp_data_tail s =? sp_data_head s)).

Definition PERF_RECORD_SAMPLE := 9.
Definition sizeof_sample_raw := 12.

(** [perf_sample_raw]: type, misc and a 16-bit size, then the 32-bit payload size. *)
Definition sample_raw_head (size : Z) : bytes :=
  le_encode 4 PERF_RECORD_SAMPLE ++ le_encode 2 0 ++
  le_encode 2 (u16 (sizeof_sample_raw + size)) ++ le_encode 4 (u32 size).

(** [resize] of a byte vector: cut, or fill with zeros. *)
Definition vec_resize (n : nat) (v : bytes) : bytes := take n v ++ zeros (n - length v).

(** [memcpy] into the data region. *)
Definition sp_copy_in (off : Z) (bs : bytes) : SP unit :=
  s ← get;
  d ← need "copy outside mmap_buffer" (write_range (Z.to_nat off) bs (sp_data s));
  put (sp_set_data s d).

Definition sp_output_data (buf : ptr) (size : Z) : SP Z :=
  s ← get;
  let header_size := u16 (sizeof_sample_raw + size) in
  let data_head := s64 (sp_data_head s) in
  let data_tail := s64 (sp_data_tail s) in
  let available_size := s64 (sp_mmap_size s - (data_head - data_tail)) in
  let available_size := if available_size =? 0 then sp_mmap_size s else available_size in
  if available_size <=? header_size then mret 0
  else
    let copy_size := header_size in
    modify (fun s => sp_set_copy s (if Z.of_nat (length (sp_copy_buffer s)) =? copy_size
      then sp_copy_buffer s else vec_resize (Z.to_nat copy_size) (sp_copy_buffer s)));;
    s ← get;
    b1 ← need "copy outside copy_buffer" (write_range 0 (sample_raw_head size) (sp_copy_buffer s));
    payload ← deref (Z.to_nat size) buf;
    b2 ← need "copy outside copy_buffer" (write_range 12 payload b1);
    put (sp_set_copy s b2);;
    let copy_start_1 := Z.land (u64 data_head) (u64 (sp_mmap_size s - 1)) in
    (if copy_size + copy_start_1 <=? sp_mmap_size s then sp_copy_in copy_start_1 b2
     else
       let len_first := sp_mmap_size s - copy_start_1 in
       sp_copy_in copy_start_1 (take (Z.to_nat len_first) b2);;
       sp_copy_in 0 (drop (Z.to_nat len_first) b2));;
    modify (fun s => sp_set_head s (u64 (data_head + copy_size)));;
    mret 0.

(** The size check comes after the buffer has been resized. *)
Definition sp_ensure_mmap_buffer (buffer_size : Z) : SP vptr :=
  s ← get;
  if sp_pagesize s + sp_mmap_size s <? buffer_size then
    let n := buffer_size - sp_pagesize s in
    put (sp_set_size (sp_set_data s (vec_resize (Z.to_nat n) (sp_data s))) n);;
    if negb (popcnt n =? 1) then mret VNull else mret (VBuf 0)
  else mret (VBuf 0).

(** ** The handler *)

Definition PERF_TYPE_SOFTWARE := 1.
Definition PERF_TYPE_TRACEPOINT := 2.
Definition BPF_TYPE_UPROBE := 6.
Definition BPF_TYPE_URETPROBE := 7.
Definition BPF_TYPE_KPROBE := 8.
Definition BPF_TYPE_KRETPROBE := 9.
Definition BPF_TYPE_UPROBE_OVERRIDE := 1008.
Definition BPF_TYPE_UREPLACE := 1009.

(** [perf_event_data_variant]; the software alternative is a shared pointer to the
    object [obj]. *)
Inductive perf_event_data :=
| UprobeData (offset pid ref_ctr_off : Z) (module_name : string)
| TracepointData (pid tracepoint_id : Z)
| SoftwareData (obj : nat)
| CustomData (attach_argument : string)
| KprobeData (func_name : string) (addr ref_ctr_off : Z).

Record bpf_perf_event_handler := mk_perf_event {
  pe_type : Z;
  pe_enabled : bool;
  pe_data : perf_event_data
}.

Definition perf_event_custom (type : Z) (attach_arg : string) : bpf_perf_event_handler :=
  mk_perf_event type false (CustomData attach_arg).

(** Replace and override probes; [ref_ctr_off] is value-initialised. *)
Definition perf_event_replace (type offset pid : Z) (module_name : string) (default_enabled : bool) :
    bpf_perf_event_handler :=
  mk_perf_event type default_enabled (UprobeData offset pid 0 module_name).

Definition perf_event_uprobe (is_retprobe : bool) (offset pid : Z) (module_name : string)
    (ref_ctr_off : Z) : bpf_perf_event_handler :=
  mk_perf_event (if is_retprobe then BPF_TYPE_URETPROBE else BPF_TYPE_UPROBE) false
    (UprobeData offset pid ref_ctr_off module_name).

Definition perf_event_kprobe (is_retprobe : bool) (addr : Z) (func_name : string)
    (ref_ctr_off : Z) : bpf_perf_event_handler :=
  mk_perf_event (if is_retprobe then BPF_TYPE_KRETPROBE else BPF_TYPE_KPROBE) false
    (KprobeData func_name addr ref_ctr_off).

Definition perf_event_tracepoint (pid tracepoint_id : Z) : bpf_perf_event_handler :=
  mk_perf_event PERF_TYPE_TRACEPOINT false (TracepointData pid tracepoint_id).

Definition perf_event_software (obj : nat) : bpf_perf_event_handler :=
  mk_perf_event PERF_TYPE_SOFTWARE false (SoftwareData obj).

Definition pe_enable (h : bpf_perf_event_handler) : bpf_perf_event_handler :=
  mk_perf_event (pe_type h) true (pe_data h).
Definition pe_disable (h : bpf_perf_event_handler) : bpf_perf_event_handler :=
  mk_perf_event (pe_type h) false (pe_data h).

Definition try_get_software_perf_data_weak_ptr (h : bpf_perf_event_handler) : option nat :=
  match pe_data h with SoftwareData obj => Some obj | _ => None end.

(** The software events of the shared memory, by object. *)
Definition sw_heap : Type := gmap nat software_perf_event_data.

Definition on_sw_event {A} (obj : nat) (c : SP A) : M sw_heap A := fun h e =>
  match h !! obj with
  | Some s => match c s e with
              | Ok a s' e' => Ok a (<[obj := s']> h) e'
              | Throw w s' e' => Throw w (<[obj := s']> h) e'
              | Ub w => Ub w
              end
  | None => Ub "dangling pointer"
  end.

Definition try_get_software_perf_data_raw_buffer (h : bpf_perf_event_handler) (buffer_size : Z)
    : M sw_heap (option vptr) :=
  match pe_data h with
  | SoftwareData obj => p ← on_sw_event obj (sp_ensure_mmap_buffer buffer_size); mret (Some p)
  | _ => mret None
  end.

(** ** Lemmas *)

(** The bytes of the ring between [data_tail] and [data_head] are the records [q],
    and the ring is never full. *)
Record sp_rel (s : software_perf_event_data) (q : list bytes) : Prop := {
  sr_pow : exists n, 0 <= n <= 40 /\ sp_mmap_size s = 2 ^ n;
  sr_tail : 0 <= sp_data_tail s;
  sr_head : sp_data_head s = sp_data_tail s + Z.of_nat (length (concat q));
  sr_wrap : sp_data_head s < 2 ^ 62;
  sr_room : Z.of_nat (length (concat q)) < sp_mmap_size s;
  sr_recs : Forall (fun r => r <> []) q;
  sr_bytes : forall i b, concat q !! i = Some b ->
    sp_data s !! Z.to_nat ((sp_data_tail s + Z.of_nat i) mod sp_mmap_size s) = Some b
}.

(** A record: the head, then the payload. *)
Definition sample_record (payload : bytes) : bytes :=
  sample_raw_head (Z.of_nat (length payload)) ++ payload.

Lemma length_sample_raw_head size : length (sample_raw_head size) = 12%nat.
Proof. unfold sample_raw_head. by rewrite !length_app, !length_le_encode. Qed.

Lemma length_sample_record p : length (sample_record p) = (12 + length p)%nat.
Proof. unfold sample_record. by rewrite length_app, length_sample_raw_head. Qed.

Lemma length_vec_resize n v : length (vec_resize n v) = n.
Proof. unfold vec_resize. rewrite length_app, length_take, length_zeros. lia. Qed.

(** Two copies that fill the copy buffer. *)
Lemma fill_copy_buffer cb p b1 b2 :
  length cb = (12 + length p)%nat ->
  write_range 0 (sample_raw_head (Z.of_nat (length p))) cb = Some b1 ->
  write_range 12 p b1 = Some b2 -> b2 = sample_record p.
Proof.
  intros Hl H1 H2. pose proof (write_range_length _ _ _ _ H1) as L1.
  pose proof (write_range_length _ _ _ _ H2) as L2. apply list_eq. intros i.
  rewrite (write_range_lookup _ _ _ _ _ H2), (write_range_lookup _ _ _ _ _ H1).
  rewrite length_sample_raw_head. unfold sample_record. rewrite lookup_app.
  pose proof (length_sample_raw_head (Z.of_nat (length p))) as L0.
  destruct (decide (i < 12)%nat) as [Hi|Hi].
  - rewrite decide_False, decide_True by lia. rewrite Nat.sub_0_r.
    destruct (lookup_lt_is_Some_2 (sample_raw_head (Z.of_nat (length p))) i) as [x Hx]; [lia|].
    by rewrite Hx.
  - rewrite (lookup_ge_None_2 (sample_raw_head _) i) by lia. rewrite L0.
    case_decide as Hd; [done|]. rewrite decide_False by lia.
    rewrite !lookup_ge_None_2 by lia. done.
Qed.

(** The ring copy: the bytes of [r] go to the positions [head], [head+1], ..
    modulo the size; the other bytes keep their values. *)
Definition ring_write (size start : Z) (r d : bytes) : option bytes :=
  if Z.of_nat (length r) + start <=? size then write_range (Z.to_nat start) r d
  else
    d1 ← write_range (Z.to_nat start) (take (Z.to_nat (size - start)) r) d;
    write_range 0 (drop (Z.to_nat (size - start)) r) d1.

Lemma ring_write_spec size start r d :
  Z.of_nat (length d) = size -> 0 <= start < size -> Z.of_nat (length r) < size ->
  exists d', ring_write size start r d = Some d' /\ length d' = length d /\
    forall j, 0 <= j < size -> d' !! Z.to_nat j =
      if decide ((j - start) mod size < Z.of_nat (length r))
      then r !! Z.to_nat ((j - start) mod size) else d !! Z.to_nat j.
Proof.
  intros Hd Hs Hr. unfold ring_write.
  assert (Hmod : forall j, 0 <= j < size ->
    (j - start) mod size = if decide (start <= j) then j - start else j - start + size).
  { intros j Hj. case_decide; [by rewrite Z.mod_small by lia|].
    symmetry. apply Z.mod_unique with (q := -1); lia. }
  destruct (Z.leb_spec (Z.of_nat (length r) + start) size) as [Hle|Hgt].
  - destruct (proj1 (write_range_is_Some (Z.to_nat start) r d)) as [d' Hd']; [lia|].
    exists d'. split; [done|]. split; [by eapply write_range_length|]. intros j Hj.
    rewrite (write_range_lookup _ _ _ _ _ Hd'), (Hmod j Hj).
    repeat case_decide; try lia; try done. f_equal. lia.
  - destruct (proj1 (write_range_is_Some (Z.to_nat start) (take (Z.to_nat (size - start)) r) d))
      as [d1 Hd1]; [rewrite length_take; lia|].
    pose proof (write_range_length _ _ _ _ Hd1) as L1.
    destruct (proj1 (write_range_is_Some 0 (drop (Z.to_nat (size - start)) r) d1))
      as [d2 Hd2]; [rewrite length_drop; lia|].
    exists d2. rewrite Hd1. simpl. split; [done|].
    split; [by rewrite (write_range_length _ _ _ _ Hd2)|]. intros j Hj.
    rewrite (write_range_lookup _ _ _ _ _ Hd2), (write_range_lookup _ _ _ _ _ Hd1), (Hmod j Hj).
    rewrite length_drop, length_take. repeat case_decide; try lia; try done.
    + rewrite lookup_drop. f_equal. lia.
    + rewrite lookup_take_lt by lia. f_equal. lia.
Qed.

(** The copy of [output_data] into the ring, in one or two pieces. *)
Lemma ring_copy_run size start r s d' e :
  sp_mmap_size s = size -> ring_write size start r (sp_data s) = Some d' ->
  (if Z.of_nat (length r) + start <=? size then sp_copy_in start r
   else
     sp_copy_in start (take (Z.to_nat (size - start)) r);;
     sp_copy_in 0 (drop (Z.to_nat (size - start)) r)) s e = Ok tt (sp_set_data s d') e.
Proof.
  intros Hs Hw. unfold ring_write in Hw. destruct (_ <=? size).
  - unfold sp_copy_in. mbase. by rewrite Hw.
  - apply bind_Some in Hw as (d1 & H1 & H2). unfold sp_copy_in. mbase. rewrite H1. unfold need.
    mbase. cbn [sp_data sp_set_data]. change (Z.to_nat 0) with 0%nat. by rewrite H2.
Qed.

Section output.
Variables (s : software_perf_event_data) (q : list bytes).
Hypothesis Hrel : sp_rel s q.
Abbreviation used := (Z.of_nat (length (concat q))).
Abbreviation size := (sp_mmap_size s).

Lemma sp_bounds : 0 <= used < size /\ size <= 2 ^ 40 /\ 0 <= sp_data_tail s /\
  sp_data_head s = sp_data_tail s + used /\ sp_data_head s < 2 ^ 62.
Proof.
  destruct Hrel as [(n & Hn & Hs) ? ? ? ? _ _]. split_and!; try lia.
  rewrite Hs. apply Z.pow_le_mono_r; lia.
Qed.

Lemma sp_available : s64 (size - (s64 (sp_data_head s) - s64 (sp_data_tail s))) = size - used.
Proof. pose proof sp_bounds. rewrite (s64_small (sp_data_head s)), (s64_small (sp_data_tail s)), s64_small; lia. Qed.

Lemma sp_start : Z.land (u64 (s64 (sp_data_head s))) (u64 (size - 1)) = sp_data_head s mod size.
Proof.
  pose proof sp_bounds. rewrite s64_small, !wrap_small by lia.
  destruct (sr_pow _ _ Hrel) as (n & Hn & ->). apply land_mask. lia.
Qed.

(** Appending a record behind [data_head]. *)
Lemma sp_append r :
  r <> [] -> used + Z.of_nat (length r) < size -> sp_data_head s + Z.of_nat (length r) < 2 ^ 62 ->
  exists d', ring_write size (sp_data_head s mod size) r (sp_data s) = Some d' /\
    length d' = length (sp_data s) /\
    forall cb, sp_rel (sp_set_head (sp_set_data (sp_set_copy s cb) d')
      (sp_data_head s + Z.of_nat (length r))) (q ++ [r]).
Proof.
  intros Hr Hlt Hw. pose proof sp_bounds as (Hu & Hsz & Ht & Hh & _).
  destruct (ring_write_spec size (sp_data_head s mod size) r (sp_data s)) as (d' & Hd & Hl & Hlook);
    [done|apply Z.mod_pos_bound; lia|lia|].
  exists d'. split; [done|]. split; [done|]. intros cb. pose proof Hrel as [Hp _ _ _ _ Hne Hb].
  assert (Hc : concat (q ++ [r]) = concat q ++ r) by (rewrite concat_app; simpl; by rewrite app_nil_r).
  split; unfold sp_mmap_size in *; simpl; rewrite ?Hc, ?length_app, ?Hl; try done; try lia.
  - apply Forall_app. split; [done|]. by apply Forall_singleton.
  - intros i b Hi. rewrite Hlook by (apply Z.mod_pos_bound; lia).
    rewrite Hh, <- Zminus_mod.
    replace (sp_data_tail s + Z.of_nat i - (sp_data_tail s + used)) with (Z.of_nat i - used) by lia.
    apply lookup_app_Some in Hi as [Hi|[Hge Hi]].
    + pose proof (lookup_lt_Some _ _ _ Hi) as Hlti.
      replace ((Z.of_nat i - used) mod _) with (Z.of_nat i - used + Z.of_nat (length (sp_data s)))
        by (apply Z.mod_unique with (q := -1); lia).
      rewrite decide_False by lia. by apply Hb.
    + pose proof (lookup_lt_Some _ _ _ Hi) as Hlti. rewrite Z.mod_small by lia.
      rewrite decide_True by lia. rewrite <- Hi. f_equal. lia.
Qed.

End output.

(** ** Theorems *)

(** Software perf event, output: it always returns 0; a sample that would fill
    the ring is dropped without a trace, any other is appended as one record
    (16-bit total size, 32-bit payload size, payload), across the end of the
    buffer if need be, and the records not yet consumed keep their bytes. The
    ring never fills up, so an empty ring can be told from a full one. *)
Theorem perf_output_refines s q buf p e :
  sp_rel s q -> points_to buf p -> Z.of_nat (length p) < 65524 -> sp_data_head s + 2 ^ 16 < 2 ^ 62 ->
  let r := sample_record p in
  exists s', sp_output_data buf (Z.of_nat (length p)) s e = Ok 0 s' e /\
    sp_mmap_size s' = sp_mmap_size s /\ sp_data_tail s' = sp_data_tail s /\
    sp_rel s' (if decide (Z.of_nat (length (concat q)) + Z.of_nat (length r) < sp_mmap_size s)
               then q ++ [r] else q).
Proof.
  intros Hr Hbuf Hp Hh. cbv zeta. pose proof (sp_bounds s q Hr) as (Hu & Hsz & _).
  unfold sp_output_data. mbase. rewrite (sp_available s q Hr). unfold sizeof_sample_raw.
  rewrite (proj2 (Z.eqb_neq _ 0)) by lia. rewrite (wrap_small 16) by lia.
  assert (Hlr : Z.of_nat (length (sample_record p)) = 12 + Z.of_nat (length p))
    by (rewrite length_sample_record; lia).
  case_decide as Hfit; [|rewrite (proj2 (Z.leb_le _ _)) by lia; by exists s].
  rewrite (proj2 (Z.leb_gt _ _)) by lia.
  set (cb := if Z.of_nat (length (sp_copy_buffer s)) =? _ then _ else _).
  assert (length cb = (12 + length p)%nat) as Hcb.
  { unfold cb. destruct (Z.eqb_spec (Z.of_nat (length (sp_copy_buffer s))) (12 + Z.of_nat (length p)));
      [lia|rewrite length_vec_resize; lia]. }
  cbn [sp_copy_buffer sp_set_copy].
  destruct (proj1 (write_range_is_Some 0 (sample_raw_head (Z.of_nat (length p))) cb)) as [b1 H1];
    [rewrite length_sample_raw_head; lia|].
  pose proof (write_range_length _ _ _ _ H1) as L1.
  destruct (proj1 (write_range_is_Some 12 p b1)) as [b2 H2]; [lia|].
  pose proof (fill_copy_buffer cb p b1 b2 Hcb H1 H2) as ->. rewrite H1. unfold need. mbase.
  rewrite Nat2Z.id, (deref_points_to _ p) by done. rewrite H2. mbase.
  change (sp_mmap_size (sp_set_copy s cb)) with (sp_mmap_size s).
  rewrite (sp_start s q Hr), <- Hlr.
  destruct (sp_append s q Hr (sample_record p)) as (d' & Hd & Hl & Hrel').
  { intros E. rewrite E in Hlr. simpl in Hlr. lia. }
  { done. } { lia. }
  erewrite ring_copy_run; [|done|exact Hd].
  eexists. split; [done|]. split; [unfold sp_mmap_size; simpl; by rewrite Hl|]. split; [done|].
  pose proof (sp_bounds s q Hr) as (_ & _ & Ht & Hhead & _).
  rewrite s64_small, wrap_small by lia. apply Hrel'.
Qed.

(** The consumer has read the oldest record and moved [data_tail] past it. *)
Lemma sp_rel_pop s r q :
  sp_rel s (r :: q) -> sp_rel (sp_set_tail s (sp_data_tail s + Z.of_nat (length r))) q.
Proof.
  intros [Hp Ht Hh Hw Hroom Hne Hb]. apply Forall_cons in Hne as [_ Hne]. simpl in *.
  rewrite length_app in *. split; unfold sp_mmap_size in *; simpl; try done; try lia.
  intros i b Hi. rewrite <- Z.add_assoc, <- Nat2Z.inj_add. apply Hb.
  rewrite lookup_app_r by lia. rewrite <- Hi. f_equal. lia.
Qed.

(** Software perf event, has_data: true exactly when records are waiting. It is
    what epoll reports, and it stays true until the consumer has moved
    [data_tail] past the last record. *)
Theorem perf_has_data_spec s r q e :
  sp_rel s (r :: q) ->
  sp_has_data s e = Ok true s e /\
  let s' := sp_set_tail s (sp_data_tail s + Z.of_nat (length r)) in
  sp_has_data s' e = Ok (bool_decide (q <> [])) s' e.
Proof.
  intros Hr. assert (H : forall s q, sp_rel s q -> sp_has_data s e = Ok (bool_decide (q <> [])) s e).
  { clear. intros s q Hr. unfold sp_has_data. mbase. destruct Hr as [_ _ Hh _ _ Hne _].
    rewrite Hh. f_equal. destruct q as [|r q]; simpl.
    - by rewrite Z.add_0_r, Z.eqb_refl.
    - apply Forall_cons in Hne as [Hne _]. destruct r as [|b r]; [done|]. simpl.
      rewrite (proj2 (Z.eqb_neq _ _)) by lia. done. }
  split; [by rewrite (H _ _ Hr)|]. apply H. by apply sp_rel_pop.
Qed.

(** The 16-bit [header.size] wraps: a sample of 65524 bytes or more that is not
    dropped gets a copy buffer smaller than itself, and the payload is copied
    past its end. *)
Theorem perf_output_overflow s buf p e :
  points_to buf p -> 65524 <= Z.of_nat (length p) ->
  sp_data_head s = 0 -> sp_data_tail s = 0 ->
  u16 (12 + Z.of_nat (length p)) < sp_mmap_size s < 2 ^ 62 ->
  sp_output_data buf (Z.of_nat (length p)) s e = Ub "copy outside copy_buffer".
Proof.
  intros Hbuf Hp Hh Ht Hm. unfold sp_output_data. mbase. rewrite Hh, Ht.
  pose proof (wrap_range 16 (12 + Z.of_nat (length p)) ltac:(lia)) as Hw16.
  unfold sizeof_sample_raw. set (cs := u16 _) in *.
  change (s64 0 - s64 0) with 0. rewrite Z.sub_0_r, s64_small by lia.
  rewrite (proj2 (Z.eqb_neq _ 0)) by lia. rewrite (proj2 (Z.leb_gt _ _)) by lia.
  set (cb := if _ =? cs then _ else _).
  assert (length cb = Z.to_nat cs) as Hcb.
  { unfold cb. destruct (Z.eqb_spec (Z.of_nat (length (sp_copy_buffer s))) cs);
      [lia|apply length_vec_resize]. }
  cbn [sp_copy_buffer sp_set_copy].
  destruct (write_range 0 (sample_raw_head (Z.of_nat (length p))) cb) as [b1|] eqn:H1; [|done].
  pose proof (write_range_length _ _ _ _ H1) as L1. unfold need. mbase.
  rewrite Nat2Z.id, (deref_points_to _ p) by done. unfold write_range.
  rewrite decide_False; [done|]. rewrite L1, Hcb. unfold cs in *. lia.
Qed.

(** [ensure_mmap_buffer] refuses a data size that is not a power of two, but
    only after it has resized the buffer: the second request for the same size
    is granted, and the ring then indexes with a mask that is not one. *)
Theorem perf_mmap_reject_then_accept s n e :
  0 <= sp_pagesize s -> sp_mmap_size s < n < 2 ^ 64 -> ~ (exists k, 0 <= k /\ n = 2 ^ k) ->
  exists s', sp_ensure_mmap_buffer (sp_pagesize s + n) s e = Ok VNull s' e /\
    sp_mmap_size s' = n /\ sp_ensure_mmap_buffer (sp_pagesize s + n) s' e = Ok (VBuf 0) s' e.
Proof.
  intros Hp Hn Hpow. unfold sp_ensure_mmap_buffer. mbase.
  rewrite (proj2 (Z.ltb_lt _ _)) by lia. replace (sp_pagesize s + n - sp_pagesize s) with n by lia.
  rewrite (proj2 (Z.eqb_neq (popcnt n) 1)).
  2:{ intros Hc. apply Hpow. apply popcnt_pow2; [unfold sp_mmap_size in Hn; lia|done]. }
  cbn [negb]. eexists. split; [done|].
  assert (forall s', sp_data s' = vec_resize (Z.to_nat n) (sp_data s) -> sp_mmap_size s' = n) as Hsz.
  { intros s' Hs'. unfold sp_mmap_size in *. rewrite Hs', length_vec_resize. lia. }
  split; [by apply Hsz|]. rewrite Hsz by done. cbn [sp_pagesize sp_set_size sp_set_data].
  by rewrite Z.ltb_irrefl.
Qed.

(** [ensure_mmap_buffer] with a power of two as the data size succeeds, grows the
    data region to it (never shrinks it) and leaves an empty ring empty. *)
Theorem perf_mmap_grow page cpu config st k e :
  0 <= page -> 0 <= k <= 40 ->
  exists s', sp_ensure_mmap_buffer (page + 2 ^ k) (sw_event_new page cpu config st) e = Ok (VBuf 0) s' e /\
    sp_mmap_size s' = 2 ^ k /\ sp_data_size s' = 2 ^ k /\ sp_rel s' [].
Proof.
  intros Hp Hk. assert (0 < 2 ^ k <= 2 ^ 40) as H2k by (split; [lia|apply Z.pow_le_mono_r; lia]).
  unfold sp_ensure_mmap_buffer. mbase. cbn [sp_pagesize sw_event_new sp_mmap_size sp_data length].
  unfold sp_mmap_size at 1. cbn [sp_data sw_event_new length]. rewrite (proj2 (Z.ltb_lt _ _)) by lia.
  replace (page + 2 ^ k - page) with (2 ^ k) by lia.
  rewrite (proj2 (Z.eqb_eq (popcnt _) 1)) by (apply popcnt_pow2; [lia|exists k; lia]). cbn [negb].
  eexists. split; [done|].
  assert (sp_mmap_size (sp_set_size (sp_set_data (sw_event_new page cpu config st)
    (vec_resize (Z.to_nat (2 ^ k)) [])) (2 ^ k)) = 2 ^ k) as Hs.
  { unfold sp_mmap_size. simpl sp_data. rewrite length_vec_resize. lia. }
  split; [done|]. split; [done|]. split; rewrite ?Hs; try done; [eauto|simpl; lia].
Qed.

(** *** Witnesses *)

(** A ring of 64 bytes, 40 bytes into its life, with one record of one byte. *)
Definition small_event : software_perf_event_data :=
  mk_sw_event 0 0 0 4096 53 40 4096 64
    (zeros 40 ++ sample_record [7] ++ zeros 11) (zeros 4096).

Lemma small_event_rel : sp_rel small_event [sample_record [7]].
Proof.
  split; try done; [by exists 6|by constructor|].
  intros i b Hi. pose proof (lookup_lt_Some _ _ _ Hi) as Hlt. change (i < 13)%nat in Hlt.
  do 13 (destruct i as [|i]; [vm_compute in Hi |- *; congruence|]). lia.
Qed.

Lemma perf_output_refines_witness :
  exists s', sp_output_data (Some [1; 2; 3; 4]) 4 small_event 0 = Ok 0 s' 0 /\
    sp_mmap_size s' = 64 /\ sp_data_tail s' = 40 /\
    sp_rel s' [sample_record [7]; sample_record [1; 2; 3; 4]].
Proof.
  refine (perf_output_refines small_event [sample_record [7]] (Some [1; 2; 3; 4]) [1; 2; 3; 4] 0
    small_event_rel (points_to_self _) _ _); vm_compute; done.
Defined.

Lemma perf_has_data_spec_witness :
  sp_has_data small_event 0 = Ok true small_event 0 /\
  sp_has_data (sp_set_tail small_event 53) 0 = Ok false (sp_set_tail small_event 53) 0.
Proof. exact (perf_has_data_spec small_event (sample_record [7]) [] 0 small_event_rel). Defined.

Lemma perf_output_overflow_witness :
  sp_output_data (Some (zeros (Z.to_nat 65524))) (Z.of_nat (length (zeros (Z.to_nat 65524))))
    (sp_set_data (sw_event_new 4096 0 0 0) (zeros 64)) 0 = Ub "copy outside copy_buffer".
Proof.
  refine (perf_output_overflow (sp_set_data (sw_event_new 4096 0 0 0) (zeros 64))
    (Some (zeros (Z.to_nat 65524))) (zeros (Z.to_nat 65524)) 0 (points_to_self _) _ eq_refl eq_refl _);
    rewrite length_zeros; vm_compute; [done|split; done].
Defined.

Lemma perf_mmap_reject_then_accept_witness :
  exists s', sp_ensure_mmap_buffer 4099 (sw_event_new 4096 0 0 0) 0 = Ok VNull s' 0 /\
    sp_mmap_size s' = 3 /\ sp_ensure_mmap_buffer 4099 s' 0 = Ok (VBuf 0) s' 0.
Proof.
  refine (perf_mmap_reject_then_accept (sw_event_new 4096 0 0 0) 3 0 _ _ _);
    [simpl; lia|unfold sp_mmap_size; simpl; lia|].
  intros Hk. apply popcnt_pow2 in Hk; [discriminate Hk|lia].
Defined.

Lemma perf_mmap_grow_witness :
  exists s', sp_ensure_mmap_buffer 4104 (sw_event_new 4096 0 0 0) 0 = Ok (VBuf 0) s' 0 /\
    sp_mmap_size s' = 8 /\ sp_data_size s' = 8 /\ sp_rel s' [].
Proof. refine (perf_mmap_grow 4096 0 0 0 3 0 _ _); lia. Defined.
