(* ===== verification/KernelUser.v ===== *)
(** Maps shared with the kernel (bpf_map/shared/*.{hpp,cpp}): thin front ends of a
    kernel map reached by its id. The kernel and libbpf are parameters: the class
    [BpfKernel] lists the calls the code makes, each an operation on the kernel's
    state [K]. *)
From Stdlib Require Import ZArith Lia.
From stdpp Require Import base list gmap strings.
From S2P Require Import Prelude MapCommon FdArrays.
Local Open Scope Z_scope.

Record kmap_info := mk_kmap_info {
  ki_key_size : Z;
  ki_value_size : Z;
  ki_max_entries : Z
}.

(** A [bpf_map_info info = {}]. *)
Definition kmap_info_zero := mk_kmap_info 0 0 0.

Class BpfKernel (K : Type) := {
  bpf_map_get_fd_by_id : Z -> M K Z;
  bpf_obj_get_info_by_fd : Z -> M K (Z * kmap_info);
  bpf_map_lookup_elem : Z -> ptr -> M K (Z * bytes);
  bpf_map_update_elem : Z -> ptr -> ptr -> Z -> M K Z;
  bpf_map_delete_elem : Z -> ptr -> M K Z;
  bpf_map_get_next_key : Z -> ptr -> bool -> M K (Z * option bytes);
  (** [mmap] of anonymous memory, then of the map over it: success or not. *)
  mmap_anonymous : Z -> M K bool;
  mmap_fixed : Z -> Z -> M K bool;
  (** Stores into the memory of a mapped kernel map. *)
  kernel_map_store : Z -> nat -> bytes -> M K unit;
  kernel_page_size : Z;
  (** The user ring buffer of libbpf. *)
  user_ring_buffer_reserve : Z -> M K (option nat);
  user_ring_buffer_submit : nat -> bytes -> M K unit
}.

(** The calls of the constructor and destructor of the shared perf event array. *)
Class PerfTransport (K : Type) := {
  user_ringbuf_create : Z -> M K Z;
  user_ringbuf_info : Z -> M K (Z * Z);
  perf_event_open_timer : Z -> M K Z;
  create_transporter_prog : Z -> Z -> M K Z;
  ioctl_set_bpf : Z -> Z -> M K Z;
  ioctl_event_enable : Z -> M K Z;
  ioctl_event_disable : Z -> M K unit;
  os_close : Z -> M K unit
}.

Section kernel_user.
Context {K : Type} `{BpfKernel K}.

(** ** array_map_kernel_user_impl *)

(** [void *mmap_ptr] has no initialiser. *)
Inductive mmap_ptr :=
| MIndeterminate
| MFailed
| MAnonymous
| MKernel (fd : Z).

Record array_map_kernel_user_impl := mk_array_ku {
  aku_value_data : bytes;
  aku_value_size : option Z;
  aku_max_entries : option Z;
  aku_map_fd : Z;
  aku_kernel_map_id : Z;
  aku_mmap_ptr : mmap_ptr
}.

(** The state of an operation: the front end and the kernel. *)
Abbreviation AKU := (M (array_map_kernel_user_impl * K)).

Definition in_kernel {S A} (c : M K A) : M (S * K) A := zoom snd (fun k s => (s.1, k)) c.
Definition aku_put (s : array_map_kernel_user_impl) : AKU unit := modify (fun x => (s, x.2)).

Definition array_ku_new (km_id : Z) : array_map_kernel_user_impl :=
  mk_array_ku [0] None None (-1) km_id MIndeterminate.

Definition roundup (x y : Z) : Z := (x + (y - 1)) / y * y.

Definition bpf_map_mmap_sz (value_sz max_entries : Z) : Z :=
  roundup (roundup value_sz 8 * max_entries) kernel_page_size.

Definition aku_init_map_fd : AKU unit :=
  s0 ← gets fst;
  map_fd ← in_kernel (bpf_map_get_fd_by_id (aku_kernel_map_id s0));
  let s1 := mk_array_ku (aku_value_data s0) (aku_value_size s0) (aku_max_entries s0) map_fd
    (aku_kernel_map_id s0) (aku_mmap_ptr s0) in
  aku_put s1;;
  if map_fd <? 0 then mret tt
  else
    r ← in_kernel (bpf_obj_get_info_by_fd map_fd);
    let vs := ki_value_size r.2 in
    let me := ki_max_entries r.2 in
    let with_ptr p := mk_array_ku (zeros (Z.to_nat vs)) (Some vs) (Some me) map_fd
      (aku_kernel_map_id s0) p in
    let mmap_sz := bpf_map_mmap_sz vs me in
    ok ← in_kernel (mmap_anonymous mmap_sz);
    if negb ok then aku_put (with_ptr MFailed)
    else
      ok ← in_kernel (mmap_fixed map_fd mmap_sz);
      aku_put (with_ptr (if ok : bool then MKernel map_fd else MAnonymous)).

Definition aku_ensure : AKU unit :=
  s ← gets fst;
  if aku_map_fd s <? 0 then aku_init_map_fd else mret tt.

(** [if (mmap_ptr != nullptr)]: every value the pointer can hold is non-null. *)
Definition aku_mapped : AKU mmap_ptr :=
  s ← gets fst;
  match aku_mmap_ptr s with
  | MIndeterminate => ub "indeterminate pointer"
  | p => mret p
  end.

(** The bounds check on the mapped path: the offset of the element. *)
Definition aku_index (key : ptr) : AKU (option nat) :=
  key_val ← deref_u32 key;
  s ← gets fst;
  max_entries ← need "indeterminate value" (aku_max_entries s);
  value_size ← need "indeterminate value" (aku_value_size s);
  mret (if max_entries <=? key_val then None else Some (Z.to_nat (u32 (key_val * value_size)))).

(** A store through [mmap_ptr]. *)
Definition aku_store (p : mmap_ptr) (off : nat) (bs : bytes) : AKU unit :=
  match p with
  | MKernel fd => in_kernel (kernel_map_store fd off bs)
  | MAnonymous => mret tt
  | _ => ub "store through MAP_FAILED"
  end.

Definition aku_elem_lookup (key : ptr) : AKU vptr :=
  aku_ensure;;
  _ ← aku_mapped;
  i ← aku_index key;
  match i with
  | None => fail_with ENOENT VNull
  | Some off => mret (VBuf off)
  end.

Definition aku_elem_update (key value : ptr) (flags : Z) : AKU Z :=
  aku_ensure;;
  p ← aku_mapped;
  i ← aku_index key;
  match i with
  | None => fail_with ENOENT (-1)
  | Some off =>
      s ← gets fst;
      v ← deref (Z.to_nat (default 0 (aku_value_size s))) value;
      aku_store p off v;;
      mret 0
  end.

Definition aku_elem_delete (key : ptr) : AKU Z :=
  aku_ensure;;
  p ← aku_mapped;
  i ← aku_index key;
  match i with
  | None => fail_with ENOENT (-1)
  | Some off =>
      s ← gets fst;
      aku_store p off (zeros (Z.to_nat (default 0 (aku_value_size s))));;
      mret 0
  end.

(** The only operation that does not open the map first. *)
Definition aku_map_get_next_key (key : ptr) (next_key : bool) : AKU (Z * option bytes) :=
  match key with
  | None => write_next_key next_key (le_encode 4 0)
  | Some _ =>
      s ← gets fst;
      max_entries ← need "indeterminate value" (aku_max_entries s);
      index_next_key max_entries key next_key
  end.

#[export] Instance array_ku_MapImpl : MapImpl (array_map_kernel_user_impl * K) := {
  should_lock := false;
  elem_lookup := aku_elem_lookup;
  elem_update := aku_elem_update;
  elem_delete := aku_elem_delete;
  map_get_next_key := aku_map_get_next_key
}.

(** ** hash_map_kernel_user_impl *)

Record hash_map_kernel_user_impl := mk_hash_ku {
  hku_key_vec : bytes;
  hku_value_vec : bytes;
  hku_kernel_map_id : Z;
  hku_map_fd : Z
}.

Abbreviation HKU := (M (hash_map_kernel_user_impl * K)).

Definition hku_put (s : hash_map_kernel_user_impl) : HKU unit := modify (fun x => (s, x.2)).

Definition hash_ku_new (km_id : Z) : hash_map_kernel_user_impl := mk_hash_ku [0] [0] km_id (-1).

Definition hku_init_map_fd : HKU unit :=
  s ← gets fst;
  map_fd ← in_kernel (bpf_map_get_fd_by_id (hku_kernel_map_id s));
  hku_put (mk_hash_ku (hku_key_vec s) (hku_value_vec s) (hku_kernel_map_id s) map_fd);;
  if map_fd <? 0 then mret tt
  else
    r ← in_kernel (bpf_obj_get_info_by_fd map_fd);
    hku_put (mk_hash_ku (zeros (Z.to_nat (ki_key_size r.2))) (zeros (Z.to_nat (ki_value_size r.2)))
      (hku_kernel_map_id s) map_fd).

Definition hku_ensure : HKU Z :=
  s ← gets fst;
  (if hku_map_fd s <? 0 then hku_init_map_fd else mret tt);;
  s ← gets fst;
  mret (hku_map_fd s).

(** The kernel writes a value of its own size behind [value_vec.data()]. *)
Definition hku_elem_lookup (key : ptr) : HKU vptr :=
  fd ← hku_ensure;
  r ← in_kernel (bpf_map_lookup_elem fd key);
  if r.1 <? 0 then mret VNull
  else
    s ← gets fst;
    v ← need "copy outside value_vec" (write_range 0 r.2 (hku_value_vec s));
    hku_put (mk_hash_ku (hku_key_vec s) v (hku_kernel_map_id s) (hku_map_fd s));;
    mret VScratch.

Definition hku_elem_update (key value : ptr) (flags : Z) : HKU Z :=
  fd ← hku_ensure; in_kernel (bpf_map_update_elem fd key value flags).

Definition hku_elem_delete (key : ptr) : HKU Z :=
  fd ← hku_ensure; in_kernel (bpf_map_delete_elem fd key).

Definition hku_map_get_next_key (key : ptr) (next_key : bool) : HKU (Z * option bytes) :=
  fd ← hku_ensure; in_kernel (bpf_map_get_next_key fd key next_key).

#[export] Instance hash_ku_MapImpl : MapImpl (hash_map_kernel_user_impl * K) := {
  should_lock := false;
  elem_lookup := hku_elem_lookup;
  elem_update := hku_elem_update;
  elem_delete := hku_elem_delete;
  map_get_next_key := hku_map_get_next_key
}.

(** ** percpu_array_map_kernel_user_impl *)

Record percpu_array_map_kernel_user_impl := mk_percpu_ku {
  pku_kernel_map_fd : Z;
  pku_kernel_map_id : Z;
  pku_ncpu : Z;
  pku_value_data : bytes
}.

Abbreviation PKU := (M (percpu_array_map_kernel_user_impl * K)).

Definition percpu_ku_new (ncpu km_id : Z) : percpu_array_map_kernel_user_impl :=
  mk_percpu_ku (-1) km_id ncpu [0].

(** Private, and called by none of the operations below. *)
Definition pku_init_map_fd : PKU unit :=
  s ← gets fst;
  fd ← in_kernel (bpf_map_get_fd_by_id (pku_kernel_map_id s));
  modify (fun x => (mk_percpu_ku fd (pku_kernel_map_id s) (pku_ncpu s) (pku_value_data s), x.2));;
  if fd <? 0 then mret tt
  else
    r ← in_kernel (bpf_obj_get_info_by_fd fd);
    if r.1 <? 0 then mret tt
    else modify (fun x => (mk_percpu_ku fd (pku_kernel_map_id s) (pku_ncpu s)
      (zeros (Z.to_nat (u32 (ki_value_size r.2 * pku_ncpu s)))), x.2)).

Definition pku_elem_lookup (key : ptr) : PKU vptr :=
  s ← gets fst;
  r ← in_kernel (bpf_map_lookup_elem (pku_kernel_map_fd s) key);
  if r.1 <? 0 then mret VNull
  else
    v ← need "copy outside value_data" (write_range 0 r.2 (pku_value_data s));
    modify (fun x => (mk_percpu_ku (pku_kernel_map_fd s) (pku_kernel_map_id s) (pku_ncpu s) v, x.2));;
    mret VScratch.

Definition pku_elem_update (key value : ptr) (flags : Z) : PKU Z :=
  s ← gets fst; in_kernel (bpf_map_update_elem (pku_kernel_map_fd s) key value flags).

Definition pku_elem_delete (key : ptr) : PKU Z :=
  s ← gets fst; in_kernel (bpf_map_delete_elem (pku_kernel_map_fd s) key).

Definition pku_map_get_next_key (key : ptr) (next_key : bool) : PKU (Z * option bytes) :=
  s ← gets fst; in_kernel (bpf_map_get_next_key (pku_kernel_map_fd s) key next_key).

#[export] Instance percpu_ku_MapImpl : MapImpl (percpu_array_map_kernel_user_impl * K) := {
  should_lock := false;
  elem_lookup := pku_elem_lookup;
  elem_update := pku_elem_update;
  elem_delete := pku_elem_delete;
  map_get_next_key := pku_map_get_next_key
}.

(** ** perf_event_array_kernel_user_impl

    The elements are dummies; the data goes to the kernel through a user ring
    buffer. *)
Record perf_event_array_kernel_user_impl := mk_perf_ku {
  pkp_max_ent : Z;
  pkp_kernel_perf_id : Z;
  pkp_user_rb_id : option Z;
  pkp_pfd : Z;
  pkp_transporter_prog_fd : Z
}.

Abbreviation PEKU := (M (perf_event_array_kernel_user_impl * K)).

Definition pkp_index (key : ptr) : PEKU (option Z) :=
  k ← deref_i32 key;
  s ← gets fst;
  mret (if (k <? 0) || (pkp_max_ent s <=? k) then None else Some k).

Definition pkp_elem_lookup (key : ptr) : PEKU vptr :=
  i ← pkp_index key;
  match i with None => fail_with EINVAL VNull | Some _ => mret VScratch end.

Definition pkp_elem_update (key value : ptr) (flags : Z) : PEKU Z :=
  i ← pkp_index key;
  match i with None => fail_with EINVAL (-1) | Some _ => _ ← deref_i32 value; mret 0 end.

Definition pkp_elem_delete (key : ptr) : PEKU Z :=
  i ← pkp_index key;
  match i with None => fail_with EINVAL (-1) | Some _ => mret 0 end.

Definition pkp_map_get_next_key (key : ptr) (next_key : bool) : PEKU (Z * option bytes) :=
  match key with
  | None => write_next_key next_key (le_encode 4 0)
  | Some _ =>
      k ← deref_i32 key;
      s ← gets fst;
      if k =? 2 ^ 31 - 1 then ub "signed overflow"
      else if u64 (k + 1) =? pkp_max_ent s then fail_with ENOENT (-1, None)
      else if (k <? 0) || (pkp_max_ent s <=? k) then fail_with EINVAL (-1, None)
      else write_next_key next_key (le_encode 4 (k + 1))
  end.

#[export] Instance perf_ku_MapImpl : MapImpl (perf_event_array_kernel_user_impl * K) := {
  should_lock := false;
  elem_lookup := pkp_elem_lookup;
  elem_update := pkp_elem_update;
  elem_delete := pkp_elem_delete;
  map_get_next_key := pkp_map_get_next_key
}.

(** The constructor, on the map's future state and the kernel: it creates the user
    ring buffer, a timer perf event and the transporter program, and attaches the
    program to the event. When the ring buffer cannot be created or queried it
    returns early and leaves [user_rb_id] indeterminate. *)
Definition perf_ku_new `{PerfTransport K} (key_size value_size max_entries kernel_perf_id : Z)
    : M K perf_event_array_kernel_user_impl :=
  if negb (key_size =? 4) || negb (value_size =? 4)
  then throw "Key size and value size of perf_event_array must be 4"
  else
    user_rb_fd ← user_ringbuf_create kernel_perf_id;
    if user_rb_fd <? 0 then mret (mk_perf_ku max_entries kernel_perf_id None (-1) (-1))
    else
      info ← user_ringbuf_info user_rb_fd;
      if info.1 <? 0 then mret (mk_perf_ku max_entries kernel_perf_id None (-1) (-1))
      else
        pfd ← perf_event_open_timer 10;
        kernel_perf_fd ← bpf_map_get_fd_by_id kernel_perf_id;
        bpf_fd ← create_transporter_prog user_rb_fd kernel_perf_fd;
        if bpf_fd <? 0 then
          throw "Unable to create transporter kernel ebpf program for shared perf event"
        else
          err ← ioctl_set_bpf pfd bpf_fd;
          if err <? 0 then throw "Failed to run PERF_EVENT_IOC_SET_BPF"
          else
            err ← ioctl_event_enable pfd;
            if err <? 0 then throw "Failed to run PERF_EVENT_IOC_ENABLE"
            else mret (mk_perf_ku max_entries kernel_perf_id (Some info.2) pfd bpf_fd).

(** The destructor. *)
Definition perf_ku_destroy `{PerfTransport K} (s : perf_event_array_kernel_user_impl) : M K unit :=
  ioctl_event_disable (pkp_pfd s);;
  os_close (pkp_pfd s);;
  os_close (pkp_transporter_prog_fd s).

(** [output_data_into_kernel]: eight bytes of length, then the data. *)
Definition output_data_into_kernel (buf : ptr) (size : Z) : PEKU Z :=
  if 480 - 32 <? size then fail_with E2BIG (-1)
  else
    mem ← in_kernel (user_ring_buffer_reserve (u32 (size + 8)));
    match mem with
    | None => get_errno
    | Some p =>
        d ← deref (Z.to_nat size) buf;
        in_kernel (user_ring_buffer_submit p (le_encode 8 size ++ d));;
        mret 0
    end.

(** ** Theorems *)

Lemma in_kernel_ok {S A} (c : M K A) (s : S) k e a k' e' :
  c k e = Ok a k' e' -> in_kernel c (s, k) e = Ok a (s, k') e'.
Proof. intros Hc. unfold in_kernel, zoom. simpl. by rewrite Hc. Qed.

(** Kernel-shared array: the mapped memory keeps element [i] at
    [i * roundup(value_size, 8)], as [bpf_map_mmap_sz] assumes, but lookups
    address [i * value_size]; unless the value size is a multiple of eight, every
    index but 0 gets the wrong bytes. *)
Theorem array_ku_wrong_stride s k fd vs me i e :
  aku_map_fd s = fd -> 0 <= fd -> aku_mmap_ptr s = MKernel fd ->
  aku_value_size s = Some vs -> aku_max_entries s = Some me ->
  0 < vs -> 0 < i < me -> me * vs < 2 ^ 32 ->
  exists off, aku_elem_lookup (Some (le_encode 4 i)) (s, k) e = Ok (VBuf off) (s, k) e /\
    (Z.of_nat off = i * roundup vs 8 <-> vs mod 8 = 0).
Proof.
  intros Hfd Hge Hp Hvs Hme Hpos Hi Hu. exists (Z.to_nat (i * vs)). split.
  - unfold aku_elem_lookup, aku_ensure, aku_mapped, aku_index. mbase. cbn [fst].
    rewrite Hfd, (proj2 (Z.ltb_ge _ _)) by lia. cbn [fst]. rewrite Hp.
    rewrite (deref_u32_points_to _ i) by (auto with bpf; nia). cbn [fst].
    rewrite Hme, Hvs. unfold need.
    mbase. rewrite (proj2 (Z.leb_gt _ _)) by lia. by rewrite wrap_small by nia.
  - rewrite Z2Nat.id by nia. unfold roundup.
    pose proof (Z.div_mod vs 8). pose proof (Z.div_mod (vs + (8 - 1)) 8).
    pose proof (Z.mod_pos_bound vs 8). pose proof (Z.mod_pos_bound (vs + (8 - 1)) 8).
    assert (vs mod 8 = 0 <-> vs = (vs + (8 - 1)) / 8 * 8) as -> by lia. nia.
Qed.

(** Kernel-shared per-CPU array: [init_map_fd] is never called, so every
    operation of a fresh map asks the kernel about descriptor -1, and the
    descriptor stays -1 afterwards. *)
Theorem percpu_ku_never_opened ncpu id key value flags k e :
  let s := percpu_ku_new ncpu id in
  pku_elem_update key value flags (s, k) e =
    in_kernel (bpf_map_update_elem (-1) key value flags) (s, k) e /\
  pku_elem_delete key (s, k) e = in_kernel (bpf_map_delete_elem (-1) key) (s, k) e /\
  forall a s' k' e', pku_elem_lookup key (s, k) e = Ok a (s', k') e' -> pku_kernel_map_fd s' = -1.
Proof.
  cbv zeta. split; [done|]. split; [done|]. intros a s' k' e'.
  unfold pku_elem_lookup, in_kernel, zoom. mbase. simpl.
  destruct (bpf_map_lookup_elem (-1) key k e) as [[r bs] k1 e1|?|?]; [|done..]. simpl.
  destruct (r <? 0); [by intros [= <- <- <- <-]|]. unfold need.
  destruct (write_range 0 bs [0]); [|done]. by intros [= <- <- <- <-].
Qed.

(** Kernel-shared perf event array: data above 448 bytes is refused with E2BIG;
    otherwise, when the ring buffer has room, the kernel side receives the length
    in eight bytes followed by exactly the data, and the call returns 0. *)
Theorem perf_ku_output s k buf p e mem k1 :
  points_to buf p ->
  user_ring_buffer_reserve (Z.of_nat (length p) + 8) k e = Ok (Some mem) k1 e ->
  output_data_into_kernel buf (Z.of_nat (length p)) (s, k) e =
  if decide (Z.of_nat (length p) <= 448) then
    match user_ring_buffer_submit mem (le_encode 8 (Z.of_nat (length p)) ++ p) k1 e with
    | Ok _ k2 e2 => Ok 0 (s, k2) e2
    | Throw w k2 e2 => Throw w (s, k2) e2
    | Ub w => Ub w
    end
  else Ok (-1) (s, k) E2BIG.
Proof.
  intros Hp Hres. unfold output_data_into_kernel. case_decide as Hs.
  - rewrite (proj2 (Z.ltb_ge _ _)) by lia. mbase. rewrite wrap_small by lia.
    rewrite (in_kernel_ok _ _ _ _ _ _ _ Hres). rewrite Nat2Z.id, (deref_points_to _ p) by done.
    unfold in_kernel, zoom. simpl. by destruct (user_ring_buffer_submit _ _ _ _).
  - by rewrite (proj2 (Z.ltb_lt _ _)) by lia.
Qed.

End kernel_user.

(** *** Witnesses: a kernel that knows one map and keeps the submitted samples *)

Definition toy_kernel : BpfKernel (list bytes) := {|
  bpf_map_get_fd_by_id := fun id => mret id;
  bpf_obj_get_info_by_fd := fun fd => mret (0, mk_kmap_info 4 4 8);
  bpf_map_lookup_elem := fun fd key => mret (if fd <? 0 then (-1, []) else (0, [0]));
  bpf_map_update_elem := fun fd key value flags => mret (if fd <? 0 then -1 else 0);
  bpf_map_delete_elem := fun fd key => mret (if fd <? 0 then -1 else 0);
  bpf_map_get_next_key := fun fd key next => mret (-1, None);
  mmap_anonymous := fun sz => mret true;
  mmap_fixed := fun fd sz => mret true;
  kernel_map_store := fun fd off bs => mret tt;
  kernel_page_size := 4096;
  user_ring_buffer_reserve := fun n => mret (Some O);
  user_ring_buffer_submit := fun p bs => modify (fun k => k ++ [bs])
|}.

Definition toy_transport : PerfTransport (list bytes) := {|
  user_ringbuf_create := fun id => mret 3;
  user_ringbuf_info := fun fd => mret (0, 8);
  perf_event_open_timer := fun ms => mret 4;
  create_transporter_prog := fun rb perf => mret 5;
  ioctl_set_bpf := fun pfd fd => mret 0;
  ioctl_event_enable := fun pfd => mret 0;
  ioctl_event_disable := fun pfd => mret tt;
  os_close := fun fd => mret tt
|}.

Lemma array_ku_wrong_stride_witness :
  exists off, @aku_elem_lookup _ toy_kernel (Some (le_encode 4 1))
      (mk_array_ku [0] (Some 4) (Some 8) 5 5 (MKernel 5), []) 0 =
    Ok (VBuf off) (mk_array_ku [0] (Some 4) (Some 8) 5 5 (MKernel 5), []) 0 /\
    (Z.of_nat off = 1 * roundup 4 8 <-> 4 mod 8 = 0).
Proof.
  refine (@array_ku_wrong_stride _ toy_kernel (mk_array_ku [0] (Some 4) (Some 8) 5 5 (MKernel 5)) []
    5 4 8 1 0 eq_refl _ eq_refl eq_refl eq_refl _ _ _); lia.
Defined.

Lemma perf_ku_output_witness :
  @output_data_into_kernel _ toy_kernel (Some [1; 2]) 2 (mk_perf_ku 4 7 (Some 8) 3 4, []) 0 =
  Ok 0 (mk_perf_ku 4 7 (Some 8) 3 4, [[2; 0; 0; 0; 0; 0; 0; 0; 1; 2]]) 0.
Proof.
  exact (@perf_ku_output _ toy_kernel (mk_perf_ku 4 7 (Some 8) 3 4) [] (Some [1; 2]) [1; 2] 0 O []
    (points_to_self _) eq_refl).
Defined.
