(* ===== verification/MapHandler.v ===== *)
(** [bpf_map_handler] (handler/map_handler.{hpp,cpp}): the object behind a map
    descriptor. It selects an implementation by the map's type, keeps it in the
    shared memory under a name of its own, and serialises the calls of the
    implementations that ask for it. The managed shared memory of Boost
    ([construct], [destroy], named objects) is modelled by [shm]. *)
From Stdlib Require Import ZArith Lia.
From stdpp Require Import base list gmap strings.
From S2P Require Import Prelude MapCommon FixHashMap ArrayMap PerCpuArray PerCpuHash LruHash.
From S2P Require Import FdArrays Ringbuf KernelUser.
Local Open Scope Z_scope.

(** ** Map types

    The enumerators the handler knows; every other integer is [OtherType]. *)
Definition KERNEL_USER_MAP_OFFSET := 1000.
Definition BPF_MAP_TYPE_MAX := 2048.

Inductive bpf_map_type :=
| BPF_MAP_TYPE_HASH
| BPF_MAP_TYPE_ARRAY
| BPF_MAP_TYPE_PROG_ARRAY
| BPF_MAP_TYPE_PERF_EVENT_ARRAY
| BPF_MAP_TYPE_PERCPU_HASH
| BPF_MAP_TYPE_PERCPU_ARRAY
| BPF_MAP_TYPE_LRU_HASH
| BPF_MAP_TYPE_ARRAY_OF_MAPS
| BPF_MAP_TYPE_RINGBUF
| BPF_MAP_TYPE_KERNEL_USER_HASH
| BPF_MAP_TYPE_KERNEL_USER_ARRAY
| BPF_MAP_TYPE_KERNEL_USER_PERCPU_ARRAY
| BPF_MAP_TYPE_KERNEL_USER_PERF_EVENT_ARRAY
| OtherType.

#[export] Instance bpf_map_type_eq_dec : EqDecision bpf_map_type.
Proof. solve_decision. Defined.

Definition map_type_of (t : Z) : bpf_map_type :=
  if t =? 1 then BPF_MAP_TYPE_HASH
  else if t =? 2 then BPF_MAP_TYPE_ARRAY
  else if t =? 3 then BPF_MAP_TYPE_PROG_ARRAY
  else if t =? 4 then BPF_MAP_TYPE_PERF_EVENT_ARRAY
  else if t =? 5 then BPF_MAP_TYPE_PERCPU_HASH
  else if t =? 6 then BPF_MAP_TYPE_PERCPU_ARRAY
  else if t =? 9 then BPF_MAP_TYPE_LRU_HASH
  else if t =? 12 then BPF_MAP_TYPE_ARRAY_OF_MAPS
  else if t =? 27 then BPF_MAP_TYPE_RINGBUF
  else if t =? KERNEL_USER_MAP_OFFSET + 1 then BPF_MAP_TYPE_KERNEL_USER_HASH
  else if t =? KERNEL_USER_MAP_OFFSET + 2 then BPF_MAP_TYPE_KERNEL_USER_ARRAY
  else if t =? KERNEL_USER_MAP_OFFSET + 6 then BPF_MAP_TYPE_KERNEL_USER_PERCPU_ARRAY
  else if t =? KERNEL_USER_MAP_OFFSET + 4 then BPF_MAP_TYPE_KERNEL_USER_PERF_EVENT_ARRAY
  else OtherType.

(** ** Attributes and handlers *)

Record bpf_map_attr := mk_attr {
  ma_type : Z;
  ma_key_size : Z;
  ma_value_size : Z;
  ma_max_ents : Z;
  ma_flags : Z;
  ma_ifindex : Z;
  ma_btf_vmlinux_value_type_id : Z;
  ma_btf_id : Z;
  ma_btf_key_type_id : Z;
  ma_btf_value_type_id : Z;
  ma_map_extra : Z;
  ma_kernel_bpf_map_id : Z
}.

(** [map_impl_ptr] is null or the identity of an object of the shared memory;
    [mh_lock] is whether the spin lock is held. *)
Record bpf_map_handler := mk_map_handler {
  mh_attr : bpf_map_attr;
  mh_type : Z;
  mh_name : string;
  mh_id : Z;
  mh_lock : bool;
  mh_impl_ptr : option nat;
  mh_max_entries : Z;
  mh_flags : Z;
  mh_key_size : Z;
  mh_value_size : Z
}.

(** The constructor: the argument [id] is not stored, the member stays 0. *)
Definition map_handler_new (id : Z) (name : string) (attr : bpf_map_attr) : bpf_map_handler :=
  mk_map_handler attr (ma_type attr) name 0 false None (ma_max_ents attr) (ma_flags attr)
    (ma_key_size attr) (ma_value_size attr).

Definition mh_set_lock (b : bool) (h : bpf_map_handler) : bpf_map_handler :=
  mk_map_handler (mh_attr h) (mh_type h) (mh_name h) (mh_id h) b (mh_impl_ptr h)
    (mh_max_entries h) (mh_flags h) (mh_key_size h) (mh_value_size h).
Definition mh_set_ptr (p : option nat) (h : bpf_map_handler) : bpf_map_handler :=
  mk_map_handler (mh_attr h) (mh_type h) (mh_name h) (mh_id h) (mh_lock h) p
    (mh_max_entries h) (mh_flags h) (mh_key_size h) (mh_value_size h).

Definition map_type (h : bpf_map_handler) : bpf_map_type := map_type_of (mh_type h).

Definition get_container_name (h : bpf_map_handler) : string :=
  String.append "ebpf_map_fd_" (mh_name h).

(** ** The shared memory *)

(** The named objects: one constructor per class that [map_init] constructs.
    [IRingbuf] owns the ring buffer object [ring]. *)
Inductive map_impl :=
| IHash (x : fix_size_hash_map_impl)
| IArray (x : array_map_impl)
| IProgArray (x : i32_array)
| IPerfArray (x : i32_array)
| IPercpuHash (x : per_cpu_hash_map_impl)
| IPercpuArray (x : per_cpu_array_map_impl)
| ILru (x : lru_var_hash_map_impl)
| IArrayOfMaps (x : array_map_impl)
| IRingbuf (ring : nat)
| IKuHash (x : hash_map_kernel_user_impl)
| IKuArray (x : array_map_kernel_user_impl)
| IKuPercpuArray (x : percpu_array_map_kernel_user_impl)
| IKuPerf (x : perf_event_array_kernel_user_impl).

(** The operations a plugin registers for a map type. They act on the world
    outside the shared memory. *)
Record bpftime_map_ops (K : Type) := mk_map_ops {
  mo_alloc_map : option (Z -> string -> bpf_map_attr -> M K Z);
  mo_map_free : option (Z -> M K unit);
  mo_elem_lookup : option (Z -> ptr -> bool -> M K vptr);
  mo_elem_update : option (Z -> ptr -> ptr -> Z -> bool -> M K Z);
  mo_elem_delete : option (Z -> ptr -> bool -> M K Z);
  mo_map_get_next_key : option (Z -> ptr -> bool -> bool -> M K (Z * option bytes))
}.
Arguments mk_map_ops {K}.
Arguments mo_alloc_map {K}.
Arguments mo_map_free {K}.
Arguments mo_elem_lookup {K}.
Arguments mo_elem_update {K}.
Arguments mo_elem_delete {K}.
Arguments mo_map_get_next_key {K}.

Definition no_map_ops {K} : bpftime_map_ops K := mk_map_ops None None None None None None.

(** [sm_index] maps the name of an object to its identity; an identity is never
    used again, so that a stale pointer is recognised. [sm_world] is the kernel
    and whatever plugins keep. [sm_ops] is [global_map_ops_table]: an absent
    entry is the zero-initialised one. *)
Record shm (K : Type) := mk_shm {
  sm_index : gmap string nat;
  sm_objects : gmap nat map_impl;
  sm_rings : gmap nat ringbuf;
  sm_next : nat;
  sm_world : K;
  sm_ops : gmap Z (bpftime_map_ops K)
}.
Arguments mk_shm {K}.
Arguments sm_index {K}.
Arguments sm_objects {K}.
Arguments sm_rings {K}.
Arguments sm_next {K}.
Arguments sm_world {K}.
Arguments sm_ops {K}.

(** What an operation finds around it: the container library, the kernel, the
    CPU it runs on, the number of CPUs, and one option of the agent. *)
Class Runtime (K : Type) := {
  rt_containers :: UnorderedMap;
  rt_kernel :: BpfKernel K;
  rt_transport :: PerfTransport K;
  rt_cpu : Z;
  rt_ncpu : Z;
  rt_prog_fd : nat -> Z -> Z;
  rt_prog_info : Z -> Z + Z;
  allow_non_buildin_map_types : bool
}.

Section handler.
Context {K : Type} `{Runtime K}.
Implicit Types (m : shm K) (h : bpf_map_handler).

Abbreviation MH := (M (bpf_map_handler * shm K)).

Definition sm_set_object (p : nat) (o : map_impl) m : shm K :=
  mk_shm (sm_index m) (<[p := o]> (sm_objects m)) (sm_rings m) (sm_next m) (sm_world m) (sm_ops m).
Definition sm_set_ring (r : nat) (b : ringbuf) m : shm K :=
  mk_shm (sm_index m) (sm_objects m) (<[r := b]> (sm_rings m)) (sm_next m) (sm_world m) (sm_ops m).
Definition sm_set_world (k : K) m : shm K :=
  mk_shm (sm_index m) (sm_objects m) (sm_rings m) (sm_next m) k (sm_ops m).

(** [construct<T>(name)(..)]: throws when the name is taken; when the constructor
    [ctor] throws, the name stays free. *)
Definition shm_construct (name : string) (ctor : M (shm K) map_impl) : M (shm K) nat :=
  m ← get;
  match sm_index m !! name with
  | Some _ => throw "already exists"
  | None =>
      o ← ctor;
      m ← get;
      let p := sm_next m in
      put (mk_shm (<[name := p]> (sm_index m)) (<[p := o]> (sm_objects m)) (sm_rings m) (S p)
        (sm_world m) (sm_ops m));;
      mret p
  end.

(** The constructor of [ringbuf_map_impl] allocates an anonymous ring buffer. *)
Definition shm_new_ring (b : ringbuf) : M (shm K) map_impl :=
  m ← get;
  let r := sm_next m in
  put (mk_shm (sm_index m) (sm_objects m) (<[r := b]> (sm_rings m)) (S r) (sm_world m) (sm_ops m));;
  mret (IRingbuf r).

(** A constructor that may throw. *)
Definition ctor_result {S} (box : S -> map_impl) (r : string + S) : M (shm K) map_impl :=
  match r with inl what => throw what | inr x => mret (box x) end.

Definition in_world {A} (c : M K A) : M (shm K) A := zoom sm_world sm_set_world c.

(** The destructor of an object. *)
Definition destroy_object (o : map_impl) : M (shm K) unit :=
  match o with
  | IRingbuf r => modify (fun m =>
      mk_shm (sm_index m) (sm_objects m) (delete r (sm_rings m)) (sm_next m) (sm_world m) (sm_ops m))
  | IKuPerf x => in_world (perf_ku_destroy x)
  | IKuArray x => if 0 <=? aku_map_fd x then in_world (os_close (aku_map_fd x)) else mret tt
  | IKuHash x => if 0 <=? hku_map_fd x then in_world (os_close (hku_map_fd x)) else mret tt
  | _ => mret tt
  end.

(** [destroy<T>(name)]: nothing happens when there is no such object; an object
    of another class than [T] is undefined. *)
Definition shm_destroy (is_T : map_impl -> bool) (name : string) : M (shm K) unit :=
  m ← get;
  match sm_index m !! name with
  | None => mret tt
  | Some p =>
      o ← need "dangling name" (sm_objects m !! p);
      if is_T o then
        destroy_object o;;
        modify (fun m => mk_shm (delete name (sm_index m)) (delete p (sm_objects m)) (sm_rings m)
          (sm_next m) (sm_world m) (sm_ops m))
      else ub "destroy of an object of another class"
  end.

(** ** Calls through [map_impl_ptr] *)

(** How an implementation of class [S] sits in the shared memory: what
    [static_cast<S *>(map_impl_ptr.get())] reads and writes. *)
Record view (S : Type) := mk_view {
  v_load : nat -> shm K -> option S;
  v_store : nat -> S -> shm K -> shm K
}.
Arguments mk_view {S}.
Arguments v_load {S}.
Arguments v_store {S}.

Definition object_view {S} (box : S -> map_impl) (unbox : map_impl -> option S) : view S :=
  mk_view (fun p m => sm_objects m !! p ≫= unbox) (fun p x => sm_set_object p (box x)).

(** The front ends of kernel maps act on the kernel too. *)
Definition kernel_view {S} (box : S -> map_impl) (unbox : map_impl -> option S) : view (S * K) :=
  mk_view (fun p m => (fun x => (x, sm_world m)) <$> (sm_objects m !! p ≫= unbox))
          (fun p x m => sm_set_world x.2 (sm_set_object p (box x.1) m)).

Definition hash_view := object_view IHash (fun o => match o with IHash x => Some x | _ => None end).
Definition array_view := object_view IArray (fun o => match o with IArray x => Some x | _ => None end).
Definition prog_array_view :=
  object_view IProgArray (fun o => match o with IProgArray x => Some x | _ => None end).
Definition perf_array_view :=
  object_view IPerfArray (fun o => match o with IPerfArray x => Some x | _ => None end).
Definition percpu_hash_view :=
  object_view IPercpuHash (fun o => match o with IPercpuHash x => Some x | _ => None end).
Definition percpu_array_view :=
  object_view IPercpuArray (fun o => match o with IPercpuArray x => Some x | _ => None end).
Definition lru_view := object_view ILru (fun o => match o with ILru x => Some x | _ => None end).
Definition array_of_maps_view :=
  object_view IArrayOfMaps (fun o => match o with IArrayOfMaps x => Some x | _ => None end).
Definition ku_hash_view := kernel_view IKuHash (fun o => match o with IKuHash x => Some x | _ => None end).
Definition ku_array_view :=
  kernel_view IKuArray (fun o => match o with IKuArray x => Some x | _ => None end).
Definition ku_percpu_view :=
  kernel_view IKuPercpuArray (fun o => match o with IKuPercpuArray x => Some x | _ => None end).
Definition ku_perf_view := kernel_view IKuPerf (fun o => match o with IKuPerf x => Some x | _ => None end).

(** The ring buffer an object owns, through its shared pointer. *)
Definition ring_of (p : nat) m : option nat :=
  match sm_objects m !! p with Some (IRingbuf r) => Some r | _ => None end.
Definition ring_view : view ringbuf :=
  mk_view (fun p m => ring_of p m ≫= fun r => sm_rings m !! r)
          (fun p b m => match ring_of p m with Some r => sm_set_ring r b m | None => m end).

(** A member call through the pointer [p]. *)
Definition via {S A} (v : view S) (p : nat) (c : M S A) : M (shm K) A := fun m e =>
  match v_load v p m with
  | None => Ub "dangling or mistyped map_impl_ptr"
  | Some x =>
      match c x e with
      | Ok a x' e' => Ok a (v_store v p x' m) e'
      | Throw w x' e' => Throw w (v_store v p x' m) e'
      | Ub w => Ub w
      end
  end.

Definition in_shm {A} (c : M (shm K) A) : MH A := zoom snd (fun m s => (s.1, m)) c.

(** [bpftime_lock_guard guard(map_lock); c]: the lock is released on every way
    out; nobody else can release it while this thread spins. *)
Definition lock_guard {A} (c : MH A) : MH A := fun s e =>
  if mh_lock s.1 then Ub "spin lock already held"
  else match c (mh_set_lock true s.1, s.2) e with
       | Ok a s' e' => Ok a (mh_set_lock false s'.1, s'.2) e'
       | Throw w s' e' => Throw w (mh_set_lock false s'.1, s'.2) e'
       | Ub w => Ub w
       end.

(** The generic lambdas [do_lookup], [do_update], .. *)
Definition do_call {S A} (v : view S) (I : MapImpl S) (op : MapImpl S -> M S A) : MH A :=
  h ← gets fst;
  p ← need "null map_impl_ptr" (mh_impl_ptr h);
  if @should_lock S I then lock_guard (in_shm (via v p (op I))) else in_shm (via v p (op I)).

(** The entry of [global_map_ops_table] for the handler's type. *)
Definition map_ops_of_type : MH (bpftime_map_ops K) :=
  s ← get;
  if (mh_type s.1 <? 0) || (BPF_MAP_TYPE_MAX <=? mh_type s.1)
  then ub "index outside global_map_ops_table"
  else mret (default no_map_ops (sm_ops s.2 !! mh_type s.1)).

(** The [switch (type)] the operations share; [userspace] selects the
    [_userspace] members of the per-CPU maps, [dflt] is the default case. *)
Definition switch_impl {A} (userspace : bool) (op : forall S, MapImpl S -> M S A) (dflt : MH A) : MH A :=
  h ← gets fst;
  match map_type h with
  | BPF_MAP_TYPE_HASH => do_call hash_view fix_hash_MapImpl (op _)
  | BPF_MAP_TYPE_ARRAY => do_call array_view array_MapImpl (op _)
  | BPF_MAP_TYPE_RINGBUF => do_call ring_view ringbuf_MapImpl (op _)
  | BPF_MAP_TYPE_PERF_EVENT_ARRAY => do_call perf_array_view perf_event_array_MapImpl (op _)
  | BPF_MAP_TYPE_PERCPU_ARRAY =>
      do_call percpu_array_view (if userspace then pca_MapImpl_userspace else pca_MapImpl rt_cpu) (op _)
  | BPF_MAP_TYPE_PERCPU_HASH =>
      do_call percpu_hash_view (if userspace then pch_MapImpl_userspace else pch_MapImpl rt_cpu) (op _)
  | BPF_MAP_TYPE_KERNEL_USER_ARRAY => do_call ku_array_view array_ku_MapImpl (op _)
  | BPF_MAP_TYPE_KERNEL_USER_HASH => do_call ku_hash_view hash_ku_MapImpl (op _)
  | BPF_MAP_TYPE_KERNEL_USER_PERCPU_ARRAY => do_call ku_percpu_view percpu_ku_MapImpl (op _)
  | BPF_MAP_TYPE_KERNEL_USER_PERF_EVENT_ARRAY => do_call ku_perf_view perf_ku_MapImpl (op _)
  | BPF_MAP_TYPE_PROG_ARRAY =>
      do_call prog_array_view (prog_array_MapImpl rt_prog_fd rt_prog_info) (op _)
  | BPF_MAP_TYPE_ARRAY_OF_MAPS => do_call array_of_maps_view array_of_maps_MapImpl (op _)
  | BPF_MAP_TYPE_LRU_HASH => do_call lru_view lru_MapImpl (op _)
  | OtherType => dflt
  end.

(** A registered operation, called with the handler's [id]. *)
Definition custom_call {A} (sel : bpftime_map_ops K -> option (Z -> M K A)) (none : MH A) : MH A :=
  ops ← map_ops_of_type;
  match sel ops with
  | Some f => h ← gets fst; in_shm (in_world (f (mh_id h)))
  | None => none
  end.

Definition map_lookup_elem (key : ptr) (from_syscall : bool) : MH vptr :=
  switch_impl from_syscall (fun S I => @elem_lookup S I key)
    (custom_call (fun ops => (fun f id => f id key from_syscall) <$> mo_elem_lookup ops) (mret VNull)).

Definition map_update_elem (key value : ptr) (flags : Z) (from_syscall : bool) : MH Z :=
  h ← gets fst;
  if bool_decide (map_type h = BPF_MAP_TYPE_ARRAY_OF_MAPS) && negb from_syscall then mret (- EINVAL)
  else switch_impl from_syscall (fun S I => @elem_update S I key value flags)
    (custom_call (fun ops => (fun f id => f id key value flags from_syscall) <$> mo_elem_update ops)
       (mret (-1))).

(** The per-CPU maps have one [map_get_next_key] for both callers. *)
Definition handler_get_next_key (key : ptr) (next_key : bool) (from_syscall : bool)
    : MH (Z * option bytes) :=
  switch_impl false (fun S I => @map_get_next_key S I key next_key)
    (custom_call (fun ops => (fun f id => f id key next_key from_syscall) <$> mo_map_get_next_key ops)
       (mret (-1, None))).

Definition map_delete_elem (key : ptr) (from_syscall : bool) : MH Z :=
  h ← gets fst;
  if bool_decide (map_type h = BPF_MAP_TYPE_ARRAY_OF_MAPS) && negb from_syscall then mret (- EINVAL)
  else switch_impl from_syscall (fun S I => @elem_delete S I key)
    (custom_call (fun ops => (fun f id => f id key from_syscall) <$> mo_elem_delete ops) (mret (-1))).

(** ** Creation and destruction *)

(** What [map_init] constructs for a built-in type, [None] in the default case. *)
Definition map_ctor (h : bpf_map_handler) : option (M (shm K) map_impl) :=
  let max_entries := mh_max_entries h in
  let key_size := mh_key_size h in
  let value_size := mh_value_size h in
  let kernel_id := s32 (ma_kernel_bpf_map_id (mh_attr h)) in
  match map_type h with
  | BPF_MAP_TYPE_HASH => Some (mret (IHash (fix_hash_new max_entries key_size value_size)))
  | BPF_MAP_TYPE_ARRAY => Some (mret (IArray (array_map_new value_size max_entries)))
  | BPF_MAP_TYPE_RINGBUF => Some (shm_new_ring (ringbuf_new kernel_page_size max_entries))
  | BPF_MAP_TYPE_PERF_EVENT_ARRAY =>
      Some (ctor_result IPerfArray (i32_array_new key_size value_size max_entries))
  | BPF_MAP_TYPE_PERCPU_ARRAY => Some (mret (IPercpuArray (pca_new value_size max_entries rt_ncpu)))
  | BPF_MAP_TYPE_PERCPU_HASH =>
      Some (mret (IPercpuHash (pch_new key_size value_size max_entries rt_ncpu)))
  | BPF_MAP_TYPE_KERNEL_USER_ARRAY => Some (mret (IKuArray (array_ku_new kernel_id)))
  | BPF_MAP_TYPE_KERNEL_USER_HASH => Some (mret (IKuHash (hash_ku_new kernel_id)))
  | BPF_MAP_TYPE_KERNEL_USER_PERCPU_ARRAY =>
      Some (mret (IKuPercpuArray (percpu_ku_new rt_ncpu kernel_id)))
  | BPF_MAP_TYPE_KERNEL_USER_PERF_EVENT_ARRAY =>
      Some (x ← in_world (perf_ku_new 4 4 rt_ncpu kernel_id); mret (IKuPerf x))
  | BPF_MAP_TYPE_PROG_ARRAY =>
      Some (ctor_result IProgArray (i32_array_new key_size value_size max_entries))
  | BPF_MAP_TYPE_ARRAY_OF_MAPS => Some (mret (IArrayOfMaps (array_of_maps_new max_entries)))
  | BPF_MAP_TYPE_LRU_HASH => Some (mret (ILru (lru_new key_size value_size max_entries)))
  | OtherType => None
  end.

Definition map_init : MH Z :=
  h ← gets fst;
  match map_ctor h with
  | Some ctor =>
      if bool_decide (map_type h = BPF_MAP_TYPE_RINGBUF) && negb (popcnt (mh_max_entries h) =? 1)
      then mret (-1)
      else
        p ← in_shm (shm_construct (get_container_name h) ctor);
        modify (fun s => (mh_set_ptr (Some p) s.1, s.2));;
        mret 0
  | None =>
      if allow_non_buildin_map_types then
        modify (fun s => (mh_set_ptr None s.1, s.2));;
        custom_call (fun ops => (fun f id => f id (mh_name h) (mh_attr h)) <$> mo_alloc_map ops) (mret 0)
      else mret (-1)
  end.

(** The class each case of [map_free] names; BPF_MAP_TYPE_ARRAY_OF_MAPS has no
    case of its own. *)
Definition free_class (t : bpf_map_type) : option (map_impl -> bool) :=
  match t with
  | BPF_MAP_TYPE_HASH => Some (fun o => match o with IHash _ => true | _ => false end)
  | BPF_MAP_TYPE_ARRAY => Some (fun o => match o with IArray _ => true | _ => false end)
  | BPF_MAP_TYPE_RINGBUF => Some (fun o => match o with IRingbuf _ => true | _ => false end)
  | BPF_MAP_TYPE_PERF_EVENT_ARRAY => Some (fun o => match o with IPerfArray _ => true | _ => false end)
  | BPF_MAP_TYPE_PERCPU_ARRAY => Some (fun o => match o with IPercpuArray _ => true | _ => false end)
  | BPF_MAP_TYPE_PERCPU_HASH => Some (fun o => match o with IPercpuHash _ => true | _ => false end)
  | BPF_MAP_TYPE_KERNEL_USER_ARRAY => Some (fun o => match o with IKuArray _ => true | _ => false end)
  | BPF_MAP_TYPE_KERNEL_USER_HASH => Some (fun o => match o with IKuHash _ => true | _ => false end)
  | BPF_MAP_TYPE_KERNEL_USER_PERCPU_ARRAY =>
      Some (fun o => match o with IKuPercpuArray _ => true | _ => false end)
  | BPF_MAP_TYPE_KERNEL_USER_PERF_EVENT_ARRAY =>
      Some (fun o => match o with IKuPerf _ => true | _ => false end)
  | BPF_MAP_TYPE_PROG_ARRAY => Some (fun o => match o with IProgArray _ => true | _ => false end)
  | BPF_MAP_TYPE_LRU_HASH => Some (fun o => match o with ILru _ => true | _ => false end)
  | BPF_MAP_TYPE_ARRAY_OF_MAPS | OtherType => None
  end.

Definition map_free : MH unit :=
  h ← gets fst;
  match free_class (map_type h) with
  | Some is_T => in_shm (shm_destroy is_T (get_container_name h))
  | None => custom_call mo_map_free (mret tt)
  end;;
  modify (fun s => (mh_set_ptr None s.1, s.2)).

(** ** Accessors *)

Definition get_value_size (h : bpf_map_handler) : Z :=
  match map_type h with
  | BPF_MAP_TYPE_PERCPU_ARRAY | BPF_MAP_TYPE_PERCPU_HASH => u32 (mh_value_size h * rt_ncpu)
  | _ => mh_value_size h
  end.

Definition try_get_ringbuf_map_impl (h : bpf_map_handler) : option (option nat) :=
  if bool_decide (map_type h = BPF_MAP_TYPE_RINGBUF) then Some (mh_impl_ptr h) else None.

Definition try_get_array_map_impl (h : bpf_map_handler) : option (option nat) :=
  if bool_decide (map_type h = BPF_MAP_TYPE_ARRAY) then Some (mh_impl_ptr h) else None.

Definition try_get_shared_perf_event_array_map_impl (h : bpf_map_handler) : option (option nat) :=
  if bool_decide (map_type h = BPF_MAP_TYPE_KERNEL_USER_PERF_EVENT_ARRAY) then Some (mh_impl_ptr h)
  else None.

Definition bpftime_register_map_ops (map_type : Z) (ops : bpftime_map_ops K) : M (shm K) Z :=
  if (map_type <? 0) || (BPF_MAP_TYPE_MAX <=? map_type) then mret (-1)
  else
    modify (fun m => mk_shm (sm_index m) (sm_objects m) (sm_rings m) (sm_next m) (sm_world m)
      (<[map_type := ops]> (sm_ops m)));;
    mret 0.

(** ** Invariants *)

(** The class of an object, with the ring buffer it owns. *)
Definition shape (o : map_impl) : bpf_map_type * option nat :=
  match o with
  | IHash _ => (BPF_MAP_TYPE_HASH, None)
  | IArray _ => (BPF_MAP_TYPE_ARRAY, None)
  | IProgArray _ => (BPF_MAP_TYPE_PROG_ARRAY, None)
  | IPerfArray _ => (BPF_MAP_TYPE_PERF_EVENT_ARRAY, None)
  | IPercpuHash _ => (BPF_MAP_TYPE_PERCPU_HASH, None)
  | IPercpuArray _ => (BPF_MAP_TYPE_PERCPU_ARRAY, None)
  | ILru _ => (BPF_MAP_TYPE_LRU_HASH, None)
  | IArrayOfMaps _ => (BPF_MAP_TYPE_ARRAY_OF_MAPS, None)
  | IRingbuf r => (BPF_MAP_TYPE_RINGBUF, Some r)
  | IKuHash _ => (BPF_MAP_TYPE_KERNEL_USER_HASH, None)
  | IKuArray _ => (BPF_MAP_TYPE_KERNEL_USER_ARRAY, None)
  | IKuPercpuArray _ => (BPF_MAP_TYPE_KERNEL_USER_PERCPU_ARRAY, None)
  | IKuPerf _ => (BPF_MAP_TYPE_KERNEL_USER_PERF_EVENT_ARRAY, None)
  end.

Definition sm_shape m (p : nat) : option (bpf_map_type * option nat) := shape <$> sm_objects m !! p.

(** Names lead to objects, one name per object; identities are below the
    counter; every ring buffer an object owns exists and has one owner. *)
Record shm_wf m : Prop := {
  sm_named : forall n p, sm_index m !! n = Some p -> is_Some (sm_shape m p);
  sm_unique : forall n1 n2 p, sm_index m !! n1 = Some p -> sm_index m !! n2 = Some p -> n1 = n2;
  sm_fresh_object : forall p, is_Some (sm_shape m p) -> (p < sm_next m)%nat;
  sm_fresh_ring : forall r, r ∈ dom (sm_rings m) -> (r < sm_next m)%nat;
  sm_owned : forall p t r, sm_shape m p = Some (t, Some r) -> r ∈ dom (sm_rings m);
  sm_owner : forall p1 p2 t1 t2 r,
    sm_shape m p1 = Some (t1, Some r) -> sm_shape m p2 = Some (t2, Some r) -> p1 = p2
}.

(** The handler points to an object of the class its type selects, filed under
    the handler's name. *)
Definition live h m : Prop :=
  exists p r, mh_impl_ptr h = Some p /\ sm_index m !! get_container_name h = Some p /\
    sm_shape m p = Some (map_type h, r).

(** Memories that differ in the contents of objects only. *)
Record same_shape m m' : Prop := {
  ss_index : sm_index m' = sm_index m;
  ss_shape : forall p, sm_shape m' p = sm_shape m p;
  ss_rings : dom (sm_rings m') = dom (sm_rings m);
  ss_next : sm_next m' = sm_next m;
  ss_ops : sm_ops m' = sm_ops m
}.

#[export] Instance same_shape_refl : Reflexive same_shape.
Proof. by constructor. Qed.

#[export] Instance same_shape_trans : Transitive same_shape.
Proof. intros m1 m2 m3 [] []. constructor; intros; etrans; eauto. Qed.

#[export] Instance same_shape_sym : Symmetric same_shape.
Proof. intros m1 m2 []. by constructor. Qed.

#[export] Instance same_shape_equiv : Equivalence same_shape.
Proof. split; apply _. Qed.

#[export] Instance shm_wf_proper : Proper (same_shape ==> iff) shm_wf.
Proof.
  intros m m' Hs. assert (forall m m', same_shape m m' -> shm_wf m -> shm_wf m') as Himp.
  { intros m1 m2 [Hi Hsh Hr Hn _] []. constructor;
      rewrite ?Hi, ?Hn, ?Hr; intros *; rewrite ?Hsh; eauto. }
  split; apply Himp; [done|by symmetry].
Qed.

#[export] Instance live_proper : Proper (eq ==> same_shape ==> iff) live.
Proof.
  intros h ? <- m m' Hs. assert (forall m m', same_shape m m' -> live h m -> live h m') as Himp.
  { intros m1 m2 [Hi Hsh _ _ _] (p & r & ? & ? & ?). exists p, r. rewrite Hi, Hsh. done. }
  split; apply Himp; [done|by symmetry].
Qed.

(** *** Views *)

Lemma sm_shape_set_object p o o' m :
  sm_objects m !! p = Some o -> shape o' = shape o -> same_shape m (sm_set_object p o' m).
Proof.
  intros Hp Ho. constructor; try done. intros q. unfold sm_shape. simpl.
  destruct (decide (q = p)) as [->|]; [|by rewrite lookup_insert_ne].
  by rewrite lookup_insert_eq, Hp; simpl; rewrite Ho.
Qed.

(** A store through a view changes nothing but contents. *)
Definition lawful {S} (v : view S) (t : bpf_map_type) : Prop :=
  (forall p x x' m, v_load v p m = Some x -> same_shape m (v_store v p x' m)) /\
  (forall p x x' m, v_load v p m = Some x -> v_load v p (v_store v p x' m) = Some x') /\
  (forall p r m, shm_wf m -> sm_shape m p = Some (t, r) -> is_Some (v_load v p m)).

Lemma object_view_lawful {S} (box : S -> map_impl) unbox t :
  (forall x, unbox (box x) = Some x) ->
  (forall o x, unbox o = Some x -> shape o = (t, None)) ->
  (forall o r, shape o = (t, r) -> is_Some (unbox o)) -> lawful (object_view box unbox) t.
Proof.
  intros Hb Hu Ht. split; [|split].
  - simpl. intros p x x' m Hl. destruct (sm_objects m !! p) as [o|] eqn:Hp; [|done].
    eapply sm_shape_set_object; [done|]. by rewrite (Hu _ _ Hl), (Hu _ x' (Hb x')).
  - simpl. intros p x x' m _. rewrite lookup_insert_eq. apply Hb.
  - intros p r m _. unfold sm_shape. simpl. destruct (sm_objects m !! p) as [o|]; [|done].
    simpl. intros [= Hs]. eauto.
Qed.

Lemma kernel_view_lawful {S} (box : S -> map_impl) unbox t :
  (forall x, unbox (box x) = Some x) ->
  (forall o x, unbox o = Some x -> shape o = (t, None)) ->
  (forall o r, shape o = (t, r) -> is_Some (unbox o)) -> lawful (kernel_view box unbox) t.
Proof.
  intros Hb Hu Ht. destruct (object_view_lawful box unbox t Hb Hu Ht) as (Hs & Hl & Hi).
  simpl in *. split; [|split].
  - intros p [x k] [x' k'] m Hx. simpl in Hx. destruct (sm_objects m !! p ≫= unbox) as [y|] eqn:Hy; [|done].
    etrans; [by eapply Hs|]. by constructor.
  - intros p x [x' k'] m _. simpl. rewrite lookup_insert_eq. simpl. by rewrite Hb.
  - intros p r m Hwf Hsh. simpl. destruct (Hi p r m Hwf Hsh) as [x ->]. simpl. eauto.
Qed.

Lemma ring_view_lawful : lawful ring_view BPF_MAP_TYPE_RINGBUF.
Proof.
  split; [|split].
  - simpl. intros p x x' m Hl. destruct (ring_of p m) as [r|]; [|done]. constructor; try done. simpl.
    simpl in Hl. rewrite dom_insert_L. apply elem_of_dom_2 in Hl.
    by apply subseteq_union_1_L, singleton_subseteq_l.
  - simpl. intros p x x' m Hl. destruct (ring_of p m) as [r|] eqn:Hr; [|done].
    unfold ring_of in *. simpl. rewrite Hr. simpl. by rewrite lookup_insert_eq.
  - simpl. intros p r m Hwf. unfold sm_shape, ring_of.
    destruct (sm_objects m !! p) as [o|] eqn:Ho; [|done]. simpl. intros [= Hs].
    destruct o; try done. simpl. apply elem_of_dom. apply (sm_owned m Hwf p BPF_MAP_TYPE_RINGBUF).
    unfold sm_shape. by rewrite Ho.
Qed.

Ltac solve_lawful :=
  first [apply object_view_lawful | apply kernel_view_lawful];
  [done|by intros []|by intros [] ?; simpl; (by intros [=]) || (intros _; eauto)].

Lemma views_lawful :
  lawful hash_view BPF_MAP_TYPE_HASH /\ lawful array_view BPF_MAP_TYPE_ARRAY /\
  lawful prog_array_view BPF_MAP_TYPE_PROG_ARRAY /\
  lawful perf_array_view BPF_MAP_TYPE_PERF_EVENT_ARRAY /\
  lawful percpu_hash_view BPF_MAP_TYPE_PERCPU_HASH /\
  lawful percpu_array_view BPF_MAP_TYPE_PERCPU_ARRAY /\ lawful lru_view BPF_MAP_TYPE_LRU_HASH /\
  lawful array_of_maps_view BPF_MAP_TYPE_ARRAY_OF_MAPS /\
  lawful ku_hash_view BPF_MAP_TYPE_KERNEL_USER_HASH /\
  lawful ku_array_view BPF_MAP_TYPE_KERNEL_USER_ARRAY /\
  lawful ku_percpu_view BPF_MAP_TYPE_KERNEL_USER_PERCPU_ARRAY /\
  lawful ku_perf_view BPF_MAP_TYPE_KERNEL_USER_PERF_EVENT_ARRAY.
Proof. split_and!; solve_lawful. Qed.

(** ** Delegation *)

(** Which implementation serves which map type: the contract of the dispatch. *)
Inductive serves (userspace : bool) : bpf_map_type -> forall S, view S -> MapImpl S -> Prop :=
| serves_hash : serves userspace BPF_MAP_TYPE_HASH _ hash_view fix_hash_MapImpl
| serves_array : serves userspace BPF_MAP_TYPE_ARRAY _ array_view array_MapImpl
| serves_ringbuf : serves userspace BPF_MAP_TYPE_RINGBUF _ ring_view ringbuf_MapImpl
| serves_perf_array :
    serves userspace BPF_MAP_TYPE_PERF_EVENT_ARRAY _ perf_array_view perf_event_array_MapImpl
| serves_percpu_array_sys : userspace = true ->
    serves userspace BPF_MAP_TYPE_PERCPU_ARRAY _ percpu_array_view pca_MapImpl_userspace
| serves_percpu_array_prog : userspace = false ->
    serves userspace BPF_MAP_TYPE_PERCPU_ARRAY _ percpu_array_view (pca_MapImpl rt_cpu)
| serves_percpu_hash_sys : userspace = true ->
    serves userspace BPF_MAP_TYPE_PERCPU_HASH _ percpu_hash_view pch_MapImpl_userspace
| serves_percpu_hash_prog : userspace = false ->
    serves userspace BPF_MAP_TYPE_PERCPU_HASH _ percpu_hash_view (pch_MapImpl rt_cpu)
| serves_ku_array :
    serves userspace BPF_MAP_TYPE_KERNEL_USER_ARRAY _ ku_array_view array_ku_MapImpl
| serves_ku_hash : serves userspace BPF_MAP_TYPE_KERNEL_USER_HASH _ ku_hash_view hash_ku_MapImpl
| serves_ku_percpu :
    serves userspace BPF_MAP_TYPE_KERNEL_USER_PERCPU_ARRAY _ ku_percpu_view percpu_ku_MapImpl
| serves_ku_perf :
    serves userspace BPF_MAP_TYPE_KERNEL_USER_PERF_EVENT_ARRAY _ ku_perf_view perf_ku_MapImpl
| serves_prog_array : serves userspace BPF_MAP_TYPE_PROG_ARRAY _ prog_array_view
    (prog_array_MapImpl rt_prog_fd rt_prog_info)
| serves_array_of_maps :
    serves userspace BPF_MAP_TYPE_ARRAY_OF_MAPS _ array_of_maps_view array_of_maps_MapImpl
| serves_lru : serves userspace BPF_MAP_TYPE_LRU_HASH _ lru_view lru_MapImpl.

Lemma serves_total us t : t <> OtherType -> exists S v I, serves us t S v I.
Proof.
  intros. destruct t; try done; destruct us;
    notypeclasses refine (ex_intro _ _ (ex_intro _ _ (ex_intro _ _ _))); by constructor.
Qed.

Lemma serves_lawful us t S v I : serves us t S v I -> lawful v t.
Proof.
  pose proof ring_view_lawful. destruct views_lawful as (? & ? & ? & ? & ? & ? & ? & ? & ? & ? & ? & ?).
  by intros [].
Qed.

Lemma serves_switch us S v I A (op : forall S, MapImpl S -> M S A) dflt h m e :
  serves us (map_type h) S v I -> switch_impl us op dflt (h, m) e = do_call v I (op S) (h, m) e.
Proof.
  intros Hs. unfold switch_impl. mbase. cbn [fst].
  remember (map_type h) as t eqn:Ht. destruct Hs; by subst us || done.
Qed.

(** The result of a member call on the object at [p], seen by the handler. *)
Definition delegate {S A} h m (v : view S) (p : nat) (r : out S A) : out (bpf_map_handler * shm K) A :=
  match r with
  | Ok a x e => Ok a (h, v_store v p x m) e
  | Throw w x e => Throw w (h, v_store v p x m) e
  | Ub w => Ub w
  end.

Lemma unlock_lock h : mh_lock h = false -> mh_set_lock false (mh_set_lock true h) = h.
Proof. destruct h. simpl. by intros ->. Qed.

Lemma do_call_delegates {S A} (v : view S) I (op : MapImpl S -> M S A) h m p x e :
  mh_lock h = false -> mh_impl_ptr h = Some p -> v_load v p m = Some x ->
  do_call v I op (h, m) e = delegate h m v p (op I x e).
Proof.
  intros Hl Hp Hx. unfold do_call. mbase. cbn [fst]. rewrite Hp. unfold need. mbase.
  destruct should_lock; unfold lock_guard, in_shm, zoom, via, delegate; simpl.
  - rewrite Hl, Hx. simpl. destruct (op I x e); simpl; by rewrite ?unlock_lock.
  - rewrite Hx. by destruct (op I x e).
Qed.

Lemma live_load us h m S v I :
  shm_wf m -> live h m -> serves us (map_type h) S v I ->
  exists p x, mh_impl_ptr h = Some p /\ v_load v p m = Some x.
Proof.
  intros Hwf (p & r & Hp & _ & Hsh) Hs. apply serves_lawful in Hs as (_ & _ & Hl).
  destruct (Hl p r m Hwf Hsh) as [x Hx]. eauto.
Qed.

(** The key iteration does not depend on the caller. *)
Lemma get_next_key_delegates us S v I p x h m key next e :
  serves us (map_type h) S v I -> mh_lock h = false -> mh_impl_ptr h = Some p -> v_load v p m = Some x ->
  handler_get_next_key key next us (h, m) e = delegate h m v p (@map_get_next_key S I key next x e).
Proof.
  intros Hs Hlk Hp Hx. unfold handler_get_next_key.
  assert (exists I', serves false (map_type h) S v I' /\
            @map_get_next_key S I' key next = @map_get_next_key S I key next) as (I' & Hs' & Heq).
  { destruct Hs; notypeclasses refine (ex_intro _ _ (conj _ _)); try (by constructor); done. }
  rewrite (serves_switch false S v I') by done. rewrite <- Heq.
  by apply (do_call_delegates v I' (fun I => @map_get_next_key S I key next)).
Qed.

(** The four operations, on the object a handler points to. *)
Lemma map_calls_run us h m S v I key value flags next e p x :
  mh_impl_ptr h = Some p -> v_load v p m = Some x -> mh_lock h = false -> serves us (map_type h) S v I ->
  (map_type h = BPF_MAP_TYPE_ARRAY_OF_MAPS -> us = true) ->
  map_lookup_elem key us (h, m) e = delegate h m v p (@elem_lookup S I key x e) /\
  map_update_elem key value flags us (h, m) e = delegate h m v p (@elem_update S I key value flags x e) /\
  map_delete_elem key us (h, m) e = delegate h m v p (@elem_delete S I key x e) /\
  handler_get_next_key key next us (h, m) e = delegate h m v p (@map_get_next_key S I key next x e).
Proof.
  intros Hp Hx Hlk Hs Hus.
  rewrite (get_next_key_delegates us S v I p x) by done.
  unfold map_lookup_elem, map_update_elem, map_delete_elem. mbase. cbn [fst].
  assert (bool_decide (map_type h = BPF_MAP_TYPE_ARRAY_OF_MAPS) && negb us = false) as ->.
  { case_bool_decide; [by rewrite Hus|done]. }
  rewrite !(serves_switch us S v I) by done. split_and!; [..|done].
  - by apply (do_call_delegates v I (fun I => @elem_lookup S I key)).
  - by apply (do_call_delegates v I (fun I => @elem_update S I key value flags)).
  - by apply (do_call_delegates v I (fun I => @elem_delete S I key)).
Qed.

(** Programs may not change an array of maps. *)
Definition read_only (us : bool) (t : bpf_map_type) : bool := bool_decide (t = BPF_MAP_TYPE_ARRAY_OF_MAPS) && negb us.

Lemma read_only_calls us h m key value flags e : read_only us (map_type h) = true ->
  map_update_elem key value flags us (h, m) e = Ok (- EINVAL) (h, m) e /\ map_delete_elem key us (h, m) e = Ok (- EINVAL) (h, m) e.
Proof. unfold read_only, map_update_elem, map_delete_elem. mbase. cbn [fst]. by intros ->. Qed.

(** Looking up and iterating does not depend on who may change the map. *)
Lemma map_reads_run us h m S v I key next e p x :
  mh_impl_ptr h = Some p -> v_load v p m = Some x -> mh_lock h = false -> serves us (map_type h) S v I ->
  map_lookup_elem key us (h, m) e = delegate h m v p (@elem_lookup S I key x e) /\
  handler_get_next_key key next us (h, m) e = delegate h m v p (@map_get_next_key S I key next x e).
Proof.
  intros Hp Hx Hlk Hs. split; [|by apply get_next_key_delegates]. unfold map_lookup_elem. rewrite (serves_switch us S v I) by done.
  by apply (do_call_delegates v I (fun I => @elem_lookup S I key)).
Qed.

(** C2. Calls through a live handler whose lock is free never dereference a null,
    dangling or mistyped implementation pointer and never dead-lock. An update or a
    delete of an array of maps by a program is refused with -EINVAL and changes
    nothing. Otherwise each of the four operations is exactly the operation of the
    implementation that serves the map's type (for a system call or for a program),
    run on the object of the handler, and leaves the lock free, whether it returns
    or throws. *)
Theorem map_calls_delegate us h m S v I key value flags next e :
  shm_wf m -> live h m -> mh_lock h = false -> serves us (map_type h) S v I ->
  exists p x, mh_impl_ptr h = Some p /\ v_load v p m = Some x /\
    map_lookup_elem key us (h, m) e = delegate h m v p (@elem_lookup S I key x e) /\
    map_update_elem key value flags us (h, m) e =
      (if read_only us (map_type h) then Ok (- EINVAL) (h, m) e else delegate h m v p (@elem_update S I key value flags x e)) /\
    map_delete_elem key us (h, m) e =
      (if read_only us (map_type h) then Ok (- EINVAL) (h, m) e else delegate h m v p (@elem_delete S I key x e)) /\
    handler_get_next_key key next us (h, m) e =
      delegate h m v p (@map_get_next_key S I key next x e).
Proof.
  intros Hwf Hlive Hlk Hs. destruct (live_load _ _ _ _ _ _ Hwf Hlive Hs) as (p & x & Hp & Hx).
  exists p, x. do 2 (split; [done|]). destruct (map_reads_run us h m S v I key next e p x) as [Hlook Hnext]; [done..|].
  destruct (read_only us (map_type h)) eqn:Hro.
  - destruct (read_only_calls us h m key value flags e Hro). done.
  - apply map_calls_run; try done. intros Ht. destruct us; [done|]. unfold read_only in Hro. by rewrite bool_decide_eq_true_2 in Hro.
Qed.

(** The calls a handler serves, with their results dropped. *)
Inductive map_call :=
| MapLookup (key : ptr) (from_syscall : bool)
| MapUpdate (key value : ptr) (flags : Z) (from_syscall : bool)
| MapDelete (key : ptr) (from_syscall : bool)
| MapNext (key : ptr) (next_key from_syscall : bool).

Definition run_map_call (c : map_call) : MH unit :=
  match c with
  | MapLookup key us => _ ← map_lookup_elem key us; mret tt
  | MapUpdate key value flags us => _ ← map_update_elem key value flags us; mret tt
  | MapDelete key us => _ ← map_delete_elem key us; mret tt
  | MapNext key next us => _ ← handler_get_next_key key next us; mret tt
  end.

(** Operations that keep the handler and the shape of the memory. *)
Definition frames {A} (c : MH A) (h : bpf_map_handler) m : Prop := forall e,
  match c (h, m) e with
  | Ok _ s _ | Throw _ s _ => s.1 = h /\ same_shape m s.2
  | Ub _ => True
  end.

Lemma frames_do_call {S A} (v : view S) t I (op : MapImpl S -> M S A) h m :
  lawful v t -> mh_lock h = false -> frames (do_call v I op) h m.
Proof.
  intros (Hl & _) Hlk e. destruct (mh_impl_ptr h) as [p|] eqn:Hp.
  - destruct (v_load v p m) as [x|] eqn:Hx.
    + rewrite (do_call_delegates v I op h m p x e) by done.
      unfold delegate. destruct (op I x e); simpl; eauto.
    + unfold do_call. mbase. cbn [fst]. rewrite Hp. unfold need. mbase.
      destruct should_lock; unfold lock_guard, in_shm, zoom, via; simpl; rewrite ?Hlk; simpl; by rewrite Hx.
  - unfold do_call. mbase. cbn [fst]. by rewrite Hp.
Qed.

Lemma frames_custom {A} sel (none : MH A) h m : frames none h m -> frames (custom_call sel none) h m.
Proof.
  intros Hn e. unfold custom_call, map_ops_of_type. mbase. simpl. destruct (_ || _); [done|].
  destruct (sel _) as [f|]; [|apply Hn]. unfold in_shm, in_world, zoom. simpl.
  destruct (f _ _ _); simpl; split; by try constructor.
Qed.

Lemma frames_mret {A} (a : A) h m : frames (mret a) h m.
Proof. intros e. by split. Qed.

Lemma frames_switch {A} us (op : forall S, MapImpl S -> M S A) dflt h m :
  mh_lock h = false -> frames dflt h m -> frames (switch_impl us op dflt) h m.
Proof.
  intros Hlk Hd e. destruct (decide (map_type h = OtherType)) as [Ht|Ht].
  - unfold switch_impl. mbase. cbn [fst]. rewrite Ht. apply Hd.
  - destruct (serves_total us (map_type h) Ht) as (S & v & I & Hs).
    rewrite (serves_switch us S v I) by done. eapply frames_do_call; eauto using serves_lawful.
Qed.

Lemma frames_guard {A} (b : bpf_map_handler -> bool) (a : A) (c : MH A) h m :
  frames c h m -> frames (x ← gets fst; if b x then mret a else c) h m.
Proof. intros Hc e. mbase. cbn [fst]. destruct (b h); [by split|apply Hc]. Qed.

Lemma frames_drop {A} (c : MH A) h m : frames c h m -> frames (_ ← c; mret tt) h m.
Proof. intros Hc e. specialize (Hc e). mbase. by destruct (c _ _). Qed.

(** Isolation: with its lock free, a call through a handler of any type (a
    plugin's included) ends with the handler as it was, its lock free again; it
    neither creates nor destroys nor retypes an object, so the memory stays well
    formed and every other handler that was live still is. This holds when the
    call throws, too. *)
Theorem map_calls_isolated c h m e :
  mh_lock h = false ->
  match run_map_call c (h, m) e with
  | Ok _ (h', m') _ | Throw _ (h', m') _ =>
      h' = h /\ (shm_wf m -> shm_wf m') /\ forall h2, live h2 m -> live h2 m'
  | Ub _ => True
  end.
Proof.
  intros Hlk. assert (frames (run_map_call c) h m) as Hf.
  { destruct c; apply frames_drop; try (apply frames_guard);
      apply frames_switch, frames_custom, frames_mret; done. }
  specialize (Hf e). destruct (run_map_call c (h, m) e) as [? [h' m']|? [h' m']|]; [| |done];
    destruct Hf as [Hh Hs]; simpl in *; split_and!; try done; intros *; by rewrite Hs.
Qed.

(** *** Creation *)

(** The constructors that check their sizes. *)
Definition bad_sizes h : bool :=
  bool_decide (map_type h = BPF_MAP_TYPE_PERF_EVENT_ARRAY \/ map_type h = BPF_MAP_TYPE_PROG_ARRAY) &&
  (negb (mh_key_size h =? 4) || negb (mh_value_size h =? 4)).

(** The identities of a new object and of the ring buffer it owns, if any. *)
Definition new_object m (ring : option ringbuf) : nat :=
  match ring with Some _ => S (sm_next m) | None => sm_next m end.
Definition new_ring m (ring : option ringbuf) : option nat :=
  match ring with Some _ => Some (sm_next m) | None => None end.

(** The memory with a new object, and a new ring buffer if it owns one. *)
Definition grown m (name : string) (o : map_impl) (ring : option ringbuf) : shm K :=
  let p := new_object m ring in
  mk_shm (<[name := p]> (sm_index m)) (<[p := o]> (sm_objects m))
    (match ring with Some b => <[sm_next m := b]> (sm_rings m) | None => sm_rings m end)
    (S p) (sm_world m) (sm_ops m).

(** The classes whose constructor does not call the kernel. *)
Definition local_type (t : bpf_map_type) : Prop :=
  t <> OtherType /\ t <> BPF_MAP_TYPE_KERNEL_USER_PERF_EVENT_ARRAY.

(** The classes whose destructor does not call the kernel either, and the objects
    for which it has nothing to close. *)
Definition user_type (t : bpf_map_type) : Prop :=
  local_type t /\ t <> BPF_MAP_TYPE_KERNEL_USER_ARRAY /\ t <> BPF_MAP_TYPE_KERNEL_USER_HASH.
Definition quiet (o : map_impl) : Prop :=
  match o with
  | IKuPerf _ => False
  | IKuArray x => aku_map_fd x < 0
  | IKuHash x => hku_map_fd x < 0
  | _ => True
  end.

Lemma user_type_quiet o : user_type (shape o).1 -> quiet o.
Proof. intros ([_ ?] & ? & ?). by destruct o. Qed.

Lemma construct_run h m e :
  local_type (map_type h) -> bad_sizes h = false -> sm_index m !! get_container_name h = None ->
  exists ctor o ring, map_ctor h = Some ctor /\
    shape o = (map_type h, new_ring m ring) /\ quiet o /\
    shm_construct (get_container_name h) ctor m e =
      Ok (new_object m ring) (grown m (get_container_name h) o ring) e.
Proof.
  intros [Ht Ht'] Hb Hn. unfold bad_sizes, map_ctor, shm_construct in *. mbase. rewrite Hn.
  destruct (map_type h) eqn:Hty; try done; simpl in Hb;
    unfold ctor_result, i32_array_new in *; rewrite ?Hb;
    try (do 2 eexists; exists None; split; [reflexivity|];
         split; [|split; [|reflexivity]]; [reflexivity|simpl; done || lia]).
  do 2 eexists; exists (Some (ringbuf_new kernel_page_size (mh_max_entries h))).
  split; [reflexivity|]. split; [|split; [|reflexivity]]; done.
Qed.

Lemma grown_shape m name o ring q :
  sm_shape (grown m name o ring) q =
  if decide (q = new_object m ring) then Some (shape o) else sm_shape m q.
Proof.
  unfold sm_shape, grown. simpl. case_decide as Hq; [subst; by rewrite lookup_insert_eq|].
  by rewrite lookup_insert_ne.
Qed.

Lemma grown_wf m name o (ring : option ringbuf) t :
  shm_wf m -> sm_index m !! name = None -> shape o = (t, new_ring m ring) ->
  shm_wf (grown m name o ring).
Proof.
  intros Hwf Hn Ho. assert (sm_next m <= new_object m ring)%nat as Hnew by (destruct ring; simpl; lia).
  assert (forall q, is_Some (sm_shape m q) -> (q < sm_next m)%nat) as Hfo by apply Hwf.
  assert (forall q x, sm_shape m q = Some x -> (q < sm_next m)%nat) as Hfo' by eauto.
  assert (forall n q, sm_index m !! n = Some q -> (q < sm_next m)%nat) as Hfi.
  { intros n q Hq. by eapply Hfo, Hwf. }
  assert (forall q t' r, sm_shape m q = Some (t', Some r) -> (r < sm_next m)%nat) as Hfr.
  { intros q t' r Hq. by eapply (sm_fresh_ring m Hwf), Hwf. }
  constructor.
  - intros n q. simpl. rewrite grown_shape. destruct (decide (n = name)) as [->|].
    + rewrite lookup_insert_eq. intros [= <-]. by rewrite decide_True.
    + rewrite lookup_insert_ne by done. intros Hq. case_decide; [done|]. by eapply Hwf.
  - intros n1 n2 q. simpl. intros H1 H2. apply lookup_insert_Some in H1, H2.
    destruct H1 as [[<- <-]|[? H1]], H2 as [[<- H2]|[? H2]]; try done.
    + apply Hfi in H2. lia.
    + subst. apply Hfi in H1. lia.
    + by eapply (sm_unique m Hwf).
  - intros q. rewrite grown_shape. simpl. case_decide; [lia|]. intros Hq%Hfo. lia.
  - intros r. simpl. destruct ring; [rewrite dom_insert_L, elem_of_union, elem_of_singleton|];
      [intros [->|Hr]; [lia|]|intros Hr]; apply (sm_fresh_ring m Hwf) in Hr; lia.
  - intros q t' r. rewrite grown_shape. simpl. case_decide as Hq.
    + rewrite Ho. destruct ring; [|done]. intros [= _ <-]. rewrite dom_insert_L. set_solver.
    + intros Hr%(sm_owned m Hwf). destruct ring; [rewrite dom_insert_L; set_solver|done].
  - intros q1 q2 t1 t2 r. rewrite !grown_shape, Ho.
    case_decide as H1; case_decide as H2; [by subst|..|by eapply (sm_owner m Hwf)];
      (destruct ring; [|by intros; simplify_eq]).
    + intros [= _ <-] Hr%Hfr. lia.
    + intros Hr%Hfr [= _ <-]. lia.
Qed.

Lemma grown_live m name o (ring : option ringbuf) h :
  shm_wf m -> sm_index m !! name = None -> live h m -> live h (grown m name o ring).
Proof.
  intros Hwf Hn (p & r & Hp & Hi & Hs). exists p, r. split; [done|].
  assert (p < sm_next m)%nat by (eapply Hwf; eauto).
  assert (sm_next m <= new_object m ring)%nat by (destruct ring; simpl; lia).
  simpl. rewrite grown_shape, decide_False by lia. rewrite lookup_insert_ne; [done|congruence].
Qed.

Lemma grown_live_new m h o (ring : option ringbuf) :
  shape o = (map_type h, new_ring m ring) ->
  live (mh_set_ptr (Some (new_object m ring)) h)
    (grown m (get_container_name h) o ring).
Proof.
  intros Ho. do 2 eexists. split; [done|]. rewrite grown_shape, decide_True by done. rewrite Ho.
  simpl. split; [apply lookup_insert_eq|done].
Qed.

(** [map_init] refuses a ring buffer whose size is not a power of two. *)
Definition init_refused h : Prop :=
  map_type h = BPF_MAP_TYPE_RINGBUF /\ ~ exists n, 0 <= n /\ mh_max_entries h = 2 ^ n.

Lemma init_guard h :
  0 <= mh_max_entries h < 2 ^ 32 ->
  if bool_decide (map_type h = BPF_MAP_TYPE_RINGBUF) && negb (popcnt (mh_max_entries h) =? 1)
  then init_refused h else ~ init_refused h.
Proof.
  intros Hm. unfold init_refused. pose proof (popcnt_pow2 (mh_max_entries h) ltac:(lia)) as Hp.
  case_bool_decide; simpl; [|by intros []]. destruct (Z.eqb_spec (popcnt (mh_max_entries h)) 1); simpl.
  - intros [_ Hn]. by apply Hn, Hp.
  - split; [done|]. intros Hn. by apply Hp in Hn.
Qed.

Lemma init_ok h m e :
  0 <= mh_max_entries h < 2 ^ 32 -> local_type (map_type h) -> ~ init_refused h ->
  bad_sizes h = false -> sm_index m !! get_container_name h = None ->
  exists o ring, shape o = (map_type h, new_ring m ring) /\ quiet o /\
    map_init (h, m) e =
      Ok 0 (mh_set_ptr (Some (new_object m ring)) h,
            grown m (get_container_name h) o ring) e.
Proof.
  intros Hm Hloc Hr Hb Hn. pose proof (init_guard h Hm) as Hg.
  destruct (construct_run h m e Hloc Hb Hn) as (ctor & o & ring & Hc & Ho & Hq & Hrun).
  exists o, ring. do 2 (split; [done|]). unfold map_init. mbase. cbn [fst]. rewrite Hc.
  destruct (_ && _); [done|]. unfold in_shm, zoom. cbn [snd]. by rewrite Hrun.
Qed.

Lemma init_refused_run h m e :
  0 <= mh_max_entries h < 2 ^ 32 -> init_refused h -> map_init (h, m) e = Ok (-1) (h, m) e.
Proof.
  intros Hm Hr. pose proof (init_guard h Hm) as Hg. unfold map_init. mbase. cbn [fst].
  destruct (map_ctor h) eqn:Hc; [by destruct (_ && _)|].
  unfold map_ctor in Hc. by rewrite (proj1 Hr) in Hc.
Qed.

Lemma init_throws h m e :
  0 <= mh_max_entries h < 2 ^ 32 -> map_type h <> OtherType -> ~ init_refused h ->
  is_Some (sm_index m !! get_container_name h) \/ bad_sizes h = true ->
  exists w, map_init (h, m) e = Throw w (h, m) e.
Proof.
  intros Hm Ht Hr Hcase. pose proof (init_guard h Hm) as Hg.
  assert (exists ctor, map_ctor h = Some ctor /\
    (bad_sizes h = true -> exists w, ctor m e = Throw w m e)) as (ctor & Hc & Hbad).
  { unfold map_ctor, bad_sizes. destruct (map_type h) eqn:Hty; try done; simpl;
      (eexists; split; [reflexivity|]; try done); intros Hb;
      unfold ctor_result, i32_array_new; rewrite Hb; eexists; reflexivity. }
  unfold map_init. mbase. cbn [fst]. rewrite Hc. destruct (_ && _); [done|].
  unfold in_shm, zoom, shm_construct. mbase. cbn [snd].
  destruct (sm_index m !! get_container_name h) as [p|] eqn:Hn; [by eexists|].
  destruct Hcase as [[? [=]]|Hb]. destruct (Hbad Hb) as [w ->]. by eexists.
Qed.

(** Creating a map of a built-in type (the shared perf event array aside, whose
    constructor runs in the kernel). A ring buffer whose size is not a power of two is
    refused with -1; a name already in use, or sizes other than 4 for an array of
    descriptors, make it throw; both leave everything as it was. Otherwise it
    returns 0, the handler becomes live, and every map created before stays so. *)
Theorem map_init_spec h m e :
  shm_wf m -> 0 <= mh_max_entries h < 2 ^ 32 -> local_type (map_type h) ->
  (init_refused h -> map_init (h, m) e = Ok (-1) (h, m) e) /\
  (~ init_refused h -> is_Some (sm_index m !! get_container_name h) \/ bad_sizes h = true ->
   exists w, map_init (h, m) e = Throw w (h, m) e) /\
  (~ init_refused h -> sm_index m !! get_container_name h = None -> bad_sizes h = false ->
   exists h' m', map_init (h, m) e = Ok 0 (h', m') e /\ shm_wf m' /\ live h' m' /\
     mh_lock h' = mh_lock h /\ map_type h' = map_type h /\
     forall h2, live h2 m -> live h2 m').
Proof.
  intros Hwf Hm Hloc. split_and!.
  - by apply init_refused_run.
  - intros Hr. apply init_throws; [done|apply Hloc|done].
  - intros Hr Hn Hb. destruct (init_ok h m e Hm Hloc Hr Hb Hn) as (o & ring & Ho & Hq & Hrun).
    do 2 eexists. split; [exact Hrun|]. split_and!; try done.
    + by eapply grown_wf.
    + by apply grown_live_new.
    + intros h2. by apply grown_live.
Qed.

(** *** Destruction *)

Lemma array_of_maps_type h : map_type h = BPF_MAP_TYPE_ARRAY_OF_MAPS -> mh_type h = 12.
Proof. unfold map_type, map_type_of. split_ifs; try done. intros _. by apply Z.eqb_eq. Qed.

(** A live object of a class [map_free] knows is destroyed with its ring buffer. *)
Lemma destroy_run m name p o is_T e :
  sm_index m !! name = Some p -> sm_objects m !! p = Some o -> is_T o = true -> quiet o ->
  shm_destroy is_T name m e =
    Ok tt (mk_shm (delete name (sm_index m)) (delete p (sm_objects m))
      (match (shape o).2 with Some r => delete r (sm_rings m) | None => sm_rings m end)
      (sm_next m) (sm_world m) (sm_ops m)) e.
Proof.
  intros Hi Ho HT Hk. unfold shm_destroy. mbase. rewrite Hi. unfold need. rewrite Ho. mbase. rewrite HT.
  destruct o; try done; simpl in Hk |- *; by rewrite (proj2 (Z.leb_gt _ _)) by lia.
Qed.

Lemma free_class_shape t is_T o : free_class t = Some is_T -> (shape o).1 = t -> is_T o = true.
Proof. by intros Hf <-; destruct o; simpl in *; simplify_eq. Qed.

Lemma free_class_local t : local_type t -> t <> BPF_MAP_TYPE_ARRAY_OF_MAPS -> is_Some (free_class t).
Proof. intros [??] ?. destruct t; simpl; eauto; done. Qed.

(** Creating and freeing: except for arrays of maps, [map_free] undoes
    [map_init]: the memory has the names, objects and ring buffers it had
    before, so nothing leaks and the name can be used again. *)
Theorem map_init_free h m h' m' e e' :
  shm_wf m -> 0 <= mh_max_entries h < 2 ^ 32 -> local_type (map_type h) ->
  map_type h <> BPF_MAP_TYPE_ARRAY_OF_MAPS ->
  map_init (h, m) e = Ok 0 (h', m') e' ->
  exists m'', map_free (h', m') e' = Ok tt (mh_set_ptr None h, m'') e' /\
    sm_index m'' = sm_index m /\ sm_objects m'' = sm_objects m /\ sm_rings m'' = sm_rings m.
Proof.
  intros Hwf Hm Hloc Haom Hi.
  assert (~ init_refused h) as Hr.
  { intros Hr. by rewrite (init_refused_run h m e Hm Hr) in Hi. }
  destruct (decide (sm_index m !! get_container_name h = None /\ bad_sizes h = false)) as [[Hn Hb]|Hno].
  2: { destruct (init_throws h m e Hm (proj1 Hloc) Hr) as [w Hw]; [|by rewrite Hw in Hi].
       destruct (sm_index m !! get_container_name h), (bad_sizes h); eauto. }
  destruct (init_ok h m e Hm Hloc Hr Hb Hn) as (o & ring & Ho & Hq & Hrun).
  rewrite Hi in Hrun. injection Hrun as -> -> ->.
  destruct (free_class_local (map_type h) Hloc Haom) as [is_T HT].
  eexists. split; [|split_and!].
  - unfold map_free. mbase. cbn [fst]. change (map_type (mh_set_ptr _ h)) with (map_type h). rewrite HT.
    unfold in_shm, zoom. cbn [snd]. change (get_container_name (mh_set_ptr _ h)) with (get_container_name h).
    rewrite (destroy_run _ _ (new_object m ring) o); [reflexivity|..].
    + apply lookup_insert_eq.
    + apply lookup_insert_eq.
    + eapply free_class_shape; [done|]. by rewrite Ho.
    + done.
  - simpl. by rewrite delete_insert_id.
  - simpl. rewrite delete_insert_id; [done|]. destruct (sm_objects m !! _) eqn:Hp; [|done].
    assert (new_object m ring < sm_next m)%nat as Hlt.
    { apply (sm_fresh_object m Hwf). unfold sm_shape. rewrite Hp. by eexists. }
    destruct ring; simpl in Hlt; lia.
  - simpl. rewrite Ho. destruct ring; simpl; [|done]. rewrite delete_insert_id; [done|].
    apply not_elem_of_dom. intros Hlt%(sm_fresh_ring m Hwf). lia.
Qed.

Lemma live_object h m : live h m -> exists p o, mh_impl_ptr h = Some p /\
  sm_index m !! get_container_name h = Some p /\ sm_objects m !! p = Some o /\ (shape o).1 = map_type h.
Proof.
  intros (p & r & Hp & Hi & Hs). unfold sm_shape in Hs. destruct (sm_objects m !! p) as [o|] eqn:Ho; [|done].
  injection Hs as Hs. exists p, o. by rewrite Hs.
Qed.

(** Removing an object that has a name. *)
Definition shrunk m (name : string) (p : nat) (ring : option nat) : shm K :=
  mk_shm (delete name (sm_index m)) (delete p (sm_objects m))
    (match ring with Some r => delete r (sm_rings m) | None => sm_rings m end)
    (sm_next m) (sm_world m) (sm_ops m).

Lemma shrunk_shape m name p ring q t :
  sm_shape (shrunk m name p ring) q = Some t <-> q <> p /\ sm_shape m q = Some t.
Proof.
  unfold sm_shape, shrunk. simpl. destruct (decide (q = p)) as [->|].
  - rewrite lookup_delete_eq. by split; [|intros []].
  - rewrite lookup_delete_ne by done. by split; [|intros []].
Qed.

Lemma shrunk_wf m name p t ring :
  shm_wf m -> sm_index m !! name = Some p -> sm_shape m p = Some (t, ring) ->
  shm_wf (shrunk m name p ring).
Proof.
  intros Hwf Hi Hp. constructor.
  - intros n q. simpl. rewrite lookup_delete_Some. intros [Hne Hq].
    destruct (sm_named m Hwf n q Hq) as [x Hx]. exists x. apply shrunk_shape. split; [|done].
    intros ->. by apply Hne, (sm_unique m Hwf _ _ p).
  - intros n1 n2 q. simpl. rewrite !lookup_delete_Some. intros [_ H1] [_ H2].
    by apply (sm_unique m Hwf _ _ q).
  - intros q [x [_ Hx]%shrunk_shape]. simpl. eapply Hwf. eauto.
  - intros r. simpl. destruct ring; [rewrite dom_delete_L, elem_of_difference; intros [Hr _]|intros Hr];
      by apply (sm_fresh_ring m Hwf).
  - intros q t' r [Hne Hq]%shrunk_shape. simpl. pose proof (sm_owned m Hwf _ _ _ Hq) as Hr.
    destruct ring as [r'|]; [|done]. rewrite dom_delete_L, elem_of_difference, elem_of_singleton.
    split; [done|]. intros ->. by apply Hne, (sm_owner m Hwf q p t' t r').
  - intros q1 q2 t1 t2 r [_ H1]%shrunk_shape [_ H2]%shrunk_shape. by eapply (sm_owner m Hwf).
Qed.

Lemma shrunk_live m name p ring h :
  sm_index m !! name = Some p -> get_container_name h <> name -> shm_wf m -> live h m ->
  live h (shrunk m name p ring).
Proof.
  intros Hi Hne Hwf (q & r & Hq & Hiq & Hs). exists q, r. split; [done|]. simpl.
  rewrite lookup_delete_ne by done. split; [done|]. apply shrunk_shape. split; [|done].
  intros ->. by apply Hne, (sm_unique m Hwf _ _ p).
Qed.

(** A handler that [map_free] can take: live, or never initialised with its name
    unused; no plugin has registered operations for arrays of maps. *)
Definition freeable h m : Prop :=
  user_type (map_type h) /\
  (live h m \/ (mh_impl_ptr h = None /\ sm_index m !! get_container_name h = None)) /\
  sm_ops m !! 12 = None.

(** Freeing keeps the memory well formed and the other handlers as they were. *)
Lemma map_free_run h m e :
  shm_wf m -> freeable h m ->
  exists m', map_free (h, m) e = Ok tt (mh_set_ptr None h, m') e /\ shm_wf m' /\
    sm_ops m' = sm_ops m /\ (forall n, sm_index m !! n = None -> sm_index m' !! n = None) /\
    (forall h2, get_container_name h2 <> get_container_name h -> live h2 m -> live h2 m').
Proof.
  intros Hwf (Hloc & Hl & Hops).
  destruct (free_class (map_type h)) as [is_T|] eqn:HT.
  - destruct Hl as [Hl|[_ Hn]].
    + destruct (live_object h m Hl) as (p & o & Hp & Hi & Ho & Hs).
      assert (sm_shape m p = Some ((shape o).1, (shape o).2)) as Hsh
        by (unfold sm_shape; rewrite Ho; simpl; by destruct (shape o)).
      exists (shrunk m (get_container_name h) p (shape o).2). split_and!; try done.
      * unfold map_free. mbase. cbn [fst]. rewrite HT. unfold in_shm, zoom. cbn [snd].
        rewrite (destroy_run _ _ p o); [done|done|done|by eapply free_class_shape|].
        apply user_type_quiet. by rewrite Hs.
      * by eapply shrunk_wf.
      * intros n Hn. simpl. apply lookup_delete_None. by right.
      * intros h2 Hne Hl2. by apply shrunk_live.
    + exists m. split_and!; try done. unfold map_free. mbase. cbn [fst]. rewrite HT.
      unfold in_shm, zoom, shm_destroy. mbase. cbn [snd]. by rewrite Hn.
  - assert (map_type h = BPF_MAP_TYPE_ARRAY_OF_MAPS) as Ht
      by (destruct Hloc as [[] _]; destruct (map_type h); done).
    exists m. split_and!; try done.
    unfold map_free, custom_call, map_ops_of_type. mbase. cbn [fst]. rewrite HT. cbn [fst snd].
    rewrite (array_of_maps_type h) by done. by rewrite Hops.
Qed.

(** [map_free] has no case for arrays of maps: freeing one keeps its object
    and its name, and creating an array of maps of that name again throws. *)
Theorem array_of_maps_leaks h h2 m e :
  map_type h = BPF_MAP_TYPE_ARRAY_OF_MAPS -> sm_ops m !! 12 = None -> live h m ->
  map_type h2 = BPF_MAP_TYPE_ARRAY_OF_MAPS -> mh_name h2 = mh_name h ->
  map_free (h, m) e = Ok tt (mh_set_ptr None h, m) e /\
  exists w, map_init (h2, m) e = Throw w (h2, m) e.
Proof.
  intros Ht Hops Hl Ht2 Hn. destruct (live_object h m Hl) as (p & o & _ & Hi & _). split.
  - unfold map_free, custom_call, map_ops_of_type. mbase. cbn [fst]. rewrite Ht. cbn [free_class fst snd].
    rewrite (array_of_maps_type h Ht). simpl. by rewrite Hops.
  - unfold map_init. mbase. cbn [fst]. unfold map_ctor. rewrite Ht2. simpl.
    unfold in_shm, zoom, shm_construct. mbase. cbn [snd]. unfold get_container_name. rewrite Hn.
    unfold get_container_name in Hi. rewrite Hi. by eexists.
Qed.

(** Two maps of one name and type: creating the second throws and leaves it
    without an implementation, but freeing it destroys the implementation of the
    first, whose handler then points to nothing: any further call on it is
    undefined. *)
Theorem same_name_frees_other h h2 m e :
  0 <= mh_max_entries h2 < 2 ^ 32 -> user_type (map_type h) ->
  map_type h <> BPF_MAP_TYPE_ARRAY_OF_MAPS ->
  live h m -> mh_lock h = false -> map_type h2 = map_type h -> mh_name h2 = mh_name h ->
  ~ init_refused h2 ->
  (exists w, map_init (h2, m) e = Throw w (h2, m) e) /\
  exists m', map_free (h2, m) e = Ok tt (mh_set_ptr None h2, m') e /\ ~ live h m' /\
    forall key us e', exists w, map_lookup_elem key us (h, m') e' = Ub w.
Proof.
  intros Hm Hloc Haom Hl Hlk Ht Hn Hr. destruct (live_object h m Hl) as (p & o & Hp & Hi & Ho & Hs).
  assert (get_container_name h2 = get_container_name h) as Hc by (unfold get_container_name; by rewrite Hn).
  split; [apply init_throws; [done|by rewrite Ht; apply Hloc|done|left; rewrite Hc; eauto]|].
  destruct (free_class_local (map_type h) (proj1 Hloc) Haom) as [is_T HT].
  eexists. split; [|split].
  - unfold map_free. mbase. cbn [fst]. rewrite Ht, HT, Hc. unfold in_shm, zoom. cbn [snd].
    rewrite (destroy_run _ _ p o); [reflexivity|done|done|..].
    + by eapply free_class_shape.
    + apply user_type_quiet. by rewrite Hs.
  - intros (p' & r & _ & Hi' & _). simpl in Hi'. by rewrite lookup_delete_eq in Hi'.
  - intros key us e'. destruct (serves_total us (map_type h) (proj1 (proj1 Hloc))) as (S & v & I & Hsv).
    unfold map_lookup_elem. rewrite (serves_switch us S v I) by done.
    assert (v_load v p (mk_shm (delete (get_container_name h) (sm_index m)) (delete p (sm_objects m))
      (match (shape o).2 with Some r => delete r (sm_rings m) | None => sm_rings m end)
      (sm_next m) (sm_world m) (sm_ops m)) = None) as Hload.
    { clear - Hsv. destruct Hsv; simpl; unfold ring_of; simpl; by rewrite lookup_delete_eq. }
    unfold do_call. mbase. cbn [fst]. rewrite Hp. unfold need. mbase.
    destruct should_lock; unfold lock_guard, in_shm, zoom, via; simpl; rewrite ?Hlk; simpl;
      setoid_rewrite Hload; by eexists.
Qed.

(** Plugins: registering operations for a type outside the table is refused;
    otherwise the calls of a map of that type, unless the type is built in, are the
    registered ones, always with the map id 0, since the handler never stores its
    own. *)
Theorem custom_ops_called id name attr t ops m e key us :
  ma_type attr = t -> map_type_of t = OtherType ->
  (t < 0 \/ 2048 <= t -> bpftime_register_map_ops t ops m e = Ok (-1) m e) /\
  (0 <= t < 2048 -> exists m',
    bpftime_register_map_ops t ops m e = Ok 0 m' e /\
    map_lookup_elem key us (map_handler_new id name attr, m') e =
    match mo_elem_lookup ops with
    | None => Ok VNull (map_handler_new id name attr, m') e
    | Some f =>
        match f 0 key us (sm_world m) e with
        | Ok a k e' => Ok a (map_handler_new id name attr, sm_set_world k m') e'
        | Throw w k e' => Throw w (map_handler_new id name attr, sm_set_world k m') e'
        | Ub w => Ub w
        end
    end).
Proof.
  intros <- Hty. unfold bpftime_register_map_ops, BPF_MAP_TYPE_MAX. split.
  - intros [Hl|Hl].
    + by rewrite (proj2 (Z.ltb_lt _ _)) by lia.
    + by rewrite (proj2 (Z.leb_le _ _)), orb_true_r by lia.
  - intros Hr. rewrite (proj2 (Z.ltb_ge _ _)), (proj2 (Z.leb_gt _ _)) by lia. simpl. mbase.
    eexists. split; [reflexivity|]. unfold map_lookup_elem, switch_impl. mbase. cbn [fst].
    change (map_type (map_handler_new id name attr)) with (map_type_of (ma_type attr)). rewrite Hty.
    unfold custom_call, map_ops_of_type. mbase. cbn [fst snd map_handler_new mh_type].
    unfold BPF_MAP_TYPE_MAX. rewrite (proj2 (Z.ltb_ge _ _)), (proj2 (Z.leb_gt _ _)) by lia.
    cbn [orb sm_ops]. rewrite lookup_insert_eq. simpl. destruct (mo_elem_lookup ops) as [f|]; [|done]. simpl.
    unfold in_shm, in_world, zoom. simpl. by destruct (f _ _ _ _ _).
Qed.

End handler.
Arguments mk_view {K S}.
Arguments v_load {K S}.
Arguments v_store {K S}.

(** ** Witnesses *)

Definition toy_runtime : Runtime (list bytes) := {|
  rt_containers := um_append;
  rt_kernel := toy_kernel;
  rt_transport := toy_transport;
  rt_cpu := 0;
  rt_ncpu := 2;
  rt_prog_fd := fun n id => id;
  rt_prog_info := fun fd => inr fd;
  allow_non_buildin_map_types := true
|}.

Definition empty_shm : shm (list bytes) := mk_shm ∅ ∅ ∅ 0 [] ∅.

Definition small_attr (t key_size value_size max_ents : Z) : bpf_map_attr :=
  mk_attr t key_size value_size max_ents 0 0 0 0 0 0 0 0.

Definition small_handler (t : Z) : bpf_map_handler := map_handler_new 3 "m" (small_attr t 4 4 2).

(** A memory with one array map of two elements and one ring buffer. *)
Definition one_object (o : map_impl) : shm (list bytes) :=
  mk_shm {[ "ebpf_map_fd_m"%string := O ]} {[ O := o ]} ∅ 1 [] ∅.
Definition with_array : shm (list bytes) := one_object (IArray (array_map_new 4 2)).
Definition with_array_of_maps : shm (list bytes) := one_object (IArrayOfMaps (array_of_maps_new 2)).

Lemma empty_shm_wf : shm_wf empty_shm.
Proof. constructor; intros *; unfold sm_shape; simpl; rewrite ?lookup_empty; try done. by intros []. Qed.

Lemma one_object_wf o : (shape o).2 = None -> shm_wf (one_object o).
Proof.
  intros Ho. constructor; intros *; unfold sm_shape; simpl; rewrite ?lookup_singleton_Some;
    rewrite ?lookup_singleton.
  - intros [_ <-]. by rewrite decide_True.
  - by intros [-> _] [-> _].
  - case_decide; [lia|by intros []].
  - by rewrite dom_empty_L.
  - case_decide; simpl; [intros [= Hs]; by rewrite Hs in Ho|done].
  - case_decide; simpl; [intros [= Hs]; by rewrite Hs in Ho|done].
Qed.

Lemma one_object_live o t :
  shape o = (map_type (small_handler t), None) ->
  live (mh_set_ptr (Some O) (small_handler t)) (one_object o).
Proof.
  intros Ho. exists O, None. split_and!; [done|reflexivity|]. unfold sm_shape. simpl.
  rewrite lookup_singleton_eq. simpl. by rewrite Ho.
Qed.

Lemma map_calls_delegate_witness :
  exists p x, mh_impl_ptr (mh_set_ptr (Some O) (small_handler 2)) = Some p /\
    v_load array_view p with_array = Some x /\
    @map_lookup_elem _ toy_runtime (Some [1; 0; 0; 0]) true
      (mh_set_ptr (Some O) (small_handler 2), with_array) 0 =
    delegate (mh_set_ptr (Some O) (small_handler 2)) with_array array_view p
      (@elem_lookup _ array_MapImpl (Some [1; 0; 0; 0]) x 0).
Proof.
  destruct (@map_calls_delegate _ toy_runtime true (mh_set_ptr (Some O) (small_handler 2)) with_array
    _ array_view array_MapImpl (Some [1; 0; 0; 0]) None 0 true 0
    (one_object_wf (IArray (array_map_new 4 2)) eq_refl) (one_object_live (IArray (array_map_new 4 2)) 2 eq_refl) eq_refl (serves_array true)) as (p & x & Hp & Hx & Hl & _).
  exact (ex_intro _ p (ex_intro _ x (conj Hp (conj Hx Hl)))).
Defined.

Lemma map_calls_isolated_witness :
  match @run_map_call _ toy_runtime (MapUpdate (Some [1; 0; 0; 0]) (Some [9; 9; 9; 9]) 0 true)
    (mh_set_ptr (Some O) (small_handler 2), with_array) 0 with
  | Ok _ (h', m') _ | Throw _ (h', m') _ =>
      h' = mh_set_ptr (Some O) (small_handler 2) /\ (shm_wf with_array -> shm_wf m') /\
      forall h2, live h2 with_array -> live h2 m'
  | Ub _ => True
  end.
Proof.
  exact (@map_calls_isolated _ toy_runtime (MapUpdate (Some [1; 0; 0; 0]) (Some [9; 9; 9; 9]) 0 true)
    (mh_set_ptr (Some O) (small_handler 2)) with_array 0 eq_refl).
Defined.

Lemma map_init_spec_witness :
  exists h' m', @map_init _ toy_runtime (small_handler 27, empty_shm) 0 = Ok 0 (h', m') 0 /\
    shm_wf m' /\ live h' m' /\ mh_lock h' = false /\ map_type h' = BPF_MAP_TYPE_RINGBUF /\
    forall h2, live h2 empty_shm -> live h2 m'.
Proof.
  refine (proj2 (proj2 (@map_init_spec _ toy_runtime (small_handler 27) empty_shm 0 empty_shm_wf _ _)) _ _ _).
  - simpl. lia.
  - split; done.
  - intros [_ Hn]. apply Hn. exists 1. split; [lia|reflexivity].
  - reflexivity.
  - reflexivity.
Defined.

Definition after_init : bpf_map_handler * shm (list bytes) :=
  match @map_init _ toy_runtime (small_handler 2, empty_shm) 0 with
  | Ok _ s _ => s
  | _ => (small_handler 2, empty_shm)
  end.

Lemma map_init_free_witness :
  exists m'', @map_free _ toy_runtime (after_init.1, after_init.2) 0 =
    Ok tt (mh_set_ptr None (small_handler 2), m'') 0 /\
    sm_index m'' = sm_index empty_shm /\ sm_objects m'' = sm_objects empty_shm /\
    sm_rings m'' = sm_rings empty_shm.
Proof.
  refine (@map_init_free _ toy_runtime (small_handler 2) empty_shm after_init.1 after_init.2 0 0
    empty_shm_wf _ _ _ _).
  - simpl. lia.
  - split; done.
  - done.
  - vm_compute. reflexivity.
Defined.

Lemma array_of_maps_leaks_witness :
  @map_free _ toy_runtime (mh_set_ptr (Some O) (small_handler 12), with_array_of_maps) 0 =
    Ok tt (small_handler 12, with_array_of_maps) 0 /\
  exists w, @map_init _ toy_runtime (small_handler 12, with_array_of_maps) 0 =
    Throw w (small_handler 12, with_array_of_maps) 0.
Proof.
  refine (@array_of_maps_leaks _ toy_runtime (mh_set_ptr (Some O) (small_handler 12)) (small_handler 12)
    with_array_of_maps 0 eq_refl _ (one_object_live (IArrayOfMaps (array_of_maps_new 2)) 12 eq_refl) eq_refl eq_refl).
  reflexivity.
Defined.

Lemma same_name_frees_other_witness :
  (exists w, @map_init _ toy_runtime (small_handler 2, with_array) 0 =
    Throw w (small_handler 2, with_array) 0) /\
  exists m', @map_free _ toy_runtime (small_handler 2, with_array) 0 =
    Ok tt (mh_set_ptr None (small_handler 2), m') 0 /\ ~ live (mh_set_ptr (Some O) (small_handler 2)) m' /\
    forall key us e', exists w, @map_lookup_elem _ toy_runtime key us
      (mh_set_ptr (Some O) (small_handler 2), m') e' = Ub w.
Proof.
  refine (@same_name_frees_other _ toy_runtime (mh_set_ptr (Some O) (small_handler 2)) (small_handler 2)
    with_array 0 _ _ _ (one_object_live (IArray (array_map_new 4 2)) 2 eq_refl) eq_refl eq_refl eq_refl _).
  - simpl. lia.
  - done.
  - done.
  - intros [Hn _]. discriminate.
Defined.

Definition echo_ops : bpftime_map_ops (list bytes) :=
  mk_map_ops None None (Some (fun id key us => mret (VWord id))) None None None.

Lemma custom_ops_called_witness :
  exists m', @bpftime_register_map_ops (list bytes) 2000 echo_ops empty_shm 0 = Ok 0 m' 0 /\
    @map_lookup_elem _ toy_runtime None true
      (map_handler_new 7 "m" (small_attr 2000 4 4 2), m') 0 =
    Ok (VWord 0) (map_handler_new 7 "m" (small_attr 2000 4 4 2), sm_set_world [] m') 0.
Proof.
  refine (proj2 (@custom_ops_called _ toy_runtime 7 "m" (small_attr 2000 4 4 2) 2000 echo_ops empty_shm 0
    None true eq_refl eq_refl) _).
  lia.
Defined.
