(* ===== verification/HandlerManager.v ===== *)
(** [handler_manager] (handler/handler_manager.{hpp,cpp}) and the handlers it
    stores: the table from descriptors to maps, programs, links, perf events and
    epoll instances, with their creation and their cascading destruction. *)
From Stdlib Require Import ZArith Lia.
From stdpp Require Import base list gmap strings.
From S2P Require Import Prelude MapCommon ArrayMap MapHandler PerfEvent.
Local Open Scope Z_scope.

(** ** Handlers *)

(** The fields of [bpf_link_create_args] in front of its union, and the union's
    bytes. *)
Record bpf_link_create_args := mk_link_args {
  la_prog_fd : Z;
  la_target_fd : Z;
  la_attach_type : Z;
  la_flags : Z;
  la_union : bytes
}.

Record bpf_link_handler := mk_link {
  lh_args : option bpf_link_create_args;
  lh_prog_id : Z;
  lh_attach_target_id : Z;
  lh_attach_cookie : option Z
}.

Definition link_of_args (a : bpf_link_create_args) : bpf_link_handler :=
  mk_link (Some a) (s32 (la_prog_fd a)) (s32 (la_target_fd a)) None.
Definition link_with_cookie (prog_id attach_target_id : Z) (cookie : option Z) : bpf_link_handler :=
  mk_link None prog_id attach_target_id cookie.

(** A program: 64-bit instructions. [type] is a member the constructor does not
    initialise. *)
Record bpf_prog_handler := mk_prog {
  ph_type : option Z;
  ph_insns : list Z;
  ph_aot_insns : bytes;
  ph_name : string
}.

Definition prog_handler_new (insns : list Z) (prog_name : string) (prog_type : Z) : bpf_prog_handler :=
  mk_prog None insns [] prog_name.

(** The files of an epoll instance: weak pointers with the user's data. *)
Inductive file_ptr := FileSoftware (obj : nat) | FileRingbuf (ring : nat).
Record epoll_file := mk_epoll_file { ef_file : file_ptr; ef_data : Z }.
Record epoll_handler := mk_epoll { ep_files : list epoll_file }.
Definition epoll_handler_new : epoll_handler := mk_epoll [].

Inductive handler_variant :=
| UnusedHandler
| MapH (h : bpf_map_handler)
| LinkH (l : bpf_link_handler)
| ProgH (p : bpf_prog_handler)
| PerfH (p : bpf_perf_event_handler)
| EpollH (x : epoll_handler).

Definition is_unused (v : handler_variant) : bool :=
  match v with UnusedHandler => true | _ => false end.

Definition is_map (v : handler_variant) : bool :=
  match v with MapH _ => true | _ => false end.

(** ** The manager, with the shared memory it lives in

    [hm_events] are the software perf event objects owned by perf event handlers. *)
Record manager (K : Type) := mk_manager {
  hm_handlers : list handler_variant;
  hm_mem : shm K;
  hm_events : sw_heap;
  hm_next_event : nat
}.
Arguments mk_manager {K}.
Arguments hm_handlers {K}.
Arguments hm_mem {K}.
Arguments hm_events {K}.
Arguments hm_next_event {K}.

Section manager.
Context {K : Type} `{Runtime K}.
Implicit Types (s : manager K) (v : handler_variant) (fd : Z).

Abbreviation HM := (M (manager K)).

Definition hm_set_handlers (l : list handler_variant) s : manager K :=
  mk_manager l (hm_mem s) (hm_events s) (hm_next_event s).
Definition hm_set_mem (m : shm K) s : manager K :=
  mk_manager (hm_handlers s) m (hm_events s) (hm_next_event s).
Definition hm_set_events (ev : sw_heap) s : manager K :=
  mk_manager (hm_handlers s) (hm_mem s) ev (hm_next_event s).

Definition DEFAULT_MAX_FD := Z.to_nat (1024 * 6).

Definition manager_new (max_fd_count : nat) (m : shm K) : manager K :=
  mk_manager (replicate max_fd_count UnusedHandler) m ∅ 0.

Definition hm_size s : Z := Z.of_nat (length (hm_handlers s)).

(** [fd >= 0 && (size_t)fd < handlers.size()] *)
Definition in_table fd s : bool := (0 <=? fd) && (fd <? hm_size s).

(** [handlers[fd]], unchecked. *)
Definition get_handler fd : HM handler_variant :=
  s ← get;
  if in_table fd s then need "index outside handlers" (hm_handlers s !! Z.to_nat fd)
  else ub "index outside handlers".

Definition is_allocated fd : HM bool :=
  s ← get;
  if in_table fd s then v ← get_handler fd; mret (negb (is_unused v)) else mret false.

Definition hm_store fd v : HM unit :=
  modify (fun s => hm_set_handlers (<[Z.to_nat fd := v]> (hm_handlers s)) s).

(** A member call on the map handler at [fd]. *)
Definition on_map {A} fd (c : M (bpf_map_handler * shm K) A) : HM A := fun s e =>
  match hm_handlers s !! Z.to_nat fd with
  | Some (MapH h) =>
      let back (x : bpf_map_handler * shm K) :=
        mk_manager (<[Z.to_nat fd := MapH x.1]> (hm_handlers s)) x.2 (hm_events s) (hm_next_event s) in
      match c (h, hm_mem s) e with
      | Ok a x e' => Ok a (back x) e'
      | Throw w x e' => Throw w (back x) e'
      | Ub w => Ub w
      end
  | _ => Ub "not a map handler"
  end.

(** The result of [map_init] is not looked at. *)
Definition set_handler fd v : HM Z :=
  allocated ← is_allocated fd;
  if allocated : bool then mret (- EEXIST)
  else if is_unused v then mret (- ENOTSUP)
  else
    s ← get;
    if in_table fd s then
      hm_store fd v;;
      match v with
      | MapH _ => _ ← on_map fd map_init; mret fd
      | _ => mret fd
      end
    else ub "index outside handlers".

(** [for (i = 0; i < handlers.size(); i++) if (!is_allocated(i)) return i;] *)
Fixpoint find_unused_from (l : list handler_variant) (i : Z) : Z :=
  match l with
  | [] => -1
  | v :: l' => if is_unused v then i else find_unused_from l' (i + 1)
  end.
Definition find_minimal_unused_idx : HM Z := gets (fun s => find_unused_from (hm_handlers s) 0).

Definition set_handler_at_empty_slot v : HM Z :=
  id ← find_minimal_unused_idx;
  if id <? 0 then mret id else set_handler id v.

(** [handlers[fd] = unused_handler()] destroys what was there; the last owner of
    a software event frees it. *)
Definition reset_slot fd : HM unit :=
  v ← get_handler fd;
  (match v with
   | PerfH p =>
       match pe_data p with
       | SoftwareData obj => modify (fun s => hm_set_events (delete obj (hm_events s)) s)
       | _ => mret tt
       end
   | _ => mret tt
   end);;
  hm_store fd UnusedHandler.

(** The loops over the links of a perf event or of a program. *)
Fixpoint clear_links (clear : Z -> HM unit) (sel : bpf_link_handler -> bool) (n i : nat) : HM unit :=
  match n with
  | O => mret tt
  | S n' =>
      v ← get_handler (Z.of_nat i);
      (match v with
       | LinkH l => if sel l then clear (Z.of_nat i) else mret tt
       | _ => mret tt
       end);;
      clear_links clear sel n' (S i)
  end.

Definition targets fd (l : bpf_link_handler) : bool := lh_attach_target_id l =? fd.
Definition runs fd (l : bpf_link_handler) : bool := lh_prog_id l =? fd.

(** The recursive call is on a link, which has no further calls. *)
Fixpoint clear_rec (fuel : nat) fd : HM unit :=
  match fuel with
  | O => ub "recursion bound"
  | S fuel' =>
      s ← get;
      if negb (in_table fd s) then mret tt
      else
        v ← get_handler fd;
        (match v with
         | MapH _ => on_map fd map_free
         | PerfH _ => clear_links (clear_rec fuel') (targets fd) (length (hm_handlers s)) 0
         | ProgH _ => clear_links (clear_rec fuel') (runs fd) (length (hm_handlers s)) 0
         | _ => mret tt
         end);;
        reset_slot fd
  end.
Definition clear_id_at fd : HM unit := clear_rec 2 fd.

Fixpoint clear_all_from (n i : nat) : HM unit :=
  match n with
  | O => mret tt
  | S n' =>
      allocated ← is_allocated (Z.of_nat i);
      (if allocated : bool then clear_id_at (Z.of_nat i) else mret tt);;
      clear_all_from n' (S i)
  end.
Definition clear_all : HM unit :=
  s ← get; clear_all_from (length (hm_handlers s)) 0.

(** ** Lookup and creation *)

Lemma in_table_spec fd s : in_table fd s = true <-> 0 <= fd < hm_size s.
Proof. unfold in_table. zify_bool. lia. Qed.

Lemma in_table_index fd s : in_table fd s = true -> exists v, hm_handlers s !! Z.to_nat fd = Some v.
Proof.
  rewrite in_table_spec. unfold hm_size. intros. apply lookup_lt_is_Some. lia.
Qed.

Lemma get_handler_run fd s v e :
  in_table fd s = true -> hm_handlers s !! Z.to_nat fd = Some v -> get_handler fd s e = Ok v s e.
Proof. intros Ht Hv. unfold get_handler. mbase. by rewrite Ht, Hv. Qed.

Lemma is_allocated_run fd s e :
  is_allocated fd s e =
  Ok (if in_table fd s then match hm_handlers s !! Z.to_nat fd with
                            | Some v => negb (is_unused v) | None => false end else false) s e.
Proof.
  unfold is_allocated. mbase. destruct (in_table fd s) eqn:Ht; [|done].
  destruct (in_table_index fd s Ht) as [v Hv]. rewrite (get_handler_run fd s v) by done. by rewrite Hv.
Qed.

Lemma find_unused_spec l i :
  0 <= i ->
  let r := find_unused_from l i in
  (r = -1 /\ Forall (fun v => is_unused v = false) l) \/
  (exists n v, r = i + Z.of_nat n /\ l !! n = Some v /\ is_unused v = true /\
    Forall (fun v => is_unused v = false) (take n l)).
Proof.
  cbv zeta. revert i. induction l as [|v l IH]; intros i Hi; simpl; [by left|].
  destruct (is_unused v) eqn:Hv.
  - right. exists O, v. split_and!; try done; simpl; lia.
  - destruct (IH (i + 1)) as [[-> Hf]|(n & v' & -> & Hl & Hv' & Hf)]; [lia|left; by auto|].
    right. exists (S n), v'. split_and!; try done; [lia|simpl; by constructor].
Qed.

Lemma set_handler_free fd s v e :
  in_table fd s = true -> hm_handlers s !! Z.to_nat fd = Some UnusedHandler ->
  match v with UnusedHandler | MapH _ => False | _ => True end ->
  set_handler fd v s e = Ok fd (hm_set_handlers (<[Z.to_nat fd := v]> (hm_handlers s)) s) e.
Proof.
  intros Ht Hu Hv. unfold set_handler. mbase. rewrite is_allocated_run, Ht, Hu. cbn [negb is_unused].
  destruct v; try done; cbn [is_unused]; by rewrite Ht.
Qed.

Lemma set_handler_refused fd s v e :
  in_table fd s = true -> 
  (match hm_handlers s !! Z.to_nat fd with Some w => is_unused w = false | None => False end ->
   set_handler fd v s e = Ok (- EEXIST) s e) /\
  (hm_handlers s !! Z.to_nat fd = Some UnusedHandler -> set_handler fd UnusedHandler s e = Ok (- ENOTSUP) s e).
Proof.
  intros Ht. unfold set_handler. mbase. rewrite !is_allocated_run, Ht. split.
  - destruct (hm_handlers s !! _); [|done]. by intros ->.
  - by intros ->.
Qed.

(** [set_handler_at_empty_slot]: with a free slot, a handler that is not a map
    goes into the lowest free one, whose number is returned, and no other slot
    changes; without one, -1 is returned and nothing changes. *)
Theorem empty_slot_lowest s v e :
  match v with UnusedHandler | MapH _ => False | _ => True end ->
  (Forall (fun w => is_unused w = false) (hm_handlers s) /\
   set_handler_at_empty_slot v s e = Ok (-1) s e) \/
  (exists n, hm_handlers s !! n = Some UnusedHandler /\
    (forall i w, (i < n)%nat -> hm_handlers s !! i = Some w -> is_unused w = false) /\
    set_handler_at_empty_slot v s e =
      Ok (Z.of_nat n) (hm_set_handlers (<[n := v]> (hm_handlers s)) s) e).
Proof.
  intros Hv. unfold set_handler_at_empty_slot, find_minimal_unused_idx. mbase.
  destruct (find_unused_spec (hm_handlers s) 0) as [[-> Hf]|(n & w & -> & Hl & Hw & Hf)]; [lia|by left|].
  right. exists n. assert (w = UnusedHandler) as -> by (by destruct w). split_and!; [done|..].
  - intros i w' Hi Hw'. eapply (Forall_lookup_1 _ _ i w' Hf). by rewrite lookup_take_lt.
  - rewrite (proj2 (Z.ltb_ge _ _)) by lia. rewrite Z.add_0_l.
    rewrite set_handler_free; rewrite ?Nat2Z.id; try done.
    apply in_table_spec. apply lookup_lt_Some in Hl. unfold hm_size. lia.
Qed.

(** ** Destruction *)

(** The links selected by [sel], gone. *)
Definition wipe (sel : bpf_link_handler -> bool) (l : list handler_variant) : list handler_variant :=
  (fun v => match v with LinkH x => if sel x then UnusedHandler else v | _ => v end) <$> l.

Definition dependents fd v (l : list handler_variant) : list handler_variant :=
  match v with
  | PerfH _ => wipe (targets fd) l
  | ProgH _ => wipe (runs fd) l
  | _ => l
  end.

Definition freed_events v (ev : sw_heap) : sw_heap :=
  match v with
  | PerfH p => match pe_data p with SoftwareData obj => delete obj ev | _ => ev end
  | _ => ev
  end.

Lemma reset_slot_run fd s v e :
  in_table fd s = true -> hm_handlers s !! Z.to_nat fd = Some v ->
  reset_slot fd s e =
  Ok tt (mk_manager (<[Z.to_nat fd := UnusedHandler]> (hm_handlers s)) (hm_mem s)
    (freed_events v (hm_events s)) (hm_next_event s)) e.
Proof.
  intros Ht Hv. unfold reset_slot. mbase. rewrite (get_handler_run fd s v) by done.
  unfold hm_store. mbase. destruct s, v as [| | | |p|]; simpl; try done. by destruct (pe_data p).
Qed.

Lemma clear_link fuel s i x e :
  hm_handlers s !! i = Some (LinkH x) ->
  clear_rec (S fuel) (Z.of_nat i) s e =
  Ok tt (hm_set_handlers (<[i := UnusedHandler]> (hm_handlers s)) s) e.
Proof.
  intros Hi. assert (in_table (Z.of_nat i) s = true) as Ht.
  { apply in_table_spec. apply lookup_lt_Some in Hi. unfold hm_size. lia. }
  cbn [clear_rec]. mbase. rewrite Ht. cbn [negb].
  rewrite (get_handler_run _ _ (LinkH x)) by (rewrite ?Nat2Z.id; done).
  rewrite (reset_slot_run _ _ (LinkH x)) by (rewrite ?Nat2Z.id; done).
  by rewrite Nat2Z.id.
Qed.

Lemma clear_links_run fuel sel pre suf s e :
  hm_handlers s = pre ++ suf ->
  clear_links (clear_rec (S fuel)) sel (length suf) (length pre) s e =
  Ok tt (hm_set_handlers (pre ++ wipe sel suf) s) e.
Proof.
  revert pre s. induction suf as [|v suf IH]; intros pre s Hs.
  { simpl. destruct s. simpl in *. by rewrite Hs. }
  assert (hm_handlers s !! length pre = Some v) as Hv by (rewrite Hs; by apply list_lookup_middle).
  assert (in_table (Z.of_nat (length pre)) s = true) as Ht.
  { apply in_table_spec. unfold hm_size. rewrite Hs, length_app. simpl. lia. }
  cbn [clear_links length]. mbase. rewrite (get_handler_run _ _ v) by (rewrite ?Nat2Z.id; done).
  assert (forall w s', hm_handlers s' = pre ++ w :: suf ->
    clear_links (clear_rec (S fuel)) sel (length suf) (S (length pre)) s' e =
    Ok tt (hm_set_handlers (pre ++ w :: wipe sel suf) s') e) as Hgo.
  { intros w s' Hs'. replace (S (length pre)) with (length (pre ++ [w])) by (rewrite length_app; simpl; lia).
    rewrite IH by (by rewrite <- app_assoc). by rewrite <- app_assoc. }
  destruct v as [| |x| | |]; try by rewrite (Hgo _ _ Hs).
  change (wipe sel (LinkH x :: suf)) with ((if sel x then UnusedHandler else LinkH x) :: wipe sel suf).
  destruct (sel x); [|by rewrite (Hgo _ _ Hs)].
  rewrite clear_link with (x := x) by done. rewrite Hgo with (w := UnusedHandler); [done|].
  simpl. rewrite Hs, insert_app_r_alt, Nat.sub_diag by lia. done.
Qed.

Lemma dependents_length fd v l : length (dependents fd v l) = length l.
Proof. destruct v; simpl; unfold wipe; by rewrite ?length_fmap. Qed.

(** Only links disappear besides the descriptor itself. *)
Lemma dependents_lookup fd v l i :
  dependents fd v l !! i = match l !! i with
    | Some (LinkH x) =>
        if match v with PerfH _ => targets fd x | ProgH _ => runs fd x | _ => false end
        then Some UnusedHandler else Some (LinkH x)
    | o => o
    end.
Proof.
  assert (forall sel, wipe sel l !! i = match l !! i with
    | Some (LinkH x) => if sel x then Some UnusedHandler else Some (LinkH x) | o => o end) as Hw.
  { intros sel. unfold wipe. rewrite list_lookup_fmap. destruct (l !! i) as [[]|]; simpl; try done.
    by destruct (sel _). }
  destruct v; simpl; try apply Hw; by destruct (l !! i) as [[]|].
Qed.

Lemma clear_non_map fd s v e :
  in_table fd s = true -> hm_handlers s !! Z.to_nat fd = Some v ->
  is_map v = false ->
  clear_id_at fd s e =
  Ok tt (mk_manager (<[Z.to_nat fd := UnusedHandler]> (dependents fd v (hm_handlers s))) (hm_mem s)
    (freed_events v (hm_events s)) (hm_next_event s)) e.
Proof.
  intros Ht Hv Hm. unfold clear_id_at. change 2%nat with (S 1). cbn [clear_rec]. mbase. rewrite Ht. cbn [negb].
  rewrite (get_handler_run fd s v) by done.
  assert (forall sel, clear_links (clear_rec 1) sel (length (hm_handlers s)) 0 s e =
    Ok tt (hm_set_handlers (wipe sel (hm_handlers s)) s) e) as Hcl.
  { intros sel. by apply (clear_links_run 0 sel [] (hm_handlers s)). }
  assert (forall l, l = dependents fd v (hm_handlers s) ->
    reset_slot fd (hm_set_handlers l s) e =
    Ok tt (mk_manager (<[Z.to_nat fd := UnusedHandler]> l) (hm_mem s)
      (freed_events v (hm_events s)) (hm_next_event s)) e) as Hr.
  { intros l ->. apply (reset_slot_run fd (hm_set_handlers _ s) v).
    - apply in_table_spec in Ht. apply in_table_spec. unfold hm_size in *. simpl.
      by rewrite dependents_length.
    - simpl. rewrite dependents_lookup, Hv. destruct v; done. }
  destruct v as [|h|x|p|p|x]; try done; simpl in *; rewrite ?Hcl; rewrite <- Hr by done; try done;
    by destruct s.
Qed.

(** Closing a descriptor that is not a map, in the table: it becomes unused,
    and with it exactly the links to it (those attached to a perf event, those
    running a program) — no other descriptor, map or memory object changes, and
    a software event frees its buffer. The recursion never goes deeper than one
    call. *)
Theorem close_cascades fd s v e :
  hm_handlers s !! Z.to_nat fd = Some v -> 0 <= fd ->
  is_map v = false ->
  exists s', clear_id_at fd s e = Ok tt s' e /\
    hm_mem s' = hm_mem s /\ hm_events s' = freed_events v (hm_events s) /\
    forall i, hm_handlers s' !! i =
      if decide (Z.of_nat i = fd) then Some UnusedHandler
      else match hm_handlers s !! i with
           | Some (LinkH x) =>
               if match v with PerfH _ => targets fd x | ProgH _ => runs fd x | _ => false end
               then Some UnusedHandler else Some (LinkH x)
           | o => o
           end.
Proof.
  intros Hv Hfd Hm. pose proof (lookup_lt_Some _ _ _ Hv) as Hlt.
  eexists. split; [apply (clear_non_map fd s v); [|done..]|].
  { apply in_table_spec. unfold hm_size. lia. }
  split_and!; [done|done|]. intros i. simpl. case_decide as Hi.
  - replace (Z.to_nat fd) with i by lia. apply list_lookup_insert_eq. rewrite dependents_length. lia.
  - rewrite list_lookup_insert_ne by lia. apply dependents_lookup.
Qed.

(** A link names a program and a perf event that exist. *)
Definition link_ok (l : list handler_variant) (x : bpf_link_handler) : Prop :=
  0 <= lh_prog_id x /\ 0 <= lh_attach_target_id x /\
  (exists p, l !! Z.to_nat (lh_prog_id x) = Some (ProgH p)) /\
  (exists p, l !! Z.to_nat (lh_attach_target_id x) = Some (PerfH p)).
Definition links_ok (l : list handler_variant) : Prop :=
  forall i x, l !! i = Some (LinkH x) -> link_ok l x.

Lemma links_ok_set l i v :
  links_ok l -> l !! i = Some UnusedHandler ->
  match v with LinkH x => link_ok l x | _ => True end -> links_ok (<[i := v]> l).
Proof.
  intros Hok Hi Hv j x Hj.
  assert (forall k w, w <> UnusedHandler -> l !! k = Some w -> <[i := v]> l !! k = Some w) as Hkeep.
  { intros k w Hw Hk. rewrite list_lookup_insert_ne; [done|]. intros ->. congruence. }
  assert (link_ok l x) as (? & ? & [p1 H1] & [p2 H2]).
  { destruct (decide (j = i)) as [->|]; [|rewrite list_lookup_insert_ne in Hj by done; eauto].
    rewrite list_lookup_insert_eq in Hj by (by eapply lookup_lt_Some). by injection Hj as ->. }
  split_and!; try done; eexists; by apply Hkeep.
Qed.

Lemma links_ok_dependents fd l v :
  0 <= fd -> l !! Z.to_nat fd = Some v -> links_ok l ->
  links_ok (<[Z.to_nat fd := UnusedHandler]> (dependents fd v l)).
Proof.
  intros Hfd Hv Hok i x Hi.
  assert (i <> Z.to_nat fd) as Hne.
  { intros ->. rewrite list_lookup_insert_eq in Hi; [done|]. rewrite dependents_length. by eapply lookup_lt_Some. }
  rewrite list_lookup_insert_ne, dependents_lookup in Hi by done.
  destruct (l !! i) as [w|] eqn:Hl; [|done]. destruct w as [| |x'| | |]; try done.
  destruct (match v with PerfH _ => _ | _ => _ end) eqn:Hsel; [done|]. injection Hi as ->.
  destruct (Hok i x Hl) as (Hp0 & Ht0 & [p1 Hp] & [p2 Ht]). split_and!; try done.
  - exists p1. rewrite list_lookup_insert_ne, dependents_lookup, Hp; [done|].
    intros Heq. assert (fd = lh_prog_id x) as -> by lia. rewrite Hp in Hv. injection Hv as <-.
    unfold runs in Hsel. by rewrite Z.eqb_refl in Hsel.
  - exists p2. rewrite list_lookup_insert_ne, dependents_lookup, Ht; [done|].
    intros Heq. assert (fd = lh_attach_target_id x) as -> by lia. rewrite Ht in Hv. injection Hv as <-.
    unfold targets in Hsel. by rewrite Z.eqb_refl in Hsel.
Qed.

(** Closing a map: [map_free], then the slot. *)
Lemma clear_map fd s h e m' :
  in_table fd s = true -> hm_handlers s !! Z.to_nat fd = Some (MapH h) ->
  map_free (h, hm_mem s) e = Ok tt (mh_set_ptr None h, m') e ->
  clear_id_at fd s e =
  Ok tt (mk_manager (<[Z.to_nat fd := UnusedHandler]> (hm_handlers s)) m' (hm_events s)
    (hm_next_event s)) e.
Proof.
  intros Ht Hv Hf. unfold clear_id_at. change 2%nat with (S 1). cbn [clear_rec]. mbase. rewrite Ht. cbn [negb].
  rewrite (get_handler_run fd s (MapH h)) by done. unfold on_map. rewrite Hv, Hf. cbv zeta. cbn [fst snd].
  rewrite (reset_slot_run fd _ (MapH (mh_set_ptr None h))).
  - simpl. by rewrite list_insert_insert_eq.
  - apply in_table_spec in Ht. apply in_table_spec. unfold hm_size in *. simpl. by rewrite length_insert.
  - simpl. apply list_lookup_insert_eq. by eapply lookup_lt_Some.
Qed.

(** No dangling links: when every link names an existing program and an
    existing perf event, closing any descriptor, in the table or not, keeps it so
    whenever the call returns. *)
Theorem close_keeps_links fd s s' e e' :
  links_ok (hm_handlers s) -> clear_id_at fd s e = Ok tt s' e' -> links_ok (hm_handlers s').
Proof.
  intros Hok Hc. destruct (in_table fd s) eqn:Ht.
  2: { revert Hc. unfold clear_id_at. change 2%nat with (S 1). cbn [clear_rec]. mbase. rewrite Ht.
       cbn [negb]. by intros [= <- _]. }
  destruct (in_table_index fd s Ht) as [v Hv]. apply in_table_spec in Ht as Ht'.
  destruct (is_map v) eqn:Hm; swap 1 2.
  - rewrite (clear_non_map fd s v) in Hc by done. injection Hc as <- _. simpl.
    apply links_ok_dependents; [lia|done|done].
  - destruct v as [|h| | | |]; try done. clear Hm.
    revert Hc. unfold clear_id_at. change 2%nat with (S 1). cbn [clear_rec]. mbase. rewrite Ht. cbn [negb].
    rewrite (get_handler_run fd s (MapH h)) by done. unfold on_map. rewrite Hv.
    destruct (map_free (h, hm_mem s) e) as [? [h' m'] e1| |]; [|done..]. cbv zeta. cbn [fst snd].
    rewrite (reset_slot_run fd _ (MapH h')).
    + intros [= <- _]. simpl. rewrite list_insert_insert_eq.
      apply (links_ok_dependents fd (hm_handlers s) (MapH h)); [lia|done|done].
    + apply in_table_spec. unfold hm_size in *. simpl. by rewrite length_insert.
    + simpl. apply list_lookup_insert_eq. by eapply lookup_lt_Some.
Qed.

(** ** The invariant *)

Record manager_wf s : Prop := {
  manager_wf_mem : shm_wf (hm_mem s);
  manager_wf_maps : forall i h, hm_handlers s !! i = Some (MapH h) ->
    mh_lock h = false /\ freeable h (hm_mem s);
  manager_wf_names : forall i j h1 h2, hm_handlers s !! i = Some (MapH h1) ->
    hm_handlers s !! j = Some (MapH h2) -> get_container_name h1 = get_container_name h2 -> i = j;
  manager_wf_ops : sm_ops (hm_mem s) !! 12 = None
}.

Lemma freeable_other h h2 (m m' : shm K) :
  sm_ops m' = sm_ops m ->
  (forall n, sm_index m !! n = None -> sm_index m' !! n = None) ->
  (forall h2, get_container_name h2 <> get_container_name h -> live h2 m -> live h2 m') ->
  get_container_name h2 <> get_container_name h -> freeable h2 m -> freeable h2 m'.
Proof. intros Ho Hn Hl Hne (? & [?|[??]] & ?). all: split_and!; [done|auto|congruence]. Qed.

(** Slots that lose handlers keep the invariant, and so does freeing a map. *)
Lemma manager_wf_shrink s l' m' ev nx :
  manager_wf s -> shm_wf m' -> sm_ops m' = sm_ops (hm_mem s) ->
  (forall i h, l' !! i = Some (MapH h) -> hm_handlers s !! i = Some (MapH h) /\ freeable h m') ->
  manager_wf (mk_manager l' m' ev nx).
Proof.
  intros Hwf Hm Hops Hl. constructor; simpl.
  - done.
  - intros i h Hi. destruct (Hl i h Hi) as [Hi' Hf]. split; [|done]. by eapply (manager_wf_maps s Hwf).
  - intros i j h1 h2 Hi Hj. apply Hl in Hi as [Hi _], Hj as [Hj _]. by eapply (manager_wf_names s Hwf).
  - rewrite Hops. apply Hwf.
Qed.

Lemma clear_wf fd s e :
  manager_wf s -> in_table fd s = true ->
  exists s', clear_id_at fd s e = Ok tt s' e /\ manager_wf s' /\
    length (hm_handlers s') = length (hm_handlers s) /\
    hm_handlers s' !! Z.to_nat fd = Some UnusedHandler /\
    forall i, hm_handlers s !! i = Some UnusedHandler -> hm_handlers s' !! i = Some UnusedHandler.
Proof.
  intros Hwf Ht. destruct (in_table_index fd s Ht) as [v Hv]. pose proof (lookup_lt_Some _ _ _ Hv) as Hlt.
  destruct (is_map v) eqn:Hm; swap 1 2.
  - eexists. split; [by apply (clear_non_map fd s v)|]. simpl. split_and!.
    + apply (manager_wf_shrink s); try done; [apply Hwf|]. intros i h Hi.
      assert (hm_handlers s !! i = Some (MapH h)) as Hi'; [|by split; [|eapply (manager_wf_maps s Hwf)]].
      destruct (decide (i = Z.to_nat fd)) as [->|].
      { rewrite list_lookup_insert_eq in Hi; [done|]. by rewrite dependents_length. }
      rewrite list_lookup_insert_ne, dependents_lookup in Hi by done.
      destruct (hm_handlers s !! i) as [[]|]; try done. by destruct (match v with PerfH _ => _ | _ => _ end).
    + by rewrite length_insert, dependents_length.
    + apply list_lookup_insert_eq. by rewrite dependents_length.
    + intros i Hi. destruct (decide (i = Z.to_nat fd)) as [->|].
      * apply list_lookup_insert_eq. by rewrite dependents_length.
      * by rewrite list_lookup_insert_ne, dependents_lookup, Hi.
  - destruct v as [|h| | | |]; try done. clear Hm.
    destruct (map_free_run h (hm_mem s) e) as (m' & Hf & Hwf' & Hops & Hn & Hl);
      [apply Hwf|by eapply (manager_wf_maps s Hwf)|].
    eexists. split; [by apply (clear_map fd s h)|]. simpl. split_and!.
    + apply (manager_wf_shrink s); try done. intros i h2 Hi.
      destruct (decide (i = Z.to_nat fd)) as [->|Hne].
      { by rewrite list_lookup_insert_eq in Hi. }
      rewrite list_lookup_insert_ne in Hi by done. split; [done|].
      apply (freeable_other h h2 (hm_mem s)); try done; [|by eapply (manager_wf_maps s Hwf)].
      intros Heq. by apply Hne, (manager_wf_names s Hwf i (Z.to_nat fd) h2 h).
    + apply length_insert.
    + by apply list_lookup_insert_eq.
    + intros i Hi. rewrite list_lookup_insert_ne; [done|]. intros <-. congruence.
Qed.

Lemma clear_all_run n i s e :
  manager_wf s -> (i + n = length (hm_handlers s))%nat ->
  (forall j, (j < i)%nat -> hm_handlers s !! j = Some UnusedHandler) ->
  exists s', clear_all_from n i s e = Ok tt s' e /\ manager_wf s' /\
    length (hm_handlers s') = length (hm_handlers s) /\
    forall j, (j < length (hm_handlers s))%nat -> hm_handlers s' !! j = Some UnusedHandler.
Proof.
  revert i s. induction n as [|n IH]; intros i s Hwf Hlen Hlow.
  { exists s. split_and!; [done..|]. intros j Hj. apply Hlow. lia. }
  assert (in_table (Z.of_nat i) s = true) as Ht by (apply in_table_spec; unfold hm_size; lia).
  destruct (in_table_index _ _ Ht) as [v Hv].
  cbn [clear_all_from]. mbase. rewrite is_allocated_run, Ht, Hv. rewrite Nat2Z.id in Hv.
  assert (forall j s', (forall j, hm_handlers s !! j = Some UnusedHandler -> hm_handlers s' !! j = Some UnusedHandler) ->
    hm_handlers s' !! i = Some UnusedHandler -> (j < S i)%nat -> hm_handlers s' !! j = Some UnusedHandler) as Hstep.
  { intros j s' Hk Hi Hj. destruct (decide (j = i)) as [->|]; [done|]. apply Hk, Hlow. lia. }
  destruct (is_unused v) eqn:Hu; cbn [negb].
  - apply IH; [done|lia|]. intros j. apply (Hstep j s); [done|]. by destruct v.
  - destruct (clear_wf (Z.of_nat i) s e Hwf Ht) as (s1 & -> & Hwf1 & Hl1 & Hi1 & Hk1).
    rewrite Nat2Z.id in Hi1.
    destruct (IH (S i) s1 Hwf1) as (s2 & Hrun & Hwf2 & Hl2 & Hall); [lia|intros j; by apply Hstep|].
    exists s2. split_and!; [done|done|congruence|]. intros j Hj. apply Hall. lia.
Qed.

(** C21. Shutting down: from a well-formed state (map names distinct, every map live
    or never initialised), [clear_all] always returns, leaves every slot unused
    and the memory well formed. *)
Theorem clear_all_empties s e :
  manager_wf s ->
  exists s', clear_all s e = Ok tt s' e /\ manager_wf s' /\
    Forall (fun v => v = UnusedHandler) (hm_handlers s').
Proof.
  intros Hwf. unfold clear_all. mbase.
  destruct (clear_all_run (length (hm_handlers s)) 0 s e Hwf) as (s' & Hrun & Hwf' & Hlen & Hall); [done|lia|].
  exists s'. split_and!; [done|done|]. apply Forall_lookup. intros i v Hi.
  rewrite Hall in Hi; [by injection Hi|]. apply lookup_lt_Some in Hi. lia.
Qed.

(** C39. [set_handler] on every branch, for a handler that is not a map: an occupied
    descriptor gives -EEXIST, an unused handler -ENOTSUP, a free one inside the
    table is filled and returned, nothing else changing; a descriptor outside the
    table (also -1, which a failed [open] yields) passes the check and is written
    through unchecked, which is undefined. *)
Theorem set_handler_branches fd v s e :
  is_map v = false ->
  set_handler fd v s e =
  if in_table fd s then
    match hm_handlers s !! Z.to_nat fd with
    | Some UnusedHandler =>
        if is_unused v then Ok (- ENOTSUP) s e
        else Ok fd (hm_set_handlers (<[Z.to_nat fd := v]> (hm_handlers s)) s) e
    | _ => Ok (- EEXIST) s e
    end
  else if is_unused v then Ok (- ENOTSUP) s e else Ub "index outside handlers".
Proof.
  intros Hm. destruct (in_table fd s) eqn:Ht.
  - destruct (in_table_index fd s Ht) as [w Hw]. rewrite Hw.
    destruct (set_handler_refused fd s v e Ht) as [Hr1 Hr2]. rewrite Hw in Hr1.
    destruct w; try (by apply Hr1). destruct (is_unused v) eqn:Hu.
    + destruct v; try done. by apply Hr2.
    + apply set_handler_free; [done|done|]. by destruct v.
  - unfold set_handler. mbase. rewrite is_allocated_run, Ht. cbn [negb].
    destruct (is_unused v); [done|]. by rewrite Ht.
Qed.

Lemma set_map_run fd s h e :
  in_table fd s = true -> hm_handlers s !! Z.to_nat fd = Some UnusedHandler ->
  set_handler fd (MapH h) s e =
  let back (x : bpf_map_handler * shm K) :=
    mk_manager (<[Z.to_nat fd := MapH x.1]> (hm_handlers s)) x.2 (hm_events s) (hm_next_event s) in
  match map_init (h, hm_mem s) e with
  | Ok _ x e' => Ok fd (back x) e'
  | Throw w x e' => Throw w (back x) e'
  | Ub w => Ub w
  end.
Proof.
  intros Ht Hu. unfold set_handler. mbase. rewrite is_allocated_run, Ht, Hu. cbn [negb is_unused].
  rewrite Ht. unfold hm_store, on_map. mbase. simpl.
  rewrite list_lookup_insert_eq by (by eapply lookup_lt_Some).
  destruct (map_init (h, hm_mem s) e); simpl; by rewrite ?list_insert_insert_eq.
Qed.

(** Creating a map in a free slot of a well-formed state, under a name nobody
    uses: the descriptor is returned, the map at it is live with a free lock, no
    other slot changes, and the state is well formed. *)
Theorem set_map_spec fd s h e :
  manager_wf s -> in_table fd s = true -> hm_handlers s !! Z.to_nat fd = Some UnusedHandler ->
  0 <= mh_max_entries h < 2 ^ 32 -> user_type (map_type h) -> mh_lock h = false ->
  ~ init_refused h -> bad_sizes h = false -> sm_index (hm_mem s) !! get_container_name h = None ->
  (forall i h2, hm_handlers s !! i = Some (MapH h2) -> get_container_name h2 <> get_container_name h) ->
  exists h' m', set_handler fd (MapH h) s e =
    Ok fd (mk_manager (<[Z.to_nat fd := MapH h']> (hm_handlers s)) m' (hm_events s) (hm_next_event s)) e /\
    live h' m' /\ mh_lock h' = false /\
    manager_wf (mk_manager (<[Z.to_nat fd := MapH h']> (hm_handlers s)) m' (hm_events s) (hm_next_event s)).
Proof.
  intros Hwf Ht Hu Hmax Hloc Hlk Hr Hb Hn Hnames.
  destruct (init_ok h (hm_mem s) e Hmax (proj1 Hloc) Hr Hb Hn) as (o & ring & Ho & Hq & Hrun).
  set (h' := mh_set_ptr (Some (new_object (hm_mem s) ring)) h).
  set (m' := grown (hm_mem s) (get_container_name h) o ring).
  assert (live h' m') as Hlive by (by apply grown_live_new).
  exists h', m'. split_and!; [|done|done|].
  { rewrite set_map_run by done. rewrite Hrun. done. }
  assert (forall i x, <[Z.to_nat fd := MapH h']> (hm_handlers s) !! i = Some (MapH x) ->
    (i = Z.to_nat fd /\ x = h') \/ (i <> Z.to_nat fd /\ hm_handlers s !! i = Some (MapH x))) as Hcase.
  { intros i x. rewrite list_lookup_insert_Some. intros [(-> & [= ->] & _)|[? ?]]; auto. }
  constructor; simpl.
  - eapply grown_wf; eauto using manager_wf_mem.
  - intros i x [[-> ->]|[Hi Hx]]%Hcase.
    + split; [done|]. split_and!; [done|by left|]. apply Hwf.
    + destruct (manager_wf_maps s Hwf i x Hx) as [Hlx (Hlocx & Hfx & Hopx)]. split; [done|]. split_and!; [done| |done].
      destruct Hfx as [Hfx|[Hp Hi2]]; [left; by apply grown_live; eauto using manager_wf_mem|right].
      split; [done|]. simpl. rewrite lookup_insert_ne; [done|]. intros Heq. by eapply Hnames.
  - intros i j x y [[-> ->]|[Hi Hx]]%Hcase [[-> ->]|[Hj Hy]]%Hcase Heq; try done.
    + by destruct (Hnames _ _ Hy).
    + by destruct (Hnames _ _ Hx).
    + by eapply (manager_wf_names s Hwf).
  - apply Hwf.
Qed.

(** A failed [map_init] goes unnoticed: for a ring buffer whose size is not a
    power of two, [set_handler] still returns the descriptor, and the map it
    leaves there has no implementation, so that the next call on it is
    undefined. *)
Theorem failed_init_ignored fd s h e :
  in_table fd s = true -> hm_handlers s !! Z.to_nat fd = Some UnusedHandler ->
  0 <= mh_max_entries h < 2 ^ 32 -> init_refused h -> mh_impl_ptr h = None ->
  exists s', set_handler fd (MapH h) s e = Ok fd s' e /\
    forall key us e', exists w, on_map fd (map_lookup_elem key us) s' e' = Ub w.
Proof.
  intros Ht Hu Hmax Hr Hnull.
  eexists. split; [rewrite set_map_run by done; by rewrite init_refused_run|].
  intros key us e'. unfold on_map. simpl. rewrite list_lookup_insert_eq by (by eapply lookup_lt_Some).
  unfold map_lookup_elem, switch_impl. mbase. cbn [fst]. destruct Hr as [Hty _]. rewrite Hty.
  unfold do_call. mbase. cbn [fst]. rewrite Hnull. by eexists.
Qed.

End manager.

(** ** Witnesses: an array map, a program and a perf event joined by a link, and a
    free slot *)

Definition small_prog : bpf_prog_handler := prog_handler_new [149] "p" 2.
Definition small_manager : manager (list bytes) :=
  mk_manager [MapH (mh_set_ptr (Some O) (small_handler 2)); ProgH small_prog;
    PerfH (perf_event_tracepoint 1 2); LinkH (link_with_cookie 1 2 None); UnusedHandler]
    with_array ∅ 0.
Definition free_manager : manager (list bytes) := manager_new 2 empty_shm.

Lemma small_manager_wf : manager_wf small_manager.
Proof.
  assert (freeable (mh_set_ptr (Some O) (small_handler 2)) with_array) as Hf.
  { split; [done|]. split; [left; by apply (one_object_live (IArray (array_map_new 4 2)) 2)|done]. }
  constructor.
  - by apply (one_object_wf (IArray (array_map_new 4 2))).
  - intros i h Hi. destruct i as [|[|[|[|[|i]]]]]; simpl in Hi; simplify_eq. done.
  - intros i j h1 h2 Hi Hj _.
    destruct i as [|[|[|[|[|i]]]]], j as [|[|[|[|[|j]]]]]; simpl in Hi, Hj; simplify_eq; done.
  - done.
Qed.

Lemma free_manager_wf : manager_wf free_manager.
Proof.
  constructor; [apply empty_shm_wf| | |done].
  - intros i h Hi. destruct i as [|[|i]]; simpl in Hi; simplify_eq.
  - intros i j h1 h2 Hi. destruct i as [|[|i]]; simpl in Hi; simplify_eq.
Qed.

Lemma small_links : links_ok (hm_handlers small_manager).
Proof.
  intros i x Hi. destruct i as [|[|[|[|[|i]]]]]; simpl in Hi; simplify_eq.
  split_and!; try (simpl; lia); by eexists.
Qed.

Lemma empty_slot_lowest_witness :
  (Forall (fun w => is_unused w = false) (hm_handlers small_manager) /\
   @set_handler_at_empty_slot _ toy_runtime (EpollH epoll_handler_new) small_manager 0 =
     Ok (-1) small_manager 0) \/
  (exists n, hm_handlers small_manager !! n = Some UnusedHandler /\
    (forall i w, (i < n)%nat -> hm_handlers small_manager !! i = Some w -> is_unused w = false) /\
    @set_handler_at_empty_slot _ toy_runtime (EpollH epoll_handler_new) small_manager 0 =
      Ok (Z.of_nat n) (hm_set_handlers (<[n := EpollH epoll_handler_new]> (hm_handlers small_manager))
        small_manager) 0).
Proof. exact (@empty_slot_lowest _ toy_runtime small_manager (EpollH epoll_handler_new) 0 I). Defined.

Lemma close_cascades_witness :
  exists s', @clear_id_at _ toy_runtime 1 small_manager 0 = Ok tt s' 0 /\
    hm_handlers s' !! 3%nat = Some UnusedHandler.
Proof.
  destruct (@close_cascades _ toy_runtime 1 small_manager (ProgH small_prog) 0 eq_refl ltac:(lia) eq_refl)
    as (s' & Hrun & _ & _ & Hl).
  exists s'. split; [exact Hrun|]. rewrite (Hl 3%nat). reflexivity.
Defined.

Definition after_close : manager (list bytes) :=
  match @clear_id_at _ toy_runtime 0 small_manager 0 with Ok _ s _ => s | _ => small_manager end.

Lemma close_keeps_links_witness : links_ok (hm_handlers after_close).
Proof.
  refine (@close_keeps_links _ toy_runtime 0 small_manager after_close 0 0 small_links _).
  vm_compute. reflexivity.
Defined.

Lemma clear_all_empties_witness :
  exists s', @clear_all _ toy_runtime small_manager 0 = Ok tt s' 0 /\ manager_wf s' /\
    Forall (fun v => v = UnusedHandler) (hm_handlers s').
Proof. exact (@clear_all_empties _ toy_runtime small_manager 0 small_manager_wf). Defined.

Lemma set_handler_branches_witness :
  @set_handler _ toy_runtime (-1) (EpollH epoll_handler_new) small_manager 0 = Ub "index outside handlers".
Proof.
  exact (@set_handler_branches _ toy_runtime (-1) (EpollH epoll_handler_new) small_manager 0 eq_refl).
Defined.

Lemma set_map_spec_witness :
  exists h' m', @set_handler _ toy_runtime 1 (MapH (small_handler 27)) free_manager 0 =
    Ok 1 (mk_manager (<[1%nat := MapH h']> (hm_handlers free_manager)) m' ∅ 0) 0 /\
    live h' m' /\ mh_lock h' = false /\
    manager_wf (mk_manager (<[1%nat := MapH h']> (hm_handlers free_manager)) m' ∅ 0).
Proof.
  refine (@set_map_spec _ toy_runtime 1 free_manager (small_handler 27) 0 free_manager_wf
    eq_refl eq_refl _ _ eq_refl _ eq_refl eq_refl _).
  - simpl. lia.
  - done.
  - intros [_ Hn]. apply Hn. exists 1. split; [lia|reflexivity].
  - intros i h2 Hi. destruct i as [|[|i]]; simpl in Hi; discriminate.
Defined.

Definition odd_ring : bpf_map_handler := map_handler_new 3 "m" (small_attr 27 0 0 3).

Lemma failed_init_ignored_witness :
  exists s', @set_handler _ toy_runtime 1 (MapH odd_ring) free_manager 0 = Ok 1 s' 0 /\
    forall key us e', exists w, @on_map (list bytes) vptr 1 (@map_lookup_elem _ toy_runtime key us) s' e' = Ub w.
Proof.
  refine (@failed_init_ignored _ toy_runtime 1 free_manager odd_ring 0 eq_refl eq_refl _ _ eq_refl).
  - simpl. lia.
  - split; [reflexivity|]. rewrite <- popcnt_pow2; [discriminate|simpl; lia].
Defined.
