(* ===== verification/Shm.v ===== *)
(** [bpftime_shm] (bpftime_shm_internal.{hpp,cpp}) and the C interface over it
    (bpftime_shm.cpp): what the syscall server and the helpers of a program call,
    by descriptor, on the global shared memory. *)
From Stdlib Require Import ZArith Lia.
From stdpp Require Import base list gmap strings.
From S2P Require Import Prelude MapCommon ArrayMap Ringbuf KernelUser MapHandler PerfEvent.
From S2P Require Import HandlerManager.
Local Open Scope Z_scope.

(** [open("/dev/null", O_RDONLY)] and [dup] of the operating system. *)
Class Os (K : Type) := {
  os_open_null : M K Z;
  os_dup : Z -> M K Z
}.

(** [sh_null] is [manager == nullptr]: no shared memory was created or found. *)
Record bpftime_shm (K : Type) := mk_bshm {
  sh_null : bool;
  sh_manager : manager K;
  sh_syscall_pids : gset Z;
  sh_alive_pids : gset Z
}.
Arguments mk_bshm {K}.
Arguments sh_null {K}.
Arguments sh_manager {K}.
Arguments sh_syscall_pids {K}.
Arguments sh_alive_pids {K}.

Section shm.
Context {K : Type} `{Runtime K, !Os K}.
Implicit Types (s : bpftime_shm K) (fd : Z).

Abbreviation SH := (M (bpftime_shm K)).

Definition sh_set_manager (g : manager K) s : bpftime_shm K :=
  mk_bshm (sh_null s) g (sh_syscall_pids s) (sh_alive_pids s).

(** [manager->..]: the pointer must not be null. *)
Definition in_manager {A} (c : M (manager K) A) : SH A := fun s e =>
  if sh_null s then Ub "null manager" else zoom sh_manager sh_set_manager c s e.

(** The operating system, whether or not there is a manager. *)
Definition in_os {A} (c : M K A) : SH A :=
  zoom (fun s => sm_world (hm_mem (sh_manager s)))
    (fun k s => sh_set_manager (hm_set_mem (sm_set_world k (hm_mem (sh_manager s))) (sh_manager s)) s) c.

(** ** Pid sets *)

Definition check_syscall_trace_setup (pid : Z) : SH bool :=
  gets (fun s => bool_decide (pid ∈ sh_syscall_pids s)).

Definition set_syscall_trace_setup (pid : Z) (whether : bool) : SH unit :=
  modify (fun s => mk_bshm (sh_null s) (sh_manager s)
    (if whether then {[pid]} ∪ sh_syscall_pids s else sh_syscall_pids s ∖ {[pid]}) (sh_alive_pids s)).

Definition add_pid_into_alive_agent_set (pid : Z) : SH unit :=
  modify (fun s => mk_bshm (sh_null s) (sh_manager s) (sh_syscall_pids s) ({[pid]} ∪ sh_alive_pids s)).
Definition remove_pid_from_alive_agent_set (pid : Z) : SH unit :=
  modify (fun s => mk_bshm (sh_null s) (sh_manager s) (sh_syscall_pids s) (sh_alive_pids s ∖ {[pid]})).

(** ** Predicates on descriptors *)

(** The handler at [fd] when the manager exists and [fd] is in its table. *)
Definition handler_at fd s : option handler_variant :=
  if sh_null s || negb (in_table fd (sh_manager s)) then None
  else hm_handlers (sh_manager s) !! Z.to_nat fd.

Definition map_at fd s : option bpf_map_handler :=
  match handler_at fd s with Some (MapH h) => Some h | _ => None end.

Definition is_epoll_fd fd s : bool := match handler_at fd s with Some (EpollH _) => true | _ => false end.
Definition is_map_fd fd s : bool := match handler_at fd s with Some (MapH _) => true | _ => false end.
Definition is_prog_fd fd s : bool := match handler_at fd s with Some (ProgH _) => true | _ => false end.
Definition is_perf_fd fd s : bool := match handler_at fd s with Some (PerfH _) => true | _ => false end.
Definition is_exist_fake_fd fd s : bool :=
  match handler_at fd s with Some v => negb (is_unused v) | None => false end.

Definition is_map_of_type (t : bpf_map_type) fd s : bool :=
  match map_at fd s with Some h => bool_decide (map_type h = t) | None => false end.
Definition is_ringbuf_map_fd := is_map_of_type BPF_MAP_TYPE_RINGBUF.
Definition is_shared_perf_event_array_map_fd := is_map_of_type BPF_MAP_TYPE_KERNEL_USER_PERF_EVENT_ARRAY.
Definition is_array_map_fd := is_map_of_type BPF_MAP_TYPE_ARRAY.
Definition is_prog_array_map_fd := is_map_of_type BPF_MAP_TYPE_PROG_ARRAY.

Definition is_software_perf_event_handler_fd fd s : bool :=
  match handler_at fd s with Some (PerfH p) => pe_type p =? PERF_TYPE_SOFTWARE | _ => false end.

(** ** Maps by descriptor *)

(** [if (!is_map_fd(fd)) { errno = ENOENT; return none; }], then a call on the
    handler. *)
Definition with_map {A} fd (none : A) (c : M (bpf_map_handler * shm K) A) : SH A :=
  s ← get;
  if is_map_fd fd s then in_manager (on_map fd c) else fail_with ENOENT none.

Definition bpf_map_value_size fd : SH Z :=
  with_map fd 0 (gets (fun x => get_value_size x.1)).
Definition shm_map_lookup_elem fd (key : ptr) (from_syscall : bool) : SH vptr :=
  with_map fd VNull (map_lookup_elem key from_syscall).
Definition shm_map_update_elem fd (key value : ptr) (flags : Z) (from_syscall : bool) : SH Z :=
  with_map fd (-1) (map_update_elem key value flags from_syscall).
Definition shm_delete_elem fd (key : ptr) (from_syscall : bool) : SH Z :=
  with_map fd (-1) (map_delete_elem key from_syscall).
Definition shm_map_get_next_key fd (key : ptr) (next_key from_syscall : bool) : SH (Z * option bytes) :=
  with_map fd (-1, None) (handler_get_next_key key next_key from_syscall).

(** ** Descriptors *)

(** [while (fd <= 2 && fd >= 0 && --cnt > 0) fd = dup(fd);] after the decrement. *)
Fixpoint dup_loop (cnt : nat) fd : SH Z :=
  match cnt with
  | O => mret fd
  | S cnt' =>
      if (fd <=? 2) && (0 <=? fd) then fd' ← in_os (os_dup fd); dup_loop cnt' fd' else mret fd
  end.

Definition open_fake_fd : SH Z :=
  fd ← in_os os_open_null;
  dup_loop 4 fd.

(** [if (fd < 0) fd = open_fake_fd();] *)
Definition fd_or_fake fd : SH Z := if fd <? 0 then open_fake_fd else mret fd.

Definition install fd (v : handler_variant) : SH Z := in_manager (set_handler fd v).

Definition add_kprobe (fd : option Z) (func_name : string) (addr : Z) (retprobe : bool) (ref_ctr_off : Z)
    : SH Z :=
  new_fd ← match fd with Some fd => mret fd | None => open_fake_fd end;
  install new_fd (PerfH (perf_event_kprobe retprobe addr func_name ref_ctr_off)).

Definition add_uprobe fd (pid : Z) (name : string) (offset : Z) (retprobe : bool) (ref_ctr_off : Z) : SH Z :=
  fd ← fd_or_fake fd;
  install fd (PerfH (perf_event_uprobe retprobe offset pid name ref_ctr_off)).

Definition add_uprobe_override fd (pid : Z) (name : string) (offset : Z) (is_replace : bool) : SH Z :=
  fd ← fd_or_fake fd;
  install fd (PerfH (perf_event_replace
    (if is_replace then BPF_TYPE_UREPLACE else BPF_TYPE_UPROBE_OVERRIDE) offset pid name true)).

Definition add_tracepoint fd (pid tracepoint_id : Z) : SH Z :=
  fd ← fd_or_fake fd;
  install fd (PerfH (perf_event_tracepoint pid tracepoint_id)).

(** A software event object, owned by the handler that is about to be installed;
    it dies with the handler when the table refuses it. *)
Definition new_sw_event (d : software_perf_event_data) : SH nat :=
  in_manager (g ← get;
    let obj := hm_next_event g in
    put (mk_manager (hm_handlers g) (hm_mem g) (<[obj := d]> (hm_events g)) (S obj));;
    mret obj).
Definition drop_sw_event (obj : nat) : SH unit :=
  in_manager (modify (fun g => hm_set_events (delete obj (hm_events g)) g)).

Definition add_software_perf_event_at fd (cpu sample_type config : Z) : SH Z :=
  obj ← new_sw_event (sw_event_new kernel_page_size cpu config sample_type);
  r ← install fd (PerfH (perf_event_software obj));
  (if r <? 0 then drop_sw_event obj else mret tt);;
  mret r.

Definition add_software_perf_event (cpu sample_type config : Z) : SH Z :=
  fd ← open_fake_fd;
  add_software_perf_event_at fd cpu sample_type config.

Definition add_bpf_prog fd (insns : list Z) (prog_name : string) (prog_type : Z) : SH Z :=
  fd ← fd_or_fake fd;
  install fd (ProgH (prog_handler_new insns prog_name prog_type)).

Definition add_bpf_map fd (name : string) (attr : bpf_map_attr) : SH Z :=
  fd ← fd_or_fake fd;
  s ← get;
  if sh_null s then mret (-1) else install fd (MapH (map_handler_new fd name attr)).

(** A new map with the old one's attributes. *)
Definition dup_bpf_map (oldfd newfd : Z) : SH Z :=
  s ← get;
  match map_at oldfd s with
  | None => fail_with EBADF (-1)
  | Some h =>
      newfd ← fd_or_fake newfd;
      install newfd (MapH (map_handler_new newfd (String.append "dup_" (mh_name h)) (mh_attr h)))
  end.

(** [args->prog_fd] is read before [args] is checked. *)
Definition add_bpf_link fd (args : option bpf_link_create_args) : SH Z :=
  fd ← fd_or_fake fd;
  a ← need "null pointer dereference" args;
  s ← get;
  if negb (is_prog_fd (s32 (la_prog_fd a)) s) then fail_with EBADF (-1)
  else install fd (LinkH (link_of_args a)).

Definition add_bpf_prog_attach_target (perf_fd bpf_fd : Z) (cookie : option Z) : SH Z :=
  s ← get;
  if negb (is_prog_fd bpf_fd s) then fail_with ENOENT (-1)
  else
    next_id ← open_fake_fd;
    if next_id <? 0 then mret (- ENOSPC)
    else
      _ ← install next_id (LinkH (link_with_cookie bpf_fd perf_fd cookie));
      mret next_id.

Definition attach_perf_to_bpf (perf_fd bpf_fd : Z) (cookie : option Z) : SH Z :=
  s ← get;
  if negb (is_perf_fd perf_fd s) then fail_with ENOENT (-1)
  else add_bpf_prog_attach_target perf_fd bpf_fd cookie.

Definition add_custom_perf_event (type : Z) (attach_argument : string) : SH Z :=
  fd ← open_fake_fd;
  if fd <? 0 then mret fd
  else
    _ ← install fd (PerfH (perf_event_custom type attach_argument));
    mret fd.

(** [handler.enable()] and [handler.disable()], through a mutable member. *)
Definition set_enabled (f : bpf_perf_event_handler -> bpf_perf_event_handler) fd : SH Z :=
  s ← get;
  match handler_at fd s with
  | Some (PerfH p) => in_manager (hm_store fd (PerfH (f p)));; mret 0
  | _ => fail_with ENOENT (-1)
  end.
Definition perf_event_enable := set_enabled pe_enable.
Definition perf_event_disable := set_enabled pe_disable.

Definition close_fd fd : SH unit :=
  s ← get;
  if sh_null s then mret tt else in_manager (clear_id_at fd).

Definition find_minimal_unused_fd : SH Z :=
  s ← get;
  if sh_null s then mret (-1) else in_manager find_minimal_unused_idx.

(** ** Epoll instances *)

Definition epoll_create : SH Z :=
  fd ← open_fake_fd;
  allocated ← in_manager (is_allocated fd);
  if allocated : bool then mret (-1) else install fd (EpollH epoll_handler_new).

Definition epoll_add epoll_fd (x : epoll_handler) (f : file_ptr) (data : Z) : SH unit :=
  in_manager (hm_store epoll_fd (EpollH (mk_epoll (ep_files x ++ [mk_epoll_file f data])))).

Definition add_software_perf_event_to_epoll (swpe_fd epoll_fd extra_data : Z) : SH Z :=
  s ← get;
  match handler_at epoll_fd s with
  | Some (EpollH x) =>
      if negb (is_software_perf_event_handler_fd swpe_fd s) then fail_with EINVAL (-1)
      else match handler_at swpe_fd s with
           | Some (PerfH p) =>
               match try_get_software_perf_data_weak_ptr p with
               | Some obj => epoll_add epoll_fd x (FileSoftware obj) extra_data;; mret 0
               | None => fail_with EINVAL (-1)
               end
           | _ => fail_with EINVAL (-1)
           end
  | _ => fail_with EINVAL (-1)
  end.

(** [if (opt.has_value(); auto val = opt.value())]: the first test is an
    initialiser, so [value()] is called on an empty optional, which throws. *)
Definition add_ringbuf_to_epoll (ringbuf_fd epoll_fd extra_data : Z) : SH Z :=
  s ← get;
  match handler_at epoll_fd s with
  | Some (EpollH x) =>
      match map_at ringbuf_fd s with
      | None => fail_with EINVAL (-1)
      | Some h =>
          match try_get_ringbuf_map_impl h with
          | None => throw "bad_optional_access"
          | Some None => fail_with EINVAL (-1)
          | Some (Some p) =>
              r ← need "dangling map_impl_ptr" (ring_of p (hm_mem (sh_manager s)));
              epoll_add epoll_fd x (FileRingbuf r) extra_data;; mret 0
          end
      end
  | _ => fail_with EINVAL (-1)
  end.

Definition get_software_perf_event_raw_buffer fd (buffer_sz : Z) : SH (option vptr) :=
  s ← get;
  if negb (is_software_perf_event_handler_fd fd s) then fail_with EINVAL (Some VNull)
  else match handler_at fd s with
       | Some (PerfH p) => in_manager (zoom hm_events hm_set_events
           (try_get_software_perf_data_raw_buffer p buffer_sz))
       | _ => ub "bad variant access"
       end.

(** ** The C interface (bpftime_shm.cpp) *)

(** Calls from the syscall server, and the one a helper makes; an exception of
    the implementation becomes an error code. *)
Definition bpftime_map_lookup_elem fd (key : ptr) : SH vptr :=
  try_catch (shm_map_lookup_elem fd key true) VNull.
Definition bpftime_map_update_elem fd (key value : ptr) (flags : Z) : SH Z :=
  try_catch (shm_map_update_elem fd key value flags true) (-1).
Definition bpftime_map_delete_elem fd (key : ptr) : SH Z :=
  try_catch (shm_delete_elem fd key true) (-1).
Definition bpftime_map_get_next_key fd (key : ptr) (next_key : bool) : SH (Z * option bytes) :=
  try_catch (shm_map_get_next_key fd key next_key true) (-1, None).
Definition bpftime_helper_map_get_next_key fd (key : ptr) (next_key : bool) : SH (Z * option bytes) :=
  try_catch (shm_map_get_next_key fd key next_key false) (-1, None).

Definition bpftime_kprobe_create fd (func_name : string) (addr : Z) (retprobe : bool) (ref_ctr_off : Z)
    : SH Z :=
  add_kprobe (if fd =? -1 then None else Some fd) func_name addr retprobe ref_ctr_off.

(** The out-parameters that are not null receive the attributes, name and type. *)
Definition bpftime_map_get_info fd (out_attr out_name type : bool)
    : SH (Z * (option bpf_map_attr * option string * option Z)) :=
  s ← get;
  match map_at fd s with
  | None => fail_with ENOENT (-1, (None, None, None))
  | Some h => mret (0, (if out_attr then Some (mh_attr h) else None,
                        if out_name then Some (mh_name h) else None,
                        if type then Some (mh_type h) else None))
  end.

Definition bpftime_get_array_map_raw_data fd : SH vptr :=
  s ← get;
  if negb (is_array_map_fd fd s) then fail_with EINVAL VNull
  else
    h ← need "bad variant access" (map_at fd s);
    p ← need "null map_impl_ptr" (mh_impl_ptr h);
    in_manager (zoom hm_mem hm_set_mem (via array_view p (gets array_get_raw_data))).

(** The implementation behind a ring buffer descriptor. *)
Definition with_ringbuf {A} fd (none : A) (c : M ringbuf A) : SH A :=
  s ← get;
  if negb (is_ringbuf_map_fd fd s) then fail_with EINVAL none
  else
    h ← need "bad variant access" (map_at fd s);
    p ← need "null map_impl_ptr" (mh_impl_ptr h);
    in_manager (zoom hm_mem hm_set_mem (via ring_view p c)).

Definition bpftime_ringbuf_reserve fd (size : Z) : SH vptr := with_ringbuf fd VNull (rb_reserve size fd).
Definition bpftime_ringbuf_submit fd (data : nat) (discard : bool) : SH unit :=
  with_ringbuf fd tt (rb_submit data discard).
Definition bpftime_poll_from_ringbuf (cb : bytes -> Z) fd : SH (Z * list bytes) :=
  with_ringbuf fd (- EINVAL, []) (rb_fetch_data cb).

Definition bpftime_perf_event_output fd (buf : ptr) (sz : Z) : SH Z :=
  s ← get;
  match handler_at fd s with
  | Some (PerfH p) =>
      match pe_data p with
      | SoftwareData obj => in_manager (zoom hm_events hm_set_events (on_sw_event obj (sp_output_data buf sz)))
      | _ => fail_with ENOTSUP (-1)
      end
  | _ => fail_with EINVAL (-1)
  end.

(** [err < 0] is an error and its negation the errno. *)
Definition bpftime_shared_perf_event_output map_fd (buf : ptr) (sz : Z) : SH Z :=
  s ← get;
  if negb (is_shared_perf_event_array_map_fd map_fd s) then fail_with EINVAL (-1)
  else
    h ← need "bad variant access" (map_at map_fd s);
    p ← need "null map_impl_ptr" (mh_impl_ptr h);
    err ← in_manager (zoom hm_mem hm_set_mem (via ku_perf_view p (output_data_into_kernel buf sz)));
    if err <? 0 then fail_with (- err) (-1) else mret 0.

(** *** Map pointers of programs: the descriptor in the upper half *)

Definition INVALID_MAP_PTR := 2 ^ 64 - 1.

Definition map_ptr_by_fd fd : SH Z :=
  s ← get;
  if negb (is_map_fd (s32 fd) s) then fail_with ENOENT INVALID_MAP_PTR
  else mret (Z.lor (u64 (Z.shiftl fd 32)) (2 ^ 32 - 1)).

(** The address of the first value: [next_key] of nothing, then a lookup; the key
    goes through a buffer of [attr.key_size] bytes. *)
Definition map_val (map_ptr : Z) : SH vptr :=
  let fd := s32 (Z.shiftr map_ptr 32) in
  s ← get;
  match map_at fd s with
  | None => fail_with ENOENT VNull
  | Some h =>
      r ← in_manager (on_map fd (handler_get_next_key None true false));
      if r.1 <? 0 then fail_with ENOENT VNull
      else
        let size := Z.to_nat (ma_key_size (mh_attr h)) in
        key ← need "key outside its buffer"
          (match r.2 with Some k => write_range 0 k (zeros size) | None => Some (zeros size) end);
        in_manager (on_map fd (map_lookup_elem (Some key) false))
  end.

(** *** Waiting for events

    One turn of the loop of [bpftime_epoll_wait] sees the clock, whether a signal
    arrives while it sleeps, and the state other threads have left. *)
Record round := mk_round {
  ro_elapsed : Z;
  ro_signal : bool;
  ro_env : manager K -> manager K
}.

(** [lock()] of a weak pointer, then [has_data()]. *)
Definition file_ready (f : file_ptr) : M (manager K) bool :=
  g ← get;
  match f with
  | FileSoftware obj =>
      match hm_events g !! obj with
      | Some _ => zoom hm_events hm_set_events (on_sw_event obj sp_has_data)
      | None => mret false
      end
  | FileRingbuf r =>
      match sm_rings (hm_mem g) !! r with
      | Some b => fun x e => match rb_has_data b e with
                             | Ok a _ e' => Ok a x e' | Throw w _ e' => Throw w x e' | Ub w => Ub w end
      | None => mret false
      end
  end.

(** The [for] loop over the files: the data of the ready ones, while there is room. *)
Fixpoint scan_files (files : list epoll_file) (max_evt : Z) (evts : list Z) : M (manager K) (list Z) :=
  match files with
  | [] => mret evts
  | p :: files' =>
      ready ← file_ready (ef_file p);
      scan_files files' max_evt
        (if ready && (Z.of_nat (length evts) <? max_evt) then evts ++ [ef_data p] else evts)
  end.

(** The [while] loop; the files are read anew in every turn. [None] when the turns
    given are used up. *)
Fixpoint wait_loop (rounds : list round) fd (max_evt timeout : Z) (evts : list Z)
    : M (manager K) (option (Z * list Z)) :=
  if negb (Z.of_nat (length evts) <? max_evt) then mret (Some (Z.of_nat (length evts), evts))
  else match rounds with
  | [] => mret None
  | r :: rounds' =>
      modify (ro_env r);;
      if negb (timeout =? 0) && (timeout <? ro_elapsed r) then mret (Some (Z.of_nat (length evts), evts))
      else
        v ← get_handler fd;
        match v with
        | EpollH x =>
            evts ← scan_files (ep_files x) max_evt evts;
            if (0 <? Z.of_nat (length evts)) then wait_loop rounds' fd max_evt timeout evts
            else if ro_signal r then fail_with EINTR (Some (-1, []))
            else wait_loop rounds' fd max_evt timeout evts
        | _ => ub "bad variant access"
        end
  end.

Definition bpftime_epoll_wait (rounds : list round) fd (max_evt timeout : Z) : SH (option (Z * list Z)) :=
  s ← get;
  if negb (is_epoll_fd fd s) then fail_with EINVAL (Some (-1, []))
  else in_manager (wait_loop rounds fd max_evt timeout []).

(** ** Fake descriptors *)

Definition world_of s : K := sm_world (hm_mem (sh_manager s)).

(** What the runtime relies on: [open] and [dup] return an error or a descriptor
    that was not open and now is. *)
Section fake_fd.
Variable os_fds : K -> gset Z.
Definition opens (c : M K Z) : Prop := forall k e, exists fd k' e', c k e = Ok fd k' e' /\
  (fd < 0 \/ (0 <= fd /\ (fd ∉ os_fds k) /\ os_fds k' = {[fd]} ∪ os_fds k)).
Hypothesis Hopen : opens os_open_null.
Hypothesis Hdup : forall fd, opens (os_dup fd).

Definition low_fds : gset Z := {[0; 1; 2]}.

(** Each descriptor below 3 that [dup] returns is one of at most three. *)
Lemma dup_loop_high cnt fd s e (known : gset Z) :
  known ⊆ os_fds (world_of s) ->
  (0 <= fd <= 2 -> (4 <= cnt + size (low_fds ∩ os_fds (world_of s)))%nat) ->
  (2 < fd -> fd ∉ known) ->
  exists r s' e', dup_loop cnt fd s e = Ok r s' e' /\ (r < 0 \/ (2 < r /\ r ∉ known)).
Proof using Hdup.
  clear Hopen. revert fd s e. induction cnt as [|cnt IH]; intros fd s e Hsub Hsize Hnew; cbn [dup_loop].
  - exists fd, s, e. split; [done|]. destruct (decide (0 <= fd <= 2)) as [Hlow|Hhi].
    + assert (size (low_fds ∩ os_fds (world_of s)) <= size low_fds)%nat as Hle
        by (apply subseteq_size; set_solver).
      change (size low_fds) with 3%nat in Hle. specialize (Hsize Hlow). lia.
    + destruct (decide (fd < 0)); [by left|right]. split; [lia|apply Hnew; lia].
  - destruct (_ && _) eqn:Hb; zify_bool.
    + mbase. destruct (Hdup fd (world_of s) e) as (fd' & k' & e' & Hrun & Hfd').
      unfold in_os, zoom. fold (world_of s). rewrite Hrun.
      set (s' := sh_set_manager _ s). assert (world_of s' = k') as Hw by done.
      destruct Hfd' as [Hneg|(Hge & Hfresh & Hk')].
      { destruct cnt; cbn [dup_loop]; exists fd', s', e'; (split; [|by left]); [done|].
        by rewrite (proj2 (Z.leb_gt 0 fd')), andb_false_r by lia. }
      apply IH; [rewrite Hw, Hk'; set_solver|rewrite Hw, Hk'|set_solver].
      intros Hlow. replace (low_fds ∩ ({[fd']} ∪ os_fds (world_of s)))
        with ({[fd']} ∪ (low_fds ∩ os_fds (world_of s))).
      * rewrite size_union, size_singleton by set_solver. lia.
      * assert (fd' ∈ low_fds) by (unfold low_fds; set_unfold; lia). set_solver.
    + exists fd, s, e. split; [done|]. destruct (decide (fd < 0)); [by left|right].
      split; [lia|apply Hnew; lia].
Qed.

(** [open_fake_fd] always returns, and never one of the standard descriptors:
    the result is an error or a descriptor above 2 that was not open before. Four
    [dup]s are enough, since at most three of the descriptors seen can be low. *)
Theorem open_fake_fd_high s e :
  exists fd s' e', open_fake_fd s e = Ok fd s' e' /\
    (fd < 0 \/ (2 < fd /\ fd ∉ os_fds (world_of s))).
Proof using Hopen Hdup.
  unfold open_fake_fd. mbase. destruct (Hopen (world_of s) e) as (fd & k' & e1 & Hrun & Hfd).
  unfold in_os, zoom. fold (world_of s). rewrite Hrun. set (s1 := sh_set_manager _ s).
  assert (world_of s1 = k') as Hw by done. destruct Hfd as [Hneg|(Hge & Hfresh & Hk')].
  { exists fd, s1, e1. cbn [dup_loop]. rewrite (proj2 (Z.leb_gt 0 fd)), andb_false_r by lia. auto. }
  apply dup_loop_high; [rewrite Hw, Hk'; set_solver|rewrite Hw, Hk'|done].
  intros Hlow. assert (fd ∈ low_fds) by (unfold low_fds; set_unfold; lia).
  assert (size ({[fd]} : gset Z) <= size (low_fds ∩ ({[fd]} ∪ os_fds (world_of s))))%nat as Hle
    by (apply subseteq_size; set_solver).
  rewrite size_singleton in Hle. lia.
Qed.

End fake_fd.

(** ** Maps and links *)

Lemma handler_at_Some fd s v :
  handler_at fd s = Some v ->
  sh_null s = false /\ in_table fd (sh_manager s) = true /\
  hm_handlers (sh_manager s) !! Z.to_nat fd = Some v.
Proof. unfold handler_at. destruct (sh_null s), (in_table _ _); simpl; intros; by split_and!. Qed.

Lemma in_manager_run {A} (c : M (manager K) A) s e :
  sh_null s = false ->
  in_manager c s e = match c (sh_manager s) e with
    | Ok a g e' => Ok a (sh_set_manager g s) e'
    | Throw w g e' => Throw w (sh_set_manager g s) e'
    | Ub w => Ub w
    end.
Proof. intros Hn. unfold in_manager, zoom. by rewrite Hn. Qed.

(** A descriptor that is not a map (free, of another kind, outside the table, or
    without shared memory at all): every map call of the C interface reports
    ENOENT with its error value and changes nothing. *)
Theorem map_calls_bad_fd fd s e key value flags next :
  is_map_fd fd s = false ->
  bpftime_map_lookup_elem fd key s e = Ok VNull s ENOENT /\
  bpftime_map_update_elem fd key value flags s e = Ok (-1) s ENOENT /\
  bpftime_map_delete_elem fd key s e = Ok (-1) s ENOENT /\
  bpftime_map_get_next_key fd key next s e = Ok (-1, None) s ENOENT /\
  bpf_map_value_size fd s e = Ok 0 s ENOENT.
Proof.
  intros Hm. unfold bpftime_map_lookup_elem, bpftime_map_update_elem, bpftime_map_delete_elem,
    bpftime_map_get_next_key, shm_map_lookup_elem, shm_map_update_elem, shm_delete_elem,
    shm_map_get_next_key, bpf_map_value_size, with_map, try_catch. mbase. by rewrite Hm.
Qed.

(** [attach_perf_to_bpf]: only a perf event and a program can be joined; the
    link gets the fake descriptor, and when that is a free one of the table no link
    dangles afterwards and nothing else in the table changes. *)
Theorem attach_links perf_fd bpf_fd cookie s e fd s1 e1 :
  links_ok (hm_handlers (sh_manager s)) ->
  open_fake_fd s e = Ok fd s1 e1 -> hm_handlers (sh_manager s1) = hm_handlers (sh_manager s) ->
  sh_null s1 = sh_null s ->
  hm_handlers (sh_manager s) !! Z.to_nat fd = Some UnusedHandler -> 0 <= fd ->
  if is_perf_fd perf_fd s && is_prog_fd bpf_fd s then
    exists s', attach_perf_to_bpf perf_fd bpf_fd cookie s e = Ok fd s' e1 /\
      hm_handlers (sh_manager s') =
        <[Z.to_nat fd := LinkH (link_with_cookie bpf_fd perf_fd cookie)]> (hm_handlers (sh_manager s)) /\
      links_ok (hm_handlers (sh_manager s'))
  else attach_perf_to_bpf perf_fd bpf_fd cookie s e = Ok (-1) s ENOENT.
Proof.
  intros Hok Hopen Hsame Hnull Hfree Hfd. unfold attach_perf_to_bpf, add_bpf_prog_attach_target. mbase.
  destruct (is_perf_fd perf_fd s) eqn:Hperf; [|done].
  cbn [negb andb]. destruct (is_prog_fd bpf_fd s) eqn:Hprog; [|done]. cbn [negb]. rewrite Hopen, (proj2 (Z.ltb_ge _ _)) by done.
  unfold is_perf_fd, is_prog_fd in *.
  destruct (handler_at perf_fd s) as [[| | | |pe|]|] eqn:Hpe; try done.
  destruct (handler_at bpf_fd s) as [[| | |pr| |]|] eqn:Hpr; try done.
  apply handler_at_Some in Hpe as (Hn & Ht1 & Hpe), Hpr as (_ & Ht2 & Hpr).
  apply in_table_spec in Ht1, Ht2. pose proof (lookup_lt_Some _ _ _ Hfree) as Hlt.
  unfold install. rewrite in_manager_run by congruence.
  rewrite set_handler_free; [|apply in_table_spec; unfold hm_size; rewrite Hsame; lia|by rewrite Hsame|done].
  eexists. split; [reflexivity|]. simpl. rewrite Hsame. split; [done|].
  apply links_ok_set; [done|done|]. split_and!; simpl; eauto; lia.
Qed.

(** ** Map pointers *)

Lemma map_ptr_shift fd : 0 <= fd < 2 ^ 31 ->
  s32 (Z.shiftr (Z.lor (u64 (Z.shiftl fd 32)) (2 ^ 32 - 1)) 32) = fd.
Proof.
  intros Hfd. rewrite Z.shiftl_mul_pow2 by lia. rewrite wrap_small by lia.
  rewrite Z.shiftr_lor. rewrite <- Z.shiftl_mul_pow2, Z.shiftr_shiftl_l by lia.
  change (Z.shiftr (2 ^ 32 - 1) 32) with 0. rewrite Z.lor_0_r, Z.sub_diag, Z.shiftl_0_r.
  apply s32_small. lia.
Qed.

(** Map pointers: for a map descriptor, [map_val] of its pointer finds the same
    map again: it is the lookup of the map's first key, or ENOENT for an empty
    map. For any other descriptor the pointer is the invalid one, which [map_val]
    rejects with ENOENT. *)
Theorem map_ptr_round_trip fd s e h :
  0 <= fd < 2 ^ 31 ->
  (map_at fd s = None ->
   map_ptr_by_fd fd s e = Ok INVALID_MAP_PTR s ENOENT /\
   map_val INVALID_MAP_PTR s e = Ok VNull s ENOENT) /\
  (map_at fd s = Some h -> exists p, map_ptr_by_fd fd s e = Ok p s e /\
    forall k g g' e1 e2 v, handler_get_next_key None true false (h, hm_mem (sh_manager s)) e = Ok (0, Some k) (h, g) e1 ->
      Z.of_nat (length k) = ma_key_size (mh_attr h) ->
      map_lookup_elem (Some k) false (h, g) e1 = Ok v (h, g') e2 ->
      exists s', map_val p s e = Ok v s' e2 /\ hm_mem (sh_manager s') = g').
Proof.
  intros Hfd. split.
  - intros Hno. assert (is_map_fd fd s = false) as Hm.
    { unfold map_at, is_map_fd in *. by destruct (handler_at fd s) as [[]|]. }
    unfold map_ptr_by_fd, map_val. mbase. rewrite s32_small by lia. rewrite Hm. split; [done|].
    change (s32 (Z.shiftr INVALID_MAP_PTR 32)) with (-1).
    unfold map_at, handler_at. simpl. by rewrite orb_true_r.
  - intros Hh. assert (handler_at fd s = Some (MapH h)) as Hat.
    { unfold map_at in Hh. destruct (handler_at fd s) as [[]|]; by simplify_eq. }
    apply handler_at_Some in Hat as Hat'. destruct Hat' as (Hn & Ht & Hv).
    eexists. split.
    { unfold map_ptr_by_fd. mbase. rewrite s32_small by lia. unfold is_map_fd. by rewrite Hat. }
    intros k g g' e1 e2 v Hnext Hlen Hlook. unfold map_val. cbv zeta. rewrite map_ptr_shift by done.
    mbase. rewrite Hh. rewrite in_manager_run by done. unfold on_map at 1. rewrite Hv, Hnext. cbv zeta.
    cbn [fst snd]. change (0 <? 0) with false. cbn iota.
    rewrite write_range_Some by (rewrite length_zeros; lia).
    replace (take 0 _ ++ k ++ drop _ _) with k.
    2: { rewrite drop_ge by (rewrite length_zeros; lia). by rewrite app_nil_r. }
    unfold need. mbase. rewrite in_manager_run by done. unfold on_map. simpl hm_handlers. simpl hm_mem.
    rewrite list_lookup_insert_eq by (by eapply lookup_lt_Some). rewrite Hlook.
    by eexists.
Qed.

(** ** Waiting *)

Lemma scan_files_run (rdy : file_ptr -> bool) files max_evt evts (g : manager K) e :
  (forall p, p ∈ files -> file_ready (ef_file p) g e = Ok (rdy (ef_file p)) g e) ->
  (Z.of_nat (length evts) <= max_evt) ->
  scan_files files max_evt evts g e =
  Ok (evts ++ take (Z.to_nat max_evt - length evts)
        (ef_data <$> filter (fun p => rdy (ef_file p) = true) files)) g e.
Proof.
  revert evts. induction files as [|p files IH]; intros evts Hr Hlen; cbn [scan_files].
  { rewrite filter_nil. simpl. by rewrite take_nil, app_nil_r. }
  mbase. rewrite Hr by left.
  assert (forall q, q ∈ files -> file_ready (ef_file q) g e = Ok (rdy (ef_file q)) g e) as Hr' by (intros; apply Hr; by right).
  rewrite filter_cons. destruct (rdy (ef_file p)) eqn:Hp; cbn [andb].
  - rewrite decide_True by done. cbn [fmap list_fmap]. destruct (Z.ltb_spec (Z.of_nat (length evts)) max_evt).
    + rewrite IH; [|done|rewrite length_app; simpl; lia]. rewrite length_app. cbn [length].
      replace (Z.to_nat max_evt - length evts)%nat
        with (S (Z.to_nat max_evt - (length evts + 1)))%nat by lia.
      by rewrite <- app_assoc.
    + rewrite IH by done. by replace (Z.to_nat max_evt - length evts)%nat with O by lia.
  - rewrite decide_False by done. by apply IH.
Qed.

Section quiet_world.
Variable (g : manager K) (fd : Z) (x : epoll_handler) (rdy : file_ptr -> bool).
Hypothesis Htab : in_table fd g = true.
Hypothesis Hx : hm_handlers g !! Z.to_nat fd = Some (EpollH x).
Hypothesis Hrdy : forall p e, p ∈ ep_files x -> file_ready (ef_file p) g e = Ok (rdy (ef_file p)) g e.
Abbreviation ready_data := (ef_data <$> filter (fun p => rdy (ef_file p) = true) (ep_files x)).

(** One turn of the loop that neither times out nor is interrupted. *)
Lemma wait_turn r rounds max_evt timeout evts e :
  ro_env r g = g -> Z.of_nat (length evts) < max_evt ->
  negb (timeout =? 0) && (timeout <? ro_elapsed r) = false ->
  wait_loop (r :: rounds) fd max_evt timeout evts g e =
  let evts' := evts ++ take (Z.to_nat max_evt - length evts) ready_data in
  if 0 <? Z.of_nat (length evts') then wait_loop rounds fd max_evt timeout evts' g e
  else if ro_signal r then Ok (Some (-1, [])) g EINTR
  else wait_loop rounds fd max_evt timeout evts' g e.
Proof.
  intros Henv Hlt Ht. cbn [wait_loop]. rewrite (proj2 (Z.ltb_lt _ _)) by done. cbn [negb]. mbase.
  rewrite Henv, Ht. rewrite (get_handler_run fd g (EpollH x)) by done.
  rewrite (scan_files_run rdy) by (done || (intros; by apply Hrdy) || lia).
  cbv zeta. destruct (0 <? _); [done|]. by destruct (ro_signal r).
Qed.

(** [epoll_wait] when something is ready: with a limit no larger than the number
    of ready files, the first turn returns their data, in the order they were
    added, cut to the limit. *)
Theorem epoll_wait_ready r rounds max_evt timeout e :
  ro_env r g = g -> 0 < max_evt <= Z.of_nat (length ready_data) ->
  negb (timeout =? 0) && (timeout <? ro_elapsed r) = false ->
  wait_loop (r :: rounds) fd max_evt timeout [] g e =
  Ok (Some (max_evt, take (Z.to_nat max_evt) ready_data)) g e.
Proof using Htab Hx Hrdy.
  intros Henv Hmax Ht. rewrite wait_turn by (simpl; done || lia). cbv zeta. rewrite app_nil_l.
  cbn [length]. rewrite Nat.sub_0_r.
  assert (Z.of_nat (length (take (Z.to_nat max_evt) ready_data)) = max_evt) as Hlen.
  { rewrite length_take. lia. }
  rewrite Hlen, (proj2 (Z.ltb_lt _ _)) by lia.
  assert (forall l, Z.of_nat (length l) = max_evt ->
    wait_loop rounds fd max_evt timeout l g e = Ok (Some (Z.of_nat (length l), l)) g e) as Hdone.
  { intros l Hl. destruct rounds; cbn [wait_loop]; by rewrite Hl, Z.ltb_irrefl. }
  rewrite Hdone by done. by rewrite Hlen.
Qed.

(** The timeout: a negative one, which should block, returns 0 at once even when
    files are ready; and a timeout of 0, which should return at once, never
    returns while nothing is ready and no signal arrives, however many turns
    pass. *)
Theorem epoll_wait_timeouts max_evt e :
  0 < max_evt ->
  (forall r rounds timeout, ro_env r g = g -> 0 <= ro_elapsed r -> timeout < 0 ->
   wait_loop (r :: rounds) fd max_evt timeout [] g e = Ok (Some (0, [])) g e) /\
  (ready_data = [] -> forall rounds,
   Forall (fun r => ro_env r g = g /\ ro_signal r = false) rounds ->
   wait_loop rounds fd max_evt 0 [] g e = Ok None g e).
Proof using Htab Hx Hrdy.
  intros Hmax. split.
  - intros r rounds timeout Henv Hel Ht. cbn [wait_loop length]. change (Z.of_nat 0) with 0.
    rewrite (proj2 (Z.ltb_lt _ _)) by done. cbn [negb]. mbase. rewrite Henv.
    rewrite (proj2 (Z.eqb_neq _ _)), (proj2 (Z.ltb_lt _ _)) by lia. done.
  - intros Hnone rounds. induction rounds as [|r rounds IH]; intros Hq.
    + cbn [wait_loop length]. change (Z.of_nat 0) with 0. by rewrite (proj2 (Z.ltb_lt _ _)) by done.
    + apply Forall_cons in Hq as [[Henv Hsig] Hq]. rewrite wait_turn by (simpl; done || lia).
      cbv zeta. rewrite Hnone, take_nil, app_nil_l. cbn [length]. change (0 <? Z.of_nat 0) with false.
      cbn iota. rewrite Hsig. by apply IH.
Qed.

End quiet_world.

(** ** Divergences of the interface *)

(** [dup_bpf_map] does not duplicate the descriptor: the new one gets an
    implementation object of its own, built from the attributes, so the two maps
    share no element. *)
Theorem dup_map_is_fresh oldfd newfd s e h p :
  sh_null s = false -> manager_wf (sh_manager s) -> map_at oldfd s = Some h -> mh_impl_ptr h = Some p ->
  map_type h = BPF_MAP_TYPE_ARRAY -> ma_type (mh_attr h) = mh_type h ->
  0 <= ma_max_ents (mh_attr h) < 2 ^ 32 -> 0 <= newfd ->
  hm_handlers (sh_manager s) !! Z.to_nat newfd = Some UnusedHandler ->
  sm_index (hm_mem (sh_manager s)) !! String.append "ebpf_map_fd_dup_" (mh_name h) = None ->
  exists s' h', dup_bpf_map oldfd newfd s e = Ok newfd s' e /\ map_at newfd s' = Some h' /\
    mh_impl_ptr h' <> Some p /\ exists p', mh_impl_ptr h' = Some p' /\
    sm_objects (hm_mem (sh_manager s')) !! p' =
      Some (IArray (array_map_new (ma_value_size (mh_attr h)) (ma_max_ents (mh_attr h)))).
Proof.
  intros Hn Hwf Hat Hp Hty Hattr Hmax Hnew Hfree Hname.
  assert (handler_at oldfd s = Some (MapH h)) as Hold.
  { unfold map_at in Hat. destruct (handler_at oldfd s) as [[]|]; by simplify_eq. }
  apply handler_at_Some in Hold as (_ & _ & Hold).
  set (h0 := map_handler_new newfd (String.append "dup_" (mh_name h)) (mh_attr h)).
  assert (map_type h0 = BPF_MAP_TYPE_ARRAY) as Hty0 by (unfold map_type, h0; simpl; by rewrite Hattr).
  assert (in_table newfd (sh_manager s) = true) as Htab.
  { apply in_table_spec. apply lookup_lt_Some in Hfree. unfold hm_size. lia. }
  pose proof (manager_wf_mem _ Hwf) as Hmem.
  assert (p < sm_next (hm_mem (sh_manager s)))%nat as Hlt.
  { destruct (manager_wf_maps _ Hwf _ _ Hold) as [_ (_ & [(q & r & Hq & _ & Hs)|[Hq _]] & _)]; [|congruence].
    rewrite Hp in Hq. injection Hq as <-. apply (sm_fresh_object _ Hmem). eauto. }
  unfold dup_bpf_map. mbase. rewrite Hat. unfold fd_or_fake. rewrite (proj2 (Z.ltb_ge _ _)) by done. mbase.
  unfold install. rewrite in_manager_run by done. rewrite set_map_run by done.
  unfold map_init. mbase. cbn [fst]. fold h0. unfold map_ctor. rewrite Hty0. cbn [bool_decide decide decide_rel].
  rewrite bool_decide_false by done. cbn [andb]. unfold in_shm, zoom, shm_construct. mbase. cbn [snd].
  change (get_container_name h0) with (String.append "ebpf_map_fd_dup_" (mh_name h)). rewrite Hname.
  cbv zeta. cbn [fst snd]. do 2 eexists. split; [reflexivity|]. split.
  { unfold map_at, handler_at. simpl. rewrite Hn. simpl.
    replace (in_table newfd _) with true.
    - simpl. by rewrite list_lookup_insert_eq by (by eapply lookup_lt_Some).
    - symmetry. apply in_table_spec in Htab. apply in_table_spec. unfold hm_size in *. simpl.
      by rewrite length_insert. }
  simpl. split; [intros [= Heq]; lia|]. eexists. split; [done|]. by rewrite lookup_insert_eq.
Qed.

(** Shared perf event output loses its errors: data above 448 bytes fails, but
    with errno 1 (EPERM) in place of E2BIG, and when the user ring buffer is full
    the call returns 0, as if the data had been written. *)
Theorem shared_output_errors fd s e h p x buf sz :
  map_at fd s = Some h -> map_type h = BPF_MAP_TYPE_KERNEL_USER_PERF_EVENT_ARRAY ->
  mh_impl_ptr h = Some p -> sm_objects (hm_mem (sh_manager s)) !! p = Some (IKuPerf x) ->
  (448 < sz -> exists s', bpftime_shared_perf_event_output fd buf sz s e = Ok (-1) s' EPERM) /\
  (0 <= sz <= 448 -> forall k' e', 0 <= e' ->
   user_ring_buffer_reserve (sz + 8) (world_of s) e = Ok None k' e' ->
   exists s', bpftime_shared_perf_event_output fd buf sz s e = Ok 0 s' e').
Proof.
  intros Hat Hty Hp Hx. assert (sh_null s = false) as Hn.
  { unfold map_at in Hat. destruct (handler_at fd s) eqn:Hh; [|done]. by apply handler_at_Some in Hh as []. }
  unfold bpftime_shared_perf_event_output, is_shared_perf_event_array_map_fd, is_map_of_type. mbase.
  rewrite Hat, bool_decide_true by done. cbn [negb]. unfold need. mbase. rewrite Hp. mbase.
  rewrite in_manager_run by done. unfold zoom, via. simpl v_load. rewrite Hx. simpl.
  unfold output_data_into_kernel. split.
  - intros Hsz. rewrite (proj2 (Z.ltb_lt _ _)) by lia. mbase. by eexists.
  - intros Hsz k' e' He Hres. rewrite (proj2 (Z.ltb_ge _ _)) by lia. mbase. rewrite wrap_small by lia.
    unfold in_kernel, zoom. simpl. unfold world_of in Hres. rewrite Hres.
    rewrite (proj2 (Z.ltb_ge _ _)) by lia. by eexists.
Qed.

(** Adding a map that is not a ring buffer to an epoll instance throws out of
    the C interface: the test of the optional is written as an initialiser, so the
    EINVAL branch is reached only by a null implementation. *)
Theorem add_non_ringbuf_throws rfd efd data s e x h :
  handler_at efd s = Some (EpollH x) -> map_at rfd s = Some h -> map_type h <> BPF_MAP_TYPE_RINGBUF ->
  exists w, add_ringbuf_to_epoll rfd efd data s e = Throw w s e.
Proof.
  intros He Hm Ht. unfold add_ringbuf_to_epoll. mbase. rewrite He, Hm.
  unfold try_get_ringbuf_map_impl. rewrite bool_decide_false by done. by eexists.
Qed.

(** ** Calls on the map behind a descriptor *)

(** The shared memory after a call on the object [p]. *)
Definition put_object {S} (v : view S) (p : nat) (x : S) s : bpftime_shm K :=
  sh_set_manager (hm_set_mem (v_store v p x (hm_mem (sh_manager s))) (sh_manager s)) s.

Lemma on_map_delegates {S A} fd s h (v : view S) p (c : M (bpf_map_handler * shm K) A) e a x' e' :
  map_at fd s = Some h ->
  c (h, hm_mem (sh_manager s)) e = delegate h (hm_mem (sh_manager s)) v p (Ok a x' e') ->
  in_manager (on_map fd c) s e = Ok a (put_object v p x' s) e'.
Proof.
  intros Hm Hc. assert (handler_at fd s = Some (MapH h)) as Hh.
  { unfold map_at in Hm. destruct (handler_at fd s) as [[]|]; by simplify_eq. }
  apply handler_at_Some in Hh as (Hn & _ & Hl). rewrite in_manager_run by done.
  unfold on_map. rewrite Hl, Hc. cbn [fst snd delegate]. by rewrite list_insert_id.
Qed.

(** A member call that leaves the handler and the memory as they are. *)
Lemma on_map_read {A} fd s h (c : M (bpf_map_handler * shm K) A) e a e' :
  map_at fd s = Some h -> c (h, hm_mem (sh_manager s)) e = Ok a (h, hm_mem (sh_manager s)) e' ->
  in_manager (on_map fd c) s e = Ok a s e'.
Proof.
  intros Hm Hc. assert (handler_at fd s = Some (MapH h)) as Hh.
  { unfold map_at in Hm. destruct (handler_at fd s) as [[]|]; by simplify_eq. }
  apply handler_at_Some in Hh as (Hn & _ & Hl). rewrite in_manager_run by done.
  unfold on_map. rewrite Hl, Hc. cbn [fst snd]. rewrite list_insert_id by done.
  unfold sh_set_manager. by destruct s as [? [] ? ?].
Qed.

(** The calls of the C interface, when the operation of the implementation returns. *)
Lemma map_calls_by_fd fd s h S (v : view S) I p x key value flags e :
  map_at fd s = Some h -> mh_lock h = false -> mh_impl_ptr h = Some p ->
  v_load v p (hm_mem (sh_manager s)) = Some x -> serves true (map_type h) S v I ->
  (forall r x' e', @elem_lookup S I key x e = Ok r x' e' ->
     bpftime_map_lookup_elem fd key s e = Ok r (put_object v p x' s) e') /\
  (forall r x' e', @elem_update S I key value flags x e = Ok r x' e' ->
     bpftime_map_update_elem fd key value flags s e = Ok r (put_object v p x' s) e') /\
  (forall r x' e', @elem_delete S I key x e = Ok r x' e' ->
     bpftime_map_delete_elem fd key s e = Ok r (put_object v p x' s) e').
Proof.
  intros Hm Hlk Hp Hx Hs. assert (is_map_fd fd s = true) as Hmap.
  { unfold is_map_fd. unfold map_at in Hm. by destruct (handler_at fd s) as [[]|]. }
  destruct (map_calls_run true h (hm_mem (sh_manager s)) S v I key value flags true e p x Hp Hx Hlk Hs)
    as (Hl & Hu & Hd & _); [done|].
  unfold bpftime_map_lookup_elem, bpftime_map_update_elem, bpftime_map_delete_elem, try_catch,
    shm_map_lookup_elem, shm_map_update_elem, shm_delete_elem, with_map. mbase. rewrite Hmap.
  split_and!; intros r x' e' Hr; [rewrite Hr in Hl|rewrite Hr in Hu|rewrite Hr in Hd].
  - by rewrite (on_map_delegates fd s h v p _ _ _ _ _ Hm Hl).
  - by rewrite (on_map_delegates fd s h v p _ _ _ _ _ Hm Hu).
  - by rewrite (on_map_delegates fd s h v p _ _ _ _ _ Hm Hd).
Qed.

Lemma map_value_size_by_fd fd s h e :
  map_at fd s = Some h -> bpf_map_value_size fd s e = Ok (get_value_size h) s e.
Proof.
  intros Hm. unfold bpf_map_value_size, with_map. mbase.
  assert (is_map_fd fd s = true) as ->.
  { unfold is_map_fd. unfold map_at in Hm. by destruct (handler_at fd s) as [[]|]. }
  by rewrite (on_map_read fd s h _ e (get_value_size h) e Hm).
Qed.

End shm.

(** ** Witnesses *)

(** An operating system that hands out the next descriptor. *)
Definition counting_os : Os nat := {|
  os_open_null := fun n e => Ok (Z.of_nat n) (S n) e;
  os_dup := fun fd n e => Ok (Z.of_nat n) (S n) e
|}.
Definition counted_fds (n : nat) : gset Z := list_to_set (Z.of_nat <$> seq 0 n).

Lemma counting_opens : opens counted_fds (fun n e => Ok (Z.of_nat n) (S n) e).
Proof.
  intros n e. exists (Z.of_nat n), (S n), e. split; [done|right]. unfold counted_fds. split_and!.
  - lia.
  - rewrite elem_of_list_to_set, list_elem_of_fmap. intros (i & Hi & Hin%elem_of_seq). lia.
  - rewrite seq_S, fmap_app, list_to_set_app_L. simpl. set_solver.
Qed.

Definition counting_shm : bpftime_shm nat :=
  mk_bshm false (mk_manager [] (mk_shm ∅ ∅ ∅ 0 0%nat ∅) ∅ 0) ∅ ∅.

Lemma open_fake_fd_high_witness :
  exists fd s' e', @open_fake_fd _ counting_os counting_shm 0 = Ok fd s' e' /\
    (fd < 0 \/ (2 < fd /\ fd ∉ counted_fds (world_of counting_shm))).
Proof.
  exact (@open_fake_fd_high _ counting_os counted_fds counting_opens (fun _ => counting_opens)
    counting_shm 0).
Defined.

(** A runtime whose descriptors start at 4. *)
Definition fixed_os : Os (list bytes) := {| os_open_null := mret 4; os_dup := fun fd => mret 4 |}.
Definition small_shm : bpftime_shm (list bytes) := mk_bshm false small_manager ∅ ∅.

Lemma map_calls_bad_fd_witness :
  @bpftime_map_lookup_elem _ toy_runtime 3 None small_shm 0 = Ok VNull small_shm ENOENT.
Proof.
  exact (proj1 (@map_calls_bad_fd _ toy_runtime 3 small_shm 0 None None 0 true eq_refl)).
Defined.

Lemma attach_links_witness :
  exists s', @attach_perf_to_bpf _ toy_runtime fixed_os 2 1 None small_shm 0 = Ok 4 s' 0 /\
    hm_handlers (sh_manager s') =
      <[4%nat := LinkH (link_with_cookie 1 2 None)]> (hm_handlers small_manager) /\
    links_ok (hm_handlers (sh_manager s')).
Proof.
  exact (@attach_links _ toy_runtime fixed_os 2 1 None small_shm 0 4 small_shm 0 small_links eq_refl
    eq_refl eq_refl eq_refl ltac:(lia)).
Defined.

(** A shared memory with an array map and an epoll instance watching one event
    that has data. *)
Definition ready_event : software_perf_event_data :=
  sp_set_head (sw_event_new 8 0 0 0) 16.
Definition epoll_manager : manager (list bytes) :=
  mk_manager [MapH (mh_set_ptr (Some O) (small_handler 2));
    EpollH (mk_epoll [mk_epoll_file (FileSoftware 0) 42]); PerfH (perf_event_software 0); UnusedHandler]
    with_array {[ O := ready_event ]} 1.
Definition epoll_shm : bpftime_shm (list bytes) := mk_bshm false epoll_manager ∅ ∅.

Lemma map_ptr_round_trip_witness :
  exists p, @map_ptr_by_fd (list bytes) 0 epoll_shm 0 = Ok p epoll_shm 0 /\
    exists s', @map_val _ toy_runtime p epoll_shm 0 = Ok (VBuf 0) s' 0 /\
      hm_mem (sh_manager s') = with_array.
Proof.
  destruct (proj2 (@map_ptr_round_trip _ toy_runtime 0 epoll_shm 0 (mh_set_ptr (Some O) (small_handler 2))
    ltac:(lia)) eq_refl) as (p & Hp & Hv).
  exists p. split; [exact Hp|].
  refine (Hv [0; 0; 0; 0] with_array with_array 0 0 (VBuf 0) _ _ _); vm_compute; reflexivity.
Defined.

Lemma epoll_file_ready p e :
  p ∈ [mk_epoll_file (FileSoftware 0) 42] ->
  file_ready (ef_file p) epoll_manager e = Ok true epoll_manager e.
Proof. intros ->%list_elem_of_singleton. vm_compute. reflexivity. Qed.

Definition calm_round : @round (list bytes) := mk_round 0 false id.

Lemma epoll_wait_ready_witness :
  wait_loop [calm_round] 1 1 0 [] epoll_manager 0 = Ok (Some (1, [42])) epoll_manager 0.
Proof.
  refine (@epoll_wait_ready (list bytes) epoll_manager 1 (mk_epoll [mk_epoll_file (FileSoftware 0) 42])
    (fun _ => true) eq_refl eq_refl epoll_file_ready calm_round [] 1 0 0 eq_refl _ eq_refl).
  simpl. lia.
Defined.

Lemma epoll_wait_timeouts_witness :
  wait_loop [calm_round] 1 1 (-1) [] epoll_manager 0 = Ok (Some (0, [])) epoll_manager 0.
Proof.
  refine (proj1 (@epoll_wait_timeouts (list bytes) epoll_manager 1
    (mk_epoll [mk_epoll_file (FileSoftware 0) 42]) (fun _ => true) eq_refl eq_refl epoll_file_ready 1 0 _)
    calm_round [] (-1) eq_refl _ _); simpl; lia.
Defined.

Lemma dup_map_is_fresh_witness :
  exists s' h', @dup_bpf_map _ toy_runtime fixed_os 0 4 small_shm 0 = Ok 4 s' 0 /\ map_at 4 s' = Some h' /\
    mh_impl_ptr h' <> Some O /\ exists p', mh_impl_ptr h' = Some p' /\
    sm_objects (hm_mem (sh_manager s')) !! p' = Some (IArray (array_map_new 4 2)).
Proof.
  refine (@dup_map_is_fresh _ toy_runtime fixed_os 0 4 small_shm 0 (mh_set_ptr (Some O) (small_handler 2)) O
    eq_refl small_manager_wf eq_refl eq_refl eq_refl eq_refl _ _ eq_refl eq_refl); simpl; lia.
Defined.

Definition ku_shm : bpftime_shm (list bytes) :=
  mk_bshm false (mk_manager [MapH (mh_set_ptr (Some O) (small_handler 1004))]
    (one_object (IKuPerf (mk_perf_ku 2 7 (Some 8) 3 4))) ∅ 0) ∅ ∅.

Lemma shared_output_errors_witness :
  exists s', @bpftime_shared_perf_event_output _ toy_runtime 0 None 500 ku_shm 0 = Ok (-1) s' EPERM.
Proof.
  refine (proj1 (@shared_output_errors _ toy_runtime 0 ku_shm 0 (mh_set_ptr (Some O) (small_handler 1004)) O
    (mk_perf_ku 2 7 (Some 8) 3 4) None 500 eq_refl eq_refl eq_refl eq_refl) _).
  lia.
Defined.

Lemma add_non_ringbuf_throws_witness :
  exists w, add_ringbuf_to_epoll 0 1 42 epoll_shm 0 = Throw w epoll_shm 0.
Proof.
  refine (@add_non_ringbuf_throws (list bytes) 0 1 42 epoll_shm 0
    (mk_epoll [mk_epoll_file (FileSoftware 0) 42]) (mh_set_ptr (Some O) (small_handler 2))
    eq_refl eq_refl _).
  discriminate.
Defined.
