(* ===== verification/HelperMem.v ===== *)
(** The helpers of src/bpf_helper.cpp that work on raw memory: probe reads and writes,
    strings, the Internet checksum, and the XDP packet helpers. Memory is a finite
    map from 64-bit addresses to bytes; an access outside its domain faults. *)
From Stdlib Require Import ZArith Lia.
From stdpp Require Import base list gmap strings.
From S2P Require Import Prelude.
Local Open Scope Z_scope.

Abbreviation memory := (gmap Z Z).

(** ** Probe reads and writes *)

(** [while (size--) { *dst_p = *src_p; dst_p++; src_p++; }]; [false] on a fault. *)
Fixpoint copy_loop (n : nat) (dst src : Z) (m : memory) : memory * bool :=
  match n with
  | O => (m, true)
  | S n' =>
      match m !! src, m !! dst with
      | Some b, Some _ => copy_loop n' (u64 (dst + 1)) (u64 (src + 1)) (<[dst := b]> m)
      | _, _ => (m, false)
      end
  end.

(** [check] is the build option ENABLE_PROBE_READ_CHECK (or ENABLE_PROBE_WRITE_CHECK):
    with it, the signal handler, once installed, ends the loop on a fault and the
    helper returns -EFAULT; without it the fault is fatal. *)
Definition bpftime_probe_read (check : bool) (dst size ptr : Z) : M memory Z :=
  if size <? 0 then mret (- EFAULT)
  else fun m e =>
    match copy_loop (Z.to_nat size) dst ptr m with
    | (m', true) => Ok 0 m' e
    | (m', false) => if check then Ok (- EFAULT) m' e else Ub "segmentation fault"
    end.

Definition bpftime_probe_write_user (check : bool) (dst src len : Z) : M memory Z :=
  bpftime_probe_read check dst len src.

(** ** Strings *)

(** [strncpy] from a source given byte by byte: up to the first zero byte, then
    zeros up to [n] bytes; [None] on a fault. *)
Fixpoint strncpy_loop (n : nat) (i : nat) (ended : bool) (rd : nat -> option Z) (dst : Z) (m : memory)
    : option memory :=
  match n with
  | O => Some m
  | S n' =>
      b ← (if ended then Some 0 else rd i);
      _ ← m !! dst;
      strncpy_loop n' (S i) (ended || (b =? 0)) rd (u64 (dst + 1)) (<[dst := b]> m)
  end.
Definition strncpy (dst : Z) (rd : nat -> option Z) (n : Z) (m : memory) : option memory :=
  strncpy_loop (Z.to_nat n) 0 false rd dst m.

Definition bpf_probe_read_str (buf bufsz ptr : Z) : M memory Z := fun m e =>
  match strncpy buf (fun i => m !! u64 (ptr + Z.of_nat i)) bufsz m with
  | Some m' => Ok 0 m' e
  | None => Ub "segmentation fault"
  end.

(** [memset(buf, 0, sz)] and [return sz]. *)
Fixpoint memset_zero (n : nat) (dst : Z) (m : memory) : option memory :=
  match n with
  | O => Some m
  | S n' => _ ← m !! dst; memset_zero n' (u64 (dst + 1)) (<[dst := 0]> m)
  end.
Definition bpf_get_stack (buf sz : Z) : M memory Z := fun m e =>
  match memset_zero (Z.to_nat sz) buf m with
  | Some m' => Ok sz m' e
  | None => Ub "segmentation fault"
  end.

(** The path up to its first zero byte, and the part behind the last slash. *)
Fixpoint c_string (bs : bytes) : bytes :=
  match bs with [] => [] | b :: bs' => if b =? 0 then [] else b :: c_string bs' end.
Fixpoint after_last_slash (cur bs : bytes) : bytes :=
  match bs with
  | [] => cur
  | b :: bs' => if b =? 47 then after_last_slash [] bs' else after_last_slash (cur ++ [b]) bs'
  end.
Definition basename (path : bytes) : bytes := after_last_slash [] path.

(** The state is the static [filename_buf]; [exe] is what readlink("/proc/self/exe")
    gives, at most PATH_MAX - 1 bytes, or [None] for an error. *)
Definition bpftime_get_current_comm (exe : option bytes) (buf size : Z) : M (bytes * memory) Z := fun s e =>
  let run name m := match strncpy buf (fun i => Some (default 0 (name !! i))) size m with
    | Some m' => Ok 0 (name, m') e
    | None => Ub "segmentation fault"
    end in
  match s.1 with
  | [] => match exe with
          | None => Ok 1 s e
          | Some path => run (basename (c_string path)) s.2
          end
  | name => run name s.2
  end.

(** ** The checksum difference *)

(** The [i]-th 16-bit word of a buffer. *)
Definition word16 (bs : bytes) (i : nat) : option Z := le_decode <$> read_range (2 * i) 2 bs.

(** [csum_diff += w] on a signed 32-bit integer; overflow is undefined. *)
Fixpoint csum_loop (f : Z -> Z) (bs : bytes) (n i : nat) (csum : Z) : option Z :=
  match n with
  | O => Some csum
  | S n' =>
      w ← word16 bs i;
      if 2 ^ 31 <=? csum + f w then None else csum_loop f bs n' (S i) (csum + f w)
  end.

(** [(uint16_t)~w]. *)
Definition not16 (w : Z) : Z := 65535 - w.

Definition bpftime_csum_diff (from : ptr) (from_size : Z) (to : ptr) (to_size : Z) (seed : Z) : option Z :=
  if negb (Z.rem from_size 4 =? 0) || negb (Z.rem to_size 4 =? 0) then Some (- EINVAL)
  else
    c ← match to with
        | Some bs => csum_loop (fun w => w) bs (Z.to_nat (Z.quot to_size 2)) 0 seed
        | None => Some seed
        end;
    c ← match from with
        | Some bs => csum_loop not16 bs (Z.to_nat (Z.quot from_size 2)) 0 c
        | None => Some c
        end;
    Some (if c <? 0 then - EINVAL else c).

(** ** XDP packets *)

Record xdp_md_userspace := mk_xdp {
  xdp_data : Z;
  xdp_data_end : Z;
  xdp_buffer_start : Z;
  xdp_buffer_end : Z
}.
Definition ETH_HLEN := 14.

(** The bytes of a range, if it is mapped, and a range written at once. *)
Definition load_range (m : memory) (a : Z) (n : nat) : option bytes :=
  mapM (fun i => m !! u64 (a + Z.of_nat i)) (seq 0 n).
Fixpoint store_range (m : memory) (a : Z) (bs : bytes) : option memory :=
  match bs with
  | [] => Some m
  | b :: bs' => _ ← m !! a; store_range (<[a := b]> m) (u64 (a + 1)) bs'
  end.
(** [memmove] (and [memcpy] of ranges that do not overlap). *)
Definition memmove (dst src : Z) (n : nat) (m : memory) : option memory :=
  bs ← load_range m src n; store_range m dst bs.

Definition bpftime_xdp_adjust_head (offset : Z) : M (xdp_md_userspace * memory) Z := fun s e =>
  let x := s.1 in
  let data := u64 (xdp_data x + offset) in
  if (u64 (xdp_data_end x - ETH_HLEN) <? data) || (xdp_buffer_end x <? data) then Ok (- EINVAL) s e
  else if data <? xdp_buffer_start x then
    match memmove (u64 (xdp_buffer_start x + u64 (xdp_buffer_start x - data))) (xdp_data x)
            (Z.to_nat (u64 (xdp_data_end x - xdp_data x))) s.2 with
    | Some m' => Ok 0 (mk_xdp (xdp_buffer_start x) (xdp_data_end x) (xdp_buffer_start x) (xdp_buffer_end x), m') e
    | None => Ub "memmove outside the buffer"
    end
  else Ok 0 (mk_xdp data (xdp_data_end x) (xdp_buffer_start x) (xdp_buffer_end x), s.2) e.

Definition bpftime_xdp_adjust_tail (delta : Z) : M (xdp_md_userspace * memory) Z := fun s e =>
  let x := s.1 in
  let data := u64 (xdp_data_end x + delta) in
  if (data <? xdp_data x) || (data <? xdp_buffer_start x) || (xdp_buffer_end x <? data) then Ok (- EINVAL) s e
  else Ok 0 (mk_xdp (xdp_data x) data (xdp_buffer_start x) (xdp_buffer_end x), s.2) e.

Definition bpftime_xdp_load_bytes (offset buf len : Z) : M (xdp_md_userspace * memory) Z := fun s e =>
  let x := s.1 in
  let data := u64 (xdp_data x + offset) in
  if xdp_data_end x <? u64 (data + len) then Ok (- EINVAL) s e
  else match memmove buf data (Z.to_nat len) s.2 with
       | Some m' => Ok 0 (x, m') e
       | None => Ub "segmentation fault"
       end.

(** ** Theorems *)

Lemma copy_loop_run n dst src m :
  0 <= dst -> 0 <= src -> dst + Z.of_nat n < 2 ^ 64 -> src + Z.of_nat n < 2 ^ 64 ->
  dst <= src \/ src + Z.of_nat n <= dst ->
  exists j m', (j <= n)%nat /\ copy_loop n dst src m = (m', (j =? n)%nat) /\
    (forall i, (i < j)%nat -> m' !! (dst + Z.of_nat i) = m !! (src + Z.of_nat i)) /\
    (forall a, a < dst \/ dst + Z.of_nat j <= a -> m' !! a = m !! a) /\
    (j = n \/ m !! (src + Z.of_nat j) = None \/ m !! (dst + Z.of_nat j) = None).
Proof.
  revert dst src m. induction n as [|n IH]; intros dst src m Hd Hs Hdn Hsn Hover.
  { exists 0%nat, m. split_and!; [done|done|lia|done|by left]. }
  cbn [copy_loop]. destruct (m !! src) as [b|] eqn:Hb; [destruct (m !! dst) as [b0|] eqn:Hb0|].
  2: { exists 0%nat, m. split_and!; [lia|done|lia|done|]. rewrite !Z.add_0_r. auto. }
  2: { exists 0%nat, m. split_and!; [lia|done|lia|done|]. rewrite !Z.add_0_r. auto. }
  rewrite !wrap_small by lia. rewrite Nat2Z.inj_succ in *.
  destruct (IH (dst + 1) (src + 1) (<[dst := b]> m)) as (j & m' & Hj & Hrun & Hcopy & Hother & Hend); [lia..|].
  exists (S j), m'. split_and!; [lia|done| | |].
  - intros i Hi. destruct i as [|i].
    + rewrite !Z.add_0_r, Hother, lookup_insert_eq by lia. done.
    + rewrite Nat2Z.inj_succ. replace (dst + Z.succ (Z.of_nat i)) with (dst + 1 + Z.of_nat i) by lia.
      replace (src + Z.succ (Z.of_nat i)) with (src + 1 + Z.of_nat i) by lia.
      rewrite Hcopy by lia. by rewrite lookup_insert_ne by lia.
  - intros a Ha. rewrite Hother, lookup_insert_ne by lia. done.
  - rewrite !Nat2Z.inj_succ. replace (src + Z.succ (Z.of_nat j)) with (src + 1 + Z.of_nat j) by lia.
    replace (dst + Z.succ (Z.of_nat j)) with (dst + 1 + Z.of_nat j) by lia.
    destruct (decide (j = n)) as [->|]; [by left|right]. destruct Hend as [?|Hend]; [done|].
    by rewrite !lookup_insert_ne in Hend by lia.
Qed.

(** A checked probe read always returns. It copies the bytes in order up to the first
    one that cannot be read or written, returns 0 when it copied all of them and
    -EFAULT otherwise (also for a negative size, then without copying), and changes
    no byte outside the part of the destination it filled. *)
Theorem probe_read_copies dst size src m e :
  0 <= dst -> 0 <= src -> dst + size < 2 ^ 64 -> src + size < 2 ^ 64 ->
  dst <= src \/ src + size <= dst ->
  exists r m', bpftime_probe_read true dst size src m e = Ok r m' e /\
    (size < 0 -> r = - EFAULT /\ m' = m) /\
    (0 <= size -> exists j, 0 <= j <= size /\
      (forall i, 0 <= i < j -> m' !! (dst + i) = m !! (src + i)) /\
      (forall a, a < dst \/ dst + j <= a -> m' !! a = m !! a) /\
      r = (if j =? size then 0 else - EFAULT) /\
      (j < size -> m !! (src + j) = None \/ m !! (dst + j) = None)).
Proof.
  intros Hd Hs Hdn Hsn Hover. unfold bpftime_probe_read. destruct (Z.ltb_spec size 0) as [Hneg|Hpos].
  { exists (- EFAULT), m. split_and!; [done|done|lia]. }
  destruct (copy_loop_run (Z.to_nat size) dst src m) as (j & m' & Hj & Hrun & Hcopy & Hother & Hend); [lia..|].
  rewrite Hrun. exists (if Z.of_nat j =? size then 0 else - EFAULT), m'. split_and!; [|lia|].
  - destruct (Nat.eqb_spec j (Z.to_nat size)), (Z.eqb_spec (Z.of_nat j) size); (done || lia).
  - intros _. exists (Z.of_nat j). split_and!; [lia|lia| |done|done|].
    + intros i Hi. specialize (Hcopy (Z.to_nat i) ltac:(lia)). by rewrite Z2Nat.id in Hcopy by lia.
    + intros Hlt. destruct Hend as [->|?]; [lia|done].
Qed.

Definition sample_memory : memory := list_to_map (zip (seqZ 100 8) [104; 105; 0; 1; 2; 3; 4; 5]).

Lemma probe_read_copies_witness :
  exists r m', bpftime_probe_read true 104 3 100 sample_memory 0 = Ok r m' 0 /\
    (0 <= 3 -> exists j, 0 <= j <= 3 /\
      (forall i, 0 <= i < j -> m' !! (104 + i) = sample_memory !! (100 + i)) /\
      r = (if j =? 3 then 0 else - EFAULT)).
Proof.
  destruct (probe_read_copies 104 3 100 sample_memory 0) as (r & m' & H1 & _ & H3); [lia..|].
  exists r, m'. split; [exact H1|]. intros Hz. destruct (H3 Hz) as (j & Hj & Hc & _ & Hr & _).
  exists j. split; [exact Hj|]. split; [exact Hc|exact Hr].
Defined.

(** *** Checksums *)

Fixpoint words_from (bs : bytes) (i n : nat) : list Z :=
  match n with
  | O => []
  | S n' => default 0 (word16 bs i) :: words_from bs (S i) n'
  end.
Definition words16 (bs : bytes) (n : nat) : list Z := words_from bs 0 n.

Lemma word16_range bs i w : Forall is_byte bs -> word16 bs i = Some w -> 0 <= w < 65536.
Proof.
  unfold word16. intros Hb. destruct (read_range (2 * i) 2 bs) as [x|] eqn:Hr; [|done]. intros [= <-].
  pose proof (read_range_length _ _ _ _ Hr) as Hl. pose proof (read_range_bytes _ _ _ _ Hr Hb) as Hx.
  pose proof (le_decode_range x Hx). rewrite Hl in *. simpl in *. lia.
Qed.

Definition sum_with (f : Z -> Z) (ws : list Z) : Z := foldr (fun w n => f w + n) 0 ws.

Lemma csum_loop_run f bs n i csum :
  (forall w, 0 <= w < 65536 -> 0 <= f w) -> Forall is_byte bs -> (2 * (i + n) <= length bs)%nat ->
  0 <= sum_with f (words_from bs i n) /\
  (csum + sum_with f (words_from bs i n) < 2 ^ 31 ->
    csum_loop f bs n i csum = Some (csum + sum_with f (words_from bs i n))).
Proof.
  intros Hf Hb. revert i csum. induction n as [|n IH]; intros i csum Hlen; cbn [words_from csum_loop].
  { split; [done|]. intros _. f_equal. simpl. lia. }
  destruct (word16 bs i) as [w|] eqn:Hw; simpl.
  2: { unfold word16 in Hw. rewrite read_range_Some in Hw by lia. done. }
  specialize (Hf w (word16_range bs i w Hb Hw)) as Hfw. fold (sum_with f (words_from bs (S i) n)).
  destruct (IH (S i) (csum + f w)) as [Hpos Hrun]; [lia|]. split; [lia|]. intros Hsum.
  destruct (Z.leb_spec (2 ^ 31) (csum + f w)); [lia|]. rewrite Hrun by lia. f_equal. lia.
Qed.

Lemma sum_not16 ws : sum_with not16 ws = 65535 * Z.of_nat (length ws) - sum_with (fun w => w) ws.
Proof. unfold sum_with, not16. induction ws as [|w ws IH]; [done|]. simpl foldr. simpl length. lia. Qed.

(** [bpf_csum_diff] with buffers whose sizes are multiples of four and a seed that do
    not overflow: the result is the plain sum, and modulo 65535, the arithmetic of
    the Internet checksum, it is the seed with the words of [from] taken out and
    those of [to] put in. A size that is not a multiple of four gives -EINVAL. *)
Theorem csum_diff_incremental from to seed nf nt :
  Forall is_byte from -> Forall is_byte to ->
  length from = (4 * nf)%nat -> length to = (4 * nt)%nat -> 0 <= seed ->
  seed + sum_with (fun w => w) (words16 to (2 * nt)) + sum_with not16 (words16 from (2 * nf)) < 2 ^ 31 ->
  exists c,
    bpftime_csum_diff (Some from) (Z.of_nat (length from)) (Some to) (Z.of_nat (length to)) seed = Some c /\
    c = seed + sum_with (fun w => w) (words16 to (2 * nt)) + sum_with not16 (words16 from (2 * nf)) /\
    (c + sum_with (fun w => w) (words16 from (2 * nf))) mod 65535 =
      (seed + sum_with (fun w => w) (words16 to (2 * nt))) mod 65535 /\
    (forall size size', Z.rem size 4 <> 0 -> bpftime_csum_diff (Some from) size (Some to) size' seed = Some (- EINVAL)).
Proof.
  intros Hbf Hbt Hlf Hlt Hseed Hsum. unfold words16 in *.
  destruct (csum_loop_run (fun w => w) to (2 * nt) 0 seed) as [Hpos Hto]; [lia|done|lia|].
  destruct (csum_loop_run not16 from (2 * nf) 0 (seed + sum_with (fun w => w) (words_from to 0 (2 * nt))))
    as [Hnn Hfrom]; [unfold not16; lia|done|lia|]. specialize (Hto ltac:(lia)). specialize (Hfrom Hsum).
  eexists. split_and!; [|done| |].
  - unfold bpftime_csum_diff. rewrite Hlf, Hlt.
    replace (Z.of_nat (4 * nf)) with (Z.of_nat (2 * nf) * 2) by lia. replace (Z.of_nat (4 * nt)) with (Z.of_nat (2 * nt) * 2) by lia.
    rewrite !(Z.rem_mod_nonneg (Z.of_nat _ * 2)), !Z.quot_mul, !Nat2Z.id, Hto by lia.
    cbn [mbind option_bind]. rewrite Hfrom. cbn [mbind option_bind].
    replace (Z.of_nat (2 * nf) * 2) with (Z.of_nat nf * 4) by lia.
    replace (Z.of_nat (2 * nt) * 2) with (Z.of_nat nt * 4) by lia. rewrite !Z_mod_mult. simpl negb.
    cbn [orb]. rewrite (proj2 (Z.ltb_ge _ _)) by lia. done.
  - rewrite sum_not16.
    match goal with |- (?a + (65535 * ?k - ?b) + ?b) mod _ = _ => replace (a + (65535 * k - b) + b) with (a + k * 65535) by lia end.
    apply Z_mod_plus_full.
  - intros size size' Hsize. unfold bpftime_csum_diff. by rewrite (proj2 (Z.eqb_neq _ _) Hsize).
Qed.

Lemma csum_diff_incremental_witness :
  exists c, bpftime_csum_diff (Some [1; 2; 3; 4]) 4 (Some [5; 6; 7; 8]) 4 9 = Some c /\
    (c + sum_with (fun w => w) (words16 [1; 2; 3; 4] 2)) mod 65535 =
      (9 + sum_with (fun w => w) (words16 [5; 6; 7; 8] 2)) mod 65535.
Proof.
  destruct (csum_diff_incremental [1; 2; 3; 4] [5; 6; 7; 8] 9 1 1) as (c & H1 & _ & H3 & _).
  - repeat constructor; lia.
  - repeat constructor; lia.
  - reflexivity.
  - reflexivity.
  - lia.
  - vm_compute. reflexivity.
  - exists c. split; [exact H1|exact H3].
Defined.

(** *** Packets *)

(** A packet inside its buffer, long enough for an Ethernet header, at addresses a
    32-bit displacement cannot wrap. *)
Definition xdp_wf (x : xdp_md_userspace) : Prop :=
  2 ^ 32 <= xdp_buffer_start x /\ xdp_buffer_start x <= xdp_data x /\
  xdp_data x <= xdp_data_end x /\ xdp_data_end x <= xdp_buffer_end x /\ xdp_buffer_end x < 2 ^ 64 - 2 ^ 32.

(** Moving the head or the tail of a packet inside its buffer: -EINVAL and no change
    when the header would be cut off, the tail would pass the data or the new bound
    leaves the buffer; otherwise the bound moves by exactly the displacement, the
    packet stays well formed and no byte changes. *)
Theorem xdp_adjust_keeps_packet x m e d :
  xdp_wf x -> - 2 ^ 31 <= d < 2 ^ 31 -> xdp_data_end x - xdp_data x >= ETH_HLEN ->
  (xdp_buffer_start x <= xdp_data x + d ->
    bpftime_xdp_adjust_head d (x, m) e =
      (if xdp_data_end x - ETH_HLEN <? xdp_data x + d then Ok (- EINVAL) (x, m) e
       else Ok 0 (mk_xdp (xdp_data x + d) (xdp_data_end x) (xdp_buffer_start x) (xdp_buffer_end x), m) e)) /\
  bpftime_xdp_adjust_tail d (x, m) e =
    (if (xdp_data x <=? xdp_data_end x + d) && (xdp_data_end x + d <=? xdp_buffer_end x)
     then Ok 0 (mk_xdp (xdp_data x) (xdp_data_end x + d) (xdp_buffer_start x) (xdp_buffer_end x), m) e
     else Ok (- EINVAL) (x, m) e) /\
  (forall r x' m', bpftime_xdp_adjust_tail d (x, m) e = Ok r (x', m') e -> xdp_wf x') /\
  (xdp_buffer_start x <= xdp_data x + d ->
    forall r x' m', bpftime_xdp_adjust_head d (x, m) e = Ok r (x', m') e -> xdp_wf x').
Proof.
  intros Hwf Hd Hlen. pose proof Hwf as (W1 & W2 & W3 & W4 & W5). unfold ETH_HLEN in *.
  assert (xdp_buffer_start x <= xdp_data x + d ->
    bpftime_xdp_adjust_head d (x, m) e =
      (if xdp_data_end x - 14 <? xdp_data x + d then Ok (- EINVAL) (x, m) e
       else Ok 0 (mk_xdp (xdp_data x + d) (xdp_data_end x) (xdp_buffer_start x) (xdp_buffer_end x), m) e)) as Hhead.
  { intros Hin. unfold bpftime_xdp_adjust_head, ETH_HLEN. simpl. rewrite !wrap_small by lia.
    destruct (Z.ltb_spec (xdp_data_end x - 14) (xdp_data x + d)); simpl; [done|].
    rewrite (proj2 (Z.ltb_ge _ _)), (proj2 (Z.ltb_ge _ _)) by lia. done. }
  assert (bpftime_xdp_adjust_tail d (x, m) e =
    (if (xdp_data x <=? xdp_data_end x + d) && (xdp_data_end x + d <=? xdp_buffer_end x)
     then Ok 0 (mk_xdp (xdp_data x) (xdp_data_end x + d) (xdp_buffer_start x) (xdp_buffer_end x), m) e
     else Ok (- EINVAL) (x, m) e)) as Htail.
  { unfold bpftime_xdp_adjust_tail. simpl. rewrite wrap_small by lia.
    destruct (Z.ltb_spec (xdp_data_end x + d) (xdp_data x)), (Z.leb_spec (xdp_data x) (xdp_data_end x + d)); try lia; simpl; [done|].
    rewrite (proj2 (Z.ltb_ge (xdp_data_end x + d) (xdp_buffer_start x))) by lia. simpl.
    destruct (Z.ltb_spec (xdp_buffer_end x) (xdp_data_end x + d)), (Z.leb_spec (xdp_data_end x + d) (xdp_buffer_end x)); lia || done. }
  split_and!; [done|done| |].
  - intros r x' m'. rewrite Htail. destruct (_ && _) eqn:Hb; intros [= <- <- <-]; [|done]. zify_bool.
    unfold xdp_wf. simpl. lia.
  - intros Hin r x' m'. rewrite Hhead by done. destruct (Z.ltb_spec (xdp_data_end x - 14) (xdp_data x + d)); intros [= <- <- <-]; [done|].
    unfold xdp_wf. simpl. lia.
Qed.

Definition sample_packet : xdp_md_userspace := mk_xdp (2 ^ 32 + 64) (2 ^ 32 + 128) (2 ^ 32) (2 ^ 32 + 256).

Lemma xdp_adjust_keeps_packet_witness :
  bpftime_xdp_adjust_tail 8 (sample_packet, ∅) 0 =
    Ok 0 (mk_xdp (2 ^ 32 + 64) (2 ^ 32 + 136) (2 ^ 32) (2 ^ 32 + 256), ∅) 0.
Proof.
  destruct (xdp_adjust_keeps_packet sample_packet ∅ 0 8) as (_ & H & _).
  - unfold xdp_wf, sample_packet. simpl. lia.
  - lia.
  - unfold sample_packet, ETH_HLEN. simpl. lia.
  - exact H.
Defined.

(** Growing the head beyond the start of the buffer moves the packet but leaves
    [data_end] where it was: a packet of 16 bytes that grows by two loses its last
    two bytes. *)
Theorem adjust_head_loses_tail :
  let b := 2 ^ 32 in
  let m : memory := list_to_map (zip (seqZ b 20) (seqZ 0 20)) in
  match bpftime_xdp_adjust_head (-2) (mk_xdp b (b + 16) b (b + 20), m) 0 with
  | Ok r (x', m') _ => r = 0 /\ xdp_data x' = b /\ xdp_data_end x' = b + 16 /\
      load_range m' (b + 2) 16 = Some (seqZ 0 16) /\ load_range m' b (Z.to_nat (xdp_data_end x' - xdp_data x'))
        = Some ([0; 1] ++ seqZ 0 14)
  | _ => False
  end.
Proof. vm_compute. repeat split; reflexivity. Qed.

(** *** Strings *)

Lemma strncpy_loop_run n i s ended dst m :
  Forall (fun b => b <> 0) s -> 0 <= dst -> dst + Z.of_nat n < 2 ^ 64 ->
  (forall j, (j < n)%nat -> is_Some (m !! (dst + Z.of_nat j))) ->
  (ended = true -> (length s <= i)%nat) -> (i <= length s \/ ended = true)%nat ->
  exists m', strncpy_loop n i ended (fun j => Some (default 0 (s !! j))) dst m = Some m' /\
    (forall j, (j < n)%nat -> m' !! (dst + Z.of_nat j) = Some (default 0 (s !! (i + j)%nat))) /\
    (forall a, a < dst \/ dst + Z.of_nat n <= a -> m' !! a = m !! a).
Proof.
  intros Hs. revert i ended dst m. induction n as [|n IH]; intros i ended dst m Hd Hn Hmap He Hi; cbn [strncpy_loop].
  { exists m. split_and!; [done|lia|done]. }
  rewrite Nat2Z.inj_succ in Hn. destruct (Hmap 0%nat ltac:(lia)) as [b0 Hb0]. rewrite Z.add_0_r in Hb0.
  set (b := default 0 (s !! i)).
  assert ((if ended then Some 0 else Some b) = Some b) as ->.
  { destruct ended; [|done]. unfold b. by rewrite lookup_ge_None_2 by auto. }
  simpl. rewrite Hb0. simpl. rewrite wrap_small by lia.
  destruct (IH (S i) (ended || (b =? 0)) (dst + 1) (<[dst := b]> m)) as (m' & Hrun & Hcopy & Hother); [lia|lia| | | |].
  - intros j Hj. rewrite lookup_insert_ne by lia. replace (dst + 1 + Z.of_nat j) with (dst + Z.of_nat (S j)) by lia. apply Hmap. lia.
  - intros [->|Hz%Z.eqb_eq]%orb_true_iff; [specialize (He eq_refl); lia|]. unfold b in Hz.
    destruct (s !! i) as [c|] eqn:Hc; [|apply lookup_ge_None in Hc; lia]. simpl in Hz.
    by apply (Forall_lookup_1 _ _ _ _ Hs) in Hc.
  - destruct (decide (i < length s)%nat); [left; lia|right]. apply orb_true_iff. destruct Hi as [Hi| ->]; [right|by left].
    unfold b. by rewrite lookup_ge_None_2 by lia.
  - exists m'. split_and!; [done| |].
    + intros [|j] Hj.
      * rewrite Z.add_0_r, Hother, lookup_insert_eq, Nat.add_0_r by lia. done.
      * replace (dst + Z.of_nat (S j)) with (dst + 1 + Z.of_nat j) by lia. rewrite Hcopy by lia. do 3 f_equal. lia.
    + intros a Ha. rewrite Hother, lookup_insert_ne by lia. done.
Qed.

(** [bpf_get_current_comm] on a mapped buffer: on the first call the name of the
    executable behind the last slash, afterwards the remembered one; the buffer
    receives its first [size] bytes, padded with zeros, so it ends in a zero byte
    exactly when it is longer than the name. *)
Theorem get_current_comm_fills exe cache name buf size m e :
  name = match cache with [] => basename (c_string exe) | _ => cache end ->
  Forall (fun b => b <> 0) name -> 0 <= buf -> 0 <= size -> buf + size < 2 ^ 64 ->
  (forall j, 0 <= j < size -> is_Some (m !! (buf + j))) ->
  exists m', bpftime_get_current_comm (Some exe) buf size (cache, m) e = Ok 0 (name, m') e /\
    (forall j, 0 <= j < size -> m' !! (buf + j) = Some (default 0 (name !! Z.to_nat j))) /\
    (forall a, a < buf \/ buf + size <= a -> m' !! a = m !! a).
Proof.
  intros Hname Hnz Hb Hs Hbs Hmap.
  destruct (strncpy_loop_run (Z.to_nat size) 0 name false buf m) as (m' & Hrun & Hcopy & Hother); [done|lia|lia| |done|left; lia|].
  { intros j Hj. apply Hmap. lia. }
  exists m'. split_and!.
  - unfold bpftime_get_current_comm, strncpy. simpl. destruct cache; subst name; by rewrite Hrun.
  - intros j Hj. specialize (Hcopy (Z.to_nat j) ltac:(lia)). rewrite Z2Nat.id in Hcopy by lia. done.
  - intros a Ha. apply Hother. lia.
Qed.

Lemma get_current_comm_fills_witness :
  exists m', bpftime_get_current_comm (Some [47; 97; 47; 98; 99]) 100 4 ([], sample_memory) 0 =
    Ok 0 ([98; 99], m') 0 /\ m' !! (100 + 2) = Some 0.
Proof.
  destruct (get_current_comm_fills [47; 97; 47; 98; 99] [] [98; 99] 100 4 sample_memory 0) as (m' & H1 & H2 & _).
  - reflexivity.
  - repeat constructor; discriminate.
  - lia.
  - lia.
  - lia.
  - intros j Hj. assert (j = 0 \/ j = 1 \/ j = 2 \/ j = 3) as [->|[->|[->| ->]]] by lia; vm_compute; eauto.
  - exists m'. split; [exact H1|]. apply (H2 2). lia.
Defined.
