(* ===== verification/Helpers.v ===== *)
(** The helpers of src/bpf_helper.cpp that act on the shared memory: the map helpers,
    the ring buffer helpers, perf event output, tail calls, the attach cookie and
    the process and processor ids. *)
From Stdlib Require Import ZArith Lia.
From stdpp Require Import base list gmap strings.
From S2P Require Import Prelude MapCommon ArrayMap FdArrays Ringbuf KernelUser MapHandler PerfEvent.
From S2P Require Import HandlerManager Shm.
Local Open Scope Z_scope.

(** [int fd = map >> 32]: the descriptor in the upper half of a map pointer. *)
Definition map_fd (map : Z) : Z := s32 (Z.shiftr map 32).

(** ** Ids of the process and of the processor *)

(** [((uint64_t)tgid << 32) | tid], both of type [int]. *)
Definition bpftime_get_current_pid_tgid (tgid tid : Z) : Z :=
  Z.lor (u64 (Z.shiftl (u64 tgid) 32)) (u64 tid).

(** [(((uint64_t)gid) << 32) | gid], with [static int gid = getgid()]. *)
Definition bpf_get_current_uid_gid (gid : Z) : Z :=
  let gid := s32 gid in Z.lor (u64 (Z.shiftl (u64 gid) 32)) (u64 gid).

Definition bpftime_get_smp_processor_id (cpu : Z) : Z := if cpu =? -1 then 0 else u64 cpu.

(** [tv_sec * 1000000000 + tv_nsec] of the coarse clock. *)
Definition bpftime_ktime_get_coarse_ns (tv_sec tv_nsec : Z) : Z := u64 (u64 tv_sec * 1000000000 + tv_nsec).

(** [(uint32_t)rand()] *)
Definition bpftime_get_prandom_u32 (rand : Z) : Z := u32 rand.

(** [strncmp] on two strings given as their bytes: the difference of the first bytes
    that differ within [s1_sz], 0 when there is none. *)
Fixpoint strncmp (n : nat) (s1 s2 : bytes) : option Z :=
  match n with
  | O => Some 0
  | S n' =>
      match s1, s2 with
      | a :: s1', b :: s2' =>
          if negb (a =? b) then Some (a - b) else if a =? 0 then Some 0 else strncmp n' s1' s2'
      | _, _ => None
      end
  end.
Definition bpftime_strncmp (s1 : bytes) (s1_sz : Z) (s2 : bytes) : option Z :=
  strncmp (Z.to_nat s1_sz) s1 s2.

(** [current_thread_bpf_cookie], 0 when there is none. *)
Definition bpftime_get_attach_cookie (cookie : option Z) : Z := default 0 cookie.

Section helpers.
Context {K : Type} `{Runtime K, !Os K}.
Implicit Types (s : bpftime_shm K) (fd : Z).
Abbreviation SH := (M (bpftime_shm K)).

(** ** Maps *)

Definition bpftime_map_lookup_elem_helper (map : Z) (key : ptr) : SH vptr :=
  shm_map_lookup_elem (map_fd map) key false.
Definition bpftime_map_update_elem_helper (map : Z) (key value : ptr) (flags : Z) : SH Z :=
  r ← shm_map_update_elem (map_fd map) key value flags false; mret (u64 r).
Definition bpftime_map_delete_elem_helper (map : Z) (key : ptr) : SH Z :=
  r ← shm_delete_elem (map_fd map) key false; mret (u64 r).

(** ** Ring buffers *)

(** A store of the program through a pointer that [reserve] returned. *)
Definition ring_memcpy fd (off : nat) (bs : bytes) : SH unit := with_ringbuf fd tt (rb_store off bs).

(** [data] holds at least [size] bytes. *)
Definition bpf_ringbuf_output (rb : Z) (data : ptr) (size flags : Z) : SH Z :=
  let fd := map_fd rb in
  buf ← bpftime_ringbuf_reserve fd size;
  match buf with
  | VBuf off =>
      bs ← deref (Z.to_nat size) data;
      ring_memcpy fd off bs;;
      bpftime_ringbuf_submit fd off false;;
      mret 0
  | _ => mret (u64 (-1))
  end.

Definition bpf_ringbuf_reserve (rb size flags : Z) : SH vptr := bpftime_ringbuf_reserve (map_fd rb) size.

(** [ptr[-1]] of an [int32_t] pointer: the four bytes before offset [off] of the data region;
    before offset 0 lies the rest of the page of the producer position, which
    nothing writes. *)
Definition word_before (off : nat) : M ringbuf Z :=
  s ← get;
  if (off <? 4)%nat then mret 0
  else
    bs ← need "load outside the buffer" (read_range (off - 4) 4 (rb_data s));
    mret (s32 (le_decode bs)).

(** The sample is the address [off] in the ring of the object [p]. *)
Definition sample_fd (p off : nat) : SH Z :=
  in_manager (zoom hm_mem hm_set_mem (via ring_view p (word_before off))).

Definition ringbuf_finish (discard : bool) (p off : nat) : SH Z :=
  fd ← sample_fd p off;
  bpftime_ringbuf_submit fd off discard;;
  mret 0.
Definition bpf_ringbuf_submit (p off : nat) (flags : Z) : SH Z := ringbuf_finish false p off.
Definition bpf_ringbuf_discard (p off : nat) (flags : Z) : SH Z := ringbuf_finish true p off.

(** ** Perf event output *)

(** The shared memory and the set of processors the thread may run on. *)
Record thread_env := mk_env { te_shm : bpftime_shm K; te_affinity : gset Z }.
Abbreviation TE := (M thread_env).
Definition te_on_shm {A} (c : SH A) : TE A := zoom te_shm (fun s t => mk_env s (te_affinity t)) c.

(** [sched_setaffinity], which the kernel may refuse. *)
Definition sched_setaffinity (allowed : gset Z -> bool) (mask : gset Z) : TE Z :=
  if allowed mask then modify (fun t => mk_env (te_shm t) mask);; mret 0 else mret (-1).

(** [*val_ptr], the pointer being into the vector of the perf event array. *)
Definition perf_slot fd (v : vptr) : SH Z :=
  s ← get;
  h ← need "bad variant access" (map_at fd s);
  p ← need "null map_impl_ptr" (mh_impl_ptr h);
  match v with
  | VBuf off => in_manager (zoom hm_mem hm_set_mem (via perf_array_view p
      (s ← get; need "index outside data" (ia_data s !! (off / 4)%nat))))
  | _ => ub "pointer outside the vector"
  end.

Definition bpf_perf_event_output (allowed : gset Z -> bool) (current_cpu map : Z) (data : ptr) (size : Z)
    : TE Z :=
  if current_cpu =? -1 then mret (u64 (-1))
  else
    orig ← gets te_affinity;
    r ← sched_setaffinity allowed {[current_cpu]};
    if r <? 0 then fail_with EINVAL (u64 (-1))
    else
      let fd := map_fd map in
      info ← te_on_shm (bpftime_map_get_info fd false false true);
      if info.1 <? 0 then mret (u64 (-1))
      else
        map_ty ← need "uninitialized" info.2.2;
        ret ←
          (if bool_decide (map_type_of map_ty = BPF_MAP_TYPE_PERF_EVENT_ARRAY) then
             val_ptr ← te_on_shm (shm_map_lookup_elem fd (Some (le_encode 4 (u32 current_cpu))) false);
             match val_ptr with
             | VNull => fail_with EINVAL None
             | _ =>
                 perf_handler_fd ← te_on_shm (perf_slot fd val_ptr);
                 r ← te_on_shm (bpftime_perf_event_output perf_handler_fd data size); mret (Some r)
             end
           else if bool_decide (map_type_of map_ty = BPF_MAP_TYPE_KERNEL_USER_PERF_EVENT_ARRAY) then
             r ← te_on_shm (bpftime_shared_perf_event_output fd data size); mret (Some r)
           else mret (Some (-1)));
        match ret with
        | None => mret (u64 (-1))
        | Some ret => sched_setaffinity allowed orig;; mret (u64 ret)
        end.

(** ** Tail calls

    libbpf's [bpf_prog_test_run_opts] is an error or the program's return value; the
    second component of the result is what the helper closes. *)
Definition bpftime_tail_call (test_run : Z -> bytes -> Z + Z) (ctx : ptr) (prog_array index : Z)
    : SH (Z * list Z) :=
  let fd := map_fd prog_array in
  s ← get;
  if negb (is_prog_array_map_fd fd s) then mret (u64 (-1), [])
  else
    to_call ← bpftime_map_lookup_elem fd (Some (le_encode 4 (u32 index)));
    match to_call with
    | VNull => mret (u64 (-1), [])
    | VThread v =>
        let to_call_fd := s32 v in
        context ← match ctx with Some _ => deref 64 ctx | None => mret (zeros 64) end;
        match test_run to_call_fd context with
        | inl _ => mret (u64 (-1), [to_call_fd])
        | inr retval => mret (u32 retval, [to_call_fd])
        end
    | _ => ub "pointer of another map"
    end.

(** ** The ring buffer behind a descriptor *)

Record ring_at fd s (p : nat) (b : ringbuf) : Prop := {
  ra_handler : exists h, map_at fd s = Some h /\ map_type h = BPF_MAP_TYPE_RINGBUF /\ mh_impl_ptr h = Some p;
  ra_ring : v_load ring_view p (hm_mem (sh_manager s)) = Some b
}.

(** The shared memory with another ring in its place. *)
Definition put_ring (p : nat) (b : ringbuf) s : bpftime_shm K :=
  sh_set_manager (hm_set_mem (v_store ring_view p b (hm_mem (sh_manager s))) (sh_manager s)) s.

Lemma ring_at_put fd s p b b' : ring_at fd s p b -> ring_at fd (put_ring p b' s) p b'.
Proof.
  intros [(h & Hm & Ht & Hp) Hr]. split.
  - exists h. split_and!; try done.
  - destruct (@ring_view_lawful K) as (_ & Hl & _). by eapply Hl.
Qed.

Lemma ring_not_null fd s p b : ring_at fd s p b -> sh_null s = false.
Proof.
  intros [(h & Hm & _) _]. unfold map_at in Hm. destruct (handler_at fd s) as [v|] eqn:Hh; [|done].
  by apply handler_at_Some in Hh as [].
Qed.

Lemma via_ring_run {A} fd s p b (c : M ringbuf A) e a b' e' :
  ring_at fd s p b -> c b e = Ok a b' e' ->
  in_manager (zoom hm_mem hm_set_mem (via ring_view p c)) s e = Ok a (put_ring p b' s) e'.
Proof.
  intros Hr Hc. rewrite in_manager_run by (by eapply ring_not_null).
  unfold zoom, via. by rewrite (ra_ring _ _ _ _ Hr), Hc.
Qed.

Lemma with_ringbuf_run {A} fd s p b none (c : M ringbuf A) e a b' e' :
  ring_at fd s p b -> c b e = Ok a b' e' ->
  with_ringbuf fd none c s e = Ok a (put_ring p b' s) e'.
Proof.
  intros Hr Hc. pose proof (ra_handler _ _ _ _ Hr) as (h & Hm & Ht & Hp).
  unfold with_ringbuf, is_ringbuf_map_fd, is_map_of_type. mbase.
  rewrite Hm, bool_decide_true by done. cbn [negb]. unfold need. mbase. rewrite Hp. mbase.
  by eapply via_ring_run.
Qed.

Lemma put_ring_same fd s p b : ring_at fd s p b -> put_ring p b s = s.
Proof.
  intros [_ Hr]. unfold put_ring. simpl in *. destruct (ring_of p _) as [r|] eqn:Ho; [|done]. simpl in Hr.
  destruct s as [n [hs [ix os rs nx w op] ev ne] sp al]. simpl in *.
  unfold sh_set_manager, hm_set_mem, sm_set_ring. simpl. by rewrite insert_id.
Qed.

(** The descriptor that [reserve] leaves in the second word of the header. *)
Definition owner_at (b : ringbuf) (off : nat) fd : Prop :=
  (4 <= off)%nat /\ read_range (off - 4) 4 (rb_data b) = Some (le_encode 4 (u32 fd)).

Lemma word_before_run b off fd e :
  owner_at b off fd -> - 2 ^ 31 <= fd < 2 ^ 31 -> word_before off b e = Ok fd b e.
Proof.
  intros [Ho Hr] Hfd. unfold word_before. mbase. rewrite (proj2 (Nat.ltb_ge _ _)) by lia.
  unfold need. rewrite Hr. mbase. rewrite le_decode_encode by (apply (wrap_range 32); lia).
  by rewrite s32_u32.
Qed.

(** A new record that does not start in the last eight bytes of the ring. *)
Definition fits_flat (b : ringbuf) : Prop := rb_producer_pos b mod rb_max_ent b <> rb_max_ent b - 8.

Lemma sample_offset b q : rb_rel b q -> fits_flat b ->
  (rb_producer_pos b + 8) mod rb_max_ent b = rb_producer_pos b mod rb_max_ent b + 8.
Proof.
  intros Hr Hf. pose proof (rb_max_bounds b q Hr) as [Hb Hb8].
  destruct (rb_pos_mod b q Hr _ (rb_prod_mod b q Hr)) as [Hlo H8]. unfold fits_flat in Hf.
  pose proof (Z.div_mod (rb_producer_pos b mod rb_max_ent b) 8).
  pose proof (Z.div_mod (rb_max_ent b) 8).
  rewrite Zplus_mod, (Z.mod_small 8) by lia. apply Z.mod_small. lia.
Qed.

Lemma reserve_owner b q size fd e off b' e' :
  rb_rel b q -> fits_flat b -> 0 <= rb_producer_pos b -> rb_producer_pos b + 8 < 2 ^ 64 ->
  rb_reserve size fd b e = Ok (VBuf off) b' e' -> owner_at b' off fd.
Proof.
  intros Hr Hf Hp Hu Hrun. pose proof (sample_offset b q Hr Hf) as Hoff.
  pose proof (rb_max_bounds b q Hr) as [Hb _].
  destruct (rb_pos_mod b q Hr _ (rb_prod_mod b q Hr)) as [Hlo _].
  unfold rb_reserve in Hrun. destruct (negb _); [done|]. revert Hrun. mbase. cbv zeta.
  destruct (_ <? _); [done|]. destruct (_ <? _); [done|].
  rewrite !(rb_mask_land b q Hr). unfold BPF_RINGBUF_HDR_SZ. rewrite (wrap_small 64 (_ + 8)) by lia. rewrite Hoff.
  unfold rb_store32. mbase. unfold need. mbase.
  destruct (write_range _ _ (rb_data b)) as [d1|] eqn:H1; [|done]. mbase.
  cbn [rb_data rb_set_data]. destruct (write_range _ _ d1) as [d2|] eqn:H2; [|done]. mbase.
  intros [= <- <- <-]. split; [lia|]. cbn [rb_data rb_set_data rb_set_producer].
  replace (Z.to_nat _ - 4)%nat with (Z.to_nat (rb_producer_pos b mod rb_max_ent b + 4)) by lia.
  by apply (read_write_len _ _ _ _ _ H2).
Qed.

(** At the edge of the ring, [reserve] writes the header and nothing behind it. *)
Lemma reserve_behind b q size fd e off b' e' n :
  rb_rel b q -> rb_producer_pos b mod rb_max_ent b = rb_max_ent b - 8 ->
  rb_reserve size fd b e = Ok (VBuf off) b' e' ->
  read_range (Z.to_nat (rb_max_ent b)) n (rb_data b') = read_range (Z.to_nat (rb_max_ent b)) n (rb_data b).
Proof.
  intros Hr Hf. pose proof (rb_max_bounds b q Hr) as [Hb _]. unfold rb_reserve. destruct (negb _); [done|]. mbase. cbv zeta.
  destruct (_ <? _); [by mbase|]. destruct (_ <? _); [by mbase|]. rewrite !(rb_mask_land b q Hr), Hf.
  unfold rb_store32. mbase. unfold need. mbase.
  destruct (write_range _ _ (rb_data b)) as [d1|] eqn:H1; [|done]. mbase.
  cbn [rb_data rb_set_data]. destruct (write_range _ _ d1) as [d2|] eqn:H2; [|done]. mbase.
  intros [= _ <- _]. cbn [rb_data rb_set_data rb_set_producer].
  rewrite (read_write_disjoint _ _ _ _ _ _ H2) by (rewrite length_le_encode; lia).
  apply (read_write_disjoint _ _ _ _ _ _ H1). rewrite length_le_encode. lia.
Qed.

(** Filling the record does not touch its header. *)
Lemma store_owner b off bs b' fd e e' :
  owner_at b off fd -> rb_store off bs b e = Ok tt b' e' -> owner_at b' off fd.
Proof.
  intros [Ho Hr]. unfold rb_store. mbase. unfold need.
  destruct (write_range off bs (rb_data b)) as [d|] eqn:Hw; [|done]. mbase. intros [= <- _].
  split; [done|]. cbn [rb_data rb_set_data]. rewrite <- Hr. apply (read_write_disjoint _ _ _ _ _ _ Hw). lia.
Qed.

(** ** Theorems *)

Section ring_helpers.
Variables (fd : Z) (s : bpftime_shm K) (p : nat) (b : ringbuf) (q : list rrec) (bs : bytes) (e : Z).
Hypothesis Hfd : 0 <= fd < 2 ^ 31.
Hypothesis Hat : ring_at fd s p b.
Hypothesis Hrel : rb_rel b q.
Hypothesis Hroom : rb_producer_pos b + rb_max_ent b < 2 ^ 64.
Abbreviation size := (Z.of_nat (length bs)).
Hypothesis Hsize : size < 2 ^ 63.

Lemma map_pointer : exists map, map_ptr_by_fd fd s e = Ok map s e /\ map_fd map = fd.
Proof using Hfd Hat.
  clear Hrel Hroom Hsize. destruct (ra_handler _ _ _ _ Hat) as (h & Hm & _).
  eexists. split; [|by apply map_ptr_shift]. unfold map_ptr_by_fd. mbase.
  rewrite s32_small by lia. unfold is_map_fd. unfold map_at in Hm.
  by destruct (handler_at fd s) as [[]|].
Qed.

(** What the consumer gets for a record that was filled with [bs]: these bytes, or, when its
    header occupies the last eight bytes of the ring, those that were behind the header. *)
Definition delivered (got : bytes) : Prop :=
  (fits_flat b -> got = bs) /\
  (~ fits_flat b -> read_range (Z.to_nat (rb_max_ent b)) (length bs) (rb_data b) = Some got).

(** [reserve] through the descriptor, then filling and submitting the record. *)
Lemma reserve_fill discard :
  match spec_reserve (rb_max_ent b) size q with
  | inl err => bpftime_ringbuf_reserve fd size s e = Ok VNull s err
  | inr _ => exists off b1 b2 b3 got,
      bpftime_ringbuf_reserve fd size s e = Ok (VBuf off) (put_ring p b1 s) e /\
      rb_store off bs b1 e = Ok tt b2 e /\ (fits_flat b -> owner_at b2 off fd) /\
      rb_submit off discard b2 e = Ok tt b3 e /\ delivered got /\
      rb_rel b3 (q ++ [mk_rrec size (if discard then RDiscard else RDone got)])
  end.
Proof using Hfd Hat Hrel Hroom Hsize.
  destruct (reserve_run b q size fd e Hrel ltac:(lia) Hroom) as (b1 & Hm1 & Hc1 & Hres).
  pose proof (rb_max_bounds b q Hrel) as [Hb _]. destruct (rr_cons _ _ Hrel) as [Hc0 _].
  pose proof (rb_qlen b q Hrel). pose proof (rr_prod _ _ Hrel) as Hprod.
  unfold spec_reserve in *. unfold bpftime_ringbuf_reserve.
  destruct (rb_max_ent b <? rec_total size); [|destruct (rb_max_ent b <? _)].
  1,2: destruct Hres as [_ Hres]; rewrite (with_ringbuf_run fd s p b _ _ _ _ _ _ Hat Hres);
    by rewrite (put_ring_same fd s p b Hat).
  destruct Hres as [Hr1 Hres].
  assert (rec_pos b1 q = rb_producer_pos b) as Hpos by (unfold rec_pos; lia).
  rewrite (with_ringbuf_run fd s p b _ _ _ _ _ _ Hat Hres).
  assert (rec_off b1 q = rb_producer_pos b mod rb_max_ent b) as Hoff by (unfold rec_off; congruence).
  destruct (decide (rb_producer_pos b mod rb_max_ent b = rb_max_ent b - 8)) as [Hedge|Hflat].
  - destruct (commit_edge_run b1 q [] size bs discard e Hr1 eq_refl) as (b2 & b3 & got & Hst & Hsub & Hgot & Hr3); [congruence|].
    rewrite Hpos, Hm1 in Hst, Hsub. exists (Z.to_nat ((rb_producer_pos b + 8) mod rb_max_ent b)), b1, b2, b3, got. split_and!; try done.
    split; [done|]. intros _. rewrite <- (reserve_behind _ _ _ _ _ _ _ _ _ Hrel Hedge Hres). congruence.
  - destruct (commit_run b1 q [] size bs discard e Hr1 eq_refl) as (b2 & b3 & Hst & Hsub & _ & Hr3); [congruence|].
    rewrite Hpos, Hm1 in Hst, Hsub. exists (Z.to_nat ((rb_producer_pos b + 8) mod rb_max_ent b)), b1, b2, b3, bs. split_and!; try done.
    intros _. eapply store_owner; [|exact Hst]. eapply reserve_owner; [exact Hrel|done|lia|lia|exact Hres].
Qed.

(** C34. [bpf_ringbuf_output] on the map pointer of a ring buffer: when there is no room
    it returns -1 with errno E2BIG or ENOSPC and nothing changes; otherwise it
    returns 0 and exactly one committed record of this size is appended to the queue.
    The record has these bytes, unless its header occupies the last eight bytes of the
    ring: then it has the bytes that were in the buffer behind the header, and these
    bytes are lost. The producer position must be more than a ring below 2^64. *)
Theorem ringbuf_output_refines data flags :
  points_to data bs ->
  exists map, map_ptr_by_fd fd s e = Ok map s e /\
    match spec_reserve (rb_max_ent b) size q with
    | inl err => bpf_ringbuf_output map data size flags s e = Ok (2 ^ 64 - 1) s err
    | inr _ => exists s' b' got, bpf_ringbuf_output map data size flags s e = Ok 0 s' e /\
        ring_at fd s' p b' /\ rb_rel b' (q ++ [mk_rrec size (RDone got)]) /\
        (fits_flat b -> got = bs) /\
        (~ fits_flat b -> read_range (Z.to_nat (rb_max_ent b)) (length bs) (rb_data b) = Some got)
    end.
Proof using Hfd Hat Hrel Hroom Hsize.
  intros Hdata. destruct map_pointer as (map & Hmap & Hfdm). exists map. split; [done|].
  pose proof (reserve_fill false) as Hrf. unfold bpf_ringbuf_output. rewrite Hfdm. mbase.
  destruct (spec_reserve _ _ _) as [err|q']; [by rewrite Hrf|].
  destruct Hrf as (off & b1 & b2 & b3 & got & -> & Hst & _ & Hsub & Hgot & Hr3).
  rewrite Nat2Z.id, deref_points_to by done. unfold ring_memcpy, bpftime_ringbuf_submit.
  rewrite (with_ringbuf_run fd (put_ring p b1 s) p b1 _ _ _ _ _ _ (ring_at_put _ _ _ _ _ Hat) Hst).
  rewrite (with_ringbuf_run fd _ p b2 _ _ _ _ _ _
    (ring_at_put _ _ _ _ _ (ring_at_put _ _ _ _ _ Hat)) Hsub).
  exists (put_ring p b3 (put_ring p b2 (put_ring p b1 s))), b3, got.
  split; [done|]. split; [by do 3 eapply ring_at_put|]. by split.
Qed.

(** Reserving, filling and then submitting (or discarding) through the sample's
    address alone: [bpf_ringbuf_submit] reads the descriptor from the header, finds
    the same ring, and the record becomes committed with these bytes (or
    discarded). *)
Theorem ringbuf_reserve_submit flags (discard : bool) :
  fits_flat b -> exists map, map_ptr_by_fd fd s e = Ok map s e /\
    match spec_reserve (rb_max_ent b) size q with
    | inl err => bpf_ringbuf_reserve map size flags s e = Ok VNull s err
    | inr _ => exists off s1 s2 s3 b',
        bpf_ringbuf_reserve map size flags s e = Ok (VBuf off) s1 e /\
        ring_memcpy fd off bs s1 e = Ok tt s2 e /\
        (if discard then bpf_ringbuf_discard p off flags else bpf_ringbuf_submit p off flags) s2 e = Ok 0 s3 e /\
        ring_at fd s3 p b' /\
        rb_rel b' (q ++ [mk_rrec size (if discard then RDiscard else RDone bs)])
    end.
Proof using Hfd Hat Hrel Hroom Hsize.
  intros Hflat. destruct map_pointer as (map & Hmap & Hfdm). exists map. split; [done|].
  pose proof (reserve_fill discard) as Hrf. unfold bpf_ringbuf_reserve. rewrite Hfdm.
  destruct (spec_reserve _ _ _) as [err|q']; [by rewrite Hrf|].
  destruct Hrf as (off & b1 & b2 & b3 & got & -> & Hst & Hown & Hsub & [Hgot _] & Hr3).
  rewrite Hgot in Hr3 by done. specialize (Hown Hflat).
  pose proof (ring_at_put _ _ _ _ b1 Hat) as Hat1. pose proof (ring_at_put _ _ _ _ b2 Hat1) as Hat2.
  exists off, (put_ring p b1 s), (put_ring p b2 (put_ring p b1 s)). do 2 eexists. split; [done|].
  split; [unfold ring_memcpy; by rewrite (with_ringbuf_run fd _ p b1 _ _ _ _ _ _ Hat1 Hst)|].
  assert (forall d : bool, (if d then bpf_ringbuf_discard p off flags else bpf_ringbuf_submit p off flags) =
    ringbuf_finish d p off) as -> by (by intros []).
  unfold ringbuf_finish. mbase. unfold sample_fd.
  rewrite (via_ring_run fd _ p b2 _ e fd b2 e Hat2) by (apply word_before_run; [done|lia]).
  rewrite (put_ring_same fd _ p b2 Hat2). unfold bpftime_ringbuf_submit.
  rewrite (with_ringbuf_run fd _ p b2 _ _ _ _ _ _ Hat2 Hsub).
  split; [done|]. split; [by eapply ring_at_put|done].
Qed.

End ring_helpers.

(** A record whose header occupies the last eight bytes of the ring starts at offset
    0 of the data region; the word before it is not its header. The helper reads
    descriptor 0 there, so that, unless descriptor 0 is a ring buffer,
    [bpf_ringbuf_submit] returns 0 and the record stays busy for ever. *)
Theorem edge_submit_lost fd s p b q size flags e :
  0 <= fd < 2 ^ 31 -> ring_at fd s p b -> rb_rel b q -> 0 <= size < 2 ^ 63 ->
  rb_producer_pos b + rb_max_ent b < 2 ^ 64 -> is_ringbuf_map_fd 0 s = false ->
  rb_producer_pos b mod rb_max_ent b = rb_max_ent b - 8 ->
  (exists q', spec_reserve (rb_max_ent b) size q = inr q') ->
  exists map s1 b1, map_ptr_by_fd fd s e = Ok map s e /\
    bpf_ringbuf_reserve map size flags s e = Ok (VBuf 0) s1 e /\
    bpf_ringbuf_submit p 0 flags s1 e = Ok 0 s1 EINVAL /\
    ring_at fd s1 p b1 /\ rb_rel b1 (q ++ [mk_rrec size RBusy]).
Proof.
  intros Hfd Hat Hrel Hsize Hroom H0 Hedge [q' Hq'].
  destruct (map_pointer fd s p b e Hfd Hat) as (map & Hmap & Hfdm).
  destruct (reserve_run b q size fd e Hrel Hsize Hroom) as (b1 & Hm1 & Hc1 & Hres).
  rewrite Hq' in Hres. destruct Hres as [Hr1 Hres].
  pose proof (ring_at_put _ _ _ _ b1 Hat) as Hat1. pose proof (rb_max_bounds b q Hrel) as [Hb _].
  replace ((rb_producer_pos b + 8) mod rb_max_ent b) with 0 in Hres.
  2: { rewrite Zplus_mod, Hedge. destruct (decide (rb_max_ent b = 8)) as [->|Hne]; [done|].
       rewrite (Z.mod_small 8) by lia. replace (_ - 8 + 8) with (rb_max_ent b) by lia.
       symmetry. apply Z.mod_same. lia. }
  exists map, (put_ring p b1 s), b1. unfold bpf_ringbuf_reserve. rewrite Hfdm. split; [done|].
  split; [exact (with_ringbuf_run fd s p b _ _ _ _ _ _ Hat Hres)|]. split; [|split; [done|]].
  - unfold bpf_ringbuf_submit, ringbuf_finish. mbase. unfold sample_fd.
    rewrite (via_ring_run fd _ p b1 _ e 0 b1 e Hat1) by done.
    rewrite (put_ring_same fd _ p b1 Hat1). unfold bpftime_ringbuf_submit, with_ringbuf. mbase.
    replace (is_ringbuf_map_fd 0 (put_ring p b1 s)) with false by (symmetry; exact H0). done.
  - unfold spec_reserve in Hq'. destruct (_ <? _); [done|]. destruct (_ <? _); [done|].
    by injection Hq' as <-.
Qed.

(** *** Maps *)

(** The map helpers on the pointer a program has for a map: each is the operation of
    the implementation that serves the type of the map for programs, run on the
    object of the map; the results of update and delete are sign-extended. *)
Theorem map_helpers_delegate fd s h S (v : view S) I p x key value flags e :
  0 <= fd < 2 ^ 31 -> map_at fd s = Some h -> mh_lock h = false -> mh_impl_ptr h = Some p ->
  v_load v p (hm_mem (sh_manager s)) = Some x -> serves false (map_type h) S v I ->
  map_type h <> BPF_MAP_TYPE_ARRAY_OF_MAPS ->
  exists map, map_ptr_by_fd fd s e = Ok map s e /\
    (forall r x' e', @elem_lookup S I key x e = Ok r x' e' ->
     bpftime_map_lookup_elem_helper map key s e = Ok r (put_object v p x' s) e') /\
    (forall r x' e', @elem_update S I key value flags x e = Ok r x' e' ->
     bpftime_map_update_elem_helper map key value flags s e = Ok (u64 r) (put_object v p x' s) e') /\
    (forall r x' e', @elem_delete S I key x e = Ok r x' e' ->
     bpftime_map_delete_elem_helper map key s e = Ok (u64 r) (put_object v p x' s) e').
Proof.
  intros Hfd Hm Hlk Hp Hx Hs Hty.
  assert (is_map_fd fd s = true) as Hmap.
  { unfold is_map_fd. unfold map_at in Hm. by destruct (handler_at fd s) as [[]|]. }
  destruct (map_calls_run false h (hm_mem (sh_manager s)) S v I key value flags true e p x Hp Hx Hlk Hs)
    as (Hl & Hu & Hd & _); [done|].
  eexists. split; [unfold map_ptr_by_fd; mbase; rewrite s32_small by lia; by rewrite Hmap|].
  unfold bpftime_map_lookup_elem_helper, bpftime_map_update_elem_helper, bpftime_map_delete_elem_helper,
    shm_map_lookup_elem, shm_map_update_elem, shm_delete_elem, with_map, map_fd.
  rewrite map_ptr_shift by done. mbase. rewrite Hmap.
  split_and!; intros r x' e' Hr; [rewrite Hr in Hl|rewrite Hr in Hu|rewrite Hr in Hd].
  - by rewrite (on_map_delegates fd s h v p _ _ _ _ _ Hm Hl).
  - by rewrite (on_map_delegates fd s h v p _ _ _ _ _ Hm Hu).
  - by rewrite (on_map_delegates fd s h v p _ _ _ _ _ Hm Hd).
Qed.

(** *** Perf event output *)

Lemma perf_array_same (m : shm K) p a :
  sm_objects m !! p = Some (IPerfArray a) -> v_store perf_array_view p a m = m.
Proof.
  intros Hp. destruct m as [ix os rs nx w op]. simpl in *.
  unfold sm_set_object. simpl. by rewrite insert_id.
Qed.

Section perf_output.
Variables (allowed : gset Z -> bool) (t : thread_env) (cpu map size e : Z) (data : ptr).
Abbreviation s := (te_shm t).
Abbreviation fd := (map_fd map).
Hypothesis Hcpu : 0 <= cpu < 2 ^ 31.
Hypothesis Hpin : allowed {[cpu]} = true.

Section perf_array.
Variables (h : bpf_map_handler) (p : nat) (a : i32_array).
Hypothesis Hm : map_at fd s = Some h.
Hypothesis Hty : map_type h = BPF_MAP_TYPE_PERF_EVENT_ARRAY.
Hypothesis Hlock : mh_lock h = false.
Hypothesis Hp : mh_impl_ptr h = Some p.
Hypothesis Ha : sm_objects (hm_mem (sh_manager s)) !! p = Some (IPerfArray a).

Lemma perf_lookup_run e1 :
  shm_map_lookup_elem fd (Some (le_encode 4 (u32 cpu))) false s e1 =
  if decide (ia_valid a cpu) then Ok (VBuf (4 * Z.to_nat cpu)) s e1 else Ok VNull s EINVAL.
Proof using Hcpu Hm Hty Hlock Hp Ha.
  unfold shm_map_lookup_elem, with_map. mbase.
  assert (is_map_fd fd s = true) as ->.
  { unfold is_map_fd. unfold map_at in Hm. by destruct (handler_at fd s) as [[]|]. }
  assert (perf_elem_lookup (Some (le_encode 4 (u32 cpu))) a e1 =
    if decide (ia_valid a cpu) then Ok (VBuf (4 * Z.to_nat cpu)) a e1 else Ok VNull a EINVAL) as Hl.
  { unfold perf_elem_lookup. mbase. rewrite (deref_i32_points_to _ cpu) by (auto with bpf || lia).
    case_decide as Hd; [by rewrite (ia_good_index _ _ Hd)|by rewrite (ia_bad_index_true _ _ Hd)]. }
  assert (map_lookup_elem (Some (le_encode 4 (u32 cpu))) false (h, hm_mem (sh_manager s)) e1 =
    if decide (ia_valid a cpu) then Ok (VBuf (4 * Z.to_nat cpu)) (h, hm_mem (sh_manager s)) e1
    else Ok VNull (h, hm_mem (sh_manager s)) EINVAL) as Hrun.
  { unfold map_lookup_elem. rewrite (serves_switch false i32_array perf_array_view perf_event_array_MapImpl)
      by (rewrite Hty; constructor).
    rewrite (do_call_delegates _ _ _ _ _ p a) by (try done; simpl; by rewrite Ha).
    cbn [elem_lookup perf_event_array_MapImpl]. rewrite Hl.
    case_decide; cbn [delegate]; by rewrite perf_array_same. }
  case_decide; by eapply on_map_read.
Qed.

Lemma perf_slot_run e1 pfd :
  ia_data a !! Z.to_nat cpu = Some pfd -> perf_slot fd (VBuf (4 * Z.to_nat cpu)) s e1 = Ok pfd s e1.
Proof using Hm Hp Ha.
  intros Hpfd. unfold perf_slot. mbase. rewrite Hm. unfold need. mbase. rewrite Hp. mbase.
  assert (sh_null s = false) as Hn.
  { unfold map_at in Hm. destruct (handler_at fd s) eqn:Hh; [|done]. by apply handler_at_Some in Hh as []. }
  rewrite in_manager_run by done. unfold zoom, via. simpl v_load. rewrite Ha. simpl mbind. mbase.
  replace (4 * Z.to_nat cpu)%nat with (Z.to_nat cpu * 4)%nat by lia.
  rewrite Nat.div_mul by lia. rewrite Hpfd. rewrite perf_array_same by done.
  unfold sh_set_manager, hm_set_mem. by destruct (te_shm t) as [? [] ? ?].
Qed.

End perf_array.

(** [bpf_perf_event_output] on a perf event array: with a descriptor in the slot of
    the current processor the result is that of the output to this event, and the
    thread gets its processors back; but when the map or the slot is missing, the
    helper returns -1 and leaves the thread pinned to the current processor. *)
Theorem perf_output_affinity :
  (map_at fd s = None ->
   bpf_perf_event_output allowed cpu map data size t e = Ok (2 ^ 64 - 1) (mk_env s {[cpu]}) ENOENT) /\
  (forall h p a, map_at fd s = Some h -> map_type h = BPF_MAP_TYPE_PERF_EVENT_ARRAY -> mh_lock h = false ->
   mh_impl_ptr h = Some p -> sm_objects (hm_mem (sh_manager s)) !! p = Some (IPerfArray a) ->
   (~ ia_valid a cpu ->
    bpf_perf_event_output allowed cpu map data size t e = Ok (2 ^ 64 - 1) (mk_env s {[cpu]}) EINVAL) /\
   (forall pfd r s' e', ia_data a !! Z.to_nat cpu = Some pfd -> allowed (te_affinity t) = true ->
    bpftime_perf_event_output pfd data size s e = Ok r s' e' ->
    bpf_perf_event_output allowed cpu map data size t e = Ok (u64 r) (mk_env s' (te_affinity t)) e')).
Proof using Hcpu Hpin.
  unfold bpf_perf_event_output. rewrite (proj2 (Z.eqb_neq cpu (-1))) by lia. mbase.
  unfold sched_setaffinity. rewrite Hpin. mbase. change (0 <? 0) with false. cbn iota.
  unfold te_on_shm, zoom. cbn [te_shm te_affinity].
  split.
  { intros Hno. unfold bpftime_map_get_info. mbase. by rewrite Hno. }
  intros h p a Hm Hty Hlock Hp Ha. unfold bpftime_map_get_info. mbase. rewrite Hm. cbn [fst snd te_shm].
  change (0 <? 0) with false. cbn iota. unfold need. mbase. fold (map_type h). rewrite bool_decide_true by done.
  rewrite (perf_lookup_run h p a Hm Hty Hlock Hp Ha). split.
  - intros Hv. by rewrite decide_False.
  - intros pfd r s' e' Hpfd Hall Hout. rewrite decide_True.
    2: { unfold ia_valid. apply lookup_lt_Some in Hpfd. lia. }
    cbn [te_shm te_affinity]. rewrite (perf_slot_run h p a Hm Hp Ha e pfd Hpfd). cbn [te_shm te_affinity].
    rewrite Hout. by rewrite Hall.
Qed.

End perf_output.

End helpers.

(** [bpf_get_current_uid_gid] returns the group id in both halves: the documented
    user id never appears in the result. *)
Theorem uid_gid_is_gid gid :
  0 <= gid < 2 ^ 31 ->
  Z.shiftr (bpf_get_current_uid_gid gid) 32 = gid /\ bpf_get_current_uid_gid gid mod 2 ^ 32 = gid.
Proof.
  intros Hg. unfold bpf_get_current_uid_gid. rewrite s32_small by lia. rewrite (wrap_small 64 gid) by lia.
  rewrite (wrap_small 64 (Z.shiftl gid 32)) by (rewrite Z.shiftl_mul_pow2; lia).
  rewrite lor_shiftl by lia.
  rewrite Z.shiftr_div_pow2 by lia. split.
  - symmetry. apply Z.div_unique with (r := gid); lia.
  - symmetry. apply Z.mod_unique with (q := gid); lia.
Qed.

(** ** Witnesses *)

(** A shared memory with a ring of 32 bytes at descriptor 3; 24 bytes were produced
    and consumed in [worn_ring]. *)
Definition ring_shm (b : ringbuf) : bpftime_shm (list bytes) :=
  mk_bshm false (mk_manager [UnusedHandler; UnusedHandler; UnusedHandler; MapH (mh_set_ptr (Some O) (small_handler 27))]
    (mk_shm {[ "ebpf_map_fd_m"%string := O ]} {[ O := IRingbuf 1 ]} {[ 1%nat := b ]} 2 [] ∅) ∅ 0) ∅ ∅.
Definition fresh_ring : ringbuf := ringbuf_new 4096 32.
Definition worn_ring : ringbuf := mk_ringbuf 32 24 24 (zeros 64).

Lemma ring_shm_at b : ring_at 3 (ring_shm b) 0 b.
Proof. split; [|done]. eexists. by split_and!. Qed.
Lemma fresh_ring_rel : rb_rel fresh_ring [].
Proof. apply (ringbuf_new_rel 4096 5); lia. Qed.
Lemma worn_ring_rel : rb_rel worn_ring [].
Proof. split; try done. by exists 5. Qed.

Lemma ringbuf_output_refines_witness :
  exists map, @map_ptr_by_fd (list bytes) 3 (ring_shm fresh_ring) 0 = Ok map (ring_shm fresh_ring) 0 /\
    exists s' b', bpf_ringbuf_output map (Some [1; 2; 3; 4]) 4 0 (ring_shm fresh_ring) 0 = Ok 0 s' 0 /\
      ring_at 3 s' 0 b' /\ rb_rel b' [mk_rrec 4 (RDone [1; 2; 3; 4])].
Proof.
  assert (fits_flat fresh_ring) as Hflat by (by vm_compute).
  destruct (@ringbuf_output_refines (list bytes) 3 (ring_shm fresh_ring) 0 fresh_ring [] [1; 2; 3; 4] 0
    ltac:(lia) (ring_shm_at _) fresh_ring_rel ltac:(by vm_compute) ltac:(by vm_compute) (Some [1; 2; 3; 4]) 0 (points_to_self _))
    as (map & Hmap & s' & b' & got & Hout & Hat & Hrel & Hgot & _).
  rewrite (Hgot Hflat) in Hrel. exists map. split; [exact Hmap|]. exists s', b'. split_and!; [exact Hout|exact Hat|exact Hrel].
Defined.

Lemma ringbuf_reserve_submit_witness :
  exists map, @map_ptr_by_fd (list bytes) 3 (ring_shm fresh_ring) 0 = Ok map (ring_shm fresh_ring) 0 /\
    exists off s1 s2 s3 b', bpf_ringbuf_reserve map 4 0 (ring_shm fresh_ring) 0 = Ok (VBuf off) s1 0 /\
      ring_memcpy 3 off [1; 2; 3; 4] s1 0 = Ok tt s2 0 /\ bpf_ringbuf_submit 0 off 0 s2 0 = Ok 0 s3 0 /\
      ring_at 3 s3 0 b' /\ rb_rel b' [mk_rrec 4 (RDone [1; 2; 3; 4])].
Proof.
  refine (@ringbuf_reserve_submit (list bytes) 3 (ring_shm fresh_ring) 0 fresh_ring [] [1; 2; 3; 4] 0
    _ (ring_shm_at _) fresh_ring_rel _ _ 0 false _); vm_compute; lia || done.
Defined.

Lemma edge_submit_lost_witness :
  exists map s1 b1, @map_ptr_by_fd (list bytes) 3 (ring_shm worn_ring) 0 = Ok map (ring_shm worn_ring) 0 /\
    bpf_ringbuf_reserve map 4 0 (ring_shm worn_ring) 0 = Ok (VBuf 0) s1 0 /\
    bpf_ringbuf_submit 0 0 0 s1 0 = Ok 0 s1 EINVAL /\
    ring_at 3 s1 0 b1 /\ rb_rel b1 [mk_rrec 4 RBusy].
Proof.
  refine (@edge_submit_lost (list bytes) 3 (ring_shm worn_ring) 0 worn_ring [] 4 0 0
    _ (ring_shm_at _) worn_ring_rel _ _ eq_refl eq_refl _); [lia|lia|simpl; lia|].
  eexists. reflexivity.
Defined.

Definition perf_env : @thread_env (list bytes) :=
  mk_env (mk_bshm false (mk_manager [MapH (mh_set_ptr (Some O) (small_handler 4)); PerfH (perf_event_software 0)]
    (one_object (IPerfArray (mk_i32_array [1]))) {[ O := sw_event_new 64 0 0 0 ]} 1) ∅ ∅) {[0; 1]}.

Lemma perf_output_affinity_witness :
  exists s', @bpf_perf_event_output _ toy_runtime (fun _ => true) 0 (2 ^ 32 - 1) (Some [7; 8; 9; 10]) 4 perf_env 0 =
    Ok 0 (mk_env s' {[0; 1]}) 0.
Proof.
  destruct (@bpftime_perf_event_output (list bytes) 1 (Some [7; 8; 9; 10]) 4 (te_shm perf_env) 0) as [r s' e'| |] eqn:Hout;
    [|exfalso; revert Hout; vm_compute; discriminate..].
  assert (r = 0 /\ e' = 0) as [-> ->] by (revert Hout; vm_compute; intros [= <- _ <-]; done).
  exists s'. refine (proj2 (proj2 (@perf_output_affinity _ toy_runtime (fun _ => true) perf_env 0 (2 ^ 32 - 1) 4 0
    (Some [7; 8; 9; 10]) _ eq_refl) (mh_set_ptr (Some O) (small_handler 4)) O (mk_i32_array [1])
    eq_refl eq_refl eq_refl eq_refl eq_refl) 1 0 s' 0 eq_refl eq_refl Hout). lia.
Defined.

Lemma map_helpers_delegate_witness :
  exists map, @map_ptr_by_fd (list bytes) 0 epoll_shm 0 = Ok map epoll_shm 0 /\
    exists s', @bpftime_map_lookup_elem_helper _ toy_runtime map (Some [1; 0; 0; 0]) epoll_shm 0 = Ok (VBuf 4) s' 0.
Proof.
  destruct (@map_helpers_delegate _ toy_runtime 0 epoll_shm (mh_set_ptr (Some O) (small_handler 2)) _ array_view
    array_MapImpl O (array_map_new 4 2) (Some [1; 0; 0; 0]) None 0 0 ltac:(lia) eq_refl eq_refl eq_refl eq_refl
    (serves_array false) ltac:(discriminate)) as (map & Hmap & Hl & _).
  exists map. split; [exact Hmap|]. eexists. apply Hl. vm_compute. reflexivity.
Defined.

Lemma uid_gid_is_gid_witness :
  Z.shiftr (bpf_get_current_uid_gid 1000) 32 = 1000 /\ bpf_get_current_uid_gid 1000 mod 2 ^ 32 = 1000.
Proof. refine (uid_gid_is_gid 1000 _). lia. Defined.
