(* ===== verification/Config.v ===== *)
(** [agent_config] (include/bpftime_config.hpp) and its construction from the
    environment (src/bpftime_config.cpp). A [string_view] is the list of its
    characters. *)
From Stdlib Require Import ZArith Lia Ascii String.
From stdpp Require Import base list strings.
From S2P Require Import Prelude.
Local Open Scope Z_scope.

Abbreviation text := (list ascii).
Abbreviation chars := list_ascii_of_string.

Record agent_config := mk_config {
  ac_debug : bool;
  jit_enabled : bool;
  enable_kernel_helper_group : bool;
  enable_ufunc_helper_group : bool;
  enable_shm_maps_helper_group : bool;
  allow_non_buildin_map_types : bool;
  shm_memory_size : Z;
  logger_output_path : text;
  vm_name : text
}.

(** The member initialisers. *)
Definition agent_config_new : agent_config :=
  mk_config false true true false true false 20 (chars "~/.bpftime/runtime.log") (chars "llvm").

Definition set_groups (kernel ufunc shm : bool) (c : agent_config) : agent_config :=
  mk_config (ac_debug c) (jit_enabled c) kernel ufunc shm (allow_non_buildin_map_types c)
    (shm_memory_size c) (logger_output_path c) (vm_name c).

(** An unknown token is only logged. *)
Definition process_token (token : text) (c : agent_config) : agent_config :=
  let k := enable_kernel_helper_group c in
  let u := enable_ufunc_helper_group c in
  let m := enable_shm_maps_helper_group c in
  if bool_decide (token = chars "ufunc") then set_groups k true m c
  else if bool_decide (token = chars "kernel") then set_groups true u m c
  else if bool_decide (token = chars "shm_map") then set_groups k u true c
  else c.

(** [str.find(delimiter, start)]: the position, [None] for [npos]. *)
Definition find (d : ascii) (start : nat) (str : text) : option nat :=
  (fun i => (start + i)%nat) <$> (list_find (eq d) (drop start str) ≫= fun x => Some x.1).
Definition substr (start len : nat) (str : text) : text := take len (drop start str).

(** The [while] loop; every turn moves [start] behind another delimiter. *)
Fixpoint tokens_loop (fuel : nat) (d : ascii) (str : text) (start : nat) (c : agent_config) : agent_config :=
  match fuel with
  | O => c
  | S fuel' =>
      match find d start str with
      | Some end_ =>
          tokens_loop fuel' d str (S end_) (process_token (substr start (end_ - start) str) c)
      | None => if (start <? length str)%nat then process_token (drop start str) c else c
      end
  end.
Definition process_helper_sv (str : text) (delimiter : ascii) (c : agent_config) : agent_config :=
  tokens_loop (S (length str)) delimiter str 0 c.

(** [std::stoi]: white space, a sign, decimal digits; [None] for its exceptions, no
    digits or a value outside [int]. What follows the digits is ignored. *)
Definition is_digit (a : ascii) : bool := (48 <=? N_of_ascii a)%N && (N_of_ascii a <=? 57)%N.
Definition is_space (a : ascii) : bool :=
  let n := N_of_ascii a in (n =? 32)%N || ((9 <=? n)%N && (n <=? 13)%N).
Fixpoint skip_spaces (s : text) : text :=
  match s with a :: s' => if is_space a then skip_spaces s' else s | [] => [] end.
Fixpoint digits (s : text) (acc : option Z) : option Z :=
  match s with
  | a :: s' =>
      if is_digit a then digits s' (Some (10 * default 0 acc + (Z.of_N (N_of_ascii a) - 48))) else acc
  | [] => acc
  end.
Definition stoi (s : text) : option Z :=
  let s := skip_spaces s in
  v ← match s with
      | "-"%char :: s' => Z.opp <$> digits s' None
      | "+"%char :: s' => digits s' None
      | _ => digits s None
      end;
  if (- 2 ^ 31 <=? v) && (v <? 2 ^ 31) then Some v else None.

(** [getenv] is the argument. *)
Definition construct_agent_config_from_env (getenv : string -> option text) : agent_config :=
  let c := agent_config_new in
  let c := match getenv "BPFTIME_HELPER_GROUPS" with
           | Some custom_helpers => process_helper_sv custom_helpers ","%char (set_groups false false false c)
           | None => set_groups true true true c
           end in
  let size := match getenv "BPFTIME_SHM_MEMORY_MB" with
              | Some str => default (shm_memory_size c) (stoi str)
              | None => shm_memory_size c
              end in
  mk_config (ac_debug c)
    (match getenv "BPFTIME_DISABLE_JIT" with Some _ => false | None => jit_enabled c end)
    (enable_kernel_helper_group c) (enable_ufunc_helper_group c) (enable_shm_maps_helper_group c)
    (match getenv "BPFTIME_ALLOW_EXTERNAL_MAPS" with Some _ => true | None => allow_non_buildin_map_types c end)
    size
    (default (logger_output_path c) (getenv "BPFTIME_LOG_OUTPUT"))
    (default (vm_name c) (getenv "BPFTIME_VM_NAME")).

(** ** The tokens *)

(** The reference: cut the text at every delimiter. *)
Fixpoint split_on (d : ascii) (s cur : text) : list text :=
  match s with
  | [] => [rev cur]
  | a :: s' => if decide (d = a) then rev cur :: split_on d s' [] else split_on d s' (a :: cur)
  end.
Definition split (d : ascii) (s : text) : list text := split_on d s [].

Lemma split_on_find d s cur :
  split_on d s cur = match list_find (eq d) s with
    | Some (i, _) => (rev cur ++ take i s) :: split d (drop (S i) s)
    | None => [rev cur ++ s]
    end.
Proof.
  revert cur. induction s as [|a s IH]; intros cur; cbn [split_on list_find].
  { by rewrite app_nil_r. }
  case_decide as Hd; cbn [split_on].
  - rewrite take_0, app_nil_r, skipn_cons, drop_0. done.
  - rewrite IH. destruct (list_find (eq d) s) as [[i b]|]; cbn [fmap option_fmap option_map prod_map];
      unfold prod_map; simpl; by rewrite <- app_assoc.
Qed.

Lemma process_token_empty c : process_token [] c = c.
Proof. done. Qed.

Lemma tokens_loop_run fuel d str start c :
  (start <= length str)%nat -> (length str - start < fuel)%nat ->
  tokens_loop fuel d str start c = foldl (fun c t => process_token t c) c (split d (drop start str)).
Proof.
  revert start c. induction fuel as [|fuel IH]; intros start c Hs Hf; [lia|]. cbn [tokens_loop]. unfold split, find.
  rewrite split_on_find. destruct (list_find (eq d) (drop start str)) as [[i b]|] eqn:Hl; simpl.
  - pose proof Hl as (Hb & _ & _)%list_find_Some. apply lookup_lt_Some in Hb. rewrite length_drop in Hb.
    rewrite IH by lia. rewrite drop_drop. unfold substr.
    replace (start + i - start)%nat with i by lia. by replace (start + S i)%nat with (S (start + i)) by lia.
  - destruct (Nat.ltb_spec start (length str)); [done|].
    rewrite drop_ge by lia. done.
Qed.

Lemma process_token_flags t c :
  process_token t c =
  set_groups (enable_kernel_helper_group c || bool_decide (t = chars "kernel"))
    (enable_ufunc_helper_group c || bool_decide (t = chars "ufunc"))
    (enable_shm_maps_helper_group c || bool_decide (t = chars "shm_map")) c.
Proof.
  unfold process_token. destruct c; unfold set_groups; simpl.
  repeat case_bool_decide; subst; try discriminate; by rewrite ?orb_true_r, ?orb_false_r.
Qed.

Lemma fold_tokens ts c :
  foldl (fun c t => process_token t c) c ts =
  set_groups (enable_kernel_helper_group c || bool_decide (chars "kernel" ∈ ts))
    (enable_ufunc_helper_group c || bool_decide (chars "ufunc" ∈ ts))
    (enable_shm_maps_helper_group c || bool_decide (chars "shm_map" ∈ ts)) c.
Proof.
  revert c. induction ts as [|t ts IH]; intros c; cbn [foldl].
  { destruct c. unfold set_groups. simpl. by rewrite !orb_false_r. }
  rewrite IH, process_token_flags. unfold set_groups. cbn.
  rewrite <- !orb_assoc.
  assert (forall x : text, bool_decide (t = x) || bool_decide (x ∈ ts) = bool_decide (x ∈ t :: ts)) as Ho.
  { intros x. rewrite <- bool_decide_or. apply bool_decide_ext. rewrite elem_of_cons. naive_solver. }
  by rewrite !Ho.
Qed.

(** The configuration from the environment: with BPFTIME_HELPER_GROUPS set, a helper
    group is enabled exactly when its name is one of the comma-separated tokens;
    without it all three are. JIT is off exactly when BPFTIME_DISABLE_JIT is set,
    and a memory size that is not an [int] leaves the default of 20 MB. *)
Theorem config_from_env getenv :
  let c := construct_agent_config_from_env getenv in
  let enabled (name : string) := match getenv "BPFTIME_HELPER_GROUPS"%string with
    | Some groups => bool_decide (chars name ∈ split ","%char groups)
    | None => true
    end in
  enable_kernel_helper_group c = enabled "kernel"%string /\
  enable_ufunc_helper_group c = enabled "ufunc"%string /\
  enable_shm_maps_helper_group c = enabled "shm_map"%string /\
  jit_enabled c = bool_decide (getenv "BPFTIME_DISABLE_JIT"%string = None) /\
  allow_non_buildin_map_types c = bool_decide (is_Some (getenv "BPFTIME_ALLOW_EXTERNAL_MAPS"%string)) /\
  shm_memory_size c = default 20 (getenv "BPFTIME_SHM_MEMORY_MB"%string ≫= stoi) /\
  - 2 ^ 31 <= shm_memory_size c < 2 ^ 31.
Proof.
  cbv zeta. unfold construct_agent_config_from_env.
  cbn [enable_kernel_helper_group enable_ufunc_helper_group enable_shm_maps_helper_group jit_enabled
    allow_non_buildin_map_types shm_memory_size].
  assert (forall groups c, process_helper_sv groups ","%char c =
    foldl (fun c t => process_token t c) c (split ","%char groups)) as Hrun.
  { intros groups c. unfold process_helper_sv. rewrite tokens_loop_run by lia. by rewrite drop_0. }
  assert (default 20 (getenv "BPFTIME_SHM_MEMORY_MB"%string ≫= stoi) = match getenv "BPFTIME_SHM_MEMORY_MB"%string with
    | Some str => default 20 (stoi str) | None => 20 end) as Hsize by (by destruct (getenv _)).
  assert (forall str, - 2 ^ 31 <= default 20 (stoi str) < 2 ^ 31) as Hrange.
  { intros str. unfold stoi. destruct (match skip_spaces str with [] => _ | _ => _ end) as [v|]; [|simpl; lia].
    cbn [mbind option_bind]. destruct (_ && _) eqn:Hb; [|simpl; lia].
    apply andb_true_iff in Hb as [?%Z.leb_le ?%Z.ltb_lt]. simpl. lia. }
  assert (forall o : option text, (match o with Some _ => false | None => true end) = bool_decide (o = None) /\
    (match o with Some _ => true | None => false end) = bool_decide (is_Some o)) as Hflag.
  { intros [x|]; split; symmetry; [by apply bool_decide_eq_false|apply bool_decide_eq_true; eauto|by apply bool_decide_eq_true|]. apply bool_decide_eq_false. by intros []. }
  destruct (getenv "BPFTIME_HELPER_GROUPS"%string) as [groups|]; [rewrite Hrun, fold_tokens|];
    cbn [set_groups enable_kernel_helper_group enable_ufunc_helper_group enable_shm_maps_helper_group jit_enabled
      allow_non_buildin_map_types shm_memory_size agent_config_new orb]; rewrite Hsize;
    (split_and!; [done|done|done|apply Hflag|apply Hflag|done|..]);
    destruct (getenv "BPFTIME_SHM_MEMORY_MB"%string) as [str|]; try apply (Hrange str); lia.
Qed.

Example sample_config :
  let c := construct_agent_config_from_env (fun v =>
    if String.eqb v "BPFTIME_HELPER_GROUPS" then Some (chars "shm_map,,kernel")
    else if String.eqb v "BPFTIME_SHM_MEMORY_MB" then Some (chars " -7MB") else None) in
  (enable_kernel_helper_group c, enable_ufunc_helper_group c, enable_shm_maps_helper_group c,
   shm_memory_size c) = (true, false, true, -7).
Proof. vm_compute. reflexivity. Qed.
