(* ===== verification/Ufunc.v ===== *)
(** The registry of user functions (src/ufunc.cpp, include/bpftime_ufunc.hpp,
    [bpftime_ufunc_ctx] of src/bpftime_internal.h): native functions a program calls
    by id through the dispatcher helper. *)
From Stdlib Require Import ZArith Lia.
From stdpp Require Import base list gmap strings.
From S2P Require Import Prelude.
Local Open Scope Z_scope.

Definition MAX_ARGS_COUNT := 6.
Definition MAX_UFUNC_FUNCS := 8192 * 4.

Inductive ufunc_types :=
| UFUNC_TYPE_UNKNOWN | UFUNC_TYPE_VOID
| UFUNC_TYPE_INT8 | UFUNC_TYPE_UINT8 | UFUNC_TYPE_INT16 | UFUNC_TYPE_UINT16
| UFUNC_TYPE_INT32 | UFUNC_TYPE_UINT32 | UFUNC_TYPE_INT64 | UFUNC_TYPE_UINT64
| UFUNC_TYPE_FLOAT | UFUNC_TYPE_DOUBLE | UFUNC_TYPE_POINTER | UFUNC_TYPE_STRUCT.

(** [uf_func] is an address, 0 the null pointer. *)
Record ebpf_ufunc_func_info := mk_ufunc {
  uf_name : string;
  uf_func : Z;
  uf_ret_type : ufunc_types;
  uf_arg_types : list ufunc_types;
  uf_num_args : Z;
  uf_id : Z;
  uf_is_attached : bool
}.

(** The global context is zero-initialised: a slot that was never written has no
    function. *)
Definition no_ufunc : ebpf_ufunc_func_info := mk_ufunc "" 0 UFUNC_TYPE_UNKNOWN [] 0 0 false.
Record bpftime_ufunc_ctx := mk_uctx {
  ufunc_funcs : gmap Z ebpf_ufunc_func_info;
  ufunc_func_cnt : Z
}.
Definition global_ufunc_ctx : bpftime_ufunc_ctx := mk_uctx ∅ 0.
Definition ufunc_at (i : Z) (c : bpftime_ufunc_ctx) : ebpf_ufunc_func_info :=
  default no_ufunc (ufunc_funcs c !! i).

Abbreviation UF := (M bpftime_ufunc_ctx).

(** The 64 bits of [union arg_val]; an argument of another type is 0. *)
Definition to_arg_val (type : ufunc_types) (val : Z) : Z :=
  match type with
  | UFUNC_TYPE_INT8 | UFUNC_TYPE_INT16 | UFUNC_TYPE_INT32 | UFUNC_TYPE_INT64
  | UFUNC_TYPE_UINT8 | UFUNC_TYPE_UINT16 | UFUNC_TYPE_UINT32 | UFUNC_TYPE_UINT64
  | UFUNC_TYPE_DOUBLE | UFUNC_TYPE_POINTER => u64 val
  | UFUNC_TYPE_VOID | UFUNC_TYPE_UNKNOWN | UFUNC_TYPE_FLOAT | UFUNC_TYPE_STRUCT => 0
  end.
Definition from_arg_val (type : ufunc_types) (val : Z) : Z := to_arg_val type val.

Definition ebpf_resovle_ufunc_func (func_id : Z) (c : bpftime_ufunc_ctx) : option ebpf_ufunc_func_info :=
  if func_id <? MAX_UFUNC_FUNCS then Some (ufunc_at func_id c) else None.

(** [for (i = 0; i < cnt; i++) if (strcmp(name, func_name) == 0) return i;] *)
Fixpoint find_loop (n : nat) (i : Z) (func_name : string) (c : bpftime_ufunc_ctx) : Z :=
  match n with
  | O => -1
  | S n' => if String.eqb (uf_name (ufunc_at i c)) func_name then i else find_loop n' (i + 1) func_name c
  end.
Definition ebpf_call_find_ufunc_id (func_name : option string) : UF Z :=
  c ← get;
  mret (match func_name with
        | None => -1
        | Some name => find_loop (Z.to_nat (ufunc_func_cnt c)) 0 name c
        end).

(** An id outside the array is not checked; the count stays as it is. *)
Definition bpftime_ufunc_register_ufunc (id : Z) (func_info : ebpf_ufunc_func_info) : UF unit :=
  if id <? MAX_UFUNC_FUNCS
  then modify (fun c => mk_uctx (<[id := func_info]> (ufunc_funcs c)) (ufunc_func_cnt c))
  else ub "store outside ufunc_funcs".

Definition with_func (f : ebpf_ufunc_func_info) (addr : Z) : ebpf_ufunc_func_info :=
  mk_ufunc (uf_name f) addr (uf_ret_type f) (uf_arg_types f) (uf_num_args f) (uf_id f) (uf_is_attached f).

Definition bpftime_ufunc_resolve_from_info (f : ebpf_ufunc_func_info) (function_resolver : string -> Z) : UF Z :=
  let func_addr := function_resolver (uf_name f) in
  if func_addr =? 0 then mret (-1)
  else
    c ← get;
    if ufunc_func_cnt c =? MAX_UFUNC_FUNCS - 1 then mret (-1)
    else
      put (mk_uctx (<[ufunc_func_cnt c := with_func f func_addr]> (ufunc_funcs c)) (ufunc_func_cnt c + 1));;
      mret 0.

(** [for (i = 0; i < num_args; i++) args[i] = to_arg_val(arg_types[i], raw_args->args[i])]
    into an array of six zeros. *)
Definition convert_args (f : ebpf_ufunc_func_info) (raw_args : list Z) : option (list Z) :=
  let n := Z.to_nat (uf_num_args f) in
  vals ← mapM (fun i => t ← uf_arg_types f !! i; v ← raw_args !! i; Some (to_arg_val t v)) (seq 0 n);
  Some (vals ++ replicate (6 - n) 0).

(** [call addr args] is the result of the native function at [addr] on the first
    five registers. *)
Definition ebpf_call_ufunc_dispatcher (call : Z -> list Z -> Z) (id : Z) (raw_args : list Z) : UF Z :=
  if MAX_UFUNC_FUNCS <=? id then mret (u64 (-1))
  else
    c ← get;
    match ebpf_resovle_ufunc_func id c with
    | None => mret 0
    | Some f =>
        if uf_func f =? 0 then mret 0
        else if uf_is_attached f then mret 0
        else if MAX_ARGS_COUNT <? u64 (uf_num_args f) then mret (u64 (-1))
        else
          args ← need "argument outside the list" (convert_args f raw_args);
          mret (from_arg_val (uf_ret_type f) (call (uf_func f) (take 5 args)))
    end.

(** ** Lemmas *)

(** The functions registered so far, in order, none of them null. *)
Record ufunc_wf (c : bpftime_ufunc_ctx) : Prop := {
  uw_cnt : 0 <= ufunc_func_cnt c < MAX_UFUNC_FUNCS;
  uw_funcs : forall i, 0 <= i < ufunc_func_cnt c -> uf_func (ufunc_at i c) <> 0
}.

Lemma find_loop_spec n i name c :
  0 <= i ->
  let r := find_loop n i name c in
  (r = -1 /\ (forall j, i <= j < i + Z.of_nat n -> uf_name (ufunc_at j c) <> name)) \/
  (i <= r < i + Z.of_nat n /\ uf_name (ufunc_at r c) = name /\
   forall j, i <= j < r -> uf_name (ufunc_at j c) <> name).
Proof.
  revert i. induction n as [|n IH]; intros i Hi; cbn [find_loop].
  - left. split; [done|]. intros j ?. lia.
  - destruct (String.eqb_spec (uf_name (ufunc_at i c)) name) as [He|Hne].
    + right. split_and!; [lia..|done|]. intros j ?. lia.
    + destruct (IH (i + 1) ltac:(lia)) as [[-> Hno]|(Hr & Hn & Hno)]; [left|right].
      * split; [done|]. intros j Hj. destruct (decide (j = i)) as [->|]; [done|]. apply Hno. lia.
      * split_and!; [lia..|done|]. intros j Hj. destruct (decide (j = i)) as [->|]; [done|]. apply Hno. lia.
Qed.

Lemma ufunc_at_insert i j f c cnt :
  ufunc_at j (mk_uctx (<[i := f]> (ufunc_funcs c)) cnt) = if decide (i = j) then f else ufunc_at j c.
Proof.
  unfold ufunc_at. simpl. case_decide; subst; [by rewrite lookup_insert_eq|by rewrite lookup_insert_ne].
Qed.

(** ** Theorems *)

(** Registering a user function by its symbol: with a resolvable name and room, the
    function gets the next id, every earlier id keeps its function, and the
    registry stays well-formed; a program that looks up the name finds the oldest
    function of that name, which is the new one when the name is new. *)
Theorem ufunc_resolve_find f resolver c e :
  ufunc_wf c -> resolver (uf_name f) <> 0 -> ufunc_func_cnt c < MAX_UFUNC_FUNCS - 1 ->
  exists c', bpftime_ufunc_resolve_from_info f resolver c e = Ok 0 c' e /\ ufunc_wf c' /\
    ufunc_at (ufunc_func_cnt c) c' = with_func f (resolver (uf_name f)) /\
    (forall i, i <> ufunc_func_cnt c -> ufunc_at i c' = ufunc_at i c) /\
    exists i, ebpf_call_find_ufunc_id (Some (uf_name f)) c' e = Ok i c' e /\
      0 <= i <= ufunc_func_cnt c /\ uf_name (ufunc_at i c') = uf_name f /\
      (forall j, 0 <= j < i -> uf_name (ufunc_at j c) <> uf_name f) /\
      ((forall j, 0 <= j < ufunc_func_cnt c -> uf_name (ufunc_at j c) <> uf_name f) -> i = ufunc_func_cnt c).
Proof.
  intros [Hc Hf] Hres Hroom. unfold bpftime_ufunc_resolve_from_info, ebpf_call_find_ufunc_id.
  rewrite (proj2 (Z.eqb_neq _ _)) by done. mbase. rewrite (proj2 (Z.eqb_neq _ _)) by lia.
  set (cnt := ufunc_func_cnt c) in *. set (g := with_func f (resolver (uf_name f))).
  set (c' := mk_uctx _ (cnt + 1)).
  assert (forall j, ufunc_at j c' = if decide (cnt = j) then g else ufunc_at j c) as Hat
    by (intros; apply ufunc_at_insert).
  exists c'. split; [done|]. split; [|split; [|split]].
  - split; [simpl; lia|]. intros i Hi. simpl in Hi. rewrite Hat. case_decide; [done|]. apply Hf. lia.
  - rewrite Hat. by rewrite decide_True.
  - intros i Hi. rewrite Hat. by rewrite decide_False.
  - eexists. split; [done|]. cbn [ufunc_func_cnt].
    destruct (find_loop_spec (Z.to_nat (cnt + 1)) 0 (uf_name f) c' ltac:(lia)) as [[_ Hno]|(Hr & Hn & Hno)].
    { exfalso. apply (Hno cnt); [lia|]. rewrite Hat. by rewrite decide_True. }
    subst c'. cbn [ufunc_func_cnt] in *. set (r := find_loop _ _ _ _) in *.
    split_and!; [lia..|done| |].
    + intros j Hj. specialize (Hno j Hj). rewrite Hat in Hno. by rewrite decide_False in Hno by lia.
    + intros Hnew. destruct (decide (r = cnt)) as [|Hne]; [done|]. exfalso. apply (Hnew r); [lia|].
      rewrite Hat in Hn. by rewrite decide_False in Hn by done.
Qed.

(** The dispatcher on every id: -1 for an id outside the registry, 0 for an empty
    slot or an attached function, -1 for more than six arguments (or a negative
    count), and otherwise one call of the function with its converted arguments,
    padded with zeros, and the converted result. *)
Theorem ufunc_dispatch call id raw c e :
  0 <= id < 2 ^ 64 ->
  let f := ufunc_at id c in
  (forall i, (i < Z.to_nat (uf_num_args f))%nat -> is_Some (uf_arg_types f !! i) /\ is_Some (raw !! i)) ->
  - 2 ^ 31 <= uf_num_args f < 2 ^ 31 ->
  exists args,
    (forall i, (i < 5)%nat -> args !! i = Some (default 0 (
       if (Z.of_nat i <? uf_num_args f) then t ← uf_arg_types f !! i; v ← raw !! i; Some (to_arg_val t v)
       else None))) /\
    ebpf_call_ufunc_dispatcher call id raw c e =
    Ok (if MAX_UFUNC_FUNCS <=? id then 2 ^ 64 - 1
        else if (uf_func f =? 0) || uf_is_attached f then 0
        else if (uf_num_args f <? 0) || (MAX_ARGS_COUNT <? uf_num_args f) then 2 ^ 64 - 1
        else from_arg_val (uf_ret_type f) (call (uf_func f) args)) c e.
Proof.
  intros Hid f Hty Hn.
  set (vals := (fun i => default 0 (t ← uf_arg_types f !! i; v ← raw !! i; Some (to_arg_val t v))) <$>
    seq 0 (Z.to_nat (uf_num_args f))).
  exists (take 5 (vals ++ replicate 5 0)). split.
  { intros i Hi. rewrite lookup_take_lt by done. subst vals.
    destruct (Z.ltb_spec (Z.of_nat i) (uf_num_args f)).
    - rewrite lookup_app_l by (rewrite length_fmap, length_seq; lia).
      rewrite list_lookup_fmap, lookup_seq_lt by lia. done.
    - rewrite lookup_app_r by (rewrite length_fmap, length_seq; lia).
      rewrite lookup_replicate_2; [done|]. rewrite length_fmap, length_seq. lia. }
  unfold ebpf_call_ufunc_dispatcher. destruct (Z.leb_spec MAX_UFUNC_FUNCS id); [done|]. mbase.
  unfold ebpf_resovle_ufunc_func. rewrite (proj2 (Z.ltb_lt _ _)) by lia. fold f.
  destruct (uf_func f =? 0); [done|]. cbn [orb]. destruct (uf_is_attached f); [done|].
  destruct (Z.ltb_spec (uf_num_args f) 0) as [Hneg|Hpos].
  { replace (u64 (uf_num_args f)) with (uf_num_args f + 2 ^ 64) by (apply Z.mod_unique with (q := -1); lia).
    rewrite (proj2 (Z.ltb_lt _ _)); [done|]. unfold MAX_ARGS_COUNT. lia. }
  rewrite (wrap_small 64) by lia. cbn [orb]. destruct (Z.ltb_spec MAX_ARGS_COUNT (uf_num_args f)) as [|Hle]; [done|].
  unfold MAX_ARGS_COUNT in Hle.
  assert (convert_args f raw = Some (vals ++ replicate (6 - Z.to_nat (uf_num_args f)) 0)) as Hconv.
  { unfold convert_args.
    assert (mapM (fun i => t ← uf_arg_types f !! i; v ← raw !! i; Some (to_arg_val t v))
      (seq 0 (Z.to_nat (uf_num_args f))) = Some vals) as ->; [|done].
    apply mapM_Some. subst vals. apply Forall2_fmap_r, Forall_Forall2_diag, Forall_forall.
    intros i Hi%elem_of_seq. destruct (Hty i ltac:(lia)) as [[t Ht] [v Hv]]. simpl. by rewrite Ht, Hv. }
  rewrite Hconv. unfold need. mbase. do 3 f_equal.
  assert (length vals = Z.to_nat (uf_num_args f)) as Hl by (subst vals; by rewrite length_fmap, length_seq).
  apply list_eq. intros i. destruct (decide (i < 5)%nat) as [Hi|Hi].
  - rewrite !lookup_take_lt by done. destruct (decide (i < length vals)%nat).
    + by rewrite !lookup_app_l by done.
    + rewrite !lookup_app_r by lia. by rewrite !lookup_replicate_2 by lia.
  - by rewrite !lookup_take_ge by lia.
Qed.

(** A function may be registered with six arguments, but the dispatcher passes the
    first five only: two calls that differ in the sixth argument are the same. *)
Theorem ufunc_sixth_argument_dropped call id c e a1 a2 a3 a4 a5 a6 a6' :
  ebpf_call_ufunc_dispatcher call id [a1; a2; a3; a4; a5; a6] c e =
  ebpf_call_ufunc_dispatcher call id [a1; a2; a3; a4; a5; a6'] c e.
Proof.
  unfold ebpf_call_ufunc_dispatcher. destruct (_ <=? _); [done|]. mbase.
  destruct (ebpf_resovle_ufunc_func id c) as [f|]; [|done].
  destruct (uf_func f =? 0); [done|]. destruct (uf_is_attached f); [done|].
  destruct (MAX_ARGS_COUNT <? _); [done|]. unfold convert_args.
  destruct (Z.to_nat (uf_num_args f)) as [|[|[|[|[|[|[|n]]]]]]]; try done.
  - simpl. by destruct (uf_arg_types f) as [|? [|? [|? [|? [|? [|? ?]]]]]].
  - destruct (uf_arg_types f) as [|? [|? [|? [|? [|? [|? [|? ?]]]]]]]; cbn; reflexivity.
Qed.

(** ** Witnesses *)

Definition sample_ufunc : ebpf_ufunc_func_info :=
  mk_ufunc "add" 0 UFUNC_TYPE_INT64 [UFUNC_TYPE_INT32; UFUNC_TYPE_INT32] 2 0 false.

Lemma empty_ufuncs_wf : ufunc_wf global_ufunc_ctx.
Proof. split; simpl; [unfold MAX_UFUNC_FUNCS; lia|]. intros i ?. lia. Qed.

Lemma ufunc_resolve_find_witness :
  exists c', bpftime_ufunc_resolve_from_info sample_ufunc (fun _ => 4096) global_ufunc_ctx 0 = Ok 0 c' 0 /\
    ufunc_wf c' /\ ufunc_at 0 c' = with_func sample_ufunc 4096.
Proof.
  destruct (ufunc_resolve_find sample_ufunc (fun _ => 4096) global_ufunc_ctx 0 empty_ufuncs_wf)
    as (c' & H1 & H2 & H3 & _); [discriminate|reflexivity|].
  exact (ex_intro _ c' (conj H1 (conj H2 H3))).
Defined.

Definition one_ufunc : bpftime_ufunc_ctx := mk_uctx {[ 0 := with_func sample_ufunc 4096 ]} 1.

Lemma ufunc_dispatch_witness :
  exists args, ebpf_call_ufunc_dispatcher (fun _ args => foldr Z.add 0 args) 0 [40; 2] one_ufunc 0 =
    Ok (from_arg_val UFUNC_TYPE_INT64 (foldr Z.add 0 args)) one_ufunc 0.
Proof.
  destruct (ufunc_dispatch (fun _ args => foldr Z.add 0 args) 0 [40; 2] one_ufunc 0 ltac:(lia))
    as (args & _ & Hr).
  - vm_compute. intros [|[|i]] Hi; [by split; eauto..|lia].
  - vm_compute. split; congruence.
  - exists args. exact Hr.
Defined.
