(* ===== verification/Cuda.v ===== *)
(** Helper calls from the GPU: the device side of a call (default_trampoline.cu of
    attach/nv_attach_impl: the helpers, [make_helper_call] and its spin lock), the
    host's watcher thread and [create_map_basic_info]
    (runtime/src/attach/bpf_attach_ctx_cuda.cpp), and the memory they share
    ([CommSharedMem] in include/bpf_attach_ctx.hpp). Device threads and the watcher
    interleave at their accesses to the shared memory. *)
From Stdlib Require Import ZArith Lia.
From stdpp Require Import base list gmap strings.
From S2P Require Import Prelude MapCommon KernelUser MapHandler HandlerManager Shm.
From S2P Require Import Helpers.
Local Open Scope Z_scope.

(** ** The shared memory *)

(** [HelperOperation] *)
Definition MAP_LOOKUP := 1.
Definition MAP_UPDATE := 2.
Definition MAP_DELETE := 3.
Definition MAP_GET_NEXT_KEY := 4.
Definition TRACE_PRINTK := 6.
Definition GET_CURRENT_PID_TGID := 14.
Definition PUTS := 501.

(** [union HelperCallRequest]: the keys of the three map requests, the format of a
    trace and the text of [puts] all start at its first byte ([rq_data]); the value
    and the flags of an update lie 2^30 bytes further, and the arguments of a trace
    behind its 1000 bytes. *)
Record HelperCallRequest := mk_req {
  rq_data : bytes;
  rq_value : bytes;
  rq_flags : Z;
  rq_args : list Z
}.

(** [union HelperCallResponse]: a pointer, an [int] or a 64-bit number. *)
Inductive HelperCallResponse := RespValue (value : vptr) | RespResult (result : Z) | RespIds (result : Z).

Record CommSharedMem := mk_comm {
  cm_flag1 : Z;
  cm_flag2 : Z;
  cm_occupy_flag : Z;
  cm_request_id : Z;
  cm_map_id : Z;
  cm_req : HelperCallRequest;
  cm_resp : HelperCallResponse
}.

(** [memset(.., 0, ..)] in [create_cuda_context]; the request and the response are all
    zeros too. *)
Definition comm_new : CommSharedMem := mk_comm 0 0 0 0 0 (mk_req [] [] 0 []) (RespIds 0).

Definition set_flag1 (v : Z) (c : CommSharedMem) :=
  mk_comm v (cm_flag2 c) (cm_occupy_flag c) (cm_request_id c) (cm_map_id c) (cm_req c) (cm_resp c).
Definition set_flag2 (v : Z) (c : CommSharedMem) :=
  mk_comm (cm_flag1 c) v (cm_occupy_flag c) (cm_request_id c) (cm_map_id c) (cm_req c) (cm_resp c).
Definition set_occupy (v : Z) (c : CommSharedMem) :=
  mk_comm (cm_flag1 c) (cm_flag2 c) v (cm_request_id c) (cm_map_id c) (cm_req c) (cm_resp c).
Definition set_request_id (v : Z) (c : CommSharedMem) :=
  mk_comm (cm_flag1 c) (cm_flag2 c) (cm_occupy_flag c) v (cm_map_id c) (cm_req c) (cm_resp c).
Definition set_map_id (v : Z) (c : CommSharedMem) :=
  mk_comm (cm_flag1 c) (cm_flag2 c) (cm_occupy_flag c) (cm_request_id c) v (cm_req c) (cm_resp c).
Definition set_req (v : HelperCallRequest) (c : CommSharedMem) :=
  mk_comm (cm_flag1 c) (cm_flag2 c) (cm_occupy_flag c) (cm_request_id c) (cm_map_id c) v (cm_resp c).
Definition set_resp (v : HelperCallResponse) (c : CommSharedMem) :=
  mk_comm (cm_flag1 c) (cm_flag2 c) (cm_occupy_flag c) (cm_request_id c) (cm_map_id c) (cm_req c) v.

(** ** The device side *)

(** The helper a device thread calls, with its arguments; the bytes behind its
    pointers are those the helper copies. *)
Inductive gpu_call :=
| CallLookup (map : Z) (key : bytes)
| CallUpdate (map : Z) (key value : bytes) (flags : Z)
| CallDelete (map : Z) (key : bytes)
| CallPrintk (fmt : bytes) (arg1 arg2 arg3 : Z)
| CallPidTgid
| CallPuts (data : bytes).

Definition call_request_id (c : gpu_call) : Z :=
  match c with
  | CallLookup _ _ => MAP_LOOKUP
  | CallUpdate _ _ _ _ => MAP_UPDATE
  | CallDelete _ _ => MAP_DELETE
  | CallPrintk _ _ _ _ => TRACE_PRINTK
  | CallPidTgid => GET_CURRENT_PID_TGID
  | CallPuts _ => PUTS
  end.
Definition call_map_id (c : gpu_call) : Z :=
  match c with
  | CallLookup map _ | CallUpdate map _ _ _ | CallDelete map _ => map
  | CallPrintk _ _ _ _ | CallPidTgid | CallPuts _ => 0
  end.

(** [simple_memcpy] to the start of a region. *)
Definition simple_memcpy (bs region : bytes) : bytes := bs ++ drop (length bs) region.

(** What the helper stores into [req] before it calls [make_helper_call]. The device copies byte by
    byte and outside the lock; here the copy is one step, so that requests of several threads overwrite
    each other whole but do not mix byte-wise. What is proved of the handshake does not depend on the
    content of [req]. *)
Definition fill_request (c : gpu_call) (r : HelperCallRequest) : HelperCallRequest :=
  match c with
  | CallLookup _ key | CallDelete _ key =>
      mk_req (simple_memcpy key (rq_data r)) (rq_value r) (rq_flags r) (rq_args r)
  | CallUpdate _ key value flags =>
      mk_req (simple_memcpy key (rq_data r)) (simple_memcpy value (rq_value r)) flags (rq_args r)
  | CallPrintk fmt a1 a2 a3 =>
      mk_req (simple_memcpy fmt (rq_data r)) (rq_value r) (rq_flags r) [Z.of_nat (length fmt); a1; a2; a3]
  | CallPidTgid => r
  | CallPuts data => mk_req (simple_memcpy (data ++ [0]) (rq_data r)) (rq_value r) (rq_flags r) (rq_args r)
  end.

(** Where a device thread is: before the helper, with the request written, holding
    the lock, with the request id written, with the map id written, waiting for
    [flag2], having seen it, having reset it, with the response read, returned. *)
Inductive device_pc :=
| DStart | DFilled | DLocked | DRequestId | DMapId | DWaiting | DAnswered | DReset
| DResponse (r : HelperCallResponse) | DReturned (r : HelperCallResponse).

Record thread := mk_thread { th_call : gpu_call; th_pc : device_pc }.

(** ** The watcher *)

(** Polling [flag1], having cleared it, having read the request and the map id, having
    written the response. *)
Inductive host_pc := HPoll | HCleared | HRead (request_id map_id : Z) | HAnswered.

(** What the watcher served: the ids, the request it read and the response. *)
Record served := mk_served { sv_id : Z; sv_map : Z; sv_req : HelperCallRequest; sv_resp : HelperCallResponse }.

Record gpu (W : Type) := mk_gpu {
  g_comm : CommSharedMem;
  g_threads : list thread;
  g_host : host_pc;
  g_world : W;
  g_log : list served
}.
Arguments mk_gpu {W}.
Arguments g_comm {W}.
Arguments g_threads {W}.
Arguments g_host {W}.
Arguments g_world {W}.
Arguments g_log {W}.

Section protocol.
Context {W : Type}.
(** [serve id map req resp w]: the body of the watcher for one request; [None] when
    it does not come back. *)
Variable serve : Z -> Z -> HelperCallRequest -> HelperCallResponse -> W -> option (HelperCallResponse * W).
Implicit Types g : gpu W.

(** One access of device thread [i]; [None] while it spins or when it has returned. *)
Definition device_step (i : nat) g : option (gpu W) :=
  th ← g_threads g !! i;
  let c := th_call th in
  let m := g_comm g in
  let go m' pc := Some (mk_gpu m' (<[i := mk_thread c pc]> (g_threads g)) (g_host g) (g_world g) (g_log g)) in
  match th_pc th with
  | DStart => go (set_req (fill_request c (cm_req m)) m) DFilled
  | DFilled => if cm_occupy_flag m =? 0 then go (set_occupy 1 m) DLocked else None
  | DLocked => go (set_request_id (call_request_id c) m) DRequestId
  | DRequestId => go (set_map_id (call_map_id c) m) DMapId
  | DMapId => go (set_flag1 1 m) DWaiting
  | DWaiting => if cm_flag2 m =? 0 then None else go m DAnswered
  | DAnswered => go (set_flag2 0 m) DReset
  | DReset => go m (DResponse (cm_resp m))
  | DResponse r => go (set_occupy 0 m) (DReturned r)
  | DReturned _ => None
  end.

Definition host_step g : option (gpu W) :=
  let m := g_comm g in
  let go m' pc := Some (mk_gpu m' (g_threads g) pc (g_world g) (g_log g)) in
  match g_host g with
  | HPoll => if cm_flag1 m =? 1 then go (set_flag1 0 m) HCleared else None
  | HCleared => go m (HRead (cm_request_id m) (cm_map_id m))
  | HRead id map =>
      rw ← serve id map (cm_req m) (cm_resp m) (g_world g);
      Some (mk_gpu (set_resp rw.1 m) (g_threads g) HAnswered rw.2
              (g_log g ++ [mk_served id map (cm_req m) rw.1]))
  | HAnswered => go (set_flag2 1 m) HPoll
  end.

(** Any thread or the watcher moves. *)
Inductive gpu_step g : gpu W -> Prop :=
| step_device i g' : device_step i g = Some g' -> gpu_step g g'
| step_host g' : host_step g = Some g' -> gpu_step g g'.

Definition gpu_init (calls : list gpu_call) (w : W) : gpu W :=
  mk_gpu comm_new ((fun c => mk_thread c DStart) <$> calls) HPoll w [].

Definition reachable (calls : list gpu_call) (w : W) : gpu W -> Prop := rtc gpu_step (gpu_init calls w).

(** ** One call at a time *)

(** Inside [spin_lock] .. [spin_unlock]. *)
Definition holds_lock (pc : device_pc) : bool :=
  match pc with DStart | DFilled | DReturned _ => false | _ => true end.

(** What a returned thread asked for and got; what the watcher served. *)
Definition returned (th : thread) : option (Z * Z * HelperCallResponse) :=
  match th_pc th with
  | DReturned r => Some (call_request_id (th_call th), call_map_id (th_call th), r)
  | _ => None
  end.
Definition answer_of (s : served) : Z * Z * HelperCallResponse := (sv_id s, sv_map s, sv_resp s).

Definition idle g : Prop := cm_flag1 (g_comm g) = 0 /\ cm_flag2 (g_comm g) = 0 /\ g_host g = HPoll.
Definition ids_written (c : gpu_call) g : Prop :=
  cm_request_id (g_comm g) = call_request_id c /\ cm_map_id (g_comm g) = call_map_id c.
Definition pending (c : gpu_call) g : list (Z * Z * HelperCallResponse) :=
  [(call_request_id c, call_map_id c, cm_resp (g_comm g))].

(** The handshake, seen from the thread that holds the lock; [p] is the answer that
    has been written and not yet returned. *)
Definition handshake (c : gpu_call) (pc : device_pc) g (p : list (Z * Z * HelperCallResponse)) : Prop :=
  match pc with
  | DLocked => idle g /\ p = []
  | DRequestId => idle g /\ p = [] /\ cm_request_id (g_comm g) = call_request_id c
  | DMapId => idle g /\ p = [] /\ ids_written c g
  | DWaiting => ids_written c g /\
      ((cm_flag1 (g_comm g) = 1 /\ cm_flag2 (g_comm g) = 0 /\ g_host g = HPoll /\ p = []) \/
       (cm_flag1 (g_comm g) = 0 /\ cm_flag2 (g_comm g) = 0 /\ p = [] /\
        (g_host g = HCleared \/ g_host g = HRead (call_request_id c) (call_map_id c))) \/
       (cm_flag1 (g_comm g) = 0 /\ cm_flag2 (g_comm g) = 0 /\ p = pending c g /\ g_host g = HAnswered) \/
       (cm_flag1 (g_comm g) = 0 /\ cm_flag2 (g_comm g) = 1 /\ p = pending c g /\ g_host g = HPoll))
  | DAnswered => cm_flag1 (g_comm g) = 0 /\ cm_flag2 (g_comm g) = 1 /\ p = pending c g /\ g_host g = HPoll
  | DReset => idle g /\ p = pending c g
  | DResponse r => idle g /\ p = pending c g /\ r = cm_resp (g_comm g)
  | DStart | DFilled | DReturned _ => False
  end.

Definition holder_ok (h : option nat) g (p : list (Z * Z * HelperCallResponse)) : Prop :=
  match h with
  | None => idle g /\ p = [] /\ cm_occupy_flag (g_comm g) = 0
  | Some i => cm_occupy_flag (g_comm g) = 1 /\
      exists th, g_threads g !! i = Some th /\ handshake (th_call th) (th_pc th) g p
  end.

Record gpu_inv (calls : list gpu_call) (h : option nat) (p : list (Z * Z * HelperCallResponse)) g : Prop := {
  gi_calls : th_call <$> g_threads g = calls;
  gi_lock : forall j th, g_threads g !! j = Some th -> (holds_lock (th_pc th) = true <-> h = Some j);
  gi_holder : holder_ok h g p;
  gi_log : answer_of <$> g_log g ≡ₚ omap returned (g_threads g) ++ p
}.

Lemma omap_insert_same {A B} (f : A -> option B) (l : list A) i x y :
  l !! i = Some y -> f x = f y -> omap f (<[i := x]> l) = omap f l.
Proof.
  revert i. induction l as [|z l IH]; intros [|i] Hl Hf; simplify_eq/=; [by rewrite Hf|].
  by rewrite IH.
Qed.

Lemma omap_insert_new {A B} (f : A -> option B) (l : list A) i x y z :
  l !! i = Some y -> f y = None -> f x = Some z -> omap f (<[i := x]> l) ≡ₚ omap f l ++ [z].
Proof.
  revert i. induction l as [|w l IH]; intros [|i] Hl Hy Hx; simplify_eq/=.
  - rewrite Hx, Hy. apply Permutation_cons_append.
  - destruct (f w); simpl; by rewrite IH.
Qed.

Lemma fmap_insert_call i c pc (l : list thread) :
  (exists th, l !! i = Some th /\ th_call th = c) ->
  th_call <$> <[i := mk_thread c pc]> l = th_call <$> l.
Proof.
  intros (th & Hl & Hc). rewrite list_fmap_insert. apply list_insert_id.
  rewrite list_lookup_fmap, Hl. simpl. by rewrite Hc.
Qed.

Lemma gpu_inv_init calls w : gpu_inv calls None [] (gpu_init calls w).
Proof.
  split; simpl.
  - rewrite <- list_fmap_compose. apply list_fmap_id.
  - intros j th (c & -> & _)%list_lookup_fmap_Some. done.
  - done.
  - rewrite app_nil_r. induction calls; simpl; auto.
Qed.

(** A thread changes its place and nothing it says about its result; [h'] holds the
    lock afterwards. *)
Lemma gpu_inv_move calls h p g i th pc m h' p' :
  gpu_inv calls h p g -> g_threads g !! i = Some th ->
  returned (mk_thread (th_call th) pc) = returned th -> p' = p ->
  h' = (if holds_lock pc then Some i else if holds_lock (th_pc th) then None else h) ->
  (holds_lock pc = true -> holds_lock (th_pc th) = true \/ h = None) ->
  let g' := mk_gpu m (<[i := mk_thread (th_call th) pc]> (g_threads g)) (g_host g) (g_world g) (g_log g) in
  holder_ok h' g' p' -> gpu_inv calls h' p' g'.
Proof.
  intros [Hcalls Hlock Hhold Hlog] Hi Hret -> Hh' Hfree g' Hok. split.
  - simpl. rewrite fmap_insert_call; eauto.
  - intros j thj Hj. simpl in Hj. pose proof (Hlock i th Hi) as Hli.
    destruct (decide (i = j)) as [<-|Hij].
    + rewrite list_lookup_insert_eq in Hj by (by eapply lookup_lt_Some). simplify_eq/=.
      destruct (holds_lock pc); [done|]. destruct (holds_lock (th_pc th)); [done|].
      split; [done|]. intros ->. by apply Hli.
    + rewrite list_lookup_insert_ne in Hj by done. rewrite (Hlock j thj Hj), Hh'.
      destruct (holds_lock pc).
      * destruct (Hfree eq_refl) as [Ht| ->]; [|naive_solver]. apply Hli in Ht as ->. naive_solver.
      * destruct (holds_lock (th_pc th)); [|done]. rewrite (proj1 Hli eq_refl). naive_solver.
  - done.
  - simpl. by rewrite (omap_insert_same _ _ _ _ th).
Qed.

(** The thread that is inside is the holder. *)
Lemma holder_inside calls h p g i th :
  gpu_inv calls h p g -> g_threads g !! i = Some th -> holds_lock (th_pc th) = true ->
  h = Some i /\ cm_occupy_flag (g_comm g) = 1 /\ handshake (th_call th) (th_pc th) g p.
Proof.
  intros [_ Hlock Hhold _] Hi Hl. apply (Hlock i th Hi) in Hl as ->. split; [done|].
  destruct Hhold as (Ho & th' & Hi' & Hs). by simplify_eq.
Qed.

(** A thread outside fills its request: only the request changes. *)
Lemma holder_ok_fill h p g i th pc :
  holder_ok h g p -> g_threads g !! i = Some th -> h <> Some i ->
  holder_ok h (mk_gpu (set_req (fill_request (th_call th) (cm_req (g_comm g))) (g_comm g))
    (<[i := mk_thread (th_call th) pc]> (g_threads g)) (g_host g) (g_world g) (g_log g)) p.
Proof.
  intros Hok Hi Hne. destruct h as [j|]; [|done]. destruct Hok as (Ho & th' & Hj & Hs).
  split; [done|]. exists th'. simpl. rewrite list_lookup_insert_ne by congruence. split; [done|]. exact Hs.
Qed.

(** The holder moves on inside the lock. *)
Lemma gpu_inv_inside calls p g i th pc m :
  gpu_inv calls (Some i) p g -> g_threads g !! i = Some th -> holds_lock (th_pc th) = true ->
  holds_lock pc = true -> cm_occupy_flag m = 1 ->
  let g' := mk_gpu m (<[i := mk_thread (th_call th) pc]> (g_threads g)) (g_host g) (g_world g) (g_log g) in
  handshake (th_call th) pc g' p -> gpu_inv calls (Some i) p g'.
Proof.
  intros Hinv Hi Hold Hnew Hm g' Hs. apply (gpu_inv_move calls (Some i) p g i th pc m (Some i) p); try done.
  - unfold returned. by destruct (th_pc th), pc.
  - by rewrite Hnew.
  - by left.
  - split; [done|]. exists (mk_thread (th_call th) pc). simpl.
    rewrite list_lookup_insert_eq by (by eapply lookup_lt_Some). done.
Qed.

Lemma device_step_inv calls h p g i g' :
  gpu_inv calls h p g -> device_step i g = Some g' -> exists h' p', gpu_inv calls h' p' g'.
Proof.
  intros Hinv. unfold device_step. destruct (g_threads g !! i) as [th|] eqn:Hi; [|done].
  cbn [mbind option_bind]. pose proof (lookup_lt_Some _ _ _ Hi) as Hlt.
  pose proof (holder_inside calls h p g i th Hinv Hi) as Hin.
  assert (h = Some i -> holds_lock (th_pc th) = true) as Hout by apply (gi_lock _ _ _ _ Hinv i th Hi).
  destruct (th_pc th) eqn:Hpc; [| |destruct (Hin eq_refl) as (-> & Hocc & Hs)..|done].
  3-9: cbn [handshake] in Hs; unfold idle, ids_written in Hs.
  - intros [= <-]. exists h, p. apply (gpu_inv_move calls h p g i th); try done; rewrite ?Hpc; try done.
    { unfold returned. by rewrite Hpc. }
    apply holder_ok_fill; [apply (gi_holder _ _ _ _ Hinv)|done|]. intros ->. by specialize (Hout eq_refl).
  - destruct (Z.eqb_spec (cm_occupy_flag (g_comm g)) 0) as [H0|]; [|done]. intros [= <-].
    assert (h = None) as ->.
    { pose proof (gi_holder _ _ _ _ Hinv) as Hh. destruct h; [|done]. destruct Hh. lia. }
    destruct (gi_holder _ _ _ _ Hinv) as (Hidle & Hp & _). exists (Some i), p.
    apply (gpu_inv_move calls None p g i th); try done; rewrite ?Hpc; [by unfold returned; rewrite Hpc|by right|].
    split; [done|]. exists (mk_thread (th_call th) DLocked). simpl. by rewrite list_lookup_insert_eq.
  - intros [= <-]. exists (Some i), p. apply (gpu_inv_inside calls p g i th); rewrite ?Hpc; try done.
    unfold handshake, idle. simpl. naive_solver.
  - intros [= <-]. exists (Some i), p. apply (gpu_inv_inside calls p g i th); rewrite ?Hpc; try done.
    unfold handshake, idle, ids_written. simpl. naive_solver.
  - intros [= <-]. exists (Some i), p. apply (gpu_inv_inside calls p g i th); rewrite ?Hpc; try done.
    unfold handshake, idle, ids_written. simpl. naive_solver.
  - destruct (Z.eqb_spec (cm_flag2 (g_comm g)) 0) as [|H2]; [done|]. intros [= <-]. exists (Some i), p.
    apply (gpu_inv_inside calls p g i th); rewrite ?Hpc; try done. unfold handshake. simpl. naive_solver.
  - intros [= <-]. exists (Some i), p. apply (gpu_inv_inside calls p g i th); rewrite ?Hpc; try done.
    unfold handshake, idle. simpl. naive_solver.
  - intros [= <-]. exists (Some i), p. apply (gpu_inv_inside calls p g i th); rewrite ?Hpc; try done.
    unfold handshake, idle. simpl. naive_solver.
  - destruct Hs as (Hidle & -> & ->). intros [= <-]. exists None, []. destruct Hinv as [Hc Hl _ Hlog]. split; simpl.
    + rewrite fmap_insert_call; eauto.
    + intros j thj Hj. destruct (decide (i = j)) as [<-|Hij].
      * rewrite list_lookup_insert_eq in Hj by done. by simplify_eq/=.
      * rewrite list_lookup_insert_ne in Hj by done. rewrite (Hl j thj Hj). naive_solver.
    + done.
    + rewrite app_nil_r, Hlog. symmetry.
      eapply omap_insert_new; [done|unfold returned; by rewrite Hpc|done].
Qed.

(** Only a waiting holder leaves the watcher anything to do. *)
Lemma host_serves_holder calls h p g g' :
  gpu_inv calls h p g -> host_step g = Some g' ->
  exists i th, h = Some i /\ g_threads g !! i = Some th /\ th_pc th = DWaiting /\
    cm_occupy_flag (g_comm g) = 1 /\ handshake (th_call th) DWaiting g p.
Proof.
  intros [Hc Hl Hh Hlog] Hstep. unfold host_step in Hstep. destruct h as [i|].
  - destruct Hh as (Ho & th & Hi & Hs). exists i, th. split; [done|].
    destruct (th_pc th) eqn:Hpc; try done; exfalso; cbn [handshake] in Hs; unfold idle in Hs;
      (assert (g_host g = HPoll /\ cm_flag1 (g_comm g) = 0) as [Hp H1] by naive_solver);
      by rewrite Hp, H1 in Hstep.
  - exfalso. destruct Hh as ((H1 & _ & Hp) & _). rewrite Hp in Hstep.
    by rewrite H1 in Hstep.
Qed.

Lemma host_step_inv calls h p g g' :
  gpu_inv calls h p g -> host_step g = Some g' -> exists h' p', gpu_inv calls h' p' g'.
Proof.
  intros Hinv Hstep. pose proof (host_serves_holder _ _ _ _ _ Hinv Hstep) as (i & th & -> & Hi & Hpc & Hocc & Hs).
  destruct Hinv as [Hc Hl Hh Hlog].
  assert (forall m pc w l p', cm_occupy_flag m = 1 -> answer_of <$> l ≡ₚ omap returned (g_threads g) ++ p' ->
    handshake (th_call th) DWaiting (mk_gpu m (g_threads g) pc w l) p' ->
    gpu_inv calls (Some i) p' (mk_gpu m (g_threads g) pc w l)) as Hwait.
  { intros m pc w l p' Hm Hl' Hs'. split; try done. split; [done|]. exists th. by rewrite Hpc. }
  unfold host_step in Hstep. exists (Some i). destruct Hs as [Hids Hs].
  destruct (g_host g) as [| |id map|] eqn:Hhost.
  - destruct (Z.eqb_spec (cm_flag1 (g_comm g)) 1) as [Hf|]; [|done]. injection Hstep as <-. exists p.
    apply Hwait; [done..|]. split; [done|]. right. left. simpl.
    destruct Hs as [(_ & H2 & _ & Hp)|[(H1 & _)|[(H1 & _)|(H1 & _)]]]; [by auto|lia..].
  - injection Hstep as <-. exists p. apply Hwait; [done..|]. split; [done|]. right. left. simpl.
    destruct Hids as [-> ->].
    destruct Hs as [(_ & _ & Hp & _)|[(H1 & H2 & Hp & _)|[(_ & _ & _ & Hp)|(_ & _ & _ & Hp)]]];
      [congruence|by auto|congruence..].
  - destruct (serve id map _ _ _) as [[r w]|] eqn:Hsv; [|done]. injection Hstep as <-.
    destruct Hs as [(_ & _ & Hp & _)|[(H1 & H2 & -> & [Hp|Hp])|[(_ & _ & _ & Hp)|(_ & _ & _ & Hp)]]];
      [congruence..| |congruence|congruence].
    injection Hp as -> ->.
    exists [(call_request_id (th_call th), call_map_id (th_call th), r)]. apply Hwait; [done| |].
    + rewrite fmap_app, Hlog, app_nil_r. done.
    + split; [done|]. right. right. left. done.
  - injection Hstep as <-. exists p. apply Hwait; [done..|]. split; [done|]. right. right. right. simpl.
    destruct Hs as [(_ & _ & Hp & _)|[(_ & _ & _ & [Hp|Hp])|[(H1 & H2 & Hp & _)|(_ & _ & _ & Hp)]]];
      [congruence..|by auto|congruence].
Qed.

Lemma reachable_inv calls w g : reachable calls w g -> exists h p, gpu_inv calls h p g.
Proof.
  intros Hr. unfold reachable in Hr. remember (gpu_init calls w) as g0 eqn:H0.
  assert (exists h p, gpu_inv calls h p g0) as Hg0 by (subst; eauto using gpu_inv_init). clear H0.
  induction Hr as [|g0 g1 g2 Hstep _ IH]; [done|]. apply IH. destruct Hg0 as (h & p & Hinv).
  destruct Hstep; [by eapply device_step_inv|by eapply host_step_inv].
Qed.

Lemma pending_short calls h p g : gpu_inv calls h p g -> (length p <= 1)%nat.
Proof.
  intros [_ _ Hh _]. destruct h as [i|]; [|by destruct Hh as (_ & -> & _); simpl; lia].
  destruct Hh as (_ & th & _ & Hs). destruct (th_pc th); cbn [handshake] in Hs; unfold pending in Hs; try done.
  1-3: by destruct Hs as (_ & -> & _) || destruct Hs as (_ & ->); simpl; lia.
  - destruct Hs as (_ & [(_ & _ & _ & ->)|[(_ & _ & -> & _)|[(_ & _ & -> & _)|(_ & _ & -> & _)]]]); simpl; lia.
  - destruct Hs as (_ & _ & -> & _). simpl. lia.
  - destruct Hs as (_ & ->). simpl. lia.
  - destruct Hs as (_ & -> & _). simpl. lia.
Qed.

(** *** Every call is answered once, with the answer to its own operation and map *)

(** C20. Whatever the interleaving: at most one thread is between lock and unlock, and
    the responses the watcher has written, each with the operation and the map it
    was written for, are exactly those that returned calls got for the operation
    and the map they asked for, plus at most one that is on its way. *)
Theorem gpu_calls_answered calls w g :
  reachable calls w g ->
  (forall i j thi thj, g_threads g !! i = Some thi -> g_threads g !! j = Some thj ->
   holds_lock (th_pc thi) = true -> holds_lock (th_pc thj) = true -> i = j) /\
  (exists p, (length p <= 1)%nat /\ answer_of <$> g_log g ≡ₚ omap returned (g_threads g) ++ p) /\
  (forall i th r, g_threads g !! i = Some th -> th_pc th = DReturned r ->
   exists s, s ∈ g_log g /\ sv_id s = call_request_id (th_call th) /\ sv_map s = call_map_id (th_call th) /\
     sv_resp s = r).
Proof.
  intros (h & p & Hinv)%reachable_inv. pose proof (pending_short _ _ _ _ Hinv). destruct Hinv as [_ Hl _ Hlog].
  split_and!; [|by eauto|].
  - intros i j thi thj Hi Hj Hhi Hhj. apply (Hl i thi Hi) in Hhi. apply (Hl j thj Hj) in Hhj. congruence.
  - intros i th r Hi Hpc.
    assert ((call_request_id (th_call th), call_map_id (th_call th), r) ∈ answer_of <$> g_log g) as Hin.
    { rewrite Hlog. apply elem_of_app. left. apply list_elem_of_omap. exists th.
      split; [by eapply list_elem_of_lookup_2|]. unfold returned. by rewrite Hpc. }
    apply list_elem_of_fmap in Hin as (s & Hs & Hin). exists s. unfold answer_of in Hs. by simplify_eq.
Qed.

(** *** Calls complete *)

(** The accesses a thread still makes, the watcher's included once it has not been
    called; the accesses the watcher still makes. *)
Definition remaining (pc : device_pc) : nat :=
  match pc with
  | DStart => 13 | DFilled => 12 | DLocked => 11 | DRequestId => 10 | DMapId => 9
  | DWaiting => 4 | DAnswered => 3 | DReset => 2 | DResponse _ => 1 | DReturned _ => 0
  end.
Definition host_remaining g : nat :=
  match g_host g with
  | HPoll => if cm_flag1 (g_comm g) =? 1 then 4 else 0
  | HCleared => 3 | HRead _ _ => 2 | HAnswered => 1
  end.
Definition work g : nat := sum_list_with (fun th => remaining (th_pc th)) (g_threads g) + host_remaining g.

Lemma work_zero g : work g = 0%nat -> Forall (fun th => is_Some (returned th)) (g_threads g).
Proof.
  unfold work. intros Hw. assert (sum_list_with (fun th => remaining (th_pc th)) (g_threads g) = 0%nat) as Hs by lia.
  clear Hw. induction (g_threads g) as [|th l IH]; [done|]. simpl in Hs. constructor; [|apply IH; lia].
  unfold returned. destruct (th_pc th); simpl in Hs; try lia. eauto.
Qed.

Lemma sum_insert (f : thread -> nat) (l : list thread) i x y :
  l !! i = Some y -> (sum_list_with f (<[i := x]> l) + f y = sum_list_with f l + f x)%nat.
Proof.
  revert i. induction l as [|z l IH]; intros [|i] Hl; simplify_eq/=; [lia|]. specialize (IH i Hl). lia.
Qed.

(** Some thread or the watcher can move whenever a call is not finished, and the move
    is progress. *)
Lemma gpu_progress calls h p g :
  (forall id map rq rs w, is_Some (serve id map rq rs w)) -> gpu_inv calls h p g -> work g <> 0%nat ->
  exists g', gpu_step g g' /\ work g = S (work g').
Proof.
  intros Hserve Hinv Hw.
  assert (forall i th pc m, g_threads g !! i = Some th ->
    device_step i g = Some (mk_gpu m (<[i := mk_thread (th_call th) pc]> (g_threads g)) (g_host g) (g_world g) (g_log g)) ->
    (remaining (th_pc th) + host_remaining g =
     S (remaining pc + host_remaining (mk_gpu m [] (g_host g) (g_world g) (g_log g))))%nat ->
    exists g', gpu_step g g' /\ work g = S (work g')) as Hdev.
  { intros i th pc m Hi Hstep Hrem. eexists. split; [by eapply step_device|]. unfold work. simpl.
    pose proof (sum_insert (fun th => remaining (th_pc th)) (g_threads g) i (mk_thread (th_call th) pc) th Hi).
    unfold host_remaining in *. simpl in *. lia. }
  assert (forall m pc w l, host_step g = Some (mk_gpu m (g_threads g) pc w l) ->
    host_remaining g = S (host_remaining (mk_gpu m (g_threads g) pc w l)) ->
    exists g', gpu_step g g' /\ work g = S (work g')) as Hhost.
  { intros m pc w l Hstep Hrem. eexists. split; [by apply step_host|]. unfold work. simpl. lia. }
  destruct h as [i|].
  - destruct (gi_holder _ _ _ _ Hinv) as (Hocc & th & Hi & Hs). unfold device_step, host_step in *.
    specialize (Hdev i th). rewrite Hi in Hdev. cbn [mbind option_bind] in Hdev. unfold host_remaining in *.
    destruct (th_pc th) eqn:Hpc; cbn [handshake] in Hs; unfold idle, ids_written in Hs; try done.
    1-3,5-7: (assert (g_host g = HPoll /\ cm_flag1 (g_comm g) = 0) as [Hp Hf] by naive_solver);
      eapply Hdev; [done|done|]; simpl; rewrite Hp, ?Hf; simpl; lia.
    destruct Hs as (_ & [(H1 & H2 & Hp & _)|[(H1 & H2 & _ & [Hp|Hp])|[(H1 & H2 & _ & Hp)|(H1 & H2 & _ & Hp)]]]);
      rewrite Hp, ?H1, ?H2 in Hdev; rewrite Hp, ?H1, ?H2 in Hhost.
    + eapply Hhost; [done|]. simpl. done.
    + eapply Hhost; [done|]. simpl. done.
    + destruct (Hserve (call_request_id (th_call th)) (call_map_id (th_call th)) (cm_req (g_comm g)) (cm_resp (g_comm g))
        (g_world g)) as [[r w] Hsv].
      eapply Hhost; [by rewrite Hsv|]. done.
    + eapply Hhost; [done|]. simpl. by rewrite H1.
    + eapply Hdev; [done|done|]. simpl. rewrite H1. simpl. lia.
  - destruct (gi_holder _ _ _ _ Hinv) as ((H1 & H2 & Hp) & _ & Hocc).
    assert (exists i th, g_threads g !! i = Some th /\ remaining (th_pc th) <> 0%nat) as (i & th & Hi & Hrem).
    { assert (host_remaining g = 0%nat) as H0 by (unfold host_remaining; by rewrite Hp, H1).
      unfold work in Hw. rewrite H0, Nat.add_0_r in Hw. clear -Hw.
      induction (g_threads g) as [|th l IH]; [done|]. simpl in Hw.
      destruct (decide (remaining (th_pc th) = 0)%nat) as [E|]; [|by exists 0%nat, th].
      destruct IH as (i & th' & ? & ?); [lia|]. by exists (S i), th'. }
    pose proof (gi_lock _ _ _ _ Hinv i th Hi) as Hl. specialize (Hdev i th). unfold device_step in Hdev.
    rewrite Hi in Hdev. cbn [mbind option_bind] in Hdev. unfold host_remaining in Hdev.
    destruct (th_pc th) eqn:Hpc; try (by exfalso; discriminate (proj1 Hl eq_refl)); simpl in Hrem; [| |done];
      eapply Hdev; rewrite ?Hocc; try done; simpl; rewrite Hp, H1; simpl; lia.
Qed.

(** C30. When every request the watcher reads is served, every call can complete from
    every reachable state: no interleaving leads into a deadlock, and the number of
    accesses left is [work], 13 for each call that has not started. *)
Theorem gpu_calls_complete calls w g :
  (forall id map rq rs w, is_Some (serve id map rq rs w)) -> reachable calls w g ->
  exists g', nsteps gpu_step (work g) g g' /\ Forall (fun th => is_Some (returned th)) (g_threads g') /\
    th_call <$> g_threads g' = calls.
Proof.
  intros Hserve (h & p & Hinv)%reachable_inv. remember (work g) as n eqn:Hn. revert g h p Hinv Hn.
  induction n as [|n IH]; intros g h p Hinv Hn.
  - exists g. split; [constructor|]. split; [by apply work_zero|]. apply (gi_calls _ _ _ _ Hinv).
  - destruct (gpu_progress calls h p g Hserve Hinv) as (g1 & Hstep & Hw); [lia|].
    assert (exists h' p', gpu_inv calls h' p' g1) as (h' & p' & Hinv')
      by (destruct Hstep; [by eapply device_step_inv|by eapply host_step_inv]).
    destruct (IH g1 h' p' Hinv') as (g' & Hrun & Hall); [lia|].
    exists g'. split; [by eapply nsteps_l|done].
Qed.

(** *** A single caller *)

Definition no_request : HelperCallRequest := mk_req [] [] 0 [].

(** With one caller: either nothing was served yet and the request in the shared
    memory is the caller's, or its request was served. *)
Definition single (c : gpu_call) (w : W) g : Prop :=
  (g_log g = [] /\ g_world g = w /\ cm_resp (g_comm g) = RespIds 0 /\
   exists pc, g_threads g = [mk_thread c pc] /\
     cm_req (g_comm g) = match pc with DStart => no_request | _ => fill_request c no_request end) \/
  (exists s, g_log g = [s] /\ sv_resp s = cm_resp (g_comm g) /\
   serve (call_request_id c) (call_map_id c) (fill_request c no_request) (RespIds 0) w =
     Some (cm_resp (g_comm g), g_world g) /\
   exists pc, g_threads g = [mk_thread c pc] /\ pc <> DStart).

Lemma single_device c w g i g' : single c w g -> device_step i g = Some g' -> single c w g'.
Proof.
  intros Hs Hstep. unfold device_step in Hstep.
  assert (exists pc, g_threads g = [mk_thread c pc]) as [pc Hth] by (destruct Hs as [(_ & _ & _ & pc & H & _)|
    (_ & _ & _ & _ & pc & H & _)]; eauto).
  rewrite Hth in Hstep. destruct i as [|i]; [|done]. cbn [mbind option_bind lookup list_lookup th_call th_pc] in Hstep.
  assert (forall f : CommSharedMem -> CommSharedMem, forall pc',
    cm_resp (f (g_comm g)) = cm_resp (g_comm g) ->
    (cm_req (f (g_comm g)) = cm_req (g_comm g) /\ pc <> DStart \/
     cm_req (f (g_comm g)) = fill_request c (cm_req (g_comm g)) /\ pc = DStart) -> pc' <> DStart ->
    single c w (mk_gpu (f (g_comm g)) [mk_thread c pc'] (g_host g) (g_world g) (g_log g))) as Hmove.
  { intros f pc' Hresp Hreq Hpc'. destruct Hs as [(Hl & Hw & Hr & pc0 & Hth' & Hq)|(s & Hl & Hr & Hsv & pc0 & Hth' & Hne)];
      rewrite Hth in Hth'; injection Hth' as <-.
    - left. simpl. rewrite Hresp. split_and!; try done. exists pc'. split; [done|].
      replace (match pc' with DStart => _ | _ => _ end) with (fill_request c no_request) by (by destruct pc').
      destruct Hreq as [[-> Hne]|[-> ->]]; rewrite Hq; [by destruct pc|done].
    - right. exists s. simpl. rewrite Hresp. split_and!; eauto. }
  destruct pc; cbn in Hstep; try (destruct (_ =? _)); simplify_eq/=.
  - apply (Hmove (fun m => set_req (fill_request c (cm_req m)) m)); auto.
  - apply (Hmove (set_occupy 1)); auto.
  - apply (Hmove (set_request_id (call_request_id c))); auto.
  - apply (Hmove (set_map_id (call_map_id c))); auto.
  - apply (Hmove (set_flag1 1)); auto.
  - apply (Hmove (fun m => m)); auto.
  - apply (Hmove (set_flag2 0)); auto.
  - apply (Hmove (fun m => m)); auto.
  - apply (Hmove (set_occupy 0)); auto.
Qed.

Lemma single_host c w g h p g' :
  gpu_inv [c] h p g -> single c w g -> host_step g = Some g' -> single c w g'.
Proof.
  intros Hinv Hs Hstep. pose proof (host_serves_holder _ _ _ _ _ Hinv Hstep) as (i & th & -> & Hi & Hpc & _ & _ & Hcase).
  assert (g_threads g = [mk_thread c DWaiting]) as Hth.
  { assert (exists pc, g_threads g = [mk_thread c pc]) as [pc Hth] by (destruct Hs as [(_ & _ & _ & pc & H & _)|
      (_ & _ & _ & _ & pc & H & _)]; eauto).
    rewrite Hth in Hi |- *. destruct i as [|i]; [|done]. by simplify_eq/=. }
  rewrite Hth in Hi. destruct i as [|i]; [|done]. injection Hi as <-. cbn [th_call] in Hcase.
  assert (forall f : CommSharedMem -> CommSharedMem, forall pc,
    cm_resp (f (g_comm g)) = cm_resp (g_comm g) -> cm_req (f (g_comm g)) = cm_req (g_comm g) ->
    single c w (mk_gpu (f (g_comm g)) (g_threads g) pc (g_world g) (g_log g))) as Hmove.
  { intros f pc Hresp Hreq. unfold single in *. simpl. by rewrite Hresp, Hreq. }
  unfold host_step in Hstep. destruct (g_host g) as [| |id map|] eqn:Hhost.
  - destruct (_ =? _); [|done]. injection Hstep as <-. by apply (Hmove (set_flag1 0)).
  - injection Hstep as <-. by apply (Hmove (fun m => m)).
  - destruct Hcase as [(_ & _ & Hp & _)|[(_ & _ & -> & [Hp|Hp])|[(_ & _ & _ & Hp)|(_ & _ & _ & Hp)]]]; try congruence.
    injection Hp as -> ->. pose proof (gi_log _ _ _ _ Hinv) as Hlog. rewrite Hth in Hlog. simpl in Hlog.
    apply Permutation_sym, Permutation_nil, fmap_nil_inv in Hlog.
    destruct Hs as [(_ & Hw & Hr & pc0 & Hth' & Hq)|(s & Hl & _)]; [|congruence].
    rewrite Hth in Hth'. injection Hth' as <-. rewrite Hq, Hr, Hw in Hstep.
    destruct (serve _ _ _ _ _) as [[r w']|] eqn:Hsv; [|done]. injection Hstep as <-. rewrite Hlog. right.
    eexists. simpl. split_and!; eauto.
  - injection Hstep as <-. by apply (Hmove (set_flag2 1)).
Qed.

Lemma reachable_single c w g : reachable [c] w g -> single c w g /\ exists h p, gpu_inv [c] h p g.
Proof.
  intros Hr. unfold reachable in Hr. remember (gpu_init [c] w) as g0 eqn:H0.
  assert (single c w g0 /\ exists h p, gpu_inv [c] h p g0) as Hg0.
  { subst. split; [|by eauto using gpu_inv_init]. left. simpl. split_and!; eauto. }
  clear H0. induction Hr as [|g0 g1 g2 Hstep _ IH]; [done|]. apply IH. destruct Hg0 as (Hs & h & p & Hinv).
  destruct Hstep; (split; [by eauto using single_device, single_host|]);
    [by eapply device_step_inv|by eapply host_step_inv].
Qed.

(** When one device thread calls at a time, its call is exactly one service of the
    watcher on its own request: the result is the watcher's answer, and the host
    state is the one the watcher leaves. *)
Theorem gpu_single_call c w g r :
  reachable [c] w g -> g_threads g = [mk_thread c (DReturned r)] ->
  serve (call_request_id c) (call_map_id c) (fill_request c no_request) (RespIds 0) w = Some (r, g_world g).
Proof.
  intros [Hs (h & p & Hinv)]%reachable_single Hth. pose proof (gi_log _ _ _ _ Hinv) as Hlog.
  rewrite Hth in Hlog. simpl in Hlog. destruct Hs as [(Hl & _)|(s & Hl & Hr & Hsv & _)]; rewrite Hl in Hlog.
  { by apply Permutation_nil in Hlog. }
  pose proof (Permutation_length Hlog) as Hlen. simpl in Hlen. destruct p; [|simpl in Hlen; lia].
  apply Permutation_sym, Permutation_length_1_inv in Hlog. injection Hlog as _ _ Hres.
  congruence.
Qed.

End protocol.

(** ** What the watcher runs *)

Section host.
Context {K : Type} `{Runtime K, !Os K}.
Abbreviation SH := (M (bpftime_shm K)).

(** The branches on [req_id]. The map id of a request is the descriptor, [int fd]. *)
Definition serve_request (tgid tid id map : Z) (rq : HelperCallRequest) (rs : HelperCallResponse)
    : SH HelperCallResponse :=
  let map_fd := s32 map in
  if id =? MAP_LOOKUP then
    v ← bpftime_map_lookup_elem map_fd (Some (rq_data rq)); mret (RespValue v)
  else if id =? MAP_UPDATE then
    r ← bpftime_map_update_elem map_fd (Some (rq_data rq)) (Some (rq_value rq)) (rq_flags rq);
    mret (RespResult (s32 r))
  else if id =? MAP_DELETE then
    r ← bpftime_map_delete_elem map_fd (Some (rq_data rq)); mret (RespResult (s32 r))
  else if id =? TRACE_PRINTK then mret (RespResult 0)
  else if id =? GET_CURRENT_PID_TGID then mret (RespIds (bpftime_get_current_pid_tgid tgid tid))
  else if id =? PUTS then mret (RespResult 0)
  else mret rs.

(** One service as a step of the watcher, whose thread has its own errno. *)
Definition serve_host (tgid tid id map : Z) (rq : HelperCallRequest) (rs : HelperCallResponse)
    (w : bpftime_shm K * Z) : option (HelperCallResponse * (bpftime_shm K * Z)) :=
  match serve_request tgid tid id map rq rs w.1 w.2 with
  | Ok a s e => Some (a, (s, e))
  | _ => None
  end.

(** A map operation of a single GPU thread is the system-call operation of the host
    on the same descriptor with the same key: same result, same effect on the
    shared memory. *)
Theorem gpu_map_calls_are_host_calls tgid tid map key value flags s e g r :
  - 2 ^ 31 <= map < 2 ^ 31 ->
  (reachable (serve_host tgid tid) [CallLookup map key] (s, e) g ->
   g_threads g = [mk_thread (CallLookup map key) (DReturned r)] ->
   exists v, r = RespValue v /\ bpftime_map_lookup_elem map (Some key) s e = Ok v (g_world g).1 (g_world g).2) /\
  (reachable (serve_host tgid tid) [CallUpdate map key value flags] (s, e) g ->
   g_threads g = [mk_thread (CallUpdate map key value flags) (DReturned r)] ->
   exists v, r = RespResult (s32 v) /\
     bpftime_map_update_elem map (Some key) (Some value) flags s e = Ok v (g_world g).1 (g_world g).2) /\
  (reachable (serve_host tgid tid) [CallDelete map key] (s, e) g ->
   g_threads g = [mk_thread (CallDelete map key) (DReturned r)] ->
   exists v, r = RespResult (s32 v) /\
     bpftime_map_delete_elem map (Some key) s e = Ok v (g_world g).1 (g_world g).2).
Proof.
  intros Hmap. assert (forall bs : bytes, simple_memcpy bs [] = bs) as Hcopy
    by (intros bs; unfold simple_memcpy; by rewrite drop_nil, app_nil_r).
  split_and!; intros Hr Hth; pose proof (gpu_single_call _ _ _ _ _ Hr Hth) as Hsv;
    unfold serve_host, serve_request in Hsv; cbn [call_request_id call_map_id fill_request no_request rq_data rq_value
      rq_flags fst snd] in Hsv; cbn [Z.eqb MAP_LOOKUP MAP_UPDATE MAP_DELETE Pos.eqb] in Hsv;
    rewrite s32_small, ?Hcopy in Hsv by lia; revert Hsv; mbase.
  - destruct (bpftime_map_lookup_elem map (Some key) s e) as [v s' e'| |]; [|done..]. intros [= <- <-]. eauto.
  - destruct (bpftime_map_update_elem map (Some key) (Some value) flags s e) as [v s' e'| |]; [|done..].
    intros [= <- <-]. eauto.
  - destruct (bpftime_map_delete_elem map (Some key) s e) as [v s' e'| |]; [|done..]. intros [= <- <-]. eauto.
Qed.

(** ** The map table of the device *)

Record MapBasicInfo := mk_info { mb_enabled : bool; mb_key_size : Z; mb_value_size : Z; mb_max_entries : Z }.
Definition no_info : MapBasicInfo := mk_info false 0 0 0.

Definition info_of (h : bpf_map_handler) : MapBasicInfo :=
  mk_info true (s32 (mh_key_size h)) (s32 (get_value_size h)) (s32 (mh_max_entries h)).

(** The handlers from [i] on; the log line reads [local_basic_info[i]] before the
    bound is checked. *)
Fixpoint copy_infos (l : list handler_variant) (i : nat) (infos : list MapBasicInfo) : option (list MapBasicInfo) :=
  match l with
  | [] => Some infos
  | MapH h :: l' =>
      if (i <? length infos)%nat then copy_infos l' (S i) (<[i := info_of h]> infos) else None
  | _ :: l' => copy_infos l' (S i) infos
  end.
Definition create_map_basic_info (filled_size : nat) (g : manager K) : option (list MapBasicInfo) :=
  copy_infos (hm_handlers g) 0 (replicate filled_size no_info).

(** What the device is told about a descriptor. *)
Definition info_at (o : option handler_variant) : MapBasicInfo :=
  match o with Some (MapH h) => info_of h | _ => no_info end.

Lemma copy_infos_none l i infos :
  (forall j h, l !! j <> Some (MapH h)) -> copy_infos l i infos = Some infos.
Proof.
  revert i. induction l as [|v l IH]; intros i Hl; [done|]. cbn [copy_infos].
  destruct v as [|h| | | |]; try (apply IH; intros j h; apply (Hl (S j))). by destruct (Hl 0%nat h).
Qed.

Lemma copy_infos_run l n pre :
  (forall j h, l !! j = Some (MapH h) -> (j < n)%nat) ->
  copy_infos l (length pre) (pre ++ replicate n no_info) =
  Some (pre ++ ((fun j => info_at (l !! j)) <$> seq 0 n)).
Proof.
  revert n pre. induction l as [|v l IH]; intros n pre Hl.
  { simpl. do 2 f_equal. rewrite <- (length_seq n 0) at 1. by rewrite <- const_fmap with (f := fun _ => no_info). }
  destruct n as [|n].
  { rewrite copy_infos_none; [done|]. intros j h Hj. specialize (Hl j h Hj). lia. }
  assert (forall x, copy_infos l (S (length pre)) (pre ++ x :: replicate n no_info) =
    Some (pre ++ x :: ((fun j => info_at ((v :: l) !! S j)) <$> seq 0 n))) as Hrest.
  { intros x. specialize (IH n (pre ++ [x])). rewrite length_app, Nat.add_comm, <- !app_assoc in IH.
    apply IH. intros j h Hj. specialize (Hl (S j) h Hj). lia. }
  cbn [seq replicate]. rewrite <- fmap_S_seq, fmap_cons, <- list_fmap_compose.
  destruct v as [|h| | | |]; cbn [copy_infos]; try (exact (Hrest no_info)).
  rewrite (proj2 (Nat.ltb_lt _ _)) by (rewrite length_app; simpl; lia).
  rewrite insert_app_r_alt, Nat.sub_diag by lia. exact (Hrest (info_of h)).
Qed.

(** The table tells the device the sizes of every map, and nothing about the other
    descriptors, as long as no map has a descriptor outside the table; a map outside
    the table is a read behind its end. *)
Theorem map_basic_info_spec filled_size (g : manager K) :
  ((forall i h, hm_handlers g !! i = Some (MapH h) -> (i < filled_size)%nat) ->
   exists infos, create_map_basic_info filled_size g = Some infos /\ length infos = filled_size /\
     forall i, (i < filled_size)%nat -> infos !! i = Some (info_at (hm_handlers g !! i))) /\
  ((exists i h, hm_handlers g !! i = Some (MapH h) /\ (filled_size <= i)%nat) ->
   create_map_basic_info filled_size g = None).
Proof.
  split.
  - intros Hmaps. eexists. split; [by apply (copy_infos_run _ _ [])|]. rewrite app_nil_l, length_fmap, length_seq.
    split; [done|]. intros i Hi. rewrite list_lookup_fmap, lookup_seq_lt by done. done.
  - intros (i & h & Hi & Hge). unfold create_map_basic_info.
    assert (forall l j infos i, l !! i = Some (MapH h) -> (length infos <= j + i)%nat -> copy_infos l j infos = None) as Hno.
    { intros l. induction l as [|v l IH]; intros j infos i' Hi' Hlen; [done|]. cbn [copy_infos].
      destruct i' as [|i']; [|by destruct v; try (destruct (_ <? _)%nat; [|done]); eapply IH; eauto;
        rewrite ?length_insert; lia].
      injection Hi' as ->. rewrite (proj2 (Nat.ltb_ge _ _)); [done|lia]. }
    eapply Hno; [exact Hi|]. rewrite length_replicate. lia.
Qed.

End host.

(** ** The request is written before the lock is taken

    The helpers copy their arguments into the shared request before
    [make_helper_call] takes the lock. With this schedule, both threads are answered
    for the key of the second one: the first asked for key 7 and gets the value of
    key 9. *)

(** A schedule: [Some i] for device thread [i], [None] for the watcher. *)
Definition run_gpu {W} serve (sched : list (option nat)) (g : gpu W) : option (gpu W) :=
  foldl (fun o a => g ← o; match a with Some i => device_step i g | None => host_step serve g end) (Some g) sched.

(** A host whose lookups return the first byte of the key. *)
Definition echo_key (id map : Z) (rq : HelperCallRequest) (rs : HelperCallResponse) (w : unit)
    : option (HelperCallResponse * unit) := Some (RespIds (hd 0 (rq_data rq)), w).

Definition racy_schedule : list (option nat) :=
  [Some 0%nat; Some 1%nat] ++ flat_map (fun i => replicate 4 (Some i) ++ replicate 4 None ++ replicate 4 (Some i)) [0%nat; 1%nat].

Theorem gpu_request_overwritten :
  option_map (fun g => (th_pc <$> g_threads g, sv_req <$> g_log g))
    (run_gpu echo_key racy_schedule (gpu_init [CallLookup 3 [7]; CallLookup 3 [9]] tt)) =
  Some ([DReturned (RespIds 9); DReturned (RespIds 9)],
        [mk_req [9] [] 0 []; mk_req [9] [] 0 []]).
Proof. vm_compute. reflexivity. Qed.

(** ** Witnesses *)

Lemma run_gpu_reachable {W} serve sched (g g' : gpu W) :
  run_gpu serve sched g = Some g' -> rtc (gpu_step serve) g g'.
Proof.
  unfold run_gpu. revert g. induction sched as [|a sched IH]; intros g; simpl.
  { intros [= ->]. constructor. }
  destruct (match a with Some i => device_step i g | None => host_step serve g end) as [g1|] eqn:Hstep; intros Hrun.
  - eapply rtc_l; [|by apply IH]. destruct a; by econstructor.
  - exfalso. revert Hrun. clear. induction sched as [|b sched IH]; simpl; [done|]. apply IH.
Qed.

(** One call from start to end. *)
Definition one_call (i : nat) : list (option nat) :=
  replicate 5 (Some i) ++ replicate 4 None ++ replicate 4 (Some i).

(** Thread 0 has returned, thread 1 waits for its answer. *)
Definition busy_gpu : gpu unit :=
  default (gpu_init [] tt) (run_gpu echo_key (one_call 0 ++ replicate 5 (Some 1%nat) ++ replicate 3 None)
    (gpu_init [CallLookup 3 [7]; CallPidTgid] tt)).

Lemma busy_gpu_reachable : reachable echo_key [CallLookup 3 [7]; CallPidTgid] tt busy_gpu.
Proof.
  apply (run_gpu_reachable echo_key (one_call 0 ++ replicate 5 (Some 1%nat) ++ replicate 3 None)).
  vm_compute. reflexivity.
Qed.

Lemma gpu_calls_answered_witness :
  exists s, s ∈ g_log busy_gpu /\ sv_id s = MAP_LOOKUP /\ sv_map s = 3 /\ sv_resp s = RespIds 7.
Proof.
  exact (proj2 (proj2 (gpu_calls_answered echo_key [CallLookup 3 [7]; CallPidTgid] tt busy_gpu busy_gpu_reachable))
    0%nat (mk_thread (CallLookup 3 [7]) (DReturned (RespIds 7))) (RespIds 7) eq_refl eq_refl).
Defined.

Lemma gpu_calls_complete_witness :
  exists g', nsteps (gpu_step echo_key) 5 busy_gpu g' /\ Forall (fun th => is_Some (returned th)) (g_threads g') /\
    th_call <$> g_threads g' = [CallLookup 3 [7]; CallPidTgid].
Proof.
  exact (gpu_calls_complete echo_key [CallLookup 3 [7]; CallPidTgid] tt busy_gpu
    (fun _ _ _ _ _ => ex_intro _ _ eq_refl) busy_gpu_reachable).
Defined.

Definition alone_gpu : gpu unit :=
  default (gpu_init [] tt) (run_gpu echo_key (one_call 0) (gpu_init [CallDelete 3 [8]] tt)).

Lemma alone_gpu_reachable : reachable echo_key [CallDelete 3 [8]] tt alone_gpu.
Proof. apply (run_gpu_reachable echo_key (one_call 0)). vm_compute. reflexivity. Qed.

Lemma gpu_single_call_witness :
  echo_key MAP_DELETE 3 (mk_req [8] [] 0 []) (RespIds 0) tt = Some (RespIds 8, g_world alone_gpu).
Proof.
  exact (gpu_single_call echo_key (CallDelete 3 [8]) tt alone_gpu (RespIds 8) alone_gpu_reachable eq_refl).
Defined.

(** A lookup of the array map of [epoll_shm], from the GPU. *)
Abbreviation toy_serve := (@serve_host (list bytes) toy_runtime 10 11).
Definition lookup_gpu : gpu (bpftime_shm (list bytes) * Z) :=
  default (gpu_init [] (epoll_shm, 0)) (run_gpu toy_serve (one_call 0)
    (gpu_init [CallLookup 0 [1; 0; 0; 0]] (epoll_shm, 0))).

Lemma lookup_gpu_reachable : reachable toy_serve [CallLookup 0 [1; 0; 0; 0]] (epoll_shm, 0) lookup_gpu.
Proof. apply (run_gpu_reachable toy_serve (one_call 0)). vm_compute. reflexivity. Qed.

Lemma gpu_map_calls_are_host_calls_witness :
  exists v, RespValue (VBuf 4) = RespValue v /\
    @bpftime_map_lookup_elem _ toy_runtime 0 (Some [1; 0; 0; 0]) epoll_shm 0 =
    Ok v (g_world lookup_gpu).1 (g_world lookup_gpu).2.
Proof.
  refine (proj1 (@gpu_map_calls_are_host_calls (list bytes) toy_runtime 10 11 0 [1; 0; 0; 0] [] 0 epoll_shm 0
    lookup_gpu (RespValue (VBuf 4)) _) lookup_gpu_reachable _); [lia|vm_compute; reflexivity].
Defined.

Example sample_map_table :
  @create_map_basic_info _ toy_runtime 2 epoll_manager = Some [mk_info true 4 4 2; no_info].
Proof. vm_compute. reflexivity. Qed.
