(* ===== verification/Prog.v ===== *)
(** Helper groups (include/bpftime_helper_group.hpp, src/bpf_helper.cpp,
    extension/extension_helper.cpp), programs (include/bpftime_prog.hpp,
    src/bpftime_prog.cpp) and [load_prog_and_helpers] of
    src/attach/bpf_attach_ctx.cpp. The eBPF virtual machine is a parameter. *)
From Stdlib Require Import ZArith Lia.
From stdpp Require Import base list gmap strings sorting.
From S2P Require Import Prelude Config.
Local Open Scope Z_scope.

(** ** Helper groups *)

(** [hi_fn] is the function, by its symbol. *)
Record bpftime_helper_info := mk_helper { hi_index : Z; hi_name : string; hi_fn : string }.

(** [std::map<unsigned int, bpftime_helper_info>] *)
Abbreviation helper_group := (gmap Z bpftime_helper_info).

(** The constructor from an initialiser list [{ { info.index, info }, .. }]; the first
    entry of an index stays. *)
Definition group_of (l : list bpftime_helper_info) : helper_group :=
  list_to_map ((fun i => (hi_index i, i)) <$> l).

Definition register_helper (info : bpftime_helper_info) : M helper_group Z :=
  if 999 <? hi_index info then mret (-1)
  else
    m ← get;
    match m !! hi_index info with
    | None => put (<[hi_index info := info]> m);; mret 0
    | Some old => if String.eqb (hi_fn old) (hi_fn info) then mret 0 else mret (-1)
    end.

(** No entry of [another] may exist already. *)
Definition append (another : helper_group) : M helper_group Z :=
  m ← get;
  if decide (m ##ₘ another) then put (m ∪ another);; mret 0 else mret (-1).

(** In the order of [std::map]. *)
Definition id_le (x y : Z * bpftime_helper_info) : Prop := x.1 <= y.1.
#[export] Instance id_le_dec x y : Decision (id_le x y).
Proof. unfold id_le. apply _. Defined.
#[export] Instance id_le_total : Total id_le.
Proof. intros x y. unfold id_le. lia. Qed.
#[export] Instance id_le_trans : Transitive id_le.
Proof. intros x y z. unfold id_le. lia. Qed.
Definition group_list (m : helper_group) : list (Z * bpftime_helper_info) := merge_sort id_le (map_to_list m).
Definition get_helper_ids (m : helper_group) : list Z := s32 <$> (group_list m).*1.

Definition kernel_helpers : list bpftime_helper_info := [
  mk_helper 4 "bpf_probe_read" "bpftime_probe_read";
  mk_helper 8 "bpf_get_smp_processor_id" "bpftime_get_smp_processor_id";
  mk_helper 28 "bpf_csum_diff" "bpftime_csum_diff";
  mk_helper 44 "bpf_xdp_adjust_head" "bpftime_xdp_adjust_head";
  mk_helper 65 "bpf_xdp_adjust_tail" "bpftime_xdp_adjust_tail";
  mk_helper 113 "bpf_probe_read_kernel" "bpftime_probe_read";
  mk_helper 112 "bpf_probe_read_user" "bpftime_probe_read";
  mk_helper 5 "bpf_ktime_get_ns" "bpftime_ktime_get_ns";
  mk_helper 6 "bpf_trace_printk" "bpftime_trace_printk";
  mk_helper 7 "bpf_get_prandom_u32" "bpftime_get_prandom_u32";
  mk_helper 14 "bpf_get_current_pid_tgid" "bpftime_get_current_pid_tgid";
  mk_helper 15 "bpf_get_current_uid_gid" "bpf_get_current_uid_gid";
  mk_helper 16 "bpf_get_current_comm" "bpftime_get_current_comm";
  mk_helper 58 "bpf_override_return" "bpftime_override_return";
  mk_helper 182 "bpf_strncmp" "bpftime_strncmp";
  mk_helper 36 "bpf_probe_write_user" "bpftime_probe_write_user";
  mk_helper 187 "bpf_set_retval" "bpftime_set_retval";
  mk_helper 114 "bpf_probe_read_str" "bpf_probe_read_str";
  mk_helper 45 "bpf_probe_str" "bpf_probe_read_str";
  mk_helper 67 "bpf_get_stack" "bpf_get_stack";
  mk_helper 160 "bpf_ktime_get_coarse_ns" "bpf_ktime_get_coarse_ns";
  mk_helper 131 "bpf_ringbuf_reserve" "bpf_ringbuf_reserve";
  mk_helper 132 "bpf_ringbuf_submit" "bpf_ringbuf_submit";
  mk_helper 133 "bpf_ringbuf_discard" "bpf_ringbuf_discard";
  mk_helper 25 "bpf_perf_event_output" "bpf_perf_event_output";
  mk_helper 130 "bpf_ringbuf_output" "bpf_ringbuf_output";
  mk_helper 12 "bpf_tail_call" "bpftime_tail_call";
  mk_helper 174 "bpf_get_attach_cookie" "bpftime_get_attach_cookie"].
Definition get_kernel_utils_helper_group : helper_group := group_of kernel_helpers.

Definition get_shm_maps_helper_group : helper_group := group_of [
  mk_helper 1 "bpf_map_lookup_elem" "bpftime_map_lookup_elem_helper";
  mk_helper 2 "bpf_map_update_elem" "bpftime_map_update_elem_helper";
  mk_helper 3 "bpf_map_delete_elem" "bpftime_map_delete_elem_helper"].

(** The build options BPFTIME_ENABLE_FS_HELPER and BPFTIME_ENABLE_IOURING_EXT. *)
Definition extension_helpers (fs iouring : bool) : list bpftime_helper_info :=
  [mk_helper 1001 "__ebpf_call_find_ufunc_id" "__ebpf_call_find_ufunc_id";
   mk_helper 1000 "__ebpf_call_ufunc_dispatcher" "__ebpf_call_ufunc_dispatcher"] ++
  (if fs then [mk_helper 1003 "bpftime_get_abs_path" "bpftime_get_abs_path";
               mk_helper 1004 "bpftime_path_join" "bpftime_path_join"] else []) ++
  (if iouring then [mk_helper 1006 "io_uring_init" "io_uring_init_global";
     mk_helper 1007 "io_uring_submit_write" "bpftime_io_uring_submit_write";
     mk_helper 1008 "io_uring_submit_fsync" "bpftime_io_uring_submit_fsync";
     mk_helper 1009 "io_uring_wait_and_seen" "bpftime_io_uring_wait_and_seen";
     mk_helper 1010 "io_uring_submit" "bpftime_io_uring_submit"] else []).
Definition get_extension_helper_group (fs iouring : bool) : helper_group := group_of (extension_helpers fs iouring).

(** *** Properties of groups *)

Ltac by_computation := refine (bool_decide_eq_true_1 _ _); vm_compute; reflexivity.

(** Every helper is filed under its index. *)
Definition group_wf (m : helper_group) : Prop := map_Forall (fun k i => hi_index i = k) m.

Lemma group_of_wf l : group_wf (group_of l).
Proof.
  intros k i Hi. apply elem_of_list_to_map_2, list_elem_of_fmap in Hi as (x & Hx & _). by simplify_eq.
Qed.

Lemma group_list_perm m : group_list m ≡ₚ map_to_list m.
Proof. apply merge_sort_Permutation. Qed.

Lemma sorted_keys_strict (l : list (Z * bpftime_helper_info)) :
  NoDup l.*1 -> StronglySorted id_le l -> StronglySorted Z.lt l.*1.
Proof.
  induction l as [|x l IH]; simpl; [constructor|]. intros Hd Hs.
  apply NoDup_cons in Hd as [Hx Hd]. apply StronglySorted_inv in Hs as [Hs Hf].
  constructor; [by apply IH|]. apply Forall_fmap, Forall_forall. intros y Hy.
  rewrite Forall_forall in Hf. specialize (Hf y Hy). unfold id_le in Hf. simpl.
  assert (x.1 <> y.1); [|lia]. intros He. apply Hx. rewrite He. by apply list_elem_of_fmap_2.
Qed.

Lemma ids_exact m : map_Forall (fun k _ => 0 <= k < 2 ^ 31) m -> get_helper_ids m = (group_list m).*1.
Proof.
  intros Hr. unfold get_helper_ids. apply list_eq_same_length with (length (group_list m).*1);
    [done|by rewrite length_fmap|]. intros i x y Hi Hx Hy. rewrite list_lookup_fmap, Hy in Hx. injection Hx as <-.
  apply s32_small. apply list_elem_of_lookup_2 in Hy. rewrite group_list_perm in Hy.
  apply list_elem_of_fmap in Hy as ([k v] & -> & Hin%elem_of_map_to_list). specialize (Hr k v Hin). simpl in *. lia.
Qed.

(** Helper groups: registering keeps every helper filed under its index and never
    replaces a function; it refuses an index above 999 and another function for a
    known index, and ignores a known one. Appending succeeds exactly for disjoint
    groups and gives their union; otherwise nothing changes. The ids of a group are
    listed once each, in ascending order. *)
Theorem helper_groups_typed m info another e :
  group_wf m -> group_wf another -> map_Forall (fun k _ => 0 <= k < 2 ^ 31) m ->
  (exists r m', register_helper info m e = Ok r m' e /\ group_wf m' /\ m ⊆ m' /\
     (r = 0 <-> hi_index info <= 999 /\
        (m !! hi_index info = None \/ exists old, m !! hi_index info = Some old /\ hi_fn old = hi_fn info)) /\
     (r = 0 -> exists i, m' !! hi_index info = Some i /\ hi_fn i = hi_fn info)) /\
  (if decide (m ##ₘ another)
   then append another m e = Ok 0 (m ∪ another) e /\ group_wf (m ∪ another)
   else append another m e = Ok (-1) m e) /\
  StronglySorted Z.lt (get_helper_ids m) /\ (forall k, k ∈ get_helper_ids m <-> k ∈ dom m).
Proof.
  intros Hm Ha Hr. split_and!.
  - unfold register_helper. destruct (Z.ltb_spec 999 (hi_index info)).
    { exists (-1), m. split_and!; try done. split; [done|lia]. }
    mbase. destruct (m !! hi_index info) as [old|] eqn:Ho.
    + destruct (String.eqb_spec (hi_fn old) (hi_fn info)) as [Hf|Hf].
      * exists 0, m. split_and!; try done; [|by eauto]. split; [|done]. intros _. split; [done|]. right. eauto.
      * exists (-1), m. split_and!; try done. split; [done|]. intros [_ [?|(o & ? & ?)]]; congruence.
    + exists 0. eexists. split; [done|]. split_and!.
      * by apply map_Forall_insert_2.
      * by apply insert_subseteq.
      * split; [by auto|done].
      * intros _. exists info. by rewrite lookup_insert_eq.
  - unfold append. mbase. case_decide as Hd; [|done]. split; [done|]. by apply map_Forall_union_2.
  - rewrite ids_exact by done. apply sorted_keys_strict; [|apply (StronglySorted_merge_sort id_le)].
    rewrite group_list_perm. apply NoDup_fst_map_to_list.
  - intros k. rewrite ids_exact by done. rewrite group_list_perm, list_elem_of_fmap.
    rewrite elem_of_dom. split.
    + intros ([k' i] & -> & Hin%elem_of_map_to_list). eauto.
    + intros [i Hi]. exists (k, i). split; [done|]. by apply elem_of_map_to_list.
Qed.

(** ** Programs *)

(** The virtual machine (vm/, [ebpf_create] .. [ebpf_exec]) and the code it compiles
    to; executing acts on a world [W]. *)
Class Vm (V J W : Type) := {
  ebpf_create : text -> V;
  ebpf_load : list Z -> V -> Z * V;
  ebpf_compile : V -> option J * V;
  ebpf_unload_code : V -> V;
  ebpf_register : Z -> string -> string -> V -> Z * V;
  ebpf_load_aot_object : bytes -> V -> option J * V;
  ebpf_exec : V -> ptr -> Z -> M W (Z * Z);
  jit_call : J -> ptr -> Z -> M W Z
}.

(** [jitted] and [fn] are not initialised by the constructor. *)
Record bpftime_prog (V J : Type) := mk_bprog {
  bp_name : string;
  bp_vm : V;
  bp_jitted : option bool;
  bp_fn : option J;
  bp_insns : list Z
}.
Arguments mk_bprog {V J}.
Arguments bp_name {V J}.
Arguments bp_vm {V J}.
Arguments bp_jitted {V J}.
Arguments bp_fn {V J}.
Arguments bp_insns {V J}.

Section prog.
Context {V J W : Type} `{Vm V J W}.
Abbreviation prog := (bpftime_prog V J).
Implicit Types p : prog.

Definition prog_new (vm_name : text) (insns : list Z) (name : string) : prog :=
  mk_bprog name (ebpf_create vm_name) None None insns.

(** [name.ends_with("__cuda")] *)
Definition ends_with (suffix s : string) : bool :=
  let n := String.length suffix in
  let k := String.length s in
  (n <=? k)%nat && String.eqb (String.substring (k - n) n s) suffix.
Definition is_cuda p : bool := ends_with "__cuda" (bp_name p).

Definition set_vm (v : V) p : prog := mk_bprog (bp_name p) v (bp_jitted p) (bp_fn p) (bp_insns p).
Definition set_code (j : bool) (f : option J) p : prog := mk_bprog (bp_name p) (bp_vm p) (Some j) f (bp_insns p).

Definition bpftime_prog_load (jit : bool) : M prog Z :=
  p ← get;
  let '(res, v) := ebpf_load (bp_insns p) (bp_vm p) in
  put (set_vm v p);;
  if res <? 0 then mret res
  else if is_cuda p then mret 0
  else if jit then
    let '(fn, v') := ebpf_compile v in
    match fn with
    | None => put (set_code true (bp_fn p) (set_vm v' p));; mret (-1)
    | Some f => put (set_code true (Some f) (set_vm v' p));; mret 0
    end
  else put (set_code false (bp_fn p) (set_vm v p));; mret 0.

(** Nothing is unloaded from a jitted program. *)
Definition bpftime_prog_unload : M prog Z :=
  p ← get;
  j ← need "uninitialized" (bp_jitted p);
  if j : bool then mret 0 else put (set_vm (ebpf_unload_code (bp_vm p)) p);; mret 0.

(** The code of the call and the value stored through [return_val]. *)
Definition bpftime_prog_exec p (memory : ptr) (memory_size : Z) : M W (Z * Z) :=
  if is_cuda p then throw "Unable to execute CUDA program"
  else
    j ← need "uninitialized" (bp_jitted p);
    if j : bool then
      f ← need "uninitialized" (bp_fn p);
      val ← jit_call f memory memory_size;
      mret (0, val)
    else ebpf_exec (bp_vm p) memory memory_size.

Definition bpftime_prog_register_raw_helper (info : bpftime_helper_info) : M prog Z :=
  p ← get;
  let '(r, v) := ebpf_register (hi_index info) (hi_name info) (hi_fn info) (bp_vm p) in
  put (set_vm v p);; mret r.

Definition load_aot_object (buf : bytes) : M prog Z :=
  p ← get;
  let '(fn, v) := ebpf_load_aot_object buf (bp_vm p) in
  match fn with
  | None => put (set_vm v p);; mret (-1)
  | Some f => put (set_code true (Some f) (set_vm v p));; mret 0
  end.

(** The results of the registrations are not looked at. *)
Fixpoint register_all (l : list bpftime_helper_info) : M prog unit :=
  match l with
  | [] => mret tt
  | i :: l' => _ ← bpftime_prog_register_raw_helper i; register_all l'
  end.
Definition add_helper_group_to_prog (m : helper_group) : M prog Z :=
  register_all (group_list m).*2;; mret 0.

Definition load_prog_and_helpers (fs iouring : bool) (config : agent_config) : M prog Z :=
  (if enable_kernel_helper_group config
   then _ ← add_helper_group_to_prog get_kernel_utils_helper_group; mret tt else mret tt);;
  (if enable_ufunc_helper_group config
   then _ ← add_helper_group_to_prog (get_extension_helper_group fs iouring); mret tt else mret tt);;
  (if enable_shm_maps_helper_group config
   then _ ← add_helper_group_to_prog get_shm_maps_helper_group; mret tt else mret tt);;
  bpftime_prog_load (jit_enabled config).

(** *** Loading *)

(** The functions a machine can call; what the code relies on: registering an id in
    the range of the machine's table succeeds and files the function under it. *)
Section registration.
Variable vm_helpers : V -> gmap Z string.
Hypothesis Hregister : forall i name fn v, 0 <= i < 8192 ->
  exists v', ebpf_register i name fn v = (0, v') /\ vm_helpers v' = <[i := fn]> (vm_helpers v).

Definition functions (m : helper_group) : gmap Z string := hi_fn <$> m.

(** [p1] is [p] with another machine. *)
Definition same_code p p1 : Prop :=
  bp_name p1 = bp_name p /\ bp_insns p1 = bp_insns p /\ bp_jitted p1 = bp_jitted p /\ bp_fn p1 = bp_fn p.

Lemma register_all_run l p e :
  NoDup (hi_index <$> l) -> Forall (fun i => 0 <= hi_index i < 8192) l ->
  exists p1, register_all l p e = Ok tt p1 e /\ same_code p p1 /\
    vm_helpers (bp_vm p1) = list_to_map ((fun i => (hi_index i, hi_fn i)) <$> l) ∪ vm_helpers (bp_vm p).
Proof using Hregister.
  revert p. induction l as [|i l IH]; intros p Hd Hf.
  { exists p. split; [done|]. split; [done|]. simpl. by rewrite (left_id_L ∅ (∪)). }
  apply NoDup_cons in Hd as [Hi Hd]. apply Forall_cons in Hf as [Hr Hf].
  destruct (Hregister (hi_index i) (hi_name i) (hi_fn i) (bp_vm p) Hr) as (v' & Hreg & Hv').
  destruct (IH (set_vm v' p) Hd Hf) as (p1 & Hrun & Hsame & Hvm). exists p1. cbn [register_all].
  unfold bpftime_prog_register_raw_helper. mbase. rewrite Hreg. split; [done|]. split; [done|].
  rewrite Hvm. simpl bp_vm. rewrite Hv'. rewrite fmap_cons, list_to_map_cons.
  rewrite <- insert_union_r; [by rewrite insert_union_l|].
  apply not_elem_of_list_to_map_1. rewrite <- list_fmap_compose. exact Hi.
Qed.

Lemma add_group_run m p e :
  group_wf m -> map_Forall (fun k _ => 0 <= k < 8192) m ->
  exists p1, add_helper_group_to_prog m p e = Ok 0 p1 e /\ same_code p p1 /\
    vm_helpers (bp_vm p1) = functions m ∪ vm_helpers (bp_vm p).
Proof using Hregister.
  intros Hwf Hr.
  assert (forall x, x ∈ group_list m -> hi_index x.2 = x.1 /\ 0 <= x.1 < 8192) as Hin.
  { intros [k i] Hx. rewrite group_list_perm in Hx. apply elem_of_map_to_list in Hx. simpl. eauto. }
  assert (hi_index <$> (group_list m).*2 = (group_list m).*1) as Hkeys.
  { rewrite <- list_fmap_compose. apply list_fmap_ext. intros j x Hj. simpl.
    apply (Hin x). by eapply list_elem_of_lookup_2. }
  destruct (register_all_run (group_list m).*2 p e) as (p1 & Hrun & Hsame & Hvm).
  - rewrite Hkeys, group_list_perm. apply NoDup_fst_map_to_list.
  - apply Forall_fmap, Forall_forall. intros x Hx. simpl. destruct (Hin x Hx) as [-> ?]. done.
  - exists p1. unfold add_helper_group_to_prog. mbase. rewrite Hrun. split; [done|]. split; [done|].
    rewrite Hvm. f_equal. unfold functions.
    assert ((fun i => (hi_index i, hi_fn i)) <$> (group_list m).*2 = prod_map id hi_fn <$> group_list m) as ->.
    { rewrite <- list_fmap_compose. apply list_fmap_ext. intros j [k i] Hj. simpl.
      destruct (Hin (k, i)) as [Hk _]; [by eapply list_elem_of_lookup_2|]. simpl in Hk. by rewrite Hk. }
    rewrite (list_to_map_proper _ (prod_map id hi_fn <$> map_to_list m)).
    + by rewrite list_to_map_fmap, list_to_map_to_list.
    + rewrite <- list_fmap_compose.
      assert (forall l : list (Z * bpftime_helper_info), (fst ∘ prod_map id hi_fn) <$> l = l.*1) as ->
        by (intros l; apply list_fmap_ext; by intros ? [] ?).
      rewrite group_list_perm. apply NoDup_fst_map_to_list.
    + by rewrite group_list_perm.
Qed.

(** [load_prog_and_helpers]: when the machine loads and compiles the program, its
    table holds exactly the functions of the helper groups the configuration
    enables, over those it had. *)
Theorem load_sees_enabled_helpers fs iouring config p e :
  exists p1, same_code p p1 /\
    load_prog_and_helpers fs iouring config p e = bpftime_prog_load (jit_enabled config) p1 e /\
    vm_helpers (bp_vm p1) =
      (if enable_shm_maps_helper_group config then functions get_shm_maps_helper_group else ∅) ∪
      ((if enable_ufunc_helper_group config then functions (get_extension_helper_group fs iouring) else ∅) ∪
       ((if enable_kernel_helper_group config then functions get_kernel_utils_helper_group else ∅) ∪
        vm_helpers (bp_vm p))).
Proof using Hregister.
  assert (forall b m p, group_wf m -> map_Forall (fun k _ => 0 <= k < 8192) m ->
    exists p1, (if b : bool then _ ← add_helper_group_to_prog m; mret tt else mret tt) p e = Ok tt p1 e /\
      same_code p p1 /\ vm_helpers (bp_vm p1) = (if b then functions m else ∅) ∪ vm_helpers (bp_vm p)) as Hone.
  { intros b m q Hwf Hr. destruct b.
    - destruct (add_group_run m q e Hwf Hr) as (q1 & Hrun & Hs & Hv). exists q1. mbase. by rewrite Hrun.
    - exists q. split; [done|]. split; [done|]. by rewrite (left_id_L ∅ (∪)). }
  destruct (Hone (enable_kernel_helper_group config) get_kernel_utils_helper_group p) as (p1 & H1 & S1 & V1);
    [apply group_of_wf|by_computation|].
  destruct (Hone (enable_ufunc_helper_group config) (get_extension_helper_group fs iouring) p1) as (p2 & H2 & S2 & V2);
    [apply group_of_wf|destruct fs, iouring; by_computation|].
  destruct (Hone (enable_shm_maps_helper_group config) get_shm_maps_helper_group p2) as (p3 & H3 & S3 & V3);
    [apply group_of_wf|by_computation|].
  exists p3. split; [|split].
  - unfold same_code in *. destruct S1 as (? & ? & ? & ?), S2 as (? & ? & ? & ?), S3 as (? & ? & ? & ?).
    split_and!; congruence.
  - unfold load_prog_and_helpers. revert H1 H2 H3. mbase. intros H1 H2 H3. rewrite H1. rewrite H2. by rewrite H3.
  - by rewrite V3, V2, V1.
Qed.

End registration.

(** A program that [bpftime_prog_load] accepts can be executed: the compiled code, or
    the interpreter when JIT is off; a CUDA program is accepted but executing it
    throws. *)
Theorem loaded_program_runs jit p p' e memory size w e1 :
  bpftime_prog_load jit p e = Ok 0 p' e ->
  (0 <= (ebpf_load (bp_insns p) (bp_vm p)).1) /\
  (is_cuda p = true -> exists what, bpftime_prog_exec p' memory size w e1 = Throw what w e1) /\
  (is_cuda p = false -> jit = true -> exists f, (ebpf_compile (ebpf_load (bp_insns p) (bp_vm p)).2).1 = Some f /\
     bpftime_prog_exec p' memory size w e1 = (val ← jit_call f memory size; mret (0, val)) w e1) /\
  (is_cuda p = false -> jit = false ->
     bpftime_prog_exec p' memory size w e1 = ebpf_exec (ebpf_load (bp_insns p) (bp_vm p)).2 memory size w e1).
Proof.
  unfold bpftime_prog_load, bpftime_prog_exec. mbase. destruct (ebpf_load (bp_insns p) (bp_vm p)) as [res v].
  cbn [fst snd]. destruct (Z.ltb_spec res 0); [intros [= -> _]; lia|]. destruct (is_cuda p) eqn:Hc.
  { intros [= <-]. split; [done|]. split; [|done]. intros _. exists "Unable to execute CUDA program"%string.
    unfold is_cuda in *. simpl. by rewrite Hc. }
  destruct jit.
  - destruct (ebpf_compile v) as [[f|] v']; [|done]. intros [= <-]. split; [done|]. split; [done|]. split; [|done].
    intros _ _. exists f. split; [done|]. unfold is_cuda in *. simpl. by rewrite Hc.
  - intros [= <-]. split; [done|]. split; [done|]. split; [done|]. intros _ _.
    unfold is_cuda in *. simpl. by rewrite Hc.
Qed.

End prog.

(** The groups the runtime provides have no id in common, so a program can be given
    all of them, in any order. *)
Theorem helper_groups_disjoint fs iouring e :
  exists m, (_ ← append get_kernel_utils_helper_group; _ ← append (get_extension_helper_group fs iouring);
             append get_shm_maps_helper_group) ∅ e = Ok 0 m e /\
    group_wf m /\ forall k, k ∈ dom m <-> k ∈ dom get_kernel_utils_helper_group \/
      k ∈ dom (get_extension_helper_group fs iouring) \/ k ∈ dom get_shm_maps_helper_group.
Proof.
  assert (get_kernel_utils_helper_group ##ₘ get_extension_helper_group fs iouring) as H1
    by (destruct fs, iouring; by_computation).
  assert (get_kernel_utils_helper_group ∪ get_extension_helper_group fs iouring ##ₘ get_shm_maps_helper_group) as H2
    by (destruct fs, iouring; by_computation).
  unfold append. mbase. rewrite decide_True by apply map_disjoint_empty_l. rewrite (left_id_L ∅ (∪)).
  rewrite (decide_True _ _ H1), (decide_True _ _ H2). eexists. split; [done|]. split.
  - apply map_Forall_union_2; [apply map_Forall_union_2|]; apply group_of_wf.
  - intros k. rewrite !dom_union_L. rewrite !elem_of_union. tauto.
Qed.

(** The limit of [register_helper] is below the ids of the runtime's own extension
    helpers: registering any of them is refused. *)
Theorem extension_ids_refused fs iouring info m e :
  info ∈ extension_helpers fs iouring -> register_helper info m e = Ok (-1) m e.
Proof.
  intros Hin. unfold register_helper. rewrite (proj2 (Z.ltb_lt _ _)); [done|].
  assert (Forall (fun i => 999 < hi_index i) (extension_helpers fs iouring)) as Hall
    by (destruct fs, iouring; by_computation).
  rewrite Forall_forall in Hall. exact (Hall info Hin).
Qed.

(** ** Witnesses *)

Lemma helper_groups_typed_witness :
  StronglySorted Z.lt (get_helper_ids get_shm_maps_helper_group) /\
  append get_kernel_utils_helper_group get_shm_maps_helper_group 0 =
    Ok 0 (get_shm_maps_helper_group ∪ get_kernel_utils_helper_group) 0.
Proof.
  destruct (helper_groups_typed get_shm_maps_helper_group (mk_helper 9 "f" "f") get_kernel_utils_helper_group 0
    (group_of_wf _) (group_of_wf _) ltac:(by_computation)) as (_ & Ha & Hs & _).
  rewrite decide_True in Ha by by_computation. exact (conj Hs (proj1 Ha)).
Defined.

(** A machine that only keeps its table: a program returns the number of functions it
    can call. *)
Definition toy_vm : Vm (gmap Z string) Z unit := {|
  ebpf_create := fun _ => ∅;
  ebpf_load := fun insns v => (match insns with [] => -1 | _ => 0 end, v);
  ebpf_compile := fun v => (Some (Z.of_nat (size v)), v);
  ebpf_unload_code := fun v => v;
  ebpf_register := fun i name fn v => (0, <[i := fn]> v);
  ebpf_load_aot_object := fun buf v => (None, v);
  ebpf_exec := fun v memory size => mret (0, Z.of_nat (base.size v));
  jit_call := fun j memory size => mret j
|}.

Abbreviation toy_prog := (@prog_new _ _ _ toy_vm [] [149] "p").

Lemma load_sees_enabled_helpers_witness :
  exists p1, same_code toy_prog p1 /\
    @load_prog_and_helpers _ _ _ toy_vm false false agent_config_new toy_prog 0 =
      @bpftime_prog_load _ _ _ toy_vm true p1 0 /\
    bp_vm p1 = functions get_shm_maps_helper_group ∪ (∅ ∪ (functions get_kernel_utils_helper_group ∪ ∅)).
Proof.
  exact (@load_sees_enabled_helpers _ _ _ toy_vm (fun v => v)
    (fun i name fn v _ => ex_intro _ _ (conj eq_refl eq_refl)) false false agent_config_new
    toy_prog 0).
Defined.

Definition loaded : bpftime_prog (gmap Z string) Z :=
  mk_bprog "p" ∅ (Some true) (Some 0) [149].

Lemma loaded_program_runs_witness :
  exists f, @bpftime_prog_exec _ _ _ toy_vm loaded None 0 tt 0 =
    (val ← @jit_call _ _ _ toy_vm f None 0; mret (0, val)) tt 0.
Proof.
  destruct (@loaded_program_runs _ _ _ toy_vm true toy_prog loaded 0 None 0 tt 0 eq_refl)
    as (_ & _ & Hj & _).
  destruct (Hj eq_refl eq_refl) as (f & _ & Hrun). exists f. exact Hrun.
Defined.

Lemma extension_ids_refused_witness :
  register_helper (mk_helper 1000 "__ebpf_call_ufunc_dispatcher" "__ebpf_call_ufunc_dispatcher") ∅ 0 = Ok (-1) ∅ 0.
Proof. refine (extension_ids_refused false false _ ∅ 0 _). right. left. Defined.
