(* ===== verification/AttachCtx.v ===== *)
(** [bpf_attach_ctx] (include/bpf_attach_ctx.hpp, src/attach/bpf_attach_ctx.cpp): the
    agent turns the handlers it finds in shared memory into loaded programs and
    attached links. The attach implementations ([base_attach_impl]) and the virtual
    machine are parameters. *)
From Stdlib Require Import ZArith Lia.
From stdpp Require Import base list gmap strings pretty sorting.
From S2P Require Import Prelude Config MapHandler PerfEvent HandlerManager Cuda Prog.
Local Open Scope Z_scope.

(** What an attach implementation runs when it is triggered: the program with a
    cookie, or, for a CUDA program, nothing. *)
Inductive callback := CbProg (prog_id : Z) (cookie : option Z) | CbCuda.

(** [base_attach_impl] and [attach_private_data]; [nv_fill] is the cast to
    [nv_attach_private_data], which may fail, and the assignment of the program and
    of the map table. *)
Class AttachImpl (I D : Type) := {
  create_attach_with_ebpf_callback : callback -> D -> Z -> I -> Z * I;
  detach_by_id : Z -> I -> Z * I;
  register_custom_helpers : I -> list bpftime_helper_info;
  nv_fill : list Z -> list MapBasicInfo -> D -> option D
}.

(** [private_data_creator]: the error code and the data. *)
Abbreviation creator D := (string -> Z * option D).

(** An implementation is named by its place in [attach_impl_holders]; a null pointer
    is [None]. *)
Record bpf_attach_ctx (V J I D : Type) := mk_actx {
  ac_helpers : gmap Z bpftime_helper_info;
  instantiated_progs : gmap Z (bpftime_prog V J);
  instantiated_attach_links : gmap Z (Z * option nat);
  instantiated_perf_events : gmap Z (option D * Z);
  attach_impls : gmap Z (nat * creator D);
  attach_impl_holders : list I;
  instantiated_handlers : gset Z
}.
Arguments mk_actx {V J I D}.
Arguments ac_helpers {V J I D}.
Arguments instantiated_progs {V J I D}.
Arguments instantiated_attach_links {V J I D}.
Arguments instantiated_perf_events {V J I D}.
Arguments attach_impls {V J I D}.
Arguments attach_impl_holders {V J I D}.
Arguments instantiated_handlers {V J I D}.

Section attach.
Context {K V J W I D : Type} `{Runtime K, Vm V J W, AttachImpl I D}.
(** The build options of the helper groups and the machine of the global configuration. *)
Variables (fs iouring : bool) (vm : text).
Abbreviation ctx := (bpf_attach_ctx V J I D).
Abbreviation AC := (M ctx).
Implicit Types (c : ctx) (g : manager K).

Definition actx_new : ctx := mk_actx ∅ ∅ ∅ ∅ ∅ [] ∅.

Definition set_progs m c : ctx := mk_actx (ac_helpers c) m (instantiated_attach_links c)
  (instantiated_perf_events c) (attach_impls c) (attach_impl_holders c) (instantiated_handlers c).
Definition set_links m c : ctx := mk_actx (ac_helpers c) (instantiated_progs c) m
  (instantiated_perf_events c) (attach_impls c) (attach_impl_holders c) (instantiated_handlers c).
Definition set_perf_events m c : ctx := mk_actx (ac_helpers c) (instantiated_progs c) (instantiated_attach_links c)
  m (attach_impls c) (attach_impl_holders c) (instantiated_handlers c).
Definition set_holders l c : ctx := mk_actx (ac_helpers c) (instantiated_progs c) (instantiated_attach_links c)
  (instantiated_perf_events c) (attach_impls c) l (instantiated_handlers c).
Definition add_instantiated (id : Z) c : ctx := mk_actx (ac_helpers c) (instantiated_progs c)
  (instantiated_attach_links c) (instantiated_perf_events c) (attach_impls c) (attach_impl_holders c)
  ({[id]} ∪ instantiated_handlers c).

(** The custom helpers of the implementation overwrite earlier ones with their index. *)
Definition register_attach_impl (attach_types : list Z) (impl : I) (private_data_creator : creator D) : AC unit :=
  modify (fun c => mk_actx
    (foldl (fun m i => <[hi_index i := i]> m) (ac_helpers c) (register_custom_helpers impl))
    (instantiated_progs c) (instantiated_attach_links c) (instantiated_perf_events c)
    (foldl (fun m ty => <[ty := (length (attach_impl_holders c), private_data_creator)]> m) (attach_impls c) attach_types)
    (attach_impl_holders c ++ [impl]) (instantiated_handlers c)).

(** A call on the program at [id]. *)
Definition on_prog {A} (id : Z) (m : M (bpftime_prog V J) A) : AC A := fun c e =>
  match instantiated_progs c !! id with
  | None => Ub "null program"
  | Some p =>
      match m p e with
      | Ok a p' e' => Ok a (set_progs (<[id := p']> (instantiated_progs c)) c) e'
      | Throw w p' e' => Throw w (set_progs (<[id := p']> (instantiated_progs c)) c) e'
      | Ub w => Ub w
      end
  end.

(** The helpers of the attach implementations are registered after the load. *)
Definition instantiate_prog_handler_at (id : Z) (handler : bpf_prog_handler) (config : agent_config) : AC Z :=
  modify (fun c => set_progs (<[id := prog_new vm (ph_insns handler) (ph_name handler)]> (instantiated_progs c)) c);;
  err ← on_prog id (load_prog_and_helpers fs iouring config);
  if err <? 0 then mret err
  else
    helpers ← gets ac_helpers;
    on_prog id (register_all (group_list helpers).*2);;
    modify (add_instantiated id);;
    mret 0.

(** A call of an attach implementation. *)
Definition on_impl (i : nat) (f : I -> Z * I) : AC Z :=
  c ← get;
  impl ← need "dangling attach impl" (attach_impl_holders c !! i);
  put (set_holders (<[i := (f impl).2]> (attach_impl_holders c)) c);;
  mret (f impl).1.

(** [instantiated_perf_events[target]] creates the entry [(nullptr, 0)] when there is
    none. *)
Definition perf_event_slot (target : Z) : AC (option D * Z) :=
  c ← get;
  match instantiated_perf_events c !! target with
  | Some x => mret x
  | None =>
      put (set_perf_events (<[target := (None, 0)]> (instantiated_perf_events c)) c);;
      mret (None, 0)
  end.

Definition instantiate_bpf_link_handler_at g (id : Z) (handler : bpf_link_handler) (handle_nv_attach_impl : bool)
    : AC Z :=
  let target := lh_attach_target_id handler in
  slot ← perf_event_slot target;
  let '(priv_data, attach_type) := slot in
  c ← get;
  match attach_impls c !! attach_type with
  | None => mret (- ENOTSUP)
  | Some (impl, _) =>
      match instantiated_progs c !! lh_prog_id handler with
      | None => throw "out_of_range"
      | Some prog =>
          r ←
            (if is_cuda prog then
               if handle_nv_attach_impl then
                 priv ← need "null private data" priv_data;
                 info ← need "read outside the map table" (create_map_basic_info 256 g);
                 match nv_fill (bp_insns prog) info priv with
                 | None => throw "bad_cast"
                 | Some priv' =>
                     put (set_perf_events (<[target := (Some priv', attach_type)]> (instantiated_perf_events c)) c);;
                     a ← on_impl impl (create_attach_with_ebpf_callback CbCuda priv' attach_type);
                     mret (Some a)
                 end
               else mret None
             else
               priv ← need "null private data" priv_data;
               a ← on_impl impl (create_attach_with_ebpf_callback
                     (CbProg (lh_prog_id handler) (lh_attach_cookie handler)) priv attach_type);
               mret (Some a));
          match r with
          | None => mret 0
          | Some attach_id =>
              if attach_id <? 0 then mret attach_id
              else
                modify (fun c => add_instantiated id
                  (set_links (<[id := (attach_id, Some impl)]> (instantiated_attach_links c)) c));;
                mret 0
          end
      end
  end.

Definition is_uprobe_type (t : Z) : bool :=
  (t =? BPF_TYPE_UPROBE_OVERRIDE) || (t =? BPF_TYPE_UPROBE) || (t =? BPF_TYPE_URETPROBE) || (t =? BPF_TYPE_UREPLACE).

(** The argument string the private data is made from; [std::get] of the wrong
    alternative throws. *)
Definition attach_argument (h : bpf_perf_event_handler) : option string :=
  if is_uprobe_type (pe_type h) then
    match pe_data h with
    | UprobeData offset _ _ module_name => Some (module_name +:+ ":" +:+ pretty offset)
    | _ => None
    end
  else if pe_type h =? PERF_TYPE_TRACEPOINT then
    match pe_data h with TracepointData _ tracepoint_id => Some (pretty tracepoint_id) | _ => None end
  else if (pe_type h =? BPF_TYPE_KPROBE) || (pe_type h =? BPF_TYPE_KRETPROBE) then
    match pe_data h with KprobeData func_name _ _ => Some func_name | _ => None end
  else
    match pe_data h with CustomData attach_argument => Some attach_argument | _ => None end.

Definition instantiate_perf_event_handler_at (id : Z) (h : bpf_perf_event_handler) : AC Z :=
  if pe_type h =? PERF_TYPE_SOFTWARE then mret 0
  else
    c ← get;
    match attach_impls c !! pe_type h with
    | None => mret (- ENOENT)
    | Some (_, private_data_gen) =>
        match attach_argument h with
        | None => throw "bad_variant_access"
        | Some arg =>
            let '(err, priv_data) := private_data_gen arg in
            if err <? 0 then mret err
            else
              put (add_instantiated id
                (set_perf_events (<[id := (priv_data, pe_type h)]> (instantiated_perf_events c)) c));;
              mret 0
        end
    end.

(** The context and the handlers that are being instantiated. *)
Definition in_ctx {A} (m : AC A) : M (ctx * gset Z) A := zoom fst (fun c s => (c, s.2)) m.

(** [if (int err = m; err < 0) return err; k]; [None] is the end of the recursion bound. *)
Definition or_return {S} (m : M S (option Z)) (k : M S (option Z)) : M S (option Z) :=
  r ← m;
  match r with
  | None => mret None
  | Some err => if err <? 0 then mret (Some err) else k
  end.
Definition total {S} (m : M S Z) : M S (option Z) := r ← m; mret (Some r).

(** Each level of the recursion puts another handler on [stk]: a table of [n] handlers
    needs no more than [n + 1] levels. *)
Fixpoint instantiate_handler_at (fuel : nat) g (config : agent_config) (handle_nv_attach_impl : bool) (id : Z)
    : M (ctx * gset Z) (option Z) :=
  match fuel with
  | O => mret None
  | S fuel' =>
      s ← get;
      if decide (id ∈ instantiated_handlers s.1) then mret (Some 0)
      else if decide (id ∈ s.2) then mret (Some (-1))
      else
        put (s.1, {[id]} ∪ s.2);;
        handler ← (if in_table id g then need "index outside handlers" (hm_handlers g !! Z.to_nat id)
                   else ub "index outside handlers");
        or_return
          match handler with
          | ProgH h => total (in_ctx (instantiate_prog_handler_at id h config))
          | PerfH h => total (in_ctx (instantiate_perf_event_handler_at id h))
          | LinkH l =>
              or_return (instantiate_handler_at fuel' g config handle_nv_attach_impl (lh_prog_id l))
                (or_return (instantiate_handler_at fuel' g config handle_nv_attach_impl (lh_attach_target_id l))
                   (total (in_ctx (instantiate_bpf_link_handler_at g id l handle_nv_attach_impl))))
          | _ => mret (Some 0)
          end
          (modify (fun s => (s.1, s.2 ∖ {[id]}));; mret (Some 0))
  end.

(** With an empty [stk]. *)
Definition instantiate g (config : agent_config) (nv : bool) (id : Z) : AC (option Z) := fun c e =>
  match instantiate_handler_at (S (length (hm_handlers g))) g config nv id (c, ∅) e with
  | Ok a s e' => Ok a s.1 e'
  | Throw w s e' => Throw w s.1 e'
  | Ub w => Ub w
  end.

(** One pass over the table; errors are logged only. *)
Fixpoint instantiate_all (n : nat) (i : nat) g (config : agent_config) (nv : bool) : AC unit :=
  match n with
  | O => mret tt
  | S n' =>
      match hm_handlers g !! i with
      | Some UnusedHandler | None => mret tt
      | Some _ => _ ← instantiate g config nv (Z.of_nat i); mret tt
      end;;
      instantiate_all n' (S i) g config nv
  end.
Definition init_attach_ctx_from_handlers g (config : agent_config) : AC Z :=
  instantiate_all (length (hm_handlers g)) 0 g config false;;
  instantiate_all (length (hm_handlers g)) 0 g config true;;
  mret 0.

Definition destroy_instantiated_attach_link (link_id : Z) : AC Z :=
  c ← get;
  match instantiated_attach_links c !! link_id with
  | None => mret (- ENOENT)
  | Some (_, None) => mret 0
  | Some (attach_id, Some impl) =>
      err ← on_impl impl (detach_by_id attach_id);
      if err <? 0 then mret err
      else modify (fun c => set_links (delete link_id (instantiated_attach_links c)) c);; mret 0
  end.

Fixpoint destroy_links (ids : list Z) : AC Z :=
  match ids with
  | [] => mret 0
  | k :: ids' =>
      err ← destroy_instantiated_attach_link k;
      if err <? 0 then mret err else destroy_links ids'
  end.
(** The keys are collected first, in the order of [std::map]. *)
Definition destroy_all_attach_links : AC Z :=
  c ← get; destroy_links (merge_sort Z.le (map_to_list (instantiated_attach_links c)).*1).

(** ** Termination *)

(** The ids of the table. *)
Definition table_ids g : gset Z := list_to_set (Z.of_nat <$> seq 0 (length (hm_handlers g))).

Lemma table_ids_spec g id : id ∈ table_ids g <-> in_table id g = true.
Proof.
  rewrite in_table_spec. unfold table_ids, hm_size. rewrite elem_of_list_to_set, list_elem_of_fmap. split.
  - intros (i & -> & Hi%elem_of_seq). lia.
  - intros Hid. exists (Z.to_nat id). split; [lia|]. apply elem_of_seq. lia.
Qed.

Lemma table_ids_size g : size (table_ids g) = length (hm_handlers g).
Proof.
  unfold table_ids. rewrite size_list_to_set, length_fmap, length_seq; [done|].
  apply NoDup_fmap; [intros ???; lia|apply NoDup_seq].
Qed.

(** What a call leaves on [stk]: nothing new when it succeeds; and it does not end at
    the recursion bound. *)
Definition clean (stk : gset Z) (r : out (ctx * gset Z) (option Z)) : Prop :=
  match r with
  | Ok None _ _ => False
  | Ok (Some err) (_, stk') _ => 0 <= err -> stk' = stk
  | Throw _ _ _ | Ub _ => True
  end.

Lemma clean_total (m : AC Z) c stk e : clean stk (total (in_ctx m) (c, stk) e).
Proof. unfold total, in_ctx, zoom. mbase. simpl. by destruct (m c e). Qed.

Lemma clean_or_return (m k : M (ctx * gset Z) (option Z)) c stk e :
  clean stk (m (c, stk) e) -> (forall c' e', clean stk (k (c', stk) e')) -> clean stk (or_return m k (c, stk) e).
Proof.
  intros Hm Hk. unfold or_return. mbase. destruct (m (c, stk) e) as [[err|] [c' stk'] e'| |]; try done.
  simpl in Hm. destruct (Z.ltb_spec err 0); [simpl; lia|]. rewrite Hm by done. apply Hk.
Qed.

Lemma instantiate_clean fuel g config nv id c stk e :
  (size (table_ids g ∖ stk) < fuel)%nat -> clean stk (instantiate_handler_at fuel g config nv id (c, stk) e).
Proof.
  revert id c stk e. induction fuel as [|fuel IH]; intros id c stk e Hf; [lia|]. cbn [instantiate_handler_at]. mbase.
  cbn [fst snd]. case_decide; [by intros _|]. case_decide as Hstk; [simpl; lia|].
  destruct (in_table id g) eqn:Htab; [|done]. unfold need. destruct (hm_handlers g !! Z.to_nat id) as [v|]; [|done]. mbase.
  assert (size (table_ids g ∖ ({[id]} ∪ stk)) < fuel)%nat as Hf'.
  { assert (table_ids g ∖ stk = {[id]} ∪ (table_ids g ∖ ({[id]} ∪ stk))) as Heq.
    { apply table_ids_spec in Htab. apply set_eq. intros x. destruct (decide (x = id)) as [->|]; set_solver. }
    rewrite Heq, size_union, size_singleton in Hf by set_solver. lia. }
  set (body := match v with LinkH l => _ | _ => _ end).
  assert (clean ({[id]} ∪ stk) (body (c, {[id]} ∪ stk) e)) as Hbody.
  { destruct v; try apply clean_total; try (by intros _).
    apply clean_or_return; [by apply IH|]. intros c' e'.
    apply clean_or_return; [by apply IH|]. intros c'' e''. apply clean_total. }
  unfold or_return. mbase. destruct (body (c, {[id]} ∪ stk) e) as [[err|] [c' stk'] e'| |]; try done.
  simpl in Hbody. destruct (Z.ltb_spec err 0); [simpl; lia|]. rewrite Hbody by done. simpl. intros _. set_solver.
Qed.

(** C35. Instantiating a handler ends, whatever the links of the table refer to: a cycle
    of links is cut by the set of handlers under way, and one level more than the
    table has handlers is enough. *)
Theorem instantiate_terminates g config nv id c e :
  match instantiate g config nv id c e with
  | Ok r _ _ => exists err, r = Some err
  | Throw _ _ _ | Ub _ => True
  end.
Proof.
  unfold instantiate.
  assert (size (table_ids g ∖ ∅) < S (length (hm_handlers g)))%nat as Hf
    by (rewrite difference_empty_L, table_ids_size; lia).
  pose proof (instantiate_clean _ g config nv id c ∅ e Hf) as Hc.
  destruct (instantiate_handler_at _ g config nv id (c, ∅) e) as [[err|] [c' stk'] e'| |]; try done. eauto.
Qed.

(** ** What is attached *)

Definition handler_of g (id : Z) : option handler_variant :=
  if in_table id g then hm_handlers g !! Z.to_nat id else None.

(** What a context holds is what its table says: programs come from program handlers,
    perf events from perf event handlers, and a link is attached only with its
    program and its perf event instantiated, by the implementation registered for
    the type of the event. *)
Record attach_wf g c : Prop := {
  aw_zero : attach_impls c !! 0 = None;
  aw_progs : forall id, is_Some (instantiated_progs c !! id) -> exists h, handler_of g id = Some (ProgH h);
  aw_events : forall id x ty, instantiated_perf_events c !! id = Some (x, ty) ->
    (id ∈ instantiated_handlers c /\ exists h, handler_of g id = Some (PerfH h) /\ pe_type h = ty) \/ ty = 0;
  aw_instantiated : forall id h, id ∈ instantiated_handlers c -> handler_of g id = Some (ProgH h) ->
    is_Some (instantiated_progs c !! id);
  aw_links : forall id aid impl, instantiated_attach_links c !! id = Some (aid, impl) ->
    id ∈ instantiated_handlers c /\ 0 <= aid /\ exists l h ty i gen,
      handler_of g id = Some (LinkH l) /\
      lh_prog_id l ∈ instantiated_handlers c /\ is_Some (instantiated_progs c !! lh_prog_id l) /\
      lh_attach_target_id l ∈ instantiated_handlers c /\
      handler_of g (lh_attach_target_id l) = Some (PerfH h) /\ pe_type h = ty /\
      attach_impls c !! ty = Some (i, gen) /\ impl = Some i
}.

(** A context goes on: nothing that was instantiated is lost. *)
Definition extends c c' : Prop :=
  instantiated_handlers c ⊆ instantiated_handlers c' /\ attach_impls c' = attach_impls c.

#[export] Instance extends_preorder : PreOrder extends.
Proof.
  split; [done|]. intros c1 c2 c3 [Ha Hb] [Hc Hd]. split; [set_solver|congruence].
Qed.

(** The outcome of a step from [c]: well-formed, further on, and [Q] when it returns. *)
Definition outcome {A} g c (Q : A -> ctx -> Prop) (r : out ctx A) : Prop :=
  match r with
  | Ok a c' _ => attach_wf g c' /\ extends c c' /\ Q a c'
  | Throw _ c' _ => attach_wf g c' /\ extends c c'
  | Ub _ => True
  end.

Lemma outcome_bind {A B} g c (m : AC A) (k : A -> AC B) Q R e :
  outcome g c Q (m c e) ->
  (forall a c' e', attach_wf g c' -> extends c c' -> Q a c' -> outcome g c' R (k a c' e')) ->
  outcome g c R ((m ≫= k) c e).
Proof.
  intros Hm Hk. unfold mbind, M_bind. destruct (m c e) as [a c' e'| |]; try done.
  destruct Hm as (Hwf & Hext & HQ). specialize (Hk a c' e' Hwf Hext HQ). unfold outcome in *.
  destruct (k a c' e') as [b c'' e''|w c'' e''|]; try done.
  - destruct Hk as (? & ? & ?). split_and!; try done. by etrans.
  - destruct Hk as (? & ?). split_and!; try done. by etrans.
Qed.

Lemma outcome_weaken {A} g c (Q R : A -> ctx -> Prop) r :
  outcome g c Q r -> (forall a c', attach_wf g c' -> extends c c' -> Q a c' -> R a c') -> outcome g c R r.
Proof. intros Hr HQ. destruct r; simpl in *; naive_solver. Qed.

(** Another program at a program handler. *)
Lemma attach_wf_prog g c id h p :
  attach_wf g c -> handler_of g id = Some (ProgH h) ->
  attach_wf g (set_progs (<[id := p]> (instantiated_progs c)) c).
Proof.
  intros [W0 W1 W2 W3 W4] Hid.
  assert (forall k, is_Some (instantiated_progs c !! k) -> is_Some (<[id := p]> (instantiated_progs c) !! k)) as Hmono
    by (intros k; rewrite lookup_insert_is_Some; destruct (decide (id = k)); auto).
  split; simpl; try done.
  - intros k [<-|[_ Hk]]%lookup_insert_is_Some; [by eauto|by apply W1].
  - intros k h' Hin Hk. eauto.
  - intros k aid impl Hl. destruct (W4 k aid impl Hl) as (Hin & Haid & l & hp & ty & i & gen & ? & ? & ? & ?).
    split; [done|]. split; [done|]. exists l, hp, ty, i, gen. naive_solver.
Qed.

Lemma on_prog_outcome {A} g c id h (m : M (bpftime_prog V J) A) e :
  attach_wf g c -> handler_of g id = Some (ProgH h) ->
  outcome g c (fun _ c' => instantiated_handlers c' = instantiated_handlers c /\ is_Some (instantiated_progs c' !! id))
    (on_prog id m c e).
Proof.
  intros Hwf Hid. unfold on_prog. destruct (instantiated_progs c !! id) as [p|]; [|done].
  destruct (m p e) as [a p' e'|w p' e'|]; simpl; try done.
  - split; [by eapply attach_wf_prog|]. split; [done|]. rewrite lookup_insert_eq. eauto.
  - split; [by eapply attach_wf_prog|done].
Qed.

(** Another handler counts as instantiated. *)
Lemma attach_wf_add g c id :
  attach_wf g c -> (forall h, handler_of g id = Some (ProgH h) -> is_Some (instantiated_progs c !! id)) ->
  attach_wf g (add_instantiated id c).
Proof.
  intros [V0 V1 V2 V3 V4] Hid. split; simpl; try done.
  - intros k x ty Hk. destruct (V2 k x ty Hk) as [[? ?]|?]; [left; split; [set_solver|done]|by right].
  - intros k h' [->%elem_of_singleton|Hin]%elem_of_union Hk; eauto.
  - intros k aid impl Hl. destruct (V4 k aid impl Hl) as (? & ? & l & hp & ty & i & gen & ? & ? & ? & ? & ?).
    split; [set_solver|]. split; [done|]. exists l, hp, ty, i, gen. split_and!; try done; try set_solver; naive_solver.
Qed.

(** Another entry for a perf event: an instantiated one, or the empty one. *)
Lemma attach_wf_event g c id x ty :
  attach_wf g c ->
  (id ∈ instantiated_handlers c /\ (exists h, handler_of g id = Some (PerfH h) /\ pe_type h = ty)) \/ ty = 0 ->
  attach_wf g (set_perf_events (<[id := (x, ty)]> (instantiated_perf_events c)) c).
Proof.
  intros [V0 V1 V2 V3 V4] Hid. split; simpl; try done.
  intros k y ty' [[<- [= <- <-]]|[Hne Hk]]%lookup_insert_Some; [done|by eauto].
Qed.

Lemma attach_wf_holders g c l : attach_wf g c -> attach_wf g (set_holders l c).
Proof. by intros []. Qed.

Lemma prog_handler_outcome g c id h config e :
  attach_wf g c -> handler_of g id = Some (ProgH h) ->
  outcome g c (fun r c' => 0 <= r -> id ∈ instantiated_handlers c') (instantiate_prog_handler_at id h config c e).
Proof.
  intros Hwf Hid. unfold instantiate_prog_handler_at.
  eapply (outcome_bind g c _ _ (fun _ c' => is_Some (instantiated_progs c' !! id))).
  { simpl. split; [by eapply attach_wf_prog|]. split; [done|]. rewrite lookup_insert_eq. eauto. }
  intros _ c1 e1 W1 _ _. eapply outcome_bind; [by eapply on_prog_outcome|]. intros err c2 e2 W2 _ [_ _].
  destruct (Z.ltb_spec err 0); [simpl; split_and!; try done; lia|].
  eapply (outcome_bind g c2 _ _ (fun _ _ => True)); [simpl; done|]. intros helpers c3 e3 W3 _ _.
  eapply outcome_bind; [by eapply on_prog_outcome|]. intros _ c4 e4 W4 _ [_ Hp].
  eapply (outcome_bind g c4 _ _ (fun _ c' => id ∈ instantiated_handlers c')).
  - simpl. split; [by apply attach_wf_add|]. split; [split; [simpl; set_solver|done]|set_solver].
  - intros _ c5 e5 W5 _ Hin. simpl. done.
Qed.

Lemma perf_handler_outcome g c id h e :
  attach_wf g c -> handler_of g id = Some (PerfH h) ->
  outcome g c (fun _ _ => True) (instantiate_perf_event_handler_at id h c e).
Proof.
  intros Hwf Hid. unfold instantiate_perf_event_handler_at. destruct (_ =? _); [done|]. mbase.
  destruct (attach_impls c !! pe_type h) as [[i gen]|]; [|done].
  destruct (attach_argument h) as [arg|]; [|done]. destruct (gen arg) as [err priv]. destruct (err <? 0); [done|].
  simpl. split; [|split; [split; [simpl; set_solver|done]|done]].
  assert (attach_wf g (add_instantiated id c)) as Hadd
    by (apply attach_wf_add; [done|intros h' Hh'; congruence]).
  apply (attach_wf_event g (add_instantiated id c)); [done|]. left. split; [simpl; set_solver|eauto].
Qed.

Lemma on_impl_outcome g c i f e :
  attach_wf g c -> outcome g c (fun _ c' => exists l, c' = set_holders l c) (on_impl i f c e).
Proof.
  intros Hwf. unfold on_impl. mbase. unfold need. destruct (attach_impl_holders c !! i); [|done]. mbase.
  simpl. split; [by apply attach_wf_holders|]. split; [done|eauto].
Qed.

Lemma need_outcome {A} g c why (o : option A) e :
  attach_wf g c -> outcome g c (fun a c' => o = Some a /\ c' = c) (need why o c e).
Proof. intros Hwf. by destruct o. Qed.

(** The link is attached when its program was instantiated. *)
Lemma link_handler_outcome g c id l nv e :
  attach_wf g c -> handler_of g id = Some (LinkH l) ->
  (forall h, handler_of g (lh_prog_id l) = Some (ProgH h) -> lh_prog_id l ∈ instantiated_handlers c) ->
  outcome g c (fun _ _ => True) (instantiate_bpf_link_handler_at g id l nv c e).
Proof.
  intros Hwf Hid Hprog. unfold instantiate_bpf_link_handler_at. set (target := lh_attach_target_id l).
  eapply (outcome_bind g c _ _ (fun x c' => instantiated_handlers c' = instantiated_handlers c /\
    attach_impls c' = attach_impls c /\ instantiated_progs c' = instantiated_progs c /\
    instantiated_perf_events c' !! target = Some x)).
  { unfold perf_event_slot. mbase. destruct (instantiated_perf_events c !! target) as [x|] eqn:Hx.
    - simpl. done.
    - simpl. split; [apply attach_wf_event; auto|]. split; [done|]. split_and!; try done. by rewrite lookup_insert_eq. }
  intros [priv ty] c1 e1 W1 _ (Hin & Himpls & Hprogs & Hslot).
  eapply (outcome_bind g c1 get _ (fun x c' => x = c1 /\ c' = c1)); [done|]. intros ? ? e1' _ _ [-> ->].
  destruct (attach_impls c1 !! ty) as [[i gen]|] eqn:Hi; [|done].
  destruct (aw_events g c1 W1 target priv ty Hslot) as [[Htin (hp & Hht & Hty)]| ->];
    [|by rewrite (aw_zero g c1 W1) in Hi].
  destruct (instantiated_progs c1 !! lh_prog_id l) as [p|] eqn:Hp; [|done].
  assert (lh_prog_id l ∈ instantiated_handlers c1) as Hpin.
  { destruct (aw_progs g c1 W1 (lh_prog_id l)) as [h Hh]; [by eauto|]. rewrite Hin. eauto. }
  (* a successful attach in a context that differs from [c1] in private data only *)
  assert (forall c2 e2 aid, attach_wf g c2 -> instantiated_handlers c2 = instantiated_handlers c1 ->
    attach_impls c2 = attach_impls c1 -> instantiated_progs c2 = instantiated_progs c1 ->
    outcome g c2 (fun (_ : Z) _ => True) ((if aid <? 0 then mret aid
      else modify (fun c => add_instantiated id (set_links (<[id := (aid, Some i)]> (instantiated_attach_links c)) c));;
           mret 0) c2 e2)) as Hdone.
  { intros c2 e2 aid W2 E1 E2 E3. destruct (Z.ltb_spec aid 0); [done|]. simpl.
    split; [|split; [split; [simpl; set_solver|done]|done]].
    assert (attach_wf g (add_instantiated id c2)) as [V0 V1 V2 V3 V4]
      by (apply attach_wf_add; [done|intros h Hh; congruence]).
    split; simpl in *; try done.
    intros k a im [[<- [= <- <-]]|[Hne Hk]]%lookup_insert_Some; [|by apply V4].
    split; [set_solver|]. split; [done|]. exists l, hp, ty, i, gen. rewrite E1, E2, E3, Hp.
    split_and!; try done; try set_solver. }
  eapply (outcome_bind g c1 _ _ (fun _ c' => instantiated_handlers c' = instantiated_handlers c1 /\
    attach_impls c' = attach_impls c1 /\ instantiated_progs c' = instantiated_progs c1)).
  - destruct (is_cuda p).
    + destruct nv; [|done]. eapply outcome_bind; [by apply need_outcome|]. intros priv1 ? e2 _ _ [-> ->].
      eapply outcome_bind; [by apply need_outcome|]. intros infos ? e3 _ _ [_ ->].
      destruct (nv_fill (bp_insns p) infos priv1) as [priv'|]; [|done].
      eapply (outcome_bind g c1 _ _ (fun _ c' => instantiated_handlers c' = instantiated_handlers c1 /\
        attach_impls c' = attach_impls c1 /\ instantiated_progs c' = instantiated_progs c1)).
      { simpl. split; [apply attach_wf_event; [done|left; split; [done|eauto]]|done]. }
      intros _ c2 e4 W2 _ (E1 & E2 & E3).
      eapply outcome_bind; [by apply on_impl_outcome|]. intros a c3 e5 W3 _ [hl ->]. simpl. done.
    + eapply outcome_bind; [by apply need_outcome|]. intros priv1 ? e2 _ _ [-> ->].
      eapply outcome_bind; [by apply on_impl_outcome|]. intros a c3 e3 W3 _ [hl ->]. simpl. done.
  - intros [aid|] c2 e2 W2 _ (E1 & E2 & E3); [by apply Hdone|done].
Qed.

(** The same for a call with its stack. *)
Definition outcome_stk g c (Q : Z -> ctx -> Prop) (r : out (ctx * gset Z) (option Z)) : Prop :=
  match r with
  | Ok (Some a) (c', _) _ => attach_wf g c' /\ extends c c' /\ Q a c'
  | Ok None (c', _) _ | Throw _ (c', _) _ => attach_wf g c' /\ extends c c'
  | Ub _ => True
  end.

Lemma outcome_total g c stk Q (m : AC Z) e :
  outcome g c Q (m c e) -> outcome_stk g c Q (total (in_ctx m) (c, stk) e).
Proof. unfold total, in_ctx, zoom. mbase. simpl. by destruct (m c e). Qed.

Lemma outcome_or_return g c stk Q R (m k : M (ctx * gset Z) (option Z)) e :
  outcome_stk g c Q (m (c, stk) e) ->
  (forall err c', err < 0 -> attach_wf g c' -> extends c c' -> R err c') ->
  (forall err c' stk' e', attach_wf g c' -> extends c c' -> 0 <= err -> Q err c' -> outcome_stk g c' R (k (c', stk') e')) ->
  outcome_stk g c R (or_return m k (c, stk) e).
Proof.
  intros Hm HR Hk. unfold or_return. mbase. destruct (m (c, stk) e) as [[err|] [c' stk'] e'|w [c' stk'] e'|]; try done.
  destruct Hm as (Hwf & Hext & HQ). destruct (Z.ltb_spec err 0); [simpl; auto|].
  specialize (Hk err c' stk' e' Hwf Hext ltac:(lia) HQ).
  destruct (k (c', stk') e') as [[a|] [c'' stk''] e''|w [c'' stk''] e''|]; try done;
    destruct Hk as (? & ?); split_and!; try done; try (by etrans); naive_solver (etrans; eauto).
Qed.

(** A call that succeeds on a program handler has instantiated it. *)
Lemma instantiate_outcome fuel g config nv id c stk e :
  attach_wf g c ->
  outcome_stk g c (fun r c' => 0 <= r -> forall h, handler_of g id = Some (ProgH h) -> id ∈ instantiated_handlers c')
    (instantiate_handler_at fuel g config nv id (c, stk) e).
Proof.
  revert id c stk e. induction fuel as [|fuel IH]; intros id c stk e Hwf; [done|]. cbn [instantiate_handler_at]. mbase.
  cbn [fst snd]. case_decide; [done|]. case_decide; [simpl; split_and!; try done; lia|].
  destruct (in_table id g) eqn:Htab; [|done]. unfold need. destruct (hm_handlers g !! Z.to_nat id) as [v|] eqn:Hv; [|done]. mbase.
  assert (handler_of g id = Some v) as Hid by (unfold handler_of; by rewrite Htab).
  eapply (outcome_or_return g c _ (fun r c' => 0 <= r -> forall h, handler_of g id = Some (ProgH h) ->
    id ∈ instantiated_handlers c')); [|intros; lia|].
  - destruct v as [|h|l|h|h|]; try (simpl; split_and!; try done; intros; congruence).
    + eapply outcome_or_return; [by apply IH|intros; lia|]. intros err c1 stk1 e1 W1 X1 Hge Hdone.
      eapply outcome_or_return; [by apply IH|intros; lia|]. intros err2 c2 stk2 e2 W2 X2 _ _.
      apply outcome_total. eapply outcome_weaken; [apply link_handler_outcome; try done|intros; congruence].
      intros h Hh. apply (proj1 X2). eauto.
    + apply outcome_total. eapply outcome_weaken; [by apply prog_handler_outcome|]. naive_solver.
    + apply outcome_total. eapply outcome_weaken; [by apply perf_handler_outcome|]. intros; congruence.
  - intros err c' stk' e' Hwf' Hext Hge HQ. simpl. split; [done|]. split; [done|]. intros _ h Hh. eauto.
Qed.

Lemma instantiate_all_outcome n i g config nv c e :
  attach_wf g c -> outcome g c (fun _ _ => True) (instantiate_all n i g config nv c e).
Proof.
  revert i c e. induction n as [|n IH]; intros i c e Hwf; [done|]. cbn [instantiate_all].
  eapply (outcome_bind g c _ _ (fun _ _ => True)); [|intros; by apply IH].
  assert (outcome g c (fun _ _ => True) ((_ ← instantiate g config nv (Z.of_nat i); mret tt) c e)) as Hone.
  { unfold instantiate. mbase.
    pose proof (instantiate_outcome (S (length (hm_handlers g))) g config nv (Z.of_nat i) c ∅ e Hwf) as Ho.
    destruct (instantiate_handler_at _ _ _ _ _ _ _) as [[r|] [c' stk'] e'|w [c' stk'] e'|]; simpl in *; naive_solver. }
  destruct (hm_handlers g !! i) as [[]|]; done.
Qed.

(** C26. Initialising a context from the handlers: whatever the table contains, whichever
    handlers fail and even when an exception ends it, every link that is attached
    has its program loaded and its perf event instantiated, by the implementation
    registered for the type of the event; and nothing instantiated before is lost. *)
Theorem init_attach_links_sound g config c e :
  attach_wf g c ->
  match init_attach_ctx_from_handlers g config c e with
  | Ok _ c' _ | Throw _ c' _ => attach_wf g c' /\ extends c c'
  | Ub _ => True
  end.
Proof.
  intros Hwf. assert (outcome g c (fun (_ : Z) _ => True) (init_attach_ctx_from_handlers g config c e)) as Ho.
  { unfold init_attach_ctx_from_handlers. eapply outcome_bind; [by apply instantiate_all_outcome|].
    intros _ c1 e1 W1 _ _. eapply outcome_bind; [by apply instantiate_all_outcome|]. by intros _ c2 e2 W2 _ _. }
  destruct (init_attach_ctx_from_handlers g config c e); simpl in Ho; naive_solver.
Qed.

(** ** Detaching *)

(** The implementations after the links with the ids [ks] of [links] were detached. *)
Definition detach_in (links : gmap Z (Z * option nat)) (l : list I) (k : Z) : list I :=
  match links !! k with
  | Some (aid, Some i) =>
      match l !! i with Some impl => <[i := (detach_by_id aid impl).2]> l | None => l end
  | _ => l
  end.

(** Every implementation accepts the detach of its attach ids, and every link has one. *)
Definition detachable c : Prop :=
  (forall aid impl, 0 <= (detach_by_id aid impl).1) /\
  forall k aid o, instantiated_attach_links c !! k = Some (aid, o) ->
    exists i, o = Some i /\ (i < length (attach_impl_holders c))%nat.

Lemma destroy_link_run c k e :
  detachable c -> is_Some (instantiated_attach_links c !! k) ->
  destroy_instantiated_attach_link k c e =
  Ok 0 (set_links (delete k (instantiated_attach_links c))
    (set_holders (detach_in (instantiated_attach_links c) (attach_impl_holders c) k) c)) e.
Proof.
  intros [Hok Hl] [[aid o] Hk]. destruct (Hl k aid o Hk) as (i & -> & Hi).
  unfold destroy_instantiated_attach_link, detach_in. mbase. rewrite Hk. unfold on_impl. mbase.
  destruct (lookup_lt_is_Some_2 _ _ Hi) as [impl Himpl]. rewrite Himpl. unfold need. mbase.
  by rewrite (proj2 (Z.ltb_ge _ _)) by apply Hok.
Qed.

Lemma detach_in_delete links ks k l :
  k ∉ ks -> foldl (detach_in (delete k links)) l ks = foldl (detach_in links) l ks.
Proof.
  revert l. induction ks as [|x ks IH]; intros l Hk; [done|]. cbn [foldl].
  assert (detach_in (delete k links) l x = detach_in links l x) as ->
    by (unfold detach_in; rewrite lookup_delete_ne; [done|set_solver]).
  apply IH. set_solver.
Qed.

Lemma destroy_links_run ks c e :
  detachable c -> NoDup ks -> (forall k, k ∈ ks -> is_Some (instantiated_attach_links c !! k)) ->
  exists c', destroy_links ks c e = Ok 0 c' e /\
    instantiated_attach_links c' = foldr delete (instantiated_attach_links c) ks /\
    instantiated_handlers c' = instantiated_handlers c /\
    attach_impl_holders c' = foldl (detach_in (instantiated_attach_links c)) (attach_impl_holders c) ks.
Proof.
  revert c. induction ks as [|k l IH]; intros c Hd Hnd Hin; [by exists c|]. cbn [destroy_links]. mbase.
  apply NoDup_cons in Hnd as [Hk Hnd]. rewrite destroy_link_run by (try done; apply Hin; left).
  change (0 <? 0) with false. cbn iota.
  set (c1 := set_links _ _). destruct (IH c1) as (c' & Hr & Hlinks & Hinst & Hhold).
  - destruct Hd as [Hok Hl]. split; [done|]. simpl. intros k' aid o [Hne Hk']%lookup_delete_Some.
    destruct (Hl k' aid o Hk') as (i & -> & Hi). exists i. split; [done|]. unfold detach_in.
    destruct (instantiated_attach_links c !! k) as [[a [j|]]|]; try done.
    destruct (attach_impl_holders c !! j); by rewrite ?length_insert.
  - done.
  - intros k' Hk'. simpl. rewrite lookup_delete_ne by (by intros ->). apply Hin. by right.
  - exists c'. split; [done|]. split_and!; [|done|].
    + rewrite Hlinks. simpl. clear. induction l as [|x l IH]; simpl; [done|]. by rewrite IH, delete_delete.
    + rewrite Hhold. cbn [foldl]. by apply detach_in_delete.
Qed.

Lemma delete_all (links : gmap Z (Z * option nat)) ks :
  (forall k, is_Some (links !! k) -> k ∈ ks) -> foldr delete links ks = ∅.
Proof.
  intros Hall. apply map_eq. intros k. rewrite lookup_empty.
  assert (k ∈ ks \/ links !! k = None) as Hk by (destruct (links !! k) eqn:E; [left; eauto|by right]). clear Hall.
  induction ks as [|x l IH]; simpl; [destruct Hk; [set_solver|done]|].
  destruct (decide (x = k)) as [->|]; [by rewrite lookup_delete_eq|]. rewrite lookup_delete_ne by done.
  apply IH. set_solver.
Qed.

(** Detaching every link: the call returns 0, no link is left, and each
    implementation has been asked to detach each of its attach ids once, in the
    order of the links. The handlers stay marked as instantiated. *)
Theorem destroy_all_detaches c e :
  detachable c ->
  exists c', destroy_all_attach_links c e = Ok 0 c' e /\ instantiated_attach_links c' = ∅ /\
    instantiated_handlers c' = instantiated_handlers c /\
    exists ks, ks ≡ₚ elements (dom (instantiated_attach_links c)) /\ Sorted Z.le ks /\
      attach_impl_holders c' = foldl (detach_in (instantiated_attach_links c)) (attach_impl_holders c) ks.
Proof.
  intros Hd. unfold destroy_all_attach_links. mbase.
  set (ks := merge_sort Z.le (map_to_list (instantiated_attach_links c)).*1).
  assert (ks ≡ₚ (map_to_list (instantiated_attach_links c)).*1) as Hperm by apply merge_sort_Permutation.
  assert (forall k, k ∈ ks <-> is_Some (instantiated_attach_links c !! k)) as Hin.
  { intros k. rewrite Hperm, list_elem_of_fmap. split.
    - intros ([k' x] & -> & Hx%elem_of_map_to_list). eauto.
    - intros [x Hx]. exists (k, x). split; [done|]. by apply elem_of_map_to_list. }
  assert (NoDup ks) as Hnd by (rewrite Hperm; apply NoDup_fst_map_to_list).
  destruct (destroy_links_run ks c e Hd Hnd) as (c' & Hr & Hlinks & Hinst & Hhold); [intros; by apply Hin|].
  exists c'. split; [done|]. split; [rewrite Hlinks; apply delete_all; intros; by apply Hin|].
  split; [done|]. exists ks. split_and!; [|apply Sorted_merge_sort; apply _|done].
  apply NoDup_Permutation; [done|apply NoDup_elements|].
  intros k. by rewrite Hin, elem_of_elements, elem_of_dom.
Qed.

End attach.

(** ** Witnesses *)

(** An implementation that counts what it attaches; its private data is the argument. *)
Definition toy_attach : AttachImpl (list Z) string := {|
  create_attach_with_ebpf_callback := fun cb d ty l => (Z.of_nat (length l), l ++ [Z.of_nat (length l)]);
  detach_by_id := fun aid l => (0, filter (fun x => x <> aid) l);
  register_custom_helpers := fun l => [mk_helper 183 "bpf_get_func_arg" "bpftime_get_func_arg"];
  nv_fill := fun insns info d => None
|}.

(** A table with a program, a uprobe and a link between them. *)
Definition attach_manager : manager (list bytes) :=
  mk_manager [ProgH small_prog; PerfH (perf_event_uprobe false 64 (-1) "libc.so" 0);
    LinkH (link_with_cookie 0 1 (Some 7))] empty_shm ∅ 0.

Abbreviation toy_ctx := (bpf_attach_ctx (gmap Z string) Z (list Z) string).
Definition attach_start : toy_ctx :=
  mk_actx ∅ ∅ ∅ ∅ {[ 6 := (0%nat, fun arg => (0, Some arg)) ]} [[]] ∅.

Lemma attach_start_wf : attach_wf attach_manager attach_start.
Proof. split; try done. intros id [x Hx]. done. Qed.

Abbreviation toy_init := (@init_attach_ctx_from_handlers _ _ _ unit _ _ toy_runtime toy_vm toy_attach false false []).
Definition attached : toy_ctx :=
  match toy_init attach_manager agent_config_new attach_start 0 with Ok _ c _ => c | _ => attach_start end.

Example attached_link : instantiated_attach_links attached = {[ 2 := (0, Some 0%nat) ]}.
Proof. vm_compute. reflexivity. Qed.

Lemma init_attach_links_sound_witness : attach_wf attach_manager attached /\ extends attach_start attached.
Proof.
  pose proof (@init_attach_links_sound _ _ _ unit _ _ toy_runtime toy_vm toy_attach false false [] attach_manager
    agent_config_new attach_start 0 attach_start_wf) as Hs.
  unfold attached. destruct (toy_init attach_manager agent_config_new attach_start 0) as [r c e|w c e|w] eqn:Hrun;
    [exact Hs|exfalso; revert Hrun; vm_compute; discriminate..].
Defined.

Lemma destroy_all_detaches_witness :
  exists c', @destroy_all_attach_links _ _ _ _ toy_attach attached 0 = Ok 0 c' 0 /\
    instantiated_attach_links c' = ∅.
Proof.
  destruct (@destroy_all_detaches _ _ _ _ toy_attach attached 0) as (c' & Hr & Hl & _).
  - split; [simpl; lia|]. intros k aid o Hk. exists 0%nat. rewrite attached_link in Hk.
    apply lookup_singleton_Some in Hk as [_ [= _ <-]]. split; [reflexivity|]. vm_compute. lia.
  - exact (ex_intro _ c' (conj Hr Hl)).
Defined.
