(* ===== verification/SyscallTrace.v ===== *)
(** The attach implementation of system call traces (attach/syscall_trace_attach_impl and
    attach/base_attach_impl): the sets of callbacks by system call, attaching and detaching,
    the dispatcher that runs them around the original call, the tables of system call names,
    and the implementation as one of those the attach context calls. *)
From Stdlib Require Import ZArith Lia Ascii String.
From stdpp Require Import base list gmap strings pretty sorting.
From S2P Require Import Prelude Config MapHandler PerfEvent HandlerManager Cuda Prog AttachCtx.
Local Open Scope Z_scope.

(** ** Data *)

(** The private data of the attach implementations; a cast to another class throws
    [bad_cast]. *)
Inductive attach_private_data :=
  | SyscallTraceData (sys_nr : Z) (is_enter : bool)
  | FridaData (addr : Z) (module_name : text)
  | OtherData.

(** The arguments of the programs; the common [trace_entry] is zeroed. *)
Inductive trace_ctx :=
  | trace_event_raw_sys_enter (id : Z) (args : list Z)
  | trace_event_raw_sys_exit (id ret : Z).

Definition ATTACH_SYSCALL_TRACE : Z := 2.

Record syscall_trace_attach_entry (C : Type) := mk_st_entry { st_cb : C; st_sys_nr : Z; st_is_enter : bool }.
Arguments mk_st_entry {C}.
Arguments st_cb {C}.
Arguments st_sys_nr {C}.
Arguments st_is_enter {C}.

(** The addresses that [new] hands out. *)
Class Allocator := {
  alloc : gset Z -> Z;
  alloc_fresh X : alloc X ∉ X
}.

(** Entries live in a heap; [attach_entries] owns them, the sets of callbacks point to them.
    [st_next_id] is the counter of [base_attach_impl]. *)
Record syscall_trace_attach_impl (C : Type) := mk_st {
  st_next_id : Z;
  global_enter_callbacks : gset Z;
  global_exit_callbacks : gset Z;
  sys_enter_callbacks : list (gset Z);
  sys_exit_callbacks : list (gset Z);
  attach_entries : gmap Z Z;
  st_heap : gmap Z (syscall_trace_attach_entry C)
}.
Arguments mk_st {C}.
Arguments st_next_id {C}.
Arguments global_enter_callbacks {C}.
Arguments global_exit_callbacks {C}.
Arguments sys_enter_callbacks {C}.
Arguments sys_exit_callbacks {C}.
Arguments attach_entries {C}.
Arguments st_heap {C}.

Section impl.
Context {C : Type} `{!Allocator}.
Abbreviation entry := (syscall_trace_attach_entry C).
Implicit Types i : syscall_trace_attach_impl C.

Definition syscall_trace_new : syscall_trace_attach_impl C :=
  mk_st 1 ∅ ∅ (replicate 512 ∅) (replicate 512 ∅) ∅ ∅.

(** ** Attaching and detaching *)

(** Changing the set of callbacks an entry belongs to; none outside the arrays. *)
Definition alter_callbacks (f : gset Z -> gset Z) (is_enter : bool) (sys_nr : Z) i : option (syscall_trace_attach_impl C) :=
  let '(mk_st n ge gx se sx es h) := i in
  match is_enter, sys_nr =? -1 with
  | true, true => Some (mk_st n (f ge) gx se sx es h)
  | false, true => Some (mk_st n ge (f gx) se sx es h)
  | true, false =>
      if (0 <=? sys_nr) && (sys_nr <? Z.of_nat (length se))
      then Some (mk_st n ge gx (alter f (Z.to_nat sys_nr) se) sx es h) else None
  | false, false =>
      if (0 <=? sys_nr) && (sys_nr <? Z.of_nat (length sx))
      then Some (mk_st n ge gx se (alter f (Z.to_nat sys_nr) sx) es h) else None
  end.

Definition set_entries n es h i : syscall_trace_attach_impl C :=
  mk_st n (global_enter_callbacks i) (global_exit_callbacks i) (sys_enter_callbacks i) (sys_exit_callbacks i) es h.

(** [create_attach_with_ebpf_callback]: the identifier or an error; none when the
    counter of identifiers overflows. *)
Definition st_create_attach (cb : C) (private_data : attach_private_data) (attach_type : Z) i :
    option (Z * syscall_trace_attach_impl C) :=
  if negb (attach_type =? ATTACH_SYSCALL_TRACE) then Some (- ENOTSUP, i)
  else
    match private_data with
    | SyscallTraceData sys_nr is_enter =>
        if (Z.of_nat (length (sys_enter_callbacks i)) <=? sys_nr) || (sys_nr <? -1) then Some (- EINVAL, i)
        else if st_next_id i =? 2 ^ 31 - 1 then None
        else
          let raw_ptr := alloc (dom (st_heap i)) in
          let id := st_next_id i in
          let i1 := set_entries (id + 1) (<[id := raw_ptr]> (attach_entries i))
                      (<[raw_ptr := mk_st_entry cb sys_nr is_enter]> (st_heap i)) i in
          i2 ← alter_callbacks (fun X => {[raw_ptr]} ∪ X) is_enter sys_nr i1;
          Some (id, i2)
    | _ => Some (- EINVAL, i)
    end.

(** [detach_by_id]: none when the entry is not alive. *)
Definition st_detach_by_id (id : Z) i : option (Z * syscall_trace_attach_impl C) :=
  match attach_entries i !! id with
  | None => Some (- ENOENT, i)
  | Some raw_ptr =>
      ent ← st_heap i !! raw_ptr;
      i1 ← alter_callbacks (fun X => X ∖ {[raw_ptr]}) (st_is_enter ent) (st_sys_nr ent) i;
      Some (0, set_entries (st_next_id i1) (delete id (attach_entries i1)) (delete raw_ptr (st_heap i1)) i1)
  end.

(** ** Dispatching a system call *)

Section dispatch.
Context {W : Type}.
(** What a callback does: it changes the world, and calls the thread's callback for
    overriding the return value with these (context, value) pairs. *)
Context (run : C -> trace_ctx -> W -> W * list (Z * Z)).
Context (orig_syscall : Z -> list Z -> W -> Z * W).

Definition __NR_exit : Z := 60.
Definition __NR_exit_group : Z := 231.

(** [std::set] is in the order of addresses. *)
Definition set_order (X : gset Z) : list Z := merge_sort Z.le (elements X).

(** The loop over a set of callbacks, with what was passed to the override callback. *)
Fixpoint run_callbacks (h : gmap Z entry) (ctx : trace_ctx) (progs : list Z) (ov : list (Z * Z)) : M W (list (Z * Z)) :=
  match progs with
  | [] => mret ov
  | prog :: progs' =>
      ent ← need "dangling callback" (h !! prog);
      w ← get;
      let '(w', calls) := run (st_cb ent) ctx w in
      put w';; run_callbacks h ctx progs' (ov ++ calls)
  end.

Definition run_both (h : gmap Z entry) (ctx : trace_ctx) (own global : gset Z) : M W (list (Z * Z)) :=
  if bool_decide (own = ∅) && bool_decide (global = ∅) then mret []
  else
    ov ← run_callbacks h ctx (set_order own) [];
    run_callbacks h ctx (set_order global) ov.

Definition at_index (l : list (gset Z)) (n : Z) : option (gset Z) :=
  if 0 <=? n then l !! Z.to_nat n else None.

Definition call_original (sys_nr : Z) (args : list Z) : M W Z :=
  w ← get; let '(r, w') := orig_syscall sys_nr args w in put w';; mret r.

Definition dispatch_syscall (sys_nr : Z) (args : list Z) i : M W Z :=
  if (sys_nr =? __NR_exit_group) || (sys_nr =? __NR_exit) then call_original sys_nr args
  else
    own ← need "index outside sys_enter_callbacks" (at_index (sys_enter_callbacks i) sys_nr);
    ov ← run_both (st_heap i) (trace_event_raw_sys_enter sys_nr (u64 <$> args)) own (global_enter_callbacks i);
    match last ov with
    | Some (_, user_ret) => mret (s64 user_ret)
    | None =>
        ret ← call_original sys_nr args;
        own ← need "index outside sys_exit_callbacks" (at_index (sys_exit_callbacks i) sys_nr);
        ov ← run_both (st_heap i) (trace_event_raw_sys_exit sys_nr ret) own (global_exit_callbacks i);
        mret (match last ov with Some (_, user_ret) => s64 user_ret | None => ret end)
    end.
End dispatch.
End impl.

(** ** The names of system calls *)

(** [std::istringstream >> name]: the next word, and what follows it; none at the end. *)
Fixpoint word (s : text) : text * text :=
  match s with
  | a :: s' => if is_space a then ([], s) else let '(w, r) := word s' in (a :: w, r)
  | [] => ([], [])
  end.
Definition read_name (s : text) : option (text * text) :=
  match skip_spaces s with [] => None | s' => Some (word s') end.

(** The digits in front, and what follows them. *)
Fixpoint digits_of (s : text) : text * text :=
  match s with
  | a :: s' => if is_digit a then let '(d, r) := digits_of s' in (a :: d, r) else ([], s)
  | [] => ([], [])
  end.

(** [>> id] for an [int]: the value, and the rest of the stream unless it failed. At the end
    of the stream the variable is not written; without digits it is set to 0; outside its
    range to the nearest bound. *)
Definition read_int (uninitialised : Z) (s : text) : Z * option text :=
  match skip_spaces s with
  | [] => (uninitialised, None)
  | a :: s' =>
      let neg := bool_decide (a = "-"%char) in
      let '(d, r) := digits_of (if neg || bool_decide (a = "+"%char) then s' else a :: s') in
      match digits d None with
      | None => (0, None)
      | Some n =>
          let v := if neg then - n else n in
          if v <? - 2 ^ 31 then (- 2 ^ 31, None) else if 2 ^ 31 <=? v then (2 ^ 31 - 1, None) else (v, Some r)
      end
  end.

(** [syscall_name_patch]. *)
Definition patch_name (name : text) : text :=
  if bool_decide (name = chars "umount2") then chars "umount" else name.

Abbreviation syscall_id_pair := (gmap text Z * gmap Z text)%type.

(** The loop [while (ss)]: its last turn reads nothing. *)
Fixpoint id_table_loop (fuel : nat) (uninitialised : Z) (s : option text) (t : syscall_id_pair) : syscall_id_pair :=
  match fuel, s with
  | S fuel', Some s =>
      let '(name, id, rest) :=
        match read_name s with
        | None => ([], uninitialised, None)
        | Some (name, s1) => let '(id, rest) := read_int uninitialised s1 in (name, id, rest)
        end in
      let name := patch_name name in
      id_table_loop fuel' uninitialised rest (<[name := id]> t.1, <[id := name]> t.2)
  | _, _ => t
  end.
Definition generate_syscall_id_table (uninitialised : Z) (table : text) : syscall_id_pair :=
  id_table_loop (S (length table)) uninitialised (Some table) (∅, ∅).

Definition GLOBAL_SYS_ENTER_NAME : text := chars "*SYS_ENTER".
Definition GLOBAL_SYS_EXIT_NAME : text := chars "*SYS_EXIT".

(** The directories of the tracing file system, with the content of their file [id]; an entry
    that is no directory is skipped, a file that cannot be opened throws. *)
Fixpoint tracepoint_dirs (dirs : list (text * bool * option Z)) (t : gmap Z text) : option (gmap Z text) :=
  match dirs with
  | [] => Some t
  | (name, is_directory, id) :: dirs' =>
      if is_directory then id ← id; tracepoint_dirs dirs' (<[id := name]> t) else tracepoint_dirs dirs' t
  end.
Definition create_syscall_tracepoint_id_table (syscalls : list (text * bool * option Z))
    (raw_sys_enter raw_sys_exit : option Z) : option (gmap Z text) :=
  t ← tracepoint_dirs syscalls ∅;
  enter ← raw_sys_enter;
  exit ← raw_sys_exit;
  Some (<[exit := GLOBAL_SYS_EXIT_NAME]> (<[enter := GLOBAL_SYS_ENTER_NAME]> t)).

Definition starts_with (name p : text) : bool := bool_decide (take (length p) name = p).

(** [initialize_from_string]: the result and the fields; none when [stoi] throws. The local
    [is_enter] is not initialised. *)
Definition st_initialize_from_string (uninitialised : bool) (tracepoints : gmap Z text) (ids : gmap text Z) (sv : text) :
    option (Z * option attach_private_data) :=
  tp_id ← stoi sv;
  match tracepoints !! tp_id with
  | None => Some (- EEXIST, None)
  | Some name =>
      if bool_decide (name = GLOBAL_SYS_ENTER_NAME) then Some (0, Some (SyscallTraceData (-1) true))
      else if bool_decide (name = GLOBAL_SYS_EXIT_NAME) then Some (0, Some (SyscallTraceData (-1) false))
      else
        let '(syscall_name, is_enter) :=
          if starts_with name (chars "sys_enter_") then (drop 10 name, true)
          else if starts_with name (chars "sys_exit_") then (drop 9 name, false)
          else ([], uninitialised) in
        match ids !! syscall_name with
        | Some nr => Some (0, Some (SyscallTraceData nr is_enter))
        | None => Some (- EEXIST, None)
        end
  end.

(** ** Numbers in text *)

Lemma chars_app a b : chars (a +:+ b) = chars a ++ chars b.
Proof. induction a as [|c a IH]; simpl; [done|]. by f_equal. Qed.

Lemma pretty_char_digit x : (x < 10)%N ->
  is_digit (pretty_N_char x) = true /\ Z.of_N (N_of_ascii (pretty_N_char x)) - 48 = Z.of_N x.
Proof. intros Hx. destruct x as [|x]; [done|]. do 4 (try destruct x as [x|x|]); try done; try lia. Qed.

(** The digits a number is printed with, and what reading them adds to a number read so far. *)
Lemma pretty_go_digits x s : (0 < x)%N -> exists ds, chars (pretty_N_go x s) = ds ++ chars s /\
  ds <> [] /\ Forall (fun a => is_digit a = true) ds /\
  forall acc rest, digits (ds ++ rest) acc = digits rest (Some (default 0 acc * 10 ^ Z.of_nat (length ds) + Z.of_N x)).
Proof.
  revert s. induction (N.lt_wf_0 x) as [x _ IH]. intros s Hx. rewrite pretty_N_go_step by done.
  destruct (pretty_char_digit (x `mod` 10)) as [Hd Hv]; [apply N.mod_lt; lia|].
  assert (Z.of_N x = 10 * Z.of_N (x / 10) + Z.of_N (x mod 10)) as Hdiv by (pose proof (N.div_mod x 10); lia).
  destruct (decide (x / 10 = 0)%N) as [H0|H0].
  - rewrite H0, pretty_N_go_0. exists [pretty_N_char (x `mod` 10)]. split_and!; [done|done|by repeat constructor|].
    intros acc rest. cbn [app digits]. rewrite Hd, Hv. do 2 f_equal. rewrite H0 in Hdiv. cbn [length]. lia.
  - assert (x / 10 < x)%N as Hlt by (apply N.div_lt; lia). assert (0 < x / 10)%N as Hpos by (by apply N.neq_0_lt_0).
    destruct (IH _ Hlt (String (pretty_N_char (x `mod` 10)) s) Hpos) as (ds & Hds & Hne & Hall & Hread).
    exists (ds ++ [pretty_N_char (x `mod` 10)]). split_and!.
    + rewrite Hds, <- app_assoc. done.
    + by destruct ds.
    + apply Forall_app. split; [done|by repeat constructor].
    + intros acc rest. rewrite <- app_assoc, Hread. cbn [app digits]. rewrite Hd, Hv. do 2 f_equal. cbn [default from_option id].
      rewrite length_app, Nat2Z.inj_add, Z.pow_add_r by lia. change (10 ^ Z.of_nat (length [pretty_N_char (x mod 10)])) with 10. lia.
Qed.

Lemma pretty_digits z : 0 <= z -> exists ds, chars (pretty z) = ds /\ ds <> [] /\
  Forall (fun a => is_digit a = true) ds /\ forall rest, digits (ds ++ rest) None = digits rest (Some z).
Proof.
  intros Hz. eexists. split; [done|]. destruct z as [|p|p]; [|change (pretty (Z.pos p)) with (pretty (N.pos p))|lia].
  - split_and!; [done|by repeat constructor|done].
  - unfold pretty, pretty_N. rewrite decide_False by done.
    destruct (pretty_go_digits (N.pos p) "") as (ds & -> & Hne & Hall & Hr); [lia|]. rewrite app_nil_r. split_and!; [done..|].
    intros rest. rewrite Hr. do 2 f_equal.
Qed.

Lemma digit_not_space a : is_digit a = true -> is_space a = false.
Proof.
  unfold is_digit, is_space. destruct (N.leb_spec 48 (N_of_ascii a)); [|done]. intros _.
  destruct (N.eqb_spec (N_of_ascii a) 32), (N.leb_spec (N_of_ascii a) 13); lia || by rewrite ?andb_false_r.
Qed.

Lemma digit_no_sign a (s : text) {A} (x y z : A) :
  is_digit a = true -> match a :: s with "-"%char :: _ => x | "+"%char :: _ => y | _ => z end = z.
Proof. intros Ha. repeat (match goal with |- context [match ?b with true => _ | false => _ end] => destruct b end || destruct a); done. Qed.

(** [std::stoi] reads what was printed. *)
Lemma stoi_pretty z : 0 <= z < 2 ^ 31 -> stoi (chars (pretty z)) = Some z.
Proof.
  intros Hz. destruct (pretty_digits z) as (ds & -> & Hne & Hall & Hr); [lia|]. specialize (Hr []). rewrite app_nil_r in Hr.
  destruct ds as [|a ds]; [done|]. apply Forall_cons in Hall as [Ha Hall]. unfold stoi. cbn [skip_spaces].
  rewrite (digit_not_space a Ha). rewrite digit_no_sign by done. rewrite Hr. simpl.
  rewrite (proj2 (Z.leb_le _ _)), (proj2 (Z.ltb_lt _ _)) by lia. done.
Qed.

(** ** The table of system calls *)

(** A table of names and numbers as it is generated: one line for each. *)
Definition table_line (x : text * Z) : text := x.1 ++ " "%char :: chars (pretty x.2) ++ ["010"%char].
Definition table_text (l : list (text * Z)) : text := concat (table_line <$> l).

Definition line_ok (x : text * Z) : Prop :=
  x.1 <> [] /\ Forall (fun a => is_space a = false) x.1 /\ 0 <= x.2 < 2 ^ 31.

Lemma read_name_word n (rest : text) b :
  n <> [] -> Forall (fun a => is_space a = false) n -> is_space b = true -> read_name (n ++ b :: rest) = Some (n, b :: rest).
Proof.
  intros Hne Hn Hb. assert (word (n ++ b :: rest) = (n, b :: rest)) as Hw.
  { clear Hne. induction Hn as [|a n Ha _ IH]; simpl; [by rewrite Hb|]. by rewrite Ha, IH. }
  unfold read_name. destruct n as [|a n]; [done|]. apply Forall_cons in Hn as [Ha _]. cbn [app skip_spaces]. rewrite Ha.
  change (a :: n ++ b :: rest) with ((a :: n) ++ b :: rest). by rewrite Hw.
Qed.

Lemma read_int_pretty u z (rest : text) b : 0 <= z < 2 ^ 31 -> is_digit b = false ->
  read_int u (" "%char :: chars (pretty z) ++ b :: rest) = (z, Some (b :: rest)).
Proof.
  intros Hz Hb. destruct (pretty_digits z) as (ds & -> & Hne & Hall & Hr); [lia|]. specialize (Hr []). rewrite app_nil_r in Hr.
  unfold read_int. change (skip_spaces (" "%char :: ds ++ b :: rest)) with (skip_spaces (ds ++ b :: rest)).
  destruct ds as [|a ds]; [done|]. pose proof Hall as Hall'. apply Forall_cons in Hall' as [Ha _]. cbn [app skip_spaces].
  rewrite (digit_not_space a Ha), !bool_decide_eq_false_2 by (by intros ->). cbn [orb].
  assert (digits_of ((a :: ds) ++ b :: rest) = (a :: ds, b :: rest)) as Hd.
  { clear -Hall Hb. induction Hall as [|c ds' Hc _ IH]; simpl; [by rewrite Hb|]. by rewrite Hc, IH. }
  change (a :: ds ++ b :: rest) with ((a :: ds) ++ b :: rest). rewrite Hd, Hr. cbn [digits].
  rewrite (proj2 (Z.ltb_ge _ _)), (proj2 (Z.leb_gt _ _)) by lia. done.
Qed.

Definition add_line (t : syscall_id_pair) (x : text * Z) : syscall_id_pair :=
  (<[patch_name x.1 := x.2]> t.1, <[x.2 := patch_name x.1]> t.2).

Lemma id_table_loop_text fuel u l nl t :
  (length l < fuel)%nat -> Forall line_ok l -> nl = [] \/ nl = ["010"%char] ->
  id_table_loop fuel u (Some (nl ++ table_text l)) t = add_line (foldl add_line t l) ([], u).
Proof.
  revert fuel nl t. induction l as [|[n id] l IH]; intros fuel nl t Hf Hl Hnl; (destruct fuel as [|fuel]; [simpl in *; lia|]).
  - assert (read_name (nl ++ table_text []) = None) as Hr by (by destruct Hnl as [-> | ->]).
    cbn [id_table_loop]. rewrite Hr. by destruct fuel.
  - apply Forall_cons in Hl as [(Hne & Hsp & Hid) Hl]. cbn [fst snd] in *.
    assert (forall s, read_name (nl ++ s) = read_name s) as Hskip by (by destruct Hnl as [-> | ->]).
    assert (table_text ((n, id) :: l) = n ++ " "%char :: chars (pretty id) ++ "010"%char :: table_text l) as ->.
    { unfold table_text, table_line. simpl. rewrite <- app_assoc. cbn [app]. by rewrite <- app_assoc. }
    cbn [id_table_loop]. rewrite Hskip, read_name_word by done. rewrite read_int_pretty by done.
    cbn [foldl]. rewrite <- (IH fuel ["010"%char]); [done|simpl in Hf; lia|done|by right].
Qed.

(** Every line of the generated table is found by the name of its tracepoint. *)
Lemma syscall_table_parsed u l n id :
  Forall line_ok l -> NoDup (patch_name <$> l.*1) -> (n, id) ∈ l ->
  (generate_syscall_id_table u (table_text l)).1 !! patch_name n = Some id.
Proof.
  intros Hl Hnd Hin. unfold generate_syscall_id_table.
  assert (length l <= length (table_text l))%nat as Hlen.
  { clear. unfold table_text. induction l as [|x l IH]; [done|]. rewrite fmap_cons. cbn [concat length]. rewrite length_app.
    assert (1 <= length (table_line x))%nat by (unfold table_line; rewrite length_app; cbn [length]; lia). lia. }
  rewrite (id_table_loop_text (S (length (table_text l))) u l [] (∅, ∅)) by (done || lia || by left).
  unfold add_line at 1. cbn [fst]. change (patch_name []) with (@nil ascii).
  rewrite Forall_forall in Hl. destruct (Hl _ Hin) as (Hne & _). rewrite lookup_insert_ne.
  2: { unfold patch_name. case_bool_decide; [done|]. by apply not_eq_sym. }
  assert (forall t, (foldl add_line t l).1 !! patch_name n = Some id) as Hfold; [|apply Hfold].
  clear Hl Hlen Hne. induction l as [|x l IH]; intros t; [by apply not_elem_of_nil in Hin|].
  rewrite !fmap_cons, NoDup_cons in Hnd. destruct Hnd as [Hx Hnd]. cbn [foldl].
  apply elem_of_cons in Hin as [<-|Hin]; [|by apply IH]. clear IH Hnd. cbn [fst] in Hx.
  assert (forall t : syscall_id_pair, t.1 !! patch_name n = Some id -> (foldl add_line t l).1 !! patch_name n = Some id) as Hkeep.
  { induction l as [|y l IH]; intros t' Ht; [done|]. rewrite !fmap_cons, not_elem_of_cons in Hx. destruct Hx as [Hy Hx].
    cbn [foldl]. apply (IH Hx). unfold add_line. cbn [fst]. by rewrite lookup_insert_ne. }
  apply Hkeep. unfold add_line. cbn [fst]. by rewrite lookup_insert_eq.
Qed.

(** ** The invariant *)

Section invariant.
Context {C : Type} `{!Allocator}.
Abbreviation entry := (syscall_trace_attach_entry C).
Implicit Types i : syscall_trace_attach_impl C.

(** The set of callbacks of a system call, or of all ([-1]). *)
Definition callbacks_of (enter : bool) (nr : Z) i : option (gset Z) :=
  if nr =? -1 then Some (if enter then global_enter_callbacks i else global_exit_callbacks i)
  else at_index (if enter then sys_enter_callbacks i else sys_exit_callbacks i) nr.

(** What is attached, by identifier. *)
Definition attached i : gmap Z entry := omap (fun a => st_heap i !! a) (attach_entries i).

(** Identifiers own distinct entries, all that live; each set has exactly the entries of its
    kind and system call. *)
Record st_ok i : Prop := {
  ok_lens : length (sys_enter_callbacks i) = 512%nat /\ length (sys_exit_callbacks i) = 512%nat;
  ok_sets enter nr X : callbacks_of enter nr i = Some X -> forall a,
    a ∈ X <-> exists ent, st_heap i !! a = Some ent /\ st_is_enter ent = enter /\ st_sys_nr ent = nr;
  ok_nr a ent : st_heap i !! a = Some ent -> -1 <= st_sys_nr ent < 512;
  ok_own id a : attach_entries i !! id = Some a -> is_Some (st_heap i !! a);
  ok_inj id id' a : attach_entries i !! id = Some a -> attach_entries i !! id' = Some a -> id = id';
  ok_live a : is_Some (st_heap i !! a) -> exists id, attach_entries i !! id = Some a;
  ok_ids id a : attach_entries i !! id = Some a -> 1 <= id < st_next_id i;
  ok_next : 1 <= st_next_id i < 2 ^ 31
}.

Lemma at_index_alter f n l m :
  0 <= n -> at_index (alter f (Z.to_nat n) l) m = if m =? n then f <$> at_index l m else at_index l m.
Proof.
  intros Hn. unfold at_index. destruct (Z.eqb_spec m n) as [->|Hne].
  - destruct (0 <=? n); [apply list_lookup_alter_eq|done].
  - destruct (Z.leb_spec 0 m); [|done]. apply list_lookup_alter_ne. lia.
Qed.

Lemma alter_callbacks_spec f enter nr i :
  length (sys_enter_callbacks i) = 512%nat /\ length (sys_exit_callbacks i) = 512%nat -> -1 <= nr < 512 ->
  exists i', alter_callbacks f enter nr i = Some i' /\
    st_next_id i' = st_next_id i /\ attach_entries i' = attach_entries i /\ st_heap i' = st_heap i /\
    (length (sys_enter_callbacks i') = 512%nat /\ length (sys_exit_callbacks i') = 512%nat) /\
    forall enter' nr', callbacks_of enter' nr' i' =
      if Bool.eqb enter' enter && (nr' =? nr) then f <$> callbacks_of enter' nr' i else callbacks_of enter' nr' i.
Proof.
  destruct i as [n ge gx se sx es h]. simpl. intros [Hse Hsx] Hnr. unfold callbacks_of. simpl.
  destruct (Z.eqb_spec nr (-1)) as [->|Hne].
  - destruct enter; (eexists; split; [done|]); simpl; split_and!; try done; intros [] nr'; simpl; by destruct (nr' =? -1).
  - rewrite Hse, Hsx, (proj2 (Z.leb_le _ _)), (proj2 (Z.ltb_lt _ _)) by lia. simpl.
    destruct enter; (eexists; split; [done|]); simpl; rewrite ?length_alter; split_and!; try done;
      intros [] nr'; simpl; rewrite ?at_index_alter by lia; destruct (Z.eqb_spec nr' nr) as [->|]; try done;
      rewrite ?(proj2 (Z.eqb_neq nr (-1)) Hne); done.
Qed.

Lemma callbacks_of_dom enter nr i : st_ok i -> -1 <= nr < 512 -> is_Some (callbacks_of enter nr i).
Proof.
  intros [[Hse Hsx] _ _ _ _ _ _ _] Hnr. unfold callbacks_of, at_index. destruct (Z.eqb_spec nr (-1)); [by eexists|].
  rewrite (proj2 (Z.leb_le _ _)) by lia. destruct enter; apply lookup_lt_is_Some; lia.
Qed.

Lemma syscall_trace_new_ok : st_ok (syscall_trace_new (C := C)).
Proof.
  split; cbn [syscall_trace_new attach_entries st_heap st_next_id]; try (intros *; by rewrite lookup_empty); try done.
  - intros enter nr X HX a. assert (X = ∅) as ->; [|rewrite lookup_empty; set_solver].
    unfold callbacks_of, at_index, syscall_trace_new in HX.
    cbn [global_enter_callbacks global_exit_callbacks sys_enter_callbacks sys_exit_callbacks] in HX. destruct (nr =? -1); [destruct enter; congruence|].
    destruct (0 <=? nr); [|done]. destruct enter; by apply lookup_replicate in HX as [-> _].
Qed.

Lemma attached_lookup i id ent :
  attached i !! id = Some ent <-> exists a, attach_entries i !! id = Some a /\ st_heap i !! a = Some ent.
Proof. unfold attached. rewrite lookup_omap. destruct (attach_entries i !! id); simpl; naive_solver. Qed.

(** Attaching: the errors leave everything as it was; otherwise the entry is attached under
    a new identifier. *)
Lemma st_create_attach_spec cb data ty i :
  st_ok i -> st_next_id i < 2 ^ 31 - 1 ->
  exists r i', st_create_attach cb data ty i = Some (r, i') /\ st_ok i' /\
    match data with
    | SyscallTraceData nr enter =>
        if (ty =? ATTACH_SYSCALL_TRACE) && (-1 <=? nr) && (nr <? 512)
        then r = st_next_id i /\ st_next_id i' = st_next_id i + 1 /\ attached i !! r = None /\
             attached i' = <[r := mk_st_entry cb nr enter]> (attached i)
        else r = (if ty =? ATTACH_SYSCALL_TRACE then - EINVAL else - ENOTSUP) /\ i' = i
    | _ => r = (if ty =? ATTACH_SYSCALL_TRACE then - EINVAL else - ENOTSUP) /\ i' = i
    end.
Proof.
  intros Hi Hnext. unfold st_create_attach.
  destruct (Z.eqb_spec ty ATTACH_SYSCALL_TRACE) as [->|Hty]; [cbn [negb andb]|].
  2: { exists (- ENOTSUP), i. split; [done|]. split; [done|]. by destruct data. }
  destruct data as [nr enter| |].
  2, 3: by exists (- EINVAL), i.
  destruct (ok_lens _ Hi) as [Hse Hsx]. rewrite Hse. change (Z.of_nat 512) with 512.
  destruct (Z.leb_spec 512 nr) as [|Hhi]; cbn [orb].
  { exists (- EINVAL), i. rewrite (proj2 (Z.ltb_ge nr 512)), andb_false_r by lia. done. }
  destruct (Z.ltb_spec nr (-1)) as [|Hlo].
  { exists (- EINVAL), i. rewrite (proj2 (Z.leb_gt _ nr)) by lia. done. }
  rewrite (proj2 (Z.eqb_neq (st_next_id i) _)), (proj2 (Z.leb_le (-1) nr)), (proj2 (Z.ltb_lt nr 512)) by lia. cbn [andb].
  set (p := alloc (dom (st_heap i))). set (id := st_next_id i). set (ent := mk_st_entry cb nr enter).
  assert (st_heap i !! p = None) as Hp by (apply not_elem_of_dom, alloc_fresh).
  assert (attach_entries i !! id = None) as Hid.
  { apply eq_None_not_Some. intros [a Ha]. pose proof (ok_ids _ Hi id a Ha). unfold id in *. lia. }
  assert (forall id' a, attach_entries i !! id' = Some a -> a <> p) as Hother.
  { intros id' a Ha ->. destruct (ok_own _ Hi id' p Ha). congruence. }
  destruct (alter_callbacks_spec (fun X => {[p]} ∪ X) enter nr
    (set_entries (id + 1) (<[id := p]> (attach_entries i)) (<[p := ent]> (st_heap i)) i)) as (i' & Hi' & Hn & Hes & Hh & Hl & Hcb); [done|lia|].
  rewrite Hi'. exists id, i'. simpl in Hn, Hes, Hh. split_and!; [done| |done|done| |].
  - split; rewrite ?Hn, ?Hes, ?Hh; [done|..].
    + intros enter' nr' X HX a. rewrite Hcb in HX.
      change (callbacks_of enter' nr' (set_entries (id + 1) _ _ i)) with (callbacks_of enter' nr' i) in HX.
      destruct (callbacks_of enter' nr' i) as [Y|] eqn:HY; [|by destruct (_ && _)].
      pose proof (ok_sets _ Hi enter' nr' Y HY a) as Hs. setoid_rewrite lookup_insert_Some.
      assert (a ∈ Y -> a <> p) as HaY by (intros (x & ? & _)%Hs ->; congruence).
      destruct (Bool.eqb enter' enter && (nr' =? nr)) eqn:He; simplify_eq/=.
      * apply andb_true_iff in He as [->%Bool.eqb_prop ->%Z.eqb_eq]. rewrite elem_of_union, elem_of_singleton, Hs. split.
        -- intros [->|(x & Hx & Hx2)]; [exists ent; naive_solver|exists x; split; [|done]; right; split; [|done]; congruence].
        -- intros (x & [[<- <-]|[Hne Hx]] & Hx2); [by left|right; eauto].
      * rewrite Hs. split.
        -- intros (x & Hx & Hx2). exists x. split; [|done]. right. split; [|done]. congruence.
        -- intros (x & [[<- <-]|[Hne Hx]] & <- & <-); [|eauto]. simpl in He. by rewrite Bool.eqb_reflx, Z.eqb_refl in He.
    + intros a x [[<- <-]|[_ Hx]]%lookup_insert_Some; [simpl; lia|by apply (ok_nr _ Hi a)].
    + intros id' a [[<- <-]|[_ Ha]]%lookup_insert_Some; [rewrite lookup_insert_eq; by eexists|].
      rewrite lookup_insert_ne by (apply not_eq_sym; by eapply Hother). by eapply ok_own.
    + intros id1 id2 a [[<- <-]|[? H1]]%lookup_insert_Some [[<- ?]|[? H2]]%lookup_insert_Some; try done.
      * by destruct (Hother _ _ H2).
      * subst a. by destruct (Hother _ _ H1).
      * by eapply ok_inj.
    + intros a. rewrite lookup_insert_is_Some'. intros [<-|Ha]; [exists id; by rewrite lookup_insert_eq|].
      destruct (ok_live _ Hi a Ha) as [id' Hid']. exists id'. rewrite lookup_insert_ne; [done|congruence].
    + intros id' a [[<- <-]|[_ Ha]]%lookup_insert_Some; [pose proof (ok_next _ Hi); unfold id; lia|].
      pose proof (ok_ids _ Hi id' a Ha). unfold id. lia.
    + pose proof (ok_next _ Hi). unfold id. lia.
  - unfold attached. rewrite lookup_omap. by rewrite Hid.
  - unfold attached. rewrite Hes, Hh. apply map_eq. intros id'. rewrite lookup_omap. destruct (decide (id' = id)) as [->|Hne].
    + rewrite !lookup_insert_eq. simpl. by rewrite lookup_insert_eq.
    + rewrite !lookup_insert_ne, lookup_omap by done. destruct (attach_entries i !! id') as [a|] eqn:Ha; [|done]. simpl.
      rewrite lookup_insert_ne; [done|]. apply not_eq_sym. by eapply Hother.
Qed.

(** Detaching removes the entry of the identifier and no other, or reports that there is none. *)
Lemma st_detach_spec id i :
  st_ok i ->
  exists r i', st_detach_by_id id i = Some (r, i') /\ st_ok i' /\ st_next_id i' = st_next_id i /\
    r = (if bool_decide (is_Some (attached i !! id)) then 0 else - ENOENT) /\ attached i' = delete id (attached i).
Proof.
  intros Hi. unfold st_detach_by_id. destruct (attach_entries i !! id) as [p|] eqn:Hid.
  2: { assert (attached i !! id = None) as Hn by (unfold attached; by rewrite lookup_omap, Hid).
       exists (- ENOENT), i. rewrite Hn, delete_id by done. split_and!; done. }
  destruct (ok_own _ Hi id p Hid) as [ent Hent]. rewrite Hent. simpl.
  assert (attached i !! id = Some ent) as Hat by (apply attached_lookup; eauto).
  assert (forall id' a, id' <> id -> attach_entries i !! id' = Some a -> a <> p) as Hother.
  { intros id' a Hne Ha ->. apply Hne. by eapply ok_inj. }
  destruct (alter_callbacks_spec (fun X => X ∖ {[p]}) (st_is_enter ent) (st_sys_nr ent) i (ok_lens _ Hi) (ok_nr _ Hi _ _ Hent))
    as (i1 & Hi1 & Hn & Hes & Hh & Hl & Hcb). rewrite Hi1. simpl. eexists 0, _. split; [done|]. rewrite Hat, bool_decide_eq_true_2 by (by eexists).
  split_and!; [|done|done|].
  - split; simpl; rewrite ?Hn, ?Hes, ?Hh; [done|..].
    + intros enter' nr' X HX a. change (callbacks_of enter' nr' i1 = Some X) in HX. rewrite Hcb in HX.
      destruct (callbacks_of enter' nr' i) as [Y|] eqn:HY; [|by destruct (_ && _)].
      pose proof (ok_sets _ Hi enter' nr' Y HY a) as Hs. setoid_rewrite lookup_delete_Some.
      destruct (Bool.eqb enter' (st_is_enter ent) && (nr' =? st_sys_nr ent)) eqn:He; simplify_eq/=.
      * rewrite elem_of_difference, elem_of_singleton, Hs. naive_solver.
      * rewrite Hs. split; [|naive_solver]. intros (x & Hx & Hx2). exists x. split; [|done]. split; [|done]. intros <-.
        rewrite Hent in Hx. simplify_eq. destruct Hx2 as [<- <-]. by rewrite Bool.eqb_reflx, Z.eqb_refl in He.
    + intros a x [_ Hx]%lookup_delete_Some. by eapply ok_nr.
    + intros id' a [Hne Ha]%lookup_delete_Some. rewrite lookup_delete_ne; [by eapply ok_own|]. apply not_eq_sym. by eapply Hother.
    + intros id1 id2 a [_ H1]%lookup_delete_Some [_ H2]%lookup_delete_Some. by eapply ok_inj.
    + intros a [x [Hne Hx]%lookup_delete_Some]. destruct (ok_live _ Hi a) as [id' Hid']; [by eexists|]. exists id'.
      apply lookup_delete_Some. split; [|done]. congruence.
    + intros id' a [_ Ha]%lookup_delete_Some. by eapply ok_ids.
    + apply Hi.
  - unfold attached. simpl. rewrite Hes, Hh. apply map_eq. intros id'. rewrite lookup_omap. destruct (decide (id' = id)) as [->|Hne].
    + by rewrite !lookup_delete_eq.
    + rewrite !lookup_delete_ne, lookup_omap by done. destruct (attach_entries i !! id') as [a|] eqn:Ha; [|done]. simpl.
      rewrite lookup_delete_ne; [done|]. apply not_eq_sym. by eapply Hother.
Qed.
End invariant.

(** ** What a dispatched call runs *)

Section dispatching.
Context {C : Type} `{!Allocator} {W : Type}.
Context (run : C -> trace_ctx -> W -> W * list (Z * Z)) (orig_syscall : Z -> list Z -> W -> Z * W).
Abbreviation entry := (syscall_trace_attach_entry C).
Implicit Types i : syscall_trace_attach_impl C.

(** Callbacks run one after the other: the world after them, and the overrides. *)
Fixpoint run_list (cbs : list C) (ctx : trace_ctx) (w : W) : W * list (Z * Z) :=
  match cbs with
  | [] => (w, [])
  | cb :: cbs' =>
      let '(w1, o1) := run cb ctx w in
      let '(w2, o2) := run_list cbs' ctx w1 in (w2, o1 ++ o2)
  end.

(** A traced call: the programs at its entry; unless one of them sets the result, the call
    and the programs at its exit, of which again the last to set a result decides. *)
Definition traced_call (enter exit : list C) (nr : Z) (args : list Z) (w : W) : Z * W :=
  let '(w1, o1) := run_list enter (trace_event_raw_sys_enter nr (u64 <$> args)) w in
  match last o1 with
  | Some (_, v) => (s64 v, w1)
  | None =>
      let '(r, w2) := orig_syscall nr args w1 in
      let '(w3, o3) := run_list exit (trace_event_raw_sys_exit nr r) w2 in
      (match last o3 with Some (_, v) => s64 v | None => r end, w3)
  end.

(** The entries attached at a point. *)
Definition entries_at i (enter : bool) (nr : Z) : list (Z * entry) :=
  filter (fun x => st_is_enter x.2 = enter /\ st_sys_nr x.2 = nr) (map_to_list (attached i)).

Lemma run_list_app l1 l2 ctx w :
  run_list (l1 ++ l2) ctx w =
  let '(w1, o1) := run_list l1 ctx w in let '(w2, o2) := run_list l2 ctx w1 in (w2, o1 ++ o2).
Proof.
  revert w. induction l1 as [|cb l1 IH]; intros w; simpl; [by destruct (run_list l2 ctx w)|].
  destruct (run cb ctx w) as [w1 o1]. rewrite IH. destruct (run_list l1 ctx w1) as [w2 o2], (run_list l2 ctx w2).
  by rewrite app_assoc.
Qed.

Lemma run_callbacks_spec (h : gmap Z entry) ctx ps ents ov w e :
  mapM (fun p => h !! p) ps = Some ents ->
  run_callbacks run h ctx ps ov w e =
  Ok (ov ++ (run_list (st_cb <$> ents) ctx w).2) (run_list (st_cb <$> ents) ctx w).1 e.
Proof.
  revert ents ov w. induction ps as [|p ps IH]; intros ents ov w Hm; simpl in Hm.
  { injection Hm as <-. simpl. by rewrite app_nil_r. }
  destruct (h !! p) as [ent|] eqn:Hp; [|done]. simpl in Hm. destruct (mapM _ ps) as [ents'|] eqn:Hps; [|done].
  injection Hm as <-. simpl. unfold need. rewrite Hp. mbase. destruct (run (st_cb ent) ctx w) as [w1 o1].
  rewrite (IH ents') by done. destruct (run_list _ ctx w1). simpl. by rewrite <- app_assoc.
Qed.

(** The entries of the heap at a point, with their owners. *)
Definition owned_at i (enter : bool) (nr : Z) : list (Z * (Z * entry)) :=
  omap (fun x => p ← attach_entries i !! x.1; Some (x.1, (p, x.2))) (entries_at i enter nr).

Lemma elem_of_owned_at i enter nr x :
  x ∈ owned_at i enter nr <->
  attach_entries i !! x.1 = Some x.2.1 /\ st_heap i !! x.2.1 = Some x.2.2 /\
  st_is_enter x.2.2 = enter /\ st_sys_nr x.2.2 = nr.
Proof.
  destruct x as [id [a ent]]. unfold owned_at. rewrite list_elem_of_omap. unfold entries_at.
  setoid_rewrite list_elem_of_filter. split.
  - intros ([id' ent'] & [Hp Hm] & Hf). apply elem_of_map_to_list, attached_lookup in Hm as (a' & Ha & Hh). simpl in *.
    rewrite Ha in Hf. simpl in Hf. by simplify_eq.
  - simpl. intros (Ha & Hh & Hp). exists (id, ent). rewrite elem_of_map_to_list, attached_lookup. simpl. rewrite Ha. eauto.
Qed.

Lemma owned_at_entries i enter nr : prod_map id snd <$> owned_at i enter nr = entries_at i enter nr.
Proof.
  unfold owned_at. assert (forall x, x ∈ entries_at i enter nr -> is_Some (attach_entries i !! x.1)) as Hall.
  { intros [id ent] [_ Hm]%list_elem_of_filter. apply elem_of_map_to_list, attached_lookup in Hm as (a & Ha & _). by eexists. }
  induction (entries_at i enter nr) as [|[id ent] l IH]; [done|]. destruct (Hall (id, ent)) as [a Ha]; [apply list_elem_of_here|].
  simpl in *. rewrite Ha. simpl. f_equal. apply IH. intros x Hx. apply Hall. by right.
Qed.

Lemma NoDup_owned_at i enter nr : NoDup (owned_at i enter nr).
Proof.
  apply (NoDup_fmap_1 (prod_map id snd)). rewrite owned_at_entries. apply NoDup_filter, NoDup_map_to_list.
Qed.

(** The entries behind a set of callbacks are those attached there, each once. *)
Lemma set_entries_at i enter nr X :
  st_ok i -> callbacks_of enter nr i = Some X ->
  exists ents, mapM (fun p => st_heap i !! p) (set_order X) = Some ents /\ ents ≡ₚ (entries_at i enter nr).*2.
Proof.
  intros Hi HX. pose proof (ok_sets _ Hi enter nr X HX) as Hs.
  assert (set_order X ≡ₚ (fun x => x.2.1) <$> owned_at i enter nr) as Hperm.
  { unfold set_order. rewrite merge_sort_Permutation. apply NoDup_Permutation; [apply NoDup_elements| |].
    - apply NoDup_fmap_2_strong; [|apply NoDup_owned_at]. intros [id [a ent]] [id' [a' ent']].
      intros (Ha & Hh & _)%elem_of_owned_at (Ha' & Hh' & _)%elem_of_owned_at Heq. simpl in *. subst a'. rewrite Hh in Hh'.
      simplify_eq. f_equal. by eapply ok_inj.
    - intros a. rewrite elem_of_elements, Hs, list_elem_of_fmap. split.
      + intros (ent & Hh & Hp). destruct (ok_live _ Hi a) as [id Hid]; [by eexists|]. exists (id, (a, ent)). split; [done|].
        by apply elem_of_owned_at.
      + intros ([id [a' ent]] & -> & (_ & Hh & Hp)%elem_of_owned_at). simpl in *. eauto. }
  assert (mapM (fun p => st_heap i !! p) ((fun x => x.2.1) <$> owned_at i enter nr) = Some (entries_at i enter nr).*2) as Hm.
  { apply mapM_Some. rewrite <- owned_at_entries, <- list_fmap_compose. apply Forall2_fmap, Forall_Forall2_diag, Forall_forall.
    by intros x (_ & Hh & _)%elem_of_owned_at. }
  assert (is_Some (mapM (fun p => st_heap i !! p) (set_order X))) as [ents Hents].
  { apply mapM_is_Some. rewrite Hperm. apply Forall_fmap, Forall_forall. intros x (_ & Hh & _)%elem_of_owned_at. by eexists. }
  exists ents. split; [done|]. apply mapM_Some in Hents, Hm.
  assert (forall ps (xs : list entry), Forall2 (fun p x => st_heap i !! p = Some x) ps xs -> xs = omap (fun p => st_heap i !! p) ps) as Ho.
  { induction 1 as [|p x ps xs Hp _ IH]; [done|]. simpl. by rewrite Hp, IH at 1. }
  rewrite (Ho _ _ Hents), (Ho _ _ Hm). by rewrite Hperm.
Qed.

Lemma run_both_spec i enter nr own global ctx :
  st_ok i -> callbacks_of enter nr i = Some own -> callbacks_of enter (-1) i = Some global ->
  exists l1 l2, l1 ≡ₚ (st_cb ∘ snd <$> entries_at i enter nr) /\ l2 ≡ₚ (st_cb ∘ snd <$> entries_at i enter (-1)) /\
    forall w e, run_both run (st_heap i) ctx own global w e = Ok (run_list (l1 ++ l2) ctx w).2 (run_list (l1 ++ l2) ctx w).1 e.
Proof.
  intros Hi Hown Hglobal. destruct (set_entries_at i enter nr own Hi Hown) as (e1 & Hm1 & Hp1).
  destruct (set_entries_at i enter (-1) global Hi Hglobal) as (e2 & Hm2 & Hp2).
  exists (st_cb <$> e1), (st_cb <$> e2). split_and!; [rewrite list_fmap_compose; by rewrite Hp1|rewrite list_fmap_compose; by rewrite Hp2|].
  intros w' e'. unfold run_both. destruct (bool_decide (own = ∅) && bool_decide (global = ∅)) eqn:Hemp.
  - apply andb_true_iff in Hemp as [->%bool_decide_eq_true ->%bool_decide_eq_true].
    change (set_order ∅) with (@nil Z) in Hm1, Hm2. injection Hm1 as <-. by injection Hm2 as <-.
  - mbase. rewrite (run_callbacks_spec _ _ _ e1 [] w' e' Hm1). simpl. rewrite (run_callbacks_spec _ _ _ e2 _ _ e' Hm2).
    rewrite run_list_app. destruct (run_list (st_cb <$> e1) ctx w') as [w1 o1]. simpl. by destruct (run_list _ ctx w1).
Qed.

(** C16. Dispatching a system call with a number from 0 to 511, other than exit and exit_group, runs
    every program attached to its entry, those of this call before those of all calls, each once;
    unless one of them sets the result, the original call; and every program attached to its exit
    in the same way. For exit and exit_group it runs the original call and no program. Numbers
    out of range are excluded: see [dispatch_out_of_range]. *)
Theorem dispatch_runs_attached i nr args w e :
  st_ok i -> 0 <= nr < 512 ->
  if (nr =? __NR_exit_group) || (nr =? __NR_exit)
  then dispatch_syscall run orig_syscall nr args i w e = Ok (orig_syscall nr args w).1 (orig_syscall nr args w).2 e
  else exists own_enter all_enter own_exit all_exit,
    own_enter ≡ₚ (st_cb ∘ snd <$> entries_at i true nr) /\ all_enter ≡ₚ (st_cb ∘ snd <$> entries_at i true (-1)) /\
    own_exit ≡ₚ (st_cb ∘ snd <$> entries_at i false nr) /\ all_exit ≡ₚ (st_cb ∘ snd <$> entries_at i false (-1)) /\
    let r := traced_call (own_enter ++ all_enter) (own_exit ++ all_exit) nr args w in
    dispatch_syscall run orig_syscall nr args i w e = Ok r.1 r.2 e.
Proof.
  intros Hi Hnr. unfold dispatch_syscall. destruct ((nr =? __NR_exit_group) || (nr =? __NR_exit)).
  { unfold call_original. mbase. by destruct (orig_syscall nr args w). }
  assert (forall enter, callbacks_of enter nr i = at_index (if enter then sys_enter_callbacks i else sys_exit_callbacks i) nr) as Hcb.
  { intros enter. unfold callbacks_of. by rewrite (proj2 (Z.eqb_neq nr (-1))) by lia. }
  destruct (callbacks_of_dom true nr i Hi) as [X HX]; [lia|]. destruct (callbacks_of_dom false nr i Hi) as [Y HY]; [lia|].
  pose proof (Hcb true) as Ht. pose proof (Hcb false) as Hf. rewrite HX in Ht. rewrite HY in Hf. simpl in Ht, Hf.
  rewrite <- Ht, <- Hf. unfold need, call_original. mbase.
  destruct (run_both_spec i true nr X _ (trace_event_raw_sys_enter nr (u64 <$> args)) Hi HX eq_refl) as (l1 & l2 & Hl1 & Hl2 & Hrun).
  destruct (run_list (l1 ++ l2) (trace_event_raw_sys_enter nr (u64 <$> args)) w) as [w1 o1] eqn:H1.
  destruct (orig_syscall nr args w1) as [r w2] eqn:Horig.
  destruct (run_both_spec i false nr Y _ (trace_event_raw_sys_exit nr r) Hi HY eq_refl) as (l3 & l4 & Hl3 & Hl4 & Hrun').
  exists l1, l2, l3, l4. split_and!; [done..|]. unfold traced_call. rewrite Hrun, H1. simpl.
  destruct (last o1) as [[c v]|]; [done|]. rewrite Horig. simpl. rewrite Hrun'.
  by destruct (run_list (l3 ++ l4) (trace_event_raw_sys_exit nr r) w2).
Qed.
End dispatching.

(** ** The implementation in the attach context *)

Section context.
Context `{!Allocator}.

(** The implementation behind the interface of the context, which knows no undefined
    behaviour: there the state stays, and the theorem below shows it is not reached. *)
Definition syscall_trace_attach : AttachImpl (syscall_trace_attach_impl callback) attach_private_data := {|
  create_attach_with_ebpf_callback := fun cb d ty i => default (- EINVAL, i) (st_create_attach cb d ty i);
  detach_by_id := fun aid i => default (- EINVAL, i) (st_detach_by_id aid i);
  register_custom_helpers := fun i => [];
  nv_fill := fun insns info d => None
|}.

(** The creator of private data that the agent registers (runtime/agent/agent.cpp); the
    argument is a printed number, for which [stoi] does not throw. *)
Definition syscall_trace_creator (u : bool) (tracepoints : gmap Z text) (ids : gmap text Z) : creator attach_private_data :=
  fun sv => default (- EINVAL, None) (st_initialize_from_string u tracepoints ids (chars sv)).

Context {K V J W : Type} `{!Runtime K, !Vm V J W}.
Context (u : bool) (tracepoints : gmap Z text) (ids : gmap text Z).
#[local] Existing Instance syscall_trace_attach.
Implicit Types c : bpf_attach_ctx V J (syscall_trace_attach_impl callback) attach_private_data.

(** The name of a tracepoint. *)
Definition tracepoint_name (enter : bool) (name : text) : text :=
  (if enter then chars "sys_enter_" else chars "sys_exit_") ++ name.

Lemma initialize_tracepoint tp enter name nr :
  0 <= tp < 2 ^ 31 -> tracepoints !! tp = Some (tracepoint_name enter name) -> ids !! name = Some nr ->
  syscall_trace_creator u tracepoints ids (pretty tp) = (0, Some (SyscallTraceData nr enter)).
Proof.
  intros Htp Hname Hnr. unfold syscall_trace_creator, st_initialize_from_string. rewrite stoi_pretty by done. cbn [mbind option_bind].
  rewrite Hname. rewrite !bool_decide_eq_false_2 by (by destruct enter).
  assert (starts_with (tracepoint_name true name) (chars "sys_enter_") = true) as H1 by (by apply bool_decide_eq_true).
  assert (starts_with (tracepoint_name false name) (chars "sys_enter_") = false) as H2 by (by apply bool_decide_eq_false).
  assert (starts_with (tracepoint_name false name) (chars "sys_exit_") = true) as H3 by (by apply bool_decide_eq_true).
  destruct enter; [rewrite H1|rewrite H2, H3]; change (drop _ (tracepoint_name _ name)) with name; by rewrite Hnr.
Qed.

(** C24. From descriptors to callbacks: instantiating a tracepoint of a system call and a link from
    it to a loaded program attaches the program there, next to all that was attached, under
    the identifier that the link keeps; destroying the link detaches exactly that. *)
Theorem tracepoint_link_attaches g c pid tp lid l nv k impl enter name nr prog e :
  attach_impls c !! PERF_TYPE_TRACEPOINT = Some (k, syscall_trace_creator u tracepoints ids) ->
  attach_impl_holders c !! k = Some impl -> st_ok impl -> st_next_id impl < 2 ^ 31 - 1 ->
  0 <= tp < 2 ^ 31 -> tracepoints !! tp = Some (tracepoint_name enter name) -> ids !! name = Some nr -> 0 <= nr < 512 ->
  instantiated_progs c !! lh_prog_id l = Some prog -> is_cuda prog = false ->
  exists c1 c2 c3 impl2 impl3 aid,
    instantiate_perf_event_handler_at (lh_attach_target_id l) (perf_event_tracepoint pid tp) c e = Ok 0 c1 e /\
    instantiate_bpf_link_handler_at g lid l nv c1 e = Ok 0 c2 e /\
    attach_impl_holders c2 = <[k := impl2]> (attach_impl_holders c) /\ st_ok impl2 /\
    instantiated_attach_links c2 !! lid = Some (aid, Some k) /\
    attached impl !! aid = None /\
    attached impl2 = <[aid := mk_st_entry (CbProg (lh_prog_id l) (lh_attach_cookie l)) nr enter]> (attached impl) /\
    destroy_instantiated_attach_link lid c2 e = Ok 0 c3 e /\
    attach_impl_holders c3 = <[k := impl3]> (attach_impl_holders c) /\ st_ok impl3 /\ attached impl3 = attached impl /\
    instantiated_attach_links c3 = delete lid (instantiated_attach_links c).
Proof.
  intros Himpl Hk Hok Hnext Htp Hname Hnr Hrange Hprog Hcuda.
  set (data := SyscallTraceData nr enter). set (cb := CbProg (lh_prog_id l) (lh_attach_cookie l)).
  destruct (st_create_attach_spec cb data ATTACH_SYSCALL_TRACE impl Hok Hnext) as (aid & impl2 & Hcreate & Hok2 & Hspec).
  simpl in Hspec. rewrite (proj2 (Z.leb_le (-1) nr)), (proj2 (Z.ltb_lt nr 512)) in Hspec by lia. simpl in Hspec.
  destruct Hspec as (Haid & _ & Hfresh & Hatt).
  destruct (st_detach_spec aid impl2 Hok2) as (r & impl3 & Hdetach & Hok3 & _ & Hr & Hatt3).
  rewrite Hatt, lookup_insert_eq, bool_decide_eq_true_2 in Hr by (by eexists). subst r.
  assert (0 <= aid) as Haid0 by (pose proof (ok_next _ Hok); lia).
  assert (k < length (attach_impl_holders c))%nat as Hlt by (by eapply lookup_lt_Some).
  set (target := lh_attach_target_id l).
  set (c1 := AttachCtx.add_instantiated target
    (set_perf_events (<[target := (Some data, PERF_TYPE_TRACEPOINT)]> (instantiated_perf_events c)) c)).
  assert (instantiate_perf_event_handler_at target (perf_event_tracepoint pid tp) c e = Ok 0 c1 e) as H1.
  { unfold instantiate_perf_event_handler_at. mbase. change (pe_type (perf_event_tracepoint pid tp)) with PERF_TYPE_TRACEPOINT.
    change (PERF_TYPE_TRACEPOINT =? PERF_TYPE_SOFTWARE) with false. cbv beta iota. rewrite Himpl.
    change (attach_argument (perf_event_tracepoint pid tp)) with (Some (pretty tp)). cbv iota.
    by rewrite (initialize_tracepoint tp enter name nr). }
  set (c2 := AttachCtx.add_instantiated lid (set_links (<[lid := (aid, Some k)]> (instantiated_attach_links c1))
    (set_holders (<[k := impl2]> (attach_impl_holders c1)) c1))).
  assert (instantiate_bpf_link_handler_at g lid l nv c1 e = Ok 0 c2 e) as H2.
  { unfold instantiate_bpf_link_handler_at, perf_event_slot, on_impl. mrun. fold target.
    change (instantiated_perf_events c1) with (<[target := (Some data, PERF_TYPE_TRACEPOINT)]> (instantiated_perf_events c)).
    rewrite lookup_insert_eq. change (attach_impls c1) with (attach_impls c). rewrite Himpl.
    change (instantiated_progs c1) with (instantiated_progs c). rewrite Hprog, Hcuda.
    change (attach_impl_holders c1) with (attach_impl_holders c). rewrite Hk.
    cbn [create_attach_with_ebpf_callback syscall_trace_attach]. fold cb. change PERF_TYPE_TRACEPOINT with ATTACH_SYSCALL_TRACE.
    rewrite Hcreate. cbn [default from_option id fst snd]. by rewrite (proj2 (Z.ltb_ge aid 0)) by done. }
  set (c3 := set_links (delete lid (instantiated_attach_links c2))
    (set_holders (<[k := impl3]> (attach_impl_holders c2)) c2)).
  assert (destroy_instantiated_attach_link lid c2 e = Ok 0 c3 e) as H3.
  { unfold destroy_instantiated_attach_link, on_impl. mrun.
    change (instantiated_attach_links c2) with (<[lid := (aid, Some k)]> (instantiated_attach_links c)). rewrite lookup_insert_eq.
    change (attach_impl_holders c2) with (<[k := impl2]> (attach_impl_holders c)). rewrite list_lookup_insert_eq by done.
    cbn [detach_by_id syscall_trace_attach]. rewrite Hdetach. done. }
  exists c1, c2, c3, impl2, impl3, aid. split_and!; try done.
  - change (instantiated_attach_links c2) with (<[lid := (aid, Some k)]> (instantiated_attach_links c)). apply lookup_insert_eq.
  - change (attach_impl_holders c3) with (<[k := impl3]> (<[k := impl2]> (attach_impl_holders c))). apply list_insert_insert_eq.
  - rewrite Hatt3, Hatt. by apply delete_insert_id.
  - change (instantiated_attach_links c3) with (delete lid (<[lid := (aid, Some k)]> (instantiated_attach_links c))). apply delete_insert_eq.
Qed.
End context.

(** ** Where the code leaves its bounds *)

(** The arrays are indexed with the number of the call, unchecked. *)
Lemma dispatch_out_of_range {C W} `{!Allocator} run orig_syscall nr args w e :
  512 <= nr -> dispatch_syscall (C := C) (W := W) run orig_syscall nr args syscall_trace_new w e = Ub "index outside sys_enter_callbacks".
Proof.
  intros Hnr. unfold dispatch_syscall. rewrite !(proj2 (Z.eqb_neq _ _)) by (unfold __NR_exit, __NR_exit_group; lia).
  cbn [orb]. unfold at_index. rewrite (proj2 (Z.leb_le _ _)) by lia. cbn [sys_enter_callbacks syscall_trace_new].
  assert (replicate 512 (∅ : gset Z) !! Z.to_nat nr = None) as Hn by (apply lookup_ge_None; rewrite length_replicate; lia).
  by rewrite Hn.
Qed.

(** The last turn of the loop that reads the table enters the empty name with an
    uninitialised number: a tracepoint of another kind is accepted, at that number. *)
Lemma other_tracepoint_accepted u b :
  let ids := (generate_syscall_id_table u (table_text [(chars "read", 0)])).1 in
  st_initialize_from_string b {[ 7 := chars "sched_switch" ]} ids (chars "7") = Some (0, Some (SyscallTraceData u b)).
Proof. by vm_compute. Qed.

(** ** Witnesses *)

Definition top_alloc (X : gset Z) : Z := 1 + foldr Z.max 0 (elements X).
#[local] Program Instance sample_alloc : Allocator := {| alloc := top_alloc |}.
Next Obligation.
  intros X Hin. apply elem_of_elements in Hin. revert Hin. unfold top_alloc.
  assert (forall l (x : Z), x ∈ l -> x <= foldr Z.max 0 l) as Hmax.
  { induction l as [|y l IH]; intros x; simpl; [by intros ?%not_elem_of_nil|]. intros [->|Hx]%elem_of_cons; [lia|]. specialize (IH x Hx). lia. }
  intros Hin%Hmax. lia.
Qed.

(** Callbacks that log their name; an odd one sets the result to it. *)
Definition log_run (cb : Z) (ctx : trace_ctx) (w : list Z) : list Z * list (Z * Z) :=
  (w ++ [cb], if Z.odd cb then [(0, cb)] else []).
Definition log_orig (nr : Z) (args : list Z) (w : list Z) : Z * list Z := (42, w ++ [1000 + nr]).

Definition traced_write : syscall_trace_attach_impl Z :=
  let add cb d i := default (0, i) (st_create_attach cb d ATTACH_SYSCALL_TRACE i) in
  (add 8 (SyscallTraceData 1 false) (add 6 (SyscallTraceData (-1) true) (add 4 (SyscallTraceData 1 true) syscall_trace_new).2).2).2.

Lemma traced_write_ok : st_ok traced_write.
Proof.
  unfold traced_write. cbv zeta.
  assert (forall cb d (i : syscall_trace_attach_impl Z), st_ok i -> st_next_id i < 10 ->
    let i' := (default (0, i) (st_create_attach cb d ATTACH_SYSCALL_TRACE i)).2 in st_ok i' /\ st_next_id i' <= st_next_id i + 1) as Hadd.
  { intros cb d i Hi Hn. destruct (st_create_attach_spec cb d ATTACH_SYSCALL_TRACE i Hi) as (r & i' & -> & Hi' & Hs); [lia|]. simpl.
    split; [done|]. destruct d; try (destruct Hs as [_ ->]; lia). destruct (_ && _); [lia|]. destruct Hs as [_ ->]. lia. }
  destruct (Hadd 4 (SyscallTraceData 1 true) _ syscall_trace_new_ok) as [H1 N1]; [by vm_compute|]. change (st_next_id syscall_trace_new) with 1 in N1.
  destruct (Hadd 6 (SyscallTraceData (-1) true) _ H1) as [H2 N2]; [lia|].
  apply (Hadd 8 (SyscallTraceData 1 false) _ H2). lia.
Qed.

Lemma dispatch_runs_attached_witness :
  dispatch_syscall log_run log_orig 60 [] traced_write [] 0 = Ok 42 [1060] 0 /\
  dispatch_syscall log_run log_orig 1 [] traced_write [] 0 = Ok 42 [4; 6; 1001; 8] 0 /\
  exists a b c d, dispatch_syscall log_run log_orig 1 [] traced_write [] 0 =
    Ok (traced_call log_run log_orig (a ++ b) (c ++ d) 1 [] []).1 (traced_call log_run log_orig (a ++ b) (c ++ d) 1 [] []).2 0.
Proof.
  split_and!; [exact (dispatch_runs_attached log_run log_orig traced_write 60 [] [] 0 traced_write_ok ltac:(lia))|by vm_compute|].
  destruct (dispatch_runs_attached log_run log_orig traced_write 1 [] [] 0 traced_write_ok ltac:(lia)) as (a & b & c & d & _ & _ & _ & _ & Hr).
  exists a, b, c, d. exact Hr.
Defined.

(** A context with the implementation for tracepoints, and a loaded program. *)
Definition trace_tracepoints : gmap Z text := {[ 77 := chars "sys_enter_write" ]}.
Definition trace_ids : gmap text Z := {[ chars "write" := 1 ]}.
Definition trace_ctx_start :
    bpf_attach_ctx (gmap Z string) Z (syscall_trace_attach_impl callback) attach_private_data :=
  mk_actx ∅ {[ 0 := mk_bprog "p" ∅ None None [] ]} ∅ ∅
    {[ 2 := (0%nat, syscall_trace_creator true trace_tracepoints trace_ids) ]} [syscall_trace_new] ∅.

Lemma tracepoint_link_attaches_witness :
  exists c1 c2 c3 impl2 aid,
    @instantiate_perf_event_handler_at _ _ _ _ 1 (perf_event_tracepoint 0 77) trace_ctx_start 0 = Ok 0 c1 0 /\
    @instantiate_bpf_link_handler_at _ _ _ _ _ toy_runtime syscall_trace_attach attach_manager 2 (link_with_cookie 0 1 (Some 7)) false c1 0 = Ok 0 c2 0 /\
    attach_impl_holders c2 = [impl2] /\ attached impl2 = {[ aid := mk_st_entry (CbProg 0 (Some 7)) 1 true ]} /\
    @destroy_instantiated_attach_link _ _ _ _ syscall_trace_attach 2 c2 0 = Ok 0 c3 0.
Proof.
  destruct (@tracepoint_link_attaches sample_alloc _ _ _ toy_runtime true trace_tracepoints trace_ids attach_manager
    trace_ctx_start 0 77 2 (link_with_cookie 0 1 (Some 7)) false 0%nat syscall_trace_new true (chars "write") 1
    (mk_bprog "p" ∅ None None []) 0) as (c1 & c2 & c3 & impl2 & impl3 & aid & H1 & H2 & H3 & _ & _ & _ & H4 & H5 & _);
    [done|done|apply syscall_trace_new_ok|done|lia|done|by vm_compute|lia|done|done|].
  exists c1, c2, c3, impl2, aid. split_and!; [exact H1|exact H2|exact H3|exact H4|exact H5].
Defined.
