(* ===== verification/FridaAttach.v ===== *)
(** The attach implementation of user probes (attach/frida_uprobe_attach_impl): entries by
    identifier, one hook of the interceptor for each function, the listeners and the handler
    that replaces a function, and the private data of a probe. The interceptor (Frida Gum),
    the memory map and the file system are parameters. *)
From Stdlib Require Import ZArith Lia Ascii String.
From stdpp Require Import base list gmap strings pretty sorting.
From S2P Require Import Prelude Config SyscallTrace.
Local Open Scope Z_scope.

(** ** Data *)

Definition ATTACH_UPROBE : Z := 6.
Definition ATTACH_URETPROBE : Z := 7.
Definition ATTACH_UPROBE_OVERRIDE : Z := 1008.
Definition ATTACH_UREPLACE : Z := 1009.

Definition ATTACH_UPROBE_INDEX : Z := 0.
Definition ATTACH_URETPROBE_INDEX : Z := 1.
Definition ATTACH_UPROBE_OVERRIDE_INDEX : Z := 2.

Definition from_cb_idx_to_attach_type (idx : Z) : Z :=
  if idx =? ATTACH_UPROBE_INDEX then ATTACH_UPROBE
  else if idx =? ATTACH_UPROBE_OVERRIDE_INDEX then ATTACH_UPROBE_OVERRIDE
  else if idx =? ATTACH_URETPROBE_INDEX then ATTACH_URETPROBE
  else -1.

(** [frida_attach_entry_callback]: a function of the variant with the index, or an eBPF
    program; [replaces] is the wrapper that passes the program's result to
    [bpftime_set_retval]. *)
Inductive frida_callback (C : Type) :=
  | CallbackVariant (index : Z) (f : C)
  | EbpfCallbackArgs (ebpf_cb : C) (replaces : bool) (attach_type : Z).
Arguments CallbackVariant {C}.
Arguments EbpfCallbackArgs {C}.

Definition callback_type {C} (cb : frida_callback C) : Z :=
  match cb with CallbackVariant idx _ => from_cb_idx_to_attach_type idx | EbpfCallbackArgs _ _ ty => ty end.

(** An entry points to the hook of its function, hooks to their entries (by identifier). *)
Record frida_attach_entry (C : Type) := mk_fe {
  fe_callback : frida_callback C;
  fe_function : Z;
  fe_internal_attach : Z
}.
Arguments mk_fe {C}.
Arguments fe_callback {C}.
Arguments fe_function {C}.
Arguments fe_internal_attach {C}.

Definition get_type {C} (e : frida_attach_entry C) : Z := callback_type (fe_callback e).

(** [fi_listener]: whether a listener was attached; [fi_sets_return]: whether the entry has
    a callback for overriding the return value. *)
Record frida_internal_attach_entry := mk_fi {
  fi_user_attaches : list Z;
  fi_listener : bool;
  fi_sets_return : bool;
  fi_is_overrided : bool;
  fi_user_ret : Z;
  fi_user_ret_ctx : Z
}.

(** How the interceptor changed a function. *)
Inductive gum_hook := GumListener | GumReplaced.

Record frida_attach_impl (C : Type) := mk_frida {
  fr_next_id : Z;
  fr_attaches : gmap Z (frida_attach_entry C);
  fr_internal : gmap Z frida_internal_attach_entry;
  fr_hooks : gmap Z gum_hook
}.
Arguments mk_frida {C}.
Arguments fr_next_id {C}.
Arguments fr_attaches {C}.
Arguments fr_internal {C}.
Arguments fr_hooks {C}.

Section impl.
Context {C : Type}.
(** The codes of [gum_interceptor_attach] and [gum_interceptor_replace] for a function. *)
Context (gum_attach gum_replace : Z -> Z).
Abbreviation F := (M (frida_attach_impl C)).
Implicit Types s : frida_attach_impl C.

Definition frida_attach_new : frida_attach_impl C := mk_frida 1 ∅ ∅ ∅.

Definition set_internal m s : frida_attach_impl C := mk_frida (fr_next_id s) (fr_attaches s) m (fr_hooks s).
Definition set_attaches m s : frida_attach_impl C := mk_frida (fr_next_id s) m (fr_internal s) (fr_hooks s).
Definition set_hooks m s : frida_attach_impl C := mk_frida (fr_next_id s) (fr_attaches s) (fr_internal s) m.
Definition set_user_attaches (l : list Z) (i : frida_internal_attach_entry) :=
  mk_fi l (fi_listener i) (fi_sets_return i) (fi_is_overrided i) (fi_user_ret i) (fi_user_ret_ctx i).

(** ** Hooks *)

(** The constructor of [frida_internal_attach_entry]. *)
Definition internal_new (function basic_attach_type : Z) : F frida_internal_attach_entry :=
  if (basic_attach_type =? ATTACH_UPROBE) || (basic_attach_type =? ATTACH_URETPROBE) then
    if gum_attach function <? 0 then throw "Failed to attach uprobe/uretprpbe"
    else modify (fun s => set_hooks (<[function := GumListener]> (fr_hooks s)) s);;
         mret (mk_fi [] true false false 0 0)
  else if basic_attach_type =? ATTACH_UPROBE_OVERRIDE then
    if gum_replace function <? 0 then throw "Failed to attach filter"
    else modify (fun s => set_hooks (<[function := GumReplaced]> (fr_hooks s)) s);;
         mret (mk_fi [] false true false 0 0)
  else mret (mk_fi [] false false false 0 0).

(** The destructor detaches the listener or reverts the function: either way the hook goes. *)
Definition erase_internal (function : Z) : F unit :=
  modify (fun s => set_hooks (delete function (fr_hooks s)) (set_internal (delete function (fr_internal s)) s)).

(** The entries behind a list of pointers. *)
Fixpoint entries_of (ids : list Z) : F (list (frida_attach_entry C)) :=
  match ids with
  | [] => mret []
  | id :: ids' => s ← get; e ← need "dangling attach entry" (fr_attaches s !! id); es ← entries_of ids'; mret (e :: es)
  end.

Definition has_override (i : frida_internal_attach_entry) : F bool :=
  es ← entries_of (fi_user_attaches i); mret (existsb (fun e => get_type e =? ATTACH_UPROBE_OVERRIDE) es).
Definition has_uprobe_or_uretprobe (i : frida_internal_attach_entry) : F bool :=
  es ← entries_of (fi_user_attaches i);
  mret (existsb (fun e => (get_type e =? ATTACH_UPROBE) || (get_type e =? ATTACH_URETPROBE)) es).

(** ** Attaching *)

(** The new entry, in its table and in its hook. *)
Definition add_attach (func_addr : Z) (cb : frida_callback C) : F Z :=
  s ← get;
  inner_attach ← need "no hook" (fr_internal s !! func_addr);
  let used_id := fr_next_id s in
  if used_id =? 2 ^ 31 - 1 then ub "signed overflow"
  else
    put (mk_frida (used_id + 1) (<[used_id := mk_fe cb func_addr func_addr]> (fr_attaches s))
           (<[func_addr := set_user_attaches (fi_user_attaches inner_attach ++ [used_id]) inner_attach]> (fr_internal s))
           (fr_hooks s));;
    mret used_id.

Definition attach_at (func_addr : Z) (cb : frida_callback C) : F Z :=
  if func_addr =? 0 then mret (- EINVAL)
  else
    s ← get;
    match fr_internal s !! func_addr with
    | None =>
        i ← internal_new func_addr (callback_type cb);
        modify (fun s => set_internal (<[func_addr := i]> (fr_internal s)) s);;
        add_attach func_addr cb
    | Some i =>
        b ← has_override i;
        if (b : bool) then mret (- EEXIST) else add_attach func_addr cb
    end.

Definition create_uprobe_at (func_addr : Z) (cb : C) : F Z := attach_at func_addr (CallbackVariant ATTACH_UPROBE_INDEX cb).
Definition create_uretprobe_at (func_addr : Z) (cb : C) : F Z := attach_at func_addr (CallbackVariant ATTACH_URETPROBE_INDEX cb).
Definition create_uprobe_override_at (func_addr : Z) (cb : C) : F Z :=
  attach_at func_addr (CallbackVariant ATTACH_UPROBE_OVERRIDE_INDEX cb).

(** An unknown identifier is an error only in [errno], negated. *)
Definition fr_detach_by_id (id : Z) : F Z :=
  s ← get;
  match fr_attaches s !! id with
  | None => fail_with (- ENOENT) 0
  | Some ent =>
      let f := fe_internal_attach ent in
      p ← need "dangling hook" (fr_internal s !! f);
      let user_attaches := filter (fun v => v <> id) (fi_user_attaches p) in
      put (set_attaches (delete id (fr_attaches s)) (set_internal (<[f := set_user_attaches user_attaches p]> (fr_internal s)) s));;
      (if bool_decide (user_attaches = []) then erase_internal f else mret tt);;
      mret 0
  end.

Definition detach_by_func_addr (func : Z) : F Z :=
  s ← get;
  match fr_internal s !! func with
  | None => mret (- ENOENT)
  | Some i =>
      put (set_attaches (foldl (fun m id => delete id m) (fr_attaches s) (fi_user_attaches i)) s);;
      erase_internal func;;
      mret 0
  end.

(** The arguments of the calls that [iterate_attaches] makes, in some order. *)
Definition iterate_attaches s : list (Z * Z * Z) :=
  (fun x => (x.1, fe_function x.2, get_type x.2)) <$> map_to_list (fr_attaches s).

(** ** Programs *)

(** The lines of /proc/self/maps, for each the path that [sscanf] finds; [equivalent] throws
    when a file is missing. *)
Fixpoint module_mapped (exists_file : text -> bool) (equivalent : text -> text -> option bool) (module_name : text)
    (lines : list (option text)) : option bool :=
  match lines with
  | [] => Some false
  | Some curr_module :: lines' =>
      if exists_file curr_module then
        matched ← equivalent module_name curr_module;
        if (matched : bool) then Some true else module_mapped exists_file equivalent module_name lines'
      else module_mapped exists_file equivalent module_name lines'
  | None :: lines' => module_mapped exists_file equivalent module_name lines'
  end.

Definition fr_create_attach (exists_file : text -> bool) (equivalent : text -> text -> option bool) (maps : list (option text))
    (cb : C) (private_data : attach_private_data) (attach_type : Z) : F Z :=
  match private_data with
  | FridaData addr module_name =>
      ok ← match module_name with
           | [] => mret true
           | _ => match module_mapped exists_file equivalent module_name maps with
                  | None => throw "filesystem_error"
                  | Some b => mret b
                  end
           end;
      if negb ok then mret (- EINVAL)
      else if (attach_type =? ATTACH_UPROBE) || (attach_type =? ATTACH_URETPROBE) || (attach_type =? ATTACH_UPROBE_OVERRIDE)
      then attach_at addr (EbpfCallbackArgs cb false attach_type)
      else if attach_type =? ATTACH_UREPLACE then attach_at addr (EbpfCallbackArgs cb true ATTACH_UPROBE_OVERRIDE)
      else mret (- ENOTSUP)
  | _ => mret (- EINVAL)
  end.
End impl.

(** ** Running the hooks *)

(** The registers of x86_64, in the order of [pt_regs] and of Gum's context. *)
Record pt_regs := mk_regs {
  r_r15 : Z; r_r14 : Z; r_r13 : Z; r_r12 : Z; r_bp : Z; r_bx : Z; r_r11 : Z; r_r10 : Z; r_r9 : Z; r_r8 : Z; r_ax : Z;
  r_cx : Z; r_dx : Z; r_si : Z; r_di : Z; r_orig_ax : Z; r_ip : Z; r_cs : Z; r_flags : Z; r_sp : Z; r_ss : Z
}.
Record GumX64CpuContext := mk_gum_cpu {
  g_rip : Z; g_r15 : Z; g_r14 : Z; g_r13 : Z; g_r12 : Z; g_r11 : Z; g_r10 : Z; g_r9 : Z; g_r8 : Z;
  g_rdi : Z; g_rsi : Z; g_rbp : Z; g_rsp : Z; g_rbx : Z; g_rdx : Z; g_rcx : Z; g_rax : Z
}.

(** The other fields of [regs] stay as they are. *)
Definition convert_gum_cpu_context_to_pt_regs (c : GumX64CpuContext) (regs : pt_regs) : pt_regs :=
  mk_regs (g_r15 c) (g_r14 c) (g_r13 c) (g_r12 c) (g_rbp c) (g_rbx c) (g_r11 c) (g_r10 c) (g_r9 c) (g_r8 c) (g_rax c)
    (g_rcx c) (g_rdx c) (g_rsi c) (g_rdi c) (r_orig_ax regs) (g_rip c) (r_cs regs) (r_flags regs) (g_rsp c) (r_ss regs).
Definition convert_pt_regs_to_gum_cpu_context (regs : pt_regs) (c : GumX64CpuContext) : GumX64CpuContext :=
  mk_gum_cpu (r_ip regs) (r_r15 regs) (r_r14 regs) (r_r13 regs) (r_r12 regs) (r_r11 regs) (r_r10 regs) (r_r9 regs) (r_r8 regs)
    (r_di regs) (r_si regs) (r_bp regs) (r_sp regs) (r_bx regs) (r_dx regs) (r_cx regs) (r_ax regs).

Section running.
Context {C W : Type}.
(** What a callback does with the registers: the world after it, the calls of the override
    callback in order, its error code and the value it returns. *)
Context (run : C -> pt_regs -> W -> W * list (Z * Z) * Z * Z).
(** The hooked functions, called with the arguments that the handler passes. *)
Context (original : Z -> list Z -> W -> Z * W).

(** The implementation, the thread's override callback (by the hook it belongs to) and the
    world. *)
Record frida_thread := mk_thread { ft_impl : frida_attach_impl C; ft_override : option Z; ft_world : W }.
Abbreviation T := (M frida_thread).
Implicit Types t : frida_thread.

Definition on_impl {A} (m : M (frida_attach_impl C) A) : T A :=
  zoom ft_impl (fun i t => mk_thread i (ft_override t) (ft_world t)) m.
Definition set_override (o : option Z) t := mk_thread (ft_impl t) o (ft_world t).
Definition set_world (w : W) t := mk_thread (ft_impl t) (ft_override t) w.
Definition put_hook (f : Z) (i : frida_internal_attach_entry) t :=
  mk_thread (set_internal (<[f := i]> (fr_internal (ft_impl t))) (ft_impl t)) (ft_override t) (ft_world t).

(** [bpftime_set_retval] and [bpftime_override_return]. *)
Definition override_return (ctx value : Z) : T unit :=
  t ← get;
  match ft_override t with
  | None => throw "Called bpftime_override_return, but no retval callback was set"
  | Some f =>
      i ← need "hook destroyed" (fr_internal (ft_impl t) !! f);
      put (put_hook f (mk_fi (fi_user_attaches i) (fi_listener i) (fi_sets_return i) true value ctx) t)
  end.
Fixpoint override_all (l : list (Z * Z)) : T unit :=
  match l with [] => mret tt | (ctx, v) :: l' => override_return ctx v;; override_all l' end.

(** [run_callback]. *)
Definition run_callback (e : frida_attach_entry C) (regs : pt_regs) : T unit :=
  let exec f := t ← get;
    let '(w, calls, err, ret) := run f regs (ft_world t) in
    put (set_world w t);; override_all calls;; mret (err, ret) in
  match fe_callback e with
  | CallbackVariant _ f => exec f;; mret tt
  | EbpfCallbackArgs f replaces _ =>
      r ← exec f;
      if (replaces : bool) && (0 <=? r.1) then override_return 0 r.2 else mret tt
  end.

(** The loops over [user_attaches]: entries of one type. *)
Fixpoint iterate_callbacks (ty : Z) (ids : list Z) (regs : pt_regs) : T unit :=
  match ids with
  | [] => mret tt
  | id :: ids' =>
      t ← get;
      e ← need "dangling attach entry" (fr_attaches (ft_impl t) !! id);
      (if get_type e =? ty then run_callback e regs else mret tt);;
      iterate_callbacks ty ids' regs
  end.
Fixpoint run_filter_callback (ids : list Z) (regs : pt_regs) : T unit :=
  match ids with
  | [] => throw "Unable to find filter callback"
  | id :: ids' =>
      t ← get;
      e ← need "dangling attach entry" (fr_attaches (ft_impl t) !! id);
      if get_type e =? ATTACH_UPROBE_OVERRIDE then run_callback e regs else run_filter_callback ids' regs
  end.

Definition hook_entry (f : Z) : T frida_internal_attach_entry :=
  t ← get; need "dangling hook" (fr_internal (ft_impl t) !! f).

(** The listeners get Gum's registers; [regs] is their local variable, which is not initialised. *)
Definition uprobe_listener_on_enter (f : Z) (cpu_context : GumX64CpuContext) (regs : pt_regs) : T unit :=
  i ← hook_entry f;
  let regs := convert_gum_cpu_context_to_pt_regs cpu_context regs in
  iterate_callbacks ATTACH_UPROBE (fi_user_attaches i) regs.
Definition uprobe_listener_on_leave (f : Z) (cpu_context : GumX64CpuContext) (regs : pt_regs) : T unit :=
  i ← hook_entry f;
  let regs := convert_gum_cpu_context_to_pt_regs cpu_context regs in
  iterate_callbacks ATTACH_URETPROBE (fi_user_attaches i) regs.

(** The replacement of a function; [regs] is a local variable as above, [args] are its arguments, of which five are passed on.
    The callback that the thread gets is not taken away again; only a replaced function, whose
    entry has a callback, comes here. *)
Definition override_handler (f : Z) (cpu_context : GumX64CpuContext) (regs : pt_regs) (args : list Z) : T Z :=
  let regs := convert_gum_cpu_context_to_pt_regs cpu_context regs in
  i ← hook_entry f;
  modify (fun t => put_hook f (mk_fi (fi_user_attaches i) (fi_listener i) (fi_sets_return i) false (fi_user_ret i) (fi_user_ret_ctx i)) t);;
  modify (set_override (if fi_sets_return i then Some f else None));;
  run_filter_callback (fi_user_attaches i) regs;;
  i ← hook_entry f;
  if fi_is_overrided i then mret (fi_user_ret i)
  else
    t ← get;
    let '(r, w) := original f (take 5 args) (ft_world t) in
    put (set_world w t);; mret r.
End running.

(** ** Private data *)

(** [std::stoul]: as [stoi], but a value of 64 bits, and a negative number wraps around. *)
Definition stoul (s : text) : option Z :=
  let s := skip_spaces s in
  '(neg, v) ← match s with
              | "-"%char :: s' => (fun v => (true, v)) <$> digits s' None
              | "+"%char :: s' => (fun v => (false, v)) <$> digits s' None
              | _ => (fun v => (false, v)) <$> digits s None
              end;
  if v <? 2 ^ 64 then Some (if (neg : bool) then u64 (- v) else v) else None.

(** [sv.find_last_of(':')] as the parts before and behind it. *)
Fixpoint split_last (d : ascii) (s : text) : option (text * text) :=
  match s with
  | [] => None
  | a :: s' =>
      match split_last d s' with
      | Some (l, r) => Some (a :: l, r)
      | None => if bool_decide (a = d) then Some ([], s') else None
      end
  end.

Section private_data.
(** The path of the program, [equivalent] of the file system (none when it throws), and the base
    addresses that Gum knows, 0 for none. *)
Context (exec_path : text) (equivalent : text -> text -> option bool) (get_module_base_addr : text -> Z).

Definition resolve_function_addr_by_module_offset (module_name : text) (func_offset : Z) : option Z :=
  b ← equivalent module_name exec_path;
  let base := if (b : bool) then get_module_base_addr [] else get_module_base_addr module_name in
  Some (if base =? 0 then 0 else u64 (base + func_offset)).

(** [initialize_from_string]; none when a call throws. *)
Definition fr_initialize_from_string (sv : text) : option (Z * option attach_private_data) :=
  match split_last ":"%char sv with
  | None => addr ← stoul sv; Some (0, Some (FridaData addr []))
  | Some (module_part, offset_part) =>
      if bool_decide (offset_part = []) then Some (- EINVAL, None)
      else
        offset ← stoul offset_part;
        addr ← resolve_function_addr_by_module_offset module_part offset;
        Some (0, Some (FridaData addr module_part))
  end.
End private_data.

(** ** The invariant *)

Section invariant.
Context {C : Type}.
Implicit Types s : frida_attach_impl C.

(** What the interceptor did for an internal entry. *)
Definition hook_of (i : frida_internal_attach_entry) : option gum_hook :=
  if fi_listener i then Some GumListener else if fi_sets_return i then Some GumReplaced else None.

(** An internal entry has the entries of its function, in the order they were attached; there is
    one exactly for the functions with entries; and the interceptor hooks a function as its
    internal entry says, and no other function. *)
Record fr_ok s : Prop := {
  fo_ids id ent : fr_attaches s !! id = Some ent -> 1 <= id < fr_next_id s;
  fo_next : 1 <= fr_next_id s < 2 ^ 31;
  fo_entry id ent : fr_attaches s !! id = Some ent ->
    fe_internal_attach ent = fe_function ent /\ is_Some (fr_internal s !! fe_function ent);
  fo_sorted f i : fr_internal s !! f = Some i -> StronglySorted Z.lt (fi_user_attaches i) /\ fi_user_attaches i <> [];
  fo_users f i id : fr_internal s !! f = Some i ->
    id ∈ fi_user_attaches i <-> exists ent, fr_attaches s !! id = Some ent /\ fe_function ent = f;
  fo_hooks f : fr_hooks s !! f = fr_internal s !! f ≫= hook_of
}.

Lemma frida_attach_new_ok : fr_ok (frida_attach_new (C := C)).
Proof. split; simpl; intros *; rewrite ?lookup_empty; done. Qed.

(** What is attached to a function: identifiers and entries, in order. *)
Definition entries_at s (f : Z) : list (Z * frida_attach_entry C) :=
  match fr_internal s !! f with
  | Some i => omap (fun id => (fun e => (id, e)) <$> fr_attaches s !! id) (fi_user_attaches i)
  | None => []
  end.

Lemma entries_of_spec s ids e :
  Forall (fun id => is_Some (fr_attaches s !! id)) ids ->
  entries_of ids s e = Ok (omap (fun id => fr_attaches s !! id) ids) s e.
Proof.
  induction 1 as [|id ids [ent Hent] _ IH]; [done|]. cbn [entries_of]. mbase. unfold need. rewrite Hent. mbase. rewrite IH. mbase.
  cbn [omap list_omap]. by rewrite Hent.
Qed.

Lemma users_alive s f i : fr_ok s -> fr_internal s !! f = Some i -> Forall (fun id => is_Some (fr_attaches s !! id)) (fi_user_attaches i).
Proof. intros Hs Hi. apply Forall_forall. intros id (ent & He & _)%(fo_users _ Hs f i id Hi). by eexists. Qed.

(** Whether a function has an entry that overrides it. *)
Definition overridden s (f : Z) : bool :=
  existsb (fun x => get_type x.2 =? ATTACH_UPROBE_OVERRIDE) (entries_at s f).

Lemma has_override_spec s f i e :
  fr_ok s -> fr_internal s !! f = Some i -> has_override i s e = Ok (overridden s f) s e.
Proof.
  intros Hs Hi. unfold has_override. mbase. rewrite entries_of_spec by (by eapply users_alive). f_equal.
  unfold overridden, entries_at. rewrite Hi. induction (fi_user_attaches i) as [|id ids IH]; [done|]. cbn [omap list_omap].
  destruct (fr_attaches s !! id); simpl; [by rewrite IH|done].
Qed.

(** Adding an entry to an existing hook, which may be new and empty. *)
Lemma add_attach_spec s f i cb e :
  fr_internal s !! f = Some i -> fr_next_id s < 2 ^ 31 - 1 ->
  (forall id ent, fr_attaches s !! id = Some ent -> 1 <= id < fr_next_id s) -> 1 <= fr_next_id s < 2 ^ 31 ->
  (forall id ent, fr_attaches s !! id = Some ent -> fe_internal_attach ent = fe_function ent /\ is_Some (fr_internal s !! fe_function ent)) ->
  (forall g j, fr_internal s !! g = Some j -> StronglySorted Z.lt (fi_user_attaches j) /\ (g = f \/ fi_user_attaches j <> [])) ->
  (forall g j id, fr_internal s !! g = Some j ->
    id ∈ fi_user_attaches j <-> exists ent, fr_attaches s !! id = Some ent /\ fe_function ent = g) ->
  (forall g, fr_hooks s !! g = fr_internal s !! g ≫= hook_of) ->
  exists s', add_attach f cb s e = Ok (fr_next_id s) s' e /\ fr_ok s' /\
    fr_attaches s' = <[fr_next_id s := mk_fe cb f f]> (fr_attaches s) /\ fr_hooks s' = fr_hooks s /\
    fr_next_id s' = fr_next_id s + 1.
Proof.
  intros Hi Hnext Hids Hn Hent Hsort Husers Hhooks. unfold add_attach. mbase. unfold need. rewrite Hi. mbase.
  rewrite (proj2 (Z.eqb_neq _ _)) by lia. eexists. split; [done|]. split; [|done].
  set (id := fr_next_id s) in *. set (ent := mk_fe cb f f).
  assert (forall g j, fr_internal s !! g = Some j -> Forall (fun x => x < id) (fi_user_attaches j)) as Hlt.
  { intros g j Hj. apply Forall_forall. intros x (y & Hy & _)%(Husers g j x Hj). by apply Hids in Hy as [_ ?]. }
  split; simpl.
  - intros id' x [[<- _]|[_ Hx]]%lookup_insert_Some; [lia|]. apply Hids in Hx. lia.
  - lia.
  - intros id' x [[_ <-]|[_ Hx]]%lookup_insert_Some.
    + split; [done|]. simpl. rewrite lookup_insert_eq. by eexists.
    + destruct (Hent id' x Hx) as [Hf Hs']. split; [done|]. rewrite lookup_insert_is_Some'. by right.
  - intros g j [[<- <-]|[Hne Hj]]%lookup_insert_Some.
    + cbn [set_user_attaches fi_user_attaches]. split; [|by destruct (fi_user_attaches i)].
      apply StronglySorted_app_2; [|by destruct (Hsort f i Hi)|by repeat constructor].
      intros x y Hx ->%list_elem_of_singleton. specialize (Hlt f i Hi). rewrite Forall_forall in Hlt. by apply Hlt.
    + destruct (Hsort g j Hj) as [? [->|?]]; [done|by split].
  - intros g j id' [[<- <-]|[Hne Hj]]%lookup_insert_Some.
    + cbn [set_user_attaches fi_user_attaches]. rewrite elem_of_app, list_elem_of_singleton, (Husers f i id' Hi).
      setoid_rewrite lookup_insert_Some. split.
      * intros [(x & Hx & Hf)| ->]; [|exists ent; by split; [left|]].
        exists x. split; [|done]. right. split; [|done]. intros <-. apply Hids in Hx. lia.
      * intros (x & [[<- <-]|[_ Hx]] & Hf); [by right|left; eauto].
    + rewrite (Husers g j id' Hj). setoid_rewrite lookup_insert_Some. split.
      * intros (x & Hx & Hf). exists x. split; [|done]. right. split; [|done]. intros <-. apply Hids in Hx. lia.
      * intros (x & [[<- <-]|[_ Hx]] & Hf); [by simpl in Hf|eauto].
  - intros g. rewrite Hhooks. destruct (decide (f = g)) as [<-|Hg]; [by rewrite lookup_insert_eq, Hi|by rewrite lookup_insert_ne].
Qed.

(** The hook that a function without entries gets for a callback. *)
Definition hook_for (f : Z) (cb : frida_callback C) (h : gmap Z gum_hook) : gmap Z gum_hook :=
  if (callback_type cb =? ATTACH_UPROBE) || (callback_type cb =? ATTACH_URETPROBE) then <[f := GumListener]> h
  else if callback_type cb =? ATTACH_UPROBE_OVERRIDE then <[f := GumReplaced]> h else h.

(** What a refused hook is reported as. *)
Definition refusal (cb : frida_callback C) : string :=
  if (callback_type cb =? ATTACH_UPROBE) || (callback_type cb =? ATTACH_URETPROBE) then "Failed to attach uprobe/uretprpbe"
  else "Failed to attach filter".

(** Attaching on every branch: the null address, a function that is overridden, a hook that
    the interceptor refuses (nothing changes), and otherwise a new entry behind those of the
    function. *)
Lemma attach_at_spec gum_attach gum_replace s f cb e :
  fr_ok s -> fr_next_id s < 2 ^ 31 - 1 ->
  let refused := if (callback_type cb =? ATTACH_UPROBE) || (callback_type cb =? ATTACH_URETPROBE) then gum_attach f <? 0
                 else (callback_type cb =? ATTACH_UPROBE_OVERRIDE) && (gum_replace f <? 0) in
  if f =? 0 then attach_at gum_attach gum_replace f cb s e = Ok (- EINVAL) s e
  else if overridden s f then attach_at gum_attach gum_replace f cb s e = Ok (- EEXIST) s e
  else if bool_decide (entries_at s f = []) && refused then attach_at gum_attach gum_replace f cb s e = Throw (refusal cb) s e
  else exists s', attach_at gum_attach gum_replace f cb s e = Ok (fr_next_id s) s' e /\ fr_ok s' /\
    fr_next_id s' = fr_next_id s + 1 /\
    fr_attaches s !! fr_next_id s = None /\ fr_attaches s' = <[fr_next_id s := mk_fe cb f f]> (fr_attaches s) /\
    fr_hooks s' = (if bool_decide (entries_at s f = []) then hook_for f cb (fr_hooks s) else fr_hooks s).
Proof.
  intros Hs Hnext refused. unfold attach_at. destruct (f =? 0); [done|]. mbase.
  assert (fr_attaches s !! fr_next_id s = None) as Hfresh.
  { apply eq_None_not_Some. intros [ent He]. apply (fo_ids _ Hs) in He. lia. }
  destruct (fr_internal s !! f) as [i|] eqn:Hi.
  - rewrite (has_override_spec s f i) by done. destruct (overridden s f) eqn:Hov; [done|].
    assert (entries_at s f <> []) as Hne.
    { unfold entries_at. rewrite Hi. destruct (fo_sorted _ Hs f i Hi) as [_ Hne]. pose proof (users_alive s f i Hs Hi) as Hall.
      destruct (fi_user_attaches i) as [|id ids]; [done|]. apply Forall_cons in Hall as [[ent Hent] _]. simpl. by rewrite Hent. }
    rewrite bool_decide_eq_false_2 by done. cbn [andb].
    destruct (add_attach_spec s f i cb e) as (s' & Hadd & Hs' & Ha & Hh & Hn);
      [done|done|apply Hs|apply Hs|apply Hs| |apply Hs|apply Hs|by exists s'].
    intros g j Hj. destruct (fo_sorted _ Hs g j Hj). auto.
  - assert (entries_at s f = []) as Hemp by (unfold entries_at; by rewrite Hi). unfold overridden. rewrite Hemp. simpl.
    assert (forall h i, fi_user_attaches i = [] -> (forall g, h !! g = if decide (g = f) then hook_of i else fr_hooks s !! g) ->
      exists s', add_attach f cb (set_internal (<[f := i]> (fr_internal s)) (set_hooks h s)) e = Ok (fr_next_id s) s' e /\ fr_ok s' /\
        fr_next_id s' = fr_next_id s + 1 /\
        fr_attaches s !! fr_next_id s = None /\ fr_attaches s' = <[fr_next_id s := mk_fe cb f f]> (fr_attaches s) /\ fr_hooks s' = h) as Hadd.
    { intros h i Hnil Hhk.
      destruct (add_attach_spec (set_internal (<[f := i]> (fr_internal s)) (set_hooks h s)) f i cb e) as (s' & Hadd & Hs' & Ha & Hh & Hn);
        simpl; [apply lookup_insert_eq|done|apply Hs|apply Hs| | | | |by exists s'].
      - intros id ent He. destruct (fo_entry _ Hs id ent He) as [? ?]. split; [done|]. rewrite lookup_insert_is_Some'. by right.
      - intros g j [[<- <-]|[_ Hj]]%lookup_insert_Some; [rewrite Hnil; split; [constructor|by left]|].
        destruct (fo_sorted _ Hs g j Hj). auto.
      - intros g j id [[<- <-]|[_ Hj]]%lookup_insert_Some; [|by apply (fo_users _ Hs)]. rewrite Hnil. split; [by intros ?%not_elem_of_nil|].
        intros (ent & He & Hf). destruct (fo_entry _ Hs id ent He) as [_ [? ?]]. congruence.
      - intros g. rewrite Hhk. case_decide as Hg; [subst g; by rewrite lookup_insert_eq|].
        rewrite lookup_insert_ne by done. apply (fo_hooks _ Hs). }
    assert (forall k g, <[f := k]> (fr_hooks s) !! g = if decide (g = f) then Some k else fr_hooks s !! g) as Hins.
    { intros k g. case_decide as Hg; [subst g; apply lookup_insert_eq|by apply lookup_insert_ne]. }
    unfold refused, internal_new, refusal, hook_for. mbase.
    destruct ((callback_type cb =? ATTACH_UPROBE) || (callback_type cb =? ATTACH_URETPROBE)).
    + destruct (gum_attach f <? 0); [done|]. apply Hadd; [done|]. apply Hins.
    + destruct (callback_type cb =? ATTACH_UPROBE_OVERRIDE); simpl.
      * destruct (gum_replace f <? 0); [done|]. apply Hadd; [done|]. apply Hins.
      * destruct (Hadd (fr_hooks s) (mk_fi [] false false false 0 0)) as (s' & H1 & H2); [done| |exists s'; split; [|done]].
        -- intros g. case_decide as Hg; [subst g|done]. rewrite (fo_hooks _ Hs), Hi. done.
        -- rewrite <- H1. by destruct s.
Qed.

Lemma hooks_of_internal s g : fr_ok s -> fr_hooks s !! g = if bool_decide (is_Some (fr_internal s !! g)) then fr_hooks s !! g else None.
Proof. intros Hs. case_bool_decide as Hg; [done|]. rewrite (fo_hooks _ Hs). by apply eq_None_not_Some in Hg as ->. Qed.

(** Detaching by identifier removes that entry and no other; a function without entries has no
    hook. *)
Lemma fr_detach_spec s id e :
  fr_ok s ->
  exists s' e', fr_detach_by_id id s e = Ok 0 s' e' /\ fr_ok s' /\ fr_attaches s' = delete id (fr_attaches s) /\
    fr_next_id s' = fr_next_id s /\ e' = (if bool_decide (is_Some (fr_attaches s !! id)) then e else - ENOENT) /\
    forall g, fr_hooks s' !! g = (if bool_decide (is_Some (fr_internal s' !! g)) then fr_hooks s !! g else None).
Proof.
  intros Hs. unfold fr_detach_by_id. mbase. destruct (fr_attaches s !! id) as [ent|] eqn:Hid.
  2: { exists s, (- ENOENT). split_and!; try done; [by rewrite delete_id|]. intros g. by apply hooks_of_internal. }
  rewrite bool_decide_eq_true_2 by (by eexists).
  destruct (fo_entry _ Hs id ent Hid) as [Hf [i Hi]]. rewrite Hf. set (f := fe_function ent) in *. unfold need. rewrite Hi. mbase.
  set (l := filter (fun v => v <> id) (fi_user_attaches i)). set (s1 := set_attaches _ _).
  assert (forall x, x ∈ l <-> exists y, delete id (fr_attaches s) !! x = Some y /\ fe_function y = f) as Hl.
  { intros x. unfold l. rewrite list_elem_of_filter, (fo_users _ Hs f i x Hi). setoid_rewrite lookup_delete_Some. naive_solver. }
  assert (forall s', fr_attaches s' = delete id (fr_attaches s) -> fr_next_id s' = fr_next_id s ->
    (fr_internal s' = if bool_decide (l = []) then delete f (fr_internal s) else <[f := set_user_attaches l i]> (fr_internal s)) ->
    (fr_hooks s' = if bool_decide (l = []) then delete f (fr_hooks s) else fr_hooks s) ->
    fr_ok s' /\ forall g, fr_hooks s' !! g = if bool_decide (is_Some (fr_internal s' !! g)) then fr_hooks s !! g else None) as Hok.
  { intros s' Ha Hn Hint Hh.
    assert (forall g, fr_hooks s' !! g = fr_internal s' !! g ≫= hook_of /\
      fr_hooks s' !! g = if bool_decide (is_Some (fr_internal s' !! g)) then fr_hooks s !! g else None) as Hhk.
    { intros g. rewrite Hh, Hint. pose proof (fo_hooks _ Hs g) as Hg. case_bool_decide as Hnil; destruct (decide (f = g)) as [<-|Hne].
      - by rewrite !lookup_delete_eq.
      - rewrite !lookup_delete_ne by done. split; [done|]. by apply hooks_of_internal.
      - rewrite lookup_insert_eq. rewrite Hg, Hi. by split.
      - rewrite !lookup_insert_ne by done. split; [done|]. by apply hooks_of_internal. }
    split; [|intros g; apply Hhk]. split; rewrite ?Ha, ?Hn.
    - intros x y [_ Hy]%lookup_delete_Some. by eapply fo_ids.
    - apply Hs.
    - intros x y Hxy. pose proof Hxy as [_ Hy]%lookup_delete_Some. destruct (fo_entry _ Hs x y Hy) as [Hfy Hiy]. split; [done|].
      rewrite Hint. case_bool_decide as Hnil.
      + rewrite lookup_delete_ne; [done|]. intros Heq. apply (not_elem_of_nil x). rewrite <- Hnil. apply Hl. eauto.
      + rewrite lookup_insert_is_Some'. by right.
    - intros g j Hj. rewrite Hint in Hj. case_bool_decide as Hnil.
      + apply lookup_delete_Some in Hj as [_ Hj]. by eapply fo_sorted.
      + apply lookup_insert_Some in Hj as [[<- <-]|[_ Hj]]; [|by eapply fo_sorted]. simpl. split; [|done].
        apply StronglySorted_filter. by apply (fo_sorted _ Hs f).
    - intros g j x Hj. rewrite Hint in Hj. case_bool_decide as Hnil.
      + apply lookup_delete_Some in Hj as [Hne Hj]. rewrite (fo_users _ Hs g j x Hj). setoid_rewrite lookup_delete_Some. naive_solver.
      + apply lookup_insert_Some in Hj as [[<- <-]|[Hne Hj]]; [apply Hl|].
        rewrite (fo_users _ Hs g j x Hj). setoid_rewrite lookup_delete_Some. naive_solver.
    - intros g. apply Hhk. }
  unfold erase_internal. mbase. case_bool_decide as Hnil.
  - eexists _, e. split; [done|]. match goal with |- fr_ok ?x /\ _ => destruct (Hok x) as [? ?] end; [done|done| |done|done].
    simpl. by rewrite delete_insert_eq.
  - exists s1, e. split; [done|]. by destruct (Hok s1).
Qed.

Lemma entries_at_ids s f i :
  fr_ok s -> fr_internal s !! f = Some i -> (entries_at s f).*1 = fi_user_attaches i.
Proof.
  intros Hs Hi. pose proof (users_alive s f i Hs Hi) as Hall. unfold entries_at. rewrite Hi. clear -Hall.
  induction Hall as [|id ids [ent Hent] _ IH]; [done|]. cbn [omap list_omap]. rewrite Hent. simpl. by f_equal.
Qed.

Lemma elem_of_entries_at s f id ent :
  fr_ok s -> (id, ent) ∈ entries_at s f <-> fr_attaches s !! id = Some ent /\ fe_function ent = f.
Proof.
  intros Hs. unfold entries_at. destruct (fr_internal s !! f) as [i|] eqn:Hi.
  - rewrite list_elem_of_omap. split.
    + intros (id' & Hin & Hent). destruct (fr_attaches s !! id') as [x|] eqn:Hx; simplify_eq/=. split; [done|].
      apply (fo_users _ Hs f i id Hi) in Hin as (y & Hy & Hf). congruence.
    + intros [Hent Hf]. exists id. split; [apply (fo_users _ Hs f i id Hi); eauto|]. by rewrite Hent.
  - split; [by intros ?%not_elem_of_nil|]. intros [Hent Hf]. destruct (fo_entry _ Hs id ent Hent) as [_ [? ?]]. congruence.
Qed.

(** The entries of a function in a table of entries. *)
Definition at_function (f : Z) (m : gmap Z (frida_attach_entry C)) : list (Z * frida_attach_entry C) :=
  filter (fun x => fe_function x.2 = f) (map_to_list m).

Lemma entries_at_function s f : fr_ok s -> entries_at s f ≡ₚ at_function f (fr_attaches s).
Proof.
  intros Hs. apply NoDup_Permutation.
  - destruct (fr_internal s !! f) as [i|] eqn:Hi; [|unfold entries_at; rewrite Hi; constructor].
    apply (NoDup_fmap_1 fst). rewrite (entries_at_ids s f i) by done. destruct (fo_sorted _ Hs f i Hi) as [Hso _]. clear -Hso.
    induction Hso as [|x l _ IH Hall]; constructor; [|done]. intros Hin. rewrite Forall_forall in Hall. specialize (Hall x Hin). lia.
  - apply NoDup_filter, NoDup_map_to_list.
  - intros [id ent]. rewrite elem_of_entries_at by done. unfold at_function. rewrite list_elem_of_filter, elem_of_map_to_list. simpl. tauto.
Qed.

(** Detaching a function removes its entries and its hook. *)
Lemma detach_by_func_addr_spec s f e :
  fr_ok s ->
  exists s', detach_by_func_addr f s e = Ok (if bool_decide (at_function f (fr_attaches s) = []) then - ENOENT else 0) s' e /\ fr_ok s' /\
    fr_attaches s' = filter (fun x => fe_function x.2 <> f) (fr_attaches s) /\ fr_next_id s' = fr_next_id s /\
    forall g, fr_hooks s' !! g = (if bool_decide (is_Some (fr_internal s' !! g)) then fr_hooks s !! g else None).
Proof.
  intros Hs. pose proof (entries_at_function s f Hs) as Hperm. unfold detach_by_func_addr. mbase.
  assert (forall m (l : list Z) (x : Z), foldl (fun m id => delete id m) m l !! x =
    if bool_decide (x ∈ l) then None else (m : gmap Z (frida_attach_entry C)) !! x) as Hdel.
  { intros m l. revert m. induction l as [|y l IH]; intros m x; cbn [foldl]; [by rewrite bool_decide_eq_false_2 by apply not_elem_of_nil|].
    rewrite IH. destruct (decide (x = y)) as [->|Hne].
    - rewrite (bool_decide_eq_true_2 (y ∈ y :: l)) by apply list_elem_of_here. case_bool_decide; [done|apply lookup_delete_eq].
    - rewrite lookup_delete_ne by done. by rewrite (bool_decide_ext (x ∈ y :: l) (x ∈ l)) by (rewrite elem_of_cons; naive_solver). }
  destruct (fr_internal s !! f) as [i|] eqn:Hi.
  - assert (at_function f (fr_attaches s) <> []) as Hne.
    { intros Hnil. rewrite Hnil in Hperm. apply Permutation_nil_r in Hperm. pose proof (entries_at_ids s f i Hs Hi) as Hids.
      rewrite Hperm in Hids. by destruct (fo_sorted _ Hs f i Hi) as [_ []]. }
    rewrite bool_decide_eq_false_2 by done. eexists. split; [done|].
    assert (foldl (fun m id => delete id m) (fr_attaches s) (fi_user_attaches i) = filter (fun x => fe_function x.2 <> f) (fr_attaches s)) as Hm.
    { apply map_eq. intros x. rewrite Hdel. rewrite map_lookup_filter. case_bool_decide as Hin.
      - apply (fo_users _ Hs f i x Hi) in Hin as (ent & -> & Hf). simpl. by rewrite option_guard_False by (simpl; tauto).
      - destruct (fr_attaches s !! x) as [ent|] eqn:Hx; [|done]. simpl. rewrite option_guard_True; [done|]. simpl. intros Hf.
        apply Hin, (fo_users _ Hs f i x Hi). eauto. }
    assert (forall g, delete f (fr_hooks s) !! g = if bool_decide (is_Some (delete f (fr_internal s) !! g)) then fr_hooks s !! g else None) as Hh.
    { intros g. destruct (decide (f = g)) as [<-|Hg]; [by rewrite !lookup_delete_eq|]. rewrite !lookup_delete_ne by done. by apply hooks_of_internal. }
    simpl. split_and!; [|done..]. split; simpl; rewrite ?Hm.
    + intros id ent [He _]%map_lookup_filter_Some. by eapply fo_ids.
    + apply Hs.
    + intros id ent [He Hne']%map_lookup_filter_Some. destruct (fo_entry _ Hs id ent He). simpl in *. by rewrite lookup_delete_ne.
    + intros g j [_ Hj]%lookup_delete_Some. by eapply fo_sorted.
    + intros g j id [Hg Hj]%lookup_delete_Some. rewrite (fo_users _ Hs g j id Hj). setoid_rewrite map_lookup_filter_Some. simpl. naive_solver.
    + intros g. destruct (decide (f = g)) as [<-|Hg]; [by rewrite !lookup_delete_eq|]. rewrite !lookup_delete_ne by done. apply Hs.
  - assert (entries_at s f = []) as Hnil by (unfold entries_at; by rewrite Hi). rewrite Hnil in Hperm. apply Permutation_nil_l in Hperm.
    rewrite <- Hperm. exists s. split_and!; try done; [|intros g; by apply hooks_of_internal]. symmetry. apply map_filter_id.
    intros id ent He Hf. simpl in Hf. destruct (fo_entry _ Hs id ent He) as [_ [? ?]]. congruence.
Qed.
End invariant.

(** ** What the hooks run *)

Section hooks.
Context {C W : Type}.
Context (run : C -> pt_regs -> W -> W * list (Z * Z) * Z * Z) (original : Z -> list Z -> W -> Z * W).
Implicit Types t : frida_thread (C := C) (W := W).

(** The callbacks of some entries, one after the other. *)
Fixpoint run_in_order (es : list (frida_attach_entry C)) (regs : pt_regs) : M frida_thread unit :=
  match es with [] => mret tt | ent :: es' => run_callback run ent regs;; run_in_order es' regs end.

Definition keeps_entries (m : M (frida_thread (C := C) (W := W)) unit) : Prop :=
  forall t e u t' e', m t e = Ok u t' e' -> fr_attaches (ft_impl t') = fr_attaches (ft_impl t).

Lemma override_return_keeps ctx v : keeps_entries (override_return ctx v).
Proof.
  intros t e u t' e'. unfold override_return. mbase. destruct (ft_override t) as [f|]; [|done]. unfold need.
  destruct (fr_internal (ft_impl t) !! f); [|done]. mbase. by intros [= _ <- _].
Qed.

Lemma override_all_keeps l : keeps_entries (override_all l).
Proof.
  induction l as [|[ctx v] l IH]; intros t e u t' e'; cbn [override_all]; mbase; [by intros [= _ <- _]|].
  destruct (override_return ctx v t e) as [u1 t1 e1| |] eqn:H1; [|done..]. intros H2%IH. rewrite H2. by eapply override_return_keeps.
Qed.

Lemma run_callback_keeps ent regs : keeps_entries (run_callback run ent regs).
Proof.
  intros t e u t' e'. unfold run_callback. cbv zeta. mbase. destruct (fe_callback ent) as [idx f|f replaces ty];
    destruct (run f regs (ft_world t)) as [[[w calls] err] ret];
    destruct (override_all calls (set_world w t) e) as [u1 t1 e1| |] eqn:H1; try done; apply override_all_keeps in H1.
  - intros [= _ <- _]. done.
  - cbn [fst snd]. destruct (replaces && (0 <=? err)); [|by intros [= _ <- _]].
    intros H2%override_return_keeps. by rewrite H2.
Qed.

(** The loops over the pointers of a hook run the callbacks of the entries of that type. *)
Lemma iterate_callbacks_spec ty ids regs t e :
  Forall (fun id => is_Some (fr_attaches (ft_impl t) !! id)) ids ->
  iterate_callbacks run ty ids regs t e =
  run_in_order (filter (fun ent => get_type ent = ty) (omap (fun id => fr_attaches (ft_impl t) !! id) ids)) regs t e.
Proof.
  revert t e. induction ids as [|id ids IH]; intros t e Hall; [done|]. apply Forall_cons in Hall as [[ent Hent] Hall].
  cbn [iterate_callbacks omap list_omap]. rewrite Hent. mbase. unfold need. rewrite Hent. mbase. rewrite filter_cons.
  destruct (Z.eqb_spec (get_type ent) ty) as [Hty|Hty]; [rewrite decide_True by done|rewrite decide_False by done; by apply IH].
  cbn [run_in_order]. mbase. destruct (run_callback run ent regs t e) as [u t1 e1| |] eqn:Hrun; [|done..].
  apply run_callback_keeps in Hrun. rewrite IH, Hrun by (by rewrite Hrun). done.
Qed.

Lemma omap_entries_at (s : frida_attach_impl C) f i :
  fr_internal s !! f = Some i -> omap (fun id => fr_attaches s !! id) (fi_user_attaches i) = (entries_at s f).*2.
Proof.
  intros Hi. unfold entries_at. rewrite Hi. induction (fi_user_attaches i) as [|id ids IH]; [done|]. cbn [omap list_omap].
  destruct (fr_attaches s !! id); simpl; [by f_equal|done].
Qed.

(** A program sees the registers of the hooked function. *)
Definition same_registers (c : GumX64CpuContext) (r : pt_regs) : Prop :=
  (r_di r = g_rdi c /\ r_si r = g_rsi c /\ r_dx r = g_rdx c /\ r_cx r = g_rcx c /\ r_ax r = g_rax c /\ r_bx r = g_rbx c) /\
  (r_bp r = g_rbp c /\ r_sp r = g_rsp c /\ r_ip r = g_rip c) /\
  (r_r8 r = g_r8 c /\ r_r9 r = g_r9 c /\ r_r10 r = g_r10 c /\ r_r11 r = g_r11 c) /\
  (r_r12 r = g_r12 c /\ r_r13 r = g_r13 c /\ r_r14 r = g_r14 c /\ r_r15 r = g_r15 c).

(** C32. When a function with entries is entered, the listener runs exactly its uprobes, in the order
    in which they were attached, and when it is left exactly its uretprobes; every one of them with
    the registers of the interceptor's context, each in its own field, whatever the local variable
    held before. *)
Theorem listener_runs_probes t f c garbage e :
  fr_ok (ft_impl t) -> entries_at (ft_impl t) f <> [] ->
  exists regs, same_registers c regs /\
  uprobe_listener_on_enter run f c garbage t e =
    run_in_order (filter (fun ent => get_type ent = ATTACH_UPROBE) (entries_at (ft_impl t) f).*2) regs t e /\
  uprobe_listener_on_leave run f c garbage t e =
    run_in_order (filter (fun ent => get_type ent = ATTACH_URETPROBE) (entries_at (ft_impl t) f).*2) regs t e /\
  StronglySorted Z.lt (entries_at (ft_impl t) f).*1 /\
  forall id ent, (id, ent) ∈ entries_at (ft_impl t) f <-> fr_attaches (ft_impl t) !! id = Some ent /\ fe_function ent = f.
Proof.
  intros Hs Hne. destruct (fr_internal (ft_impl t) !! f) as [i|] eqn:Hi; [|unfold entries_at in Hne; by rewrite Hi in Hne].
  pose proof (users_alive _ f i Hs Hi) as Hall. exists (convert_gum_cpu_context_to_pt_regs c garbage). split; [by repeat split|].
  unfold uprobe_listener_on_enter, uprobe_listener_on_leave, hook_entry. mbase. unfold need. rewrite Hi. mbase.
  rewrite !iterate_callbacks_spec, (omap_entries_at _ f i) by done. split_and!; [done..| |].
  - rewrite (entries_at_ids _ f i) by done. by apply (fo_sorted _ Hs f).
  - intros id ent. by apply elem_of_entries_at.
Qed.

(** ** Overriding a function *)

Definition overrode (i : frida_internal_attach_entry) (x : Z * Z) : frida_internal_attach_entry :=
  mk_fi (fi_user_attaches i) (fi_listener i) (fi_sets_return i) true x.2 x.1.

Lemma put_hook_put f i j t : put_hook f i (put_hook f j t) = put_hook f i t.
Proof. unfold put_hook, set_internal. simpl. by rewrite insert_insert_eq. Qed.
Lemma put_hook_same f i t : fr_internal (ft_impl t) !! f = Some i -> put_hook f i t = t.
Proof. intros Hi. unfold put_hook, set_internal. rewrite insert_id by done. by destruct t as [[]]. Qed.

Lemma override_all_spec l t e f i :
  ft_override t = Some f -> fr_internal (ft_impl t) !! f = Some i ->
  override_all l t e = Ok tt (put_hook f (foldl overrode i l) t) e.
Proof.
  revert t i. induction l as [|[ctx v] l IH]; intros t i Ho Hi; [simpl; by rewrite put_hook_same|].
  cbn [override_all foldl]. mbase. unfold override_return. mbase. rewrite Ho. unfold need. rewrite Hi. mbase.
  rewrite (IH _ (overrode i (ctx, v))); [by rewrite put_hook_put|done|]. simpl. apply lookup_insert_eq.
Qed.

Lemma foldl_overrode l i :
  fi_is_overrided (foldl overrode i l) = match last l with Some _ => true | None => fi_is_overrided i end /\
  fi_user_ret (foldl overrode i l) = match last l with Some x => x.2 | None => fi_user_ret i end /\
  fi_user_attaches (foldl overrode i l) = fi_user_attaches i.
Proof.
  induction l as [|x l IH] using rev_ind; [done|]. rewrite foldl_app, last_snoc. simpl. split_and!; [done..|]. apply IH.
Qed.

(** The function of a callback, and whether its result replaces the function's. *)
Definition callback_parts (cb : frida_callback C) : C * bool :=
  match cb with CallbackVariant _ f => (f, false) | EbpfCallbackArgs f replaces _ => (f, replaces) end.

(** All that a callback passes to the override callback. *)
Definition overrides (cb : frida_callback C) (regs : pt_regs) (w : W) : W * list (Z * Z) :=
  let '(w', calls, err, ret) := run (callback_parts cb).1 regs w in
  (w', calls ++ if (callback_parts cb).2 && (0 <=? err) then [(0, ret)] else []).

Lemma run_callback_spec ent regs t e f i :
  ft_override t = Some f -> fr_internal (ft_impl t) !! f = Some i ->
  run_callback run ent regs t e =
  Ok tt (put_hook f (foldl overrode i (overrides (fe_callback ent) regs (ft_world t)).2)
           (set_world (overrides (fe_callback ent) regs (ft_world t)).1 t)) e.
Proof.
  intros Ho Hi. unfold run_callback, overrides. cbv zeta. mbase.
  destruct (fe_callback ent) as [idx g|g replaces ty]; simpl; destruct (run g regs (ft_world t)) as [[[w calls] err] ret];
    rewrite (override_all_spec calls _ e f i) by done; simpl.
  - by rewrite app_nil_r.
  - destruct (replaces && (0 <=? err)); [|by rewrite app_nil_r]. rewrite foldl_app.
    unfold override_return. mbase. simpl. rewrite Ho. unfold need. rewrite lookup_insert_eq. mbase. by rewrite put_hook_put.
Qed.

(** The handler of a replaced function whose only entry overrides it. *)
Lemma override_handler_spec t f id ent c garbage args e :
  fr_internal (ft_impl t) !! f = Some (mk_fi [id] false true false 0 0) ->
  fr_attaches (ft_impl t) !! id = Some ent -> get_type ent = ATTACH_UPROBE_OVERRIDE ->
  let '(w', ov) := overrides (fe_callback ent) (convert_gum_cpu_context_to_pt_regs c garbage) (ft_world t) in
  let t' := put_hook f (foldl overrode (mk_fi [id] false true false 0 0) ov) (set_world w' (set_override (Some f) t)) in
  override_handler run original f c garbage args t e =
  match last ov with
  | Some (_, v) => Ok v t' e
  | None => Ok (original f (take 5 args) w').1 (set_world (original f (take 5 args) w').2 t') e
  end.
Proof.
  intros Hi Hent Hty. set (regs := convert_gum_cpu_context_to_pt_regs c garbage). unfold override_handler, hook_entry. fold regs. cbv zeta. mbase. unfold need at 1. rewrite Hi. mbase.
  cbn [fi_user_attaches fi_listener fi_sets_return fi_user_ret fi_user_ret_ctx]. rewrite put_hook_same by done.
  cbn [run_filter_callback]. mbase. unfold need at 1. cbn [set_override ft_impl]. rewrite Hent. mbase. rewrite Hty, Z.eqb_refl.
  rewrite (run_callback_spec ent regs (set_override (Some f) t) e f _ eq_refl Hi). cbn [set_override ft_world].
  destruct (overrides (fe_callback ent) regs (ft_world t)) as [w' ov]. cbn [fst snd]. unfold need.
  cbn [put_hook ft_impl set_internal fr_internal]. rewrite lookup_insert_eq. mbase.
  destruct (foldl_overrode ov (mk_fi [id] false true false 0 0)) as (-> & -> & _). cbn [fi_is_overrided].
  destruct (last ov) as [[x v]|]; [done|]. cbn [put_hook ft_world set_world]. by destruct (original f (take 5 args) w').
Qed.

(** Overriding a function that has no entries: it is replaced, and a call of it runs the program;
    the result is the last one that the program set, or, when it set none, that of the
    original function. *)
Theorem override_decides gum_attach gum_replace (s : frida_attach_impl C) f cb e :
  fr_ok s -> fr_next_id s < 2 ^ 31 - 1 -> f <> 0 -> entries_at s f = [] ->
  callback_type cb = ATTACH_UPROBE_OVERRIDE -> 0 <= gum_replace f ->
  exists s', attach_at gum_attach gum_replace f cb s e = Ok (fr_next_id s) s' e /\ fr_ok s' /\
    fr_hooks s' !! f = Some GumReplaced /\ overridden s' f = true /\
    forall o w c garbage args e', let '(w', ov) := overrides cb (convert_gum_cpu_context_to_pt_regs c garbage) w in
    exists t', fr_attaches (ft_impl t') = fr_attaches s' /\
      match last ov with
      | Some (_, v) => override_handler run original f c garbage args (mk_thread s' o w) e' = Ok v t' e' /\ ft_world t' = w'
      | None => override_handler run original f c garbage args (mk_thread s' o w) e' = Ok (original f (take 5 args) w').1 t' e' /\
                ft_world t' = (original f (take 5 args) w').2
      end.
Proof.
  intros Hs Hnext Hf Hemp Hty Hgum. pose proof (attach_at_spec gum_attach gum_replace s f cb e Hs Hnext) as Hspec.
  cbv zeta in Hspec. rewrite (proj2 (Z.eqb_neq f 0) Hf) in Hspec. unfold overridden in Hspec at 1. rewrite Hemp, Hty in Hspec. simpl in Hspec.
  rewrite (proj2 (Z.ltb_ge _ _)) in Hspec by done. destruct Hspec as (s' & Hatt & Hok & _ & _ & Ha & _).
  assert (fr_internal s !! f = None) as Hnone.
  { apply eq_None_not_Some. intros [i Hi]. destruct (fo_sorted _ Hs f i Hi) as [_ Hne]. pose proof (users_alive s f i Hs Hi) as Hall.
    unfold entries_at in Hemp. rewrite Hi in Hemp. destruct (fi_user_attaches i) as [|id ids]; [done|].
    apply Forall_cons in Hall as [[ent Hent] _]. simpl in Hemp. by rewrite Hent in Hemp. }
  assert (fr_internal s' !! f = Some (mk_fi [fr_next_id s] false true false 0 0) /\ fr_hooks s' !! f = Some GumReplaced) as [Hi Hh].
  { clear -Hatt Hf Hnone Hty Hgum Hnext. revert Hatt. unfold attach_at, internal_new. rewrite (proj2 (Z.eqb_neq f 0) Hf). mbase.
    rewrite Hnone, Hty. simpl. rewrite (proj2 (Z.ltb_ge _ _)) by done. unfold add_attach. mbase. simpl. unfold need. rewrite lookup_insert_eq. mbase.
    rewrite (proj2 (Z.eqb_neq _ _)) by lia. intros [= <-]. simpl. by rewrite !lookup_insert_eq. }
  set (id := fr_next_id s) in *. set (ent := mk_fe cb f f) in *.
  assert (fr_attaches s' !! id = Some ent) as Hent by (rewrite Ha; apply lookup_insert_eq).
  exists s'. split_and!; [done..| |].
  { unfold overridden, entries_at. rewrite Hi. simpl. rewrite Hent. simpl. change (get_type ent) with (callback_type cb). by rewrite Hty. }
  intros o w c garbage args e'. destruct (overrides cb (convert_gum_cpu_context_to_pt_regs c garbage) w) as [w' ov] eqn:Hov.
  pose proof (override_handler_spec (mk_thread s' o w) f id ent c garbage args e' Hi Hent Hty) as Hrun. cbn [ft_world] in Hrun.
  change (fe_callback ent) with cb in Hrun. rewrite Hov in Hrun. rewrite Hrun. destruct (last ov) as [[x v]|]; (eexists; split; [|split; [done|]]; done).
Qed.
End hooks.

(** ** Sessions *)

Section sessions.
Context {C : Type} (gum_attach gum_replace : Z -> Z).
Implicit Types (s : frida_attach_impl C) (m : gmap Z (frida_attach_entry C)).

Inductive probe_call :=
  | Attach (f : Z) (cb : frida_callback C)
  | Detach (id : Z)
  | DetachFunction (f : Z).

Definition probe_step (c : probe_call) : M (frida_attach_impl C) Z :=
  match c with
  | Attach f cb => attach_at gum_attach gum_replace f cb
  | Detach id => fr_detach_by_id id
  | DetachFunction f => detach_by_func_addr f
  end.

(** What the caller gets: the value and errno, which was 0, or an exception. *)
Inductive answer := Returns (r errno : Z) | Raises (what : string).

(** Calls one after the other, with their answers; undefined behaviour ends the session. *)
Fixpoint session (calls : list probe_call) s : option (list answer * frida_attach_impl C) :=
  match calls with
  | [] => Some ([], s)
  | c :: calls' =>
      match probe_step c s 0 with
      | Ok r s' e => '(as_, s'') ← session calls' s'; Some (Returns r e :: as_, s'')
      | Throw w s' _ => '(as_, s'') ← session calls' s'; Some (Raises w :: as_, s'')
      | Ub _ => None
      end
  end.

(** The interceptor refuses to hook a function for such a callback. *)
Definition refuses (f : Z) (cb : frida_callback C) : bool :=
  if (callback_type cb =? ATTACH_UPROBE) || (callback_type cb =? ATTACH_URETPROBE) then gum_attach f <? 0
  else (callback_type cb =? ATTACH_UPROBE_OVERRIDE) && (gum_replace f <? 0).

(** A plain table of probes: the next identifier, the probes, and the functions that are hooked. *)
Record table := mk_table { tb_next : Z; tb_probes : gmap Z (frida_attach_entry C); tb_hooks : gmap Z gum_hook }.
Definition table_of s : table := mk_table (fr_next_id s) (fr_attaches s) (fr_hooks s).

Definition has_override_in (f : Z) m : bool := existsb (fun x => get_type x.2 =? ATTACH_UPROBE_OVERRIDE) (at_function f m).

(** The hooks of the functions that still have probes. *)
Definition hooks_left m (h : gmap Z gum_hook) : gmap Z gum_hook := filter (fun x => at_function x.1 m <> []) h.

(** The calls on a table: the first probe of a function hooks it, the last one that goes unhooks
    it. *)
Definition spec_call (c : probe_call) (x : table) : answer * table :=
  let '(mk_table n m h) := x in
  match c with
  | Attach f cb =>
      if f =? 0 then (Returns (- EINVAL) 0, x)
      else if has_override_in f m then (Returns (- EEXIST) 0, x)
      else if bool_decide (at_function f m = []) then
        if refuses f cb then (Raises (refusal cb), x)
        else (Returns n 0, mk_table (n + 1) (<[n := mk_fe cb f f]> m) (hook_for f cb h))
      else (Returns n 0, mk_table (n + 1) (<[n := mk_fe cb f f]> m) h)
  | Detach id =>
      (Returns 0 (if bool_decide (is_Some (m !! id)) then 0 else - ENOENT), mk_table n (delete id m) (hooks_left (delete id m) h))
  | DetachFunction f =>
      let m' := filter (fun x => fe_function x.2 <> f) m in
      (Returns (if bool_decide (at_function f m = []) then - ENOENT else 0) 0, mk_table n m' (hooks_left m' h))
  end.

Fixpoint spec_session (calls : list probe_call) (x : table) : list answer * table :=
  match calls with
  | [] => ([], x)
  | c :: calls' => let '(a, x1) := spec_call c x in let '(as_, x2) := spec_session calls' x1 in (a :: as_, x2)
  end.

Lemma existsb_perm {A} (p : A -> bool) (l1 l2 : list A) : l1 ≡ₚ l2 -> existsb p l1 = existsb p l2.
Proof. induction 1 as [|x l1 l2 _ IH|x y l|l1 l2 l3 _ IH1 _ IH2]; simpl; [done|by rewrite IH|by rewrite !orb_assoc, (orb_comm (p x))|congruence]. Qed.

Lemma internal_at_function s f : fr_ok s -> is_Some (fr_internal s !! f) <-> at_function f (fr_attaches s) <> [].
Proof.
  intros Hs. pose proof (entries_at_function s f Hs) as Hperm. destruct (fr_internal s !! f) as [i|] eqn:Hi.
  - split; [|by eexists]. intros _ Hnil. rewrite Hnil in Hperm. apply Permutation_nil_r in Hperm.
    pose proof (entries_at_ids s f i Hs Hi) as Hids. rewrite Hperm in Hids. by destruct (fo_sorted _ Hs f i Hi) as [_ []].
  - assert (entries_at s f = []) as Hnil by (unfold entries_at; by rewrite Hi). rewrite Hnil in Hperm.
    apply Permutation_nil_l in Hperm. rewrite <- Hperm. split; [by intros []|done].
Qed.

Lemma hooks_left_spec s s' : fr_ok s' ->
  (forall g, fr_hooks s' !! g = if bool_decide (is_Some (fr_internal s' !! g)) then fr_hooks s !! g else None) ->
  fr_hooks s' = hooks_left (fr_attaches s') (fr_hooks s).
Proof.
  intros Hs' Hh. apply map_eq. intros g. rewrite Hh. unfold hooks_left. rewrite map_lookup_filter.
  rewrite (bool_decide_ext _ _ (internal_at_function s' g Hs')).
  destruct (fr_hooks s !! g) as [k|]; [|by case_bool_decide]. simpl. case_bool_decide; case_guard; done.
Qed.

(** A call of the implementation and the call on the table. *)
Definition agrees (r : out (frida_attach_impl C) Z) (a : answer) (s' : frida_attach_impl C) : Prop :=
  match r with Ok v s1 e => a = Returns v e /\ s1 = s' | Throw w s1 _ => a = Raises w /\ s1 = s' | Ub _ => False end.

Lemma probe_step_spec c s :
  fr_ok s -> fr_next_id s < 2 ^ 31 - 1 ->
  exists s', agrees (probe_step c s 0) (spec_call c (table_of s)).1 s' /\ fr_ok s' /\
    fr_next_id s <= fr_next_id s' <= fr_next_id s + 1 /\ table_of s' = (spec_call c (table_of s)).2.
Proof.
  intros Hs Hn. destruct c as [f cb|id|f]; cbn [probe_step spec_call table_of].
  - pose proof (entries_at_function s f Hs) as Hperm. unfold has_override_in. rewrite <- (existsb_perm _ _ _ Hperm).
    assert (at_function f (fr_attaches s) = [] <-> entries_at s f = []) as Hnil.
    { split; intros Hx; rewrite Hx in Hperm; [by apply Permutation_nil_r in Hperm|by apply Permutation_nil_l in Hperm]. }
    rewrite (bool_decide_ext _ _ Hnil). pose proof (attach_at_spec gum_attach gum_replace s f cb 0 Hs Hn) as Hspec.
    cbv zeta in Hspec. fold (refuses f cb) in Hspec. unfold overridden in Hspec.
    destruct (f =? 0); [rewrite Hspec; exists s; split_and!; (done || lia)|].
    destruct (existsb _ (entries_at s f)); [rewrite Hspec; exists s; split_and!; (done || lia)|].
    destruct (bool_decide (entries_at s f = [])); [destruct (refuses f cb)|]; cbn [andb] in Hspec;
      [rewrite Hspec; exists s; split_and!; (done || lia)|..];
      destruct Hspec as (s' & -> & Hs' & Hn' & _ & Ha & Hh); exists s'; unfold table_of; rewrite Hn', Ha, Hh; split_and!; (done || lia).
  - destruct (fr_detach_spec s id 0 Hs) as (s' & e' & -> & Hs' & Ha & Hn' & He & Hh). exists s'. unfold table_of.
    rewrite (hooks_left_spec s s' Hs' Hh), Hn', Ha, He. split_and!; (done || lia).
  - destruct (detach_by_func_addr_spec s f 0 Hs) as (s' & -> & Hs' & Ha & Hn' & Hh). exists s'. unfold table_of.
    rewrite (hooks_left_spec s s' Hs' Hh), Hn', Ha. split_and!; (done || lia).
Qed.

Lemma session_spec calls s :
  fr_ok s -> fr_next_id s + Z.of_nat (length calls) < 2 ^ 31 - 1 ->
  exists s', session calls s = Some ((spec_session calls (table_of s)).1, s') /\ fr_ok s' /\
    table_of s' = (spec_session calls (table_of s)).2.
Proof.
  revert s. induction calls as [|c calls IH]; intros s Hs Hn; [by exists s|]. cbn [length] in Hn.
  destruct (probe_step_spec c s Hs) as (s1 & Hcall & Hs1 & Hn1 & Heq); [lia|]. cbn [session spec_session].
  destruct (spec_call c (table_of s)) as [a x1]. cbn [fst snd] in *. subst x1.
  destruct (IH s1 Hs1) as (s' & Hr & Hs' & Heq'); [lia|]. exists s'. destruct (spec_session calls (table_of s1)) as [as_ x2].
  split_and!; [|done|done]. unfold agrees in Hcall. destruct (probe_step c s 0); [| |done]; destruct Hcall as [-> ->]; rewrite Hr; done.
Qed.

(** The contract of the header of internal entries: a function has one override alone, or any
    number of other probes. *)
Definition exclusive (x : table) : Prop :=
  forall id ent, tb_probes x !! id = Some ent -> get_type ent = ATTACH_UPROBE_OVERRIDE ->
    tb_hooks x !! fe_function ent = Some GumReplaced /\
    forall id' ent', tb_probes x !! id' = Some ent' -> fe_function ent' = fe_function ent -> id' = id.

(** Overrides are attached only to functions without probes. The code does not check this. *)
Definition overrides_alone (c : probe_call) (x : table) : Prop :=
  match c with
  | Attach f cb => callback_type cb = ATTACH_UPROBE_OVERRIDE -> at_function f (tb_probes x) = []
  | _ => True
  end.
Fixpoint all_overrides_alone (calls : list probe_call) (x : table) : Prop :=
  match calls with [] => True | c :: calls' => overrides_alone c x /\ all_overrides_alone calls' (spec_call c x).2 end.

Lemma elem_of_at_function f m id ent : (id, ent) ∈ at_function f m <-> m !! id = Some ent /\ fe_function ent = f.
Proof. unfold at_function. rewrite list_elem_of_filter, elem_of_map_to_list. simpl. tauto. Qed.

Lemma at_function_nil f m id ent : at_function f m = [] -> m !! id = Some ent -> fe_function ent = f -> False.
Proof. intros Hnil Hid Hf. apply (not_elem_of_nil (id, ent)). rewrite <- Hnil. by apply elem_of_at_function. Qed.

(** Taking probes away keeps the contract. *)
Lemma exclusive_less n m h m' : exclusive (mk_table n m h) -> m' ⊆ m -> exclusive (mk_table n m' (hooks_left m' h)).
Proof.
  intros Hx Hsub id ent Hid Hty. destruct (Hx id ent) as [Hh Huniq]; [by eapply lookup_weaken|done|]. split.
  - apply map_lookup_filter_Some. split; [done|]. intros Hnil. by eapply at_function_nil.
  - intros id' ent' Hid' Hf. eapply Huniq; [by eapply lookup_weaken|done].
Qed.

(** A new probe keeps it when it is no override, or the function had no probes. *)
Lemma exclusive_more n m h f cb h' : exclusive (mk_table n m h) -> has_override_in f m = false ->
  (callback_type cb = ATTACH_UPROBE_OVERRIDE -> at_function f m = [] /\ h' !! f = Some GumReplaced) ->
  (forall g, g <> f -> h' !! g = h !! g) ->
  exclusive (mk_table (n + 1) (<[n := mk_fe cb f f]> m) h').
Proof.
  intros Hx Hno Hov Hh id ent. cbn [tb_probes tb_hooks]. intros [[<- <-]|[Hne Hid]]%lookup_insert_Some Hty; cbn [fe_function].
  - destruct (Hov Hty) as [Hnil Hf]. split; [done|]. intros id' ent' [[<- _]|[_ Hid']]%lookup_insert_Some Hf'; [done|].
    by destruct (at_function_nil f m id' ent').
  - assert (fe_function ent <> f) as Hf.
    { intros Hf. assert (has_override_in f m = true) as Heq; [|congruence]. apply existsb_exists. exists (id, ent).
      split; [by apply list_elem_of_In, elem_of_at_function|by apply Z.eqb_eq]. }
    destruct (Hx id ent Hid Hty) as [Hk Huniq]. split; [by rewrite Hh|].
    intros id' ent' [[_ <-]|[_ Hid']]%lookup_insert_Some Hf'; [by simpl in Hf'|by eapply Huniq].
Qed.

Lemma spec_call_exclusive c x : exclusive x -> overrides_alone c x -> exclusive (spec_call c x).2.
Proof.
  destruct x as [n m h]. intros Hx Hc. destruct c as [f cb|id|f]; cbn [spec_call].
  - destruct (f =? 0); [done|]. destruct (has_override_in f m) eqn:Hno; [done|]. case_bool_decide as Hnil; [destruct (refuses f cb); [done|]|];
      cbn [snd]; apply (exclusive_more n m h); try done.
    + intros Hty. split; [done|]. unfold hook_for. rewrite Hty. apply lookup_insert_eq.
    + intros g Hg. unfold hook_for. repeat case_match; try done; by apply lookup_insert_ne.
    + intros Hty. by destruct Hnil; apply Hc.
  - apply (exclusive_less n m h); [done|apply delete_subseteq].
  - apply (exclusive_less n m h); [done|apply map_filter_subseteq].
Qed.

Lemma spec_session_exclusive calls x : exclusive x -> all_overrides_alone calls x -> exclusive (spec_session calls x).2.
Proof.
  revert x. induction calls as [|c calls IH]; intros x Hx; [done|]. cbn [all_overrides_alone spec_session]. intros [Hc Hcalls].
  pose proof (spec_call_exclusive c x Hx Hc) as Hx1. destruct (spec_call c x) as [a x1]. cbn [snd] in *.
  specialize (IH x1 Hx1 Hcalls). by destruct (spec_session calls x1).
Qed.

(** C12. Any session of attaching and detaching, with refusals of the interceptor between, that
    does not use up the identifiers of an int, is free of dangling pointers and refines a plain
    table of probes: every call gives the answer of the table (identifier, error code, errno or
    exception), and the probes, the next identifier and the hooks of the interceptor are the
    table's at the end. The table, as the code, refuses a probe on a function with an override but
    not an override on a function with probes, although the header excludes both
    ([override_after_uprobe_ignored]); when overrides are attached only to functions without
    probes, a function has one override alone and is replaced, or any number of other probes. *)
Theorem probe_session_refines calls s :
  fr_ok s -> fr_next_id s + Z.of_nat (length calls) < 2 ^ 31 - 1 ->
  exists s', session calls s = Some ((spec_session calls (table_of s)).1, s') /\ fr_ok s' /\
    table_of s' = (spec_session calls (table_of s)).2 /\
    (exclusive (table_of s) -> all_overrides_alone calls (table_of s) -> exclusive (table_of s')).
Proof.
  intros Hs Hn. destruct (session_spec calls s Hs Hn) as (s' & Hr & Hs' & Heq). exists s'. split_and!; [done..|].
  rewrite Heq. apply spec_session_exclusive.
Qed.
End sessions.

(** ** Private data *)

Lemma split_last_app d (m r : text) : d ∉ r -> split_last d (m ++ d :: r) = Some (m, r).
Proof.
  intros Hr. assert (split_last d r = None) as Hn.
  { induction r as [|a r IH]; [done|]. apply not_elem_of_cons in Hr as [Ha Hr]. simpl. rewrite IH by done. by rewrite bool_decide_eq_false_2 by congruence. }
  induction m as [|a m IH]; simpl; [by rewrite Hn, bool_decide_eq_true_2|]. by rewrite IH.
Qed.

(** A module and an offset as the attach context writes them give the address in that module. *)
Lemma initialize_uprobe exec_path equivalent base_addr (m : text) off b :
  0 <= off < 2 ^ 64 -> equivalent m exec_path = Some b ->
  fr_initialize_from_string exec_path equivalent base_addr (m ++ ":"%char :: chars (pretty off)) =
  let base := if (b : bool) then base_addr [] else base_addr m in
  Some (0, Some (FridaData (if base =? 0 then 0 else u64 (base + off)) m)).
Proof.
  intros Hoff Heq. unfold fr_initialize_from_string. destruct (pretty_digits off) as (ds & -> & Hne & Hall & Hr); [lia|].
  rewrite split_last_app. 2: { rewrite Forall_forall in Hall. intros Hin. by specialize (Hall _ Hin). }
  rewrite bool_decide_eq_false_2 by done. specialize (Hr []). rewrite app_nil_r in Hr.
  assert (stoul ds = Some off) as ->; [|cbn [mbind option_bind]; unfold resolve_function_addr_by_module_offset; by rewrite Heq].
  destruct ds as [|a ds]; [done|]. apply Forall_cons in Hall as [Ha _]. unfold stoul. cbn [skip_spaces].
  rewrite (digit_not_space a Ha), digit_no_sign by done. rewrite Hr. cbn [digits mbind option_bind fmap option_fmap option_map].
  by rewrite (proj2 (Z.ltb_lt _ _)) by lia.
Qed.

(** The registers survive the way to the program and back. *)
Lemma registers_round_trip c regs c' :
  convert_pt_regs_to_gum_cpu_context (convert_gum_cpu_context_to_pt_regs c regs) c' = c.
Proof. by destruct c. Qed.

(** ** Where hooks miss *)

(** The check for an existing override looks only at what is there: an override that comes after
    a uprobe is accepted, but the function keeps its listener, which runs no overrides. *)
Lemma override_after_uprobe_ignored :
  let calls := [Attach 5 (CallbackVariant ATTACH_UPROBE_INDEX 1); Attach 5 (CallbackVariant ATTACH_UPROBE_OVERRIDE_INDEX 2)] in
  exists s, session (fun _ => 0) (fun _ => 0) calls frida_attach_new = Some ([Returns 1 0; Returns 2 0], s) /\ overridden s 5 = true /\
    fr_hooks s !! 5 = Some GumListener /\
    forall c regs, uprobe_listener_on_enter (fun cb r w => (w ++ [cb], [], 0, 0)) 5 c regs (mk_thread s None []) 0 = Ok tt (mk_thread s None [1]) 0.
Proof. eexists. split; [by vm_compute|]. split_and!; [by vm_compute..|]. intros c regs. by vm_compute. Qed.

(** The thread keeps the override callback of a call: after the hook is destroyed, a program at
    another function that sets a result writes into the freed entry. *)
Lemma override_callback_dangles :
  let setter cb (regs : pt_regs) (w : list Z) := (w, [(0, 9)], 0, 0) : list Z * list (Z * Z) * Z * Z in
  let orig (f : Z) (args w : list Z) := (0, w) in
  exists s, session (fun _ => 0) (fun _ => 0)
      [Attach 5 (CallbackVariant ATTACH_UPROBE_OVERRIDE_INDEX 2); Attach 6 (CallbackVariant ATTACH_UPROBE_INDEX 1)] frida_attach_new = Some ([Returns 1 0; Returns 2 0], s) /\
    forall c regs, exists t s', override_handler setter orig 5 c regs [] (mk_thread s None []) 0 = Ok 9 t 0 /\
      fr_detach_by_id 1 (ft_impl t) 0 = Ok 0 s' 0 /\
      uprobe_listener_on_enter setter 6 c regs (mk_thread s' (ft_override t) []) 0 = Ub "hook destroyed".
Proof. eexists. split; [by vm_compute|]. intros c regs. eexists _, _. split_and!; by vm_compute. Qed.

(** ** Witnesses *)

Definition sample_calls : list (probe_call (C := Z)) :=
  [Attach 5 (CallbackVariant ATTACH_UPROBE_INDEX 10); Attach 5 (EbpfCallbackArgs 11 false ATTACH_URETPROBE);
   Attach 5 (CallbackVariant ATTACH_UPROBE_INDEX 12); Attach 7 (CallbackVariant ATTACH_UPROBE_INDEX 13); Detach 4; Attach 0 (CallbackVariant 0 1)].
Definition gum_ok (f : Z) : Z := 0.
Definition sample_frida : frida_attach_impl Z := default frida_attach_new (snd <$> session gum_ok gum_ok sample_calls frida_attach_new).

Lemma probe_session_refines_witness :
  exists s', session gum_ok gum_ok sample_calls frida_attach_new =
      Some ([Returns 1 0; Returns 2 0; Returns 3 0; Returns 4 0; Returns 0 0; Returns (-22) 0], s') /\ fr_ok s' /\
    fr_next_id s' = 5 /\ size (fr_attaches s') = 3%nat /\ fr_hooks s' = {[5 := GumListener]}.
Proof.
  destruct (probe_session_refines gum_ok gum_ok sample_calls frida_attach_new frida_attach_new_ok) as (s' & Hr & Hs' & Heq & _); [by vm_compute|].
  exists s'. split_and!; [rewrite Hr; by vm_compute|exact Hs'|..].
  - change (fr_next_id s') with (tb_next (table_of s')). rewrite Heq. by vm_compute.
  - change (fr_attaches s') with (tb_probes (table_of s')). rewrite Heq. by vm_compute.
  - change (fr_hooks s') with (tb_hooks (table_of s')). rewrite Heq. by vm_compute.
Defined.

Lemma sample_frida_ok : fr_ok sample_frida.
Proof.
  destruct (session_spec gum_ok gum_ok sample_calls frida_attach_new frida_attach_new_ok) as (s' & Hr & Hs' & _); [by vm_compute|].
  unfold sample_frida. by rewrite Hr.
Qed.

(** Notes the probe and its first argument. *)
Definition log_cb (cb : Z) (regs : pt_regs) (w : list Z) : list Z * list (Z * Z) * Z * Z := (w ++ [cb; r_di regs], [], 0, 0).
Definition sample_cpu : GumX64CpuContext := mk_gum_cpu 1 2 3 4 5 6 7 8 9 10 11 12 13 14 15 16 17.
Definition no_regs : pt_regs := mk_regs 0 0 0 0 0 0 0 0 0 0 0 0 0 0 0 0 0 0 0 0 0.

Lemma listener_runs_probes_witness :
  let t := mk_thread sample_frida None [] in
  uprobe_listener_on_enter log_cb 5 sample_cpu no_regs t 0 = Ok tt (mk_thread sample_frida None [10; 10; 12; 10]) 0 /\
  uprobe_listener_on_leave log_cb 5 sample_cpu no_regs t 0 = Ok tt (mk_thread sample_frida None [11; 10]) 0.
Proof.
  intros t. destruct (listener_runs_probes log_cb t 5 sample_cpu no_regs 0) as (regs & ((Hdi & _) & _) & He & Hl & _);
    [apply sample_frida_ok|by vm_compute|].
  rewrite He, Hl. destruct regs. cbn in Hdi. subst. split; by vm_compute.
Defined.

Lemma override_decides_witness :
  exists s', attach_at gum_ok gum_ok 9 (EbpfCallbackArgs 3 true ATTACH_UPROBE_OVERRIDE) sample_frida 0 = Ok 5 s' 0 /\
    exists t', override_handler (fun cb r (w : list Z) => (w ++ [cb], [], 0, 77)) (fun f a w => (1, w)) 9 sample_cpu no_regs [] (mk_thread s' None []) 0 = Ok 77 t' 0.
Proof.
  destruct (override_decides (fun cb r (w : list Z) => (w ++ [cb], [], 0, 77)) (fun f a w => (1, w)) gum_ok gum_ok sample_frida 9
    (EbpfCallbackArgs 3 true ATTACH_UPROBE_OVERRIDE) 0) as (s' & Ha & _ & _ & _ & Hrun); [apply sample_frida_ok|by vm_compute|done|by vm_compute|done|done|].
  exists s'. split; [exact Ha|]. destruct (Hrun None [] sample_cpu no_regs [] 0) as (t' & _ & Hr & _). by exists t'.
Defined.
