(* ===== verification/PosCheckpoint.v ===== *)
(** The checkpoint slots of PhoenixOS (runtime/pos/include/checkpoint.h and
    src/checkpoint_enable.cpp): the bag of versions of a handle's state, with the cache of slots
    for reuse, and the operations of handles that fill it (src/handle.cpp and
    cuda_impl/src/handle/memory.cpp). *)
From Stdlib Require Import ZArith Lia.
From stdpp Require Import base list gmap strings sorting.
From S2P Require Import Prelude SyscallTrace.
Local Open Scope Z_scope.

(** ** Data *)

Inductive pos_retval :=
  | POS_SUCCESS | POS_WARN_DUPLICATED | POS_WARN_NOT_READY | POS_WARN_ABANDONED | POS_WARN_BLOCKED
  | POS_FAILED | POS_FAILED_NOT_EXIST | POS_FAILED_ALREADY_EXIST | POS_FAILED_INVALID_INPUT
  | POS_FAILED_DRAIN | POS_FAILED_NOT_READY | POS_FAILED_TIMEOUT | POS_FAILED_NOT_IMPLEMENTED
  | POS_FAILED_NOT_ENABLED | POS_FAILED_INCORRECT_OUTPUT | POS_FAILED_NETWORK | POS_FAILED_DRIVER
  | POS_FAILED_OOM.
#[export] Instance pos_retval_eq_dec : EqDecision pos_retval.
Proof. solve_decision. Defined.

(** The position of a slot and the kind of state in it; a device slot for host state is
    excluded by the static assertions. *)
Inductive slot_kind := DeviceSlotDeviceState | HostSlotDeviceState | HostSlotHostState.
#[export] Instance slot_kind_eq_dec : EqDecision slot_kind.
Proof. solve_decision. Defined.

(** A byte that was never written is [None]. *)
Record POSCheckpointSlot := mk_slot { state_size : Z; slot_data : list (option Z); slot_kind_of : slot_kind }.

(** The two maps and the version set of a kind; slots are named by their address. *)
Record slot_group := mk_group {
  active_map : gmap Z Z;
  cached_map : gmap Z Z;
  version_set : gset Z
}.

(** The bag. Its pointers to allocators and deallocators are the class [Allocator] of the
    operations; the flag [is_latest_ckpt_finished], set once to false, and the map
    [_host_ckpt_map], which nothing uses, are not fields of the model. *)
Record POSCheckpointBag := mk_bag {
  fixed_state_size : Z;
  group_dd : slot_group;
  group_hd : slot_group;
  group_hh : slot_group;
  bag_heap : gmap Z POSCheckpointSlot
}.

(** [begin()] of an [unordered_map]. *)
Class MapBegin := {
  map_begin : gmap Z Z -> option (Z * Z);
  map_begin_elem m k p : map_begin m = Some (k, p) -> m !! k = Some p;
  map_begin_empty m : map_begin m = None <-> m = ∅
}.

Section bag.
Context `{!Allocator, !MapBegin}.
Abbreviation B := (M POSCheckpointBag).
Implicit Types (b : POSCheckpointBag) (k : slot_kind).

Definition empty_group : slot_group := mk_group ∅ ∅ ∅.

Definition group k b : slot_group :=
  match k with DeviceSlotDeviceState => group_dd b | HostSlotDeviceState => group_hd b | HostSlotHostState => group_hh b end.
Definition set_group k (g : slot_group) b : POSCheckpointBag :=
  match k with
  | DeviceSlotDeviceState => mk_bag (fixed_state_size b) g (group_hd b) (group_hh b) (bag_heap b)
  | HostSlotDeviceState => mk_bag (fixed_state_size b) (group_dd b) g (group_hh b) (bag_heap b)
  | HostSlotHostState => mk_bag (fixed_state_size b) (group_dd b) (group_hd b) g (bag_heap b)
  end.
Definition set_heap (h : gmap Z POSCheckpointSlot) b : POSCheckpointBag :=
  mk_bag (fixed_state_size b) (group_dd b) (group_hd b) (group_hh b) h.

(** [insert] of an [unordered_map] keeps what is there. *)
Definition map_insert_new (v p : Z) (m : gmap Z Z) : gmap Z Z :=
  match m !! v with Some _ => m | None => <[v := p]> m end.

(** ** Operations *)

Definition new_slot k (size : Z) : B Z :=
  b ← get;
  let p := alloc (dom (bag_heap b)) in
  put (set_heap (<[p := mk_slot size (replicate (Z.to_nat size) None) k]> (bag_heap b)) b);;
  mret p.

(** The slot that is used for a new version, taken out of the map that held it. *)
Definition take_slot k (size : Z) (force_overwrite : bool) : B Z :=
  b ← get;
  let g := group k b in
  match map_begin (cached_map g) with
  | Some (v, p) => put (set_group k (mk_group (active_map g) (delete v (cached_map g)) (version_set g)) b);; mret p
  | None =>
      match (if force_overwrite then map_begin (active_map g) else None) with
      | Some (old_version, p) =>
          put (set_group k (mk_group (delete old_version (active_map g)) (cached_map g) (version_set g ∖ {[old_version]})) b);;
          mret p
      | None => new_slot k size
      end
  end.

Definition record_version k (version p : Z) : B unit :=
  modify (fun b => let g := group k b in
    set_group k (mk_group (map_insert_new version p (active_map g)) (cached_map g) ({[version]} ∪ version_set g)) b).

(** The result, and the slot when there is one. *)
Definition apply_checkpoint_slot k (version dynamic_state_size : Z) (force_overwrite : bool) : B (pos_retval * option Z) :=
  b ← get;
  let size := if 0 <? dynamic_state_size then dynamic_state_size else fixed_state_size b in
  if size =? 0 then mret (POS_FAILED_INVALID_INPUT, None)
  else
    p ← take_slot k size force_overwrite;
    record_version k version p;;
    mret (POS_SUCCESS, Some p).

Definition get_checkpoint_slot k (version : Z) b : pos_retval * option Z :=
  let g := group k b in
  if bool_decide (version_set g = ∅) then (POS_FAILED_NOT_READY, None)
  else match active_map g !! version with
       | Some p => (POS_SUCCESS, Some p)
       | None => (POS_FAILED_NOT_EXIST, None)
       end.

Definition get_all_scheckpoint_slots k b : list Z := (map_to_list (active_map (group k b))).*2.
Definition get_nb_checkpoint_slots k b : Z := Z.of_nat (size (active_map (group k b))).
Definition get_checkpoint_version_set k b : gset Z := version_set (group k b).

(** A sum of 64 bits; none for a slot that is gone. *)
Definition get_memory_consumption k b : option Z :=
  foldr (fun p acc => acc ← acc; s ← bag_heap b !! p; Some (u64 (acc + state_size s))) (Some 0) (get_all_scheckpoint_slots k b).

Definition invalidate_by_version k (version : Z) : B pos_retval :=
  b ← get;
  match get_checkpoint_slot k version b with
  | (POS_SUCCESS, Some p) =>
      let g := group k b in
      put (set_group k (mk_group (delete version (active_map g)) (map_insert_new version p (cached_map g)) (version_set g ∖ {[version]})) b);;
      mret POS_SUCCESS
  | (r, _) => mret r
  end.

Fixpoint invalidate_versions k (versions : list Z) : B pos_retval :=
  match versions with
  | [] => mret POS_SUCCESS
  | v :: versions' =>
      r ← invalidate_by_version k v;
      if decide (r = POS_SUCCESS) then invalidate_versions k versions' else mret r
  end.
Definition invalidate_all_version k : B pos_retval :=
  b ← get; invalidate_versions k (merge_sort Z.le (elements (get_checkpoint_version_set k b))).

(** Only the host slots for device state are deleted. *)
Definition clear : B unit :=
  modify (fun b =>
    let gone := (map_to_list (active_map (group_hd b))).*2 ++ (map_to_list (cached_map (group_hd b))).*2 in
    set_group HostSlotDeviceState empty_group (set_heap (foldl (fun h p => delete p h) (bag_heap b) gone) b)).

(** [memcpy] to and from a slot. *)
Definition write_slot (p : Z) (data : list (option Z)) : B unit :=
  b ← get;
  s ← need "slot released" (bag_heap b !! p);
  if (length data <=? length (slot_data s))%nat
  then put (set_heap (<[p := mk_slot (state_size s) (data ++ drop (length data) (slot_data s)) (slot_kind_of s)]> (bag_heap b)) b)
  else ub "memcpy beyond the slot".

Definition read_slot (p : Z) (n : nat) : B (list (option Z)) :=
  b ← get;
  s ← need "slot released" (bag_heap b !! p);
  if (n <=? length (slot_data s))%nat then mret (take n (slot_data s)) else ub "memcpy beyond the slot".

Definition load (version : Z) (ckpt_data : bytes) : B pos_retval :=
  r ← apply_checkpoint_slot HostSlotDeviceState version 0 false;
  match r with
  | (POS_SUCCESS, Some p) =>
      b ← get;
      let n := Z.to_nat (fixed_state_size b) in
      if (n <=? length ckpt_data)%nat then write_slot p (Some <$> take n ckpt_data);; mret POS_SUCCESS
      else ub "memcpy beyond ckpt_data"
  | (err, _) => mret err
  end.

(** [POS_ASSERT]. *)
Definition pos_assert (c : bool) : B unit := if c then mret tt else throw "assertion failed".

(** The constructor; [prefill] when there are host allocators. *)
Definition bag_new (prefill : bool) (size : Z) : B unit :=
  put (mk_bag size empty_group empty_group empty_group ∅);;
  if prefill then
    r ← apply_checkpoint_slot HostSlotDeviceState 0 0 false;
    pos_assert (bool_decide (r.1 = POS_SUCCESS));;
    r ← invalidate_by_version HostSlotDeviceState 0;
    pos_assert (bool_decide (r = POS_SUCCESS))
  else mret tt.

(** ** Handles *)

(** [POSHandle::checkpoint_commit_host]. *)
Definition checkpoint_commit_host (version_id : Z) (data : bytes) : B pos_retval :=
  pos_assert (negb (bool_decide (data = [])));;
  r ← apply_checkpoint_slot HostSlotHostState version_id (Z.of_nat (length data)) false;
  match r with
  | (POS_SUCCESS, Some p) => write_slot p (Some <$> data);; mret POS_SUCCESS
  | _ => mret POS_FAILED
  end.

(** [cudaMemcpyAsync] to a slot and, when [is_sync], [cudaStreamSynchronize]. An asynchronous
    copy is done when the stream gets to it, which is before any later copy of the stream. After a
    failed synchronization the destination holds some bytes [dst]. *)
Inductive copy_outcome := CopyDone | CopyRefused | SyncFailed (dst : list (option Z)).

Definition cuda_copy (outcome : copy_outcome) (is_sync : bool) (p : Z) (src : B (list (option Z))) : B pos_retval :=
  match outcome with
  | CopyRefused => mret POS_FAILED
  | CopyDone => data ← src; write_slot p data;; mret POS_SUCCESS
  | SyncFailed dst =>
      data ← src;
      if is_sync then write_slot p (take (length data) dst);; mret POS_FAILED
      else write_slot p data;; mret POS_SUCCESS
  end.

(** [POSHandle_CUDA_Memory::__add]: the memory of the handle goes to a slot on the device. *)
Definition memory_add (version_id : Z) (memory : bytes) (outcome : copy_outcome) : B pos_retval :=
  r ← apply_checkpoint_slot DeviceSlotDeviceState version_id 0 true;
  match r with
  | (POS_SUCCESS, Some p) => cuda_copy outcome true p (mret (Some <$> memory))
  | _ => mret POS_FAILED
  end.

(** [POSHandle_CUDA_Memory::__commit]: to a slot on the host, from the memory or from the slot
    that [__add] filled; a missing one ends the program. *)
Definition memory_commit (version_id : Z) (memory : bytes) (from_cache is_sync : bool) (outcome : copy_outcome) : B pos_retval :=
  r ← apply_checkpoint_slot HostSlotDeviceState version_id 0 true;
  match r with
  | (POS_SUCCESS, Some p) =>
      if from_cache then
        b ← get;
        match get_checkpoint_slot DeviceSlotDeviceState version_id b with
        | (POS_SUCCESS, Some q) => cuda_copy outcome is_sync p (read_slot q (length memory))
        | _ => throw "no cache buffer with the version founded"
        end
      else cuda_copy outcome is_sync p (mret (Some <$> memory))
  | _ => mret POS_FAILED
  end.

(** [POSHandle_CUDA_Memory::__get_checkpoint_slot_for_persist]. *)
Definition get_checkpoint_slot_for_persist (version_id : Z) b : pos_retval * option Z :=
  get_checkpoint_slot HostSlotDeviceState version_id b.

(** A call on the bag of a handle. *)
Inductive ckpt_op :=
  | Invalidate (k : slot_kind) (version : Z)
  | InvalidateAll (k : slot_kind)
  | Clear
  | Load (version : Z) (data : bytes)
  | CommitHost (version : Z) (data : bytes)
  | Add (version : Z) (memory : bytes) (outcome : copy_outcome)
  | Commit (version : Z) (memory : bytes) (from_cache is_sync : bool) (outcome : copy_outcome).

Definition exec_op (op : ckpt_op) : B pos_retval :=
  match op with
  | Invalidate k v => invalidate_by_version k v
  | InvalidateAll k => invalidate_all_version k
  | Clear => clear;; mret POS_SUCCESS
  | Load v data => load v data
  | CommitHost v data => checkpoint_commit_host v data
  | Add v memory outcome => memory_add v memory outcome
  | Commit v memory from_cache is_sync outcome => memory_commit v memory from_cache is_sync outcome
  end.

Fixpoint exec_ops (ops : list ckpt_op) : B (list pos_retval) :=
  match ops with
  | [] => mret []
  | op :: ops' => r ← exec_op op; rs ← exec_ops ops'; mret (r :: rs)
  end.
End bag.

(** ** Contract

    For each kind of slot, the contents saved under the versions and the spare slots, also by
    version. *)
Abbreviation content := (list (option Z)).
Record store := mk_store { saved : gmap Z content; spare : gmap Z content }.

(** The slot used for a new version: a spare one, or with [force] that of some saved version, or
    a fresh one. *)
Inductive spec_take (force : bool) (size : Z) : store -> content -> store -> Prop :=
  | take_spare m X v c : X !! v = Some c -> spec_take force size (mk_store m X) c (mk_store m (delete v X))
  | take_saved m v c : force = true -> m !! v = Some c -> spec_take force size (mk_store m ∅) c (mk_store (delete v m) ∅)
  | take_fresh m : (force = true -> m = ∅) ->
      spec_take force size (mk_store m ∅) (replicate (Z.to_nat size) None) (mk_store m ∅).

(** A version that is saved keeps its slot. *)
Definition spec_put (v : Z) (c : content) (st : store) : store :=
  mk_store (match saved st !! v with Some _ => saved st | None => <[v := c]> (saved st) end) (spare st).

Definition overwrite (data c : content) : content := data ++ drop (length data) c.

(** Saving [data] as version [v]; a failed copy leaves [data] empty or partial. *)
Definition spec_save (force : bool) (size v : Z) (data : content) (st st' : store) : Prop :=
  exists c st1, spec_take force size st c st1 /\ st' = spec_put v (overwrite data c) st1.

Definition spec_invalidate (v : Z) (st : store) : pos_retval * store :=
  match saved st !! v with
  | Some c => (POS_SUCCESS, mk_store (delete v (saved st)) (match spare st !! v with Some _ => spare st | None => <[v := c]> (spare st) end))
  | None => (if decide (saved st = ∅) then POS_FAILED_NOT_READY else POS_FAILED_NOT_EXIST, st)
  end.

(** All of them; a slot whose version has a spare one is lost. *)
Definition spec_invalidate_all (st : store) : store := mk_store ∅ (spare st ∪ saved st).

(** What the copy put into the slot, and the result. *)
Definition copied (outcome : copy_outcome) (is_sync : bool) (data : content) : content * pos_retval :=
  match outcome with
  | CopyDone => (data, POS_SUCCESS)
  | CopyRefused => ([], POS_FAILED)
  | SyncFailed dst => if is_sync then (take (length data) dst, POS_FAILED) else (data, POS_SUCCESS)
  end.

Abbreviation stores := (slot_kind -> store).

(** [σ'] is [σ] but for the kind [k], where the store goes from [st] to [st']. *)
Definition changes (k : slot_kind) (σ σ' : stores) (R : store -> store -> Prop) : Prop :=
  R (σ k) (σ' k) /\ forall k', k' <> k -> σ' k' = σ k'.




(** ** The invariant *)

Definition slots_of (k : slot_kind) (cached : bool) (b : POSCheckpointBag) : gmap Z Z :=
  (if cached then cached_map else active_map) (group k b).

Record slot_ok (size : Z) (k : slot_kind) (s : POSCheckpointSlot) : Prop := {
  so_kind : slot_kind_of s = k;
  so_pos : 0 < state_size s;
  so_data : length (slot_data s) = Z.to_nat (state_size s);
  so_fixed : k <> HostSlotHostState -> state_size s = size
}.

Record bag_ok (b : POSCheckpointBag) : Prop := {
  bo_size : 0 < fixed_state_size b;
  bo_versions k : version_set (group k b) = dom (active_map (group k b));
  bo_slot k c v p : slots_of k c b !! v = Some p ->
    exists s, bag_heap b !! p = Some s /\ slot_ok (fixed_state_size b) k s;
  bo_once k c v k' c' v' p : slots_of k c b !! v = Some p -> slots_of k' c' b !! v' = Some p ->
    k = k' /\ c = c' /\ v = v'
}.

Definition content_of (b : POSCheckpointBag) (p : Z) : option content := slot_data <$> bag_heap b !! p.
Definition view (b : POSCheckpointBag) : stores := fun k =>
  mk_store (omap (content_of b) (active_map (group k b))) (omap (content_of b) (cached_map (group k b))).

Section bag_lemmas.
Implicit Types (b : POSCheckpointBag) (k : slot_kind).

Lemma group_set_group k k' g b : group k' (set_group k g b) = if decide (k' = k) then g else group k' b.
Proof. by destruct k, k'. Qed.
Lemma heap_set_group k g b : bag_heap (set_group k g b) = bag_heap b.
Proof. by destruct k. Qed.
Lemma size_set_group k g b : fixed_state_size (set_group k g b) = fixed_state_size b.
Proof. by destruct k. Qed.
Lemma group_set_heap k h b : group k (set_heap h b) = group k b.
Proof. by destruct k. Qed.

Lemma slots_set_group k k' g c b :
  slots_of k' c (set_group k g b) = if decide (k' = k) then (if c then cached_map g else active_map g) else slots_of k' c b.
Proof. unfold slots_of. rewrite group_set_group. case_decide; by destruct c. Qed.
Lemma slots_set_heap k h c b : slots_of k c (set_heap h b) = slots_of k c b.
Proof. unfold slots_of. by rewrite group_set_heap. Qed.

(** The invariant of a bag in which every slot has an owner it had before, or is new. *)
Lemma bag_ok_intro b b' :
  bag_ok b -> fixed_state_size b' = fixed_state_size b ->
  (forall k, version_set (group k b') = dom (active_map (group k b'))) ->
  (forall k c v p, slots_of k c b' !! v = Some p -> exists s, bag_heap b' !! p = Some s /\ slot_ok (fixed_state_size b) k s) ->
  (forall k c v k' c' v' p, slots_of k c b' !! v = Some p -> slots_of k' c' b' !! v' = Some p -> k = k' /\ c = c' /\ v = v') ->
  bag_ok b'.
Proof. intros [Hs _ _ _] Hf Hv Ho Hn. split; rewrite ?Hf; auto. Qed.

(** A view depends only on the slots it shows. *)
Lemma view_eq b b' k :
  group k b' = group k b ->
  (forall c v p, slots_of k c b !! v = Some p -> bag_heap b' !! p = bag_heap b !! p) ->
  view b' k = view b k.
Proof.
  intros Hg Hh. unfold view. rewrite Hg. f_equal; apply omap_ext; intros v p Hp; unfold content_of.
  - by rewrite (Hh false v p).
  - by rewrite (Hh true v p).
Qed.

Lemma view_saved b k v : saved (view b k) !! v = active_map (group k b) !! v ≫= content_of b.
Proof. apply lookup_omap. Qed.
Lemma view_spare b k v : spare (view b k) !! v = cached_map (group k b) !! v ≫= content_of b.
Proof. apply lookup_omap. Qed.

Lemma view_saved_is_Some b k v : bag_ok b -> is_Some (saved (view b k) !! v) <-> is_Some (active_map (group k b) !! v).
Proof.
  intros Hb. rewrite view_saved. split; [by intros [? (p & -> & _)%bind_Some]|].
  intros [p Hp]. rewrite Hp. destruct (bo_slot b Hb k false v p Hp) as (s & Hs & _). exists (slot_data s). simpl. unfold content_of. by rewrite Hs.
Qed.

Lemma view_saved_None b k v : bag_ok b -> active_map (group k b) !! v = None <-> saved (view b k) !! v = None.
Proof. intros Hb. pose proof (view_saved_is_Some b k v Hb). rewrite !eq_None_not_Some. tauto. Qed.

Lemma view_spare_is_Some b k v : bag_ok b -> is_Some (spare (view b k) !! v) <-> is_Some (cached_map (group k b) !! v).
Proof.
  intros Hb. rewrite view_spare. split; [by intros [? (p & -> & _)%bind_Some]|].
  intros [p Hp]. rewrite Hp. destruct (bo_slot b Hb k true v p Hp) as (s & Hs & _). exists (slot_data s). simpl. unfold content_of. by rewrite Hs.
Qed.

Lemma view_saved_empty b k : bag_ok b -> saved (view b k) = ∅ <-> active_map (group k b) = ∅.
Proof.
  intros Hb. rewrite !map_empty. setoid_rewrite <- (view_saved_None b k _ Hb). done.
Qed.

(** ** Taking slots out *)

(** The group without the slot of a version. *)
Definition forget (c : bool) (v : Z) (g : slot_group) : slot_group :=
  if c then mk_group (active_map g) (delete v (cached_map g)) (version_set g)
  else mk_group (delete v (active_map g)) (cached_map g) (version_set g ∖ {[v]}).
Definition forget_view (c : bool) (v : Z) (st : store) : store :=
  if c then mk_store (saved st) (delete v (spare st)) else mk_store (delete v (saved st)) (spare st).

Lemma forget_ok k c v p b (b' := set_group k (forget c v (group k b)) b) :
  bag_ok b -> slots_of k c b !! v = Some p ->
  bag_ok b' /\ (forall k' c v', slots_of k' c b' !! v' <> Some p) /\
  (forall k', k' <> k -> view b' k' = view b k') /\ view b' k = forget_view c v (view b k).
Proof.
  intros Hb Hp.
  assert (forall k' c' v' p', slots_of k' c' b' !! v' = Some p' ->
    slots_of k' c' b !! v' = Some p' /\ (k', c', v') <> (k, c, v)) as Hsub.
  { intros k' c' v' p'. unfold b'. rewrite slots_set_group. case_decide as Hk; [subst k'|intros ?; split; [done|congruence]].
    destruct c, c'; cbn [forget cached_map active_map];
      first [intros [? ?]%lookup_delete_Some; split; [done|congruence]|intros ?; split; [done|congruence]]. }
  split_and!.
  - apply (bag_ok_intro b); [done|apply size_set_group|..].
    + intros k'. unfold b'. rewrite group_set_group. case_decide; [subst|apply (bo_versions b Hb)].
      destruct c; cbn [forget version_set active_map]; [apply (bo_versions b Hb)|by rewrite dom_delete_L, (bo_versions b Hb)].
    + intros k' c' v' p' [? _]%Hsub. unfold b'. rewrite heap_set_group. by eapply (bo_slot b Hb).
    + intros k1 c1 v1 k2 c2 v2 p' [? _]%Hsub [? _]%Hsub. by eapply (bo_once b Hb).
  - intros k' c' v' [Hv' Hne]%Hsub. apply Hne. by destruct (bo_once b Hb k' c' v' k c v p) as (-> & -> & ->).
  - intros k' Hk. apply view_eq; unfold b'; rewrite ?group_set_group, ?heap_set_group; [by rewrite decide_False|done].
  - unfold view, b'. rewrite group_set_group, decide_True by done.
    destruct c; cbn [forget forget_view active_map cached_map saved spare]; rewrite <- omap_delete;
      f_equal; apply omap_ext; intros; unfold content_of; by rewrite heap_set_group.
Qed.

(** ** Saving a version *)

(** The slot [p] with content [s] is in the hands of the caller. *)
Record lent k (p : Z) (s : POSCheckpointSlot) b : Prop := {
  le_ok : bag_ok b;
  le_free k' c v : slots_of k' c b !! v <> Some p;
  le_heap : bag_heap b !! p = Some s;
  le_slot : slot_ok (fixed_state_size b) k s
}.

(** The bag after recording [p] as version [v] and filling it with [d]. *)
Definition put_slot k (v p : Z) (s : POSCheckpointSlot) (d : content) b : POSCheckpointBag :=
  let g := group k b in
  set_group k (mk_group (map_insert_new v p (active_map g)) (cached_map g) ({[v]} ∪ version_set g))
    (set_heap (<[p := mk_slot (state_size s) d (slot_kind_of s)]> (bag_heap b)) b).

Lemma put_slots k v p s d b k' c v' p' :
  slots_of k' c (put_slot k v p s d b) !! v' = Some p' ->
  slots_of k' c b !! v' = Some p' \/
  (k', c, v', p') = (k, false, v, p) /\ active_map (group k b) !! v = None.
Proof.
  unfold put_slot. rewrite slots_set_group, slots_set_heap. case_decide as Hk; [subst k'|by left].
  destruct c; [by left|]. cbn [active_map]. unfold map_insert_new, slots_of.
  destruct (active_map (group k b) !! v) eqn:Hv; [by left|].
  intros [[<- <-]|[? ?]]%lookup_insert_Some; [by right|by left].
Qed.

Lemma put_slot_bag_ok k v p s d b :
  lent k p s b -> length d = length (slot_data s) -> bag_ok (put_slot k v p s d b).
Proof.
  intros [Hb Hfree Hp Hs] Hd. apply (bag_ok_intro b); [done|by unfold put_slot; rewrite size_set_group|..].
  - intros k'. unfold put_slot. rewrite group_set_group. case_decide; [subst|rewrite group_set_heap; apply (bo_versions b Hb)].
    cbn [version_set active_map]. rewrite (bo_versions b Hb). unfold map_insert_new.
    destruct (active_map (group k b) !! v) eqn:Hv; [apply elem_of_dom_2 in Hv; set_solver|by rewrite dom_insert_L].
  - intros k' c v' p' H. unfold put_slot. rewrite heap_set_group. cbn [bag_heap set_heap].
    destruct (put_slots _ _ _ _ _ _ _ _ _ _ H) as [H'|[[= -> -> -> ->] _]].
    + rewrite lookup_insert_ne by (intros ->; by eapply Hfree). by eapply (bo_slot b Hb).
    + rewrite lookup_insert_eq. eexists; split; [done|]. destruct Hs. split; cbn [slot_kind_of state_size slot_data]; [done..|by rewrite Hd|done].
  - intros k1 c1 v1 k2 c2 v2 p' H1 H2.
    destruct (put_slots _ _ _ _ _ _ _ _ _ _ H1) as [H1'|[Heq1 _]], (put_slots _ _ _ _ _ _ _ _ _ _ H2) as [H2'|[Heq2 _]];
      simplify_eq.
    + by eapply (bo_once b Hb).
    + by apply Hfree in H1'.
    + by apply Hfree in H2'.
    + done.
Qed.

Lemma put_slot_view k v p s d b : lent k p s b ->
  view (put_slot k v p s d b) k = spec_put v d (view b k) /\
  (forall k', k' <> k -> view (put_slot k v p s d b) k' = view b k').
Proof.
  intros [Hb Hfree Hp Hs].
  assert (forall k' c v' p', slots_of k' c b !! v' = Some p' ->
    content_of (put_slot k v p s d b) p' = content_of b p') as Hc.
  { intros k' c v' p' H. unfold content_of, put_slot. rewrite heap_set_group. cbn [bag_heap set_heap].
    by rewrite lookup_insert_ne by (intros ->; by eapply Hfree). }
  split.
  - unfold spec_put. destruct (saved (view b k) !! v) as [c|] eqn:Hv.
    + assert (is_Some (active_map (group k b) !! v)) as [q Hq] by (apply view_saved_is_Some; eauto).
      unfold view at 1. unfold put_slot at 2 4. rewrite group_set_group, decide_True by done. cbn [active_map cached_map].
      unfold map_insert_new. rewrite Hq. unfold view. cbn [saved spare].
      f_equal; apply omap_ext; intros v' p'; [apply (Hc k false)|apply (Hc k true)].
    + apply view_saved_None in Hv; [|done]. unfold view at 1. unfold put_slot at 2 4.
      rewrite group_set_group, decide_True by done. cbn [active_map cached_map]. unfold map_insert_new. rewrite Hv.
      unfold view. cbn [saved spare]. f_equal; [|apply omap_ext; intros v' p'; apply (Hc k true)].
      erewrite omap_insert_Some; [f_equal; apply omap_ext; intros v' p'; apply (Hc k false)|].
      unfold content_of, put_slot. rewrite heap_set_group. cbn [bag_heap set_heap]. by rewrite lookup_insert_eq.
  - intros k' Hk. unfold put_slot. apply view_eq.
    + by rewrite group_set_group, decide_False, group_set_heap.
    + intros c v' p' H. rewrite heap_set_group. cbn [bag_heap set_heap].
      by rewrite lookup_insert_ne by (intros ->; by eapply Hfree).
Qed.
End bag_lemmas.

Section saving.
Context `{!Allocator, !MapBegin}.
Implicit Types (b : POSCheckpointBag) (k : slot_kind).

Lemma new_slot_spec k size b e : bag_ok b -> 0 < size -> (k <> HostSlotHostState -> size = fixed_state_size b) ->
  exists p b', new_slot k size b e = Ok p b' e /\ fixed_state_size b' = fixed_state_size b /\
    lent k p (mk_slot size (replicate (Z.to_nat size) None) k) b' /\ (forall k', view b' k' = view b k').
Proof.
  intros Hb Hsize Hk. unfold new_slot. mbase. eexists _, _. split; [done|]. split; [done|].
  pose proof (alloc_fresh (dom (bag_heap b))) as Hfresh. set (p := alloc _) in *. apply not_elem_of_dom in Hfresh.
  assert (forall k' c v, slots_of k' c b !! v <> Some p) as Hfree.
  { intros k' c v Hv. destruct (bo_slot b Hb _ _ _ _ Hv) as (s & Hs & _). congruence. }
  split; [split|].
  - apply (bag_ok_intro b); [done|done|..].
    + intros k'. rewrite group_set_heap. apply (bo_versions b Hb).
    + intros k' c v p'. rewrite slots_set_heap. intros Hv. cbn [bag_heap set_heap].
      rewrite lookup_insert_ne by (intros <-; by eapply Hfree). by eapply (bo_slot b Hb).
    + intros k1 c1 v1 k2 c2 v2 p'. rewrite !slots_set_heap. apply (bo_once b Hb).
  - intros k' c v. rewrite slots_set_heap. apply Hfree.
  - cbn [bag_heap set_heap]. apply lookup_insert_eq.
  - split; cbn [slot_kind_of state_size slot_data fixed_state_size set_heap]; [done|done|apply length_replicate|done].
  - intros k'. apply view_eq; [apply group_set_heap|]. intros c v p' Hv. cbn [bag_heap set_heap].
    by rewrite lookup_insert_ne by (intros <-; by eapply Hfree).
Qed.

Lemma forget_lent k c v p b : bag_ok b -> slots_of k c b !! v = Some p ->
  exists s, content_of b p = Some (slot_data s) /\ lent k p s (set_group k (forget c v (group k b)) b).
Proof.
  intros Hb Hp. destruct (bo_slot b Hb _ _ _ _ Hp) as (s & Hs & Hok). destruct (forget_ok k c v p b Hb Hp) as (Hb' & Hfree & _).
  exists s. unfold content_of. rewrite Hs. split; [done|]. split; [done|done|by rewrite heap_set_group|by rewrite size_set_group].
Qed.

Lemma take_slot_spec k size force b e : bag_ok b -> 0 < size -> (k <> HostSlotHostState -> size = fixed_state_size b) ->
  exists p s b', take_slot k size force b e = Ok p b' e /\ fixed_state_size b' = fixed_state_size b /\ lent k p s b' /\
    (forall k', k' <> k -> view b' k' = view b k') /\ spec_take force size (view b k) (slot_data s) (view b' k).
Proof.
  intros Hb Hsize Hk. unfold take_slot. mbase. destruct (map_begin (cached_map (group k b))) as [[v p]|] eqn:Hc.
  - apply map_begin_elem in Hc. destruct (forget_lent k true v p b Hb Hc) as (s & Hs & Hl).
    destruct (forget_ok k true v p b Hb Hc) as (_ & _ & Ho & Hv).
    exists p, s, (set_group k (forget true v (group k b)) b). split_and!; [done|apply size_set_group|done|done|].
    assert (spare (view b k) !! v = Some (slot_data s)) as Hx by (by rewrite view_spare, Hc).
    rewrite Hv. destruct (view b k). by apply take_spare.
  - apply map_begin_empty in Hc.
    assert (spare (view b k) = ∅) as Hsp by (unfold view; cbn [spare]; by rewrite Hc, omap_empty).
    destruct (if force then map_begin (active_map (group k b)) else None) as [[v p]|] eqn:Ha.
    + destruct force; [|done]. apply map_begin_elem in Ha. destruct (forget_lent k false v p b Hb Ha) as (s & Hs & Hl).
      destruct (forget_ok k false v p b Hb Ha) as (_ & _ & Ho & Hv).
      exists p, s, (set_group k (forget false v (group k b)) b). split_and!; [done|apply size_set_group|done|done|].
      assert (saved (view b k) !! v = Some (slot_data s)) as Hx by (by rewrite view_saved, Ha).
      rewrite Hv. destruct (view b k) as [m X]. cbn [spare saved] in *. subst X. by apply take_saved.
    + destruct (new_slot_spec k size b e Hb Hsize Hk) as (p & b' & Hr & Hf & Hl & Hv).
      exists p, (mk_slot size (replicate (Z.to_nat size) None) k), b'. split_and!; [done|done|done|by intros k' _|].
      assert (force = true -> saved (view b k) = ∅) as Hx by (intros ->; by apply view_saved_empty, map_begin_empty).
      rewrite Hv. cbn [slot_data]. destruct (view b k) as [m X]. cbn [spare saved] in *. subst X. by apply take_fresh.
Qed.

(** A version applied for, the slot still as it was. *)
Lemma apply_spec k v dyn force b e (size := if 0 <? dyn then dyn else fixed_state_size b) :
  bag_ok b -> (k <> HostSlotHostState -> size = fixed_state_size b) ->
  exists p s bt, apply_checkpoint_slot k v dyn force b e = Ok (POS_SUCCESS, Some p) (put_slot k v p s (slot_data s) bt) e /\
    lent k p s bt /\ fixed_state_size bt = fixed_state_size b /\
    (forall k', k' <> k -> view bt k' = view b k') /\ spec_take force size (view b k) (slot_data s) (view bt k).
Proof.
  intros Hb Hk. pose proof (bo_size b Hb) as Hpos.
  assert (0 < size) as Hsize by (unfold size; destruct (Z.ltb_spec 0 dyn); lia).
  destruct (take_slot_spec k size force b e Hb Hsize Hk) as (p & s & bt & Ht & Hf & Hl & Ho & Hs).
  exists p, s, bt. split_and!; [|done..]. unfold apply_checkpoint_slot. mbase. fold size.
  rewrite (proj2 (Z.eqb_neq size 0)) by lia. cbv iota. rewrite Ht. unfold record_version, put_slot. mbase.
  f_equal. destruct s. cbn [state_size slot_data slot_kind_of]. rewrite insert_id by apply Hl. by destruct bt.
Qed.

Lemma put_slot_fixed k v p s d b : fixed_state_size (put_slot k v p s d b) = fixed_state_size b.
Proof. unfold put_slot. by rewrite size_set_group. Qed.

Lemma length_overwrite (data c : content) : (length data <= length c)%nat -> length (overwrite data c) = length c.
Proof. intros. unfold overwrite. rewrite length_app, length_drop. lia. Qed.


Lemma write_spec k v p s data b e : (length data <= length (slot_data s))%nat ->
  write_slot p data (put_slot k v p s (slot_data s) b) e = Ok tt (put_slot k v p s (overwrite data (slot_data s)) b) e.
Proof.
  intros Hd. unfold write_slot, put_slot. mbase. rewrite heap_set_group. cbn [bag_heap set_heap]. rewrite lookup_insert_eq.
  cbn [need]. mbase. cbn [slot_data state_size slot_kind_of]. rewrite (proj2 (Nat.leb_le _ _)) by done. f_equal.
  unfold overwrite. by destruct k; unfold set_heap, set_group; cbn -[insert]; rewrite insert_insert_eq.
Qed.

(** What a call that saves a version achieves, whatever it wrote into the slot. *)
Lemma put_slot_saves k v p s data force size b bt :
  lent k p s bt -> (length data <= length (slot_data s))%nat ->
  (forall k', k' <> k -> view bt k' = view b k') -> spec_take force size (view b k) (slot_data s) (view bt k) ->
  let b' := put_slot k v p s (overwrite data (slot_data s)) bt in
  bag_ok b' /\ changes k (view b) (view b') (spec_save force size v data).
Proof.
  intros Hl Hd Ho Ht b'. split; [apply put_slot_bag_ok; [done|by apply length_overwrite]|].
  destruct (put_slot_view k v p s (overwrite data (slot_data s)) bt Hl) as [Hv Ho']. split.
  - exists (slot_data s), (view bt k). split; [done|]. by unfold b'.
  - intros k' Hk. unfold b'. rewrite Ho' by done. by apply Ho.
Qed.

Lemma length_copied outcome is_sync data : (length (copied outcome is_sync data).1 <= length data)%nat.
Proof. destruct outcome as [| |dst]; simpl; [lia|lia|]. destruct is_sync; simpl; [rewrite length_take; lia|lia]. Qed.

Lemma cuda_copy_spec k v p s outcome is_sync src data b e (b1 := put_slot k v p s (slot_data s) b) :
  src b1 e = Ok data b1 e -> (length data <= length (slot_data s))%nat ->
  cuda_copy outcome is_sync p src b1 e =
    Ok (copied outcome is_sync data).2 (put_slot k v p s (overwrite (copied outcome is_sync data).1 (slot_data s)) b) e.
Proof.
  intros Hsrc Hd. pose proof (length_copied outcome is_sync data) as Hl.
  destruct outcome as [| |dst]; unfold cuda_copy; mbase; rewrite ?Hsrc; cbv beta iota; [..|destruct is_sync]; unfold b1;
    try (rewrite write_spec by (cbn [copied fst] in Hl; lia); done).
  done.
Qed.
End saving.

Section calls.
Context `{!Allocator, !MapBegin}.
Implicit Types (b : POSCheckpointBag) (k : slot_kind).

(** Keeping a slot for reuse. *)
Definition cache_slot k (v p : Z) b : POSCheckpointBag :=
  let g := group k b in set_group k (mk_group (active_map g) (map_insert_new v p (cached_map g)) (version_set g)) b.

Lemma cache_slots k v p b k' c v' p' :
  slots_of k' c (cache_slot k v p b) !! v' = Some p' ->
  slots_of k' c b !! v' = Some p' \/ (k', c, v', p') = (k, true, v, p).
Proof.
  unfold cache_slot. rewrite slots_set_group. case_decide as Hk; [subst k'|by left].
  destruct c; [|by left]. cbn [cached_map]. unfold map_insert_new, slots_of.
  destruct (cached_map (group k b) !! v) eqn:Hv; [by left|].
  intros [[<- <-]|[? ?]]%lookup_insert_Some; [by right|by left].
Qed.

Lemma cache_slot_ok k v p s b : lent k p s b ->
  bag_ok (cache_slot k v p b) /\ (forall k', k' <> k -> view (cache_slot k v p b) k' = view b k') /\
  view (cache_slot k v p b) k =
    mk_store (saved (view b k)) (match spare (view b k) !! v with Some _ => spare (view b k) | None => <[v := slot_data s]> (spare (view b k)) end).
Proof.
  intros [Hb Hfree Hp Hs]. split_and!.
  - apply (bag_ok_intro b); [done|apply size_set_group|..].
    + intros k'. unfold cache_slot. rewrite group_set_group. case_decide; [subst|]; apply (bo_versions b Hb).
    + intros k' c v' p' Hx. unfold cache_slot. rewrite heap_set_group.
      destruct (cache_slots _ _ _ _ _ _ _ _ Hx) as [H'|[= -> -> -> ->]]; [by eapply (bo_slot b Hb)|by eexists].
    + intros k1 c1 v1 k2 c2 v2 p' H1 H2.
      destruct (cache_slots _ _ _ _ _ _ _ _ H1) as [H1'|Heq1], (cache_slots _ _ _ _ _ _ _ _ H2) as [H2'|Heq2]; simplify_eq.
      * by eapply (bo_once b Hb).
      * by apply Hfree in H1'.
      * by apply Hfree in H2'.
      * done.
  - intros k' Hk. unfold cache_slot. apply view_eq; [by rewrite group_set_group, decide_False|by rewrite heap_set_group].
  - unfold view at 1, content_of, cache_slot. rewrite group_set_group, decide_True, heap_set_group by done.
    fold (content_of b). cbn [active_map cached_map]. f_equal. unfold map_insert_new.
    destruct (cached_map (group k b) !! v) as [q|] eqn:Hv.
    + assert (is_Some (spare (view b k) !! v)) as [c ->] by (apply view_spare_is_Some; eauto). done.
    + assert (spare (view b k) !! v = None) as -> by (by rewrite view_spare, Hv).
      erewrite omap_insert_Some; [done|]. unfold content_of. by rewrite Hp.
Qed.

Lemma get_slot_spec k v b : bag_ok b -> get_checkpoint_slot k v b =
  match active_map (group k b) !! v with
  | Some p => (POS_SUCCESS, Some p)
  | None => (if decide (saved (view b k) = ∅) then POS_FAILED_NOT_READY else POS_FAILED_NOT_EXIST, None)
  end.
Proof.
  intros Hb. unfold get_checkpoint_slot. rewrite (bo_versions b Hb).
  case_bool_decide as Hd.
  - apply dom_empty_inv_L in Hd. rewrite Hd, lookup_empty, decide_True; [done|]. by apply view_saved_empty.
  - destruct (active_map (group k b) !! v); [done|]. rewrite decide_False; [done|].
    intros He%view_saved_empty; [|done]. apply Hd. rewrite He. apply dom_empty_L.
Qed.

Lemma invalidate_spec k v b e : bag_ok b ->
  exists r b', invalidate_by_version k v b e = Ok r b' e /\ bag_ok b' /\ fixed_state_size b' = fixed_state_size b /\
    changes k (view b) (view b') (fun st st' => (r, st') = spec_invalidate v st).
Proof.
  intros Hb. unfold invalidate_by_version. mbase. rewrite get_slot_spec by done.
  destruct (active_map (group k b) !! v) as [p|] eqn:Hv.
  - destruct (forget_lent k false v p b Hb Hv) as (s & Hs & Hl).
    destruct (forget_ok k false v p b Hb Hv) as (_ & _ & Ho & Hf).
    destruct (cache_slot_ok k v p s _ Hl) as (Hok & Ho' & Hc).
    eexists POS_SUCCESS, (cache_slot k v p (set_group k (forget false v (group k b)) b)). split_and!.
    + f_equal. unfold cache_slot, forget. by destruct k.
    + done.
    + unfold cache_slot. by rewrite !size_set_group.
    + split; [|intros k' Hk; by rewrite Ho', Ho].
      unfold spec_invalidate. assert (saved (view b k) !! v = Some (slot_data s)) as -> by (by rewrite view_saved, Hv).
      by rewrite Hc, Hf.
  - exists (if decide (saved (view b k) = ∅) then POS_FAILED_NOT_READY else POS_FAILED_NOT_EXIST), b.
    split; [by destruct (decide (saved (view b k) = ∅))|]. split_and!; [done|done|]. split; [|done].
    unfold spec_invalidate. by rewrite view_saved, Hv.
Qed.

Lemma spec_invalidate_fold vs st : NoDup vs -> list_to_set vs = dom (saved st) ->
  foldl (fun st v => (spec_invalidate v st).2) st vs = spec_invalidate_all st.
Proof.
  revert st. induction vs as [|v vs IH]; intros st Hn Hd; simpl.
  - symmetry in Hd. apply dom_empty_inv_L in Hd. unfold spec_invalidate_all. rewrite Hd. destruct st as [m X]; simpl in *. subst. by rewrite map_union_empty.
  - apply NoDup_cons in Hn as [Hv Hn]. assert (is_Some (saved st !! v)) as [c Hc] by (apply elem_of_dom; set_solver).
    unfold spec_invalidate at 2. rewrite Hc. cbn [snd]. rewrite IH; [|done|].
    + unfold spec_invalidate_all. cbn [saved spare]. f_equal. apply map_eq. intros w. rewrite !lookup_union.
      destruct (decide (v = w)) as [<-|Hw].
      * rewrite lookup_delete_eq, Hc. destruct (spare st !! v) eqn:Hs; [by rewrite Hs|by rewrite lookup_insert_eq].
      * rewrite lookup_delete_ne by done. destruct (spare st !! v); [done|by rewrite lookup_insert_ne].
    + cbn [saved]. rewrite dom_delete_L, <- Hd. simpl. set_solver.
Qed.

Lemma invalidate_versions_spec k vs b e : bag_ok b -> NoDup vs -> list_to_set vs ⊆ dom (saved (view b k)) ->
  exists b', invalidate_versions k vs b e = Ok POS_SUCCESS b' e /\ bag_ok b' /\ fixed_state_size b' = fixed_state_size b /\
    changes k (view b) (view b') (fun st st' => st' = foldl (fun st v => (spec_invalidate v st).2) st vs).
Proof.
  revert b. induction vs as [|v vs IH]; intros b Hb Hn Hd; cbn [invalidate_versions].
  - exists b. done.
  - apply NoDup_cons in Hn as [Hv Hn]. assert (is_Some (saved (view b k) !! v)) as [c Hc] by (apply elem_of_dom; set_solver).
    destruct (invalidate_spec k v b e Hb) as (r & b1 & Hr & Hb1 & Hf1 & Hc1 & Ho1). mbase. rewrite Hr. cbv beta iota.
    assert (r = POS_SUCCESS) as -> by (unfold spec_invalidate in Hc1; rewrite Hc in Hc1; congruence).
    rewrite decide_True by done. destruct (IH b1) as (b' & Hr' & Hb' & Hf' & Hc' & Ho'); [done|done|..].
    { assert (view b1 k = (spec_invalidate v (view b k)).2) as -> by (by rewrite <- Hc1).
      unfold spec_invalidate. rewrite Hc. cbn [snd saved]. rewrite dom_delete_L. set_solver. }
    exists b'. split_and!; [done|done|congruence|]. split; [|intros k' Hk; by rewrite Ho', Ho1].
    rewrite Hc'. cbn [foldl]. by rewrite <- Hc1.
Qed.

Lemma invalidate_all_spec k b e : bag_ok b ->
  exists b', invalidate_all_version k b e = Ok POS_SUCCESS b' e /\ bag_ok b' /\ fixed_state_size b' = fixed_state_size b /\
    changes k (view b) (view b') (fun st st' => st' = spec_invalidate_all st).
Proof.
  intros Hb. unfold invalidate_all_version. mbase. set (vs := merge_sort _ _).
  assert (vs ≡ₚ elements (get_checkpoint_version_set k b)) as Hp by apply merge_sort_Permutation.
  assert (list_to_set vs = dom (saved (view b k))) as Hd.
  { apply set_eq. intros v. rewrite elem_of_list_to_set, Hp, elem_of_elements. unfold get_checkpoint_version_set.
    rewrite (bo_versions b Hb), !elem_of_dom. by rewrite view_saved_is_Some. }
  assert (NoDup vs) as Hn by (rewrite Hp; apply NoDup_elements).
  destruct (invalidate_versions_spec k vs b e Hb Hn) as (b' & Hr & Hb' & Hf & Hc & Ho); [by rewrite Hd|].
  exists b'. split_and!; [done|done|done|]. split; [|done]. rewrite Hc. by apply spec_invalidate_fold.
Qed.

Lemma lookup_foldl_delete {A} (h : gmap Z A) ps p :
  foldl (fun h p => delete p h) h ps !! p = if decide (p ∈ ps) then None else h !! p.
Proof.
  revert h. induction ps as [|q ps IH]; intros h; cbn [foldl]; [by destruct (decide (p ∈ [])); set_solver|].
  rewrite IH. destruct (decide (p = q)) as [->|Hne].
  - rewrite lookup_delete_eq. destruct (decide (q ∈ q :: ps)); [by case_decide|set_solver].
  - rewrite lookup_delete_ne by done. by destruct (decide (p ∈ ps)), (decide (p ∈ q :: ps)); set_solver.
Qed.

Lemma elem_of_map_values (m : gmap Z Z) p : p ∈ (map_to_list m).*2 <-> exists v, m !! v = Some p.
Proof.
  rewrite list_elem_of_fmap. split.
  - intros ([v q] & -> & Hv%elem_of_map_to_list). eauto.
  - intros [v Hv]. exists (v, p). split; [done|by apply elem_of_map_to_list].
Qed.

Lemma clear_spec b e : bag_ok b ->
  exists b', clear b e = Ok tt b' e /\ bag_ok b' /\ fixed_state_size b' = fixed_state_size b /\
    changes HostSlotDeviceState (view b) (view b') (fun _ st' => st' = mk_store ∅ ∅).
Proof.
  intros Hb. unfold clear. mbase. set (gone := _ ++ _). eexists. split; [done|]. set (b' := set_group _ _ _).
  assert (forall k c v p, slots_of k c b' !! v = Some p ->
    k <> HostSlotDeviceState /\ slots_of k c b !! v = Some p /\ bag_heap b' !! p = bag_heap b !! p) as Hsub.
  { intros k c v p. unfold b'. rewrite slots_set_group, heap_set_group. case_decide as Hk; [by destruct c|].
    rewrite slots_set_heap. intros Hv. split_and!; [done|done|]. cbn [bag_heap set_heap]. rewrite lookup_foldl_delete, decide_False; [done|].
    unfold gone. rewrite elem_of_app, !elem_of_map_values. intros [[w Hw]|[w Hw]]; apply Hk.
    - by destruct (bo_once b Hb k c v HostSlotDeviceState false w p) as (-> & _).
    - by destruct (bo_once b Hb k c v HostSlotDeviceState true w p) as (-> & _). }
  assert (forall k, k <> HostSlotDeviceState -> group k b' = group k b) as Hg.
  { intros k Hk. unfold b'. by rewrite group_set_group, decide_False, group_set_heap. }
  split_and!.
  - apply (bag_ok_intro b); [done|done|..].
    + intros k. destruct (decide (k = HostSlotDeviceState)) as [->|Hk]; [symmetry; apply dom_empty_L|].
      rewrite Hg by done. apply (bo_versions b Hb).
    + intros k c v p (_ & Hv & Hh)%Hsub. rewrite Hh. by eapply (bo_slot b Hb).
    + intros k1 c1 v1 k2 c2 v2 p (_ & H1 & _)%Hsub (_ & H2 & _)%Hsub. by eapply (bo_once b Hb).
  - done.
  - split.
    + unfold view, b'. rewrite group_set_group, decide_True by done. cbn [active_map cached_map empty_group]. by rewrite !omap_empty.
    + intros k Hk. apply view_eq; [by apply Hg|]. intros c v p Hv. apply (Hsub k c v p).
      unfold slots_of. rewrite Hg by done. exact Hv.
Qed.

Lemma saved_content k v c b : bag_ok b -> saved (view b k) !! v = Some c ->
  exists p s, active_map (group k b) !! v = Some p /\ bag_heap b !! p = Some s /\ slot_ok (fixed_state_size b) k s /\ slot_data s = c.
Proof.
  intros Hb. rewrite view_saved. intros (p & Hp & Hc)%bind_Some. unfold content_of in Hc. apply fmap_Some in Hc as (s & Hs & ->).
  destruct (bo_slot b Hb k false v p Hp) as (s' & Hs' & Hok). exists p, s. simplify_eq. done.
Qed.

(** Contents of device state have the fixed size. *)
Lemma saved_length k v c b : bag_ok b -> k <> HostSlotHostState -> saved (view b k) !! v = Some c ->
  length c = Z.to_nat (fixed_state_size b).
Proof.
  intros Hb Hk Hc. destruct (saved_content k v c b Hb Hc) as (p & s & _ & _ & Hok & <-).
  by rewrite (so_data _ _ _ Hok), (so_fixed _ _ _ Hok).
Qed.

Lemma lent_length k p s b : lent k p s b -> k <> HostSlotHostState -> length (slot_data s) = Z.to_nat (fixed_state_size b).
Proof. intros [_ _ _ Hok] Hk. by rewrite (so_data _ _ _ Hok), (so_fixed _ _ _ Hok). Qed.


(** A call that saves a version, given what it left in the slot. *)
Lemma saves_intro k v p s data force size b bt (m : M POSCheckpointBag pos_retval) r e :
  lent k p s bt -> (length data <= length (slot_data s))%nat -> fixed_state_size bt = fixed_state_size b ->
  (forall k', k' <> k -> view bt k' = view b k') -> spec_take force size (view b k) (slot_data s) (view bt k) ->
  m b e = Ok r (put_slot k v p s (overwrite data (slot_data s)) bt) e ->
  exists b', m b e = Ok r b' e /\ bag_ok b' /\ fixed_state_size b' = fixed_state_size b /\
    changes k (view b) (view b') (spec_save force size v data).
Proof.
  intros Hl Hd Hf Ho Ht Hm. destruct (put_slot_saves k v p s data force size b bt Hl Hd Ho Ht).
  eexists. split_and!; [done|done|by rewrite put_slot_fixed|done].
Qed.

Lemma load_spec v data b e : bag_ok b -> fixed_state_size b <= Z.of_nat (length data) ->
  exists b', load v data b e = Ok POS_SUCCESS b' e /\ bag_ok b' /\ fixed_state_size b' = fixed_state_size b /\
    changes HostSlotDeviceState (view b) (view b') (spec_save false (fixed_state_size b) v (Some <$> take (Z.to_nat (fixed_state_size b)) data)).
Proof.
  intros Hb Hd. pose proof (bo_size b Hb).
  destruct (apply_spec HostSlotDeviceState v 0 false b e Hb) as (p & s & bt & Ha & Hl & Hf & Ho & Ht); [done|].
  assert (length (slot_data s) = Z.to_nat (fixed_state_size b)) as Hs by (rewrite <- Hf; by eapply lent_length).
  eapply saves_intro; [done|rewrite length_fmap, length_take; lia|done..|].
  unfold load. mbase. rewrite Ha. cbv beta iota. rewrite put_slot_fixed, Hf, (proj2 (Nat.leb_le _ _)) by lia.
  rewrite write_spec; [done|]. rewrite length_fmap, length_take. lia.
Qed.



Lemma add_spec v memory outcome b e : bag_ok b -> Z.of_nat (length memory) = fixed_state_size b ->
  exists b', memory_add v memory outcome b e = Ok (copied outcome true (Some <$> memory)).2 b' e /\ bag_ok b' /\
    fixed_state_size b' = fixed_state_size b /\
    changes DeviceSlotDeviceState (view b) (view b') (spec_save true (fixed_state_size b) v (copied outcome true (Some <$> memory)).1).
Proof.
  intros Hb Hm. destruct (apply_spec DeviceSlotDeviceState v 0 true b e Hb) as (p & s & bt & Ha & Hl & Hf & Ho & Ht); [done|].
  assert (length (Some <$> memory) <= length (slot_data s))%nat as Hs.
  { rewrite length_fmap, (lent_length _ _ _ _ Hl) by done. rewrite Hf. lia. }
  pose proof (length_copied outcome true (Some <$> memory)).
  eapply saves_intro; [done|lia|done..|].
  unfold memory_add. mbase. rewrite Ha. cbv beta iota. by erewrite cuda_copy_spec.
Qed.

(** The source of a commit in the bag that already has the slot on the host. *)
Lemma read_cached v w q p s c b e : bag_ok b -> active_map (group DeviceSlotDeviceState b) !! v = Some q ->
  content_of b q = Some c -> p <> q -> let b1 := put_slot HostSlotDeviceState w p s (slot_data s) b in
  get_checkpoint_slot DeviceSlotDeviceState v b1 = (POS_SUCCESS, Some q) /\
  forall n, n = length c -> read_slot q n b1 e = Ok c b1 e.
Proof.
  intros Hb Hq Hc Hne b1. assert (group DeviceSlotDeviceState b1 = group DeviceSlotDeviceState b) as Hg by done.
  split.
  - unfold get_checkpoint_slot. rewrite Hg, Hq, (bo_versions b Hb), bool_decide_eq_false_2; [done|].
    apply elem_of_dom_2 in Hq. set_solver.
  - intros n ->. unfold content_of in Hc. apply fmap_Some in Hc as (s' & Hs' & ->). 
    assert (bag_heap b1 !! q = Some s') as Hs1.
    { unfold b1, put_slot. rewrite heap_set_group. cbn [bag_heap set_heap]. by rewrite lookup_insert_ne. }
    unfold read_slot. mbase. rewrite Hs1. cbn [need]. mbase. rewrite (proj2 (Nat.leb_le _ _)) by done. by rewrite firstn_all.
Qed.

Lemma commit_spec v (memory : bytes) (from_cache is_sync : bool) outcome b (src : content) e :
  bag_ok b -> Z.of_nat (length memory) = fixed_state_size b ->
  (if from_cache then saved (view b DeviceSlotDeviceState) !! v = Some src else src = Some <$> memory) ->
  exists b', memory_commit v memory from_cache is_sync outcome b e = Ok (copied outcome is_sync src).2 b' e /\ bag_ok b' /\
    fixed_state_size b' = fixed_state_size b /\
    changes HostSlotDeviceState (view b) (view b') (spec_save true (fixed_state_size b) v (copied outcome is_sync src).1).
Proof.
  intros Hb Hm Hsrc. destruct (apply_spec HostSlotDeviceState v 0 true b e Hb) as (p & s & bt & Ha & Hl & Hf & Ho & Ht); [done|].
  assert (length src = length memory) as Hlen.
  { destruct from_cache; [|subst; apply length_fmap]. rewrite (saved_length DeviceSlotDeviceState v src b Hb ltac:(done) Hsrc). lia. }
  assert (length src <= length (slot_data s))%nat as Hs.
  { rewrite Hlen, (lent_length _ _ _ _ Hl) by done. rewrite Hf. lia. }
  pose proof (length_copied outcome is_sync src). eapply saves_intro; [done|lia|done..|].
  unfold memory_commit. mbase. rewrite Ha. cbv beta iota. destruct from_cache.
  - rewrite <- (Ho DeviceSlotDeviceState) in Hsrc by done.
    destruct (saved_content _ _ _ bt (le_ok _ _ _ _ Hl) Hsrc) as (q & s' & Hq & Hs' & _ & Hc).
    destruct (read_cached v v q p s src bt e (le_ok _ _ _ _ Hl) Hq) as [Hg Hr];
      [unfold content_of; by rewrite Hs', <- Hc|intros ->; by apply (le_free _ _ _ _ Hl DeviceSlotDeviceState false v)|].
    rewrite Hg. cbv beta iota. by apply cuda_copy_spec; [apply Hr|].
  - subst src. by erewrite cuda_copy_spec.
Qed.

(** A call from the cache of a version that was not added ends the program. *)
Lemma commit_uncached v memory is_sync outcome b e : bag_ok b -> saved (view b DeviceSlotDeviceState) !! v = None ->
  exists b', memory_commit v memory true is_sync outcome b e = Throw "no cache buffer with the version founded" b' e.
Proof.
  intros Hb Hv. destruct (apply_spec HostSlotDeviceState v 0 true b e Hb) as (p & s & bt & Ha & Hl & Hf & Ho & Ht); [done|].
  exists (put_slot HostSlotDeviceState v p s (slot_data s) bt). unfold memory_commit. mbase. rewrite Ha. cbv beta iota.
  rewrite get_slot_spec by (by apply put_slot_bag_ok). apply (view_saved_None _ _ _ Hb) in Hv.
  destruct (put_slot_view HostSlotDeviceState v p s (slot_data s) bt Hl) as [_ Hv'].
  assert (active_map (group DeviceSlotDeviceState (put_slot HostSlotDeviceState v p s (slot_data s) bt)) !! v = None) as ->.
  { apply view_saved_None; [by apply put_slot_bag_ok|]. rewrite Hv', Ho by done. by apply view_saved_None. }
  by case_decide.
Qed.



End calls.

Section sessions.
Context `{!Allocator, !MapBegin}.
Implicit Types (b : POSCheckpointBag) (k : slot_kind).

Lemma spare_length k v c b : bag_ok b -> k <> HostSlotHostState -> spare (view b k) !! v = Some c ->
  length c = Z.to_nat (fixed_state_size b).
Proof.
  intros Hb Hk. rewrite view_spare. intros (p & Hp & Hc)%bind_Some. unfold content_of in Hc. apply fmap_Some in Hc as (s & Hs & ->).
  destruct (bo_slot b Hb k true v p Hp) as (s' & Hs' & Hok). simplify_eq. by rewrite (so_data _ _ _ Hok), (so_fixed _ _ _ Hok).
Qed.

(** Saving a full buffer of device state: every version has the bytes it had, or those. *)
Lemma save_full force v data k b st' : bag_ok b -> k <> HostSlotHostState ->
  length data = Z.to_nat (fixed_state_size b) -> spec_save force (fixed_state_size b) v data (view b k) st' ->
  (forall w c, saved st' !! w = Some c -> saved (view b k) !! w = Some c \/ w = v /\ c = data) /\
  (saved (view b k) !! v = None -> saved st' !! v = Some data).
Proof.
  intros Hb Hk Hd (c0 & st1 & Ht & ->).
  assert (length c0 = length data /\ saved st1 ⊆ saved (view b k)) as [Hl Hsub].
  { rewrite Hd. pose proof (fun v c => spare_length k v c b Hb Hk) as Hsp. pose proof (fun v c => saved_length k v c b Hb Hk) as Hsv.
    destruct Ht as [m X w c Hw|m w c Hf Hw|m Hf]; cbn [saved spare] in *;
      [split; [by eapply Hsp|done]|split; [by eapply Hsv|apply delete_subseteq]|split; [apply length_replicate|done]]. }
  assert (overwrite data c0 = data) as -> by (unfold overwrite; rewrite <- Hl, drop_all; apply app_nil_r).
  unfold spec_put. cbn [saved]. split.
  - intros w c. destruct (saved st1 !! v) eqn:Hv; [intros ?; left; by eapply lookup_weaken|].
    intros [[<- <-]|[_ ?]]%lookup_insert_Some; [by right|left; by eapply lookup_weaken].
  - intros Hv. assert (saved st1 !! v = None) as -> by (by eapply lookup_weaken_None). apply lookup_insert_eq.
Qed.

(** The calls of a memory handle, whose copies succeed. *)
Definition memory_op (size : Z) (op : ckpt_op) : Prop :=
  match op with
  | Invalidate _ _ | InvalidateAll _ | Clear => True
  | Load _ data => size <= Z.of_nat (length data)
  | CommitHost _ _ => False
  | Add _ memory outcome => Z.of_nat (length memory) = size /\ outcome = CopyDone
  | Commit _ memory _ _ outcome => Z.of_nat (length memory) = size /\ outcome = CopyDone
  end.

(** The bytes a call gives to a version. *)
Definition provides (size : Z) (op : ckpt_op) : option (Z * bytes) :=
  match op with
  | Load v data => Some (v, take (Z.to_nat size) data)
  | Add v memory _ | Commit v memory false _ _ => Some (v, memory)
  | _ => None
  end.

(** Every checkpoint of device state holds the bytes of a call for its version. *)
Definition provenance (ops : list ckpt_op) b : Prop :=
  forall k v c, k <> HostSlotHostState -> saved (view b k) !! v = Some c ->
  exists op d, op ∈ ops /\ provides (fixed_state_size b) op = Some (v, d) /\ c = Some <$> d.

Lemma provenance_incl ops ops' b : ops ⊆ ops' -> provenance ops b -> provenance ops' b.
Proof. intros Hs Hp k v c Hk Hc. destruct (Hp k v c Hk Hc) as (op & d & ? & ? & ?). exists op, d. split; [by apply Hs|done]. Qed.

(** A step that only shrinks what is saved. *)
Lemma provenance_shrink ops b b' : fixed_state_size b' = fixed_state_size b ->
  (forall k, saved (view b' k) ⊆ saved (view b k)) -> provenance ops b -> provenance ops b'.
Proof. intros Hf Hs Hp k v c Hk Hc. rewrite Hf. apply (Hp k v c Hk). by eapply lookup_weaken. Qed.

Lemma provenance_save ops op k force v d b b' : bag_ok b -> fixed_state_size b' = fixed_state_size b ->
  op ∈ ops -> k <> HostSlotHostState -> length d = Z.to_nat (fixed_state_size b) ->
  (provides (fixed_state_size b) op = Some (v, d) \/ exists k', k' <> HostSlotHostState /\ saved (view b k') !! v = Some (Some <$> d)) ->
  changes k (view b) (view b') (spec_save force (fixed_state_size b) v (Some <$> d)) ->
  provenance ops b -> provenance ops b'.
Proof.
  intros Hb Hf Hop Hk Hl Hd [Hs Ho] Hp k' w c Hk' Hc. rewrite Hf. destruct (decide (k' = k)) as [->|Hne]; [|rewrite Ho in Hc by done; by apply (Hp k')].
  destruct (save_full force v (Some <$> d) k b _ Hb Hk ltac:(by rewrite length_fmap) Hs) as [Hw _].
  destruct (Hw w c Hc) as [Hold|[-> ->]]; [by apply (Hp k)|].
  destruct Hd as [Hd|(k1 & Hk1 & Hd)]; [by exists op, d|by apply (Hp k1)].
Qed.

Lemma length_memory (memory : bytes) size : Z.of_nat (length memory) = size -> length memory = Z.to_nat size.
Proof. lia. Qed.

Lemma memory_op_step op ops b e : bag_ok b -> memory_op (fixed_state_size b) op -> op ∈ ops -> provenance ops b ->
  (exists r b', exec_op op b e = Ok r b' e /\ bag_ok b' /\ fixed_state_size b' = fixed_state_size b /\ provenance ops b') \/
  (exists v memory is_sync outcome b', op = Commit v memory true is_sync outcome /\
    exec_op op b e = Throw "no cache buffer with the version founded" b' e).
Proof.
  intros Hb Hm Hop Hp. destruct op as [k v|k| |v data|v data|v memory outcome|v memory from_cache is_sync outcome]; cbn [exec_op memory_op] in *.
  - left. destruct (invalidate_spec k v b e Hb) as (r & b' & ? & ? & Hf & Hs & Ho). exists r, b'. split_and!; [done..|].
    apply (provenance_shrink ops b); [done| |done]. intros k'. destruct (decide (k' = k)) as [->|]; [|by rewrite Ho].
    assert (view b' k = (spec_invalidate v (view b k)).2) as -> by (by rewrite <- Hs).
    unfold spec_invalidate. destruct (saved (view b k) !! v); [apply delete_subseteq|done].
  - left. destruct (invalidate_all_spec k b e Hb) as (b' & ? & ? & Hf & Hs & Ho). exists POS_SUCCESS, b'. split_and!; [done..|].
    apply (provenance_shrink ops b); [done| |done]. intros k'. destruct (decide (k' = k)) as [->|]; [|by rewrite Ho].
    rewrite Hs. apply map_empty_subseteq.
  - left. destruct (clear_spec b e Hb) as (b' & Hr & ? & Hf & Hs & Ho). exists POS_SUCCESS, b'. mbase. rewrite Hr. split_and!; [done..|].
    apply (provenance_shrink ops b); [done| |done]. intros k'. destruct (decide (k' = HostSlotDeviceState)) as [->|]; [|by rewrite Ho].
    rewrite Hs. apply map_empty_subseteq.
  - left. destruct (load_spec v data b e Hb Hm) as (b' & ? & ? & Hf & Hch). exists POS_SUCCESS, b'. split_and!; [done..|].
    apply (provenance_save ops (Load v data) HostSlotDeviceState false v (take (Z.to_nat (fixed_state_size b)) data) b);
      [done..| |by left|done|done]. rewrite length_take. lia.
  - done.
  - destruct Hm as [Hm ->]. left. destruct (add_spec v memory CopyDone b e Hb Hm) as (b' & Hr & ? & Hf & Hch). eexists _, b'.
    split; [exact Hr|]. split_and!; [done..|]. 
    apply (provenance_save ops (Add v memory CopyDone) DeviceSlotDeviceState true v memory b);
      [done..|by apply length_memory|by left|done|done].
  - destruct Hm as [Hm ->]. destruct from_cache.
    + destruct (saved (view b DeviceSlotDeviceState) !! v) as [src|] eqn:Hv.
      * left. destruct (commit_spec v memory true is_sync CopyDone b src e Hb Hm Hv) as (b' & Hr & ? & Hf & Hch). eexists _, b'.
        split; [exact Hr|]. split_and!; [done..|]. destruct (Hp DeviceSlotDeviceState v src ltac:(done) Hv) as (op & d & _ & _ & ->).
        apply (provenance_save ops _ HostSlotDeviceState true v d b b' Hb Hf Hop); [done| |by right; exists DeviceSlotDeviceState|done|done].
        by rewrite <- (saved_length DeviceSlotDeviceState v _ b Hb ltac:(done) Hv), length_fmap.
      * right. destruct (commit_uncached v memory is_sync CopyDone b e Hb Hv) as [b' Hr]. by eexists _, _, _, _, b'.
    + left. destruct (commit_spec v memory false is_sync CopyDone b _ e Hb Hm eq_refl) as (b' & Hr & ? & Hf & Hch). eexists _, b'.
      split; [exact Hr|]. split_and!; [done..|].
      apply (provenance_save ops (Commit v memory false is_sync CopyDone) HostSlotDeviceState true v memory b);
        [done..|by apply length_memory|by left|done|done].
Qed.

Lemma memory_session_from past ops b e : bag_ok b -> Forall (memory_op (fixed_state_size b)) ops -> provenance past b ->
  (exists rs b', exec_ops ops b e = Ok rs b' e /\ bag_ok b' /\ provenance (past ++ ops) b') \/
  (exists v memory is_sync outcome b', Commit v memory true is_sync outcome ∈ ops /\
    exec_ops ops b e = Throw "no cache buffer with the version founded" b' e).
Proof.
  revert past b. induction ops as [|op ops IH]; intros past b Hb Hall Hp; cbn [exec_ops].
  { left. exists [], b. by rewrite app_nil_r. }
  apply Forall_cons in Hall as [Hm Hall].
  destruct (memory_op_step op (past ++ [op]) b e Hb Hm) as [(r & b1 & Hr & Hb1 & Hf & Hp1)|(v & memory & is_sync & outcome & b1 & -> & Hr)];
    [set_solver|eapply provenance_incl; [|done]; set_solver|..]; mbase; rewrite Hr; cbv beta iota.
  - rewrite <- Hf in Hall. destruct (IH (past ++ [op]) b1 Hb1 Hall Hp1) as [(rs & b' & Hrs & ? & Hp')|(v & memory & is_sync & outcome & b' & ? & Hrs)];
      rewrite Hrs; cbv beta iota.
    + left. exists (r :: rs), b'. split_and!; [done..|]. by rewrite <- (assoc_L (++)) in Hp'.
    + right. exists v, memory, is_sync, outcome, b'. split; [by constructor|done].
  - right. exists v, memory, is_sync, outcome, b1. split; [constructor|done].
Qed.

Lemma take_empty size c st' : spec_take false size (mk_store ∅ ∅) c st' -> st' = mk_store ∅ ∅.
Proof. inversion 1 as [m X v c' Hx|m v c' Hx|m Hx]; [by rewrite lookup_empty in Hx|done|done]. Qed.

Lemma bag_new_spec size b0 e : 0 < size ->
  exists b, bag_new true size b0 e = Ok tt b e /\ bag_ok b /\ fixed_state_size b = size /\
    (forall k, saved (view b k) = ∅) /\ (forall k, k <> HostSlotDeviceState -> spare (view b k) = ∅).
Proof.
  intros Hs. set (b1 := mk_bag size empty_group empty_group empty_group ∅).
  assert (forall k c v, slots_of k c b1 !! v = None) as Hnone by (intros [] [] v; apply lookup_empty).
  assert (bag_ok b1) as Hb1.
  { split; [done|intros []; symmetry; apply dom_empty_L|intros k c v p Hv; by rewrite Hnone in Hv|intros k c v k' c' v' p Hv; by rewrite Hnone in Hv]. }
  assert (forall k, view b1 k = mk_store ∅ ∅) as Hv1.
  { intros k. unfold view, b1. by destruct k; cbn [active_map cached_map group_dd group_hd group_hh group empty_group]; rewrite !omap_empty. }
  destruct (apply_spec HostSlotDeviceState 0 0 false b1 e Hb1) as (p & s & bt & Ha & Hl & Hf & Ho & Ht); [done|].
  destruct (put_slot_view HostSlotDeviceState 0 p s (slot_data s) bt Hl) as [Hv2 Ho2].
  set (b2 := put_slot HostSlotDeviceState 0 p s (slot_data s) bt) in *.
  assert (bag_ok b2) as Hb2 by (by apply put_slot_bag_ok).
  destruct (invalidate_spec HostSlotDeviceState 0 b2 e Hb2) as (r & b3 & Hr & Hb3 & Hf3 & Hs3 & Ho3).
  rewrite Hv1 in Ht. apply take_empty in Ht as Hvt.
  rewrite Hv2, Hvt in Hs3. unfold spec_invalidate, spec_put in Hs3. cbn [saved spare] in Hs3.
  rewrite lookup_empty, lookup_insert_eq, delete_insert_eq in Hs3.
  apply pair_equal_spec in Hs3 as [-> Hs3].
  exists b3. split_and!.
  - unfold bag_new. mbase. fold b1. rewrite Ha. cbv beta iota. cbn [fst]. rewrite bool_decide_eq_true_2 by done.
    cbn [pos_assert]. mbase. fold b2. rewrite Hr. cbv beta iota. by rewrite bool_decide_eq_true_2.
  - done.
  - rewrite Hf3. unfold b2. by rewrite put_slot_fixed, Hf.
  - intros k. destruct (decide (k = HostSlotDeviceState)) as [->|Hk]; [rewrite Hs3; apply delete_empty|].
    rewrite Ho3, Ho2, Ho, Hv1 by done. done.
  - intros k Hk. rewrite Ho3, Ho2, Ho, Hv1 by done. done.
Qed.

(** C22. From the construction of the bag on, in any sequence of calls of a memory handle whose copies
    succeed, no call leaves its slot or uses a released one, and every checkpoint holds the bytes
    that a call for its version gave; the only end is a commit from the cache without an add. *)
Theorem memory_session_keeps_data size ops b0 e : 0 < size -> Forall (memory_op size) ops ->
  (exists rs b, (bag_new true size;; exec_ops ops) b0 e = Ok rs b e /\ bag_ok b /\ provenance ops b) \/
  (exists v memory is_sync outcome b, Commit v memory true is_sync outcome ∈ ops /\
    (bag_new true size;; exec_ops ops) b0 e = Throw "no cache buffer with the version founded" b e).
Proof.
  intros Hs Hall. destruct (bag_new_spec size b0 e Hs) as (b & Hn & Hb & Hf & Hsv & _). mbase. rewrite Hn. cbv beta iota.
  rewrite <- Hf in Hall. apply (memory_session_from [] ops b e Hb Hall).
  intros k v c _ Hc. by rewrite Hsv in Hc.
Qed.

(** Copy on write: what an add saved on the device is what the commit of that version puts on the
    host and the handle persists, whatever the memory is by then. *)
Theorem copy_on_write_round_trip v memory memory' is_sync b e :
  bag_ok b -> Z.of_nat (length memory) = fixed_state_size b -> length memory' = length memory ->
  (forall k, k <> HostSlotHostState -> saved (view b k) !! v = None) ->
  exists b' p s, exec_ops [Add v memory CopyDone; Commit v memory' true is_sync CopyDone] b e = Ok [POS_SUCCESS; POS_SUCCESS] b' e /\
    bag_ok b' /\ get_checkpoint_slot_for_persist v b' = (POS_SUCCESS, Some p) /\
    bag_heap b' !! p = Some s /\ slot_data s = Some <$> memory.
Proof.
  intros Hb Hm Hm' Hnew. destruct (add_spec v memory CopyDone b e Hb Hm) as (b1 & Hr1 & Hb1 & Hf1 & Hs1 & Ho1).
  destruct (save_full true v (Some <$> memory) DeviceSlotDeviceState b (view b1 DeviceSlotDeviceState) Hb ltac:(done)) as [_ Hv1];
    [rewrite length_fmap; lia|exact Hs1|]. specialize (Hv1 (Hnew DeviceSlotDeviceState ltac:(done))).
  destruct (commit_spec v memory' true is_sync CopyDone b1 (Some <$> memory) e Hb1) as (b2 & Hr2 & Hb2 & Hf2 & Hs2 & _);
    [rewrite Hf1; lia|done|].
  destruct (save_full true v (Some <$> memory) HostSlotDeviceState b1 (view b2 HostSlotDeviceState) Hb1 ltac:(done)) as [_ Hv2];
    [rewrite length_fmap, Hf1; lia|exact Hs2|].
  rewrite Ho1 in Hv2 by done. specialize (Hv2 (Hnew HostSlotDeviceState ltac:(done))).
  destruct (saved_content _ _ _ _ Hb2 Hv2) as (p & s & Hp & Hh & _ & Hd). exists b2, p, s.
  split; [cbn [exec_ops exec_op]; mbase; rewrite Hr1; cbv beta iota; by rewrite Hr2|].
  split_and!; [done|by unfold get_checkpoint_slot_for_persist; rewrite get_slot_spec, Hp|done|done].
Qed.
End sessions.

(** ** Divergences and instances *)

(** The smallest unused address, and the entry that [map_to_list] has first. *)
#[local] Instance sample_alloc : Allocator := {| alloc := fresh; alloc_fresh := is_fresh |}.
Definition first_entry (m : gmap Z Z) : option (Z * Z) := head (map_to_list m).
Lemma first_entry_elem m k p : first_entry m = Some (k, p) -> m !! k = Some p.
Proof. unfold first_entry. intros Hh. apply elem_of_map_to_list. by apply head_Some_elem_of. Qed.
Lemma first_entry_empty m : first_entry m = None <-> m = ∅.
Proof. unfold first_entry. rewrite head_None. apply map_to_list_empty_iff. Qed.
#[local] Instance sample_begin : MapBegin :=
  {| map_begin := first_entry; map_begin_elem := first_entry_elem; map_begin_empty := first_entry_empty |}.

(** The value of the checkpoint that would be persisted. *)
Definition persisted (v : Z) (b : POSCheckpointBag) : option content :=
  (get_checkpoint_slot_for_persist v b).2 ≫= content_of b.

Definition final {A} (m : M POSCheckpointBag A) : option POSCheckpointBag :=
  match m (mk_bag 0 empty_group empty_group empty_group ∅) 0 with Ok _ b _ => Some b | _ => None end.

(** A spare slot is used whatever its size: a longer host state overruns it. *)
Lemma commit_host_overruns :
  (bag_new true 4;; exec_ops [CommitHost 1 [1]; Invalidate HostSlotHostState 1; CommitHost 2 [1; 2]])
    (mk_bag 0 empty_group empty_group empty_group ∅) 0 = Ub "memcpy beyond the slot".
Proof. vm_compute. reflexivity. Qed.

(** Loading a version that is there succeeds, but the version keeps its old bytes and the new
    slot is lost. *)
Lemma reload_is_lost :
  (final (bag_new true 1;; exec_ops [Load 5 [1]; Load 5 [2]]) ≫= persisted 5) = Some [Some 1] /\
  (final (bag_new true 1;; exec_ops [Load 5 [1]; Load 5 [2]]) ≫= fun b => Some (size (bag_heap b), size (active_map (group_hd b)) + size (cached_map (group_hd b)))%nat) = Some (2, 1)%nat.
Proof. vm_compute. done. Qed.

(** A failed commit leaves its version with what the slot held before. *)
Lemma failed_commit_stays :
  (final (bag_new true 1;; exec_ops [Commit 1 [7] false true CopyDone; Commit 2 [8] false true CopyRefused]) ≫= persisted 2) = Some [Some 7].
Proof. vm_compute. done. Qed.

(** [clear] keeps the versions on the device. *)
Lemma clear_keeps_device :
  (final (bag_new true 1;; exec_ops [Add 1 [7] CopyDone; Clear]) ≫= fun b => Some (get_nb_checkpoint_slots DeviceSlotDeviceState b)) = Some 1.
Proof. vm_compute. done. Qed.

Definition sample_bag : POSCheckpointBag :=
  default (mk_bag 0 empty_group empty_group empty_group ∅) (final (bag_new true 2;; exec_ops [Add 3 [7; 8] CopyDone])).

(** The sample bag is what [bag_new] and a call leave, so it has the invariant. *)
Lemma sample_bag_ok : bag_ok sample_bag /\ fixed_state_size sample_bag = 2.
Proof.
  destruct (bag_new_spec 2 (mk_bag 0 empty_group empty_group empty_group ∅) 0 ltac:(lia)) as (b & Hn & Hb & Hf & _).
  destruct (add_spec 3 [7; 8] CopyDone b 0 Hb) as (b' & Hr & Hb' & Hf' & _); [by rewrite Hf|].
  assert (sample_bag = b') as ->; [|by rewrite Hf'].
  unfold sample_bag, final. cbn [exec_ops exec_op]. mbase. rewrite Hn. cbv beta iota. by rewrite Hr.
Qed.


Lemma memory_session_keeps_data_witness :
  (exists rs b, (bag_new true 1;; exec_ops [Add 1 [7] CopyDone; Commit 1 [8] true false CopyDone; Invalidate HostSlotDeviceState 1]) sample_bag 0 = Ok rs b 0 /\
    bag_ok b /\ provenance [Add 1 [7] CopyDone; Commit 1 [8] true false CopyDone; Invalidate HostSlotDeviceState 1] b) \/
  (exists v memory is_sync outcome b, Commit v memory true is_sync outcome ∈ [Add 1 [7] CopyDone; Commit 1 [8] true false CopyDone; Invalidate HostSlotDeviceState 1] /\
    (bag_new true 1;; exec_ops [Add 1 [7] CopyDone; Commit 1 [8] true false CopyDone; Invalidate HostSlotDeviceState 1]) sample_bag 0 =
      Throw "no cache buffer with the version founded" b 0).
Proof. apply (memory_session_keeps_data 1); [lia|]. repeat constructor. Defined.

Lemma copy_on_write_round_trip_witness :
  exists b' p s, exec_ops [Add 4 [1; 2] CopyDone; Commit 4 [5; 6] true false CopyDone] sample_bag 0 = Ok [POS_SUCCESS; POS_SUCCESS] b' 0 /\
    bag_ok b' /\ get_checkpoint_slot_for_persist 4 b' = (POS_SUCCESS, Some p) /\
    bag_heap b' !! p = Some s /\ slot_data s = Some <$> [1; 2].
Proof.
  apply (copy_on_write_round_trip 4 [1; 2] [5; 6] false sample_bag 0 (proj1 sample_bag_ok)); [vm_compute; reflexivity|reflexivity|].
  intros [] _; vm_compute; reflexivity.
Defined.
