(* ===== verification/PosCow.v ===== *)
(** The copy-on-write protocol of PhoenixOS (runtime/pos/src/handle.cpp, and its two users in
    src/worker.cpp): during a checkpoint the worker thread saves the state of a handle before the
    first call that writes it, while the checkpoint thread saves and commits it. One memory access
    of a thread is one step; the copies go byte by byte. *)
From Stdlib Require Import ZArith Lia.
From stdpp Require Import base list gmap relations.
From S2P Require Import Prelude PosCheckpoint.
Local Open Scope Z_scope.

(** What the two threads share of a handle: the counter of eight bits, the memory behind the
    handle, the slot on the device that an add fills and the slot on the host that a commit fills,
    as far as they are filled. *)
Record cow := mk_cow {
  state_preserve_counter : Z;
  memory : bytes;
  cache : bytes;
  host : bytes
}.

Definition set_counter (c : Z) (s : cow) : cow := mk_cow c (memory s) (cache s) (host s).
Definition set_memory (m : bytes) (s : cow) : cow := mk_cow (state_preserve_counter s) m (cache s) (host s).
Definition set_cache (c : bytes) (s : cow) : cow := mk_cow (state_preserve_counter s) (memory s) c (host s).
Definition set_host (h : bytes) (s : cow) : cow := mk_cow (state_preserve_counter s) (memory s) (cache s) h.

(** [fetch_add(1)] on [std::atomic<uint8_t>]. *)
Definition fetch_add (s : cow) : Z * cow :=
  (state_preserve_counter s, set_counter (wrap 8 (state_preserve_counter s + 1)) s).

(** The next byte of a copy; none when all are copied. *)
Definition copy_byte (src dst : bytes) : option bytes :=
  match src !! length dst with Some x => Some (dst ++ [x]) | None => None end.

(** ** checkpoint_add *)

(** Where a thread is in the call: the first load, [fetch_add], the copy of [__add], the store of
    3 with the result of [__add], the loop that waits, the end. *)
Inductive add_pc :=
  | AddLoad | AddFetch | AddCopy | AddStore (r : pos_retval) | AddWait | AddRet (r : pos_retval).

(** [ok] is false when the copy fails. *)
Definition checkpoint_add (ok : bool) (pc : add_pc) (s : cow) : add_pc * cow :=
  match pc with
  | AddLoad => if 2 <=? state_preserve_counter s then (AddRet POS_FAILED_ALREADY_EXIST, s) else (AddFetch, s)
  | AddFetch =>
      let '(old_counter, s') := fetch_add s in
      if old_counter =? 0 then (AddCopy, s')
      else if old_counter =? 1 then (AddWait, s')
      else (AddRet POS_SUCCESS, s')
  | AddCopy =>
      if ok then match copy_byte (memory s) (cache s) with Some c => (AddCopy, set_cache c s) | None => (AddStore POS_SUCCESS, s) end
      else (AddStore POS_FAILED, s)
  | AddStore r => (AddRet r, set_counter 3 s)
  | AddWait => if state_preserve_counter s <? 3 then (AddWait, s) else (AddRet POS_WARN_ABANDONED, s)
  | AddRet r => (AddRet r, s)
  end.

(** ** checkpoint_commit_async *)

Inductive commit_pc :=
  | CommitFetch | CommitDirect | CommitStore (r : pos_retval) | CommitWait | CommitCache | CommitRet (r : pos_retval).

(** Where the call begins; with the pipeline it only copies the cache. A commit that the code leaves
    to the stream (from the cache, [is_sync] false) copies here in its own steps and returns at its
    end: nobody writes the cache any more, so the bytes it finds are the same. *)
Definition commit_begin (pipeline : bool) : commit_pc := if pipeline then CommitCache else CommitFetch.

Definition checkpoint_commit_async (ok : bool) (pc : commit_pc) (s : cow) : commit_pc * cow :=
  match pc with
  | CommitFetch =>
      let '(old_counter, s') := fetch_add s in
      if old_counter =? 0 then (CommitDirect, s')
      else if old_counter =? 1 then (CommitWait, s')
      else (CommitCache, s')
  | CommitDirect =>
      if ok then match copy_byte (memory s) (host s) with Some h => (CommitDirect, set_host h s) | None => (CommitStore POS_SUCCESS, s) end
      else (CommitStore POS_FAILED, s)
  | CommitStore r => (CommitRet r, set_counter 3 s)
  | CommitWait => if state_preserve_counter s <? 3 then (CommitWait, s) else (CommitCache, s)
  | CommitCache =>
      if ok then match copy_byte (cache s) (host s) with Some h => (CommitCache, set_host h s) | None => (CommitRet POS_SUCCESS, s) end
      else (CommitRet POS_FAILED, s)
  | CommitRet r => (CommitRet r, s)
  end.

(** ** The two threads *)

(** The worker, for the calls that write the handle while copy-on-write is on ([do_cow] in
    [__daemon_ckpt_async]): it adds the handle unless it is dirty, asserts the result, marks the
    handle dirty, and launches the call, which writes any byte of the memory. A thread whose
    assertion fails takes no further step. *)
Inductive worker_pc := WClean | WAdd (pc : add_pc) | WDirty | WAbort.

(** The choices that the model leaves open: whether a copy succeeds, and what is written where. *)
Record choice := mk_choice { ch_ok : bool; ch_index : nat; ch_byte : Z }.

Definition add_accepted (r : pos_retval) : bool :=
  match r with POS_SUCCESS | POS_WARN_ABANDONED | POS_FAILED_ALREADY_EXIST => true | _ => false end.

Definition worker_step (ch : choice) (pc : worker_pc) (s : cow) : worker_pc * cow :=
  match pc with
  | WClean => (WAdd AddLoad, s)
  | WAdd (AddRet r) => (if add_accepted r then WDirty else WAbort, s)
  | WAdd pc => let '(pc', s') := checkpoint_add (ch_ok ch) pc s in (WAdd pc', s')
  | WDirty => (WDirty, set_memory (<[ch_index ch := ch_byte ch]> (memory s)) s)
  | WAbort => (WAbort, s)
  end.

(** The checkpoint thread for the handle ([__checkpoint_TH_async_thread]): with the pipeline it
    adds first. *)
Inductive ckpt_pc := KAdd (pc : add_pc) | KCommit (pc : commit_pc) | KDone (r : pos_retval) | KAbort.

Definition ckpt_begin (pipeline : bool) : ckpt_pc := if pipeline then KAdd AddLoad else KCommit CommitFetch.

Definition ckpt_step (pipeline : bool) (ch : choice) (pc : ckpt_pc) (s : cow) : ckpt_pc * cow :=
  match pc with
  | KAdd (AddRet r) => (if add_accepted r then KCommit (commit_begin pipeline) else KAbort, s)
  | KAdd pc => let '(pc', s') := checkpoint_add (ch_ok ch) pc s in (KAdd pc', s')
  | KCommit (CommitRet r) => (KDone r, s)
  | KCommit pc => let '(pc', s') := checkpoint_commit_async (ch_ok ch) pc s in (KCommit pc', s')
  | KDone r => (KDone r, s)
  | KAbort => (KAbort, s)
  end.

Record world := mk_world { wk : worker_pc; ck : ckpt_pc; sh : cow }.


(** After [reset_preserve_counter], with slots that are still to be filled. *)
Definition cow_init (pipeline : bool) (m : bytes) : world :=
  mk_world WClean (ckpt_begin pipeline) (mk_cow 0 m [] []).




(** ** The invariant *)

(** How far a thread is in preserving the state. *)
Inductive phase := Pre | Copying | Storing | Waiting | After.
#[export] Instance phase_eq_dec : EqDecision phase.
Proof. solve_decision. Defined.


























(** ** Progress *)













(** ** Instances *)

(** A copy of the worker that fails is stored as finished before the worker stops: the checkpoint
    thread commits the slot it left. *)
Definition run (pipeline : bool) (sched : list (bool * choice)) (x : world) : world :=
  foldl (fun x '(worker, ch) =>
    if (worker : bool) then mk_world (worker_step ch (wk x) (sh x)).1 (ck x) (worker_step ch (wk x) (sh x)).2
    else mk_world (wk x) (ckpt_step pipeline ch (ck x) (sh x)).1 (ckpt_step pipeline ch (ck x) (sh x)).2) x sched.

Definition good : choice := mk_choice true 0 9.
Definition bad : choice := mk_choice false 0 0.

Lemma failed_add_is_committed :
  let x := run true (replicate 3 (true, good) ++ [(true, bad); (true, good)] ++ replicate 4 (false, good)) (cow_init true [7]) in
  wk x = WAdd (AddRet POS_FAILED) /\ ck x = KDone POS_SUCCESS /\ host (sh x) = [].
Proof. vm_compute. done. Qed.




