(* ===== verification/PosHandle.v ===== *)
(** Handles of PhoenixOS and their managers (runtime/pos/include/handle.h and src/handle.cpp):
    the table of handles of a manager with its index by client address, the status of handles,
    restoring from a checkpoint or from the pool, and the order in which a call's broken handles
    are restored (src/worker.cpp). *)
From Stdlib Require Import ZArith Lia.
From stdpp Require Import base list gmap strings.
From S2P Require Import Prelude SyscallTrace PosCheckpoint.
Local Open Scope Z_scope.

(** ** Data *)

Inductive pos_handle_status :=
  | kPOS_HandleStatus_Active | kPOS_HandleStatus_Deleted | kPOS_HandleStatus_Delete_Pending
  | kPOS_HandleStatus_Create_Pending | kPOS_HandleStatus_Broken
  | kPOS_HandleStatus_StateReady | kPOS_HandleStatus_StateMiss.
#[export] Instance pos_handle_status_eq_dec : EqDecision pos_handle_status.
Proof. solve_decision. Defined.

(** Handles live in a heap; a parent is named by its address there. *)
Record POSHandle := mk_handle {
  client_addr : Z;
  server_addr : Z;
  h_size : Z;
  h_id : Z;
  h_status : pos_handle_status;
  h_state_status : pos_handle_status;
  h_state_size : Z;
  parent_handles : list Z;
  parent_handles_waitlist : list (Z * Z)
}.

Definition kPOS_HandleDefaultSize : Z := 16.
Definition kPOS_ResourceBaseAddr : Z := 0x555500000000.
Definition kPOS_ResourceEndAddr : Z := 0xFFFFFFFFFFF0.

(** The fields of a manager; [_pooled_handles] is a set of pointers, ordered by address. *)
Record POSHandleManager := mk_hm {
  hm_handles : list (option Z);
  handle_address_map : gmap Z Z;
  deleted_handle_address_map : gmap Z Z;
  base_ptr : Z;
  hm_passthrough : bool;
  pooled_handles : gset Z;
  hm_heap : gmap Z POSHandle
}.

Definition hm_new (passthrough : bool) : POSHandleManager :=
  mk_hm [] ∅ ∅ kPOS_ResourceBaseAddr passthrough ∅ ∅.

Definition hm_set_heap (h : gmap Z POSHandle) (s : POSHandleManager) : POSHandleManager :=
  mk_hm (hm_handles s) (handle_address_map s) (deleted_handle_address_map s) (base_ptr s) (hm_passthrough s) (pooled_handles s) h.
Definition hm_set_map (m : gmap Z Z) (s : POSHandleManager) : POSHandleManager :=
  mk_hm (hm_handles s) m (deleted_handle_address_map s) (base_ptr s) (hm_passthrough s) (pooled_handles s) (hm_heap s).
Definition hm_set_base (b : Z) (s : POSHandleManager) : POSHandleManager :=
  mk_hm (hm_handles s) (handle_address_map s) (deleted_handle_address_map s) b (hm_passthrough s) (pooled_handles s) (hm_heap s).
Definition hm_set_handles (l : list (option Z)) (s : POSHandleManager) : POSHandleManager :=
  mk_hm l (handle_address_map s) (deleted_handle_address_map s) (base_ptr s) (hm_passthrough s) (pooled_handles s) (hm_heap s).
Definition hm_set_pool (ps : gset Z) (s : POSHandleManager) : POSHandleManager :=
  mk_hm (hm_handles s) (handle_address_map s) (deleted_handle_address_map s) (base_ptr s) (hm_passthrough s) ps (hm_heap s).

Definition set_status (st : pos_handle_status) (h : POSHandle) : POSHandle :=
  mk_handle (client_addr h) (server_addr h) (h_size h) (h_id h) st (h_state_status h) (h_state_size h) (parent_handles h) (parent_handles_waitlist h).
Definition set_state_status (st : pos_handle_status) (h : POSHandle) : POSHandle :=
  mk_handle (client_addr h) (server_addr h) (h_size h) (h_id h) (h_status h) st (h_state_size h) (parent_handles h) (parent_handles_waitlist h).
Definition set_addrs (c v : Z) (h : POSHandle) : POSHandle :=
  mk_handle c v (h_size h) (h_id h) (h_status h) (h_state_status h) (h_state_size h) (parent_handles h) (parent_handles_waitlist h).
Definition set_waitlist (l : list (Z * Z)) (h : POSHandle) : POSHandle :=
  mk_handle (client_addr h) (server_addr h) (h_size h) (h_id h) (h_status h) (h_state_status h) (h_state_size h) (parent_handles h) l.

(** The constructors, with and without a client address. *)
Definition handle_new (client : Z) (size id state_size : Z) : POSHandle :=
  mk_handle client 0 size id kPOS_HandleStatus_Create_Pending kPOS_HandleStatus_StateReady state_size [] [].

Definition is_deleted (st : pos_handle_status) : bool :=
  match st with kPOS_HandleStatus_Deleted | kPOS_HandleStatus_Delete_Pending => true | _ => false end.

Section manager.
Context `{!Allocator}.
Abbreviation HM := (M POSHandleManager).
Implicit Types s : POSHandleManager.

Definition hm_assert (c : bool) : HM unit := if c then mret tt else throw "assertion failed".

Definition load_handle (p : Z) : HM POSHandle := s ← get; need "handle released" (hm_heap s !! p).
Definition store_handle (p : Z) (f : POSHandle -> POSHandle) : HM unit :=
  s ← get; h ← load_handle p; put (hm_set_heap (<[p := f h]> (hm_heap s)) s).
Definition new_handle (h : POSHandle) : HM Z :=
  s ← get; let p := alloc (dom (hm_heap s)) in put (hm_set_heap (<[p := h]> (hm_heap s)) s);; mret p.

(** ** Addresses *)

Definition is_client_addr_in_range (addr : Z) (h : POSHandle) : option Z :=
  if (client_addr h <=? addr) && (addr <? u64 (client_addr h + h_size h)) then Some (addr - client_addr h) else None.

(** [lower_bound] and one step back: the entry with the greatest key below [addr]. *)
Definition predecessor (addr : Z) (m : gmap Z Z) : option (Z * Z) :=
  foldr (fun kp best =>
    if kp.1 <? addr then
      match best with Some b => if b.1 <? kp.1 then Some kp else best | None => Some kp end
    else best) None (map_to_list m).

(** The handle and the offset; none is [POS_FAILED_NOT_EXIST]. *)
Definition get_handle_by_client_addr (addr : Z) : HM (option (Z * Z)) :=
  s ← get;
  match handle_address_map s !! addr with
  | Some p => h ← load_handle p; hm_assert (negb (is_deleted (h_status h)));; mret (Some (p, 0))
  | None =>
      match predecessor addr (handle_address_map s) with
      | Some (_, p) =>
          h ← load_handle p;
          hm_assert (negb (is_deleted (h_status h)));;
          mret (match is_client_addr_in_range addr h with Some off => Some (p, off) | None => None end)
      | None => mret None
      end
  end.

(** A handle whose address belongs to another one is not recorded. *)
Definition record_handle_address (addr p : Z) : HM pos_retval :=
  r ← get_handle_by_client_addr addr;
  match r with
  | None => modify (fun s => hm_set_map (<[addr := p]> (handle_address_map s)) s)
  | Some _ => mret tt
  end;;
  mret POS_SUCCESS.

Definition set_passthrough_addr (p addr : Z) : HM pos_retval :=
  store_handle p (set_addrs addr addr);; record_handle_address addr p.

(** ** Allocation *)

Definition allocate_mocked_resource (size : Z) (expected_addr : option Z) (state_size : Z) : HM (pos_retval * option Z) :=
  s ← get;
  if hm_passthrough s then
    p ← new_handle (handle_new 0 size (Z.of_nat (length (hm_handles s))) state_size);
    modify (fun s => hm_set_handles (hm_handles s ++ [Some p]) s);;
    mret (POS_SUCCESS, Some p)
  else
    match expected_addr with Some a => modify (hm_set_base a) | None => mret tt end;;
    s ← get;
    if u64 (kPOS_ResourceEndAddr - base_ptr s) <? size then mret (POS_FAILED_DRAIN, None)
    else
      p ← new_handle (handle_new (base_ptr s) size (Z.of_nat (length (hm_handles s))) state_size);
      r ← record_handle_address (base_ptr s) p;
      if decide (r = POS_SUCCESS) then
        modify (fun s => hm_set_base (u64 (base_ptr s + size)) s);;
        modify (fun s => hm_set_handles (hm_handles s ++ [Some p]) s);;
        mret (POS_SUCCESS, Some p)
      else mret (r, Some p).

Definition get_handle_by_id (id : Z) s : option Z :=
  if Z.of_nat (length (hm_handles s)) <=? id then None else default None (hm_handles s !! Z.to_nat id).

(** ** Status *)

(** A handle that is to be deleted leaves the index. *)
Definition drop_address (p : Z) : HM unit :=
  h ← load_handle p;
  modify (fun s =>
    match handle_address_map s !! client_addr h with
    | Some q => mk_hm (hm_handles s) (delete (client_addr h) (handle_address_map s))
                  (map_insert_new (client_addr h) q (deleted_handle_address_map s))
                  (base_ptr s) (hm_passthrough s) (pooled_handles s) (hm_heap s)
    | None => s
    end).

Definition mark_handle_status (p : Z) (status : pos_handle_status) : HM pos_retval :=
  match status with
  | kPOS_HandleStatus_Active | kPOS_HandleStatus_Broken | kPOS_HandleStatus_Create_Pending =>
      store_handle p (set_status status);; mret POS_SUCCESS
  | kPOS_HandleStatus_Delete_Pending | kPOS_HandleStatus_Deleted =>
      store_handle p (set_status status);; drop_address p;; mret POS_SUCCESS
  | _ => throw "SHUTDOWN BY POS ERROR"
  end.

Definition mark_state_status (p : Z) (status : pos_handle_status) : HM unit :=
  hm_assert (match status with kPOS_HandleStatus_StateReady | kPOS_HandleStatus_StateMiss => true | _ => false end);;
  store_handle p (set_state_status status).

(** ** Restoring *)

(** [resize(id + 1, nullptr)] *)
Definition resize_handles (id : Z) (l : list (option Z)) : list (option Z) :=
  if Z.of_nat (length l) <=? id then l ++ replicate (Z.to_nat (id + 1) - length l) None else l.

(** The new handle of a restore, recorded under its client address. *)
Definition restore_new_handle (id client server size state_size : Z) : HM (Z * pos_retval) :=
  s ← get;
  p ← (if hm_passthrough s then
         p ← new_handle (handle_new 0 size id state_size);
         set_passthrough_addr p server;;
         mret p
       else
         (if base_ptr s <? u64 (client + size) then modify (hm_set_base (u64 (client + size))) else mret tt);;
         p ← new_handle (handle_new client size id state_size);
         store_handle p (set_addrs client server);;
         mret p);
  r ← record_handle_address client p;
  mret (p, r).

Definition restore_mocked_resource (id client server size : Z) (waitlist : list (Z * Z)) (state_size : Z) : HM (pos_retval * option Z) :=
  modify (fun s => hm_set_handles (resize_handles id (hm_handles s)) s);;
  s ← get;
  match get_handle_by_id id s with
  | Some p => mret (POS_SUCCESS, Some p)
  | None =>
      if negb (hm_passthrough s) && (u64 (kPOS_ResourceEndAddr - client) <? size) then mret (POS_FAILED_DRAIN, None)
      else
        '(p, r) ← restore_new_handle id client server size state_size;
        if decide (r = POS_SUCCESS) then
          mark_handle_status p kPOS_HandleStatus_Broken;;
          mark_state_status p kPOS_HandleStatus_StateMiss;;
          store_handle p (set_waitlist waitlist);;
          modify (fun s => hm_set_handles (<[Z.to_nat id := Some p]> (hm_handles s)) s);;
          mret (POS_SUCCESS, Some p)
        else mret (r, Some p)
  end.

(** [begin()] of the pool, the lowest address. *)
Definition pool_begin s : option Z :=
  match elements (pooled_handles s) with
  | [] => None
  | p :: ps => Some (foldr Z.min p ps)
  end.

Definition try_restore_from_pool (p : Z) : HM pos_retval :=
  s ← get;
  match pool_begin s with
  | None => mret POS_FAILED
  | Some q =>
      put (hm_set_pool (pooled_handles s ∖ {[q]}) s);;
      preserved ← load_handle q;
      store_handle p (fun h => set_status kPOS_HandleStatus_Active (set_addrs (client_addr h) (server_addr preserved) h));;
      mret POS_SUCCESS
  end.

(** [__restore] of the handle's class is an argument. *)
Definition restore (restore_impl : Z -> HM pos_retval) (p : Z) : HM pos_retval :=
  r ← try_restore_from_pool p;
  if decide (r = POS_SUCCESS) then mret r else restore_impl p.

Fixpoint preserve_pooled_handles (restore_impl : Z -> HM pos_retval) (amount : nat) : HM pos_retval :=
  match amount with
  | O => mret POS_SUCCESS
  | S amount' =>
      r ← allocate_mocked_resource kPOS_HandleDefaultSize None 0;
      match r with
      | (POS_SUCCESS, Some p) =>
          r ← restore_impl p;
          if decide (r = POS_SUCCESS) then
            modify (fun s => hm_set_pool ({[p]} ∪ pooled_handles s) s);;
            preserve_pooled_handles restore_impl amount'
          else mret POS_FAILED
      | (_, None) => throw "assertion failed"
      | (_, Some _) => mret POS_FAILED
      end
  end.
End manager.

(** ** Broken handles *)

(** The layers of [pos_broken_handle_list]. *)
Definition add_handle (layer_id : Z) (p : Z) (l : list (list Z)) : list (list Z) :=
  let l' := l ++ replicate (Z.to_nat (layer_id + 1) - length l) [] in
  alter (fun vec => vec ++ [p]) (Z.to_nat layer_id) l'.

Definition reset_layers (l : list (list Z)) : list (list Z) := (fun _ => []) <$> l.
Definition get_nb_layers (l : list (list Z)) : Z := u16 (Z.of_nat (length l)).

(** The keepers after the call and the handle; [None] when a layer does not exist. *)
Definition reverse_get_handle (l : list (list Z)) (layer handle : Z) : option (Z * Z * option Z) :=
  vec ← l !! Z.to_nat layer;
  if Z.of_nat (length vec) <=? handle then
    if layer =? 0 then Some (layer, handle, None)
    else
      vec' ← l !! Z.to_nat (layer - 1);
      Some (layer - 1, 1, vec' !! 0%nat)
  else Some (layer, handle + 1, vec !! Z.to_nat handle).

Definition is_broken (st : pos_handle_status) : bool :=
  match st with kPOS_HandleStatus_Active | kPOS_HandleStatus_Delete_Pending => false | _ => true end.

(** The handle and then its parents, one layer up; the recursion is on fuel. *)
Fixpoint collect_broken_handles (fuel : nat) (heap : gmap Z POSHandle) (p layer_id : Z) (l : list (list Z)) : option (list (list Z)) :=
  match fuel with
  | O => None
  | S fuel' =>
      h ← heap !! p;
      let l := if is_broken (h_status h) then add_handle layer_id p l else l in
      foldl (fun acc q => l ← acc; collect_broken_handles fuel' heap q (u16 (layer_id + 1)) l) (Some l) (parent_handles h)
  end.

(** The loop of [__restore_broken_handles] over the list of one handle: the handles that are
    restored, in order. A handle that the call itself is about to create ([create]) is skipped. *)
Definition to_be_created (create : bool) (heap : gmap Z POSHandle) (p : Z) : bool :=
  create && bool_decide (h_status <$> heap !! p = Some kPOS_HandleStatus_Create_Pending).

Fixpoint restore_order (fuel : nat) (skip : Z -> bool) (l : list (list Z)) (layer handle : Z) : option (list Z) :=
  match fuel with
  | O => None
  | S fuel' =>
      '(layer', handle', r) ← reverse_get_handle l layer handle;
      match r with
      | None => Some []
      | Some p =>
          rest ← restore_order fuel' skip l layer' handle';
          Some (if (layer' =? 0) && skip p then rest else p :: rest)
      end
  end.

(** The fuel counts the handles in the list, the layers and the end. *)
Definition traversal_fuel (l : list (list Z)) : nat := length (concat l) + length l + 1.

(** One view: the list is reset, filled, and its handles restored from the outermost layer on. *)
Definition restore_view (fuel : nat) (heap : gmap Z POSHandle) (create : bool) (p : Z) (l : list (list Z)) : option (list (list Z) * list Z) :=
  l ← collect_broken_handles fuel heap p 0 (reset_layers l);
  if get_nb_layers l =? 0 then Some (l, [])
  else order ← restore_order (traversal_fuel l) (to_be_created create heap) l (get_nb_layers l - 1) 0; Some (l, order).

(** The views of one direction share the list; [restored] is the effect of restoring a handle. *)
Fixpoint restore_views (fuel : nat) (restored : Z -> gmap Z POSHandle -> gmap Z POSHandle) (heap : gmap Z POSHandle)
    (create : bool) (views : list Z) (l : list (list Z)) : option (gmap Z POSHandle * list Z) :=
  match views with
  | [] => Some (heap, [])
  | p :: views' =>
      '(l', order) ← restore_view fuel heap create p l;
      '(heap', rest) ← restore_views fuel restored (foldl (fun h q => restored q h) heap order) create views' l';
      Some (heap', order ++ rest)
  end.

(** ** The index by address *)

(** The extents that the index shows: base address, handle and size. *)
Definition extents (s : POSHandleManager) : gmap Z (Z * Z) :=
  omap (fun p => h ← hm_heap s !! p; Some (p, h_size h)) (handle_address_map s).

Record hm_ok (s : POSHandleManager) : Prop := {
  ho_entry a p : handle_address_map s !! a = Some p ->
    exists h, hm_heap s !! p = Some h /\ client_addr h = a /\ 0 <= a /\ 0 < h_size h /\ a + h_size h < 2 ^ 64 /\
      is_deleted (h_status h) = false /\ (hm_passthrough s = false -> a + h_size h <= base_ptr s);
  ho_disjoint a b p q h : handle_address_map s !! a = Some p -> handle_address_map s !! b = Some q -> a < b ->
    hm_heap s !! p = Some h -> a + h_size h <= b;
  ho_base : hm_passthrough s = false -> 0 <= base_ptr s <= kPOS_ResourceEndAddr
}.

(** What a lookup finds: the extent that contains the address. *)
Definition spec_lookup (ext : gmap Z (Z * Z)) (addr : Z) (r : option (Z * Z)) : Prop :=
  forall p off, r = Some (p, off) <-> exists a sz, ext !! a = Some (p, sz) /\ a <= addr < a + sz /\ off = addr - a.

Lemma extents_Some s a p sz :
  extents s !! a = Some (p, sz) <-> handle_address_map s !! a = Some p /\ exists h, hm_heap s !! p = Some h /\ h_size h = sz.
Proof.
  unfold extents. rewrite lookup_omap. destruct (handle_address_map s !! a) as [q|]; cbn; [|naive_solver].
  destruct (hm_heap s !! q) as [h|] eqn:Hh; cbn; naive_solver.
Qed.

Lemma predecessor_fold addr (l : list (Z * Z)) r :
  foldr (fun kp best =>
    if kp.1 <? addr then match best with Some b => if b.1 <? kp.1 then Some kp else best | None => Some kp end
    else best) None l = r ->
  match r with
  | Some kp => kp ∈ l /\ kp.1 < addr /\ forall kp', kp' ∈ l -> kp'.1 < addr -> kp'.1 <= kp.1
  | None => forall kp', kp' ∈ l -> addr <= kp'.1
  end.
Proof.
  revert r. induction l as [|kp l IH]; intros r <-; cbn [foldr]; [intros kp' ?; set_solver|].
  specialize (IH _ eq_refl). destruct (Z.ltb_spec kp.1 addr).
  - destruct (foldr _ _ _) as [b|].
    + destruct IH as (Hb & Hlt & Hmax). destruct (Z.ltb_spec b.1 kp.1).
      * split_and!; [constructor|done|]. intros kp' [->|Hin]%elem_of_cons ?; [lia|]. specialize (Hmax kp' Hin). lia.
      * split_and!; [by constructor|done|]. intros kp' [->|Hin]%elem_of_cons ?; [lia|]. auto.
    + split_and!; [constructor|done|]. intros kp' [->|Hin]%elem_of_cons ?; [lia|]. specialize (IH kp' Hin). lia.
  - destruct (foldr _ _ _) as [b|].
    + destruct IH as (Hb & Hlt & Hmax). split_and!; [by constructor|done|]. intros kp' [->|Hin]%elem_of_cons ?; [lia|]. auto.
    + intros kp' [->|Hin]%elem_of_cons; [lia|]. auto.
Qed.

Lemma predecessor_spec addr m :
  match predecessor addr m with
  | Some (a, p) => m !! a = Some p /\ a < addr /\ forall b q, m !! b = Some q -> b < addr -> b <= a
  | None => forall b q, m !! b = Some q -> addr <= b
  end.
Proof.
  pose proof (predecessor_fold addr (map_to_list m) _ eq_refl) as Hp. fold (predecessor addr m) in Hp.
  destruct (predecessor addr m) as [[a p]|].
  - destruct Hp as (Hin & Hlt & Hmax). apply elem_of_map_to_list in Hin. split_and!; [done|done|].
    intros b q Hb ?. by apply (Hmax (b, q)); [apply elem_of_map_to_list|].
  - intros b q Hb. by apply (Hp (b, q)), elem_of_map_to_list.
Qed.

Section lookups.
Context `{!Allocator}.
Implicit Types s : POSHandleManager.

Lemma in_range_spec addr h : 0 <= client_addr h -> 0 < h_size h -> client_addr h + h_size h < 2 ^ 64 ->
  is_client_addr_in_range addr h = if decide (client_addr h <= addr < client_addr h + h_size h) then Some (addr - client_addr h) else None.
Proof.
  intros. unfold is_client_addr_in_range. rewrite wrap_small by lia.
  destruct (Z.leb_spec (client_addr h) addr), (Z.ltb_spec addr (client_addr h + h_size h)); cbn; case_decide; done || lia.
Qed.

(** A lookup by address finds exactly the extent around it and changes nothing. *)
Lemma lookup_spec addr s e : hm_ok s ->
  exists r, get_handle_by_client_addr addr s e = Ok r s e /\ spec_lookup (extents s) addr r.
Proof.
  intros Hs. unfold get_handle_by_client_addr. mbase. destruct (handle_address_map s !! addr) as [p|] eqn:Hm.
  - destruct (ho_entry s Hs addr p Hm) as (h & Hh & Hc & Ha & Hz & Hu & Hd & _).
    exists (Some (p, 0)). unfold load_handle, hm_assert. mrun. rewrite Hh, Hd. split; [done|].
    intros q off. split.
    + intros [= <- <-]. exists addr, (h_size h). rewrite extents_Some. split_and!; [done|by eauto|lia..].
    + intros (a & sz & (Hq & h' & Hh' & <-)%extents_Some & Hr & ->). destruct (decide (a = addr)) as [->|]; [f_equal; f_equal; [congruence|lia]|].
      pose proof (ho_disjoint s Hs a addr q p h' Hq Hm ltac:(lia) Hh'). lia.
  - pose proof (predecessor_spec addr (handle_address_map s)) as Hp. destruct (predecessor addr (handle_address_map s)) as [[a p]|].
    + destruct Hp as (Ha & Hlt & Hmax). destruct (ho_entry s Hs a p Ha) as (h & Hh & Hc & Ha0 & Hz & Hu & Hd & _).
      eexists. unfold load_handle, hm_assert. mrun. rewrite Hh, Hd. split; [done|]. rewrite in_range_spec by lia. rewrite Hc.
      intros q off. split.
      * case_decide; [|done]. intros [= <- <-]. exists a, (h_size h). rewrite extents_Some. split_and!; [done|by eauto|lia..].
      * intros (b & sz & (Hq & h' & Hh' & <-)%extents_Some & Hr & ->). destruct (decide (b = addr)) as [->|]; [congruence|].
        pose proof (Hmax b q Hq ltac:(lia)). destruct (decide (b = a)) as [->|].
        -- simplify_eq. by rewrite decide_True by lia.
        -- pose proof (ho_disjoint s Hs b a q p h' Hq Ha ltac:(lia) Hh'). lia.
    + exists None. split; [done|]. intros q off. split; [done|].
      intros (b & sz & (Hq & _)%extents_Some & Hr & ->). pose proof (Hp b q Hq). assert (b = addr) as -> by lia. congruence.
Qed.
End lookups.

(** ** Changes of the index *)

Section index.
Implicit Types s : POSHandleManager.

Definition indexed s (p : Z) : Prop := exists a, handle_address_map s !! a = Some p.
Definition base_grows s s' : Prop :=
  hm_passthrough s' = hm_passthrough s /\
  (hm_passthrough s = false -> base_ptr s <= base_ptr s' <= kPOS_ResourceEndAddr).

(** [size] bytes at [a] that belong to no extent. *)
Definition extent_free (ext : gmap Z (Z * Z)) (a size : Z) : Prop :=
  forall b q sz, ext !! b = Some (q, sz) -> b + sz <= a \/ a + size <= b.

(** The address belongs to an extent. *)
Definition taken (ext : gmap Z (Z * Z)) (a : Z) : Prop := exists b q sz, ext !! b = Some (q, sz) /\ b <= a < b + sz.

(** A new extent comes to lie on no other one, or its address belongs to one. *)
Definition place_ok (ext : gmap Z (Z * Z)) (a size : Z) : Prop := taken ext a \/ extent_free ext a size.

(** The index after recording an extent: one whose address is taken is not recorded. *)
Definition recorded (ext : gmap Z (Z * Z)) (a p size : Z) (ext' : gmap Z (Z * Z)) : Prop :=
  taken ext a /\ ext' = ext \/ extent_free ext a size /\ ext' = <[a := (p, size)]> ext.

(** The index is the same and the handles in it keep address, size and life. *)
Lemma index_same s s' : hm_ok s -> handle_address_map s' = handle_address_map s -> base_grows s s' ->
  (forall p h, indexed s p -> hm_heap s !! p = Some h ->
    exists h', hm_heap s' !! p = Some h' /\ client_addr h' = client_addr h /\ h_size h' = h_size h /\ is_deleted (h_status h') = false) ->
  hm_ok s' /\ extents s' = extents s.
Proof.
  intros Hs Hm [Hpt Hb] Hh. split; [split|].
  - intros a p. rewrite Hm, Hpt. intros Hp. destruct (ho_entry s Hs a p Hp) as (h & Hh0 & Hc & ? & ? & ? & ? & Hbase).
    destruct (Hh p h (ex_intro _ a Hp) Hh0) as (h' & Hh' & Hc' & Hz' & Hd'). exists h'. rewrite Hc', Hz'. split_and!; try done.
    intros Hf. specialize (Hbase Hf). specialize (Hb Hf). lia.
  - intros a b p q h'. rewrite Hm. intros Hp Hq Hlt Hh'. destruct (ho_entry s Hs a p Hp) as (h & Hh0 & _).
    destruct (Hh p h (ex_intro _ a Hp) Hh0) as (h1 & Hh1 & _ & Hz1 & _). simplify_eq. rewrite Hz1. by eapply (ho_disjoint s Hs).
  - rewrite Hpt. intros Hf. pose proof (ho_base s Hs Hf). specialize (Hb Hf). lia.
  - unfold extents. rewrite Hm. apply omap_ext. intros a p Hp. destruct (ho_entry s Hs a p Hp) as (h & Hh0 & _).
    destruct (Hh p h (ex_intro _ a Hp) Hh0) as (h1 & Hh1 & _ & Hz1 & _). rewrite Hh0, Hh1. cbn. by rewrite Hz1.
Qed.

Lemma index_drop s s' a : hm_ok s -> handle_address_map s' = delete a (handle_address_map s) -> base_grows s s' ->
  hm_heap s' = hm_heap s -> hm_ok s' /\ extents s' = delete a (extents s).
Proof.
  intros Hs Hm [Hpt Hb] Hh. split; [split|].
  - intros b p. rewrite Hm, Hh, Hpt. intros [_ Hp]%lookup_delete_Some. destruct (ho_entry s Hs b p Hp) as (h & ? & ? & ? & ? & ? & ? & Hbase).
    exists h. split_and!; try done. intros Hf. specialize (Hbase Hf). specialize (Hb Hf). lia.
  - intros b c p q h. rewrite Hm, Hh. intros [_ Hp]%lookup_delete_Some [_ Hq]%lookup_delete_Some. by eapply (ho_disjoint s Hs).
  - rewrite Hpt. intros Hf. pose proof (ho_base s Hs Hf). specialize (Hb Hf). lia.
  - unfold extents. by rewrite Hm, Hh, omap_delete.
Qed.

Lemma index_add s s' a p h : hm_ok s -> ~ indexed s p -> handle_address_map s' = <[a := p]> (handle_address_map s) -> base_grows s s' ->
  (forall q, q <> p -> hm_heap s' !! q = hm_heap s !! q) -> hm_heap s' !! p = Some h ->
  client_addr h = a -> 0 <= a -> 0 < h_size h -> a + h_size h < 2 ^ 64 -> is_deleted (h_status h) = false ->
  (hm_passthrough s = false -> a + h_size h <= base_ptr s') -> extent_free (extents s) a (h_size h) ->
  hm_ok s' /\ extents s' = <[a := (p, h_size h)]> (extents s).
Proof.
  intros Hs Hni Hm [Hpt Hb] Hh Hp Hc Ha Hz Hu Hd Hbase Hfree.
  assert (forall b q, handle_address_map s !! b = Some q -> exists g, hm_heap s' !! q = Some g /\ hm_heap s !! q = Some g /\
    (b + h_size g <= a \/ a + h_size h <= b)) as Hold.
  { intros b q Hq. destruct (ho_entry s Hs b q Hq) as (g & Hg & _). assert (q <> p) as Hne by (intros ->; apply Hni; by exists b).
    exists g. rewrite Hh by done. split_and!; [done|done|]. apply (Hfree b q). apply extents_Some. eauto. }
  split; [split|].
  - intros b q. rewrite Hm, Hpt. intros [[<- <-]|[_ Hq]]%lookup_insert_Some; [by exists h|].
    destruct (Hold b q Hq) as (g & Hg' & Hg & _). destruct (ho_entry s Hs b q Hq) as (g' & ? & ? & ? & ? & ? & ? & Hbase'). simplify_eq.
    exists g. split_and!; try done. intros Hf. specialize (Hbase' Hf). specialize (Hb Hf). lia.
  - intros b c q r g. rewrite Hm. intros Hq Hr Hlt Hg.
    apply lookup_insert_Some in Hq as [[Hba Hqp]|[Hba Hq]]; apply lookup_insert_Some in Hr as [[Hca Hrp]|[Hca Hr]]; subst.
    + lia.
    + rewrite Hp in Hg. injection Hg as ->. destruct (Hold c r Hr) as (g' & _ & Hg' & [?|?]); [|done].
      destruct (ho_entry s Hs c r Hr) as (g1 & Hg1 & _ & _ & ? & _). simplify_eq. lia.
    + destruct (Hold b q Hq) as (g' & Hg' & _ & [?|?]); simplify_eq; [done|lia].
    + destruct (Hold b q Hq) as (g' & Hg' & Hg1 & _). simplify_eq. by eapply (ho_disjoint s Hs b c q r).
  - rewrite Hpt. intros Hf. pose proof (ho_base s Hs Hf). specialize (Hb Hf). lia.
  - unfold extents. rewrite Hm. erewrite omap_insert_Some; [|by rewrite Hp].
    f_equal. apply omap_ext. intros b q Hq. destruct (Hold b q Hq) as (g & Hg' & Hg & _). by rewrite Hg, Hg'.
Qed.

Lemma extent_free_lookup ext a size : 0 < size -> extent_free ext a size -> spec_lookup ext a None.
Proof.
  intros Hz Hf p off. split; [done|]. intros (b & sz & Hb & Hr & ->). destruct (Hf b p sz Hb); lia.
Qed.

Lemma spec_lookup_unique ext a r : spec_lookup ext a None -> spec_lookup ext a r -> r = None.
Proof. intros Hn Hr. destruct r as [[p off]|]; [|done]. pose proof (proj1 (Hr p off) eq_refl) as Hx. by apply Hn in Hx. Qed.
End index.

(** ** The operations *)

Inductive hm_op :=
  | Lookup (addr : Z)
  | Allocate (size : Z) (expected_addr : option Z) (state_size : Z)
  | SetAddr (p addr : Z)
  | Mark (p : Z) (status : pos_handle_status)
  | RestoreMocked (id client server size : Z) (waitlist : list (Z * Z)) (state_size : Z).

(** The result of a call: the handle with an offset, if any, and the return value. *)
Definition exec_hm `{!Allocator} (op : hm_op) : M POSHandleManager (pos_retval * option (Z * Z)) :=
  match op with
  | Lookup addr =>
      r ← get_handle_by_client_addr addr;
      mret (match r with Some _ => POS_SUCCESS | None => POS_FAILED_NOT_EXIST end, r)
  | Allocate size expected state_size => 
      x ← allocate_mocked_resource size expected state_size; mret (x.1, (fun p : Z => (p, 0)) <$> x.2)
  | SetAddr p addr => r ← set_passthrough_addr p addr; mret (r, None)
  | Mark p st => r ← mark_handle_status p st; mret (r, None)
  | RestoreMocked id client server size waitlist state_size =>
      x ← restore_mocked_resource id client server size waitlist state_size; mret (x.1, (fun p : Z => (p, 0)) <$> x.2)
  end.

(** The base address that an allocation uses. *)
Definition alloc_base (expected : option Z) (s : POSHandleManager) : Z := default (base_ptr s) expected.

(** What the callers see to: sizes are positive and extents end in the address space; an expected
    address does not move the base back, nor behind the end of the range; an extent given by the driver
    or by a checkpoint does not begin before a live one and run into it, but may begin inside one;
    a restored pass-through handle has one address. *)
Definition hm_fits (op : hm_op) (s : POSHandleManager) : Prop :=
  match op with
  | Lookup _ => True
  | Allocate size expected _ => 0 < size < 2 ^ 63 /\
      (hm_passthrough s = false -> base_ptr s <= alloc_base expected s <= kPOS_ResourceEndAddr)
  | SetAddr p addr => hm_passthrough s = true /\ ~ indexed s p /\ exists h, hm_heap s !! p = Some h /\ is_deleted (h_status h) = false /\
      0 <= addr /\ 0 < h_size h /\ addr + h_size h < 2 ^ 64 /\ place_ok (extents s) addr (h_size h)
  | Mark p st => st <> kPOS_HandleStatus_StateReady /\ st <> kPOS_HandleStatus_StateMiss /\ is_Some (hm_heap s !! p)
  | RestoreMocked id client server size _ _ => 0 <= id /\ 0 < size /\ 0 <= client <= kPOS_ResourceEndAddr /\
      client + size < 2 ^ 64 /\ (hm_passthrough s = true -> server = client) /\ place_ok (extents s) client size
  end.

(** The index as a set of extents. *)
Definition spec_hm (op : hm_op) (s : POSHandleManager) (r : pos_retval * option (Z * Z)) (ext' : gmap Z (Z * Z)) : Prop :=
  match op with
  | Lookup addr => ext' = extents s /\ spec_lookup (extents s) addr r.2 /\ r.1 = match r.2 with Some _ => POS_SUCCESS | None => POS_FAILED_NOT_EXIST end
  | Allocate size expected _ =>
      if hm_passthrough s then ext' = extents s /\ r.1 = POS_SUCCESS
      else if decide (kPOS_ResourceEndAddr - alloc_base expected s < size) then ext' = extents s /\ r = (POS_FAILED_DRAIN, None)
      else exists p, ~ indexed s p /\ r = (POS_SUCCESS, Some (p, 0)) /\ ext' = <[alloc_base expected s := (p, size)]> (extents s)
  | SetAddr p addr => r = (POS_SUCCESS, None) /\ exists h, hm_heap s !! p = Some h /\ recorded (extents s) addr p (h_size h) ext'
  | Mark p st => r = (POS_SUCCESS, None) /\
      if is_deleted st then exists h, hm_heap s !! p = Some h /\ ext' = delete (client_addr h) (extents s) else ext' = extents s
  | RestoreMocked id client server size _ _ =>
      match get_handle_by_id id s with
      | Some p => r = (POS_SUCCESS, Some (p, 0)) /\ ext' = extents s
      | None =>
          if negb (hm_passthrough s) && bool_decide (kPOS_ResourceEndAddr - client < size) then r = (POS_FAILED_DRAIN, None) /\ ext' = extents s
          else exists p, ~ indexed s p /\ r = (POS_SUCCESS, Some (p, 0)) /\ recorded (extents s) client p size ext'
      end
  end.

Section operations.
Context `{!Allocator}.
Implicit Types s : POSHandleManager.

Lemma new_handle_spec h s e : exists p, new_handle h s e = Ok p (hm_set_heap (<[p := h]> (hm_heap s)) s) e /\ hm_heap s !! p = None.
Proof. eexists. unfold new_handle. mbase. split; [done|]. apply not_elem_of_dom, alloc_fresh. Qed.

Lemma fresh_not_indexed p s : hm_ok s -> hm_heap s !! p = None -> ~ indexed s p.
Proof. intros Hs Hp [a Ha]. destruct (ho_entry s Hs a p Ha) as (h & Hh & _). congruence. Qed.

Lemma store_handle_spec p f h s e : hm_heap s !! p = Some h ->
  store_handle p f s e = Ok tt (hm_set_heap (<[p := f h]> (hm_heap s)) s) e.
Proof. intros Hp. unfold store_handle, load_handle. mrun. by rewrite Hp. Qed.

(** Recording an address that belongs to no extent. *)
Lemma record_spec a p size s e : hm_ok s -> 0 < size -> extent_free (extents s) a size ->
  record_handle_address a p s e = Ok POS_SUCCESS (hm_set_map (<[a := p]> (handle_address_map s)) s) e.
Proof.
  intros Hs Hz Hf. destruct (lookup_spec a s e Hs) as (r & Hr & Hl).
  assert (r = None) as -> by (by eapply spec_lookup_unique; [by eapply extent_free_lookup|]).
  unfold record_handle_address. mbase. by rewrite Hr.
Qed.

(** An address inside an extent is not recorded. *)
Lemma record_taken a p s e : hm_ok s -> taken (extents s) a -> record_handle_address a p s e = Ok POS_SUCCESS s e.
Proof.
  intros Hs (b & q & sz & Hb & Hr). destruct (lookup_spec a s e Hs) as (r & Hrun & Hl).
  assert (r = Some (q, a - b)) as -> by (apply Hl; eauto). unfold record_handle_address. mbase. by rewrite Hrun.
Qed.

(** A handle outside the index does not matter to it. *)
Lemma heap_insert_ok p h s : hm_ok s -> ~ indexed s p ->
  hm_ok (hm_set_heap (<[p := h]> (hm_heap s)) s) /\ extents (hm_set_heap (<[p := h]> (hm_heap s)) s) = extents s.
Proof.
  intros Hs Hp. apply index_same; [done|done|split; [done|]|].
  - intros Hf. cbn. pose proof (ho_base s Hs Hf). lia.
  - intros q g Hq Hg. exists g. cbn. assert (q <> p) by congruence. rewrite lookup_insert_ne by congruence.
    destruct Hq as [a Ha]. destruct (ho_entry s Hs a q Ha) as (g' & ? & ? & ? & ? & ? & ? & _). simplify_eq. done.
Qed.

Lemma end_u64 b : 0 <= b <= kPOS_ResourceEndAddr -> u64 (kPOS_ResourceEndAddr - b) = kPOS_ResourceEndAddr - b.
Proof. intros. apply wrap_small. unfold kPOS_ResourceEndAddr in *. lia. Qed.

Lemma base_extent_free s a size : hm_ok s -> hm_passthrough s = false -> base_ptr s <= a -> extent_free (extents s) a size.
Proof.
  intros Hs Hf Ha b q sz (Hq & g & Hg & <-)%extents_Some. left.
  destruct (ho_entry s Hs b q Hq) as (g' & ? & _ & _ & _ & _ & _ & Hb). simplify_eq. specialize (Hb Hf). lia.
Qed.

(** A state that differs only outside the index. *)
Lemma hm_ok_ext s s' : hm_ok s -> handle_address_map s' = handle_address_map s -> hm_heap s' = hm_heap s -> base_grows s s' ->
  hm_ok s' /\ extents s' = extents s.
Proof.
  intros Hs Hm Hh Hb. apply index_same; [done..|]. intros p h [a Ha] Hp. rewrite Hh. exists h.
  destruct (ho_entry s Hs a p Ha) as (h' & ? & ? & ? & ? & ? & ? & _). simplify_eq. done.
Qed.

Lemma base_grows_refl s : hm_ok s -> base_grows s s.
Proof. intros Hs. split; [done|]. intros Hf. pose proof (ho_base s Hs Hf). lia. Qed.

Lemma hm_handles_ok l s : hm_ok s -> hm_ok (hm_set_handles l s) /\ extents (hm_set_handles l s) = extents s.
Proof. intros Hs. apply hm_ok_ext; [done|done|done|]. apply (base_grows_refl s Hs). Qed.

(** A new handle at a free extent, recorded. *)
Lemma new_recorded a size id st s e : hm_ok s -> 0 <= a -> 0 < size -> a + size <= kPOS_ResourceEndAddr ->
  hm_passthrough s = false -> extent_free (extents s) a size ->
  exists p, hm_heap s !! p = None /\ new_handle (handle_new a size id st) s e = Ok p (hm_set_heap (<[p := handle_new a size id st]> (hm_heap s)) s) e /\
    record_handle_address a p (hm_set_heap (<[p := handle_new a size id st]> (hm_heap s)) s) e =
      Ok POS_SUCCESS (hm_set_map (<[a := p]> (handle_address_map s)) (hm_set_heap (<[p := handle_new a size id st]> (hm_heap s)) s)) e /\
    forall base, base_ptr s <= base <= kPOS_ResourceEndAddr -> a + size <= base ->
      let s' := hm_set_base base (hm_set_map (<[a := p]> (handle_address_map s)) (hm_set_heap (<[p := handle_new a size id st]> (hm_heap s)) s)) in
      hm_ok s' /\ extents s' = <[a := (p, size)]> (extents s).
Proof.
  intros Hs Ha Hz Hend Hpt Hf. destruct (new_handle_spec (handle_new a size id st) s e) as (p & Hn & Hp).
  pose proof (fresh_not_indexed p s Hs Hp) as Hni. destruct (heap_insert_ok p (handle_new a size id st) s Hs Hni) as [Hs1 He1].
  exists p. split_and!; [done|done|by erewrite record_spec; [..|rewrite He1]|].
  intros base Hb Hab s'. apply (index_add s s' a p (handle_new a size id st)); try done.
  - intros q Hq. unfold s'. cbn. by rewrite lookup_insert_ne by congruence.
  - unfold s'. cbn. apply lookup_insert_eq.
  - cbn. unfold kPOS_ResourceEndAddr in *. lia.
Qed.

Lemma allocate_spec size expected st s e : hm_ok s -> hm_fits (Allocate size expected st) s ->
  exists r s', exec_hm (Allocate size expected st) s e = Ok r s' e /\ hm_ok s' /\ spec_hm (Allocate size expected st) s r (extents s').
Proof.
  intros Hs [Hz Hexp]. cbn [exec_hm spec_hm]. unfold allocate_mocked_resource. mbase. destruct (hm_passthrough s) eqn:Hpt.
  - set (h := handle_new 0 size (Z.of_nat (length (hm_handles s))) st). destruct (new_handle_spec h s e) as (p & Hn & Hp).
    rewrite Hn. cbv beta iota. destruct (heap_insert_ok p h s Hs (fresh_not_indexed p s Hs Hp)) as [Hs1 He1].
    set (s1 := hm_set_heap (<[p := h]> (hm_heap s)) s) in *. eexists _, _. split; [done|].
    destruct (hm_handles_ok (hm_handles s ++ [Some p]) s1 Hs1) as [Hs2 He2].
    split; [exact Hs2|]. split; [by etrans; [exact He2|]|done].
  - specialize (Hexp eq_refl). set (base := alloc_base expected s) in *. set (s1 := hm_set_base base s).
    destruct (hm_ok_ext s s1) as [Hs1 He1]; [done|done|done|split; [done|intros _; cbn; lia]|].
    assert ((match expected with Some a => fun s e => Ok tt (hm_set_base a s) e | None => fun s e => Ok tt s e end : M POSHandleManager unit) s e
      = Ok tt s1 e) as ->.
    { unfold s1, base, alloc_base. destruct expected; [done|]. by destruct s. }
    cbv beta iota. change (base_ptr s1) with base. pose proof (ho_base s Hs Hpt). rewrite end_u64 by lia.
    destruct (Z.ltb_spec (kPOS_ResourceEndAddr - base) size).
    + eexists _, _. split; [done|]. split; [done|]. by rewrite decide_True by done.
    + destruct (new_recorded base size (Z.of_nat (length (hm_handles s1))) st s1 e) as (p & Hp & Hn & Hr & Hok); [done|lia|lia|lia|done|by apply base_extent_free|].
      rewrite Hn. cbv beta iota. rewrite Hr. cbv beta iota. rewrite decide_True by done. mbase. cbn [base_ptr hm_set_map hm_set_heap].
      change (base_ptr s1) with base. rewrite wrap_small by (unfold kPOS_ResourceEndAddr in *; lia).
      eexists _, _. split; [done|]. destruct (Hok (base + size)) as [Hs2 He2]; [cbn; lia|lia|].
      eapply hm_handles_ok in Hs2 as [Hs3 He3]. split; [exact Hs3|].
      rewrite decide_False by lia. exists p. split_and!; [by apply (fresh_not_indexed p s)|done|]. by rewrite He3, He2, He1.
Qed.

(** A handle outside the index gets an address and is recorded there. *)
Lemma address_recorded p addr h s e : hm_ok s -> ~ indexed s p -> hm_heap s !! p = Some h -> is_deleted (h_status h) = false ->
  client_addr h = addr -> 0 <= addr -> 0 < h_size h -> addr + h_size h < 2 ^ 64 ->
  (hm_passthrough s = false -> addr + h_size h <= base_ptr s) -> place_ok (extents s) addr (h_size h) ->
  exists s', record_handle_address addr p s e = Ok POS_SUCCESS s' e /\ hm_ok s' /\ hm_heap s' = hm_heap s /\
    recorded (extents s) addr p (h_size h) (extents s') /\ taken (extents s') addr.
Proof.
  intros Hs Hni Hh Hd Hc Ha Hz Hu Hb [Ht|Hf].
  - exists s. split_and!; [by apply record_taken|done|done|by left|done].
  - eexists. split; [by eapply record_spec|].
    destruct (index_add s (hm_set_map (<[addr := p]> (handle_address_map s)) s) addr p h) as [Hs2 He2]; try done.
    + apply (base_grows_refl s Hs).
    + split_and!; [done|done|by right|]. rewrite He2. exists addr, p, (h_size h). rewrite lookup_insert_eq. split; [done|lia].
Qed.

Lemma set_addr_spec p addr s e : hm_ok s -> hm_fits (SetAddr p addr) s ->
  exists r s', exec_hm (SetAddr p addr) s e = Ok r s' e /\ hm_ok s' /\ spec_hm (SetAddr p addr) s r (extents s').
Proof.
  intros Hs (Hpt & Hni & h & Hh & Hd & Ha & Hz & Hu & Hf). cbn [exec_hm spec_hm]. unfold set_passthrough_addr. mbase.
  erewrite store_handle_spec by done. cbv beta iota. destruct (heap_insert_ok p (set_addrs addr addr h) s Hs Hni) as [Hs1 He1].
  set (s1 := hm_set_heap _ s) in *. destruct (address_recorded p addr (set_addrs addr addr h) s1 e) as (s' & Hr & Hs' & _ & He' & _); try done.
  - apply lookup_insert_eq.
  - cbn. by rewrite Hpt.
  - by rewrite He1.
  - rewrite Hr. eexists _, s'. split; [done|]. split; [done|]. split; [done|]. exists h. by rewrite He1 in He'.
Qed.

(** Marking a handle without deleting it. *)
Lemma mark_alive p h f s : hm_ok s -> hm_heap s !! p = Some h -> client_addr (f h) = client_addr h -> h_size (f h) = h_size h ->
  is_deleted (h_status (f h)) = false ->
  hm_ok (hm_set_heap (<[p := f h]> (hm_heap s)) s) /\ extents (hm_set_heap (<[p := f h]> (hm_heap s)) s) = extents s.
Proof.
  intros Hs Hp Hc Hz Hd. apply index_same; [done|done|apply (base_grows_refl s Hs)|].
  intros q g [a Ha] Hg. cbn. destruct (decide (q = p)) as [->|Hne].
  - simplify_eq. exists (f h). rewrite lookup_insert_eq. done.
  - rewrite lookup_insert_ne by congruence. exists g. destruct (ho_entry s Hs a q Ha) as (g' & ? & ? & ? & ? & ? & ? & _). simplify_eq. done.
Qed.

(** A deleted handle leaves the index together with its change of status. *)
Lemma mark_deleted_spec p h st s e : hm_ok s -> hm_heap s !! p = Some h -> is_deleted st = true ->
  exists s', mark_handle_status p st s e = Ok POS_SUCCESS s' e /\ hm_ok s' /\ extents s' = delete (client_addr h) (extents s).
Proof.
  intros Hs Hp Hd. set (s1 := hm_set_heap (<[p := set_status st h]> (hm_heap s)) s).
  assert (mark_handle_status p st s e = (drop_address p;; mret POS_SUCCESS) s1 e) as ->.
  { destruct st; try done; unfold mark_handle_status; mbase; by erewrite store_handle_spec. }
  unfold drop_address, load_handle. mrun. cbn [s1 hm_heap hm_set_heap]. unfold s1 at 1. cbn [hm_heap hm_set_heap]. rewrite lookup_insert_eq.
  cbn [client_addr set_status]. eexists. split; [done|].
  set (s0 := hm_set_map (delete (client_addr h) (handle_address_map s)) s).
  destruct (index_drop s s0 (client_addr h)) as [Hs0 He0]; [done|done|apply (base_grows_refl s Hs)|done|].
  assert (~ indexed s0 p) as Hni.
  { intros [a Ha]. cbn in Ha. apply lookup_delete_Some in Ha as [Hne Ha]. destruct (ho_entry s Hs a p Ha) as (g & ? & ? & _). simplify_eq. }
  destruct (heap_insert_ok p (set_status st h) s0 Hs0 Hni) as [Hs2 He2].
  cbn [handle_address_map hm_set_heap]. destruct (handle_address_map s !! client_addr h) as [q|] eqn:Hm.
  - rewrite <- He0, <- He2. eapply hm_ok_ext; [exact Hs2|done|done|apply (base_grows_refl _ Hs2)].
  - assert (delete (client_addr h) (handle_address_map s) = handle_address_map s) as Hdel by (by apply delete_id).
    rewrite <- He0, <- He2. eapply hm_ok_ext; [exact Hs2|cbn; by rewrite Hdel|done|apply (base_grows_refl _ Hs2)].
Qed.

Lemma mark_spec p st s e : hm_ok s -> hm_fits (Mark p st) s ->
  exists r s', exec_hm (Mark p st) s e = Ok r s' e /\ hm_ok s' /\ spec_hm (Mark p st) s r (extents s').
Proof.
  intros Hs (Hn1 & Hn2 & h & Hp). cbn [exec_hm spec_hm]. mbase. destruct (is_deleted st) eqn:Hd.
  - destruct (mark_deleted_spec p h st s e Hs Hp Hd) as (s' & Hr & Hs' & He'). rewrite Hr. eexists _, s'. split; [done|]. split; [done|]. split; [done|]. by exists h.
  - destruct (mark_alive p h (set_status st) s Hs Hp) as [Hs' He']; [done|done|done|].
    assert (mark_handle_status p st s e = Ok POS_SUCCESS (hm_set_heap (<[p := set_status st h]> (hm_heap s)) s) e) as ->.
    { destruct st; try done; unfold mark_handle_status; mbase; by erewrite store_handle_spec. }
    eexists _, _. split; [done|]. done.
Qed.

Lemma resize_length id l : 0 <= id -> (Z.to_nat id < length (resize_handles id l))%nat.
Proof. intros. unfold resize_handles. destruct (Z.leb_spec (Z.of_nat (length l)) id); [rewrite length_app, length_replicate; lia|lia]. Qed.

Lemma get_by_id_resized id s : 0 <= id -> get_handle_by_id id (hm_set_handles (resize_handles id (hm_handles s)) s) = get_handle_by_id id s.
Proof.
  intros Hid. unfold get_handle_by_id. cbn. pose proof (resize_length id (hm_handles s) Hid).
  destruct (Z.leb_spec (Z.of_nat (length (resize_handles id (hm_handles s)))) id); [lia|]. unfold resize_handles in *.
  destruct (Z.leb_spec (Z.of_nat (length (hm_handles s))) id); [|done].
  rewrite lookup_app_r by lia. by rewrite lookup_replicate_2 by lia.
Qed.

(** The end of a restore: status, parents and the place in the table. *)
Lemma restore_tail p h id waitlist s e : hm_ok s -> hm_heap s !! p = Some h ->
  exists s', (mark_handle_status p kPOS_HandleStatus_Broken;; mark_state_status p kPOS_HandleStatus_StateMiss;;
     store_handle p (set_waitlist waitlist);; modify (fun s => hm_set_handles (<[Z.to_nat id := Some p]> (hm_handles s)) s);;
     mret (POS_SUCCESS, Some p)) s e = Ok (POS_SUCCESS, Some p) s' e /\ hm_ok s' /\ extents s' = extents s.
Proof.
  intros Hs Hp. unfold mark_handle_status, mark_state_status, hm_assert. mbase. erewrite store_handle_spec by done. cbv beta iota.
  set (h1 := set_status kPOS_HandleStatus_Broken h). set (s1 := hm_set_heap (<[p := h1]> (hm_heap s)) s).
  destruct (mark_alive p h (set_status kPOS_HandleStatus_Broken) s Hs Hp) as [Hs1 He1]; [done|done|done|]. fold h1 s1 in Hs1, He1.
  assert (hm_heap s1 !! p = Some h1) as Hp1 by apply lookup_insert_eq. erewrite store_handle_spec by done. cbv beta iota.
  set (h2 := set_state_status kPOS_HandleStatus_StateMiss h1). set (s2 := hm_set_heap (<[p := h2]> (hm_heap s1)) s1).
  destruct (mark_alive p h1 (set_state_status kPOS_HandleStatus_StateMiss) s1 Hs1 Hp1) as [Hs2 He2]; [done|done|done|]. fold h2 s2 in Hs2, He2.
  assert (hm_heap s2 !! p = Some h2) as Hp2 by apply lookup_insert_eq. erewrite store_handle_spec by done. cbv beta iota.
  destruct (mark_alive p h2 (set_waitlist waitlist) s2 Hs2 Hp2) as [Hs3 He3]; [done|done|done|].
  eexists. split; [done|]. eapply hm_handles_ok in Hs3 as [Hs4 He4]. split; [exact Hs4|]. by rewrite He4, He3, He2.
Qed.

(** The new handle of a restore is recorded under its client address. *)
Lemma restore_fresh_spec id client server size st s e : hm_ok s -> 0 < size -> 0 <= client -> client + size <= kPOS_ResourceEndAddr ->
  place_ok (extents s) client size -> hm_passthrough s = false ->
  exists p s', hm_heap s !! p = None /\
    restore_new_handle id client server size st s e = Ok (p, POS_SUCCESS) s' e /\
    hm_ok s' /\ recorded (extents s) client p size (extents s') /\ is_Some (hm_heap s' !! p).
Proof.
  intros Hs Hz Hc Hend Hf Hpt. unfold restore_new_handle. mbase. rewrite Hpt, wrap_small by (unfold kPOS_ResourceEndAddr in *; lia).
  pose proof (ho_base s Hs Hpt). set (base := Z.max (base_ptr s) (client + size)). set (s1 := hm_set_base base s).
  assert ((if base_ptr s <? client + size then (fun s e => Ok tt (hm_set_base (client + size) s) e) : M POSHandleManager unit
    else fun s e => Ok tt s e) s e = Ok tt s1 e) as ->.
  { unfold s1, base. destruct (Z.ltb_spec (base_ptr s) (client + size)).
    - by rewrite Z.max_r by lia.
    - rewrite Z.max_l by lia. by destruct s. }
  cbv beta iota.
  destruct (hm_ok_ext s s1) as [Hs1 He1]; [done|done|done|split; [done|intros _; cbn; lia]|].
  destruct (new_handle_spec (handle_new client size id st) s1 e) as (p & Hn & Hp). rewrite Hn. cbv beta iota.
  pose proof (fresh_not_indexed p s1 Hs1 Hp) as Hni. set (h := set_addrs client server (handle_new client size id st)).
  erewrite store_handle_spec by apply lookup_insert_eq. cbv beta iota. fold h. cbn [hm_heap hm_set_heap]. rewrite insert_insert_eq.
  set (s2 := hm_set_heap _ _). assert (s2 = hm_set_heap (<[p := h]> (hm_heap s1)) s1) as Hs2 by done.
  destruct (heap_insert_ok p h s1 Hs1 Hni) as [Hs2ok He2]. rewrite <- Hs2 in Hs2ok, He2.
  destruct (address_recorded p client h s2 e) as (s' & Hr & Hs' & Hheap & He' & _); try done.
  - rewrite Hs2. apply lookup_insert_eq.
  - cbn. unfold kPOS_ResourceEndAddr in *. lia.
  - intros _. cbn. lia.
  - by rewrite He2, He1.
  - rewrite Hr. rewrite He2, He1 in He'. exists p, s'. split_and!; try done. rewrite Hheap, Hs2. cbn. rewrite lookup_insert_eq. by eexists.
Qed.

(** With pass-through addresses the handle is recorded by [set_passthrough_addr]; the second
    record finds the address taken. *)
Lemma restore_passthrough_spec id client size st s e : hm_ok s -> 0 < size -> 0 <= client -> client + size < 2 ^ 64 ->
  place_ok (extents s) client size -> hm_passthrough s = true ->
  exists p s', hm_heap s !! p = None /\
    restore_new_handle id client client size st s e = Ok (p, POS_SUCCESS) s' e /\
    hm_ok s' /\ recorded (extents s) client p size (extents s') /\ is_Some (hm_heap s' !! p).
Proof.
  intros Hs Hz Hc Hend Hf Hpt. destruct (new_handle_spec (handle_new 0 size id st) s e) as (p & Hn & Hp).
  unfold restore_new_handle, set_passthrough_addr. mbase. rewrite Hpt, Hn. cbv beta iota.
  pose proof (fresh_not_indexed p s Hs Hp) as Hni. set (h := set_addrs client client (handle_new 0 size id st)).
  erewrite store_handle_spec by apply lookup_insert_eq. cbv beta iota. fold h. cbn [hm_heap hm_set_heap]. rewrite insert_insert_eq.
  set (s2 := hm_set_heap _ _). assert (s2 = hm_set_heap (<[p := h]> (hm_heap s)) s) as Hs2 by done.
  destruct (heap_insert_ok p h s Hs Hni) as [Hs2ok He2]. rewrite <- Hs2 in Hs2ok, He2.
  destruct (address_recorded p client h s2 e) as (s' & Hr & Hs' & Hheap & He' & Ht); try done.
  - rewrite Hs2. apply lookup_insert_eq.
  - cbn. by rewrite Hpt.
  - by rewrite He2.
  - rewrite Hr. cbv beta iota. rewrite record_taken by done. rewrite He2 in He'. exists p, s'. split_and!; try done.
    rewrite Hheap, Hs2. cbn. rewrite lookup_insert_eq. by eexists.
Qed.

Lemma restore_spec id client server size waitlist st s e (op := RestoreMocked id client server size waitlist st) :
  hm_ok s -> hm_fits op s ->
  exists r s', exec_hm op s e = Ok r s' e /\ hm_ok s' /\ spec_hm op s r (extents s').
Proof.
  intros Hs (Hid & Hz & Hc & Hend & Hserver & Hf). unfold op. cbn [exec_hm spec_hm]. unfold restore_mocked_resource. mbase.
  set (s1 := hm_set_handles (resize_handles id (hm_handles s)) s).
  destruct (hm_handles_ok (resize_handles id (hm_handles s)) s Hs) as [Hs1 He1]. fold s1 in Hs1, He1.
  assert (get_handle_by_id id s1 = get_handle_by_id id s) as -> by (by apply get_by_id_resized).
  destruct (get_handle_by_id id s) as [q|]; [by eexists _, s1|]. rewrite end_u64 by lia.
  change (hm_passthrough s1) with (hm_passthrough s).
  assert ((kPOS_ResourceEndAddr - client <? size) = bool_decide (kPOS_ResourceEndAddr - client < size)) as ->.
  { case_bool_decide; [by apply Z.ltb_lt|by apply Z.ltb_ge, Z.nlt_ge]. }
  destruct (negb (hm_passthrough s) && bool_decide (kPOS_ResourceEndAddr - client < size)) eqn:Hdrain; [by eexists _, s1|].
  assert (exists p s2, hm_heap s1 !! p = None /\ restore_new_handle id client server size st s1 e = Ok (p, POS_SUCCESS) s2 e /\
    hm_ok s2 /\ recorded (extents s1) client p size (extents s2) /\ is_Some (hm_heap s2 !! p)) as (p & s2 & Hp & Hr & Hs2 & He2 & [h Hh]).
  { destruct (hm_passthrough s) eqn:Hpt; [rewrite Hserver by done; apply restore_passthrough_spec|apply restore_fresh_spec]; try done; try lia;
      rewrite ?He1; try done. cbn in Hdrain. apply bool_decide_eq_false in Hdrain. lia. }
  rewrite Hr. cbv beta iota. rewrite decide_True by done. destruct (restore_tail p h id waitlist s2 e Hs2 Hh) as (s3 & Ht & Hs3 & He3).
  revert Ht. mbase. intros ->. eexists _, s3. split; [done|]. split; [done|].
  exists p. split_and!; [by apply (fresh_not_indexed p s)|done|by rewrite He3, <- He1].
Qed.

(** C11. Every operation of a manager keeps the index well formed and acts on it as on a set of
    disjoint extents: a lookup finds the one around the address, whichever it is; an allocation,
    an address from the driver and a restore add an extent, unless the address belongs to another
    one (a duplicate, which is not recorded and reported as a success) or the range is used up;
    deleting a handle removes the extent at its address. Provided that sizes are positive and
    extents end in the address space, that an expected address does not move the base of the
    manager back or behind its end, that a new extent does not begin before a live one and run
    into it, and that a restored pass-through handle has one address. *)
Theorem handle_index_refines op s e : hm_ok s -> hm_fits op s ->
  exists r s', exec_hm op s e = Ok r s' e /\ hm_ok s' /\ spec_hm op s r (extents s').
Proof.
  intros Hs Hfit. destruct op as [addr|size expected st|p addr|p st|id client server size waitlist st].
  - destruct (lookup_spec addr s e Hs) as (r & Hr & Hl). eexists _, s. cbn [exec_hm spec_hm]. mbase. rewrite Hr. split; [done|]. done.
  - by apply allocate_spec.
  - by apply set_addr_spec.
  - by apply mark_spec.
  - by apply restore_spec.
Qed.
End operations.

(** ** The order of restoring *)

Section broken.
Implicit Types (l : list (list Z)) (heap : gmap Z POSHandle).

Definition is_parent heap (p q : Z) : Prop := exists h, heap !! p = Some h /\ q ∈ parent_handles h.
Definition broken_in heap (p : Z) : Prop := exists h, heap !! p = Some h /\ is_broken (h_status h) = true.
Definition in_layer l (n : nat) (x : Z) : Prop := exists v, l !! n = Some v /\ x ∈ v.

(** The last layer is not empty, when there are more than [k]. *)
Definition last_filled (k : nat) l : Prop := forall n v, length l = S n -> (k <= n)%nat -> l !! n = Some v -> v <> [].

Lemma add_handle_layer i p l n x : in_layer (add_handle (Z.of_nat i) p l) n x <-> in_layer l n x \/ n = i /\ x = p.
Proof.
  unfold in_layer, add_handle. rewrite Nat2Z.id. replace (Z.to_nat (Z.of_nat i + 1)) with (S i) by lia.
  set (l' := l ++ replicate (S i - length l) []).
  assert (forall y, (exists v, l' !! n = Some v /\ y ∈ v) <-> (exists v, l !! n = Some v /\ y ∈ v)) as Hl'.
  { intros y. unfold l'. destruct (decide (n < length l)%nat); [by rewrite lookup_app_l|].
    rewrite lookup_app_r by lia. rewrite (lookup_ge_None_2 l n) by lia. split; [|naive_solver].
    intros (v & [-> _]%lookup_replicate & ?). set_solver. }
  rewrite <- Hl'. destruct (decide (n = i)) as [->|Hne].
  - rewrite list_lookup_alter_eq. assert (is_Some (l' !! i)) as [v Hv].
    { apply lookup_lt_is_Some_2. unfold l'. rewrite length_app, length_replicate. lia. }
    rewrite Hv. cbn. split.
    + intros (w & [= <-] & [?|Hx]%elem_of_app); [left; eauto|right; set_solver].
    + intros [(w & [= <-] & ?)|[_ ->]]; eexists; (split; [done|set_solver]).
  - rewrite list_lookup_alter_ne by done. naive_solver.
Qed.

Lemma length_add_handle i p l : length (add_handle (Z.of_nat i) p l) = Nat.max (length l) (S i).
Proof. unfold add_handle. rewrite length_alter, length_app, length_replicate. lia. Qed.

Lemma add_handle_filled k i p l : last_filled k l -> last_filled k (add_handle (Z.of_nat i) p l).
Proof.
  intros Hl n v. rewrite length_add_handle. intros Hn Hk Hv ->.
  destruct (decide (i = n)) as [->|Hne].
  - assert (in_layer (add_handle (Z.of_nat n) p l) n p) as (w & Hw & Hin) by (apply add_handle_layer; auto).
    rewrite Hv in Hw. injection Hw as <-. set_solver.
  - assert (length l = S n) as Hlen by lia. destruct (lookup_lt_is_Some_2 l n) as [w Hw]; [lia|].
    destruct w as [|y w]; [by eapply Hl|]. assert (in_layer (add_handle (Z.of_nat i) p l) n y) as (u & Hu & Hin).
    { apply add_handle_layer. left. exists (y :: w). split; [done|constructor]. }
    rewrite Hv in Hu. injection Hu as <-. set_solver.
Qed.

(** No handle is its own ancestor, and parents exist: the depth of a handle bounds the recursion. *)
Definition rank_ok heap (rank : Z -> nat) : Prop :=
  forall p h, heap !! p = Some h -> Forall (fun q => (rank q < rank p)%nat /\ is_Some (heap !! q)) (parent_handles h).

Definition collected heap (p : Z) (i : nat) (l l' : list (list Z)) : Prop :=
  (forall n x, in_layer l' n x <-> in_layer l n x \/ exists k, n = (i + k)%nat /\ nsteps (is_parent heap) k p x /\ broken_in heap x) /\
  (forall k, last_filled k l -> last_filled k l') /\ (length l <= length l')%nat.

Lemma collect_spec heap rank fuel p i l : rank_ok heap rank -> is_Some (heap !! p) -> (rank p < fuel)%nat ->
  Z.of_nat (i + rank p) < 2 ^ 16 - 1 -> exists l', collect_broken_handles fuel heap p (Z.of_nat i) l = Some l' /\ collected heap p i l l' /\
    (length l' <= Nat.max (length l) (S (i + rank p)))%nat.
Proof.
  intros Hrank. revert p i l. induction fuel as [|fuel IH]; intros p i l [h Hp] Hfuel Hi; [lia|].
  cbn [collect_broken_handles]. rewrite Hp. cbn. set (l0 := if is_broken (h_status h) then add_handle (Z.of_nat i) p l else l).
  assert (u16 (Z.of_nat i + 1) = Z.of_nat (S i)) as -> by (rewrite wrap_small; lia).
  assert (forall n x, in_layer l0 n x <-> in_layer l n x \/ n = i /\ x = p /\ broken_in heap p) as Hl0.
  { intros n x. unfold l0. assert (broken_in heap p <-> is_broken (h_status h) = true) as -> by (unfold broken_in; naive_solver).
    destruct (is_broken (h_status h)); [rewrite add_handle_layer|]; naive_solver. }
  assert (forall k, last_filled k l -> last_filled k l0) as Hf0 by (intros k; unfold l0; destruct (is_broken _); [apply add_handle_filled|done]).
  assert (length l <= length l0)%nat as Hge0 by (unfold l0; destruct (is_broken _); [rewrite length_add_handle|]; lia).
  assert (length l0 <= Nat.max (length l) (S (i + rank p)))%nat as Hlen0 by (unfold l0; destruct (is_broken _); [rewrite length_add_handle|]; lia).
  pose proof (Hrank p h Hp) as Hq. clearbody l0.
  assert (forall qs l1, Forall (fun q => (rank q < rank p)%nat /\ is_Some (heap !! q)) qs -> (length l1 <= Nat.max (length l) (S (i + rank p)))%nat ->
    exists l', foldl (fun acc q => l ← acc; collect_broken_handles fuel heap q (Z.of_nat (S i)) l) (Some l1) qs = Some l' /\
      (forall n x, in_layer l' n x <-> in_layer l1 n x \/ exists q k, q ∈ qs /\ n = (S i + k)%nat /\ nsteps (is_parent heap) k q x /\ broken_in heap x) /\
      (forall k, last_filled k l1 -> last_filled k l') /\ (length l' <= Nat.max (length l) (S (i + rank p)))%nat /\ (length l1 <= length l')%nat) as Hfold.
  { intros qs. induction qs as [|q qs IHq]; intros l1 Hall Hlen; [exists l1; cbn; set_solver|]. apply Forall_cons in Hall as [[Hrq Hq'] Hall].
    destruct (IH q (S i) l1 Hq') as (l2 & Hc & (Hin & Hfl & Hge) & Hl2); [lia|lia|]. cbn [foldl mbind option_bind]. rewrite Hc.
    destruct (IHq l2 Hall) as (l' & Hr & Hin' & Hfl' & Hlen' & Hge'); [lia|]. exists l'. split_and!; [done| |auto|done|lia].
    intros n x. rewrite Hin', Hin. split.
    - intros [[?|(k & ? & ? & ?)]|(q' & k & ? & ? & ? & ?)]; [by left|right; exists q, k; split_and!; [set_solver|done..]|right; exists q', k; split_and!; [set_solver|done..]].
    - intros [?|(q' & k & [->|?]%elem_of_cons & ? & ? & ?)]; [by left; left|left; right; eauto|right; eauto 10]. }
  destruct (Hfold (parent_handles h) l0 Hq Hlen0) as (l' & Hr & Hin & Hfl & Hlen & Hge). exists l'. split_and!; [done|split_and!; [|auto|lia]|done].
  intros n x. rewrite Hin, Hl0. split.
  - intros [[?|(-> & -> & ?)]|(q & k & Hqp & -> & Hk & Hb)]; [by left|right; exists 0%nat; split_and!; [lia|constructor|done]|].
    right. exists (S k). split_and!; [lia|econstructor; [by exists h|done]|done].
  - intros [?|(k & -> & Hk & Hb)]; [by left; left|]. destruct Hk as [|k p q x [h' [Hh' Hq']] Hk]; [left; right; split_and!; [lia|done|done]|].
    simplify_eq. right. exists q, k. split_and!; [done|lia|done|done].
Qed.
End broken.

Section traversal.
Implicit Types (l : list (list Z)) (heap : gmap Z POSHandle).

(** Handles of the innermost layer may be skipped. *)
Definition kept (skip : Z -> bool) (i : nat) (vec : list Z) : list Z :=
  match i with O => filter (fun x => skip x = false) vec | S _ => vec end.
Definition kept_layers (skip : Z -> bool) l : list (list Z) := imap (kept skip) l.

(** What the traversal still visits below layer [i]: it ends at the first empty layer. *)
Fixpoint below (skip : Z -> bool) l (i : nat) : list Z :=
  match i with
  | O => []
  | S i' => match l !! i' with Some ((x :: v) as vec) => kept skip i' vec ++ below skip l i' | _ => [] end
  end.

Definition left_below l (i : nat) : nat := length (concat (take i l)) + i.

Lemma left_below_S l i vec : l !! i = Some vec -> left_below l (S i) = (left_below l i + length vec + 1)%nat.
Proof. intros Hi. unfold left_below. erewrite take_S_r by done. rewrite concat_app, length_app. cbn. rewrite app_nil_r. lia. Qed.

Lemma kept_cons skip i x vec :
  kept skip i (x :: vec) = if (Z.of_nat i =? 0) && skip x then kept skip i vec else x :: kept skip i vec.
Proof.
  destruct i as [|i]; [|done]. cbn [kept]. rewrite filter_cons. cbn. destruct (skip x); [by rewrite decide_False|by rewrite decide_True].
Qed.

Lemma restore_order_spec skip fuel l i j vec : l !! i = Some vec -> (j <= length vec)%nat ->
  (length vec - j + left_below l i < fuel)%nat ->
  restore_order fuel skip l (Z.of_nat i) (Z.of_nat j) = Some (kept skip i (drop j vec) ++ below skip l i).
Proof.
  revert i j vec. induction fuel as [|fuel IH]; intros i j vec Hi Hj Hf; [lia|]. cbn [restore_order]. unfold reverse_get_handle.
  rewrite !Nat2Z.id, Hi. cbn [mbind option_bind]. destruct (Z.leb_spec (Z.of_nat (length vec)) (Z.of_nat j)).
  - assert (j = length vec) as -> by lia. rewrite drop_all. destruct i as [|i]; [done|]. cbn [kept app].
    destruct (Z.eqb_spec (Z.of_nat (S i)) 0); [lia|]. replace (Z.to_nat (Z.of_nat (S i) - 1)) with i by lia. cbn [below].
    destruct (lookup_lt_is_Some_2 l i) as [v Hv]; [apply lookup_lt_Some in Hi; lia|]. rewrite Hv. cbn [mbind option_bind].
    destruct v as [|x v]; [done|]. cbn [lookup list_lookup]. replace (Z.of_nat (S i) - 1) with (Z.of_nat i) by lia.
    change 1 with (Z.of_nat 1). rewrite (IH i 1%nat (x :: v)); [|done|cbn; lia|rewrite (left_below_S l i (x :: v) Hv) in Hf; cbn in *; lia].
    cbn [mbind option_bind drop]. rewrite kept_cons. by destruct ((Z.of_nat i =? 0) && skip x).
  - destruct (lookup_lt_is_Some_2 vec j) as [x Hx]; [lia|]. rewrite Hx. cbn [mbind option_bind].
    replace (Z.of_nat j + 1) with (Z.of_nat (S j)) by lia.
    rewrite (IH i (S j) vec); [|done|lia|lia]. cbn [mbind option_bind]. rewrite (drop_S vec x j), kept_cons by done.
    by destruct ((Z.of_nat i =? 0) && skip x).
Qed.

Lemma kept_layers_lookup skip l i : kept_layers skip l !! i = kept skip i <$> l !! i.
Proof. unfold kept_layers. apply list_lookup_imap. Qed.

(** Layers that are not empty are all visited, the outermost first. *)
Lemma below_full skip l i : (i <= length l)%nat -> (forall n v, (n < i)%nat -> l !! n = Some v -> v <> []) ->
  below skip l i = concat (reverse (take i (kept_layers skip l))).
Proof.
  intros Hi Hall. induction i as [|i IH]; [done|]. destruct (lookup_lt_is_Some_2 l i) as [v Hv]; [lia|]. cbn [below]. rewrite Hv.
  erewrite take_S_r by (by rewrite kept_layers_lookup, Hv). rewrite reverse_app. cbn. rewrite <- IH; [|lia|intros n w Hn; apply Hall; lia].
  specialize (Hall i v ltac:(lia) Hv). by destruct v.
Qed.

(** A list whose first [d] layers are the filled ones: it is traversed in full when there is at
    most one layer more, and not at all when there are more. *)
Definition filled l (d : nat) : Prop :=
  (d <= length l)%nat /\ forall n v, l !! n = Some v -> v <> [] <-> (n < d)%nat.

Lemma traversal_full skip l d : l <> [] -> filled l d ->
  restore_order (traversal_fuel l) skip l (Z.of_nat (length l) - 1) 0 =
  Some (if decide (length l <= S d)%nat then concat (reverse (take d (kept_layers skip l))) else []).
Proof.
  intros Hl [Hd Hfill]. destruct (length l) as [|n] eqn:Hn; [by destruct l|]. destruct (lookup_lt_is_Some_2 l n) as [v Hv]; [lia|].
  replace (Z.of_nat (S n) - 1) with (Z.of_nat n) by lia. change 0 with (Z.of_nat 0).
  pose proof (left_below_S l n v Hv) as Hlb. assert (left_below l (S n) = (length (concat l) + S n)%nat) as Hlb'.
  { unfold left_below. by rewrite <- Hn, take_ge. }
  rewrite (restore_order_spec skip _ l n 0 v Hv); [|lia|unfold traversal_fuel; lia]. rewrite drop_0. f_equal.
  destruct (decide (d = S n)) as [->|Hne].
  - rewrite decide_True by lia. rewrite below_full; [|lia|intros m w Hm Hw; apply (Hfill m w Hw); lia].
    erewrite (take_S_r (kept_layers skip l) n) by (by rewrite kept_layers_lookup, Hv). by rewrite reverse_app.
  - assert (v = []) as -> by (destruct v as [|x v]; [done|]; assert (n < d)%nat by (by apply (Hfill n (x :: v) Hv)); lia).
    assert (kept skip n [] = []) as -> by (by destruct n). cbn [app]. destruct (decide (S n <= S d)%nat) as [Hle|Hgt].
    + assert (d = n) as -> by lia. apply below_full; [lia|]. intros m w Hm Hw. by apply (Hfill m w Hw).
    + destruct n as [|n]; [lia|]. cbn [below]. destruct (lookup_lt_is_Some_2 l n) as [w Hw]; [lia|]. rewrite Hw.
      destruct w as [|x w]; [done|]. assert (n < d)%nat by (by apply (Hfill n (x :: w) Hw)). lia.
Qed.

(** In the concatenation of the reversed layers, what is in a later layer comes earlier. *)
Lemma concat_reverse_order l i x : concat (reverse l) !! i = Some x ->
  exists n, in_layer l n x /\ forall m y, (n < m)%nat -> in_layer l m y -> exists j, (j < i)%nat /\ concat (reverse l) !! j = Some y.
Proof.
  revert i. induction l as [|v l IH]; intros i; [done|]. rewrite reverse_cons, concat_app. cbn [concat]. rewrite app_nil_r.
  intros [Hi|[Hge Hi]]%lookup_app_Some.
  - destruct (IH i Hi) as (n & (w & Hw & Hx) & Hlater). exists (S n). split; [by exists w|]. intros [|m] y Hm (u & Hu & Hy); [lia|].
    destruct (Hlater m y) as (j & Hj & Hy'); [lia|by exists u|]. exists j. split; [done|]. by apply lookup_app_l_Some.
  - exists 0%nat. split; [exists v; split; [done|by eapply list_elem_of_lookup_2]|]. intros [|m] y Hm (u & Hu & Hy); [lia|]. cbn in Hu.
    assert (y ∈ concat (reverse l)) as [j Hj]%list_elem_of_lookup.
    { apply list_elem_of_In, in_concat. exists u. split; apply list_elem_of_In; [|done]. apply elem_of_reverse. by eapply list_elem_of_lookup_2. }
    exists j. pose proof (lookup_lt_Some _ _ _ Hj). split; [lia|]. by apply lookup_app_l_Some.
Qed.

Lemma elem_of_concat_reverse l x : x ∈ concat (reverse l) <-> exists n, in_layer l n x.
Proof.
  rewrite list_elem_of_In, in_concat. split.
  - intros (v & Hv%list_elem_of_In & Hx). rewrite elem_of_reverse in Hv. apply list_elem_of_lookup in Hv as [n Hn]. exists n, v. split; [done|by apply list_elem_of_In].
  - intros (n & v & Hn & Hx). exists v. split; apply list_elem_of_In; [|done]. apply elem_of_reverse. by eapply list_elem_of_lookup_2.
Qed.

(** No layer between the handle and its outermost broken ancestor is intact. *)
Definition no_gap heap (p : Z) : Prop :=
  forall n m x, nsteps (is_parent heap) n p x -> broken_in heap x -> (m < n)%nat ->
  exists y, nsteps (is_parent heap) m p y /\ broken_in heap y.

Lemma filled_exists l : (forall n m v w, (n < m)%nat -> l !! m = Some w -> w <> [] -> l !! n = Some v -> v <> []) -> exists d, filled l d.
Proof.
  induction l as [|v l IH]; intros Hpre; [by exists 0%nat|]. destruct (decide (v = [])) as [->|Hv].
  - exists 0%nat. split; [lia|]. intros [|n] w Hw; [injection Hw as <-; split; [done|lia]|].
    split; [|lia]. intros Hne. by destruct (Hpre 0%nat (S n) [] w ltac:(lia) Hw Hne eq_refl).
  - destruct IH as [d [Hd Hfill]]; [intros n m x w Hnm Hw Hne Hx; apply (Hpre (S n) (S m) x w); (lia || done)|].
    exists (S d). split; [cbn; lia|]. intros [|n] w Hw; [injection Hw as <-; split; [lia|done]|].
    rewrite (Hfill n w Hw). lia.
Qed.

Lemma in_layer_kept skip l d n x : filled l d -> in_layer (take d (kept_layers skip l)) n x <-> in_layer l n x /\ (n = 0%nat -> skip x = false).
Proof.
  intros [Hd Hfill]. unfold in_layer. split.
  - intros (v & Hv & Hx). apply lookup_take_Some in Hv as [Hv Hn]. rewrite kept_layers_lookup in Hv. apply fmap_Some in Hv as (w & Hw & ->).
    destruct n as [|n]; [|split; [by exists w|done]]. apply list_elem_of_filter in Hx as [Hs Hx]. split; [by exists w|done].
  - intros [(w & Hw & Hx) Hs]. exists (kept skip n w). split.
    + apply lookup_take_Some. rewrite kept_layers_lookup, Hw. split; [done|]. apply (Hfill n w Hw). by intros ->; apply not_elem_of_nil in Hx.
    + destruct n as [|n]; [|done]. apply list_elem_of_filter. auto.
Qed.

(** Ancestors that are broken, unless the call itself is about to create the handle. *)
Definition to_restore (create : bool) heap (p x : Z) : Prop :=
  (exists n, nsteps (is_parent heap) n p x /\ broken_in heap x) /\ ~ (x = p /\ to_be_created create heap x = true).

(** The list that the earlier views of the call left has at most one layer more than there are
    layers of broken handles here. *)
Definition layers_fit heap (p : Z) l : Prop :=
  forall n, (S n < length l)%nat -> exists x, nsteps (is_parent heap) n p x /\ broken_in heap x.

(** No handle is its own ancestor. *)
Lemma rank_no_cycle heap rank n p : rank_ok heap rank -> nsteps (is_parent heap) (S n) p p -> False.
Proof.
  intros Hrank. assert (forall k x y, nsteps (is_parent heap) k x y -> (rank y + k <= rank x)%nat) as Hstep.
  { induction 1 as [x|k x y z (h & Hh & Hy) _ IH]; [lia|]. specialize (Hrank x h Hh). rewrite Forall_forall in Hrank.
    destruct (Hrank y Hy) as [Hlt _]. lia. }
  intros H. apply Hstep in H. lia.
Qed.

(** C18. Restoring the handle of a view of a call, when its ancestors form no cycle and are fewer
    than 2^16 - 1 layers deep, and no intact handle lies between it and a broken ancestor: the
    traversal ends. When the list left by the earlier views of the call has at most one layer more
    than there are layers of broken handles, every broken handle among the handle and its
    ancestors is restored, none other, and each only after its broken parents; a handle that the
    call itself is about to create is left to it. When the list has more layers, nothing is
    restored. *)
Theorem broken_handles_restored heap rank fuel create p l0 : rank_ok heap rank -> is_Some (heap !! p) -> (rank p < fuel)%nat ->
  Z.of_nat (rank p) < 2 ^ 16 - 1 -> Z.of_nat (length l0) < 2 ^ 16 -> no_gap heap p ->
  exists l order, restore_view fuel heap create p l0 = Some (l, order) /\
    (layers_fit heap p l0 ->
      (forall x, x ∈ order <-> to_restore create heap p x) /\
      (forall i x y, order !! i = Some x -> is_parent heap x y -> broken_in heap y -> exists j, (j < i)%nat /\ order !! j = Some y)) /\
    (forall n, (S n < length l0)%nat -> (forall x, nsteps (is_parent heap) n p x -> ~ broken_in heap x) -> order = []).
Proof.
  intros Hrank Hp Hfuel Hdepth Hl0 Hgap.
  destruct (collect_spec heap rank fuel p 0 (reset_layers l0) Hrank Hp Hfuel ltac:(lia)) as (l & Hc & (Hin & Hfl & Hge) & Hlen).
  assert (length (reset_layers l0) = length l0) as Hreset by apply length_fmap. rewrite Hreset in *.
  assert (forall n x, in_layer l n x <-> nsteps (is_parent heap) n p x /\ broken_in heap x) as Hlayer.
  { intros n x. rewrite Hin. split; [|right; by exists n]. intros [(v & Hv & Hx)|(k & -> & ?)]; [|done].
    unfold reset_layers in Hv. rewrite list_lookup_fmap in Hv. apply fmap_Some in Hv as (? & _ & ->). by apply not_elem_of_nil in Hx. }
  assert (forall n v, l !! n = Some v -> v <> [] <-> exists x, nsteps (is_parent heap) n p x /\ broken_in heap x) as Hne.
  { intros n v Hv. setoid_rewrite <- Hlayer. unfold in_layer. rewrite Hv. split.
    - destruct v as [|x v]; [done|]. intros _. exists x, (x :: v). split; [done|constructor].
    - intros (x & w & [= <-] & Hx) ->. by apply not_elem_of_nil in Hx. }
  destruct (filled_exists l) as [d Hfill].
  { intros n m v w Hnm Hw Hw' Hv. apply (Hne n v Hv). apply (Hne m w Hw) in Hw' as (x & Hx & Hb). by apply (Hgap m n x). }
  pose proof Hfill as [Hd Hfd].
  assert (forall n, (n < d)%nat <-> exists x, nsteps (is_parent heap) n p x /\ broken_in heap x) as Hdepths.
  { intros n. split.
    - intros Hn. destruct (lookup_lt_is_Some_2 l n) as [v Hv]; [lia|]. apply (Hne n v Hv). by apply (Hfd n v Hv).
    - intros (x & Hx). apply Hlayer in Hx as (v & Hv & Hx). apply (Hfd n v Hv). intros ->. by apply not_elem_of_nil in Hx. }
  assert (length l = Nat.max (length l0) d) as Hll.
  { destruct (decide (length l <= length l0)%nat); [lia|]. destruct (length l) as [|k] eqn:Hk; [lia|].
    destruct (lookup_lt_is_Some_2 l k) as [v Hv]; [lia|].
    assert (v <> []) as Hv' by (eapply (Hfl (length l0)); [|exact Hk| |exact Hv]; [intros m w Hm; lia|lia]).
    apply (Hfd k v Hv) in Hv'. lia. }
  unfold restore_view. change 0 with (Z.of_nat 0). rewrite Hc. cbn [mbind option_bind].
  unfold get_nb_layers. rewrite wrap_small by lia. change (Z.of_nat 0) with 0.
  destruct (Z.eqb_spec (Z.of_nat (length l)) 0) as [He|Hpos].
  { exists l, []. split; [done|]. split; [|done]. intros _. split; [|done]. intros x. split; [by intros ?%not_elem_of_nil|].
    intros [(n & Hx) _]. assert (n < d)%nat by (apply Hdepths; eauto). lia. }
  rewrite (traversal_full _ l d) by (done || by intros ->). cbn [mbind option_bind]. eexists l, _. split; [done|]. split.
  - intros Hfit. rewrite decide_True.
    2: { destruct (decide (length l0 <= S d)%nat); [lia|]. assert (d < d)%nat; [|lia]. apply Hdepths, Hfit. lia. }
    split.
    + intros x. rewrite elem_of_concat_reverse. setoid_rewrite (in_layer_kept _ l d _ x Hfill). setoid_rewrite Hlayer. unfold to_restore. split.
      * intros (n & Hx & Hs). split; [by exists n|]. intros [-> Ht]. destruct n as [|n]; [rewrite Hs in Ht; [done|done]|].
        destruct Hx as [Hx _]. by eapply rank_no_cycle.
      * intros [(n & Hx) Hs]. exists n. split; [done|]. intros ->. destruct Hx as [Hx _]. inversion Hx; subst.
        by apply not_true_is_false; intros ?; apply Hs.
    + intros i x y Hx Hxy Hby. destruct (concat_reverse_order _ i x Hx) as (n & [Hn Hbx]%in_layer_kept & Hlater); [|done].
      apply Hlayer in Hn as [Hn _]. apply (Hlater (S n) y); [lia|]. apply in_layer_kept; [done|]. split; [|done].
      apply Hlayer. split; [by eapply nsteps_r|done].
  - intros n Hn Hnone. rewrite decide_False; [done|]. assert (~ (n < d)%nat); [|lia]. intros (x & Hx & Hb)%Hdepths. by apply (Hnone x).
Qed.
End traversal.

(** ** Divergences and instances *)

Lemma hm_new_ok passthrough : hm_ok (hm_new passthrough).
Proof. split; [done|done|intros _; cbn; unfold kPOS_ResourceBaseAddr, kPOS_ResourceEndAddr; lia]. Qed.

#[local] Instance handle_alloc : Allocator := {| alloc := fresh; alloc_fresh := is_fresh |}.

Definition hm_run_from (passthrough : bool) (ops : list hm_op) : option (list (pos_retval * option (Z * Z))) :=
  (fix go ops s := match ops with
   | [] => Some []
   | op :: ops' => match exec_hm op s 0 with Ok r s' _ => rs ← go ops' s'; Some (r :: rs) | _ => None end
   end) ops (hm_new passthrough).
Definition hm_run := hm_run_from false.

(** An expected address behind the end of the range passes the check of the range, which is a
    difference of unsigned numbers. *)
Lemma expected_beyond_end : hm_run [Allocate 16 (Some (kPOS_ResourceEndAddr + 1)) 0] ≫= head = Some (POS_SUCCESS, Some (0, 0)).
Proof. vm_compute. reflexivity. Qed.

(** A handle allocated at an expected address inside another one succeeds and is never found. *)
Lemma expected_inside_other :
  hm_run [Allocate 16 None 0; Allocate 4 (Some (kPOS_ResourceBaseAddr + 8)) 0; Lookup (kPOS_ResourceBaseAddr + 8)] ≫= last =
    Some (POS_SUCCESS, Some (0, 8)).
Proof. vm_compute. reflexivity. Qed.

(** Deleting a duplicate removes the original from the index, which is still alive. *)
Lemma deleted_duplicate_hides_original :
  let ops := [Allocate 16 None 0; Allocate 16 None 0; SetAddr 0 100; SetAddr 1 100; Mark 1 kPOS_HandleStatus_Deleted; Lookup 100] in
  hm_run_from true ops ≫= last = Some (POS_FAILED_NOT_EXIST, None).
Proof. vm_compute. reflexivity. Qed.

Definition sample_handle (st : pos_handle_status) (parents : list Z) : POSHandle :=
  mk_handle 0 0 16 0 st kPOS_HandleStatus_StateReady 0 parents [].
Definition B_ := kPOS_HandleStatus_Broken.
Definition made_active (p : Z) (heap : gmap Z POSHandle) : gmap Z POSHandle := alter (set_status kPOS_HandleStatus_Active) p heap.

(** A broken handle with an intact parent and a broken grandparent is not restored. *)
Lemma gap_ends_traversal :
  snd <$> restore_view 9 (list_to_map [(1, sample_handle B_ [2]); (2, sample_handle kPOS_HandleStatus_Active [3]); (3, sample_handle B_ [])]) false 1 []
    = Some [3].
Proof. vm_compute. reflexivity. Qed.

(** [reset] keeps the layers, so that after a view with three layers a view whose own handle is
    broken restores nothing. *)
Lemma second_view_not_restored :
  snd <$> restore_views 9 made_active
    (list_to_map [(1, sample_handle B_ [2]); (2, sample_handle B_ [3]); (3, sample_handle B_ []); (4, sample_handle B_ [])]) false [1; 4] []
    = Some [3; 2; 1].
Proof. vm_compute. reflexivity. Qed.

(** An ancestor on two ways is restored twice. *)
Lemma shared_ancestor_restored_twice :
  snd <$> restore_view 9 (list_to_map [(1, sample_handle B_ [2; 3]); (2, sample_handle B_ [4]); (3, sample_handle B_ [4]); (4, sample_handle B_ [])]) false 1 []
    = Some [4; 4; 2; 3; 1].
Proof. vm_compute. reflexivity. Qed.

Lemma handle_index_refines_witness :
  exists r s', exec_hm (Allocate 16 None 0) (hm_new false) 0 = Ok r s' 0 /\ hm_ok s' /\ spec_hm (Allocate 16 None 0) (hm_new false) r (extents s').
Proof.
  apply (handle_index_refines (Allocate 16 None 0) (hm_new false) 0 (hm_new_ok false)).
  split; [lia|]. intros _. cbn. unfold kPOS_ResourceBaseAddr, kPOS_ResourceEndAddr. lia.
Defined.

Definition chain : gmap Z POSHandle := list_to_map [(1, sample_handle B_ [2]); (2, sample_handle B_ [])].
Definition chain_rank (p : Z) : nat := if p =? 1 then 1 else 0.

Lemma chain_lookup p h : chain !! p = Some h -> p = 1 /\ h = sample_handle B_ [2] \/ p = 2 /\ h = sample_handle B_ [].
Proof.
  unfold chain. cbn [list_to_map foldr uncurry]. rewrite lookup_insert_Some, lookup_insert_Some, lookup_empty. naive_solver.
Qed.

Lemma chain_broken p : is_Some (chain !! p) -> broken_in chain p.
Proof. intros [h Hh]. exists h. split; [done|]. by destruct (chain_lookup p h Hh) as [[_ ->]|[_ ->]]. Qed.

(** After a view that left one layer. *)
Lemma broken_handles_restored_witness :
  exists l order, restore_view 2 chain false 1 [[5]] = Some (l, order) /\
    (forall x, x ∈ order <-> to_restore false chain 1 x) /\
    (forall i x y, order !! i = Some x -> is_parent chain x y -> broken_in chain y -> exists j, (j < i)%nat /\ order !! j = Some y).
Proof.
  destruct (broken_handles_restored chain chain_rank 2 false 1 [[5]]) as (l & order & Hr & Hfit & _); [|by eexists|cbn; lia|cbn; lia|cbn; lia|..].
  - intros p h [[-> ->]|[-> ->]]%chain_lookup; cbn; repeat constructor; by eexists.
  - intros n m x Hn _ Hm. destruct m as [|m]; [exists 1; split; [constructor|apply chain_broken; by eexists]|].
    destruct Hn as [|n a b c [h [[[-> ->]|[-> ->]]%chain_lookup Hb]] Hn]; [lia| |by apply elem_of_nil in Hb].
    apply list_elem_of_singleton in Hb as ->. inversion Hn as [|n' a' b' c' [h [Hh Hb]] Hn']; subst; [lia|].
    apply chain_lookup in Hh as [[? _]|[_ ->]]; [done|by apply elem_of_nil in Hb].
  - exists l, order. split; [exact Hr|]. apply Hfit. intros n Hn. cbn in Hn. lia.
Defined.
