(* ===== verification/SyscallCtx.v ===== *)
(** The syscall server (runtime/syscall-server/): the library that is loaded into a
    program that controls eBPF and serves its bpf, perf_event_open, mmap, ioctl,
    epoll and file calls from the shared memory instead of the kernel. *)
From Stdlib Require Import ZArith Lia Ascii.
From stdpp Require Import base list gmap strings pretty.
From S2P Require Import Prelude MapCommon HashMap FixHashMap ArrayMap PerCpuArray PerCpuHash LruHash FdArrays.
From S2P Require Import Ringbuf KernelUser MapHandler PerfEvent HandlerManager Shm Config.
Local Open Scope Z_scope.

(** ** The calls a program makes *)

(** [struct bpf_map_info] of the kernel. *)
Record bpf_map_info := mk_map_info {
  mi_type : Z;
  mi_id : Z;
  mi_key_size : Z;
  mi_value_size : Z;
  mi_max_entries : Z;
  mi_map_flags : Z;
  mi_name : string;
  mi_ifindex : Z;
  mi_btf_vmlinux_value_type_id : Z;
  mi_btf_id : Z;
  mi_btf_key_type_id : Z;
  mi_btf_value_type_id : Z;
  mi_map_extra : Z
}.

(** A command of bpf(2) with the part of [union bpf_attr] it reads; [btf_info] are
    the func_info and line_info fields of a program. *)
Inductive bpf_cmd :=
| BPF_MAP_CREATE (attr : bpf_map_attr) (map_name : string)
| BPF_MAP_LOOKUP_ELEM (map_fd : Z) (key : ptr)
| BPF_MAP_UPDATE_ELEM (map_fd : Z) (key value : ptr) (flags : Z)
| BPF_MAP_DELETE_ELEM (map_fd : Z) (key : ptr)
| BPF_MAP_GET_NEXT_KEY (map_fd : Z) (key : ptr) (next_key : bool)
| BPF_PROG_LOAD (prog_type : Z) (insns : list Z) (prog_name : string) (btf_info : bytes)
| BPF_LINK_CREATE (link_create : bpf_link_create_args)
| BPF_MAP_FREEZE (map_fd : Z)
| BPF_OBJ_GET_INFO_BY_FD (bpf_fd : Z)
| BPF_PROG_ATTACH (target_fd attach_bpf_fd : Z)
| BPF_OTHER (cmd : Z) (attr : bytes).

(** [struct perf_event_attr]; [config1] points to the name. *)
Record perf_event_attr := mk_perf_attr {
  pa_type : Z;
  pa_config : Z;
  pa_config1 : string;
  pa_config2 : Z;
  pa_sample_type : Z
}.

(** Addresses: those the operating system hands out, and those inside the shared
    memory: the two pages of a ring buffer, the data of an array map, the buffer
    of a software event of a given size. *)
Inductive address :=
| AddrOs (a : Z)
| AddrConsumer (ring : nat)
| AddrProducer (ring : nat)
| AddrArray (obj : nat)
| AddrPerf (obj : nat) (size : Z).

#[export] Instance address_eq_dec : EqDecision address.
Proof. solve_decision. Defined.
#[export] Instance address_countable : Countable address.
Proof.
  refine (inj_countable' (fun a => match a with
    | AddrOs a => inl a
    | AddrConsumer r => inr (inl (true, r)) | AddrProducer r => inr (inl (false, r))
    | AddrArray o => inr (inr (o, None)) | AddrPerf o n => inr (inr (o, Some n)) end)
    (fun x => match x with
    | inl a => AddrOs a
    | inr (inl (true, r)) => AddrConsumer r | inr (inl (false, r)) => AddrProducer r
    | inr (inr (o, None)) => AddrArray o | inr (inr (o, Some n)) => AddrPerf o n end) _).
  by intros [].
Defined.

(** The calls the server intercepts. *)
Inductive libc_call :=
| LClose (fd : Z)
| LOpenat (fd : Z) (file : string) (oflag mode : Z)
| LOpen (file : string) (oflag mode : Z)
| LRead (fd count : Z)
| LFopen (pathname flags : string)
| LBpf (cmd : bpf_cmd) (size : Z)
| LPerfEventOpen (attr : perf_event_attr) (pid cpu group_fd flags : Z)
| LMmap (addr : address) (length prot flags fd offset : Z)
| LMmap64 (addr : address) (length prot flags fd offset : Z)
| LMunmap (addr : address) (size : Z)
| LIoctl (fd req data : Z)
| LEpollCreate1 (flags : Z)
| LEpollCtl (epfd op fd data : Z)
| LEpollWait (epfd maxevents timeout : Z)
| LDup3 (oldfd newfd flags : Z).

(** What a call leaves in the memory of the caller besides its result. *)
Inductive user_out :=
| NoOut
| OutBytes (bs : bytes)
| OutEvents (data : list Z)
| OutMapInfo (info : bpf_map_info)
| OutProgInfo (id : Z)
| OutAddr (a : address).

Abbreviation result := (Z * user_out)%type.

(** ** The world around the server

    [orig] are the functions found behind the server by [dlsym(RTLD_NEXT, ..)];
    the next are the other calls the server makes; [regex_match] is [None] when
    the pattern is not a regular expression; [os_load] are the bytes behind a
    pointer of a lookup that is not into the shared memory. *)
Class Libc (K : Type) := {
  orig : libc_call -> M K result;
  os_mkstemp : M K (Z * string);
  os_write : Z -> bytes -> M K Z;
  os_fscanf : Z -> string -> M K (Z * Z);
  os_fclose : Z -> M K unit;
  map_info_by_fd : Z -> M K (Z * bpf_map_info);
  fs_exists : K -> string -> bool;
  fs_read_symlink : K -> string -> string;
  fs_is_directory : K -> string -> bool;
  environment : string -> option text;
  regex_match : string -> string -> option bool;
  os_load : K -> Z -> vptr -> nat -> option bytes
}.

(** ** Paths

    [std::filesystem::path] compares the elements between slashes; a trailing
    slash is an empty element. *)
Fixpoint path_elements (cur : string) (s : string) : list string :=
  match s with
  | EmptyString => [cur]
  | String c s' =>
      if decide (c = "/"%char) then
        (if decide (cur = "") then id else cons cur) (path_elements "" s')
      else path_elements (cur +:+ String c "") s'
  end.
Definition is_absolute (p : string) : bool :=
  match p with String c _ => bool_decide (c = "/"%char) | EmptyString => false end.
Definition path_eqb (p q : string) : bool :=
  bool_decide (is_absolute p = is_absolute q) && bool_decide (path_elements "" p = path_elements "" q).

Fixpoint ends_with_slash (p : string) : bool :=
  match p with
  | EmptyString => false
  | String c EmptyString => bool_decide (c = "/"%char)
  | String _ p' => ends_with_slash p'
  end.
(** [dir / file] *)
Definition path_join (dir file : string) : string :=
  if is_absolute file then file
  else if ends_with_slash dir then dir +:+ file else dir +:+ "/" +:+ file.

(** ** Constants *)

Definition MOCKED_UPROBE_TYPE_VALUE := 9.
Definition MOCKED_URETPROBE_BIT := 0.
Definition MOCKED_KPROBE_TYPE_VALUE := 8.
Definition MOCKED_KRETPROBE_BIT := 0.
Definition UPROBE_TYPE_FILE_NAME : string := "/sys/bus/event_source/devices/uprobe/type".
Definition URETPROBE_BIT_FILE_NAME : string := "/sys/bus/event_source/devices/uprobe/format/retprobe".
Definition KPROBE_TYPE_FILE_NAME : string := "/sys/bus/event_source/devices/kprobe/type".
Definition KRETPROBE_BIT_FILE_NAME : string := "/sys/bus/event_source/devices/kprobe/format/retprobe".
Definition PERF_UPROBE_REF_CTR_OFFSET_SHIFT := 32.
Definition PROT_READ := 1.
Definition PROT_WRITE := 2.
Definition MAP_ANONYMOUS := 32.
Definition PERF_EVENT_IOC_ENABLE := 9216.
Definition PERF_EVENT_IOC_DISABLE := 9217.
Definition PERF_EVENT_IOC_SET_BPF := 1074013192.
Definition EPOLL_CTL_ADD := 1.
Definition BPF_PERF_EVENT := 41.
Definition EIO := 5.
Definition EBPF_OP_LDDW := 24.

(** The characters of a string as bytes. *)
Definition string_bytes (s : string) : bytes := (fun a => Z.of_N (Ascii.N_of_ascii a)) <$> chars s.

(** ** The state of the server *)

Record mocked_file_provider := mk_mocked {
  mf_cursor : Z;
  mf_buf : bytes;
  mf_replacement_file : option Z
}.
Definition mocked_file_new (buf : string) : mocked_file_provider := mk_mocked 0 (string_bytes buf) None.

(** [sc_already_setup] is the flag of start_up, [sc_config] the configuration it
    leaves in the shared memory. *)
Record syscall_context (K : Type) := mk_sctx {
  sc_enable_mock : bool;
  sc_run_with_kernel : bool;
  sc_by_pass_pattern : string;
  sc_mmap_values : gset address;
  sc_files : gmap Z mocked_file_provider;
  sc_already_setup : bool;
  sc_config : agent_config;
  sc_shm : bpftime_shm K
}.
Arguments mk_sctx {K}.
Arguments sc_enable_mock {K}.
Arguments sc_run_with_kernel {K}.
Arguments sc_by_pass_pattern {K}.
Arguments sc_mmap_values {K}.
Arguments sc_files {K}.
Arguments sc_already_setup {K}.
Arguments sc_config {K}.
Arguments sc_shm {K}.

Section server.
Context {K : Type} `{Runtime K, !Os K, !Libc K}.
Implicit Types (s : syscall_context K) (fd : Z).

Abbreviation SC := (M (syscall_context K)).

Definition sc_set_mock (b : bool) s : syscall_context K :=
  mk_sctx b (sc_run_with_kernel s) (sc_by_pass_pattern s) (sc_mmap_values s) (sc_files s)
    (sc_already_setup s) (sc_config s) (sc_shm s).
Definition sc_set_mmap (v : gset address) s : syscall_context K :=
  mk_sctx (sc_enable_mock s) (sc_run_with_kernel s) (sc_by_pass_pattern s) v (sc_files s)
    (sc_already_setup s) (sc_config s) (sc_shm s).
Definition sc_set_files (v : gmap Z mocked_file_provider) s : syscall_context K :=
  mk_sctx (sc_enable_mock s) (sc_run_with_kernel s) (sc_by_pass_pattern s) (sc_mmap_values s) v
    (sc_already_setup s) (sc_config s) (sc_shm s).
Definition sc_set_shm (v : bpftime_shm K) s : syscall_context K :=
  mk_sctx (sc_enable_mock s) (sc_run_with_kernel s) (sc_by_pass_pattern s) (sc_mmap_values s) (sc_files s)
    (sc_already_setup s) (sc_config s) v.

Definition on_shm {A} (c : M (bpftime_shm K) A) : SC A := zoom sc_shm sc_set_shm c.
Definition on_os {A} (c : M K A) : SC A := on_shm (in_os c).
Definition call_orig (c : libc_call) : SC result := on_os (orig c).
Definition world s : K := world_of (sc_shm s).

(** ** Start-up *)

(** [load_config_from_env] and the constructor of the context; no shared memory
    exists yet. *)
Definition load_config_from_env s : syscall_context K :=
  mk_sctx (sc_enable_mock s) (bool_decide (is_Some (environment "BPFTIME_RUN_WITH_KERNEL")))
    (match environment "BPFTIME_NOT_LOAD_PATTERN" with
     | Some t => String.string_of_list_ascii t | None => "" end)
    (sc_mmap_values s) (sc_files s) (sc_already_setup s) (sc_config s) (sc_shm s).

(** The shared memory as SHM_REMOVE_AND_CREATE makes it: an empty segment. *)
Definition fresh_shm (k : K) (ops : gmap Z (bpftime_map_ops K)) : bpftime_shm K :=
  mk_bshm false (manager_new DEFAULT_MAX_FD (mk_shm ∅ ∅ ∅ 0 k ops)) ∅ ∅.

(** [bpftime_initialize_global_shm], then [bpftime_set_agent_config]; the build
    without the verifier. *)
Definition start_up : SC unit :=
  s ← get;
  if sc_already_setup s then mret tt
  else put (mk_sctx (sc_enable_mock s) (sc_run_with_kernel s) (sc_by_pass_pattern s) (sc_mmap_values s)
    (sc_files s) true (construct_agent_config_from_env environment)
    (fresh_shm (world s) (sm_ops (hm_mem (sh_manager (sc_shm s)))))).

Definition try_startup : SC unit :=
  modify (sc_set_mock false);; start_up;; modify (sc_set_mock true).

(** [if (!enable_mock) return orig(..); try_startup(); ..] and the variant that also
    gives way to the kernel. *)
Definition unless_off {A} (bypass body : SC A) : SC A :=
  s ← get;
  if negb (sc_enable_mock s) then bypass else try_startup;; body.
Definition unless_kernel {A} (bypass body : SC A) : SC A :=
  s ← get;
  if negb (sc_enable_mock s) || sc_run_with_kernel s then bypass else try_startup;; body.

(** ** Mocked files *)

Definition create_mocked_file_based_on_full_path (path : string) : option mocked_file_provider :=
  if path_eqb path UPROBE_TYPE_FILE_NAME then Some (mocked_file_new "9")
  else if path_eqb path URETPROBE_BIT_FILE_NAME then Some (mocked_file_new "config:0")
  else None.

Definition resolve_filename_and_fd_to_full_path fd (file : string) s : option string :=
  let dir_path := fs_read_symlink (world s) ("/proc/self/fd/" +:+ pretty fd) in
  if decide (dir_path = "") then None
  else if negb (fs_is_directory (world s) dir_path) then None
  else Some (path_join dir_path file).

(** [mkstemp], then an entry for the descriptor; [emplace] keeps an entry that is
    there. *)
Definition add_mocked_file (f : mocked_file_provider) (failed : SC result) (k : Z -> string -> SC result)
    : SC result :=
  r ← on_os os_mkstemp;
  if r.1 <? 0 then failed
  else
    modify (fun s => sc_set_files
      (match sc_files s !! r.1 with Some _ => sc_files s | None => <[r.1 := f]> (sc_files s) end) s);;
    k r.1 r.2.

Definition handle_openat fd (file : string) (oflag mode : Z) : SC result :=
  unless_off (call_orig (LOpenat fd file oflag mode))
    (s ← get;
     match resolve_filename_and_fd_to_full_path fd file s with
     | None => call_orig (LOpenat fd file oflag mode)
     | Some path =>
         match create_mocked_file_based_on_full_path path with
         | Some mocker => add_mocked_file mocker (call_orig (LOpen file oflag mode))
             (fun fake_fd _ => mret (fake_fd, NoOut))
         | None => call_orig (LOpenat fd file oflag mode)
         end
     end).

Definition handle_open (file : string) (oflag mode : Z) : SC result :=
  unless_off (call_orig (LOpen file oflag mode))
    (match create_mocked_file_based_on_full_path file with
     | Some mocker => add_mocked_file mocker (call_orig (LOpen file oflag mode))
         (fun fake_fd _ => mret (fake_fd, NoOut))
     | None => call_orig (LOpen file oflag mode)
     end).

(** The replacement stream is opened by the intercepted [fopen], which passes the
    name of the temporary file on. *)
Definition handle_fopen (pathname flags : string) : SC result :=
  unless_off (call_orig (LFopen pathname flags))
    (match create_mocked_file_based_on_full_path pathname with
     | Some mocker => add_mocked_file mocker (call_orig (LFopen pathname flags))
         (fun fake_fd filename_buf =>
            fp ← call_orig (LFopen filename_buf "r");
            modify (fun s => sc_set_files (alter (fun f => mk_mocked (mf_cursor f) (mf_buf f) (Some fp.1))
              fake_fd (sc_files s)) s);;
            s ← get;
            f ← need "missing file" (sc_files s !! fake_fd);
            on_os (os_write fake_fd (mf_buf f));;
            mret fp)
     | None => call_orig (LFopen pathname flags)
     end).

Definition handle_read fd (count : Z) : SC result :=
  unless_off (call_orig (LRead fd count))
    (s ← get;
     match sc_files s !! fd with
     | Some f =>
         let can_read_bytes := Z.min (u64 count) (u64 (Z.of_nat (length (mf_buf f)) - mf_cursor f)) in
         if can_read_bytes =? 0 then mret (0, OutBytes [])
         else
           bs ← need "read outside the buffer"
             (read_range (Z.to_nat (mf_cursor f)) (Z.to_nat can_read_bytes) (mf_buf f));
           modify (fun s => sc_set_files (<[fd := mk_mocked (mf_cursor f + can_read_bytes) (mf_buf f)
             (mf_replacement_file f)]> (sc_files s)) s);;
           mret (can_read_bytes, OutBytes bs)
     | None => call_orig (LRead fd count)
     end).

Definition handle_close fd : SC result :=
  unless_off (call_orig (LClose fd))
    (s ← get;
     match sc_files s !! fd with
     | Some _ => modify (fun s => sc_set_files (delete fd (sc_files s)) s);; mret (0, NoOut)
     | None => on_shm (close_fd fd);; call_orig (LClose fd)
     end).

(** ** bpf(2) *)

(** The bytes a pointer of a lookup points to, in the object it was made by. *)
Definition object_bytes (o : map_impl) (v : vptr) (n : nat) : option bytes :=
  match o, v with
  | IHash x, VBuf off => read_range off n (hm_data_buffer (fh_map_impl x))
  | IArray x, VBuf off => read_range off n (am_data x)
  | IPercpuArray x, VBuf off => read_range off n (pca_data x)
  | IPerfArray x, VBuf off => read_range off n (ia_data x ≫= le_encode 4)
  | IProgArray _, VThread w => read_range 0 n (le_encode 4 w)
  | ILru x, VNode k off => um_find k (lru_map_impl x) ≫= fun e => read_range off n e.1
  | IPercpuHash x, VNode k off => um_find k (pch_impl x) ≫= read_range off n
  | IKuHash x, VScratch => read_range 0 n (hku_value_vec x)
  | IKuPercpuArray x, VScratch => read_range 0 n (pku_value_data x)
  | _, _ => None
  end.

(** [memcpy(.., value_ptr, n)]: memory of the kernel or of a plugin is outside the
    objects. *)
Definition value_bytes fd (v : vptr) (n : nat) s : option bytes :=
  match (h ← map_at fd (sc_shm s); p ← mh_impl_ptr h; o ← sm_objects (hm_mem (sh_manager (sc_shm s))) !! p;
         object_bytes o v n) with
  | Some bs => Some bs
  | None => os_load (world s) fd v n
  end.

Definition create_kernel_bpf_map map_fd : SC Z :=
  r ← on_os (map_info_by_fd map_fd);
  if r.1 <? 0 then mret (-1)
  else
    let info := r.2 in
    let attr := mk_attr (mi_type info + KERNEL_USER_MAP_OFFSET) (mi_key_size info) (mi_value_size info)
      (mi_max_entries info) (mi_map_flags info) (mi_ifindex info) (mi_btf_vmlinux_value_type_id info)
      (mi_btf_id info) (mi_btf_key_type_id info) (mi_btf_value_type_id info) 0 (mi_id info) in
    s ← get;
    if is_map_fd (s32 (mi_id info)) (sc_shm s) then mret 0
    else
      res ← on_shm (add_bpf_map (s32 (mi_id info)) (mi_name info) attr);
      if res <? 0 then mret (-1) else mret map_fd.

(** The fields of a 64-bit instruction. *)
Definition insn_code (i : Z) : Z := Z.land i 255.
Definition insn_src_reg (i : Z) : Z := Z.land (Z.shiftr i 12) 15.
Definition insn_imm (i : Z) : Z := s32 (Z.shiftr i 32).
Definition insn_set_imm (i imm : Z) : Z := Z.lor (Z.land i (2 ^ 32 - 1)) (Z.shiftl (u32 imm) 32).

(** The loop over the instructions: map descriptors become map ids. [None] is the
    early [return -1]. *)
Fixpoint relocate_insns (insns : list Z) : SC (option (list Z)) :=
  match insns with
  | [] => mret (Some [])
  | i :: insns' =>
      i' ← (if (insn_code i =? EBPF_OP_LDDW) && ((insn_src_reg i =? 1) || (insn_src_reg i =? 2)) then
              r ← on_os (map_info_by_fd (insn_imm i));
              mret (if r.1 <? 0 then None else Some (insn_set_imm i (mi_id r.2)))
            else mret (Some i));
      match i' with
      | None => mret None
      | Some i' => rest ← relocate_insns insns'; mret (cons i' <$> rest)
      end
  end.

(** [mov r0, 0; exit] *)
Definition trival_prog_insns : list Z := [183; 149].

Definition create_kernel_bpf_prog_in_userspace (prog_type : Z) (insns : list Z) (prog_name : string)
    (btf_info : bytes) (size : Z) : SC Z :=
  s ← get;
  matched ← match regex_match (sc_by_pass_pattern s) prog_name with
            | None => throw "regex_error"
            | Some b => mret b
            end;
  r ← call_orig (LBpf (if negb (bool_decide (sc_by_pass_pattern s = "")) && matched
        then BPF_PROG_LOAD prog_type trival_prog_insns prog_name []
        else BPF_PROG_LOAD prog_type insns prog_name btf_info) size);
  let res := s32 r.1 in
  if res <? 0 then mret res
  else
    insns ← relocate_insns insns;
    match insns with
    | None => mret (-1)
    | Some insns => on_shm (add_bpf_prog res insns prog_name prog_type)
    end.

(** [BPF_OBJ_GET_INFO_BY_FD] of a map; the name is cut to 15 characters. *)
Definition info_of_map fd (a : bpf_map_attr) (name : string) (type : Z) : bpf_map_info :=
  mk_map_info type fd (ma_key_size a) (ma_value_size a) (ma_max_ents a) (u32 (ma_flags a))
    (String.substring 0 15 name) (ma_ifindex a) (ma_btf_vmlinux_value_type_id a) (ma_btf_id a)
    (ma_btf_key_type_id a) (ma_btf_value_type_id a) (ma_map_extra a).

Definition plain (c : SC Z) : SC result := r ← c; mret (r, NoOut).

(** [attr->link_create.perf_event.bpf_cookie] *)
Definition link_cookie (a : bpf_link_create_args) : option Z := le_decode <$> read_range 0 8 (la_union a).

Definition sysbpf_body (cmd : bpf_cmd) (size : Z) : SC result :=
  s ← get;
  let kernel := sc_run_with_kernel s in
  match cmd with
  | BPF_MAP_CREATE attr name =>
      if kernel then r ← call_orig (LBpf cmd size); plain (create_kernel_bpf_map (s32 r.1))
      else plain (on_shm (add_bpf_map (-1) name (mk_attr (s32 (ma_type attr)) (ma_key_size attr)
        (ma_value_size attr) (ma_max_ents attr) (ma_flags attr) (ma_ifindex attr)
        (ma_btf_vmlinux_value_type_id attr) (ma_btf_id attr) (ma_btf_key_type_id attr)
        (ma_btf_value_type_id attr) (ma_map_extra attr) 0)))
  | BPF_MAP_LOOKUP_ELEM map_fd key =>
      if kernel then call_orig (LBpf cmd size)
      else
        value_ptr ← on_shm (bpftime_map_lookup_elem (s32 map_fd) key);
        match value_ptr with
        | VNull => fail_with ENOENT (-1, NoOut)
        | _ =>
            n ← on_shm (bpf_map_value_size (s32 map_fd));
            s ← get;
            bs ← need "copy outside the value" (value_bytes (s32 map_fd) value_ptr (Z.to_nat n) s);
            mret (0, OutBytes bs)
        end
  | BPF_MAP_UPDATE_ELEM map_fd key value flags =>
      if kernel then call_orig (LBpf cmd size)
      else plain (on_shm (bpftime_map_update_elem (s32 map_fd) key value flags))
  | BPF_MAP_DELETE_ELEM map_fd key =>
      if kernel then call_orig (LBpf cmd size)
      else plain (on_shm (bpftime_map_delete_elem (s32 map_fd) key))
  | BPF_MAP_GET_NEXT_KEY map_fd key next_key =>
      if kernel then call_orig (LBpf cmd size)
      else
        r ← on_shm (bpftime_map_get_next_key (s32 map_fd) key next_key);
        mret (r.1, match r.2 with Some k => OutBytes k | None => NoOut end)
  | BPF_PROG_LOAD prog_type insns prog_name btf_info =>
      if kernel then plain (create_kernel_bpf_prog_in_userspace prog_type insns prog_name btf_info size)
      else plain (on_shm (add_bpf_prog (-1) insns prog_name prog_type))
  | BPF_LINK_CREATE a =>
      let prog_fd := s32 (la_prog_fd a) in
      let target_fd := s32 (la_target_fd a) in
      if kernel && negb (is_perf_fd target_fd (sc_shm s)) then call_orig (LBpf cmd size)
      else
        id ← on_shm (add_bpf_link (-1) (Some a));
        s ← get;
        (if is_prog_fd prog_fd (sc_shm s) && is_perf_fd target_fd (sc_shm s) &&
            (la_attach_type a =? BPF_PERF_EVENT) then
           cookie ← need "short attr" (link_cookie a);
           _ ← on_shm (attach_perf_to_bpf target_fd prog_fd (Some cookie));
           mret tt
         else mret tt);;
        mret (id, NoOut)
  | BPF_MAP_FREEZE _ => if kernel then call_orig (LBpf cmd size) else mret (0, NoOut)
  | BPF_OBJ_GET_INFO_BY_FD bpf_fd =>
      if kernel then call_orig (LBpf cmd size)
      else if is_map_fd (s32 bpf_fd) (sc_shm s) then
        r ← on_shm (bpftime_map_get_info (s32 bpf_fd) true true true);
        match r.2 with
        | (Some a, Some name, Some type) => mret (0, OutMapInfo (info_of_map bpf_fd a name type))
        | _ => fail_with r.1 (-1, NoOut)
        end
      else if is_prog_fd (s32 bpf_fd) (sc_shm s) then mret (0, OutProgInfo bpf_fd)
      else mret (0, NoOut)
  | BPF_PROG_ATTACH target_fd prog_fd =>
      if kernel && negb (is_perf_fd (s32 target_fd) (sc_shm s)) then call_orig (LBpf cmd size)
      else plain (on_shm (attach_perf_to_bpf (s32 target_fd) (s32 prog_fd) None))
  | BPF_OTHER _ _ => call_orig (LBpf cmd size)
  end.

Definition handle_sysbpf (cmd : bpf_cmd) (size : Z) : SC result :=
  unless_off (call_orig (LBpf cmd size)) (set_errno 0;; sysbpf_body cmd size).

(** ** perf_event_open(2) *)

(** A number read by [fscanf] from a file that the intercepted [fopen] opens. *)
Definition parse_uint_from_file (file fmt : string) : SC Z :=
  f ← handle_fopen file "re";
  if f.1 =? 0 then e ← get_errno; mret (- e)
  else
    r ← on_os (os_fscanf f.1 fmt);
    e ← get_errno;
    on_os (os_fclose f.1);;
    mret (if r.1 =? 1 then r.2 else if r.1 =? -1 then - EIO else - e).

Definition determine (file : string) (mocked : Z) (fmt : string) : SC Z :=
  s ← get;
  if fs_exists (world s) file then parse_uint_from_file file fmt else mret mocked.
Definition number_format : string := "%d
".
Definition bit_format : string := "config:%d
".
Definition determine_uprobe_perf_type : SC Z :=
  determine UPROBE_TYPE_FILE_NAME MOCKED_UPROBE_TYPE_VALUE number_format.
Definition determine_uprobe_retprobe_bit : SC Z :=
  determine URETPROBE_BIT_FILE_NAME MOCKED_URETPROBE_BIT bit_format.
Definition determine_kprobe_perf_type : SC Z :=
  determine KPROBE_TYPE_FILE_NAME MOCKED_KPROBE_TYPE_VALUE number_format.
Definition determine_kprobe_retprobe_bit : SC Z :=
  determine KRETPROBE_BIT_FILE_NAME MOCKED_KRETPROBE_BIT bit_format.

(** [attr->config & (1 << bit)], the shift in [int]. *)
Definition config_bit (config bit : Z) : SC bool :=
  if (bit <? 0) || (31 <? bit) then ub "shift by a bad amount"
  else mret (negb (Z.land config (u64 (s32 (Z.shiftl 1 bit))) =? 0)).

Definition handle_perfevent (attr : perf_event_attr) (pid cpu group_fd flags : Z) : SC result :=
  let original := call_orig (LPerfEventOpen attr pid cpu group_fd flags) in
  let type := s32 (pa_type attr) in
  let name := pa_config1 attr in
  let ref_ctr_off := Z.shiftr (pa_config attr) PERF_UPROBE_REF_CTR_OFFSET_SHIFT in
  unless_off original
    (uprobe ← determine_uprobe_perf_type;
     if type =? uprobe then
       bit ← determine_uprobe_retprobe_bit;
       retprobe ← config_bit (pa_config attr) bit;
       plain (on_shm (add_uprobe (-1) pid name (pa_config2 attr) retprobe ref_ctr_off))
     else
       kprobe ← determine_kprobe_perf_type;
       if type =? kprobe then
         bit ← determine_kprobe_retprobe_bit;
         retprobe ← config_bit (pa_config attr) bit;
         plain (on_shm (bpftime_kprobe_create (-1) name (pa_config2 attr) retprobe ref_ctr_off))
       else if type =? PERF_TYPE_TRACEPOINT then
         plain (on_shm (add_tracepoint (-1) pid (s32 (pa_config attr))))
       else if type =? PERF_TYPE_SOFTWARE then
         plain (on_shm (add_software_perf_event cpu (s32 (pa_sample_type attr)) (s64 (pa_config attr))))
       else if type =? BPF_TYPE_UREPLACE then
         plain (on_shm (add_uprobe_override (-1) pid name (pa_config2 attr) true))
       else if type =? BPF_TYPE_UPROBE_OVERRIDE then
         plain (on_shm (add_uprobe_override (-1) pid name (pa_config2 attr) false))
       else original).

(** ** mmap(2) and munmap(2) *)

(** The ring buffer behind [bpftime_get_ringbuf_consumer_page] and its sibling. *)
Definition ringbuf_of fd : M (bpftime_shm K) (option nat) :=
  s ← get;
  if negb (is_ringbuf_map_fd fd s) then fail_with EINVAL None
  else
    h ← need "bad variant access" (map_at fd s);
    p ← need "null map_impl_ptr" (mh_impl_ptr h);
    r ← need "dangling map_impl_ptr" (ring_of p (hm_mem (sh_manager s)));
    mret (Some r).

Definition map_object_of fd s : option nat := map_at fd (sc_shm s) ≫= mh_impl_ptr.
Definition sw_object_of fd s : option nat :=
  match handler_at fd (sc_shm s) with
  | Some (PerfH p) => match pe_data p with SoftwareData obj => Some obj | _ => None end
  | _ => None
  end.

(** The part of the shared memory that is mapped, if the descriptor has one. *)
Definition mocked_mapping (length prot fd : Z) : SC (option address) :=
  s ← get;
  if fd =? -1 then mret None
  else if is_ringbuf_map_fd fd (sc_shm s) then
    if prot =? Z.lor PROT_WRITE PROT_READ then r ← on_shm (ringbuf_of fd); mret (AddrConsumer <$> r)
    else if prot =? PROT_READ then r ← on_shm (ringbuf_of fd); mret (AddrProducer <$> r)
    else mret None
  else if is_array_map_fd fd (sc_shm s) then
    v ← on_shm (bpftime_get_array_map_raw_data fd);
    mret (match v with VNull => None | _ => AddrArray <$> map_object_of fd s end)
  else if is_software_perf_event_handler_fd fd (sc_shm s) then
    v ← on_shm (get_software_perf_event_raw_buffer fd length);
    mret (match v with None | Some VNull => None | _ => (fun o => AddrPerf o length) <$> sw_object_of fd s end)
  else mret None.

(** The original is called twice: once for anonymous memory, whose address is
    dropped. *)
Definition handle_mmap64 (addr : address) (length prot flags fd offset : Z) : SC result :=
  let original := call_orig (LMmap64 addr length prot flags fd offset) in
  unless_kernel original
    (m ← mocked_mapping length prot fd;
     match m with
     | Some a =>
         modify (fun s => sc_set_mmap ({[a]} ∪ sc_mmap_values s) s);;
         mret (0, OutAddr a)
     | None =>
         _ ← call_orig (LMmap64 addr length (Z.lor prot PROT_WRITE) (Z.lor flags MAP_ANONYMOUS) (-1) 0);
         original
     end).

Definition handle_mmap (addr : address) (length prot flags fd offset : Z) : SC result :=
  unless_kernel (call_orig (LMmap addr length prot flags fd offset))
    (handle_mmap64 addr length prot flags fd offset).

(** There is no [return] before the first call of the original. *)
Definition handle_munmap (addr : address) (size : Z) : SC result :=
  s ← get;
  (if negb (sc_enable_mock s) || sc_run_with_kernel s then
     _ ← call_orig (LMunmap addr size); mret tt else mret tt);;
  try_startup;;
  s ← get;
  if bool_decide (addr ∈ sc_mmap_values s) then
    modify (fun s => sc_set_mmap (sc_mmap_values s ∖ {[addr]}) s);; mret (0, NoOut)
  else call_orig (LMunmap addr size).

(** ** ioctl(2) and dup3(2) *)

(** One of the three requests: the kernel's turn, success, or a failure that falls
    through to the original. *)
Definition perf_ioctl fd (c : M (bpftime_shm K) Z) (original : SC result) : SC result :=
  s ← get;
  if sc_run_with_kernel s && negb (is_perf_fd fd (sc_shm s)) then original
  else
    res ← on_shm c;
    if 0 <=? res then mret (res, NoOut) else original.

Definition handle_ioctl fd (req data : Z) : SC result :=
  let original := call_orig (LIoctl fd req data) in
  unless_off original
    (if req =? PERF_EVENT_IOC_ENABLE then perf_ioctl fd (perf_event_enable fd) original
     else if req =? PERF_EVENT_IOC_DISABLE then perf_ioctl fd (perf_event_disable fd) original
     else if req =? PERF_EVENT_IOC_SET_BPF then perf_ioctl fd (attach_perf_to_bpf fd data None) original
     else original).

Definition handle_dup3 (oldfd newfd flags : Z) : SC result :=
  let original := call_orig (LDup3 oldfd newfd flags) in
  unless_kernel original
    (s ← get;
     if is_map_fd oldfd (sc_shm s) then plain (on_shm (dup_bpf_map oldfd newfd)) else original).

(** ** epoll *)

Definition handle_epoll_create1 (flags : Z) : SC result :=
  unless_kernel (call_orig (LEpollCreate1 flags)) (plain (on_shm epoll_create)).

Definition handle_epoll_ctl (epfd op fd data : Z) : SC result :=
  let original := call_orig (LEpollCtl epfd op fd data) in
  unless_kernel original
    (s ← get;
     if op =? EPOLL_CTL_ADD then
       if is_ringbuf_map_fd fd (sc_shm s) then
         err ← on_shm (add_ringbuf_to_epoll fd epfd data);
         if err =? 0 then mret (err, NoOut) else original
       else if is_software_perf_event_handler_fd fd (sc_shm s) then
         err ← on_shm (add_software_perf_event_to_epoll fd epfd data);
         if err =? 0 then mret (err, NoOut) else original
       else original
     else original).

(** As [handle_munmap]. [None] when the turns given to the waiting loop are used up. *)
Definition handle_epoll_wait (rounds : list round) (epfd maxevents timeout : Z) : SC (option result) :=
  let original := call_orig (LEpollWait epfd maxevents timeout) in
  s ← get;
  (if negb (sc_enable_mock s) || sc_run_with_kernel s then _ ← original; mret tt else mret tt);;
  try_startup;;
  s ← get;
  if is_epoll_fd epfd (sc_shm s) then
    r ← on_shm (bpftime_epoll_wait rounds epfd maxevents timeout);
    mret ((fun x => (x.1, OutEvents x.2)) <$> r)
  else r ← original; mret (Some r).

(** ** The intercepted functions (syscall_server_main.cpp) *)

Definition serve (rounds : list round) (c : libc_call) : SC (option result) :=
  match c with
  | LEpollWait epfd maxevents timeout => handle_epoll_wait rounds epfd maxevents timeout
  | _ =>
      r ← match c with
          | LClose fd => handle_close fd
          | LOpenat fd file oflag mode => handle_openat fd file oflag mode
          | LOpen file oflag mode => handle_open file oflag mode
          | LRead fd count => handle_read fd count
          | LFopen pathname flags => handle_fopen pathname flags
          | LBpf cmd size => handle_sysbpf cmd size
          | LPerfEventOpen attr pid cpu group_fd flags => handle_perfevent attr pid cpu group_fd flags
          | LMmap addr length prot flags fd offset => handle_mmap addr length prot flags fd offset
          | LMmap64 addr length prot flags fd offset => handle_mmap64 addr length prot flags fd offset
          | LMunmap addr size => handle_munmap addr size
          | LIoctl fd req data => handle_ioctl fd req data
          | LEpollCreate1 flags => handle_epoll_create1 flags
          | LEpollCtl epfd op fd data => handle_epoll_ctl epfd op fd data
          | LDup3 oldfd newfd flags => handle_dup3 oldfd newfd flags
          | LEpollWait _ _ _ => call_orig c
          end;
      mret (Some r)
  end.

(** The calls of a program, one after the other. *)
Fixpoint serve_all (cs : list (list round * libc_call)) : SC (list (option result)) :=
  match cs with
  | [] => mret []
  | (rs, c) :: cs' => r ← serve rs c; l ← serve_all cs'; mret (r :: l)
  end.

(** ** The server's own state *)

(** Cursors stay inside their files. *)
Definition file_ok (f : mocked_file_provider) : Prop := 0 <= mf_cursor f <= Z.of_nat (length (mf_buf f)).

Record server_ok s : Prop := {
  server_mocking : sc_enable_mock s = true;
  server_files : map_Forall (fun _ => file_ok) (sc_files s);
  server_sizes : map_Forall (fun _ f => Z.of_nat (length (mf_buf f)) < 2 ^ 31) (sc_files s)
}.

(** What every call keeps: the invariant, the mode the server was started in, and,
    once start_up has run, its flag and the configuration it stored. *)
Definition kept s s' : Prop :=
  server_ok s -> server_ok s' /\ sc_run_with_kernel s' = sc_run_with_kernel s /\
    (sc_already_setup s = true -> sc_already_setup s' = true /\ sc_config s' = sc_config s).

#[local] Instance kept_preorder : PreOrder kept.
Proof.
  split; [by intros s Hs|]. intros s1 s2 s3 H1 H2 Hs.
  destruct (H1 Hs) as (Hs2 & Hk2 & Ha2). destruct (H2 Hs2) as (Hs3 & Hk3 & Ha3).
  split_and!; [done|congruence|]. intros [? ?]%Ha2. destruct Ha3; [done|]. split; congruence.
Qed.

Definition keeps {A} (c : SC A) : Prop := forall s e,
  match c s e with Ok _ s' _ | Throw _ s' _ => kept s s' | Ub _ => True end.

Lemma keeps_bind {A B} (c : SC A) (k : A -> SC B) : keeps c -> (forall a, keeps (k a)) -> keeps (c ≫= k).
Proof.
  intros Hc Hk s e. specialize (Hc s e). mbase. unfold mbind, M_bind.
  destruct (c s e) as [a s' e'| |]; [|done|done].
  specialize (Hk a s' e'). destruct (k a s' e'); [| |done]; by etrans.
Qed.

Lemma keeps_ret {A} (a : A) : keeps (mret a).
Proof. intros s e. simpl. reflexivity. Qed.
Lemma keeps_get : keeps get.
Proof. intros s e. simpl. reflexivity. Qed.
Lemma keeps_errno : keeps get_errno.
Proof. intros s e. simpl. reflexivity. Qed.
Lemma keeps_set_errno n : keeps (set_errno n).
Proof. intros s e. simpl. reflexivity. Qed.
Lemma keeps_need {A} w (o : option A) : keeps (need w o).
Proof. intros s e. destruct o; simpl; done. Qed.
Lemma keeps_ub {A} w : keeps (A := A) (ub w).
Proof. by intros s e. Qed.
Lemma keeps_throw {A} w : keeps (A := A) (throw w).
Proof. intros s e. simpl. reflexivity. Qed.
Lemma keeps_fail {A} n (a : A) : keeps (fail_with n a).
Proof. intros s e. simpl. reflexivity. Qed.

Lemma keeps_on_shm {A} (c : M (bpftime_shm K) A) : keeps (on_shm c).
Proof.
  intros s e. unfold on_shm, zoom. destruct (c (sc_shm s) e); [| |done];
    intros [??]; (split_and!; [by constructor|done|done]).
Qed.

Lemma keeps_modify f : (forall s, kept s (f s)) -> keeps (modify f).
Proof. intros Hf s e. apply Hf. Qed.

Lemma keeps_try_startup : keeps try_startup.
Proof.
  intros s e. unfold try_startup, start_up. mbase. simpl.
  destruct (sc_already_setup s) eqn:Ha; simpl; intros [? ? ?]; (split_and!; [by constructor|done|]); simpl; auto; congruence.
Qed.

Lemma keeps_if {A} (b : bool) (c d : SC A) : keeps c -> keeps d -> keeps (if b then c else d).
Proof. by destruct b. Qed.

Lemma keeps_option {A B} (o : option A) (f : A -> SC B) d :
  (forall a, o = Some a -> keeps (f a)) -> keeps d -> keeps (match o with Some a => f a | None => d end).
Proof. destruct o; auto. Qed.

Ltac keeps_step :=
  first
  [ apply keeps_ret | apply keeps_get | apply keeps_errno | apply keeps_set_errno | apply keeps_need
  | apply keeps_ub | apply keeps_throw | apply keeps_fail | apply keeps_on_shm | apply keeps_try_startup
  | apply keeps_bind; [|intros ?] | apply keeps_if | apply keeps_option; [intros ? ?|]
  | progress unfold unless_off, unless_kernel, call_orig, on_os, plain ].
Ltac keeps := repeat keeps_step; try done.

Lemma kept_files f :
  (forall fs, map_Forall (fun _ => file_ok) fs -> map_Forall (fun _ f => Z.of_nat (length (mf_buf f)) < 2 ^ 31) fs ->
    map_Forall (fun _ => file_ok) (f fs) /\ map_Forall (fun _ f => Z.of_nat (length (mf_buf f)) < 2 ^ 31) (f fs)) ->
  forall s, kept s (sc_set_files (f (sc_files s)) s).
Proof. intros Hf s [Hm Hok Hsz]. destruct (Hf _ Hok Hsz). split_and!; [by constructor|done|done]. Qed.

Lemma kept_mmap v s : kept s (sc_set_mmap v s).
Proof. intros []. split_and!; [by constructor|done|done]. Qed.

Lemma mocked_files_ok path f : create_mocked_file_based_on_full_path path = Some f ->
  file_ok f /\ Z.of_nat (length (mf_buf f)) < 2 ^ 31.
Proof.
  unfold create_mocked_file_based_on_full_path. destruct (path_eqb _ _); [|destruct (path_eqb _ _)];
    intros [= <-]; unfold file_ok; simpl; lia.
Qed.

Lemma keeps_add_mocked_file path f failed k :
  create_mocked_file_based_on_full_path path = Some f -> keeps failed ->
  (forall fd name, keeps (k fd name)) -> keeps (add_mocked_file f failed k).
Proof.
  intros [? ?]%mocked_files_ok ? ?. unfold add_mocked_file. keeps.
  apply keeps_modify. intros s. destruct (sc_files s !! a.1) eqn:Hl.
  - apply (kept_files (fun fs => fs)). done.
  - apply (kept_files (fun fs => <[a.1 := f]> fs)). intros fs ??.
    split; by apply map_Forall_insert_2.
Qed.

#[local] Opaque add_mocked_file.

Lemma keeps_openat fd file oflag mode : keeps (handle_openat fd file oflag mode).
Proof.
  unfold handle_openat. keeps.
  eapply keeps_add_mocked_file; [done|keeps|intros; keeps].
Qed.
Lemma keeps_open file oflag mode : keeps (handle_open file oflag mode).
Proof.
  unfold handle_open. keeps.
  eapply keeps_add_mocked_file; [done|keeps|intros; keeps].
Qed.
Lemma keeps_fopen pathname flags : keeps (handle_fopen pathname flags).
Proof.
  unfold handle_fopen. keeps.
  eapply keeps_add_mocked_file; [done|keeps|intros fd name; keeps].
  apply keeps_modify. apply kept_files. intros fs H1 H2. split.
  - intros i g. rewrite lookup_alter_Some. intros [(-> & g' & Hg & ->)|[? Hg]]; [apply (H1 _ _ Hg)|by apply (H1 i)].
  - intros i g. rewrite lookup_alter_Some. intros [(-> & g' & Hg & ->)|[? Hg]]; [apply (H2 _ _ Hg)|by apply (H2 i)].
Qed.

#[local] Transparent add_mocked_file.

Lemma keeps_unless_off {A} (c d : SC A) : keeps c -> keeps d -> keeps (unless_off c d).
Proof. intros. unfold unless_off. keeps. Qed.

Lemma keeps_unless_kernel {A} (c d : SC A) : keeps c -> keeps d -> keeps (unless_kernel c d).
Proof. intros. unfold unless_kernel. keeps. Qed.

Lemma keeps_read fd count : keeps (handle_read fd count).
Proof.
  unfold handle_read. apply keeps_unless_off; [keeps|]. intros s e. unfold get. mbase.
  destruct (sc_files s !! fd) as [f|] eqn:Hf; [|by apply keeps_on_shm].
  destruct (Z.min _ _ =? 0) eqn:Hz; [simpl; reflexivity|].
  destruct (read_range _ _ _) as [bs|] eqn:Hr; [|done]. simpl. intros [Hm Hok Hsz].
  pose proof (Hok _ _ Hf) as Hf1. pose proof (Hsz _ _ Hf) as Hf2. unfold file_ok in Hf1.
  simpl in Hf2. pose proof (wrap_range 64 count ltac:(lia)). rewrite (wrap_small 64 (_ - _)) in * by lia.
  split_and!; [|done|done]. constructor; simpl; [done|by apply map_Forall_insert_2; [unfold file_ok; simpl; lia|]|].
  by apply map_Forall_insert_2.
Qed.

Lemma keeps_close fd : keeps (handle_close fd).
Proof.
  unfold handle_close. keeps. apply keeps_modify. apply kept_files. intros fs ??.
  split; by apply map_Forall_delete.
Qed.

Lemma keeps_relocate insns : keeps (relocate_insns insns).
Proof. induction insns as [|i insns IH]; simpl; keeps. Qed.

Lemma keeps_sysbpf cmd size : keeps (handle_sysbpf cmd size).
Proof.
  unfold handle_sysbpf, sysbpf_body, create_kernel_bpf_map, create_kernel_bpf_prog_in_userspace. keeps.
  destruct cmd; keeps; try apply keeps_relocate; repeat case_match; keeps.
Qed.

Lemma keeps_perfevent attr pid cpu group_fd flags : keeps (handle_perfevent attr pid cpu group_fd flags).
Proof.
  unfold handle_perfevent, determine_uprobe_perf_type, determine_uprobe_retprobe_bit,
    determine_kprobe_perf_type, determine_kprobe_retprobe_bit, determine, parse_uint_from_file, config_bit.
  apply keeps_unless_off; [keeps|]. repeat first [apply keeps_fopen | keeps_step].
Qed.

Lemma keeps_mmap64 addr length prot flags fd offset : keeps (handle_mmap64 addr length prot flags fd offset).
Proof.
  unfold handle_mmap64, mocked_mapping. keeps.
  apply keeps_modify. intros. apply kept_mmap.
Qed.

Lemma keeps_munmap addr size : keeps (handle_munmap addr size).
Proof. unfold handle_munmap. keeps. apply keeps_modify. intros. apply kept_mmap. Qed.

Lemma keeps_mmap addr length prot flags fd offset : keeps (handle_mmap addr length prot flags fd offset).
Proof. apply keeps_unless_kernel; [keeps|apply keeps_mmap64]. Qed.

Lemma keeps_epoll_wait rounds epfd maxevents timeout : keeps (handle_epoll_wait rounds epfd maxevents timeout).
Proof. unfold handle_epoll_wait. keeps. Qed.

Lemma keeps_serve rounds c : keeps (serve rounds c).
Proof.
  destruct c; simpl; [..|apply keeps_epoll_wait|]; apply keeps_bind; try (intros; apply keeps_ret).
  all: first [apply keeps_close | apply keeps_openat | apply keeps_open | apply keeps_read | apply keeps_fopen |
    apply keeps_sysbpf | apply keeps_perfevent | apply keeps_mmap | apply keeps_mmap64 | apply keeps_munmap |
    unfold handle_ioctl, perf_ioctl, handle_epoll_create1, handle_epoll_ctl, handle_dup3; keeps].
Qed.

(** Whatever calls a program makes, also when one of them throws: the server goes on
    mocking, in the mode it was started in; the cursors of the mocked files stay
    inside the files; and a server that has started does not start again: its flag
    and the configuration it stored stay. *)
Theorem server_calls_invariant cs s e :
  server_ok s ->
  match serve_all cs s e with
  | Ok _ s' _ | Throw _ s' _ => server_ok s' /\ sc_run_with_kernel s' = sc_run_with_kernel s /\
      (sc_already_setup s = true -> sc_already_setup s' = true /\ sc_config s' = sc_config s)
  | Ub _ => True
  end.
Proof.
  intros Hs. assert (keeps (serve_all cs)) as Hk.
  { induction cs as [|[rs c] cs IH]; simpl; [keeps|].
    apply keeps_bind; [apply keeps_serve|intros; keeps]. }
  specialize (Hk s e). destruct (serve_all cs s e); [by apply Hk|by apply Hk|done].
Qed.

(** ** Calls of a running server *)

Definition started s : Prop := sc_enable_mock s = true /\ sc_already_setup s = true.

Lemma try_startup_started s e : started s -> try_startup s e = Ok tt s e.
Proof. intros [Hm Ha]. destruct s. simpl in *. subst. reflexivity. Qed.

Lemma unless_off_started {A} (c d : SC A) s e : started s -> unless_off c d s e = d s e.
Proof.
  intros Hs. unfold unless_off. mbase. rewrite (proj1 Hs). cbn [negb]. by rewrite try_startup_started.
Qed.
Lemma unless_kernel_started {A} (c d : SC A) s e :
  started s -> sc_run_with_kernel s = false -> unless_kernel c d s e = d s e.
Proof.
  intros Hs Hk. unfold unless_kernel. mbase. rewrite (proj1 Hs), Hk. cbn [negb orb]. by rewrite try_startup_started.
Qed.

(** *** Mocked files *)

Definition move_cursor (n : Z) (f : mocked_file_provider) : mocked_file_provider :=
  mk_mocked (mf_cursor f + n) (mf_buf f) (mf_replacement_file f).

(** What is left to read, and one read of it. *)
Definition unread (f : mocked_file_provider) : bytes := drop (Z.to_nat (mf_cursor f)) (mf_buf f).

Lemma read_run fd f n s e :
  started s -> sc_files s !! fd = Some f -> file_ok f -> Z.of_nat (length (mf_buf f)) < 2 ^ 31 -> 0 <= n < 2 ^ 64 ->
  let bs := take (Z.to_nat n) (unread f) in
  handle_read fd n s e = Ok (Z.of_nat (length bs), OutBytes bs)
    (sc_set_files (<[fd := move_cursor (Z.of_nat (length bs)) f]> (sc_files s)) s) e.
Proof.
  intros Hs Hf [Hc1 Hc2] Hsz Hn bs. unfold handle_read. rewrite unless_off_started by done. mbase. rewrite Hf.
  rewrite (wrap_small 64 n), (wrap_small 64 (_ - _)) by lia.
  assert (Z.of_nat (length bs) = Z.min n (Z.of_nat (length (mf_buf f)) - mf_cursor f)) as Hl.
  { unfold bs, unread. rewrite length_take, length_drop. lia. }
  rewrite <- Hl. destruct (Z.of_nat (length bs) =? 0) eqn:Hz.
  - apply Z.eqb_eq in Hz. destruct bs; [|simpl in Hz; lia]. simpl. f_equal.
    unfold move_cursor. rewrite Z.add_0_r. destruct f as [c b r]. simpl. rewrite insert_id by done. by destruct s.
  - unfold read_range. rewrite decide_True by lia. unfold need. mbase. simpl.
    assert (take (Z.to_nat (Z.of_nat (length bs))) (drop (Z.to_nat (mf_cursor f)) (mf_buf f)) = bs) as ->; [|done].
    fold (unread f). rewrite Nat2Z.id. unfold bs at 1. rewrite length_take. unfold bs.
    destruct (Nat.min_spec (Z.to_nat n) (length (unread f))) as [[? ->]|[? ->]]; [done|].
    rewrite firstn_all. symmetry. apply take_ge. lia.
Qed.

(** A file read in pieces. *)
Fixpoint pieces (bs : bytes) (counts : list Z) : list bytes :=
  match counts with
  | [] => []
  | n :: counts' => take (Z.to_nat n) bs :: pieces (drop (Z.to_nat n) bs) counts'
  end.

Lemma concat_pieces bs counts : concat (pieces bs counts) = take (sum_list_with Z.to_nat counts) bs.
Proof.
  revert bs. induction counts as [|n counts IH]; intros bs; [done|]. simpl. rewrite IH.
  by rewrite take_take_drop.
Qed.

Abbreviation read_calls fd counts := ((fun n => ([] : list (@round K), LRead fd n)) <$> counts).
Abbreviation read_results bss := ((fun bs => Some (Z.of_nat (length bs), OutBytes bs)) <$> bss).

Lemma unread_moved f n : file_ok f ->
  unread (move_cursor (Z.of_nat (length (take n (unread f)))) f) = drop n (unread f).
Proof.
  intros [? ?]. unfold unread, move_cursor. simpl. rewrite drop_drop, length_take, length_drop.
  destruct (decide (n <= length (mf_buf f) - Z.to_nat (mf_cursor f))%nat).
  - f_equal. lia.
  - rewrite !drop_ge by lia. done.
Qed.

Lemma moved_ok f n : file_ok f -> file_ok (move_cursor (Z.of_nat (length (take n (unread f)))) f).
Proof.
  intros [? ?]. unfold file_ok, unread, move_cursor. simpl. rewrite length_take, length_drop. lia.
Qed.

Lemma serve_all_app cs1 cs2 s e rs1 s1 e1 rs2 s2 e2 :
  serve_all cs1 s e = Ok rs1 s1 e1 -> serve_all cs2 s1 e1 = Ok rs2 s2 e2 ->
  serve_all (cs1 ++ cs2) s e = Ok (rs1 ++ rs2) s2 e2.
Proof.
  revert s e rs1. induction cs1 as [|[rs c] cs1 IH]; intros s e rs1; simpl; mbase.
  - by intros [= <- <- <-].
  - destruct (serve rs c s e) as [r s' e'| |]; [|done|done]. simpl.
    destruct (serve_all cs1 s' e') as [l s'' e''| |] eqn:Hl; [|done|done]. intros [= <- <- <-] H2.
    by rewrite (IH _ _ _ Hl H2).
Qed.

Lemma reads_run fd f counts s e :
  started s -> sc_files s !! fd = Some f -> file_ok f -> Z.of_nat (length (mf_buf f)) < 2 ^ 31 ->
  Forall (fun n => 0 <= n < 2 ^ 64) counts ->
  exists f', serve_all (read_calls fd counts) s e =
    Ok (read_results (pieces (unread f) counts)) (sc_set_files (<[fd := f']> (sc_files s)) s) e.
Proof.
  intros Hs Hf Hok Hsz Hn. revert f s Hs Hf Hok Hsz. induction Hn as [|n counts Hn Hns IH]; intros f s Hs Hf Hok Hsz.
  - exists f. simpl. rewrite insert_id by done. by destruct s.
  - cbn [pieces]. rewrite !fmap_cons. cbn [serve_all serve]. mbase. rewrite (read_run fd f n) by done.
    set (f1 := move_cursor _ f). set (s1 := sc_set_files _ s).
    destruct (IH f1 s1) as [f' Hf']; [done|apply lookup_insert_eq|by apply moved_ok|done|].
    exists f'. rewrite Hf'. unfold f1. rewrite unread_moved by done. unfold s1, sc_set_files. simpl.
    by rewrite insert_insert_eq.
Qed.

(** Opening a mocked path, reading it in pieces of any sizes and closing it: the
    reads give the content of the file from its start, in order and without a gap,
    then end of file, and the close forgets the descriptor, so that only the
    temporary file itself is left behind. *)
Theorem mocked_file_session path f oflag mode fd name counts s s1 e e1 :
  started s -> create_mocked_file_based_on_full_path path = Some f ->
  on_os os_mkstemp s e = Ok (fd, name) s1 e1 -> 0 <= fd -> sc_files s !! fd = None ->
  Forall (fun n => 0 <= n < 2 ^ 64) counts ->
  serve_all (([], LOpen path oflag mode) :: read_calls fd counts ++ [([], LClose fd)]) s e =
    Ok (Some (fd, NoOut) :: read_results (pieces (mf_buf f) counts) ++ [Some (0, NoOut)]) s1 e1 /\
  concat (pieces (mf_buf f) counts) = take (sum_list_with Z.to_nat counts) (mf_buf f).
Proof.
  intros Hs Hf Hmk Hfd Hnew Hn. split; [|apply concat_pieces].
  destruct (mocked_files_ok _ _ Hf) as [Hok Hsz].
  assert (sc_files s1 = sc_files s /\ started s1) as [Hfs Hs1].
  { unfold on_os, on_shm, zoom in Hmk. destruct (in_os _ _ _); simplify_eq. done. }
  cbn [serve_all serve]. unfold handle_open. mbase. rewrite unless_off_started by done. rewrite Hf.
  unfold add_mocked_file. mbase. rewrite Hmk. cbn [fst snd].
  rewrite (proj2 (Z.ltb_ge fd 0)) by done. rewrite Hfs, Hnew.
  set (s2 := sc_set_files (<[fd:=f]> (sc_files s)) s1).
  destruct (reads_run fd f counts s2 e1) as [f' Hr]; [done|apply lookup_insert_eq|done|done|done|].
  assert (unread f = mf_buf f) as Hu.
  { unfold create_mocked_file_based_on_full_path in Hf. destruct (path_eqb _ _); [|destruct (path_eqb _ _)];
      by simplify_eq. }
  rewrite Hu in Hr. set (s3 := sc_set_files (<[fd:=f']> (sc_files s2)) s2) in Hr.
  rewrite (serve_all_app _ [([], LClose fd)] s2 e1 _ s3 e1 [Some (0, NoOut)] s1 e1 Hr); [done|].
  cbn [serve_all serve]. unfold handle_close. mbase. rewrite unless_off_started by done.
  unfold s3, s2, sc_set_files. simpl. rewrite lookup_insert_eq. simpl.
  rewrite insert_insert_eq, delete_insert_id by done. rewrite <- Hfs. by destruct s1.
Qed.

(** *** Sessions on a hash map *)

(** The descriptor [fd] leads to a hash map with the contents [g]. *)
Record hash_at fd (ks vs : nat) (limit : Z) (g : gmap bytes bytes) s : Prop := {
  ha_started : started s;
  ha_user : sc_run_with_kernel s = false;
  ha_map : exists h p x, map_at fd (sc_shm s) = Some h /\ map_type h = BPF_MAP_TYPE_HASH /\
    mh_lock h = false /\ mh_impl_ptr h = Some p /\ mh_value_size h = Z.of_nat vs /\
    sm_objects (hm_mem (sh_manager (sc_shm s))) !! p = Some (IHash x) /\ fh_rel x g /\
    fh_key_size x = ks /\ fh_value_size x = vs /\ hm_max_element_count (fh_map_impl x) = limit
}.

Inductive map_request := MapGet (k : bytes) | MapPut (k v : bytes) (flags : Z).

Definition request_ok (ks vs : nat) (r : map_request) : Prop :=
  match r with MapGet k => length k = ks | MapPut k v _ => length k = ks /\ length v = vs end.

Definition request_call fd (size : Z) (r : map_request) : list (@round K) * libc_call :=
  ([], LBpf (match r with
    | MapGet k => BPF_MAP_LOOKUP_ELEM fd (Some k)
    | MapPut k v flags => BPF_MAP_UPDATE_ELEM fd (Some k) (Some v) flags end) size).

(** What the code does: a bounded map that takes every flag for BPF_ANY, drops a new key when it is
    full, and answers 0 to every update. *)
Definition lossy_request (limit : Z) (r : map_request) (g : gmap bytes bytes) : result * gmap bytes bytes :=
  match r with
  | MapGet k => (match g !! k with Some v => (0, OutBytes v) | None => (-1, NoOut) end, g)
  | MapPut k v _ => ((0, NoOut),
      if bool_decide (is_Some (g !! k)) || (Z.of_nat (size g) <? limit) then <[k := v]> g else g)
  end.
Fixpoint lossy_session (limit : Z) (rs : list map_request) (g : gmap bytes bytes)
    : list (option result) * gmap bytes bytes :=
  match rs with
  | [] => ([], g)
  | r :: rs' => let x := lossy_request limit r g in
      let y := lossy_session limit rs' x.2 in (Some x.1 :: y.1, y.2)
  end.

(** What the comments of map_handler.hpp promise: an update that is refused sets an errno. *)
Definition documented_request (limit : Z) (r : map_request) (g : gmap bytes bytes) : Z + result * gmap bytes bytes :=
  match r with
  | MapGet k => inr (match g !! k with Some v => (0, OutBytes v) | None => (-1, NoOut) end, g)
  | MapPut k v flags => match spec_update limit k v flags g with inl err => inl err | inr g' => inr ((0, NoOut), g') end
  end.

(** The documented session, as long as nothing is refused. *)
Fixpoint documented_session (limit : Z) (rs : list map_request) (g : gmap bytes bytes)
    : option (list (option result) * gmap bytes bytes) :=
  match rs with
  | [] => Some ([], g)
  | r :: rs' =>
      match documented_request limit r g with
      | inl _ => None
      | inr (a, g') => '(l, g'') ← documented_session limit rs' g'; Some (Some a :: l, g'')
      end
  end.

(** An update that the contract accepts is done as it says; one that it refuses is answered 0
    nevertheless: an existing key is overwritten, a new one is stored while there is room. *)
Lemma lossy_documented (limit : Z) (r : map_request) (g : gmap bytes bytes) : Z.of_nat (size g) <= limit ->
  match documented_request limit r g with
  | inr x => lossy_request limit r g = x
  | inl _ => exists k v flags, r = MapPut k v flags /\ (lossy_request limit r g).1 = (0, NoOut) /\
      (lossy_request limit r g).2 !! k = if bool_decide (is_Some (g !! k)) || (Z.of_nat (size g) <? limit) then Some v else None
  end.
Proof.
  intros Hsz. destruct r as [k|k v flags]; [done|]. cbn [documented_request lossy_request].
  assert ((if bool_decide (is_Some (g !! k)) || (Z.of_nat (size g) <? limit) then <[k := v]> g else g) !! k =
    if bool_decide (is_Some (g !! k)) || (Z.of_nat (size g) <? limit) then Some v else None) as Hk.
  { destruct (bool_decide _ || _) eqn:Hb; [apply lookup_insert_eq|]. apply orb_false_iff in Hb as [Hb%bool_decide_eq_false _].
    by apply eq_None_not_Some. }
  cut (match spec_update limit k v flags g with
       | inr g' => (if bool_decide (is_Some (g !! k)) || (Z.of_nat (size g) <? limit) then <[k := v]> g else g) = g'
       | inl _ => True end).
  { destruct (spec_update limit k v flags g); [intros _; by exists k, v, flags|by intros ->]. }
  clear Hk. unfold spec_update. destruct (negb _); [done|]. destruct (g !! k) as [y|] eqn:Hg.
  - rewrite bool_decide_eq_true_2 by (by eexists). by destruct (flags =? BPF_NOEXIST).
  - rewrite bool_decide_eq_false_2 by (by intros []). destruct (flags =? BPF_EXIST); [done|].
    destruct (Z.eqb_spec (Z.of_nat (size g)) limit); [done|]. by rewrite (proj2 (Z.ltb_lt _ _)) by lia.
Qed.

Lemma lossy_size (limit : Z) (r : map_request) (g : gmap bytes bytes) : Z.of_nat (size g) <= limit -> Z.of_nat (size (lossy_request limit r g).2) <= limit.
Proof.
  intros Hsz. destruct r as [k|k v flags]; [done|]. cbn [lossy_request snd]. case_bool_decide as Hk; simpl.
  - rewrite map_size_insert_Some by done. done.
  - destruct (Z.ltb_spec (Z.of_nat (size g)) limit); [|done]. rewrite map_size_insert_None by (by apply eq_None_not_Some). lia.
Qed.

Lemma lossy_session_documented (limit : Z) (rs : list map_request) (g : gmap bytes bytes) x : Z.of_nat (size g) <= limit ->
  documented_session limit rs g = Some x -> lossy_session limit rs g = x.
Proof.
  revert g x. induction rs as [|r rs IH]; intros g x Hsz; cbn [documented_session lossy_session]; [congruence|].
  pose proof (lossy_documented limit r g Hsz) as Hr. pose proof (lossy_size limit r g Hsz) as Hs'.
  destruct (documented_request limit r g) as [|[a g']]; [done|]. rewrite Hr in *. cbn [fst snd] in *.
  destruct (documented_session limit rs g') as [[l g'']|] eqn:Hd; [|done]. simpl. intros [= <-]. by rewrite (IH g' _ Hs' Hd).
Qed.

Lemma on_shm_Ok {A} (c : M (bpftime_shm K) A) s e a sh e' :
  c (sc_shm s) e = Ok a sh e' -> on_shm c s e = Ok a (sc_set_shm sh s) e'.
Proof. intros Hc. unfold on_shm, zoom. by rewrite Hc. Qed.

Lemma sc_set_shm_same s : sc_set_shm (sc_shm s) s = s.
Proof. by destruct s. Qed.

Lemma put_object_same (sh : bpftime_shm K) p x :
  sm_objects (hm_mem (sh_manager sh)) !! p = Some (IHash x) -> put_object hash_view p x sh = sh.
Proof.
  intros Ho. destruct sh as [n [l [ix os rs nx w op] ev nv] ? ?]. simpl in *.
  unfold put_object, sh_set_manager, hm_set_mem. simpl. unfold sm_set_object. simpl. by rewrite insert_id.
Qed.

Section hash_session.
Variables (fd : Z) (ks vs : nat) (limit size : Z).
Hypothesis Hfd : 0 <= fd < 2 ^ 31.

Lemma hash_at_get g s k e :
  hash_at fd ks vs limit g s -> length k = ks ->
  exists e', handle_sysbpf (BPF_MAP_LOOKUP_ELEM fd (Some k)) size s e =
    Ok (lossy_request limit (MapGet k) g).1 s e'.
Proof.
  intros [Hs Hu (h & p & x & Hm & Ht & Hlk & Hp & Hvs & Ho & Hr & Eks & Evs & _)] Hk. subst ks vs.
  assert (serves true (map_type h) _ hash_view fix_hash_MapImpl) as Hserv by (rewrite Ht; constructor).
  destruct (map_calls_by_fd fd (sc_shm s) h _ hash_view fix_hash_MapImpl p x (Some k) None 0 0 Hm Hlk Hp) as (Hl & _); [|done|].
  { simpl. by rewrite Ho. }
  pose proof (fix_lookup_run x g (Some k) k 0 Hr (points_to_self k) Hk) as HL.
  unfold handle_sysbpf. rewrite unless_off_started by done. unfold sysbpf_body. cbn [lossy_request fst].
  mbase. rewrite Hu. cbv zeta. rewrite s32_small by lia. destruct (g !! k) as [v|].
  - destruct HL as (off & HL & Hrd). apply Hl in HL. rewrite put_object_same in HL by done.
    rewrite (on_shm_Ok _ _ _ _ _ _ HL), sc_set_shm_same.
    rewrite (on_shm_Ok _ _ _ _ _ _ (map_value_size_by_fd _ _ _ _ Hm)), sc_set_shm_same.
    unfold value_bytes. rewrite Hm. simpl. rewrite Hp. simpl. rewrite Ho. simpl.
    unfold get_value_size. rewrite Ht, Hvs, Nat2Z.id, Hrd. by eexists.
  - apply Hl in HL. rewrite put_object_same in HL by done.
    rewrite (on_shm_Ok _ _ _ _ _ _ HL), sc_set_shm_same. by eexists.
Qed.

Lemma hash_at_put g s k v flags e :
  hash_at fd ks vs limit g s -> length k = ks -> length v = vs ->
  exists s' e', handle_sysbpf (BPF_MAP_UPDATE_ELEM fd (Some k) (Some v) flags) size s e = Ok (0, NoOut) s' e' /\
    hash_at fd ks vs limit (lossy_request limit (MapPut k v flags) g).2 s'.
Proof.
  intros [Hs Hu (h & p & x & Hm & Ht & Hlk & Hp & Hvs & Ho & Hr & Eks & Evs & El)] Hk Hv.
  assert (serves true (map_type h) _ hash_view fix_hash_MapImpl) as Hserv by (rewrite Ht; constructor).
  destruct (map_calls_by_fd fd (sc_shm s) h _ hash_view fix_hash_MapImpl p x (Some k) (Some v) flags 0 Hm Hlk Hp) as (_ & Hup & _);
    [|done|].
  { simpl. by rewrite Ho. }
  destruct (fix_update_run x g (Some k) (Some v) k v flags 0 Hr (points_to_self k) (points_to_self v))
    as (x' & HU & Hr' & Hk' & Hv' & Hl'); [congruence|congruence|].
  apply Hup in HU. unfold handle_sysbpf. rewrite unless_off_started by done. unfold sysbpf_body, plain.
  mbase. rewrite Hu. cbv zeta. rewrite s32_small by lia. rewrite (on_shm_Ok _ _ _ _ _ _ HU).
  eexists _, _. split; [done|]. constructor; [done|done|]. exists h, p, x'.
  rewrite El in Hr'. split_and!; try done; try congruence. simpl. by rewrite lookup_insert_eq.
Qed.

Lemma hash_at_size g s : hash_at fd ks vs limit g s -> Z.of_nat (base.size g) <= limit.
Proof.
  intros [_ _ (h & p & x & _ & _ & _ & _ & _ & _ & Hr & _ & _ & <-)].
  rewrite (hm_rel_size _ _ (fh_rel_impl _ _ Hr)). apply (hm_wf_limit _ (hm_rel_wf _ _ (fh_rel_impl _ _ Hr))).
Qed.

Lemma hash_session_run rs g s e :
  hash_at fd ks vs limit g s -> Forall (request_ok ks vs) rs ->
  exists s' e', serve_all (request_call fd size <$> rs) s e = Ok (lossy_session limit rs g).1 s' e' /\
    hash_at fd ks vs limit (lossy_session limit rs g).2 s'.
Proof.
  intros Hg Hrs. revert g s e Hg. induction Hrs as [|r rs Hr Hrs IH]; intros g s e Hg; [by exists s, e|].
  cbn [lossy_session fst snd]. rewrite fmap_cons. cbn [serve_all request_call serve]. mbase. destruct r as [k|k v flags].
  - destruct (hash_at_get g s k e Hg Hr) as [e1 H1].
    destruct (IH g s e1 Hg) as (s' & e' & H2 & Hg'). rewrite H1, H2. eauto.
  - destruct (hash_at_put g s k v flags e Hg (proj1 Hr) (proj2 Hr)) as (s1 & e1 & H1 & Hg1).
    destruct (IH _ s1 e1 Hg1) as (s' & e' & H2 & Hg'). rewrite H1, H2. eauto.
Qed.

(** C3. A session of lookups and updates on a hash map kept in user space, with keys and values of
    the sizes of the map, through bpf(2) on a started server and down to the bytes of its table.
    As long as the contract in the comments of map_handler.hpp refuses no update, the program sees
    exactly the answers of that contract and the map ends with its contents. Where the contract
    refuses an update (EINVAL, EEXIST, ENOENT or E2BIG with -1) the code departs from it: in
    general the session is that of a map that ignores the flags, drops a new key when it is full,
    and answers 0 to every update. *)
Theorem hash_session_refines rs g s e :
  hash_at fd ks vs limit g s -> Forall (request_ok ks vs) rs ->
  exists s' e' answers g', serve_all (request_call fd size <$> rs) s e = Ok answers s' e' /\
    hash_at fd ks vs limit g' s' /\
    (forall x, documented_session limit rs g = Some x -> x = (answers, g')) /\
    (answers, g') = lossy_session limit rs g.
Proof.
  intros Hg Hrs. destruct (hash_session_run rs g s e Hg Hrs) as (s' & e' & Hr & Hg').
  eexists s', e', _, _. split_and!; [done|done| |by destruct (lossy_session limit rs g)].
  intros x Hx. rewrite <- (lossy_session_documented limit rs g x (hash_at_size g s Hg) Hx). by destruct (lossy_session limit rs g).
Qed.

End hash_session.

(** *** Mappings *)

(** Mapping a ring buffer gives its consumer page to a writable and its producer page
    to a read-only request, and unmapping it takes the address back: the operating
    system sees neither call, and the server is as before. *)
Theorem ring_mapping_round_trip fd s e h p r addr length prot flags offset size :
  started s -> sc_run_with_kernel s = false -> 0 <= fd ->
  map_at fd (sc_shm s) = Some h -> map_type h = BPF_MAP_TYPE_RINGBUF -> mh_impl_ptr h = Some p ->
  ring_of p (hm_mem (sh_manager (sc_shm s))) = Some r ->
  prot = Z.lor PROT_WRITE PROT_READ \/ prot = PROT_READ ->
  let a := if prot =? PROT_READ then AddrProducer r else AddrConsumer r in
  a ∉ sc_mmap_values s ->
  serve_all [([], LMmap64 addr length prot flags fd offset); ([], LMunmap a size)] s e =
    Ok [Some (0, OutAddr a); Some (0, NoOut)] s e.
Proof.
  intros Hs Hk Hfd Hm Ht Hp Hr Hprot a Ha.
  assert (is_ringbuf_map_fd fd (sc_shm s) = true) as Hring.
  { unfold is_ringbuf_map_fd, is_map_of_type. rewrite Hm. by apply bool_decide_eq_true_2. }
  assert (ringbuf_of fd (sc_shm s) e = Ok (Some r) (sc_shm s) e) as Hof.
  { unfold ringbuf_of. mbase. rewrite Hring. simpl. rewrite Hm. simpl. rewrite Hp. simpl. by rewrite Hr. }
  assert (mocked_mapping length prot fd s e = Ok (Some a) s e) as Hmap.
  { unfold mocked_mapping. mbase. rewrite (proj2 (Z.eqb_neq fd (-1))) by lia. rewrite Hring.
    unfold a. destruct Hprot as [-> | ->]; simpl;
      by rewrite (on_shm_Ok _ _ _ _ _ _ Hof), sc_set_shm_same. }
  cbn [serve_all serve]. unfold handle_mmap64. mbase. rewrite unless_kernel_started by done. rewrite Hmap.
  set (s1 := sc_set_mmap _ s).
  assert (started s1) as Hs1 by done. assert (sc_run_with_kernel s1 = false) as Hk1 by done.
  unfold handle_munmap. mbase. rewrite (proj1 Hs1), Hk1. simpl. rewrite try_startup_started by done.
  simpl. rewrite bool_decide_true by set_solver. simpl. unfold s1, sc_set_mmap. simpl.
  rewrite difference_union_distr_l_L, difference_diag_L, union_empty_l_L, difference_disjoint_L by set_solver.
  by destruct s.
Qed.

(** With BPFTIME_RUN_WITH_KERNEL set, munmap and epoll_wait call the original function
    and then call it again: the return before the first call is missing. *)
Theorem kernel_mode_calls_twice s e addr size rounds epfd maxevents timeout :
  started s -> sc_run_with_kernel s = true -> addr ∉ sc_mmap_values s -> is_epoll_fd epfd (sc_shm s) = false ->
  (forall r1 s1 e1 r2 s2 e2, call_orig (LMunmap addr size) s e = Ok r1 s1 e1 ->
     call_orig (LMunmap addr size) s1 e1 = Ok r2 s2 e2 ->
     handle_munmap addr size s e = Ok r2 s2 e2) /\
  (forall r1 s1 e1 r2 s2 e2, call_orig (LEpollWait epfd maxevents timeout) s e = Ok r1 s1 e1 ->
     call_orig (LEpollWait epfd maxevents timeout) s1 e1 = Ok r2 s2 e2 ->
     handle_epoll_wait rounds epfd maxevents timeout s e = Ok (Some r2) s2 e2).
Proof.
  intros Hs Hk Ha Hep.
  assert (forall c r1 s1 e1, call_orig c s e = Ok r1 s1 e1 ->
    started s1 /\ sc_mmap_values s1 = sc_mmap_values s /\ is_epoll_fd epfd (sc_shm s1) = false) as Horig.
  { intros c r1 s1 e1 Hc. unfold call_orig, on_os, on_shm, in_os, zoom in Hc.
    destruct (orig c _ _); simplify_eq. done. }
  split; intros r1 s1 e1 r2 s2 e2 H1 H2; destruct (Horig _ _ _ _ H1) as (Hs1 & Hv & He).
  - unfold handle_munmap. mbase. rewrite Hk, orb_true_r. rewrite H1, try_startup_started by done.
    rewrite Hv, bool_decide_false by done. done.
  - unfold handle_epoll_wait. mbase. rewrite Hk, orb_true_r. rewrite H1, try_startup_started by done.
    rewrite He, H2. done.
Qed.

End server.

(** ** Witnesses *)

(** An operating system that hands out the descriptors from 4 on and writes the
    original calls it gets into a log. *)
Definition log_os : Os (list bytes) := {|
  os_open_null := fun k e => Ok (4 + Z.of_nat (length k)) (k ++ [[0]]) e;
  os_dup := fun fd k e => Ok (4 + Z.of_nat (length k)) (k ++ [[0]]) e
|}.
Definition log_libc : Libc (list bytes) := {|
  orig := fun c k e => Ok (0, NoOut) (k ++ [[1]]) e;
  os_mkstemp := fun k e => Ok (40, "/tmp/bpftime-mock.1") (k ++ [[2]]) e;
  os_write := fun fd bs => mret (Z.of_nat (length bs));
  os_fscanf := fun f fmt => mret (1, 0);
  os_fclose := fun f => mret tt;
  map_info_by_fd := fun fd => mret (-1, mk_map_info 0 0 0 0 0 0 "" 0 0 0 0 0 0);
  fs_exists := fun k p => false;
  fs_read_symlink := fun k p => "";
  fs_is_directory := fun k p => false;
  environment := fun v => None;
  regex_match := fun p s => Some false;
  os_load := fun k fd v n => None
|}.
#[local] Existing Instances toy_runtime log_os log_libc.

Definition server_with (kernel : bool) (g : manager (list bytes)) : syscall_context (list bytes) :=
  mk_sctx true kernel "" ∅ ∅ true agent_config_new (mk_bshm false g ∅ ∅).

Lemma server_with_ok kernel g : server_ok (server_with kernel g).
Proof. by constructor. Qed.

Lemma server_calls_invariant_witness :
  exists rs s' e', serve_all [([], LOpen UPROBE_TYPE_FILE_NAME 0 0); ([], LRead 40 1)]
      (server_with false small_manager) 0 = Ok rs s' e' /\ server_ok s'.
Proof.
  pose proof (server_calls_invariant [([], LOpen UPROBE_TYPE_FILE_NAME 0 0); ([], LRead 40 1)]
    (server_with false small_manager) 0 (server_with_ok false small_manager)) as Hi.
  destruct (serve_all _ _ _) as [rs s' e'| |] eqn:Hr; [|vm_compute in Hr; discriminate Hr..].
  exists rs, s', e'. exact (conj eq_refl (proj1 Hi)).
Defined.

(** The type file of uprobes, read in two pieces. *)
Lemma mocked_file_session_witness :
  exists s1, serve_all [([], LOpen URETPROBE_BIT_FILE_NAME 0 0); ([], LRead 40 7); ([], LRead 40 5); ([], LClose 40)]
      (server_with false small_manager) 0 =
    Ok [Some (40, NoOut); Some (7, OutBytes (string_bytes "config:")); Some (1, OutBytes (string_bytes "0"));
      Some (0, NoOut)] s1 0.
Proof.
  eexists. refine (proj1 (mocked_file_session URETPROBE_BIT_FILE_NAME (mocked_file_new "config:0") 0 0 40
    "/tmp/bpftime-mock.1" [7; 5] (server_with false small_manager) _ 0 0 _ _ _ _ _ _)).
  - split; reflexivity.
  - vm_compute. reflexivity.
  - reflexivity.
  - lia.
  - reflexivity.
  - repeat constructor; lia.
Defined.

(** A server with an empty hash map of five elements at descriptor 0. *)
Definition hash_handler : bpf_map_handler := mh_set_ptr (Some O) (map_handler_new 0 "m" (small_attr 1 1 1 5)).
Definition hash_manager : manager (list bytes) :=
  mk_manager [MapH hash_handler] (one_object (IHash (fix_hash_new 5 1 1))) ∅ 0.

Lemma hash_session_refines_witness :
  exists s' e', serve_all (request_call 0 0 <$> [MapGet [7]; MapPut [7] [9] 0; MapGet [7]])
      (server_with false hash_manager) 0 =
    Ok [Some (-1, NoOut); Some (0, NoOut); Some (0, OutBytes [9])] s' e'.
Proof.
  destruct (hash_session_refines 0 1 1 5 0 ltac:(lia) [MapGet [7]; MapPut [7] [9] 0; MapGet [7]] ∅
    (server_with false hash_manager) 0) as (s' & e' & answers & g' & Hr & _ & Hdoc & _).
  - constructor; [split; reflexivity|reflexivity|]. eexists hash_handler, O, (fix_hash_new 5 1 1).
    split_and!; try reflexivity. exact small_fix_rel.
  - repeat constructor.
  - exists s', e'. rewrite Hr. specialize (Hdoc _ eq_refl). injection Hdoc as <- _. reflexivity.
Defined.

(** A server with a ring buffer of 32 bytes at descriptor 0. *)
Definition ring_server : syscall_context (list bytes) :=
  server_with false (mk_manager [MapH (mh_set_ptr (Some 1%nat) (map_handler_new 0 "m" (small_attr 27 0 0 32)))]
    (mk_shm {[ "ebpf_map_fd_m" := 1%nat ]} {[ 1%nat := IRingbuf 0 ]} {[ O := ringbuf_new 4096 32 ]} 2 [] ∅) ∅ 0).

Lemma ring_mapping_round_trip_witness :
  serve_all [([], LMmap64 (AddrOs 0) 4096 PROT_READ 1 0 0); ([], LMunmap (AddrProducer 0) 4096)] ring_server 0 =
    Ok [Some (0, OutAddr (AddrProducer 0)); Some (0, NoOut)] ring_server 0.
Proof.
  refine (ring_mapping_round_trip 0 ring_server 0 _ _ _ (AddrOs 0) 4096 PROT_READ 1 0 4096 _ _ _ _ _ _ _ _ _).
  - split; reflexivity.
  - reflexivity.
  - lia.
  - reflexivity.
  - reflexivity.
  - reflexivity.
  - reflexivity.
  - by right.
  - simpl. set_solver.
Defined.

Lemma kernel_mode_calls_twice_witness :
  exists s', handle_munmap (AddrOs 1) 8 (server_with true small_manager) 0 = Ok (0, NoOut) s' 0 /\
    world s' = [[1]; [1]].
Proof.
  eexists. split.
  - refine (proj1 (kernel_mode_calls_twice (server_with true small_manager) 0 (AddrOs 1) 8 [] 3 1 0 _ _ _ _)
      _ _ _ _ _ _ _ _).
    + split; reflexivity.
    + reflexivity.
    + simpl. set_solver.
    + reflexivity.
    + reflexivity.
    + reflexivity.
  - reflexivity.
Defined.

(** A manager with a program at 1, a tracepoint event at 2 and free slots from 4 on. *)
Definition link_manager : manager (list bytes) :=
  mk_manager [UnusedHandler; ProgH small_prog; PerfH (perf_event_tracepoint 1 2); UnusedHandler;
    UnusedHandler; UnusedHandler] empty_shm ∅ 0.
Definition perf_link : bpf_link_create_args := mk_link_args 1 2 BPF_PERF_EVENT 0 (le_encode 8 7).

(** BPF_LINK_CREATE of a perf event link makes two link handlers: the one it returns,
    which has lost the cookie, and one with the cookie, which the program does not
    know; an agent attaches the program twice. *)
Theorem perf_link_created_twice :
  exists s' e', handle_sysbpf (BPF_LINK_CREATE perf_link) 64 (server_with false link_manager) 0 =
    Ok (4, NoOut) s' e' /\
    handler_at 4 (sc_shm s') = Some (LinkH (mk_link (Some perf_link) 1 2 None)) /\
    handler_at 5 (sc_shm s') = Some (LinkH (mk_link None 1 2 (Some 7))).
Proof. eexists _, _. split; [vm_compute; reflexivity|]. split; vm_compute; reflexivity. Qed.
