(* ===== verification/Timespan.v ===== *)
(** What the profiler's components share: spans of time in picoseconds
    (tsl::profiler::Timespan, a library class, as the class [Timespan] with its
    documented behaviour), 64-bit floating point numbers, and counting in lists. *)
From Stdlib Require Import ZArith Lia SpecFloat.
From stdpp Require Import base list.
From S2P Require Import Prelude.
Local Open Scope Z_scope.

(** ** Spans *)

Class Timespan (T : Type) := {
  begin_ps : T -> Z;
  end_ps : T -> Z;
  duration_ps : T -> Z;
  FromEndPoints : Z -> Z -> T;
  ts_default : T;
  ts_Empty : T -> bool;
  ts_Includes : T -> T -> bool;
  ts_eq_dec :: EqDecision T;
  begin_ps_u64 t : 0 <= begin_ps t < 2 ^ 64;
  duration_ps_u64 t : 0 <= duration_ps t < 2 ^ 64;
  end_ps_sum t : end_ps t = u64 (begin_ps t + duration_ps t);
  FromEndPoints_begin b e : 0 <= b <= e -> e < 2 ^ 64 -> begin_ps (FromEndPoints b e) = b;
  FromEndPoints_duration b e : 0 <= b <= e -> e < 2 ^ 64 -> duration_ps (FromEndPoints b e) = e - b;
  ts_default_begin : begin_ps ts_default = 0;
  ts_default_duration : duration_ps ts_default = 0;
  ts_Empty_default : ts_Empty ts_default = true;
  ts_Empty_duration t : ts_Empty t = true -> duration_ps t = 0;
  ts_Includes_spec s t :
    ts_Includes s t = (begin_ps s <=? begin_ps t) && (end_ps t <=? end_ps s)
}.

Section spans.
Context {T : Type} `{!Timespan T}.
Implicit Types t : T.

(** A span whose end is a 64-bit number, as every span of a trace is. *)
Definition span_ok t : Prop := begin_ps t + duration_ps t < 2 ^ 64.

Lemma span_end t : span_ok t -> end_ps t = begin_ps t + duration_ps t.
Proof.
  unfold span_ok. intros Hok. rewrite end_ps_sum. apply wrap_small.
  pose proof (begin_ps_u64 t). pose proof (duration_ps_u64 t). lia.
Qed.

Lemma FromEndPoints_ok b e : 0 <= b <= e -> e < 2 ^ 64 ->
  begin_ps (FromEndPoints b e) = b /\ duration_ps (FromEndPoints b e) = e - b /\
  end_ps (FromEndPoints b e) = e /\ span_ok (FromEndPoints b e).
Proof.
  intros Hb He. assert (span_ok (FromEndPoints b e)) as Hok.
  { unfold span_ok. rewrite FromEndPoints_begin, FromEndPoints_duration by done. lia. }
  rewrite span_end, FromEndPoints_begin, FromEndPoints_duration by done. split_and!; [lia..|done].
Qed.

(** The instants of a span. *)
Definition covers t (x : Z) : bool := (begin_ps t <=? x) && (x <? end_ps t).
End spans.

(** A span as a pair of begin and duration; arguments are taken modulo 2^64. *)
Section pairs.
Definition pair_span : Type := Z * Z.

Definition pair_from (b e : Z) : pair_span := if e <? b then (b, 0) else (b, e - b).
Definition pair_begin (t : pair_span) : Z := u64 t.1.
Definition pair_duration (t : pair_span) : Z := u64 t.2.
Definition pair_end (t : pair_span) : Z := u64 (pair_begin t + pair_duration t).

#[export] Program Instance pair_Timespan : Timespan pair_span := {
  begin_ps := pair_begin;
  end_ps := pair_end;
  duration_ps := pair_duration;
  FromEndPoints := pair_from;
  ts_default := (0, 0);
  ts_Empty t := (pair_begin t =? 0) && (pair_duration t =? 0);
  ts_Includes s t := (pair_begin s <=? pair_begin t) && (pair_end t <=? pair_end s)
}.
Next Obligation. intros. apply wrap_range. lia. Qed.
Next Obligation. intros. apply wrap_range. lia. Qed.
Next Obligation. done. Qed.
Next Obligation.
  intros b e ??. unfold pair_from, pair_begin. destruct (Z.ltb_spec e b); simpl; apply wrap_small; lia.
Qed.
Next Obligation.
  intros b e ??. unfold pair_from, pair_duration. destruct (Z.ltb_spec e b); simpl; [lia|].
  apply wrap_small; lia.
Qed.
Next Obligation. done. Qed.
Next Obligation. done. Qed.
Next Obligation. done. Qed.
Next Obligation. intros t Ht. zify_bool. lia. Qed.
Next Obligation. done. Qed.
End pairs.

(** The rest of the library class: its constructor, and the operations of trace
    events. Expanding the empty span gives the other one, as
    convert/duty_cycle_tracker_test.cc expects. *)
Class TimespanOps (T : Type) `{!Timespan T} := {
  mk_span : Z -> Z -> T;
  ts_Instant : T -> bool;
  ts_Overlaps : T -> T -> bool;
  ts_ExpandToInclude : T -> T -> T;
  mk_span_begin b d : 0 <= b < 2 ^ 64 -> begin_ps (mk_span b d) = b;
  mk_span_duration b d : 0 <= d < 2 ^ 64 -> duration_ps (mk_span b d) = d;
  ts_Empty_iff t : ts_Empty t = true -> begin_ps t = 0;
  ts_Empty_false t : ts_Empty t = false -> begin_ps t <> 0 \/ duration_ps t <> 0;
  ts_Instant_spec t : ts_Instant t = (duration_ps t =? 0);
  ts_Overlaps_spec s t :
    ts_Overlaps s t = (begin_ps s <=? end_ps t) && (begin_ps t <=? end_ps s);
  ts_ExpandToInclude_empty s t : ts_Empty s = true -> ts_ExpandToInclude s t = t;
  ts_ExpandToInclude_span s t : ts_Empty s = false -> ts_Empty t = false ->
    ts_ExpandToInclude s t =
    FromEndPoints (Z.min (begin_ps s) (begin_ps t)) (Z.max (end_ps s) (end_ps t))
}.

Definition pair_empty (t : pair_span) : bool := (pair_begin t =? 0) && (pair_duration t =? 0).

#[export] Program Instance pair_TimespanOps : TimespanOps pair_span := {
  mk_span b d := (b, d);
  ts_Instant t := pair_duration t =? 0;
  ts_Overlaps s t := (pair_begin s <=? pair_end t) && (pair_begin t <=? pair_end s);
  ts_ExpandToInclude s t :=
    if pair_empty s then t
    else pair_from (Z.min (pair_begin s) (pair_begin t)) (Z.max (pair_end s) (pair_end t))
}.
Next Obligation. intros. by apply wrap_small. Qed.
Next Obligation. intros. by apply wrap_small. Qed.
Next Obligation. intros t Ht. simpl in *. zify_bool. lia. Qed.
Next Obligation. intros t Ht. simpl in *. zify_bool. lia. Qed.
Next Obligation. done. Qed.
Next Obligation. done. Qed.
Next Obligation. intros s t Hs. simpl in *. unfold pair_empty. by rewrite Hs. Qed.
Next Obligation. intros s t Hs Ht. simpl in *. unfold pair_empty. by rewrite Hs. Qed.

(** ** Doubles

    IEEE 754 binary64 with rounding to nearest, ties to even. *)
Abbreviation double := spec_float.
Definition dadd : double -> double -> double := SFadd 53 1024.
Definition ddiv : double -> double -> double := SFdiv 53 1024.
Definition double_of_Z (z : Z) : double := binary_normalize 53 1024 z 0 false.

(** [std::llround]: to the nearest integer, halves away from zero. Where the result is
    unspecified (not a number, or out of range) this is what x86-64 gives. *)
Definition llround (d : double) : Z :=
  match d with
  | S754_zero _ => 0
  | S754_finite s m e =>
      let v := if 0 <=? e then Z.pos m * 2 ^ e
               else (2 * Z.pos m + 2 ^ (- e)) / (2 * 2 ^ (- e)) in
      let r := if s then - v else v in
      if (- 2 ^ 63 <=? r) && (r <? 2 ^ 63) then r else - 2 ^ 63
  | _ => - 2 ^ 63
  end.

(** ** Counting *)

Definition countb {A} (P : A -> bool) (l : list A) : Z :=
  foldr (fun x n => Z.b2z (P x) + n) 0 l.

Section counting.
Context {A : Type}.
Implicit Types (P Q : A -> bool) (l : list A).

Lemma countb_app P l k : countb P (l ++ k) = countb P l + countb P k.
Proof. induction l as [|x l IH]; simpl; [done|]. rewrite IH. lia. Qed.

Lemma countb_nonneg P l : 0 <= countb P l.
Proof. induction l as [|x l IH]; simpl; [done|]. destruct (P x); simpl; lia. Qed.

Lemma countb_perm P l k : l ≡ₚ k -> countb P l = countb P k.
Proof. induction 1; simpl; lia. Qed.

Lemma countb_le P Q l : (forall x, x ∈ l -> P x = true -> Q x = true) -> countb P l <= countb Q l.
Proof.
  induction l as [|x l IH]; intros H; simpl; [done|].
  assert (countb P l <= countb Q l) by (apply IH; intros; apply H; [by right|done]).
  destruct (P x) eqn:Hp; simpl.
  - rewrite (H x) by (done || by left). simpl. lia.
  - destruct (Q x); simpl; lia.
Qed.

Lemma countb_ext P Q l : (forall x, x ∈ l -> P x = Q x) -> countb P l = countb Q l.
Proof.
  intros H. apply Z.le_antisymm; apply countb_le; intros x Hx ?; [rewrite <- H|rewrite H]; done.
Qed.

Lemma countb_pos P l : 0 < countb P l <-> exists x, x ∈ l /\ P x = true.
Proof.
  induction l as [|x l IH]; simpl.
  - split; [lia|]. intros (x & Hx & _). by apply not_elem_of_nil in Hx.
  - pose proof (countb_nonneg P l). destruct (P x) eqn:Hp; simpl.
    + split; [|lia]. intros _. exists x. split; [by left|done].
    + rewrite Z.add_0_l, IH. split.
      * intros (y & Hy & ?). exists y. split; [by right|done].
      * intros (y & [->|Hy]%elem_of_cons & ?); [congruence|]. exists y. done.
Qed.

Lemma countb_none P l : (forall x, x ∈ l -> P x = false) -> countb P l = 0.
Proof.
  intros H. pose proof (countb_nonneg P l). destruct (decide (0 < countb P l)) as [Hp|]; [|lia].
  apply countb_pos in Hp as (x & Hx & Hp). rewrite H in Hp by done. done.
Qed.
End counting.

(** Sums of a list. *)
Definition zsum (l : list Z) : Z := foldr Z.add 0 l.

Lemma zsum_app l k : zsum (l ++ k) = zsum l + zsum k.
Proof. unfold zsum. induction l as [|x l IH]; simpl; [done|]. rewrite IH. lia. Qed.
