(* ===== verification/EventSpan.v ===== *)
(** The events of a training step (xprof/utils/event_span.{h,cc}): event types with
    their priorities, the conversion of overlapped events into a breakdown of the
    step's time by the highest priority, and the details of a step with their
    combination across cores and hosts. *)
From Stdlib Require Import ZArith Lia SpecFloat.
From stdpp Require Import base list gmap strings sorting.
From S2P Require Import Prelude Timespan.
Local Open Scope Z_scope.

(** ** Event types

    An enumeration numbered by priority; the numbers are compared, used as
    indices and cast back, so a type is its number. *)
Abbreviation EventType := Z (only parsing).
Definition UNKNOWN_TIME : EventType := 0.
Definition HOST_COMPUTE : EventType := 10.
Definition HOST_PREPROCESS : EventType := 20.
Definition HOST_POSTPROCESS : EventType := 30.
Definition HOST_BATCH_FORMATION : EventType := 40.
Definition HOST_RUNTIME : EventType := 50.
Definition HOST_COMPILE : EventType := 60.
Definition HOST_TO_HOST : EventType := 70.
Definition HOST_TO_DEVICE : EventType := 80.
Definition HOST_PREPARE : EventType := 90.
Definition DEVICE_COLLECTIVES : EventType := 100.
Definition HOST_WAIT_INPUT : EventType := 110.
Definition DEVICE_TO_DEVICE : EventType := 120.
Definition DEVICE_TO_HOST : EventType := 130.
Definition DEVICE_COMPUTE_32 : EventType := 140.
Definition DEVICE_COMPUTE_16 : EventType := 150.
Definition DEVICE_WAIT_DEVICE : EventType := 160.
Definition DEVICE_WAIT_HOST : EventType := 170.
Definition LAST_EVENT_TYPE : EventType := DEVICE_WAIT_HOST.

Definition PrintEventType (event_type : EventType) : string :=
  if event_type =? UNKNOWN_TIME then "unknown_time"
  else if event_type =? HOST_COMPUTE then "host_compute"
  else if event_type =? HOST_COMPILE then "host_compile"
  else if event_type =? HOST_TO_HOST then "host_to_host"
  else if event_type =? HOST_TO_DEVICE then "host_to_device"
  else if event_type =? HOST_PREPARE then "host_prepare"
  else if event_type =? DEVICE_COLLECTIVES then "device_collectives"
  else if event_type =? HOST_WAIT_INPUT then "host_wait_input"
  else if event_type =? DEVICE_TO_DEVICE then "device_to_device"
  else if event_type =? DEVICE_TO_HOST then "device_to_host"
  else if event_type =? DEVICE_COMPUTE_32 then "device_compute_32"
  else if event_type =? DEVICE_COMPUTE_16 then "device_compute_16"
  else if event_type =? DEVICE_WAIT_DEVICE then "device_wait_device"
  else if event_type =? DEVICE_WAIT_HOST then "device_wait_host"
  else "unexpected".

(** ** The boundaries of events *)

Record EventBoundary := mk_boundary { eb_time : Z; eb_type : EventType; eb_is_start : bool }.

(** [CmpEventBoundaries]: true if [a] should appear before [b]. *)
Definition CmpEventBoundaries (a b : EventBoundary) : bool :=
  if eb_time a =? eb_time b then
    if Bool.eqb (eb_is_start a) (eb_is_start b) then eb_type b <? eb_type a
    else negb (eb_is_start a)
  else eb_time a <? eb_time b.

(** Sorting puts [a] before [b] unless [b] should appear before [a]. *)
Definition boundary_le (a b : EventBoundary) : Prop := CmpEventBoundaries b a = false.
#[export] Instance boundary_le_dec : RelDecision boundary_le.
Proof. intros a b. unfold boundary_le. apply _. Defined.

(** ** The priority tracker: the highest type with an open event *)

Record PriorityTracker := mk_tracker { current_max_priority : EventType; priority_count : list Z }.

Definition tracker_new : PriorityTracker :=
  mk_tracker UNKNOWN_TIME (replicate (Z.to_nat (LAST_EVENT_TYPE + 1)) 0).

(** [for (int i = event_type - 1; i >= 0; i--) if (priority_count_[i] > 0) ..]:
    the loop starts at [n - 1]. *)
Fixpoint scan_down (counts : list Z) (n : nat) : option Z :=
  match n with
  | O => None
  | S i =>
      match counts !! i with
      | Some c => if 0 <? c then Some (Z.of_nat i) else scan_down counts i
      | None => scan_down counts i
      end
  end.

(** [Update]; [None] when the type is not an index of the counters. *)
Definition tracker_update (boundary : EventBoundary) (p : PriorityTracker) : option PriorityTracker :=
  let event_type := eb_type boundary in
  let i := Z.to_nat event_type in
  c ← (if event_type <? 0 then None else priority_count p !! i);
  if eb_is_start boundary then
    Some (mk_tracker
      (if current_max_priority p <? event_type then event_type else current_max_priority p)
      (<[i := c + 1]> (priority_count p)))
  else
    let counts := <[i := c - 1]> (priority_count p) in
    Some (mk_tracker
      (if (event_type =? current_max_priority p) && (c - 1 =? 0)
       then default UNKNOWN_TIME (scan_down counts i) else current_max_priority p)
      counts).

Section events.
Context {T : Type} `{!Timespan T}.

Record EventTypeSpan := mk_ets { ets_type : EventType; ets_span : T }.

#[export] Instance EventTypeSpan_eq_dec : EqDecision EventTypeSpan.
Proof. solve_decision. Defined.

Definition event_boundaries_of (event : EventTypeSpan) : list EventBoundary :=
  [mk_boundary (begin_ps (ets_span event)) (ets_type event) true;
   mk_boundary (end_ps (ets_span event)) (ets_type event) false].

Definition GenerateEventBoundaries (overlapped_events : list EventTypeSpan) : list EventBoundary :=
  merge_sort boundary_le (overlapped_events ≫= event_boundaries_of).

(** The loop over neighbouring boundaries. *)
Fixpoint sweep (p : PriorityTracker) (boundaries : list EventBoundary) : option (list EventTypeSpan) :=
  match boundaries with
  | b :: ((b' :: _) as rest) =>
      p' ← tracker_update b p;
      result ← sweep p' rest;
      Some (mk_ets (current_max_priority p') (FromEndPoints (eb_time b) (eb_time b')) :: result)
  | _ => Some []
  end.

Definition ToNonOverlappedEvents (overlapped_events : list EventTypeSpan) : option (list EventTypeSpan) :=
  sweep tracker_new (GenerateEventBoundaries overlapped_events).
End events.
Arguments EventTypeSpan T : clear implicits.

(** ** The order of boundaries *)

#[export] Instance boundary_le_total : Total boundary_le.
Proof.
  intros [t1 y1 s1] [t2 y2 s2]. unfold boundary_le, CmpEventBoundaries. simpl.
  destruct (Z.eqb_spec t1 t2), (Z.eqb_spec t2 t1), s1, s2; simpl; rewrite ?Z.ltb_ge; lia.
Qed.

#[export] Instance boundary_le_trans : Transitive boundary_le.
Proof.
  intros [t1 y1 s1] [t2 y2 s2] [t3 y3 s3]. unfold boundary_le, CmpEventBoundaries. simpl.
  destruct (Z.eqb_spec t2 t1), (Z.eqb_spec t3 t2), (Z.eqb_spec t3 t1), s1, s2, s3; simpl;
    rewrite ?Z.ltb_ge; intros; lia || done.
Qed.

#[export] Instance boundary_le_antisymm : AntiSymm (=) boundary_le.
Proof.
  intros [t1 y1 s1] [t2 y2 s2]. unfold boundary_le, CmpEventBoundaries. simpl.
  destruct (Z.eqb_spec t2 t1), (Z.eqb_spec t1 t2), s1, s2; simpl;
    rewrite ?Z.ltb_ge; intros; (f_equal; lia) || done.
Qed.

(** Boundaries with equal keys are equal, so every sorting algorithm, stable or
    not, gives the same result. *)
Lemma sort_unique l k : k ≡ₚ l -> Sorted boundary_le k -> k = merge_sort boundary_le l.
Proof.
  intros Hp Hs. apply (Sorted_unique boundary_le); [done|by apply Sorted_merge_sort; apply _|].
  by rewrite merge_sort_Permutation.
Qed.

Lemma boundary_le_time a b : boundary_le a b -> eb_time a <= eb_time b.
Proof.
  unfold boundary_le, CmpEventBoundaries. destruct (Z.eqb_spec (eb_time b) (eb_time a)); [lia|].
  intros ?%Z.ltb_ge. done.
Qed.

Definition is_start_of (y : Z) (b : EventBoundary) : bool := eb_is_start b && (eb_type b =? y).
Definition is_end_of (y : Z) (b : EventBoundary) : bool := negb (eb_is_start b) && (eb_type b =? y).

(** How many events of a type are open after some boundaries. *)
Definition open (y : Z) (bs : list EventBoundary) : Z :=
  countb (is_start_of y) bs - countb (is_end_of y) bs.

Lemma open_snoc y bs b :
  open y (bs ++ [b]) = open y bs + (if eb_type b =? y then (if eb_is_start b then 1 else -1) else 0).
Proof.
  unfold open. rewrite !countb_app. simpl. unfold is_start_of, is_end_of.
  destruct (eb_is_start b), (eb_type b =? y); simpl; lia.
Qed.

(** ** What the tracker knows after some boundaries *)

Definition type_ok (y : Z) : Prop := 0 <= y <= LAST_EVENT_TYPE.

(** [y] is the highest type with an open event, or unknown time if there is none. *)
Definition highest (f : Z -> Z) (y : Z) : Prop :=
  (forall y', type_ok y' -> 0 < f y' -> y' <= y) /\
  ((type_ok y /\ 0 < f y) \/ y = UNKNOWN_TIME).

Record tracks (p : PriorityTracker) (bs : list EventBoundary) : Prop := {
  tracks_counts y : type_ok y -> priority_count p !! Z.to_nat y = Some (open y bs);
  tracks_max : highest (fun y => open y bs) (current_max_priority p)
}.

Lemma tracks_new : tracks tracker_new [].
Proof.
  split.
  - intros y [? ?]. apply lookup_replicate. split; [done|]. unfold LAST_EVENT_TYPE, DEVICE_WAIT_HOST in *. lia.
  - split; [|by right]. intros y ? H. unfold open in H. simpl in H. lia.
Qed.

Lemma scan_down_spec counts n :
  match scan_down counts n with
  | Some y => 0 <= y < Z.of_nat n /\ (exists c, counts !! Z.to_nat y = Some c /\ 0 < c) /\
      forall i c, y < Z.of_nat i < Z.of_nat n -> counts !! i = Some c -> c <= 0
  | None => forall i c, Z.of_nat i < Z.of_nat n -> counts !! i = Some c -> c <= 0
  end.
Proof.
  induction n as [|n IH]; simpl; [intros; lia|].
  assert (forall r, scan_down counts n = r -> (forall c, counts !! n = Some c -> c <= 0) ->
    match r with
    | Some y => 0 <= y < Z.of_nat (S n) /\ (exists c, counts !! Z.to_nat y = Some c /\ 0 < c) /\
        forall i c, y < Z.of_nat i < Z.of_nat (S n) -> counts !! i = Some c -> c <= 0
    | None => forall i c, Z.of_nat i < Z.of_nat (S n) -> counts !! i = Some c -> c <= 0
    end) as Hnext.
  { intros r <- Hn. destruct (scan_down counts n) as [y|].
    - destruct IH as (? & ? & H). split_and!; [lia|lia|done|]. intros i c Hi Hc.
      destruct (decide (i = n)) as [->|]; [by apply Hn|]. apply (H i c); [lia|done].
    - intros i c Hi Hc. destruct (decide (i = n)) as [->|]; [by apply Hn|]. apply (IH i c); [lia|done]. }
  destruct (counts !! n) as [c|] eqn:Hc; [|by apply Hnext].
  destruct (Z.ltb_spec 0 c).
  - split_and!; [lia|lia| |].
    + exists c. by rewrite Nat2Z.id.
    + intros i c' Hi. lia.
  - apply Hnext; [done|]. by intros ? [= <-].
Qed.

Lemma tracks_insert p bs b d y :
  tracks p bs -> type_ok (eb_type b) -> type_ok y ->
  <[Z.to_nat (eb_type b) := open (eb_type b) bs + d]> (priority_count p) !! Z.to_nat y =
  Some (open y bs + if eb_type b =? y then d else 0).
Proof.
  intros [Hc _] Hb Hy. destruct (Z.eqb_spec (eb_type b) y) as [<-|Hne].
  - rewrite list_lookup_insert_eq; [done|]. apply lookup_lt_is_Some. eauto.
  - rewrite list_lookup_insert_ne by (unfold type_ok in *; lia). rewrite (Hc _ Hy). f_equal. lia.
Qed.

(** When the last open event of the highest type ends, the downward scan finds the
    next highest one. *)
Lemma scan_down_highest f g y counts :
  highest f y -> type_ok y -> (forall y', type_ok y' -> g y' <= f y') -> g y = 0 ->
  (forall y', type_ok y' -> counts !! Z.to_nat y' = Some (g y')) ->
  highest g (default UNKNOWN_TIME (scan_down counts (Z.to_nat y))).
Proof.
  intros [Hmax _] Hy Hdown Hzero Hcs. unfold type_ok in *.
  pose proof (scan_down_spec counts (Z.to_nat y)) as Hs.
  assert (forall y', 0 <= y' <= LAST_EVENT_TYPE -> 0 < g y' -> y' < y) as Hlt.
  { intros y' Hy' Ho. pose proof (Hdown y' Hy'). assert (y' <= y) by (apply Hmax; [done|lia]).
    destruct (decide (y' = y)) as [->|]; lia. }
  destruct (scan_down counts _) as [m|]; simpl.
  - destruct Hs as (Hm & (c & Hc1 & Hc2) & Hs). split.
    + intros y' Hy' Ho. specialize (Hlt y' Hy' Ho). destruct (decide (y' <= m)); [done|].
      specialize (Hs (Z.to_nat y') _ ltac:(lia) (Hcs y' Hy')). lia.
    + left. unfold type_ok. split; [lia|]. rewrite Hcs in Hc1 by lia. by simplify_eq.
  - split; [|by right]. intros y' Hy' Ho. specialize (Hlt y' Hy' Ho). unfold type_ok in Hy'.
    specialize (Hs (Z.to_nat y') _ ltac:(lia) (Hcs y' Hy')). lia.
Qed.

Lemma highest_start f g y m :
  highest f m -> type_ok y -> 0 < g y -> (forall y', y' <> y -> g y' = f y') ->
  (0 < f y -> 0 < g y) -> highest g (if m <? y then y else m).
Proof.
  intros [Hmax Hin] Hy Hg Hne Hgy. split.
  - intros y' Hy' Ho. destruct (decide (y' = y)) as [->|]; [destruct (Z.ltb_spec m y); lia|].
    rewrite Hne in Ho by done. specialize (Hmax y' Hy' Ho). destruct (Z.ltb_spec m y); lia.
  - destruct (Z.ltb_spec m y); [by left|]. destruct Hin as [[? ?]|]; [left|by right].
    split; [done|]. destruct (decide (m = y)) as [->|]; [auto|]. by rewrite Hne.
Qed.

(** A step of the tracker keeps its knowledge, as long as no event ends before it
    has begun. *)
Lemma tracker_update_tracks p bs b :
  tracks p bs -> type_ok (eb_type b) -> 0 <= open (eb_type b) bs -> 0 <= open (eb_type b) (bs ++ [b]) ->
  exists p', tracker_update b p = Some p' /\ tracks p' (bs ++ [b]).
Proof.
  intros Ht Hy Hpos Hpos'. pose proof Ht as [Hc Hh]. unfold tracker_update.
  destruct (Z.ltb_spec (eb_type b) 0); [unfold type_ok in *; lia|].
  rewrite (Hc _ Hy). simpl. rewrite open_snoc, Z.eqb_refl in Hpos'.
  change (open (eb_type b) bs - 1) with (open (eb_type b) bs + -1).
  destruct (eb_is_start b) eqn:Hstart; eexists; (split; [done|]); split; simpl.
  - intros y Hy'. rewrite (tracks_insert p bs b 1 y), open_snoc, Hstart by done. done.
  - assert (open (eb_type b) (bs ++ [b]) = open (eb_type b) bs + 1) as Hup
      by (by rewrite open_snoc, Z.eqb_refl, Hstart).
    apply (highest_start (fun y => open y bs) (fun y => open y (bs ++ [b]))); [done|done|lia| |lia].
    intros y' Hne. rewrite open_snoc. destruct (Z.eqb_spec (eb_type b) y'); [done|lia].
  - intros y Hy'. rewrite (tracks_insert p bs b (-1) y), open_snoc, Hstart by done. done.
  - assert (forall y, type_ok y -> open y (bs ++ [b]) <= open y bs) as Hdown.
    { intros y _. rewrite open_snoc, Hstart. destruct (_ =? _); lia. }
    destruct (_ && _) eqn:Hb; zify_bool.
    + destruct Hb as [Hb Hzero]. rewrite <- Hb in Hh.
      apply (scan_down_highest (fun y => open y bs)); [done|done|done| |].
      * rewrite open_snoc, Hstart, Z.eqb_refl. lia.
      * intros y Hy'. rewrite (tracks_insert p bs b (-1) y), open_snoc, Hstart by done. done.
    + destruct Hh as [Hmax Hin]. split.
      * intros y Hy' Ho. apply Hmax; [done|]. specialize (Hdown y Hy'). lia.
      * destruct Hin as [[Hok Ho]|]; [left|by right]. split; [done|]. rewrite open_snoc, Hstart.
        destruct (Z.eqb_spec (eb_type b) (current_max_priority p)) as [Heq|]; [|lia].
        rewrite <- Heq in *. lia.
Qed.

(** ** The breakdown of time *)

Section breakdown.
Context {T : Type} `{!Timespan T}.
Implicit Types (e : EventTypeSpan T) (es r : list (EventTypeSpan T)).

(** An event of a trace: a known type and a span of positive length. *)
Definition event_ok e : Prop :=
  type_ok (ets_type e) /\ span_ok (ets_span e) /\ 0 < duration_ps (ets_span e).

(** The reference: the highest type among the events that cover an instant. *)
Definition type_at es (t : Z) : EventType :=
  foldr (fun e m => if covers (ets_span e) t then Z.max (ets_type e) m else m) UNKNOWN_TIME es.

(** Consecutive spans from [from] to [to], without gap or overlap. *)
Fixpoint tiles (from to : Z) r : Prop :=
  match r with
  | [] => from = to
  | x :: r' => begin_ps (ets_span x) = from /\ from <= end_ps (ets_span x) /\
      end_ps (ets_span x) = from + duration_ps (ets_span x) /\ tiles (end_ps (ets_span x)) to r'
  end.

Definition first_begin es : Z := foldr (fun e m => Z.min (begin_ps (ets_span e)) m) (2 ^ 64) es.
Definition last_end es : Z := foldr (fun e m => Z.max (end_ps (ets_span e)) m) 0 es.

Definition covering (y t : Z) e : bool := (ets_type e =? y) && covers (ets_span e) t.

Lemma type_at_bound es t e : e ∈ es -> covers (ets_span e) t = true -> ets_type e <= type_at es t.
Proof.
  induction es as [|x es IH]; intros Hin Hc; [by apply not_elem_of_nil in Hin|]. simpl.
  apply elem_of_cons in Hin as [<-|Hin]; [rewrite Hc; lia|]. specialize (IH Hin Hc).
  destruct (covers (ets_span x) t); lia.
Qed.

Lemma type_at_in es t :
  type_at es t = UNKNOWN_TIME \/
  exists e, e ∈ es /\ covers (ets_span e) t = true /\ ets_type e = type_at es t.
Proof.
  induction es as [|x es IH]; simpl; [by left|]. destruct (covers (ets_span x) t) eqn:Hx.
  - destruct (Z.max_spec (ets_type x) (type_at es t)) as [[Hlt ->]|[Hle ->]].
    + destruct IH as [->|(e & He & Hc & Hy)]; [by left|right]. exists e. split; [by right|done].
    + right. exists x. split; [by left|done].
  - destruct IH as [->|(e & He & Hc & Hy)]; [by left|right]. exists e. split; [by right|done].
Qed.

Lemma highest_type_at es t y :
  Forall event_ok es -> highest (fun y => countb (covering y t) es) y -> y = type_at es t.
Proof.
  intros Hok [Hmax Hin]. rewrite Forall_forall in Hok. apply Z.le_antisymm.
  - destruct Hin as [[_ Hpos]| ->].
    + apply countb_pos in Hpos as (e & He & Hc). unfold covering in Hc. zify_bool.
      destruct Hc as [<- Hc]. by apply type_at_bound.
    + destruct (type_at_in es t) as [->|(e & He & _ & <-)]; [done|].
      destruct (Hok e He) as [[? _] _]. done.
  - destruct (type_at_in es t) as [->|(e & He & Hc & Hy)].
    + destruct Hin as [[[? _] _]| ->]; done.
    + rewrite <- Hy. apply Hmax; [apply (Hok e He)|]. apply countb_pos. exists e. split; [done|].
      unfold covering. by rewrite Z.eqb_refl, Hc.
Qed.

(** *** Boundaries of all events *)

Lemma countb_boundaries P es :
  countb P (es ≫= event_boundaries_of) =
  countb (fun e => P (mk_boundary (begin_ps (ets_span e)) (ets_type e) true)) es +
  countb (fun e => P (mk_boundary (end_ps (ets_span e)) (ets_type e) false)) es.
Proof. induction es as [|e es IH]; [done|]. rewrite bind_cons, countb_app, IH. simpl. lia. Qed.

Lemma boundaries_perm es : GenerateEventBoundaries es ≡ₚ es ≫= event_boundaries_of.
Proof. apply merge_sort_Permutation. Qed.

Lemma boundaries_sorted es : StronglySorted boundary_le (GenerateEventBoundaries es).
Proof. apply StronglySorted_merge_sort; apply _. Qed.

Lemma boundary_of es b : b ∈ GenerateEventBoundaries es -> exists e, e ∈ es /\ b ∈ event_boundaries_of e.
Proof. rewrite boundaries_perm, list_elem_of_bind. intros (e & ? & ?). eauto. Qed.

Lemma event_end_after e : event_ok e -> begin_ps (ets_span e) < end_ps (ets_span e) < 2 ^ 64.
Proof.
  intros (_ & Hok & Hpos). pose proof Hok. unfold span_ok in Hok. rewrite span_end by done. lia.
Qed.

(** In every prefix no more events of a type have ended than begun. *)
Lemma open_prefix es pre post y :
  Forall event_ok es -> GenerateEventBoundaries es = pre ++ post -> 0 <= open y pre.
Proof.
  intros Hok Heq. rewrite Forall_forall in Hok.
  destruct (decide (pre = [])) as [->|Hne]; [done|].
  destruct (exists_last Hne) as (pre' & b & ->). clear Hne.
  pose proof (boundaries_sorted es) as Hs. rewrite Heq in Hs.
  assert (forall x, x ∈ pre' ++ [b] -> eb_time x <= eb_time b) as Hbefore.
  { intros x [Hx| ->%list_elem_of_singleton]%elem_of_app; [|done]. apply boundary_le_time.
    apply StronglySorted_app_1_l in Hs.
    apply (StronglySorted_app_1_elem_of _ _ _ _ _ Hs Hx). by left. }
  assert (forall x, x ∈ post -> eb_time b <= eb_time x) as Hafter.
  { intros x Hx. apply boundary_le_time. apply (StronglySorted_app_1_elem_of _ _ _ _ _ Hs); [|done].
    apply elem_of_app. right. by left. }
  set (ended := fun x => is_end_of y x && (eb_time x <=? eb_time b)).
  set (begun := fun x => is_start_of y x && (eb_time x <? eb_time b)).
  assert (countb (is_end_of y) (pre' ++ [b]) <= countb ended (GenerateEventBoundaries es)).
  { rewrite Heq, (countb_app ended). pose proof (countb_nonneg ended post).
    enough (countb (is_end_of y) (pre' ++ [b]) <= countb ended (pre' ++ [b])) by lia.
    apply countb_le. intros x Hx He. unfold ended. rewrite He. simpl. apply Z.leb_le. auto. }
  assert (countb begun (GenerateEventBoundaries es) <= countb (is_start_of y) (pre' ++ [b])).
  { rewrite Heq, (countb_app begun), (countb_none begun post).
    - rewrite Z.add_0_r. apply countb_le. intros x _. unfold begun. by intros [? _]%andb_true_iff.
    - intros x Hx. unfold begun. destruct (Z.ltb_spec (eb_time x) (eb_time b)); [|apply andb_false_r].
      specialize (Hafter x Hx). lia. }
  assert (countb ended (GenerateEventBoundaries es) <= countb begun (GenerateEventBoundaries es)).
  { rewrite !(countb_perm _ _ _ (boundaries_perm es)), !countb_boundaries.
    unfold ended, begun, is_end_of, is_start_of. simpl.
    rewrite (countb_none (fun _ => false)) by done.
    rewrite Z.add_0_l, Z.add_0_r. apply countb_le. intros e He.
    destruct (event_end_after e (Hok e He)). rewrite !andb_true_iff, Z.leb_le, Z.ltb_lt. intros [-> ?]. split; [done|lia]. }
  unfold open. lia.
Qed.

(** Between two boundaries, the open events are those that cover the instant. *)
Lemma open_between es pre post y t :
  Forall event_ok es -> GenerateEventBoundaries es = pre ++ post ->
  (forall x, x ∈ pre -> eb_time x <= t) -> (forall x, x ∈ post -> t < eb_time x) ->
  open y pre = countb (covering y t) es.
Proof.
  intros Hok Heq Hpre Hpost. rewrite Forall_forall in Hok.
  assert (forall P, countb P pre = countb (fun x => P x && (eb_time x <=? t)) (es ≫= event_boundaries_of)) as Hcount.
  { intros P. rewrite <- (countb_perm _ _ _ (boundaries_perm es)), Heq, countb_app.
    rewrite (countb_none _ post), Z.add_0_r.
    - apply countb_ext. intros x Hx. rewrite (proj2 (Z.leb_le _ _) (Hpre x Hx)). by rewrite andb_true_r.
    - intros x Hx. rewrite (proj2 (Z.leb_gt _ _) (Hpost x Hx)). apply andb_false_r. }
  unfold open. rewrite !Hcount, !countb_boundaries. unfold is_start_of, is_end_of. simpl.
  rewrite (countb_none (fun _ => false)), Z.add_0_r, Z.add_0_l by done.
  clear Heq Hcount Hpre Hpost. induction es as [|e es IH]; simpl; [done|].
  assert (Hlt : begin_ps (ets_span e) < end_ps (ets_span e) < 2 ^ 64) by (apply event_end_after, Hok; by left).
  specialize (IH (fun x Hx => Hok x (list_elem_of_further _ _ _ Hx))).
  replace (covering y t e) with
    ((ets_type e =? y) && ((begin_ps (ets_span e) <=? t) && (t <? end_ps (ets_span e)))) by done.
  destruct (ets_type e =? y); simpl; [|lia].
  destruct (Z.leb_spec (begin_ps (ets_span e)) t), (Z.leb_spec (end_ps (ets_span e)) t),
    (Z.ltb_spec t (end_ps (ets_span e))); simpl; lia.
Qed.

Lemma boundary_facts es b :
  Forall event_ok es -> b ∈ GenerateEventBoundaries es -> type_ok (eb_type b) /\ 0 <= eb_time b < 2 ^ 64.
Proof.
  rewrite Forall_forall. intros Hok Hb. destruct (boundary_of es b Hb) as (x & Hx & Hbx).
  pose proof (event_end_after x (Hok x Hx)). pose proof (begin_ps_u64 (ets_span x)).
  destruct (Hok x Hx) as [Hy _]. unfold event_boundaries_of in Hbx.
  apply elem_of_cons in Hbx as [->| ->%list_elem_of_singleton]; simpl; (split; [done|lia]).
Qed.

(** Times around two neighbouring boundaries. *)
Lemma boundaries_split es pre b b' rest :
  GenerateEventBoundaries es = (pre ++ [b]) ++ b' :: rest ->
  eb_time b <= eb_time b' /\ (forall x, x ∈ pre ++ [b] -> eb_time x <= eb_time b) /\
  (forall x, x ∈ b' :: rest -> eb_time b' <= eb_time x).
Proof.
  intros Heq. pose proof (boundaries_sorted es) as Hs. rewrite Heq in Hs. split_and!.
  - apply boundary_le_time, (StronglySorted_app_1_elem_of _ _ _ _ _ Hs); [|by left].
    apply elem_of_app. right. by left.
  - intros x [Hx| ->%list_elem_of_singleton]%elem_of_app; [|done]. apply boundary_le_time.
    apply StronglySorted_app_1_l in Hs. apply (StronglySorted_app_1_elem_of _ _ _ _ _ Hs Hx). by left.
  - intros x [->|Hx]%elem_of_cons; [done|]. apply boundary_le_time. apply StronglySorted_app_1_r in Hs.
    apply StronglySorted_inv in Hs as [_ Hs]. rewrite Forall_forall in Hs. auto.
Qed.

Lemma last_cons_default {A} (l : list A) a b : List.last (a :: l) b = List.last l a.
Proof. revert a b. induction l as [|c l IH]; intros a b; [done|]. rewrite (IH c a). apply (IH c b). Qed.

(** The loop over the boundaries that remain, once the tracker knows the earlier ones. *)
Lemma sweep_run es pre b rest p :
  Forall event_ok es -> GenerateEventBoundaries es = pre ++ b :: rest -> tracks p pre ->
  exists r, sweep p (b :: rest) = Some r /\ tiles (eb_time b) (eb_time (List.last rest b)) r /\
    Forall (fun x => forall t, covers (ets_span x) t = true -> ets_type x = type_at es t) r.
Proof.
  intros Hok. revert pre b p. induction rest as [|b' rest IH]; intros pre b p Heq Ht.
  { exists []. simpl. auto. }
  assert (Heq' : GenerateEventBoundaries es = (pre ++ [b]) ++ b' :: rest) by (by rewrite <- app_assoc).
  destruct (boundaries_split es pre b b' rest Heq') as (Hle & Hpre & Hpost).
  destruct (boundary_facts es b Hok) as [Hty Hb]; [rewrite Heq; apply elem_of_app; right; by left|].
  destruct (boundary_facts es b' Hok) as [_ Hb']; [rewrite Heq'; apply elem_of_app; right; by left|].
  destruct (tracker_update_tracks p pre b Ht Hty) as (p' & Hp' & Ht').
  { by apply (open_prefix es pre (b :: b' :: rest)). }
  { by apply (open_prefix es (pre ++ [b]) (b' :: rest)). }
  destruct (IH (pre ++ [b]) b' p' Heq' Ht') as (r & Hr & Htiles & Hall).
  destruct (FromEndPoints_ok (eb_time b) (eb_time b')) as (Hbeg & Hdur & Hend & _); [lia|lia|].
  exists (mk_ets (current_max_priority p') (FromEndPoints (eb_time b) (eb_time b')) :: r). split_and!.
  - simpl in *. rewrite Hp'. simpl. by rewrite Hr.
  - cbn [tiles ets_span]. rewrite Hbeg, Hdur, Hend, last_cons_default. split_and!; [done|lia|lia|done].
  - constructor; [|done]. simpl. intros t Hcov. unfold covers in Hcov. rewrite Hbeg, Hend in Hcov. zify_bool.
    apply highest_type_at; [done|]. destruct Ht' as [_ [Hmax Hin]].
    assert (forall y, open y (pre ++ [b]) = countb (covering y t) es) as Hopen.
    { intros y. apply (open_between es (pre ++ [b]) (b' :: rest)); [done|done| |].
      - intros z Hz. specialize (Hpre z Hz). lia.
      - intros z Hz. specialize (Hpost z Hz). lia. }
    split; [intros y|]; rewrite <- !Hopen; auto.
Qed.

(** *** The first and the last boundary *)

Lemma first_begin_le es e : e ∈ es -> first_begin es <= begin_ps (ets_span e).
Proof.
  induction es as [|x es IH]; [by intros ?%not_elem_of_nil|]. simpl.
  intros [->|He]%elem_of_cons; [lia|]. specialize (IH He). lia.
Qed.

Lemma first_begin_ge es m :
  es <> [] -> (forall e, e ∈ es -> m <= begin_ps (ets_span e)) -> m <= first_begin es.
Proof.
  intros Hne H. assert (m <= 2 ^ 64) as Hm.
  { destruct es as [|x es]; [done|]. pose proof (begin_ps_u64 (ets_span x)). specialize (H x ltac:(by left)). lia. }
  clear Hne. induction es as [|x es IH]; simpl; [done|].
  pose proof (H x ltac:(by left)). assert (m <= first_begin es) by (apply IH; intros; apply H; by right). lia.
Qed.

Lemma last_end_ge es e : e ∈ es -> end_ps (ets_span e) <= last_end es.
Proof.
  induction es as [|x es IH]; [by intros ?%not_elem_of_nil|]. simpl.
  intros [->|He]%elem_of_cons; [lia|]. specialize (IH He). lia.
Qed.

Lemma last_end_le es m :
  0 <= m -> (forall e, e ∈ es -> end_ps (ets_span e) <= m) -> last_end es <= m.
Proof.
  intros Hm. induction es as [|x es IH]; simpl; intros H; [done|].
  pose proof (H x ltac:(by left)). assert (last_end es <= m) by (apply IH; intros; apply H; by right). lia.
Qed.

Lemma boundary_in es e b : e ∈ es -> b ∈ event_boundaries_of e -> b ∈ GenerateEventBoundaries es.
Proof. intros He Hb. rewrite boundaries_perm, list_elem_of_bind. eauto. Qed.

Lemma boundaries_ends es b rest :
  Forall event_ok es -> GenerateEventBoundaries es = b :: rest ->
  eb_time b = first_begin es /\ eb_time (List.last rest b) = last_end es.
Proof.
  intros Hok Heq. pose proof (boundaries_sorted es) as Hs. pose proof Hok as Hok'.
  rewrite Forall_forall in Hok'. set (z := List.last rest b).
  assert (b ∈ GenerateEventBoundaries es) as Hb by (rewrite Heq; by left).
  assert (z ∈ GenerateEventBoundaries es) as Hz.
  { rewrite Heq. unfold z. rewrite <- (last_cons_default rest b b).
    destruct (exists_last (l := b :: rest)) as (l & x & ->); [done|]. rewrite List.last_last.
    apply elem_of_app. right. by left. }
  assert (forall x, x ∈ GenerateEventBoundaries es -> eb_time b <= eb_time x) as Hmin.
  { rewrite Heq in *. apply StronglySorted_inv in Hs as [_ Hs]. rewrite Forall_forall in Hs.
    intros x [->|Hx]%elem_of_cons; [done|]. apply boundary_le_time. auto. }
  assert (forall x, x ∈ GenerateEventBoundaries es -> eb_time x <= eb_time z) as Hmax.
  { unfold z. rewrite <- (last_cons_default rest b b). rewrite Heq in Hs |- *.
    destruct (exists_last (l := b :: rest)) as (l & x & Hlx); [done|]. rewrite Hlx in Hs |- *.
    rewrite List.last_last. intros y [Hy| ->%list_elem_of_singleton]%elem_of_app; [|done].
    apply boundary_le_time, (StronglySorted_app_1_elem_of _ _ _ _ _ Hs Hy). by left. }
  destruct (boundary_of es b Hb) as (e & He & Hbe), (boundary_of es z Hz) as (e' & He' & Hze).
  pose proof (event_end_after e (Hok' e He)). pose proof (event_end_after e' (Hok' e' He')).
  pose proof (begin_ps_u64 (ets_span e')).
  split; apply Z.le_antisymm.
  - apply first_begin_ge; [by intros ->; apply not_elem_of_nil in He|].
    intros x Hx. apply (Hmin (mk_boundary (begin_ps (ets_span x)) (ets_type x) true)).
    apply (boundary_in es x); [done|by left].
  - pose proof (first_begin_le es e He). unfold event_boundaries_of in Hbe.
    apply elem_of_cons in Hbe as [->| ->%list_elem_of_singleton]; simpl; lia.
  - pose proof (last_end_ge es e' He'). unfold event_boundaries_of in Hze.
    apply elem_of_cons in Hze as [->| ->%list_elem_of_singleton]; simpl; lia.
  - apply last_end_le.
    + destruct (boundary_facts es z Hok Hz) as [_ ?]. lia.
    + intros x Hx. apply (Hmax (mk_boundary (end_ps (ets_span x)) (ets_type x) false)).
      apply (boundary_in es x); [done|right; by left].
Qed.

(** The result for events of positive length, as one statement. *)
Lemma breakdown_spec es : Forall event_ok es -> es <> [] ->
  exists r, ToNonOverlappedEvents es = Some r /\ tiles (first_begin es) (last_end es) r /\
    Forall (fun x => forall t, covers (ets_span x) t = true -> ets_type x = type_at es t) r.
Proof.
  intros Hok Hne. unfold ToNonOverlappedEvents.
  destruct (GenerateEventBoundaries es) as [|b rest] eqn:Heq.
  { destruct es as [|e es]; [done|]. pose proof (boundaries_perm (e :: es)) as Hp. rewrite Heq in Hp.
    by apply Permutation_nil_l in Hp. }
  destruct (boundaries_ends es b rest Hok Heq) as [<- <-]. apply (sweep_run es [] b rest); auto using tracks_new.
Qed.
End breakdown.

Section results.
Context {T : Type} `{!Timespan T}.
Implicit Types es : list (EventTypeSpan T).

(** C5. On a list of one or more events, all of positive duration, [ToNonOverlappedEvents]
    returns, and its result is the breakdown of the time from the first begin to the last
    end: consecutive spans without gap or overlap, each typed, at every one of its instants,
    with the highest priority among the events that cover the instant, or unknown time if
    none does. Events of duration zero are excluded: see [instant_event_sticks]. *)
Theorem non_overlapped_refines es : Forall event_ok es -> es <> [] ->
  exists r, ToNonOverlappedEvents es = Some r /\ tiles (first_begin es) (last_end es) r /\
    Forall (fun x => forall t, covers (ets_span x) t = true -> ets_type x = type_at es t) r.
Proof. apply breakdown_spec. Qed.
End results.

Definition sample_events : list (EventTypeSpan pair_span) :=
  [mk_ets HOST_COMPUTE (0, 100); mk_ets DEVICE_COMPUTE_32 (20, 30); mk_ets HOST_TO_DEVICE (40, 20)].

Lemma sample_events_ok : Forall event_ok sample_events.
Proof. repeat constructor; done. Qed.

Lemma non_overlapped_refines_witness :
  exists r, ToNonOverlappedEvents sample_events = Some r /\
    tiles (first_begin sample_events) (last_end sample_events) r /\
    Forall (fun x => forall t, covers (ets_span x) t = true -> ets_type x = type_at sample_events t) r.
Proof. apply (non_overlapped_refines sample_events); [apply sample_events_ok|done]. Defined.

(** The result on the sample, computed. *)
Example sample_breakdown : ToNonOverlappedEvents sample_events =
  Some [mk_ets HOST_COMPUTE (0, 20); mk_ets DEVICE_COMPUTE_32 (20, 20); mk_ets DEVICE_COMPUTE_32 (40, 10);
        mk_ets HOST_TO_DEVICE (50, 10); mk_ets HOST_COMPUTE (60, 40)].
Proof. vm_compute. reflexivity. Qed.

(** An event of length zero ends, in the order of the boundaries, before it begins:
    the tracker keeps its type as the highest, and the time after it is booked on
    the type although no event of the type is open. *)
Theorem instant_event_sticks :
  ToNonOverlappedEvents (T := pair_span) [mk_ets HOST_COMPUTE (0, 100); mk_ets DEVICE_WAIT_HOST (50, 0)] =
    Some [mk_ets HOST_COMPUTE (0, 50); mk_ets HOST_COMPUTE (50, 0); mk_ets DEVICE_WAIT_HOST (50, 50)] /\
  type_at (T := pair_span) [mk_ets HOST_COMPUTE (0, 100); mk_ets DEVICE_WAIT_HOST (50, 0)] 75 = HOST_COMPUTE.
Proof. split; vm_compute; reflexivity. Qed.
