(* ===== verification/StepDetails.v ===== *)
(** Details of a training step and their combination (the second half of
    xprof/utils/event_span.{h,cc}): markers, events, collectives, device memory
    transfers and per-core databases of a step; union and intersection of the steps
    of several cores and hosts; the breakdown of whole profiles. *)
From Stdlib Require Import ZArith Lia SpecFloat.
From stdpp Require Import base list gmap strings sorting.
From S2P Require Import Prelude Timespan EventSpan.
Local Open Scope Z_scope.

Inductive StepMarkerType :=
| kExplicitHostStepMarker
| kImplicitHostStepMarker
| kDeviceStepMarker.

#[export] Instance StepMarkerType_eq_dec : EqDecision StepMarkerType.
Proof. solve_decision. Defined.

Definition PrintStepMarkerType (type : StepMarkerType) : string :=
  match type with
  | kExplicitHostStepMarker => "ExplicitHostStepMarker"
  | kImplicitHostStepMarker => "ImplicitHostStepMarker"
  | kDeviceStepMarker => "DeviceStepMarker"
  end.

Record DeviceMemoryTransfer := mk_dmt {
  dmt_occurrence : Z;
  dmt_time_us : double;
  dmt_bytes_transferred : Z
}.
Definition dmt_default : DeviceMemoryTransfer := mk_dmt 0 (S754_zero false) 0.

Record PrecisionStats := mk_precision { compute_16bit_ps : Z; compute_32bit_ps : Z }.

(** [T] is the type of spans; [AR], [DB] and [FDB] are the messages AllReduceInfo,
    OpMetricsDb and FlatOpMetricsDb, which these functions only move. *)
Section details.
Context {T : Type} `{!Timespan T} {AR DB FDB : Type}.

Record StepMarker := mk_marker {
  sm_type : StepMarkerType;
  sm_core_id : option Z;
  sm_event_name : string;
  sm_step_name : string;
  sm_span : T
}.

(** [operator==]: the step name is not compared. *)
Definition StepMarker_eqb (a b : StepMarker) : bool :=
  bool_decide (sm_type a = sm_type b) && bool_decide (sm_event_name a = sm_event_name b) &&
  bool_decide (sm_span a = sm_span b) && bool_decide (sm_core_id a = sm_core_id b).

Record StepDetails := mk_details {
  markers_ : list StepMarker;
  events_ : list (EventTypeSpan T);
  collectives_ : gmap Z (list AR);
  device_memory_transfers_ : list DeviceMemoryTransfer;
  step_name_ : string;
  per_core_op_metrics_db_ : gmap Z DB;
  per_core_flat_op_metrics_db_ : gmap Z FDB
}.
Implicit Types d : StepDetails.

Definition StepDetails_new : StepDetails :=
  mk_details [] [] ∅ (replicate 3 dmt_default) "" ∅ ∅.

Definition set_transfers (l : list DeviceMemoryTransfer) d : StepDetails :=
  mk_details (markers_ d) (events_ d) (collectives_ d) l (step_name_ d)
    (per_core_op_metrics_db_ d) (per_core_flat_op_metrics_db_ d).
Definition set_events (l : list (EventTypeSpan T)) d : StepDetails :=
  mk_details (markers_ d) l (collectives_ d) (device_memory_transfers_ d) (step_name_ d)
    (per_core_op_metrics_db_ d) (per_core_flat_op_metrics_db_ d).

Definition AddMarker (m : StepMarker) d : StepDetails :=
  mk_details (markers_ d ++ [m]) (events_ d) (collectives_ d) (device_memory_transfers_ d)
    (step_name_ d) (per_core_op_metrics_db_ d) (per_core_flat_op_metrics_db_ d).
Definition AddEvent (e : EventTypeSpan T) d : StepDetails := set_events (events_ d ++ [e]) d.

(** The core id is converted to 32 bits by the map. *)
Definition AddCollectiveOpEvent (core_id : Z) (e : AR) d : StepDetails :=
  let k := u32 core_id in
  mk_details (markers_ d) (events_ d) (<[k := default [] (collectives_ d !! k) ++ [e]]> (collectives_ d))
    (device_memory_transfers_ d) (step_name_ d) (per_core_op_metrics_db_ d)
    (per_core_flat_op_metrics_db_ d).

Definition add_transfer (x y : DeviceMemoryTransfer) : DeviceMemoryTransfer :=
  mk_dmt (u64 (dmt_occurrence x + dmt_occurrence y)) (dadd (dmt_time_us x) (dmt_time_us y))
    (u64 (dmt_bytes_transferred x + dmt_bytes_transferred y)).

Definition AggregateDeviceMemoryTransfers (l : list DeviceMemoryTransfer) d : StepDetails :=
  if negb (length l =? length (device_memory_transfers_ d))%nat then d
  else set_transfers (zip_with add_transfer (device_memory_transfers_ d) l) d.

(** The place of a transfer in [device_memory_transfers_]. *)
Definition transfer_index (event_type : EventType) : option nat :=
  if event_type =? HOST_TO_DEVICE then Some 0%nat
  else if event_type =? DEVICE_TO_HOST then Some 1%nat
  else if event_type =? DEVICE_TO_DEVICE then Some 2%nat
  else None.

(** The vector always has three elements; [alter] does nothing outside. *)
Definition AddDeviceMemoryTransferEvent (event_type : EventType) (time_span : T) (bytes : Z) d : StepDetails :=
  match transfer_index event_type with
  | None => d
  | Some index =>
      set_transfers (alter (fun x => mk_dmt (u64 (dmt_occurrence x + 1))
        (dadd (dmt_time_us x) (ddiv (double_of_Z (duration_ps time_span)) (double_of_Z 1000000)))
        (u64 (dmt_bytes_transferred x + bytes))) index (device_memory_transfers_ d)) d
  end.

(** [if (new.duration_ps() > cur.duration_ps()) cur = new;] *)
Definition longer (cur new : T) : T := if duration_ps cur <? duration_ps new then new else cur.

Definition is_device (m : StepMarker) : bool := bool_decide (sm_type m = kDeviceStepMarker).

(** The loop of [StepTime] with its two maxima, host and device. *)
Definition step_maxima (ms : list StepMarker) : T * T :=
  foldl (fun '(host, device) m =>
    if is_device m then (host, longer device (sm_span m)) else (longer host (sm_span m), device))
    (ts_default, ts_default) ms.

Definition StepTime d : T :=
  let '(max_host_step_time, max_device_step_time) := step_maxima (markers_ d) in
  if ts_Empty max_device_step_time then max_host_step_time
  else if ts_Includes max_host_step_time max_device_step_time then max_host_step_time
  else max_device_step_time.

Definition StepTimeOnCore (core_id : Z) d : T :=
  foldl (fun cur m => if bool_decide (sm_core_id m = Some core_id) then longer cur (sm_span m) else cur)
    ts_default (markers_ d).

Definition ToNonOverlapped d : option StepDetails :=
  events ← ToNonOverlappedEvents (events_ d);
  Some (mk_details (markers_ d) events (collectives_ d) (device_memory_transfers_ d) (step_name_ d)
    (per_core_op_metrics_db_ d) (per_core_flat_op_metrics_db_ d)).

(** [insert] keeps an existing collective; the databases of the other step replace
    those of this one. *)
Definition Combine (other d : StepDetails) : StepDetails :=
  let d1 := AggregateDeviceMemoryTransfers (device_memory_transfers_ other) d in
  mk_details (markers_ d ++ markers_ other) (events_ d ++ events_ other)
    (collectives_ d ∪ collectives_ other) (device_memory_transfers_ d1)
    (if bool_decide (step_name_ d = "")%string then step_name_ other else step_name_ d)
    (per_core_op_metrics_db_ other ∪ per_core_op_metrics_db_ d)
    (per_core_flat_op_metrics_db_ other ∪ per_core_flat_op_metrics_db_ d).

(** The index loops of [operator==], after the comparison of the sizes. *)
Fixpoint all_eqb {A} (eqb : A -> A -> bool) (l k : list A) : bool :=
  match l, k with
  | [], [] => true
  | x :: l', y :: k' => eqb x y && all_eqb eqb l' k'
  | _, _ => false
  end.

Definition StepDetails_eqb (a b : StepDetails) : bool :=
  all_eqb StepMarker_eqb (markers_ a) (markers_ b) &&
  all_eqb (fun x y => bool_decide (x = y)) (events_ a) (events_ b).

(** ** Steps by number *)

Abbreviation StepEvents := (gmap Z StepDetails).

(** [StepEvents] is an unordered map; the loops visit its elements in some order. *)
Definition UnionCombineStepEvents (src dst : StepEvents) : StepEvents :=
  foldl (fun dst '(step_id, src_details) =>
    <[step_id := Combine src_details (default StepDetails_new (dst !! step_id))]> dst)
    dst (map_to_list src).

Definition IntersectCombineStepEvents (src dst : StepEvents) : StepEvents :=
  if bool_decide (size dst = 0%nat) then src
  else foldl (fun acc '(step_id, details) =>
    match src !! step_id with
    | None => delete step_id acc
    | Some s => <[step_id := Combine s details]> acc
    end) dst (map_to_list dst).

(** [try_emplace] of each converted step; [None] if an event has no known type. *)
Definition ToNonOverlappedStepEvents (overlapped : StepEvents) : option StepEvents :=
  foldl (fun acc '(step_id, details) =>
    acc ← acc; d ← ToNonOverlapped details;
    Some (match acc !! step_id with Some _ => acc | None => <[step_id := d]> acc end))
    (Some ∅) (map_to_list overlapped).

(** One step of the double loop of [ComputePrecisionStats]: an int64_t plus an
    unsigned 64-bit number. *)
Definition add_precision (acc : Z * Z) (event : EventTypeSpan T) : Z * Z :=
  let '(c32, c16) := acc in
  if ets_type event =? DEVICE_COMPUTE_32 then (s64 (u64 c32 + duration_ps (ets_span event)), c16)
  else if ets_type event =? DEVICE_COMPUTE_16 then (c32, s64 (u64 c16 + duration_ps (ets_span event)))
  else (c32, c16).

Definition ComputePrecisionStats (steps : StepEvents) : PrecisionStats :=
  let '(c32, c16) := foldl (fun acc '(_, d) => foldl add_precision acc (events_ d)) (0, 0) (map_to_list steps) in
  mk_precision (u64 c16) (u64 c32).
End details.
Arguments StepMarker T : clear implicits.
Arguments StepDetails T AR DB FDB : clear implicits.

(** ** Loops over a map

    A loop that visits every element of a map once and changes only its key
    computes each key on its own, whatever the order. *)
Section map_loops.
Context {V W : Type}.
Implicit Types (l : list (Z * V)) (acc : gmap Z W) (g : Z -> V -> option W -> option W).

Definition visit g acc (kv : Z * V) : gmap Z W := partial_alter (g kv.1 kv.2) kv.1 acc.

Lemma foldl_visit g l acc k : NoDup l.*1 ->
  foldl (visit g) acc l !! k =
  match (list_to_map l : gmap Z V) !! k with Some v => g k v (acc !! k) | None => acc !! k end.
Proof.
  revert acc. induction l as [|[i v] l IH]; intros acc Hnd; [done|]. cbn [foldl].
  apply NoDup_cons in Hnd as [Hi Hnd]. rewrite (IH _ Hnd).
  change (visit g acc (i, v)) with (partial_alter (g i v) i acc). simpl.
  destruct (decide (i = k)) as [->|Hne].
  - rewrite lookup_insert_eq, not_elem_of_list_to_map_1 by done. by rewrite lookup_partial_alter_eq.
  - rewrite lookup_insert_ne by done. destruct (_ !! k); by rewrite lookup_partial_alter_ne by done.
Qed.

Lemma map_loop (f : gmap Z W -> Z * V -> gmap Z W) g (m : gmap Z V) acc k :
  (forall acc kv, f acc kv = visit g acc kv) ->
  foldl f acc (map_to_list m) !! k =
  match m !! k with Some v => g k v (acc !! k) | None => acc !! k end.
Proof.
  intros Hf. rewrite <- (list_to_map_to_list m) at 2. rewrite <- foldl_visit by apply NoDup_fst_map_to_list.
  f_equal. generalize (map_to_list m). clear m. intros l. revert acc.
  induction l as [|kv l IH]; intros acc; [done|]. simpl. by rewrite Hf.
Qed.

Lemma visit_insert (h : V -> option W -> W) acc kv :
  <[kv.1 := h kv.2 (acc !! kv.1)]> acc = visit (fun _ v o => Some (h v o)) acc kv.
Proof.
  apply map_eq. intros i. unfold visit. destruct (decide (kv.1 = i)) as [<-|].
  - by rewrite lookup_insert_eq, lookup_partial_alter_eq.
  - by rewrite lookup_insert_ne, lookup_partial_alter_ne.
Qed.
End map_loops.

Section theorems.
Context {T : Type} `{!Timespan T} {AR DB FDB : Type}.
Abbreviation Details := (StepDetails T AR DB FDB).
Implicit Types (d : Details) (m src dst : gmap Z Details).

(** ** Union and intersection *)

Lemma union_combine_lookup src dst k :
  UnionCombineStepEvents src dst !! k =
  match src !! k with
  | Some s => Some (Combine s (default StepDetails_new (dst !! k)))
  | None => dst !! k
  end.
Proof.
  unfold UnionCombineStepEvents.
  apply (map_loop _ (fun _ s o => Some (Combine s (default StepDetails_new o)))).
  intros acc [i s]. apply (visit_insert (fun s o => Combine s (default StepDetails_new o)) acc (i, s)).
Qed.

Lemma intersect_combine_lookup src dst k :
  dst <> ∅ ->
  IntersectCombineStepEvents src dst !! k = (d ← dst !! k; s ← src !! k; Some (Combine s d)).
Proof.
  intros Hne. unfold IntersectCombineStepEvents. rewrite bool_decide_false by (by rewrite map_size_empty_iff).
  rewrite (map_loop _ (fun i d _ => s ← src !! i; Some (Combine s d))).
  - by destruct (dst !! k).
  - intros acc [i d]. unfold visit. simpl. by destruct (src !! i).
Qed.

(** The union of the steps of two cores has the steps of both, each with the markers
    and events of both; the intersection has the common steps, but restarts from
    the source when the destination is empty, also when it has become empty by an
    earlier intersection. *)
Theorem combine_steps src dst k :
  (is_Some (UnionCombineStepEvents src dst !! k) <-> is_Some (src !! k) \/ is_Some (dst !! k)) /\
  (forall s d, src !! k = Some s -> dst !! k = Some d ->
    exists u, UnionCombineStepEvents src dst !! k = Some u /\ IntersectCombineStepEvents src dst !! k = Some u /\
      markers_ u = markers_ d ++ markers_ s /\ events_ u = events_ d ++ events_ s) /\
  (dst <> ∅ -> is_Some (IntersectCombineStepEvents src dst !! k) <-> is_Some (src !! k) /\ is_Some (dst !! k)) /\
  IntersectCombineStepEvents src ∅ = src.
Proof.
  split_and!.
  - rewrite union_combine_lookup. destruct (src !! k); [split; [by left|by eexists]|]. split; [by right|].
    intros [[? [=]]|?]; done.
  - intros s d Hs Hd. exists (Combine s d). rewrite union_combine_lookup, intersect_combine_lookup, Hs, Hd; [done|].
    intros ->. by rewrite lookup_empty in Hd.
  - intros Hne. rewrite intersect_combine_lookup by done.
    destruct (dst !! k), (src !! k); simpl; split; try (by intros [? [=]]); try (by intros [[? [=]] ?]);
      try (by intros [? [? [=]]]); eauto.
  - done.
Qed.

(** ** The breakdown of whole profiles *)

Definition steps_ok m : Prop := map_Forall (fun _ d => Forall event_ok (events_ d)) m.

Lemma breakdown_total es : Forall event_ok es -> is_Some (ToNonOverlappedEvents es).
Proof.
  intros Hok. destruct (decide (es = [])) as [->|Hne]; [by exists []|].
  destruct (breakdown_spec es Hok Hne) as (r & -> & _). by exists r.
Qed.

Lemma to_non_overlapped_total d : Forall event_ok (events_ d) -> is_Some (ToNonOverlapped d).
Proof. intros Hok. unfold ToNonOverlapped. destruct (breakdown_total _ Hok) as [r ->]. by eexists. Qed.

Lemma to_non_overlapped_loop (l : list (Z * Details)) (acc : gmap Z Details) :
  NoDup l.*1 -> Forall (fun kd => Forall event_ok (events_ kd.2)) l ->
  (forall k, k ∈ l.*1 -> acc !! k = None) ->
  foldl (fun acc '(step_id, details) =>
    acc ← acc; d ← ToNonOverlapped details;
    Some (match acc !! step_id with Some _ => acc | None => <[step_id := d]> acc end)) (Some acc) l =
  Some (foldl (visit (fun _ d o => match o with Some x => Some x | None => ToNonOverlapped d end)) acc l).
Proof.
  revert acc. induction l as [|[k d] l IH]; intros acc Hnd Hok Hnone; [done|]. cbn [foldl].
  apply NoDup_cons in Hnd as [Hk Hnd]. apply Forall_cons in Hok as [Hd Hok]. simpl in Hd.
  destruct (to_non_overlapped_total d Hd) as [r Hr]. rewrite Hr. simpl.
  rewrite (Hnone k) by (simpl; by left).
  replace (visit _ acc (k, d)) with (<[k := r]> acc); [apply IH; [done|done|]|].
  - intros i Hi. rewrite lookup_insert_ne by (intros ->; done). apply Hnone. simpl. by right.
  - apply map_eq. intros i. unfold visit. simpl. destruct (decide (k = i)) as [<-|].
    + rewrite lookup_insert_eq, lookup_partial_alter_eq, (Hnone k), Hr by (simpl; by left). done.
    + by rewrite lookup_insert_ne, lookup_partial_alter_ne.
Qed.

Lemma to_non_overlapped_steps m :
  steps_ok m -> ToNonOverlappedStepEvents m = Some (omap ToNonOverlapped m).
Proof.
  intros Hok. unfold ToNonOverlappedStepEvents. rewrite to_non_overlapped_loop.
  - f_equal. apply map_eq. intros k. rewrite foldl_visit by apply NoDup_fst_map_to_list.
    rewrite list_to_map_to_list, lookup_empty, lookup_omap. by destruct (m !! k).
  - apply NoDup_fst_map_to_list.
  - apply Forall_forall. intros [k d] Hkd%elem_of_map_to_list. by apply (Hok k).
  - intros k _. apply lookup_empty.
Qed.

(** Time of a type in a breakdown, and the instants a type is the highest. *)
Definition time_of (y : Z) (r : list (EventTypeSpan T)) : Z :=
  foldr (fun x n => (if ets_type x =? y then duration_ps (ets_span x) else 0) + n) 0 r.

Definition instants (y : Z) (es : list (EventTypeSpan T)) : Z :=
  countb (fun t => type_at es t =? y) (seqZ (first_begin es) (last_end es - first_begin es)).

Lemma countb_const {A} (P : A -> bool) l b :
  (forall x, x ∈ l -> P x = b) -> countb P l = if b then Z.of_nat (length l) else 0.
Proof.
  intros H. rewrite (countb_ext P (fun _ => b)) by done. clear H.
  induction l as [|x l IH]; [by destruct b|]. cbn [countb foldr]. fold (countb (fun _ => b) l). rewrite IH.
  destruct b; simpl length; simpl Z.b2z; lia.
Qed.

Lemma tiles_time es r from to y :
  tiles from to r ->
  Forall (fun x => forall t, covers (ets_span x) t = true -> ets_type x = type_at es t) r ->
  from <= to /\ time_of y r = countb (fun t => type_at es t =? y) (seqZ from (to - from)).
Proof.
  revert from. induction r as [|x r IH]; intros from Ht Hall; simpl in Ht.
  { subst to. rewrite Z.sub_diag. by split. }
  destruct Ht as (Hb & Hle & He & Ht). apply Forall_cons in Hall as [Hx Hall].
  destruct (IH _ Ht Hall) as [Hto IHt]. split; [lia|].
  replace (to - from) with (duration_ps (ets_span x) + (to - end_ps (ets_span x))) by lia.
  rewrite seqZ_app by lia. rewrite countb_app, <- He, <- IHt. simpl. f_equal.
  rewrite (countb_const _ _ (ets_type x =? y)).
  - rewrite length_seqZ. destruct (_ =? _); [|done]. lia.
  - intros t Ht'%elem_of_seqZ. f_equal. symmetry. apply Hx. unfold covers.
    apply andb_true_iff. rewrite Z.leb_le, Z.ltb_lt. lia.
Qed.

Lemma breakdown_time es r y :
  Forall event_ok es -> ToNonOverlappedEvents es = Some r -> time_of y r = instants y es.
Proof.
  intros Hok Hr. destruct (decide (es = [])) as [->|Hne]; [by injection Hr as <-|].
  destruct (breakdown_spec es Hok Hne) as (r' & Hr' & Ht & Hall). rewrite Hr in Hr'. injection Hr' as <-.
  by apply (tiles_time es r _ _ y Ht Hall).
Qed.

(** ** Precision statistics *)

Lemma s64_mod a b : (a - b) mod 2 ^ 64 = 0 -> s64 a = s64 b.
Proof.
  intros H. unfold s64. f_equal. apply Z.mod_divide in H as [k Hk]; [|done].
  replace (a + 2 ^ 63) with (b + 2 ^ 63 + k * 2 ^ 64) by lia. apply Z_mod_plus_full.
Qed.

Lemma wrap_diff w a : 0 <= w -> (wrap w a - a) mod 2 ^ w = 0.
Proof.
  intros Hw. unfold wrap. rewrite Zminus_mod_idemp_l, Z.sub_diag. apply Z.mod_0_l.
  pose proof (Z.pow_pos_nonneg 2 w). lia.
Qed.

Lemma s64_diff a : (s64 a - a) mod 2 ^ 64 = 0.
Proof.
  unfold s64. replace ((a + 2 ^ 63) mod 2 ^ 64 - 2 ^ 63 - a) with ((a + 2 ^ 63) mod 2 ^ 64 - (a + 2 ^ 63)) by lia.
  by apply (wrap_diff 64).
Qed.

Lemma s64_accumulate a b : s64 (u64 (s64 a) + b) = s64 (a + b).
Proof.
  apply s64_mod. replace (u64 (s64 a) + b - (a + b)) with ((u64 (s64 a) - s64 a) + (s64 a - a)) by lia.
  by rewrite Z.add_mod, (wrap_diff 64), s64_diff by done.
Qed.

Lemma u64_s64 a : u64 (s64 a) = u64 a.
Proof.
  pose proof (s64_diff a) as H. apply Z.mod_divide in H as [k Hk]; [|done]. unfold wrap.
  replace (s64 a) with (a + k * 2 ^ 64) by lia. apply Z_mod_plus_full.
Qed.

Lemma add_precision_run (r : list (EventTypeSpan T)) a b :
  foldl add_precision (s64 a, s64 b) r =
  (s64 (a + time_of DEVICE_COMPUTE_32 r), s64 (b + time_of DEVICE_COMPUTE_16 r)).
Proof.
  revert a b. induction r as [|x r IH]; intros a b; [by rewrite !Z.add_0_r|]. cbn [foldl add_precision].
  cbn [time_of foldr]. fold (time_of DEVICE_COMPUTE_32 r) (time_of DEVICE_COMPUTE_16 r).
  destruct (Z.eqb_spec (ets_type x) DEVICE_COMPUTE_32) as [->|].
  - rewrite s64_accumulate, IH. simpl. do 2 f_equal; lia.
  - destruct (ets_type x =? DEVICE_COMPUTE_16); rewrite ?s64_accumulate, IH; do 2 f_equal; lia.
Qed.

(** The sum of a quantity over the steps of a profile. *)
Definition total (f : Details -> Z) m : Z := foldr (fun kd n => f kd.2 + n) 0 (map_to_list m).

Lemma total_insert f k d m : m !! k = None -> total f (<[k := d]> m) = f d + total f m.
Proof.
  intros Hk. unfold total.
  assert (forall l l' : list (Z * Details), l ≡ₚ l' ->
    foldr (fun kd n => f kd.2 + n) 0 l = foldr (fun kd n => f kd.2 + n) 0 l') as Hp
    by (induction 1; simpl; lia).
  by rewrite (Hp _ _ (map_to_list_insert m k d Hk)).
Qed.

Lemma total_omap f g (h : Details -> option Details) m :
  map_Forall (fun _ d => exists d', h d = Some d' /\ g d' = f d) m -> total g (omap h m) = total f m.
Proof.
  induction m as [|k d m Hk IH] using map_ind; intros Hall; [by rewrite omap_empty|].
  apply map_Forall_insert in Hall as [(d' & Hd & Hg) Hall]; [|done].
  rewrite (omap_insert_Some _ _ _ _ d') by done. rewrite !total_insert, IH, Hg; [done|done|done|].
  by rewrite lookup_omap, Hk.
Qed.

Lemma precision_run m :
  ComputePrecisionStats m =
  mk_precision (u64 (total (fun d => time_of DEVICE_COMPUTE_16 (events_ d)) m))
    (u64 (total (fun d => time_of DEVICE_COMPUTE_32 (events_ d)) m)).
Proof.
  unfold ComputePrecisionStats, total.
  assert (forall l a b, foldl (fun acc '(_, d) => foldl add_precision acc (events_ d)) (s64 a, s64 b) l =
    (s64 (a + foldr (fun kd n => time_of DEVICE_COMPUTE_32 (events_ kd.2) + n) 0 l),
     s64 (b + foldr (fun (kd : Z * Details) n => time_of DEVICE_COMPUTE_16 (events_ kd.2) + n) 0 l))) as Hrun.
  { induction l as [|[k d] l IH]; intros a b; [by rewrite !Z.add_0_r|].
    cbn [foldl]. rewrite add_precision_run, IH. simpl. do 2 f_equal; lia. }
  change (0, 0) with (s64 0, s64 0). by rewrite Hrun, !u64_s64.
Qed.

(** The statistics of a profile, computed on the breakdown of its steps, count for
    each precision the picoseconds in which the highest-priority event of a step is
    a device computation of that precision, modulo 2^64. *)
Theorem precision_stats_count_instants m :
  steps_ok m ->
  exists m', ToNonOverlappedStepEvents m = Some m' /\
    ComputePrecisionStats m' =
    mk_precision (u64 (total (fun d => instants DEVICE_COMPUTE_16 (events_ d)) m))
      (u64 (total (fun d => instants DEVICE_COMPUTE_32 (events_ d)) m)).
Proof.
  intros Hok. exists (omap ToNonOverlapped m). split; [by apply to_non_overlapped_steps|].
  rewrite precision_run.
  assert (forall y, total (fun d => time_of y (events_ d)) (omap ToNonOverlapped m) =
    total (fun d => instants y (events_ d)) m) as Htot; [|by rewrite !Htot].
  intros y. apply total_omap. intros k d Hd. specialize (Hok k d Hd). unfold ToNonOverlapped.
  destruct (breakdown_total _ Hok) as [r Hr]. rewrite Hr. eexists. split; [done|]. simpl.
  by apply breakdown_time.
Qed.

(** ** Step times *)

(** [s] is a longest span of [l], or the empty span if all are empty. *)
Definition longest (l : list T) (s : T) : Prop :=
  (s = ts_default \/ (s ∈ l /\ 0 < duration_ps s)) /\ forall x, x ∈ l -> duration_ps x <= duration_ps s.

Lemma longest_snoc l s x : longest l s -> longest (l ++ [x]) (longer s x).
Proof.
  intros [Hin Hmax]. unfold longer. destruct (Z.ltb_spec (duration_ps s) (duration_ps x)) as [Hlt|Hge].
  - split.
    + right. split; [apply elem_of_app; right; by left|]. pose proof (duration_ps_u64 s). lia.
    + intros z [Hz| ->%list_elem_of_singleton]%elem_of_app; [|done]. specialize (Hmax z Hz). lia.
  - split.
    + destruct Hin as [?|[? ?]]; [by left|right]. split; [apply elem_of_app; by left|done].
    + intros z [Hz| ->%list_elem_of_singleton]%elem_of_app; [by apply Hmax|done].
Qed.

Lemma longest_nil : longest [] ts_default.
Proof. split; [by left|]. by intros x ?%not_elem_of_nil. Qed.

Definition spans_of (P : StepMarker T -> bool) (ms : list (StepMarker T)) : list T :=
  sm_span <$> base.filter (fun x => P x = true) ms.

Lemma spans_of_snoc P ms x :
  spans_of P (ms ++ [x]) = if P x then spans_of P ms ++ [sm_span x] else spans_of P ms.
Proof.
  unfold spans_of. rewrite filter_app, filter_cons, fmap_app, filter_nil.
  destruct (P x); [by rewrite decide_True|by rewrite decide_False, app_nil_r].
Qed.

Lemma step_maxima_longest ms :
  longest (spans_of (fun x => negb (is_device x)) ms) (step_maxima ms).1 /\
  longest (spans_of is_device ms) (step_maxima ms).2.
Proof.
  induction ms as [|m ms [IHh IHd]] using rev_ind; [split; apply longest_nil|].
  unfold step_maxima in *. rewrite foldl_app, !spans_of_snoc. simpl.
  destruct (foldl _ _ ms) as [h v]. destruct (is_device m); simpl; auto using longest_snoc.
Qed.

(** The time of a step is a longest device marker, unless there is none or a longest
    host marker includes it; then it is that host marker. The time on a core is a
    longest marker of the core. *)
Theorem step_time_spec d core_id :
  (exists host device,
    longest (spans_of (fun x => negb (is_device x)) (markers_ d)) host /\
    longest (spans_of is_device (markers_ d)) device /\
    StepTime d =
      (if (duration_ps device =? 0) ||
          (begin_ps host <=? begin_ps device) && (end_ps device <=? end_ps host) then host else device)) /\
  longest (spans_of (fun x => bool_decide (sm_core_id x = Some core_id)) (markers_ d)) (StepTimeOnCore core_id d).
Proof.
  split.
  - destruct (step_maxima_longest (markers_ d)) as [Hh Hd]. unfold StepTime.
    destruct (step_maxima (markers_ d)) as [h v]. simpl in *. exists h, v. split; [done|]. split; [done|].
    rewrite <- ts_Includes_spec. destruct (Z.eqb_spec (duration_ps v) 0) as [Hz|Hz]; simpl.
    + destruct Hd as [[->|[_ ?]] _]; [by rewrite ts_Empty_default|lia].
    + destruct (ts_Empty v) eqn:He; [by apply ts_Empty_duration in He|done].
  - unfold StepTimeOnCore. induction (markers_ d) as [|m ms IH] using rev_ind; [apply longest_nil|].
    rewrite foldl_app, spans_of_snoc. simpl. case_bool_decide; auto using longest_snoc.
Qed.
End theorems.

(** ** Accounting of transfers: one counter per direction *)

Section accounts.
Context {T : Type} `{!Timespan T} {AR DB FDB : Type}.
Abbreviation Details := (StepDetails T AR DB FDB).
(** The transfers that were recorded for a step: type and bytes. *)
Abbreviation transfer_log := (list (EventType * Z)).
Implicit Types (d : Details) (src dst : gmap Z Details) (log : transfer_log) (logs : gmap Z transfer_log).

Definition bytes_of_type (ty : EventType) log : list Z := (base.filter (fun x => x.1 = ty) log).*2.

(** The counter tells how many transfers of the type were recorded and their bytes, modulo 2^64. *)
Definition counts (ty : EventType) log (x : DeviceMemoryTransfer) : Prop :=
  dmt_occurrence x = u64 (Z.of_nat (length (bytes_of_type ty log))) /\ dmt_bytes_transferred x = u64 (zsum (bytes_of_type ty log)).

(** A step has three counters, for the three directions, and no other transfer in them. *)
Definition accounts d log : Prop :=
  exists h2d d2h d2d, device_memory_transfers_ d = [h2d; d2h; d2d] /\
    counts HOST_TO_DEVICE log h2d /\ counts DEVICE_TO_HOST log d2h /\ counts DEVICE_TO_DEVICE log d2d.

Definition steps_account (m : gmap Z Details) logs : Prop := forall k, option_Forall2 accounts (m !! k) (logs !! k).

Lemma bytes_of_type_app ty log1 log2 : bytes_of_type ty (log1 ++ log2) = bytes_of_type ty log1 ++ bytes_of_type ty log2.
Proof. unfold bytes_of_type. by rewrite filter_app, fmap_app. Qed.

Lemma bytes_of_type_single ty y b : bytes_of_type ty [(y, b)] = if decide (y = ty) then [b] else [].
Proof. unfold bytes_of_type. rewrite filter_cons, filter_nil. simpl. by destruct (decide (y = ty)). Qed.

(** Counters of the same type add up. *)
Lemma counts_app ty log1 log2 x y z : counts ty log1 x -> counts ty log2 y ->
  dmt_occurrence z = u64 (dmt_occurrence x + dmt_occurrence y) ->
  dmt_bytes_transferred z = u64 (dmt_bytes_transferred x + dmt_bytes_transferred y) -> counts ty (log1 ++ log2) z.
Proof.
  intros [H1 H2] [H3 H4] Ho Hb. split; rewrite bytes_of_type_app.
  - rewrite Ho, H1, H3, length_app, Nat2Z.inj_add. unfold u64, wrap. by rewrite <- Zplus_mod.
  - rewrite Hb, H2, H4, zsum_app. unfold u64, wrap. by rewrite <- Zplus_mod.
Qed.

Lemma counts_one ty y b log x x' : counts ty log x ->
  (if decide (y = ty) then dmt_occurrence x' = u64 (dmt_occurrence x + 1) /\ dmt_bytes_transferred x' = u64 (dmt_bytes_transferred x + b)
   else x' = x) -> counts ty (log ++ [(y, b)]) x'.
Proof.
  intros [H1 H2] Hx. unfold counts. rewrite bytes_of_type_app, bytes_of_type_single. destruct (decide (y = ty)).
  - destruct Hx as [-> ->]. rewrite H1, H2, length_app, zsum_app, Nat2Z.inj_add. unfold u64, wrap. cbn. rewrite Zplus_mod_idemp_l.
    split; [done|]. rewrite Zplus_mod_idemp_l. by rewrite Z.add_0_r.
  - subst x'. by rewrite app_nil_r.
Qed.

Lemma accounts_same d d' log : device_memory_transfers_ d' = device_memory_transfers_ d -> accounts d log -> accounts d' log.
Proof. intros He (x & y & z & Hd & H). exists x, y, z. by rewrite He. Qed.

Lemma accounts_transfer ty t b d log : accounts d log -> accounts (AddDeviceMemoryTransferEvent ty t b d) (log ++ [(ty, b)]).
Proof.
  intros (x & y & z & Hd & Hx & Hy & Hz). unfold AddDeviceMemoryTransferEvent, transfer_index.
  assert (HOST_TO_DEVICE <> DEVICE_TO_HOST /\ HOST_TO_DEVICE <> DEVICE_TO_DEVICE /\ DEVICE_TO_HOST <> DEVICE_TO_DEVICE) as (N1 & N2 & N3) by done.
  unfold accounts. destruct (Z.eqb_spec ty HOST_TO_DEVICE) as [E1|E1]; [|destruct (Z.eqb_spec ty DEVICE_TO_HOST) as [E2|E2];
    [|destruct (Z.eqb_spec ty DEVICE_TO_DEVICE) as [E3|E3]]]; cbn [set_transfers device_memory_transfers_]; rewrite Hd;
    eexists _, _, _; (split; [reflexivity|]); split_and!;
    (eapply counts_one; [eassumption|]); (case_decide; [simplify_eq; try done|done || congruence]).
Qed.

Lemma accounts_combine other d log log' : accounts d log -> accounts other log' -> accounts (Combine other d) (log ++ log').
Proof.
  intros (x & y & z & Hd & Hx & Hy & Hz) (x' & y' & z' & Ho & Hx' & Hy' & Hz').
  exists (add_transfer x x'), (add_transfer y y'), (add_transfer z z').
  split; [unfold Combine, AggregateDeviceMemoryTransfers; cbn [device_memory_transfers_]; by rewrite Hd, Ho|].
  split_and!; eapply counts_app; eauto.
Qed.

Lemma accounts_new : accounts StepDetails_new [].
Proof. by exists dmt_default, dmt_default, dmt_default. Qed.

Lemma accounts_non_overlapped d d' log : ToNonOverlapped d = Some d' -> accounts d log -> accounts d' log.
Proof. intros Hd. apply accounts_same. revert Hd. unfold ToNonOverlapped. by destruct (ToNonOverlappedEvents _); intros [= <-]. Qed.

Lemma accounts_union src dst logs logs' : steps_account dst logs -> steps_account src logs' ->
  steps_account (UnionCombineStepEvents src dst) (union_with (fun a b => Some (a ++ b)) logs logs').
Proof.
  intros Hd Hs k. rewrite union_combine_lookup, lookup_union_with. specialize (Hd k). specialize (Hs k).
  destruct Hs as [s log' Hs|]; [|by destruct Hd; constructor]. destruct Hd as [d log Hd|]; cbn; constructor; [by apply accounts_combine|].
  apply (accounts_combine s StepDetails_new [] log' accounts_new Hs).
Qed.

Lemma accounts_intersection src dst logs logs' : steps_account dst logs -> steps_account src logs' ->
  steps_account (IntersectCombineStepEvents src dst)
    (if bool_decide (dst = ∅) then logs' else intersection_with (fun a b => Some (a ++ b)) logs logs').
Proof.
  intros Hd Hs k. case_bool_decide as He; [by subst; apply (Hs k)|]. rewrite intersect_combine_lookup, lookup_intersection_with by done.
  specialize (Hd k). specialize (Hs k). destruct Hd; [|constructor]. destruct Hs; constructor. by apply accounts_combine.
Qed.

(** C37. The transfers of a step are accounted for exactly by its three counters, one for each
    direction, with the number of the transfers and the sum of their bytes modulo 2^64: a new step has
    none; a recorded transfer is counted once, at its direction, one of another type not at all, and
    its time is added there; markers, events, collectives and the removal of overlaps change nothing;
    combining two steps, and the union and the intersection of the steps of several cores, add the
    transfers of both. *)
Theorem step_details_keep_transfers d other log log' : accounts d log -> accounts other log' ->
  accounts StepDetails_new [] /\
  (forall m, accounts (AddMarker m d) log) /\ (forall e, accounts (AddEvent e d) log) /\
  (forall c e, accounts (AddCollectiveOpEvent c e d) log) /\
  (forall d', ToNonOverlapped d = Some d' -> accounts d' log) /\
  (forall ty t b, accounts (AddDeviceMemoryTransferEvent ty t b d) (log ++ [(ty, b)])) /\
  (forall ty t b i x, transfer_index ty = Some i -> device_memory_transfers_ d !! i = Some x ->
    exists x', device_memory_transfers_ (AddDeviceMemoryTransferEvent ty t b d) !! i = Some x' /\
      dmt_time_us x' = dadd (dmt_time_us x) (ddiv (double_of_Z (duration_ps t)) (double_of_Z 1000000))) /\
  accounts (Combine other d) (log ++ log') /\
  (forall src dst logs logs', steps_account dst logs -> steps_account src logs' ->
    steps_account (UnionCombineStepEvents src dst) (union_with (fun a b => Some (a ++ b)) logs logs') /\
    steps_account (IntersectCombineStepEvents src dst)
      (if bool_decide (dst = ∅) then logs' else intersection_with (fun a b => Some (a ++ b)) logs logs') /\
    (steps_ok dst -> exists m', ToNonOverlappedStepEvents dst = Some m' /\ steps_account m' logs)).
Proof.
  intros Hd Ho. split_and!.
  - apply accounts_new.
  - intros m. by apply (accounts_same d).
  - intros e. by apply (accounts_same d).
  - intros c e. by apply (accounts_same d).
  - intros d' Hd'. by eapply accounts_non_overlapped.
  - intros. by apply accounts_transfer.
  - intros ty t b i x Hi Hx. unfold AddDeviceMemoryTransferEvent. rewrite Hi. simpl.
    rewrite list_lookup_alter_eq, Hx. eexists. by split.
  - by apply accounts_combine.
  - intros src dst logs logs' Hdst Hsrc. split_and!; [by apply accounts_union|by apply accounts_intersection|].
    intros Hok. rewrite to_non_overlapped_steps by done. eexists. split; [done|]. intros k. rewrite lookup_omap. specialize (Hdst k).
    destruct (dst !! k) as [dk|] eqn:Hk; inversion Hdst as [? log0 Hacc|]; subst; [|constructor]. cbn.
    destruct (to_non_overlapped_total dk (Hok k dk Hk)) as [d' Hd']. rewrite Hd'. constructor. by eapply accounts_non_overlapped.
Qed.
End accounts.

(** ** Concrete profiles *)

Definition sample_step : StepDetails pair_span Z Z Z :=
  AddMarker (mk_marker kDeviceStepMarker (Some 3) "device" "" (20, 40))
    (AddMarker (mk_marker kExplicitHostStepMarker None "host" "" (0, 100))
      (AddEvent (mk_ets DEVICE_COMPUTE_16 (10, 5)) (set_events sample_events StepDetails_new))).

Lemma sample_step_ok : steps_ok {[ 7 := sample_step ]}.
Proof. intros k d Hk. apply lookup_singleton_Some in Hk as [_ <-]. repeat constructor; done. Qed.

Lemma precision_stats_count_instants_witness :
  exists m', ToNonOverlappedStepEvents {[ 7 := sample_step ]} = Some m' /\
    ComputePrecisionStats m' =
    mk_precision (u64 (total (fun d => instants DEVICE_COMPUTE_16 (events_ d)) {[ 7 := sample_step ]}))
      (u64 (total (fun d => instants DEVICE_COMPUTE_32 (events_ d)) {[ 7 := sample_step ]})).
Proof. apply (precision_stats_count_instants {[ 7 := sample_step ]}), sample_step_ok. Defined.

Example sample_precision :
  ComputePrecisionStats <$> ToNonOverlappedStepEvents {[ 7 := sample_step ]} = Some (mk_precision 5 30) /\
  StepTime sample_step = (0, 100) /\ StepTimeOnCore 3 sample_step = (20, 40).
Proof. split_and!; vm_compute; reflexivity. Qed.

Lemma step_details_keep_transfers_witness :
  accounts (Combine (AddDeviceMemoryTransferEvent DEVICE_TO_HOST (0, 5) 8 sample_step) (AddDeviceMemoryTransferEvent HOST_TO_DEVICE (0, 5) 4 sample_step))
    [(HOST_TO_DEVICE, 4); (DEVICE_TO_HOST, 8)].
Proof.
  apply (step_details_keep_transfers (AddDeviceMemoryTransferEvent HOST_TO_DEVICE (0, 5) 4 sample_step)
    (AddDeviceMemoryTransferEvent DEVICE_TO_HOST (0, 5) 8 sample_step) [(HOST_TO_DEVICE, 4)] [(DEVICE_TO_HOST, 8)]);
    apply (accounts_transfer _ _ _ sample_step []), (accounts_same StepDetails_new); (reflexivity || apply accounts_new).
Defined.
