(* ===== verification/StepIntersection.v ===== *)
(** Intersection of the step sequences of several hosts
    (xprof/utils/step_intersection.{h,cc}): every host is aligned with a chief host
    by the offset of greatest overlap, found by one pass over both sequences, and
    the steps common to all hosts are the intersection. *)
From Stdlib Require Import ZArith Lia.
From stdpp Require Import base list gmap sorting.
From S2P Require Import Prelude Timespan.
Local Open Scope Z_scope.

Record StepInfo := mk_stepinfo { si_begin_ps : Z; si_duration_ps : Z }.
(** PerCoreStepInfo: the step on each core. *)
Abbreviation PerCoreStepInfo := (gmap Z StepInfo).
Abbreviation StepDatabaseResult := (list PerCoreStepInfo).

Record StepsAlignment := mk_alignment {
  begin_subordinate_idx : Z;
  begin_chief_idx : Z;
  num_steps : Z
}.
#[export] Instance StepsAlignment_eq_dec : EqDecision StepsAlignment.
Proof. solve_decision. Defined.

Definition UINT64_MAX := 2 ^ 64 - 1.
Definition UINT32_MAX := 2 ^ 32 - 1.

Section intersection.
Context {T : Type} `{!Timespan T}.

(** The timespan of a step across all cores. *)
Definition StepTimespan (percore_stepinfo : PerCoreStepInfo) : T :=
  match map_to_list percore_stepinfo with
  | [] => ts_default
  | [(_, s)] => FromEndPoints (si_begin_ps s) (u64 (si_begin_ps s + si_duration_ps s))
  | steps =>
      let '(min_ps, max_ps) := foldl (fun '(min_ps, max_ps) '(_, s) =>
        (Z.min min_ps (si_begin_ps s), Z.max max_ps (u64 (si_begin_ps s + si_duration_ps s))))
        (UINT64_MAX, 0) steps in
      if min_ps <? max_ps then FromEndPoints min_ps max_ps else ts_default
  end.

(** *** Similarities *)

Definition overlap_ps (s c : T) : Z :=
  let start_ps := Z.max (begin_ps s) (begin_ps c) in
  let end_ps := Z.min (end_ps s) (end_ps c) in
  if start_ps <? end_ps then end_ps - start_ps else 0.

(** [offset_to_similarity[k] += x]; a write outside the vector is undefined. *)
Definition add_at (k : Z) (x : Z) (v : list Z) : option (list Z) :=
  y ← (if k <? 0 then None else v !! Z.to_nat k);
  Some (<[Z.to_nat k := u64 (y + x)]> v).

(** The [while] loop; every turn advances one of the two indices, which are [int]s in the code:
    the results below are for fewer than 2^31 steps. *)
Fixpoint similarity_loop (fuel : nat) (sub chief : list T) (i j : nat) (sim : list Z) : option (list Z) :=
  match sub !! i, chief !! j with
  | Some s, Some c =>
      match fuel with
      | O => None
      | S fuel' =>
          if duration_ps s =? 0 then similarity_loop fuel' sub chief (S i) j sim
          else if duration_ps c =? 0 then similarity_loop fuel' sub chief i (S j) sim
          else
            sim ← add_at (u32 (Z.of_nat j - Z.of_nat i + (Z.of_nat (length sub) - 1))) (overlap_ps s c) sim;
            if end_ps s <? end_ps c then similarity_loop fuel' sub chief (S i) j sim
            else if end_ps c <? end_ps s then similarity_loop fuel' sub chief i (S j) sim
            else similarity_loop fuel' sub chief (S i) (S j) sim
      end
  | _, _ => Some sim
  end.

Definition CalculateSimilarities (sub chief : list T) (sim : list Z) : option (list Z) :=
  similarity_loop (length sub + length chief) sub chief 0 0 sim.

(** *** The best offset *)

(** [update_best]: the state is [None] while nothing was found; reading outside the
    vector is undefined. *)
Definition update_best (sim : list Z) (n : Z) (best : option (Z * Z)) (k : Z) : option (option (Z * Z)) :=
  similarity ← (if k + (n - 1) <? 0 then None else sim !! Z.to_nat (k + (n - 1)));
  Some (match best with
  | Some (max_similarity, best_k) =>
      if max_similarity <? similarity then Some (similarity, k) else best
  | None => Some (similarity, k)
  end).

(** The order in which the offsets are tried: 0, 1, ..., m-1, then -1, ..., -(n-1). *)
Definition offsets (n m : Z) : list Z :=
  seqZ 0 m ++ (Z.opp <$> seqZ 1 (n - 1)).

Fixpoint best_loop (sim : list Z) (n : Z) (best : option (Z * Z)) (ks : list Z) : option (option (Z * Z)) :=
  match ks with
  | [] => Some best
  | k :: ks' => best ← update_best sim n best k; best_loop sim n best ks'
  end.

Definition FindBestOffset (sim : list Z) (n m : Z) : option Z :=
  best ← best_loop sim n None (offsets n m);
  Some (match best with Some (_, best_k) => best_k | None => 0 end).

Definition FindStepsAlignment (sub chief : list T) (sim : list Z) : option StepsAlignment :=
  let n := Z.of_nat (length sub) in
  let m := Z.of_nat (length chief) in
  if (n =? 0) || (m =? 0) then Some (mk_alignment 0 0 0)
  else
    sim ← CalculateSimilarities sub chief sim;
    best_k ← FindBestOffset sim n m;
    let begin_sub := if 0 <=? best_k then 0 else - best_k in
    let begin_chief := if 0 <=? best_k then best_k else 0 in
    Some (mk_alignment begin_sub begin_chief (Z.min (u32 (n - begin_sub)) (u32 (m - begin_chief)))).

(** *** Hosts *)

Record HostInfo := mk_host {
  hi_host_id : Z;
  hi_step_db : StepDatabaseResult;
  hi_timespans_offset : Z;
  hi_timespans_count : Z;
  hi_total_duration_ps : Z
}.

(** From the first begin to the last end of the non-empty steps. *)
Definition total_duration (spans : list T) : Z :=
  let '(min_ps, max_ps) := foldl (fun '(min_ps, max_ps) t =>
    if 0 <? duration_ps t then (Z.min min_ps (begin_ps t), Z.max max_ps (end_ps t)) else (min_ps, max_ps))
    (UINT64_MAX, 0) spans in
  if min_ps <? max_ps then max_ps - min_ps else 0.

Record precompute := mk_pre {
  pre_hosts : list HostInfo;
  pre_spans : list T;
  pre_min_duration : Z;
  pre_chief : option HostInfo
}.

Definition precompute_host (p : precompute) (host : Z * StepDatabaseResult) : precompute :=
  let spans := StepTimespan <$> host.2 in
  let offset := u32 (Z.of_nat (length (pre_spans p))) in
  let all := pre_spans p ++ spans in
  let info := mk_host host.1 host.2 offset (u32 (Z.of_nat (length all) - offset)) (total_duration spans) in
  let better := match pre_chief p with None => true | Some _ => hi_total_duration_ps info <? pre_min_duration p end in
  mk_pre (pre_hosts p ++ [info]) all
    (if better then hi_total_duration_ps info else pre_min_duration p)
    (if better then Some info else pre_chief p).

Definition PrecomputeTimespansAndFindChief (perhost_stepdb : list (Z * StepDatabaseResult)) : precompute :=
  foldl precompute_host (mk_pre [] [] UINT64_MAX None) perhost_stepdb.

(** [data() + offset] with [count] elements. *)
Definition host_spans (all : list T) (info : HostInfo) : list T :=
  take (Z.to_nat (hi_timespans_count info)) (drop (Z.to_nat (hi_timespans_offset info)) all).

Record StepIntersection := mk_intersection {
  perhost_alignment_ : gmap Z StepsAlignment;
  chief_host_id_ : Z;
  steps_dropped_ : Z;
  empty_intersect_ : bool;
  begin_chief_idx_ : Z;
  end_chief_idx_ : Z
}.

Definition align_host (all : list T) (chief info : HostInfo) : option StepsAlignment :=
  if hi_host_id info =? hi_host_id chief then Some (mk_alignment 0 0 (hi_timespans_count info))
  else FindStepsAlignment (host_spans all info) (host_spans all chief)
    (replicate (Z.to_nat (u32 (hi_timespans_count info + hi_timespans_count chief - 1))) 0).

(** The loop over the hosts: alignments, greatest begin and least end. *)
Fixpoint AlignStepsWithChief (all : list T) (chief : HostInfo) (hosts : list HostInfo)
    (acc : gmap Z StepsAlignment * Z * Z) : option (gmap Z StepsAlignment * Z * Z) :=
  match hosts with
  | [] => Some acc
  | info :: hosts' =>
      a ← align_host all chief info;
      let '(al, max_begin, min_end) := acc in
      AlignStepsWithChief all chief hosts'
        (<[hi_host_id info := a]> al, Z.max max_begin (begin_chief_idx a),
         Z.min min_end (u32 (begin_chief_idx a + num_steps a)))
  end.

Definition ComputeFinalBounds (max_steps max_begin_chief_idx min_end_chief_idx : Z) (x : StepIntersection)
    : StepIntersection :=
  if min_end_chief_idx <? max_begin_chief_idx
  then mk_intersection (perhost_alignment_ x) (chief_host_id_ x) 0 true 0 0
  else
    let n := u32 (min_end_chief_idx - max_begin_chief_idx) in
    if max_steps <? n
    then mk_intersection (perhost_alignment_ x) (chief_host_id_ x) (u32 (n - max_steps)) (empty_intersect_ x)
           max_begin_chief_idx (u32 (max_begin_chief_idx + max_steps))
    else mk_intersection (perhost_alignment_ x) (chief_host_id_ x) 0 (empty_intersect_ x)
           max_begin_chief_idx min_end_chief_idx.

(** The constructor; the hosts in the order in which the map is visited. *)
Definition StepIntersection_new (max_steps : Z) (perhost_stepdb : list (Z * StepDatabaseResult))
    : option StepIntersection :=
  let p := PrecomputeTimespansAndFindChief perhost_stepdb in
  match pre_chief p with
  | None => Some (mk_intersection ∅ UINT32_MAX 0 false 0 0)
  | Some chief =>
      if hi_timespans_count chief =? 0
      then Some (mk_intersection ∅ (hi_host_id chief) 0 false 0 0)
      else
        '(al, max_begin, min_end) ←
          AlignStepsWithChief (pre_spans p) chief (pre_hosts p) (∅, 0, UINT32_MAX);
        Some (ComputeFinalBounds max_steps max_begin min_end
                (mk_intersection al (hi_host_id chief) 0 false 0 0))
  end.

Definition NumSteps (x : StepIntersection) : Z := u32 (end_chief_idx_ x - begin_chief_idx_ x).

Definition DstStepNumbers (x : StepIntersection) : list Z := seqZ 0 (NumSteps x).

Definition FirstStepIndex (host_id : Z) (x : StepIntersection) : Z :=
  match perhost_alignment_ x !! host_id with
  | None => 0
  | Some a => u32 (begin_subordinate_idx a + u32 (begin_chief_idx_ x - begin_chief_idx a))
  end.
End intersection.

(** ** Similarities: one pass computes every alignment

    The reference adds, for an offset [k], the overlaps of subordinate step [i] with
    chief step [i + k]. *)
Section similarity.
Context {T : Type} `{!Timespan T}.
Implicit Types (s c : T) (sub chief : list T).

Definition nth_overlap (k : Z) s chief : Z :=
  match (if k <? 0 then None else chief !! Z.to_nat k) with Some c => overlap_ps s c | None => 0 end.

Fixpoint aligned_overlap (k : Z) sub chief : Z :=
  match sub with
  | [] => 0
  | s :: sub' => nth_overlap k s chief + aligned_overlap (k + 1) sub' chief
  end.

(** Steps in order of time: a non-empty step ends before the next one begins. *)
Definition before (a b : T) : Prop := 0 < duration_ps a -> 0 < duration_ps b -> end_ps a <= begin_ps b.
Definition ordered (l : list T) : Prop := StronglySorted before l /\ Forall span_ok l.

Lemma overlap_disjoint s c : end_ps s <= begin_ps c \/ end_ps c <= begin_ps s -> overlap_ps s c = 0.
Proof. intros H. unfold overlap_ps. destruct (Z.ltb_spec (Z.max (begin_ps s) (begin_ps c)) (Z.min (end_ps s) (end_ps c))); lia. Qed.

Lemma overlap_empty s c :
  span_ok s -> span_ok c -> duration_ps s = 0 \/ duration_ps c = 0 -> overlap_ps s c = 0.
Proof.
  intros Hs Hc H. unfold overlap_ps. rewrite !span_end by done.
  destruct (Z.ltb_spec (Z.max (begin_ps s) (begin_ps c)) (Z.min (begin_ps s + duration_ps s) (begin_ps c + duration_ps c))); lia.
Qed.

Lemma nth_overlap_cons k s c chief :
  nth_overlap k s (c :: chief) = (if k =? 0 then overlap_ps s c else 0) + nth_overlap (k - 1) s chief.
Proof.
  unfold nth_overlap. destruct (Z.ltb_spec k 0), (Z.ltb_spec (k - 1) 0), (Z.eqb_spec k 0); try lia.
  - subst k. simpl. lia.
  - replace (Z.to_nat k) with (S (Z.to_nat (k - 1))) by lia. simpl. lia.
Qed.

Lemma nth_overlap_zero k s chief : (forall c, c ∈ chief -> overlap_ps s c = 0) -> nth_overlap k s chief = 0.
Proof.
  intros H. unfold nth_overlap. destruct (k <? 0); [done|]. destruct (chief !! Z.to_nat k) eqn:E; [|done].
  apply H. by eapply list_elem_of_lookup_2.
Qed.

Lemma aligned_overlap_column k sub c chief :
  (forall s, s ∈ sub -> overlap_ps s c = 0) ->
  aligned_overlap k sub (c :: chief) = aligned_overlap (k - 1) sub chief.
Proof.
  revert k. induction sub as [|s sub IH]; intros k H; [done|]. simpl.
  rewrite nth_overlap_cons, IH by (intros; apply H; by right). rewrite (H s) by by left.
  replace (k + 1 - 1) with (k - 1 + 1) by lia. destruct (k =? 0); lia.
Qed.

Lemma aligned_overlap_nil k sub : aligned_overlap k sub [] = 0.
Proof.
  revert k. induction sub as [|s sub IH]; intros k; [done|]. simpl. rewrite IH, nth_overlap_zero; [done|].
  by intros c ?%not_elem_of_nil.
Qed.

(** The step that ends first meets no later step of the other sequence. *)
Lemma overlap_before s c c' :
  span_ok s -> span_ok c' -> 0 < duration_ps c -> before c c' -> end_ps s <= end_ps c -> overlap_ps s c' = 0.
Proof.
  intros Hs Hc' Hpos Hb Hle. destruct (decide (duration_ps c' = 0)) as [Hz|Hz].
  - apply overlap_empty; auto.
  - pose proof (duration_ps_u64 c'). apply overlap_disjoint. left. specialize (Hb Hpos ltac:(lia)). lia.
Qed.

Lemma overlap_comm s c : overlap_ps s c = overlap_ps c s.
Proof. unfold overlap_ps. by rewrite Z.max_comm, Z.min_comm. Qed.

Lemma ordered_cons s sub :
  ordered (s :: sub) -> span_ok s /\ ordered sub /\ forall x, x ∈ sub -> before s x /\ span_ok x.
Proof.
  intros [Hs Hok]. apply StronglySorted_inv in Hs as [Hs Hb]. apply Forall_cons in Hok as [Ho Hok].
  rewrite Forall_forall in Hb. split_and!; [done|by split|]. intros x Hx. split; [auto|].
  rewrite Forall_forall in Hok. auto.
Qed.

(** What each turn of the loop contributes. *)
Lemma aligned_overlap_step k s sub c chief :
  ordered (s :: sub) -> ordered (c :: chief) ->
  (duration_ps s = 0 -> aligned_overlap k (s :: sub) (c :: chief) = aligned_overlap (k + 1) sub (c :: chief)) /\
  (duration_ps c = 0 -> aligned_overlap k (s :: sub) (c :: chief) = aligned_overlap (k - 1) (s :: sub) chief) /\
  (0 < duration_ps s -> 0 < duration_ps c ->
    aligned_overlap k (s :: sub) (c :: chief) = (if k =? 0 then overlap_ps s c else 0) +
      (if end_ps s <? end_ps c then aligned_overlap (k + 1) sub (c :: chief)
       else if end_ps c <? end_ps s then aligned_overlap (k - 1) (s :: sub) chief
       else aligned_overlap k sub chief)).
Proof.
  intros (Hs & Hsub & Hss)%ordered_cons (Hc & Hchief & Hcc)%ordered_cons. split_and!.
  - intros Hz. cbn [aligned_overlap]. rewrite nth_overlap_zero; [lia|].
    intros x [->|Hx]%elem_of_cons; apply overlap_empty; auto. by apply Hcc.
  - intros Hz. apply aligned_overlap_column. intros x [->|Hx]%elem_of_cons; apply overlap_empty; auto. by apply Hss.
  - intros Hps Hpc.
    assert (end_ps s <= end_ps c -> nth_overlap (k - 1) s chief = 0) as Hrow.
    { intros Hle. apply nth_overlap_zero. intros x Hx. destruct (Hcc x Hx). by apply (overlap_before s c). }
    assert (end_ps c <= end_ps s -> forall x, x ∈ sub -> overlap_ps x c = 0) as Hcol.
    { intros Hle x Hx. destruct (Hss x Hx). rewrite overlap_comm. by apply (overlap_before c s). }
    cbn [aligned_overlap]. rewrite nth_overlap_cons.
    destruct (Z.ltb_spec (end_ps s) (end_ps c)); [rewrite Hrow by lia; lia|].
    rewrite aligned_overlap_column by (apply Hcol; lia). replace (k + 1 - 1) with k by lia.
    destruct (Z.ltb_spec (end_ps c) (end_ps s)).
    + replace (k - 1 + 1) with k by lia. lia.
    + rewrite Hrow by lia. lia.
Qed.

Definition u64_list (l : list Z) : Prop := Forall (fun y => 0 <= y < 2 ^ 64) l.

(** The overlaps at offset [k] that the loop has still to add at indices [i] and [j]. *)
Definition rest sub chief (i j : nat) (k : Z) : Z :=
  aligned_overlap (k - Z.of_nat j + Z.of_nat i) (drop i sub) (drop j chief).

(** [sim'] is [sim] with these overlaps added. *)
Definition adds sub chief (i j : nat) (sim sim' : list Z) : Prop :=
  length sim' = length sim /\
  forall p y, sim !! p = Some y ->
    sim' !! p = Some (u64 (y + rest sub chief i j (Z.of_nat p - (Z.of_nat (length sub) - 1)))).

Lemma ordered_drop i sub : ordered sub -> ordered (drop i sub).
Proof.
  intros [Hs Hok]. split; [|by apply Forall_drop]. rewrite <- (take_drop i sub) in Hs.
  by apply StronglySorted_app_1_r in Hs.
Qed.

Lemma rest_step sub chief i j s c k :
  ordered sub -> ordered chief -> sub !! i = Some s -> chief !! j = Some c ->
  (duration_ps s = 0 -> rest sub chief i j k = rest sub chief (S i) j k) /\
  (duration_ps c = 0 -> rest sub chief i j k = rest sub chief i (S j) k) /\
  (duration_ps s <> 0 -> duration_ps c <> 0 ->
    rest sub chief i j k = (if k =? Z.of_nat j - Z.of_nat i then overlap_ps s c else 0) +
      (if end_ps s <? end_ps c then rest sub chief (S i) j k
       else if end_ps c <? end_ps s then rest sub chief i (S j) k else rest sub chief (S i) (S j) k)).
Proof.
  intros Hos%(ordered_drop i) Hoc%(ordered_drop j) Hs Hc. unfold rest.
  rewrite (drop_S _ _ _ Hs) in Hos |- *. rewrite (drop_S _ _ _ Hc) in Hoc |- *.
  destruct (aligned_overlap_step (k - Z.of_nat j + Z.of_nat i) s (drop (S i) sub) c (drop (S j) chief) Hos Hoc)
    as (H1 & H2 & H3).
  replace (k - Z.of_nat j + Z.of_nat (S i)) with (k - Z.of_nat j + Z.of_nat i + 1) by lia.
  replace (k - Z.of_nat (S j) + Z.of_nat i) with (k - Z.of_nat j + Z.of_nat i - 1) by lia.
  replace (k - Z.of_nat (S j) + Z.of_nat (S i)) with (k - Z.of_nat j + Z.of_nat i) by lia.
  split_and!; [done|done|]. intros Hzs Hzc. pose proof (duration_ps_u64 s). pose proof (duration_ps_u64 c).
  rewrite H3 by lia. f_equal.
  destruct (Z.eqb_spec (k - Z.of_nat j + Z.of_nat i) 0), (Z.eqb_spec k (Z.of_nat j - Z.of_nat i)); lia.
Qed.

Lemma u64_absorb a b : u64 (u64 a + b) = u64 (a + b).
Proof. unfold wrap. apply Zplus_mod_idemp_l. Qed.

Lemma adds_done sub chief i j sim :
  u64_list sim -> sub !! i = None \/ chief !! j = None -> adds sub chief i j sim sim.
Proof.
  intros Hu Hnone. split; [done|]. intros p y Hp. rewrite Hp. f_equal.
  assert (0 <= y < 2 ^ 64) by (by apply (Forall_lookup_1 _ _ p y Hu)).
  replace (rest _ _ _ _ _) with 0; [rewrite Z.add_0_r, wrap_small; lia|]. unfold rest.
  destruct Hnone as [Hge%lookup_ge_None|Hge%lookup_ge_None]; rewrite (drop_ge _ _ Hge); [done|].
  by rewrite aligned_overlap_nil.
Qed.

Lemma adds_skip sub chief i j i' j' sim sim' :
  (forall k, rest sub chief i j k = rest sub chief i' j' k) ->
  adds sub chief i' j' sim sim' -> adds sub chief i j sim sim'.
Proof. intros Hk [Hl Ha]. split; [done|]. intros p y Hp. by rewrite Hk, (Ha p y Hp). Qed.

(** [add_at] at the offset of the two current steps. *)
Lemma add_at_run sub chief i j sim x :
  (i < length sub)%nat -> (j < length chief)%nat ->
  Z.of_nat (length sub) + Z.of_nat (length chief) < 2 ^ 32 ->
  length sim = (length sub + length chief - 1)%nat -> u64_list sim ->
  exists sim1, add_at (u32 (Z.of_nat j - Z.of_nat i + (Z.of_nat (length sub) - 1))) x sim = Some sim1 /\
    length sim1 = length sim /\ u64_list sim1 /\
    forall i' j' sim', (forall k, rest sub chief i j k =
      (if k =? Z.of_nat j - Z.of_nat i then x else 0) + rest sub chief i' j' k) ->
    adds sub chief i' j' sim1 sim' -> adds sub chief i j sim sim'.
Proof.
  intros Hi Hj Hsz Hlen Hu. rewrite wrap_small by lia. unfold add_at.
  set (q := Z.of_nat j - Z.of_nat i + (Z.of_nat (length sub) - 1)) in *.
  destruct (Z.ltb_spec q 0); [lia|]. destruct (lookup_lt_is_Some_2 sim (Z.to_nat q)) as [y0 Hy0]; [lia|].
  rewrite Hy0. simpl. eexists. split; [done|]. split_and!.
  - apply length_insert.
  - apply Forall_insert; [done|]. by apply wrap_range.
  - intros i' j' sim' Hk [Hl Ha]. rewrite length_insert in Hl. split; [done|]. intros p y Hp. rewrite Hk.
    destruct (decide (Z.to_nat q = p)) as [Hqp|Hne].
    + rewrite (Ha p (u64 (y0 + x))) by (subst p; apply list_lookup_insert_eq; lia).
      rewrite u64_absorb. subst p. rewrite Hp in Hy0. injection Hy0 as <-.
      rewrite (proj2 (Z.eqb_eq _ _)) by lia. do 2 f_equal. lia.
    + rewrite (Ha p y) by (by rewrite list_lookup_insert_ne). rewrite (proj2 (Z.eqb_neq _ _)) by lia.
      do 2 f_equal.
Qed.

Lemma similarity_loop_run fuel sub chief i j sim :
  ordered sub -> ordered chief ->
  (length sub - i + (length chief - j) <= fuel)%nat ->
  Z.of_nat (length sub) + Z.of_nat (length chief) < 2 ^ 32 ->
  length sim = (length sub + length chief - 1)%nat -> u64_list sim ->
  exists sim', similarity_loop fuel sub chief i j sim = Some sim' /\ adds sub chief i j sim sim'.
Proof.
  intros Hos Hoc Hfuel Hsz. revert i j sim Hfuel.
  induction fuel as [|fuel IH]; intros i j sim Hfuel Hlen Hu; simpl;
    (destruct (sub !! i) as [s|] eqn:Hs; [|exists sim; split; [done|]; apply adds_done; auto]);
    (destruct (chief !! j) as [c|] eqn:Hc; [|exists sim; split; [done|]; apply adds_done; auto]);
    pose proof (lookup_lt_Some _ _ _ Hs) as Hi; pose proof (lookup_lt_Some _ _ _ Hc) as Hj.
  { lia. }
  pose proof (fun k => rest_step sub chief i j s c k Hos Hoc Hs Hc) as Hstep.
  destruct (Z.eqb_spec (duration_ps s) 0) as [Hz|Hz].
  { destruct (IH (S i) j sim) as (sim' & -> & Ha); [lia|done..|]. exists sim'. split; [done|].
    apply (adds_skip sub chief i j (S i) j); [|done]. intros k. by apply Hstep. }
  destruct (Z.eqb_spec (duration_ps c) 0) as [Hz'|Hz'].
  { destruct (IH i (S j) sim) as (sim' & -> & Ha); [lia|done..|]. exists sim'. split; [done|].
    apply (adds_skip sub chief i j i (S j)); [|done]. intros k. by apply Hstep. }
  destruct (add_at_run sub chief i j sim (overlap_ps s c)) as (sim1 & -> & Hl1 & Hu1 & Hadd); [lia..|done|]. simpl.
  assert (forall k, _) as Hk by exact (fun k => proj2 (proj2 (Hstep k)) Hz Hz').
  destruct (end_ps s <? end_ps c); [|destruct (end_ps c <? end_ps s)].
  - destruct (IH (S i) j sim1) as (sim' & -> & Ha); [lia|lia|done|]. exists sim'. by eauto.
  - destruct (IH i (S j) sim1) as (sim' & -> & Ha); [lia|lia|done|]. exists sim'. by eauto.
  - destruct (IH (S i) (S j) sim1) as (sim' & -> & Ha); [lia|lia|done|]. exists sim'. by eauto.
Qed.

(** The loop stays inside the vector for any steps, also for steps that overlap. *)
Lemma similarity_loop_total fuel sub chief i j sim :
  (length sub - i + (length chief - j) <= fuel)%nat ->
  Z.of_nat (length sub) + Z.of_nat (length chief) < 2 ^ 32 ->
  length sim = (length sub + length chief - 1)%nat -> u64_list sim ->
  exists sim', similarity_loop fuel sub chief i j sim = Some sim' /\ length sim' = length sim.
Proof.
  intros Hfuel Hsz. revert i j sim Hfuel.
  induction fuel as [|fuel IH]; intros i j sim Hfuel Hlen Hu; simpl;
    (destruct (sub !! i) as [s|] eqn:Hs; [|by exists sim]); (destruct (chief !! j) as [c|] eqn:Hc; [|by exists sim]);
    pose proof (lookup_lt_Some _ _ _ Hs) as Hi; pose proof (lookup_lt_Some _ _ _ Hc) as Hj.
  { lia. }
  destruct (duration_ps s =? 0); [by apply IH; [lia|..]|]. destruct (duration_ps c =? 0); [by apply IH; [lia|..]|].
  destruct (add_at_run sub chief i j sim (overlap_ps s c)) as (sim1 & -> & Hl1 & Hu1 & _); [lia..|done|]. simpl. rewrite <- Hl1.
  destruct (end_ps s <? end_ps c); [|destruct (end_ps c <? end_ps s)]; apply IH; (lia || done).
Qed.

(** The whole routine, from a vector of zeros. *)
Lemma similarities_total sub chief :
  Z.of_nat (length sub) + Z.of_nat (length chief) < 2 ^ 32 ->
  exists sim, CalculateSimilarities sub chief (replicate (length sub + length chief - 1) 0) = Some sim /\
    length sim = (length sub + length chief - 1)%nat.
Proof.
  intros Hsz. destruct (similarity_loop_total (length sub + length chief) sub chief 0 0 (replicate (length sub + length chief - 1) 0))
    as (sim & Hrun & Hl); [lia|done|apply length_replicate|by apply Forall_replicate|].
  exists sim. by rewrite length_replicate in Hl.
Qed.

Lemma similarities_run sub chief :
  ordered sub -> ordered chief ->
  0 < Z.of_nat (length sub) -> Z.of_nat (length sub) + Z.of_nat (length chief) < 2 ^ 32 ->
  exists sim, CalculateSimilarities sub chief (replicate (length sub + length chief - 1) 0) = Some sim /\
    length sim = (length sub + length chief - 1)%nat /\
    forall k, - Z.of_nat (length sub) < k < Z.of_nat (length chief) ->
      sim !! Z.to_nat (k + (Z.of_nat (length sub) - 1)) = Some (u64 (aligned_overlap k sub chief)).
Proof.
  intros Hos Hoc Hn Hsz.
  destruct (similarity_loop_run (length sub + length chief) sub chief 0 0 (replicate (length sub + length chief - 1) 0))
    as (sim & Hrun & Hl & Ha); [done|done|lia|done|apply length_replicate|by apply Forall_replicate|].
  exists sim. rewrite length_replicate in Hl. split; [done|]. split; [done|]. intros k Hk.
  rewrite (Ha _ 0) by (apply lookup_replicate; lia). unfold rest. rewrite !drop_0, Z.add_0_l.
  match goal with |- context [aligned_overlap ?a _ _] => replace a with k by lia end. done.
Qed.

(** ** The best offset *)

(** [b] is the first element of [ks] with the greatest value of [f]. *)
Definition first_max (f : Z -> Z) (ks : list Z) (b : Z) : Prop :=
  exists l1 l2, ks = l1 ++ b :: l2 /\ (forall x, x ∈ l1 -> f x < f b) /\ (forall x, x ∈ l2 -> f x <= f b).

Lemma first_max_ge f ks b : first_max f ks b -> forall x, x ∈ ks -> f x <= f b.
Proof.
  intros (l1 & l2 & -> & H1 & H2) x [Hx|[->|Hx]%elem_of_cons]%elem_of_app; [|done|auto].
  specialize (H1 x Hx). lia.
Qed.

Lemma first_max_ext f g ks b : (forall x, x ∈ ks -> f x = g x) -> first_max f ks b -> first_max g ks b.
Proof.
  intros Hfg (l1 & l2 & -> & H1 & H2). exists l1, l2. split; [done|].
  assert (f b = g b) as <- by (apply Hfg, elem_of_app; right; by left).
  split; intros x Hx; (rewrite <- (Hfg x); [auto|apply elem_of_app; auto]). right. by right.
Qed.

Lemma first_max_unique f ks b b' : first_max f ks b -> first_max f ks b' -> b = b'.
Proof.
  intros Hb Hb'. pose proof (first_max_ge f ks b Hb) as Hge. pose proof (first_max_ge f ks b' Hb') as Hge'.
  destruct Hb as (l1 & l2 & -> & H1 & _), Hb' as (k1 & k2 & Heq & H2 & _).
  assert (f b = f b') as Hf.
  { apply Z.le_antisymm; [apply Hge'|apply Hge; rewrite Heq]; apply elem_of_app; right; by left. }
  destruct (lt_eq_lt_dec (length l1) (length k1)) as [[Hlt|Hl]|Hlt].
  - assert (b ∈ k1) as Hin; [|specialize (H2 b Hin); lia]. apply list_elem_of_lookup. exists (length l1).
    assert ((k1 ++ b' :: k2) !! length l1 = Some b) as H by (rewrite <- Heq; by apply list_lookup_middle).
    by rewrite lookup_app_l in H.
  - apply app_inj_1 in Heq as [_ Heq]; [congruence|done].
  - assert (b' ∈ l1) as Hin; [|specialize (H1 b' Hin); lia]. apply list_elem_of_lookup. exists (length k1).
    assert ((l1 ++ b :: l2) !! length k1 = Some b') as H by (rewrite Heq; by apply list_lookup_middle).
    by rewrite lookup_app_l in H.
Qed.

Lemma first_max_snoc f ks b k : first_max f ks b -> first_max f (ks ++ [k]) (if f b <? f k then k else b).
Proof.
  intros Hb. destruct (Z.ltb_spec (f b) (f k)).
  - exists ks, []. split_and!; [done| |by intros x ?%not_elem_of_nil].
    intros x Hx. pose proof (first_max_ge f ks b Hb x Hx). lia.
  - destruct Hb as (l1 & l2 & -> & H1 & H2). exists l1, (l2 ++ [k]). rewrite <- app_assoc. split_and!; [done|done|].
    intros x [Hx| ->%list_elem_of_singleton]%elem_of_app; [auto|done].
Qed.

Lemma best_loop_run sim n f ks0 b ks :
  (forall k, k ∈ ks -> - n < k /\ sim !! Z.to_nat (k + (n - 1)) = Some (f k)) -> first_max f ks0 b ->
  exists b', best_loop sim n (Some (f b, b)) ks = Some (Some (f b', b')) /\ first_max f (ks0 ++ ks) b'.
Proof.
  revert ks0 b. induction ks as [|k ks IH]; intros ks0 b Hks Hb; simpl.
  { exists b. by rewrite app_nil_r. }
  destruct (Hks k) as [Hk Hl]; [by left|]. unfold update_best. destruct (Z.ltb_spec (k + (n - 1)) 0); [lia|].
  rewrite Hl. simpl. apply (first_max_snoc f ks0 b k) in Hb.
  replace (ks0 ++ k :: ks) with ((ks0 ++ [k]) ++ ks) by (by rewrite <- app_assoc).
  destruct (f b <? f k); apply IH; try done; intros; apply Hks; by right.
Qed.

Lemma offsets_elem n m k : 1 <= n -> 1 <= m -> k ∈ offsets n m <-> - n < k < m.
Proof.
  intros. unfold offsets. rewrite elem_of_app, elem_of_seqZ, list_elem_of_fmap. split.
  - intros [?|(x & -> & Hx%elem_of_seqZ)]; lia.
  - intros ?. destruct (decide (0 <= k)); [left; lia|right]. exists (- k). split; [lia|]. apply elem_of_seqZ. lia.
Qed.

Lemma find_best_offset_run sim n m f :
  1 <= n -> 1 <= m ->
  (forall k, - n < k < m -> sim !! Z.to_nat (k + (n - 1)) = Some (f k)) ->
  exists b, FindBestOffset sim n m = Some b /\ first_max f (offsets n m) b.
Proof.
  intros Hn Hm Hsim. unfold FindBestOffset.
  assert (forall k, k ∈ offsets n m -> - n < k /\ sim !! Z.to_nat (k + (n - 1)) = Some (f k)) as Hks.
  { intros k Hk%offsets_elem; [|done..]. split; [lia|by apply Hsim]. }
  destruct (offsets n m) as [|k ks] eqn:Hoff.
  { assert (0 ∈ offsets n m) as H0 by (apply offsets_elem; lia). rewrite Hoff in H0. by apply not_elem_of_nil in H0. }
  destruct (Hks k) as [Hk Hl]; [by left|]. simpl. unfold update_best.
  destruct (Z.ltb_spec (k + (n - 1)) 0); [lia|]. rewrite Hl. simpl.
  destruct (best_loop_run sim n f [k] k ks) as (b & -> & Hb).
  - intros; apply Hks; by right.
  - exists [], []. split_and!; [done|by intros ? ?%not_elem_of_nil..].
  - exists b. by split.
Qed.

(** ** Totals stay below 2^64 *)

Lemma overlap_bound s c : span_ok s -> 0 <= overlap_ps s c <= duration_ps s.
Proof.
  intros Hs. pose proof (duration_ps_u64 s). unfold overlap_ps. rewrite (span_end s) by done.
  destruct (Z.ltb_spec (Z.max (begin_ps s) (begin_ps c)) (Z.min (begin_ps s + duration_ps s) (end_ps c))); lia.
Qed.

Lemma aligned_overlap_bound k sub chief lo :
  ordered sub -> 0 <= lo < 2 ^ 64 -> (forall s, s ∈ sub -> 0 < duration_ps s -> lo <= begin_ps s) ->
  0 <= aligned_overlap k sub chief < 2 ^ 64 - lo.
Proof.
  revert k lo. induction sub as [|s sub IH]; intros k lo Hord Hlo Hb; [simpl; lia|].
  apply ordered_cons in Hord as (Hs & Hord & Hss). cbn [aligned_overlap].
  assert (0 <= nth_overlap k s chief <= duration_ps s) as Hn.
  { pose proof (duration_ps_u64 s). unfold nth_overlap. destruct (k <? 0); [lia|].
    destruct (chief !! Z.to_nat k); [by apply overlap_bound|lia]. }
  pose proof (begin_ps_u64 s). unfold span_ok in Hs.
  destruct (decide (0 < duration_ps s)) as [Hpos|Hz].
  - specialize (Hb s ltac:(by left) Hpos). destruct (IH (k + 1) (begin_ps s + duration_ps s)); [done|lia| |lia].
    intros x Hx Hpx. destruct (Hss x Hx) as [Hsx _]. rewrite <- (span_end s) by done. by apply Hsx.
  - destruct (IH (k + 1) lo); [done|done| |lia]. intros x Hx. apply Hb. by right.
Qed.

(** ** The alignment of two hosts *)

(** An alignment of sequences of [n] and [m] steps: inside both, as long as possible,
    and starting at the first step of one of them. *)
Definition alignment_ok (n m : Z) (a : StepsAlignment) : Prop :=
  0 <= begin_subordinate_idx a /\ 0 <= begin_chief_idx a /\ 0 < num_steps a /\
  (begin_subordinate_idx a = 0 \/ begin_chief_idx a = 0) /\
  Z.max (begin_subordinate_idx a + num_steps a - n) (begin_chief_idx a + num_steps a - m) = 0.

Lemma steps_alignment_run sub chief :
  sub <> [] -> chief <> [] ->
  Z.of_nat (length sub) + Z.of_nat (length chief) < 2 ^ 32 ->
  exists a, FindStepsAlignment sub chief (replicate (length sub + length chief - 1) 0) = Some a /\
    alignment_ok (Z.of_nat (length sub)) (Z.of_nat (length chief)) a /\
    (ordered sub -> ordered chief ->
     first_max (fun k => aligned_overlap k sub chief) (offsets (Z.of_nat (length sub)) (Z.of_nat (length chief)))
      (begin_chief_idx a - begin_subordinate_idx a)).
Proof.
  intros Hns Hnc Hsz. assert (length sub <> 0%nat) as Hls by (by destruct sub).
  assert (length chief <> 0%nat) as Hlc by (by destruct chief).
  destruct (similarities_total sub chief) as (sim & Hsim & Hlen); [done|].
  unfold FindStepsAlignment. destruct (Z.eqb_spec (Z.of_nat (length sub)) 0); [lia|].
  destruct (Z.eqb_spec (Z.of_nat (length chief)) 0); [lia|]. simpl. rewrite Hsim. simpl.
  set (f k := default 0 (sim !! Z.to_nat (k + (Z.of_nat (length sub) - 1)))).
  destruct (find_best_offset_run sim (Z.of_nat (length sub)) (Z.of_nat (length chief)) f) as (b & -> & Hb); [lia|lia| |].
  { intros k Hk. unfold f. destruct (lookup_lt_is_Some_2 sim (Z.to_nat (k + (Z.of_nat (length sub) - 1)))) as [y ->]; [lia|done]. }
  simpl. eexists. split; [done|].
  assert (- Z.of_nat (length sub) < b < Z.of_nat (length chief)) as Hrange.
  { apply offsets_elem; [lia|lia|]. destruct Hb as (l1 & l2 & -> & _). apply elem_of_app. right. by left. }
  split; [destruct (Z.leb_spec 0 b); rewrite !wrap_small by lia; unfold alignment_ok; simpl; lia|]. intros Hos Hoc.
  replace (begin_chief_idx _ - begin_subordinate_idx _) with b by (destruct (Z.leb_spec 0 b); simpl; lia).
  eapply first_max_ext; [|exact Hb]. intros k Hk%offsets_elem; [|lia..]. unfold f.
  destruct (similarities_run sub chief) as (sim' & Hsim' & _ & Hval); [done|done|lia|done|].
  rewrite Hsim in Hsim'. injection Hsim' as <-. rewrite Hval by done. simpl. apply wrap_small.
  destruct (aligned_overlap_bound k sub chief 0); [done|lia| |lia]. intros s _ _. apply begin_ps_u64.
Qed.
End similarity.

(** ** The intersection of all hosts *)

Section hosts.
Context {T : Type} `{!Timespan T}.
Implicit Types (p : @precompute T) (hosts : list (Z * StepDatabaseResult)).

Definition spans_of_db (db : StepDatabaseResult) : list T := StepTimespan <$> db.

(** What an entry of the host table says about its host. *)
Definition info_ok (all : list T) (info : HostInfo) (host : Z * StepDatabaseResult) : Prop :=
  hi_host_id info = host.1 /\ hi_step_db info = host.2 /\
  0 <= hi_timespans_offset info /\
  hi_timespans_offset info + hi_timespans_count info <= Z.of_nat (length all) /\
  hi_timespans_count info = Z.of_nat (length host.2) /\
  hi_total_duration_ps info = total_duration (spans_of_db host.2) /\
  host_spans all info = spans_of_db host.2.

Lemma info_ok_app all more info host : info_ok all info host -> info_ok (all ++ more) info host.
Proof.
  intros (H1 & H2 & H3 & H4 & H5 & H6 & H7). unfold info_ok. split_and!; try done; [rewrite length_app; lia|].
  unfold host_spans in *. rewrite <- H7. rewrite drop_app_le, take_app_le; [done| |lia].
  rewrite length_drop. lia.
Qed.

(** The chief is the first of the hosts with the shortest duration. *)
Record precomputed p hosts : Prop := {
  pre_infos : Forall2 (info_ok (pre_spans p)) (pre_hosts p) hosts;
  pre_length : Z.of_nat (length (pre_spans p)) = zsum ((fun h => Z.of_nat (length h.2)) <$> hosts);
  pre_none : pre_chief p = None -> hosts = [];
  pre_some c : pre_chief p = Some c -> c ∈ pre_hosts p /\ pre_min_duration p = hi_total_duration_ps c /\
    Forall (fun info => hi_total_duration_ps c <= hi_total_duration_ps info) (pre_hosts p)
}.

Lemma zsum_lengths_nonneg hosts : 0 <= zsum ((fun h => Z.of_nat (length h.2)) <$> hosts).
Proof. induction hosts as [|h hosts IH]; [done|]. rewrite fmap_cons. unfold zsum in *. cbn [foldr]. lia. Qed.

Lemma precompute_host_run p hosts host :
  precomputed p hosts -> zsum ((fun h => Z.of_nat (length h.2)) <$> hosts ++ [host]) < 2 ^ 32 ->
  precomputed (precompute_host p host) (hosts ++ [host]).
Proof.
  intros [Hi Hl Hn Hc] Hsz. rewrite fmap_app, zsum_app in Hsz. unfold zsum at 2 in Hsz. simpl in Hsz.
  unfold precompute_host. fold (spans_of_db host.2).
  set (info := mk_host _ _ _ _ _). set (better := match pre_chief p with None => true | Some _ => _ end).
  assert (length (spans_of_db host.2) = length host.2) as Hsl by apply length_fmap.
  assert (info_ok (pre_spans p ++ spans_of_db host.2) info host) as Hinfo.
  { unfold info_ok, info, host_spans. simpl. rewrite length_app, !wrap_small; rewrite ?wrap_small; [|lia..].
    split_and!; try done; try lia. rewrite Nat2Z.id, drop_app_length.
    rewrite take_ge; [done|]. lia. }
  split; cbn [pre_hosts pre_spans pre_chief pre_min_duration].
  - apply Forall2_app; [|by constructor]. eapply Forall2_impl; [done|]. intros ? ?. apply info_ok_app.
  - rewrite length_app, fmap_app, zsum_app. unfold zsum at 2. simpl. lia.
  - unfold better. destruct (pre_chief p); [by destruct (_ <? _)|done].
  - intros c. unfold better. destruct (pre_chief p) as [c0|] eqn:Hc0.
    + destruct (Hc c0 eq_refl) as (Hin & Hmin & Hall). rewrite Hmin.
      destruct (Z.ltb_spec (hi_total_duration_ps info) (hi_total_duration_ps c0)) as [Hlt|Hge]; intros [= <-].
      * split_and!; [apply elem_of_app; right; by left|done|]. apply Forall_app. split; [|by constructor].
        eapply Forall_impl; [done|]. intros x Hx. cbv beta in Hx. lia.
      * split_and!; [apply elem_of_app; by left|done|]. apply Forall_app. split; [done|by constructor].
    + intros [= <-]. specialize (Hn eq_refl). subst hosts. apply Forall2_nil_inv_r in Hi. rewrite Hi.
      split_and!; [by left|done|]. by constructor.
Qed.

Lemma precompute_run hosts :
  zsum ((fun h => Z.of_nat (length h.2)) <$> hosts) < 2 ^ 32 ->
  precomputed (PrecomputeTimespansAndFindChief hosts) hosts.
Proof.
  induction hosts as [|host hosts IH] using rev_ind; intros Hsz.
  - by split; try constructor.
  - unfold PrecomputeTimespansAndFindChief in *. rewrite foldl_app. simpl. apply precompute_host_run; [|done].
    apply IH. rewrite fmap_app, zsum_app in Hsz. unfold zsum at 2 in Hsz. simpl in Hsz. lia.
Qed.

(** *** Alignments of all hosts with the chief *)

(** Inside both sequences and, when the steps are in order and it is not empty, at the first
    offset of greatest total overlap. *)
Definition aligned (sub chief : list T) (a : StepsAlignment) : Prop :=
  0 <= begin_subordinate_idx a /\ 0 <= begin_chief_idx a /\ 0 <= num_steps a /\
  begin_subordinate_idx a + num_steps a <= Z.of_nat (length sub) /\
  begin_chief_idx a + num_steps a <= Z.of_nat (length chief) /\
  (0 < num_steps a -> ordered sub -> ordered chief -> first_max (fun k => aligned_overlap k sub chief)
    (offsets (Z.of_nat (length sub)) (Z.of_nat (length chief))) (begin_chief_idx a - begin_subordinate_idx a)).

Definition total_length (l : list T) : Z := zsum (duration_ps <$> l).

Lemma aligned_overlap_length k sub chief :
  Forall span_ok sub -> aligned_overlap k sub chief <= total_length sub.
Proof.
  intros Hok. revert k. induction Hok as [|s sub Hs Hok IH]; intros k; [done|].
  unfold total_length, zsum in *. rewrite fmap_cons. cbn [aligned_overlap foldr]. specialize (IH (k + 1)).
  enough (nth_overlap k s chief <= duration_ps s) by lia. pose proof (duration_ps_u64 s).
  unfold nth_overlap. destruct (k <? 0); [lia|]. destruct (chief !! Z.to_nat k); [by apply overlap_bound|lia].
Qed.

Lemma aligned_overlap_self l : ordered l -> aligned_overlap 0 l l = total_length l.
Proof.
  induction l as [|s l IH]; intros Hord; [done|]. apply ordered_cons in Hord as (Hs & Hord & Hss).
  unfold total_length, zsum in *. rewrite fmap_cons. cbn [aligned_overlap foldr].
  rewrite aligned_overlap_column.
  - change (0 + 1 - 1) with 0. rewrite (IH Hord). f_equal. unfold nth_overlap, overlap_ps. simpl.
    rewrite Z.max_id, Z.min_id, (span_end s) by done. pose proof (duration_ps_u64 s).
    destruct (Z.ltb_spec (begin_ps s) (begin_ps s + duration_ps s)); lia.
  - intros x Hx. destruct (Hss x Hx) as [Hb Hx']. destruct (decide (duration_ps s = 0)) as [Hz|Hz].
    + apply overlap_empty; auto.
    + rewrite overlap_comm. pose proof (duration_ps_u64 s). apply (overlap_before s s); [done|done|lia|done|done].
Qed.

Lemma aligned_self l : aligned l l (mk_alignment 0 0 (Z.of_nat (length l))).
Proof.
  unfold aligned. simpl. split_and!; [lia..|]. intros Hpos Hord _. destruct l as [|s l]; [simpl in Hpos; lia|].
  exists [], (seqZ 1 (Z.of_nat (length l)) ++ (Z.opp <$> seqZ 1 (Z.of_nat (length (s :: l)) - 1))). split_and!.
  - unfold offsets. rewrite (seqZ_cons 0) by (simpl; lia).
    by replace (Z.pred (Z.of_nat (length (s :: l)))) with (Z.of_nat (length l)) by (simpl length; lia).
  - by intros x ?%not_elem_of_nil.
  - intros k _. rewrite Z.sub_0_r, aligned_overlap_self by done. apply aligned_overlap_length, Hord.
Qed.

Lemma align_host_run all chief info ch h :
  info_ok all chief ch -> info_ok all info h -> (h.1 = ch.1 -> h = ch) -> ch.2 <> [] ->
  Z.of_nat (length h.2) + Z.of_nat (length ch.2) < 2 ^ 32 ->
  exists a, align_host all chief info = Some a /\ aligned (spans_of_db h.2) (spans_of_db ch.2) a /\
    (h.1 = ch.1 -> begin_subordinate_idx a = begin_chief_idx a).
Proof.
  intros (C1 & C2 & C3 & C4 & C5 & _ & C7) (I1 & I2 & I3 & I4 & I5 & _ & I7) Hid Hne Hsz.
  assert (forall db, length (spans_of_db db) = length db) as Hlen by (intros; apply length_fmap).
  assert (length ch.2 <> 0%nat) by (by destruct ch.2).
  unfold align_host. rewrite I1, C1, I5, C5, I7, C7. destruct (Z.eqb_spec h.1 ch.1) as [Heq|Hneq].
  - rewrite (Hid Heq) in *. eexists. split; [done|]. split; [|done]. rewrite <- (Hlen ch.2). apply aligned_self.
  - destruct (decide (h.2 = [])) as [Hnil|Hnil].
    + rewrite Hnil. unfold FindStepsAlignment. simpl. eexists. split; [done|]. unfold aligned. simpl. split_and!; (lia || done).
    + destruct (steps_alignment_run (spans_of_db h.2) (spans_of_db ch.2)) as (a & Ha & Hok & Hmax);
        [by intros ?%fmap_nil_inv|by intros ?%fmap_nil_inv|by rewrite !Hlen|].
      exists a. rewrite !Hlen in Ha. assert (length h.2 <> 0%nat) by (by destruct h.2).
      replace (Z.to_nat (u32 _)) with (length h.2 + length ch.2 - 1)%nat by (rewrite wrap_small; lia).
      split; [done|]. unfold alignment_ok in Hok. unfold aligned. rewrite !Hlen in *. split_and!; (lia || done).
Qed.

Lemma align_loop_run all chief ch infos hosts al mb me :
  Forall2 (info_ok all) infos hosts -> info_ok all chief ch -> ch.2 <> [] -> NoDup hosts.*1 ->
  Forall (fun h => (h.1 = ch.1 -> h = ch) /\ Z.of_nat (length h.2) + Z.of_nat (length ch.2) < 2 ^ 32) hosts ->
  0 <= mb -> 0 <= me ->
  exists al' mb' me', AlignStepsWithChief all chief infos (al, mb, me) = Some (al', mb', me') /\
    mb <= mb' /\ 0 <= me' <= me /\ (forall k, k ∉ hosts.*1 -> al' !! k = al !! k) /\
    forall h, h ∈ hosts -> exists a, al' !! h.1 = Some a /\ aligned (spans_of_db h.2) (spans_of_db ch.2) a /\
      (h.1 = ch.1 -> begin_subordinate_idx a = begin_chief_idx a) /\
      begin_chief_idx a <= mb' /\ me' <= begin_chief_idx a + num_steps a.
Proof.
  intros HF Hch Hne. revert al mb me. induction HF as [|info h infos hosts Hinfo HF IH]; intros al mb me Hnd Hall Hmb Hme.
  { exists al, mb, me. simpl. split_and!; [done|lia..|done|]. by intros h ?%not_elem_of_nil. }
  rewrite fmap_cons in Hnd. apply NoDup_cons in Hnd as [Hnin Hnd]. apply Forall_cons in Hall as [(Hid & Hsz) Hall].
  destruct (align_host_run all chief info ch h) as (a & Ha & Hal & Hown); [done..|].
  pose proof Hal as (A1 & A2 & A3 & A4 & A5 & _). unfold spans_of_db in A4, A5. rewrite length_fmap in A4, A5.
  destruct (IH (<[hi_host_id info := a]> al) (Z.max mb (begin_chief_idx a)) (Z.min me (begin_chief_idx a + num_steps a)))
    as (al' & mb' & me' & Hrun & Hmb' & Hme' & Hother & Hhosts); [done|done|lia|lia|].
  exists al', mb', me'. cbn [AlignStepsWithChief]. rewrite Ha. cbn [mbind option_bind]. rewrite wrap_small by lia.
  destruct Hinfo as (Hinfo & _). rewrite Hinfo in *. split_and!; [done|lia..| |].
  - intros k Hk. rewrite fmap_cons, not_elem_of_cons in Hk. rewrite Hother by apply Hk.
    rewrite lookup_insert_ne; [done|]. destruct Hk as [Hk _]. congruence.
  - intros x [->|Hx]%elem_of_cons; [|by apply Hhosts]. exists a. rewrite (Hother h.1) by done.
    rewrite lookup_insert_eq. split_and!; [done|done|done|lia|lia].
Qed.
End hosts.

(** ** Results *)

Section results.
Context {T : Type} `{!Timespan T}.
Implicit Types (sub chief : list T) (hosts : list (Z * StepDatabaseResult)).

(** C29. The single pass over two step sequences, the subordinate one not empty, of fewer than
    2^31 steps in all never leaves the vector of similarities. When the steps of each sequence do
    not overlap and are in order of time, it computes for every offset the same total overlap as
    the reference that pairs subordinate step [i] with chief step [i + k], and the totals do not
    overflow. *)
Theorem similarities_equal_reference sub chief :
  sub <> [] -> Z.of_nat (length sub) + Z.of_nat (length chief) < 2 ^ 31 ->
  exists sim, CalculateSimilarities sub chief (replicate (length sub + length chief - 1) 0) = Some sim /\
    length sim = (length sub + length chief - 1)%nat /\
    (ordered sub -> ordered chief -> forall k, - Z.of_nat (length sub) < k < Z.of_nat (length chief) ->
      sim !! Z.to_nat (k + (Z.of_nat (length sub) - 1)) = Some (aligned_overlap k sub chief)).
Proof.
  intros Hne Hsz. assert (length sub <> 0%nat) by (by destruct sub).
  destruct (similarities_total sub chief) as (sim & Hrun & Hlen); [lia|]. exists sim. split_and!; [done|done|]. intros Hos Hoc k Hk.
  destruct (similarities_run sub chief) as (sim' & Hrun' & _ & Hval); [done|done|lia|lia|].
  rewrite Hrun in Hrun'. injection Hrun' as <-. rewrite Hval by done. rewrite wrap_small; [done|].
  destruct (aligned_overlap_bound k sub chief 0); [done|lia| |lia]. intros s _ _. apply begin_ps_u64.
Qed.

(** C28. [FindStepsAlignment] of two non-empty sequences of fewer than 2^31 steps in all returns an
    alignment that lies inside both sequences, begins at the first step of one of them and is as long
    as possible. When the steps of each sequence do not overlap and are in order of time, it is the
    alignment at the offset of greatest total overlap, the first such in the order 0, 1, ..., -1, -2,
    ... *)
Theorem steps_alignment_optimal sub chief :
  sub <> [] -> chief <> [] -> Z.of_nat (length sub) + Z.of_nat (length chief) < 2 ^ 31 ->
  exists a, FindStepsAlignment sub chief (replicate (length sub + length chief - 1) 0) = Some a /\
    alignment_ok (Z.of_nat (length sub)) (Z.of_nat (length chief)) a /\
    (ordered sub -> ordered chief ->
     first_max (fun k => aligned_overlap k sub chief) (offsets (Z.of_nat (length sub)) (Z.of_nat (length chief)))
      (begin_chief_idx a - begin_subordinate_idx a)).
Proof. intros. apply steps_alignment_run; [done|done|lia]. Qed.

Lemma final_bounds ms mb me al (chief_id : Z) x :
  0 <= ms < 2 ^ 32 -> 0 <= mb -> 0 <= me < 2 ^ 32 ->
  x = ComputeFinalBounds ms mb me (mk_intersection al chief_id 0 false 0 0) ->
  perhost_alignment_ x = al /\ chief_host_id_ x = chief_id /\ 0 <= NumSteps x <= ms /\
  (0 < NumSteps x -> begin_chief_idx_ x = mb /\ mb + NumSteps x + steps_dropped_ x = me /\
    0 <= steps_dropped_ x /\ mb < me).
Proof.
  intros Hms Hmb Hme ->. unfold ComputeFinalBounds. destruct (Z.ltb_spec me mb).
  { change (NumSteps _) with 0. split_and!; try done. lia. }
  rewrite (wrap_small 32 (me - mb)) by lia. destruct (Z.ltb_spec ms (me - mb)); unfold NumSteps; simpl.
  - rewrite (wrap_small 32 (mb + ms)), (wrap_small 32 (me - mb - ms)), (wrap_small 32 (mb + ms - mb)) by lia.
    split_and!; [done|done|lia|lia|]. intros. split_and!; lia.
  - rewrite wrap_small by lia. split_and!; [done|done|lia|lia|]. intros. split_and!; lia.
Qed.

Lemma zsum_elem hosts h : h ∈ hosts -> Z.of_nat (length h.2) <= zsum ((fun h => Z.of_nat (length h.2)) <$> hosts).
Proof.
  induction hosts as [|x hosts IH]; [by intros ?%not_elem_of_nil|]. pose proof (zsum_lengths_nonneg hosts).
  rewrite fmap_cons. unfold zsum in *. cbn [foldr]. intros [->|Hh]%elem_of_cons; [lia|]. specialize (IH Hh). lia.
Qed.

Lemma same_host hosts h h' : NoDup hosts.*1 -> h ∈ hosts -> h' ∈ hosts -> h.1 = h'.1 -> h = h'.
Proof.
  intros Hnd [i Hi]%list_elem_of_lookup_1 [j Hj]%list_elem_of_lookup_1 Heq.
  assert (i = j) as ->; [|congruence].
  apply (NoDup_lookup hosts.*1 i j h.1 Hnd); rewrite list_lookup_fmap; [by rewrite Hi|].
  rewrite Hj. simpl. by rewrite Heq.
Qed.

(** The chief that the first pass finds. *)
Lemma chief_found hosts :
  hosts <> [] -> zsum ((fun h => Z.of_nat (length h.2)) <$> hosts) < 2 ^ 32 ->
  exists (c : HostInfo) ch, pre_chief (T := T) (PrecomputeTimespansAndFindChief hosts) = Some c /\ ch ∈ hosts /\
    info_ok (T := T) (pre_spans (PrecomputeTimespansAndFindChief hosts)) c ch /\
    forall h, h ∈ hosts -> total_duration (spans_of_db ch.2 : list T) <= total_duration (spans_of_db h.2 : list T).
Proof.
  intros Hne Hsz. destruct (precompute_run (T := T) hosts Hsz) as [Hinfos _ Hnone Hsome].
  destruct (pre_chief _) as [chief|]; [|by rewrite Hnone in Hne].
  destruct (Hsome chief eq_refl) as (Hin & _ & Hshort). rewrite Forall_forall in Hshort.
  apply list_elem_of_lookup_1 in Hin as [i Hi].
  destruct (Forall2_lookup_l _ _ _ _ _ Hinfos Hi) as (ch & Hch & Hchief). exists chief, ch.
  split_and!; [done|by eapply list_elem_of_lookup_2|done|]. intros h [j Hj]%list_elem_of_lookup_1.
  destruct (Forall2_lookup_r _ _ _ _ _ Hinfos Hj) as (info & Hinf & Hok). apply list_elem_of_lookup_2 in Hinf.
  specialize (Hshort info Hinf). destruct Hok as (_ & _ & _ & _ & _ & <- & _), Hchief as (_ & _ & _ & _ & _ & <- & _). done.
Qed.

(** The first step of a host, from its alignment. *)
Lemma first_step_index h a x mb :
  perhost_alignment_ x !! h = Some a -> begin_chief_idx_ x = mb ->
  0 <= begin_subordinate_idx a -> 0 <= begin_chief_idx a <= mb -> 0 <= num_steps a ->
  begin_subordinate_idx a + mb < 2 ^ 32 ->
  FirstStepIndex h x = begin_subordinate_idx a + (mb - begin_chief_idx a).
Proof.
  intros Ha Hb ????. unfold FirstStepIndex. rewrite Ha, Hb.
  rewrite (wrap_small 32 (mb - begin_chief_idx a)), wrap_small; lia.
Qed.

(** C36. The constructor returns for one or more hosts with distinct ids and fewer than 2^31 steps
    in all. The chief is a host of shortest duration; there are at most [max_steps] steps; and
    when there are any, on every host the steps from [FirstStepIndex] on exist. When the steps of
    a host and those of the chief do not overlap and are in order of time, they lie at the offset
    of greatest overlap with the chief. *)
Theorem intersection_common_steps max_steps hosts :
  hosts <> [] -> NoDup hosts.*1 ->
  zsum ((fun h => Z.of_nat (length h.2)) <$> hosts) < 2 ^ 31 -> 0 <= max_steps < 2 ^ 32 ->
  exists x ch, StepIntersection_new (T := T) max_steps hosts = Some x /\
    ch ∈ hosts /\ chief_host_id_ x = ch.1 /\
    (forall h, h ∈ hosts -> total_duration (spans_of_db ch.2 : list T) <= total_duration (spans_of_db h.2 : list T)) /\
    0 <= NumSteps x <= max_steps /\
    (0 < NumSteps x -> FirstStepIndex ch.1 x = begin_chief_idx_ x /\ forall h, h ∈ hosts ->
      0 <= FirstStepIndex h.1 x /\ FirstStepIndex h.1 x + NumSteps x <= Z.of_nat (length h.2) /\
      (ordered (spans_of_db h.2 : list T) -> ordered (spans_of_db ch.2 : list T) ->
       first_max (fun k => aligned_overlap k (spans_of_db h.2 : list T) (spans_of_db ch.2))
        (offsets (Z.of_nat (length h.2)) (Z.of_nat (length ch.2)))
        (FirstStepIndex ch.1 x - FirstStepIndex h.1 x))).
Proof.
  intros Hne Hnd Hsz Hms.
  destruct (chief_found hosts) as (chief & ch & Hsome & Hchin & Hchief & Hmin); [done|lia|].
  destruct (precompute_run (T := T) hosts) as [Hinfos _ _ _]; [lia|].
  pose proof Hchief as (Hcid & _ & _ & _ & Hcnt & _).
  assert (forall h, h ∈ hosts -> Z.of_nat (length h.2) < 2 ^ 31) as Hlen.
  { intros h Hh. pose proof (zsum_elem hosts h Hh). lia. }
  unfold StepIntersection_new. rewrite Hsome, Hcnt.
  destruct (Z.eqb_spec (Z.of_nat (length ch.2)) 0) as [Hz|Hz].
  { exists (mk_intersection ∅ (hi_host_id chief) 0 false 0 0), ch. split; [done|].
    change (NumSteps _) with 0. split_and!; try done; lia. }
  destruct (align_loop_run (pre_spans (PrecomputeTimespansAndFindChief hosts)) chief ch
    (pre_hosts (PrecomputeTimespansAndFindChief hosts)) hosts ∅ 0 UINT32_MAX)
    as (al & mb & me & Hrun & Hmb & Hme & _ & Hhosts); try done; [by intros Hnil; rewrite Hnil in Hz| |].
  { apply Forall_forall. intros h Hh. split; [by apply (same_host hosts)|].
    pose proof (Hlen h Hh). pose proof (Hlen ch Hchin). lia. }
  rewrite Hrun. simpl. eexists _, ch. split; [done|]. unfold UINT32_MAX in Hme.
  destruct (final_bounds max_steps mb me al (hi_host_id chief) _ Hms Hmb ltac:(lia) eq_refl) as (Hal & Hc & Hn & Hpos).
  set (x := ComputeFinalBounds _ _ _ _) in *. split_and!; try done; [congruence|lia|lia|].
  intros HN. destruct (Hpos HN) as (Hbeg & Hsum & Hdrop & Hlt). rewrite Hbeg.
  assert (forall h, h ∈ hosts -> exists a, aligned (spans_of_db h.2 : list T) (spans_of_db ch.2) a /\
    FirstStepIndex h.1 x = begin_subordinate_idx a + (mb - begin_chief_idx a) /\
    (h.1 = ch.1 -> begin_subordinate_idx a = begin_chief_idx a) /\ begin_chief_idx a <= mb /\ me <= begin_chief_idx a + num_steps a) as Hfirst.
  { intros h Hh. destruct (Hhosts h Hh) as (a & Hla & Ha & Hown & Hb1 & Hb2). exists a. split_and!; try done.
    pose proof (Hlen h Hh). pose proof (Hlen ch Hchin).
    destruct Ha as (A1 & A2 & A3 & A4 & A5 & _). unfold spans_of_db in A4, A5. rewrite length_fmap in A4, A5.
    apply first_step_index; [by rewrite Hal|done|lia..]. }
  assert (FirstStepIndex ch.1 x = mb) as Hch0.
  { destruct (Hfirst ch Hchin) as (a & _ & -> & Hown & _). specialize (Hown eq_refl). lia. }
  split; [done|]. intros h Hh. destruct (Hfirst h Hh) as (a & (A1 & A2 & A3 & A4 & A5 & Hmax) & Hfi & _ & ? & ?).
  unfold spans_of_db in A4, A5. rewrite length_fmap in A4, A5. rewrite Hch0, Hfi. split_and!; [lia|lia|].
  intros Hoh Hoc. specialize (Hmax ltac:(lia) Hoh Hoc). unfold spans_of_db in Hmax at 3 4. rewrite !length_fmap in Hmax.
  by replace (mb - (begin_subordinate_idx a + (mb - begin_chief_idx a)))
    with (begin_chief_idx a - begin_subordinate_idx a) by lia.
Qed.
End results.

(** ** The timespan of a step *)

Section step_timespan.
Context {T : Type} `{!Timespan T}.

Definition stepinfo_ok (s : StepInfo) : Prop :=
  0 <= si_begin_ps s /\ 0 <= si_duration_ps s /\ si_begin_ps s + si_duration_ps s < 2 ^ 64.

Lemma min_max_fold (l : list (Z * StepInfo)) mn mx a b :
  Forall (fun ks => stepinfo_ok ks.2) l ->
  foldl (fun '(min_ps, max_ps) '(_, s) =>
    (Z.min min_ps (si_begin_ps s), Z.max max_ps (u64 (si_begin_ps s + si_duration_ps s)))) (mn, mx) l = (a, b) ->
  a <= mn /\ mx <= b /\
  (forall ks, ks ∈ l -> a <= si_begin_ps ks.2 /\ si_begin_ps ks.2 + si_duration_ps ks.2 <= b) /\
  (a = mn \/ exists ks, ks ∈ l /\ a = si_begin_ps ks.2) /\
  (b = mx \/ exists ks, ks ∈ l /\ b = si_begin_ps ks.2 + si_duration_ps ks.2).
Proof.
  intros Hok. revert mn mx. induction Hok as [|[k s] l (H1 & H2 & H3) Hok IH]; intros mn mx Hf; simpl in *.
  { injection Hf as <- <-. split_and!; [done|done|by intros ? ?%not_elem_of_nil|by left|by left]. }
  rewrite wrap_small in Hf by lia. destruct (IH _ _ Hf) as (Ha & Hb & Hall & Hina & Hinb). split_and!; [lia|lia| | |].
  - intros ks [->|Hks]%elem_of_cons; [simpl; lia|auto].
  - destruct Hina as [->|(ks & ? & ?)]; [|right; exists ks; split; [by right|done]].
    destruct (Z.min_spec mn (si_begin_ps s)) as [[? ->]|[? ->]]; [by left|right]. exists (k, s). split; [by left|done].
  - destruct Hinb as [->|(ks & ? & ?)]; [|right; exists ks; split; [by right|done]].
    destruct (Z.max_spec mx (si_begin_ps s + si_duration_ps s)) as [[? ->]|[? ->]]; [right|by left].
    exists (k, s). split; [by left|done].
Qed.

(** The timespan of a step starts with its first core and ends with its last one;
    it is empty when the step is empty on every core. *)
Theorem step_timespan_covers_cores (step : PerCoreStepInfo) :
  map_Forall (fun _ => stepinfo_ok) step -> step <> ∅ ->
  span_ok (StepTimespan (T := T) step) /\
  ((exists k s, step !! k = Some s /\ 0 < si_duration_ps s) ->
    (forall k s, step !! k = Some s -> begin_ps (StepTimespan (T := T) step) <= si_begin_ps s /\
      si_begin_ps s + si_duration_ps s <= end_ps (StepTimespan (T := T) step)) /\
    (exists k s, step !! k = Some s /\ begin_ps (StepTimespan (T := T) step) = si_begin_ps s) /\
    (exists k s, step !! k = Some s /\ end_ps (StepTimespan (T := T) step) = si_begin_ps s + si_duration_ps s)).
Proof.
  intros Hok Hne. assert (forall k s, step !! k = Some s <-> (k, s) ∈ map_to_list step) as Hin
    by (intros; by rewrite elem_of_map_to_list).
  assert (Forall (fun ks => stepinfo_ok ks.2) (map_to_list step)) as HF.
  { apply Forall_forall. intros [k s] Hks. apply (Hok k s). by apply Hin. }
  setoid_rewrite Hin. clear Hok Hin. unfold StepTimespan.
  destruct (map_to_list step) as [|[k0 s0] [|ks1 l]] eqn:Hl; [by apply map_to_list_empty_iff in Hl| |].
  { apply Forall_singleton in HF as (H1 & H2 & H3). simpl in *. rewrite wrap_small by lia.
    destruct (FromEndPoints_ok (T := T) (si_begin_ps s0) (si_begin_ps s0 + si_duration_ps s0)) as (-> & _ & -> & ?); [lia|lia|].
    split; [done|]. intros _. split_and!.
    - intros k s [= -> ->]%list_elem_of_singleton. lia.
    - exists k0, s0. split; [by left|done].
    - exists k0, s0. split; [by left|done]. }
  set (l' := (k0, s0) :: ks1 :: l) in *. clearbody l'. destruct (foldl _ _ l') as [a b] eqn:Hf.
  destruct (min_max_fold l' UINT64_MAX 0 a b HF Hf) as (Ha & Hb & Hall & Hina & Hinb).
  assert (0 <= a /\ b < 2 ^ 64) as [Ha0 Hb1].
  { rewrite Forall_forall in HF. split.
    - destruct Hina as [->|(ks & Hks & ->)]; [done|]. by apply (HF ks Hks).
    - destruct Hinb as [->|(ks & Hks & ->)]; [done|]. by apply (HF ks Hks). }
  destruct (Z.ltb_spec a b) as [Hlt|Hge].
  - destruct (FromEndPoints_ok (T := T) a b) as (-> & _ & -> & ?); [lia|lia|]. split; [done|]. intros (k & s & Hks & Hpos).
    split_and!; [intros k' s' Hk'; by apply (Hall (k', s'))| |].
    + destruct Hina as [->|([k' s'] & Hks' & ->)]; [unfold UINT64_MAX in *; lia|eauto].
    + destruct Hinb as [->|([k' s'] & Hks' & ->)]; [lia|eauto].
  - split; [unfold span_ok; rewrite ts_default_begin, ts_default_duration; lia|].
    intros (k & s & Hks & Hpos). specialize (Hall (k, s) Hks). simpl in Hall. lia.
Qed.
End step_timespan.

(** ** Concrete hosts *)

Definition one_core (b d : Z) : PerCoreStepInfo := {[ 0 := mk_stepinfo b d ]}.

Definition sample_hosts : list (Z * StepDatabaseResult) :=
  [(1, [one_core 0 10; one_core 10 10; one_core 20 10]); (2, [one_core 11 9; one_core 20 9])].

Lemma intersection_common_steps_witness :
  exists x ch, StepIntersection_new (T := pair_span) 10 sample_hosts = Some x /\ ch ∈ sample_hosts /\
    chief_host_id_ x = ch.1.
Proof.
  destruct (intersection_common_steps (T := pair_span) 10 sample_hosts) as (x & ch & H1 & H2 & H3 & _).
  - done.
  - repeat constructor; set_solver.
  - vm_compute. reflexivity.
  - lia.
  - exists x, ch. split; [exact H1|]. split; [exact H2|exact H3].
Defined.

(** Host 2 is the chief; its two steps are the last two of host 1. *)
Example sample_intersection :
  (fun x => (chief_host_id_ x, NumSteps x, FirstStepIndex 1 x, FirstStepIndex 2 x))
    <$> StepIntersection_new (T := pair_span) 10 sample_hosts = Some (2, 2, 1, 0).
Proof. vm_compute. reflexivity. Qed.

Definition sample_sub : list pair_span := [(0, 10); (10, 10); (20, 10)].
Definition sample_chief : list pair_span := [(11, 9); (20, 9)].

Lemma sample_ordered : ordered sample_sub /\ ordered sample_chief.
Proof.
  split; repeat constructor; try (vm_compute; reflexivity); by (intros _ _; vm_compute; discriminate).
Qed.

Lemma similarities_equal_reference_witness :
  exists sim, CalculateSimilarities sample_sub sample_chief (replicate 4 0) = Some sim /\
    sim !! 1%nat = Some (aligned_overlap (-1) sample_sub sample_chief).
Proof.
  destruct (similarities_equal_reference sample_sub sample_chief) as (sim & H1 & _ & H2); [done|simpl; lia|].
  exists sim. split; [exact H1|]. apply (H2 (proj1 sample_ordered) (proj2 sample_ordered) (-1)). simpl. lia.
Defined.

Lemma steps_alignment_optimal_witness :
  exists a, FindStepsAlignment sample_sub sample_chief (replicate 4 0) = Some a /\ alignment_ok 3 2 a.
Proof.
  destruct (steps_alignment_optimal sample_sub sample_chief) as (a & H1 & H2 & _); [done|done|simpl; lia|]. exists a. split; [exact H1|exact H2].
Defined.

Lemma step_timespan_covers_cores_witness : span_ok (StepTimespan (T := pair_span) (one_core 5 7)).
Proof.
  apply (step_timespan_covers_cores (T := pair_span) (one_core 5 7)).
  - unfold one_core. intros k s Hk. apply lookup_singleton_Some in Hk as [_ <-]. unfold stepinfo_ok. simpl. lia.
  - apply map_non_empty_singleton.
Defined.

(** Three hosts with steps but without a common one: [NumSteps] is 0, yet
    [empty_intersect_], which should tell this case apart from hosts without steps,
    stays false, because the greatest begin equals the least end. *)
Theorem empty_intersection_not_flagged :
  (fun x => (NumSteps x, empty_intersect_ x)) <$> StepIntersection_new (T := pair_span) 10
    [(1, [one_core 0 10; one_core 10 10; one_core 20 10; one_core 30 10]);
     (2, [one_core 0 10; one_core 10 50]); (3, [one_core 20 10; one_core 30 60])] = Some (0, false).
Proof. vm_compute. reflexivity. Qed.

(** Steps that overlap, as those of several cores can: the single pass moves on from the step that
    ends first and misses overlaps with the steps behind it. The best offset is then not found: here
    the pass sees 10 at offset 1 and less at offset 0, where the steps overlap by 15. *)
Definition crossing_sub : list pair_span := [(6, 10); (9, 12); (13, 10)].
Definition crossing_chief : list pair_span := [(4, 10); (6, 10)].

Theorem overlapping_steps_misaligned :
  FindStepsAlignment crossing_sub crossing_chief (replicate 4 0) = Some (mk_alignment 0 1 1) /\
  aligned_overlap 1 crossing_sub crossing_chief = 10 /\ aligned_overlap 0 crossing_sub crossing_chief = 15.
Proof. vm_compute. done. Qed.

(** Two equal sequences: the overlap of 5 at offset 1 is counted as 0. *)
Theorem overlapping_steps_missed :
  CalculateSimilarities ([(0, 15); (10, 15)] : list pair_span) [(0, 15); (10, 15)] (replicate 3 0) = Some [0; 30; 0] /\
  aligned_overlap 1 ([(0, 15); (10, 15)] : list pair_span) [(0, 15); (10, 15)] = 5.
Proof. vm_compute. done. Qed.
