(* ===== verification/DutyCycle.v ===== *)
(** The duty cycle of a core (xprof/convert/duty_cycle_tracker.{h,cc},
    duty_cycle_combiner.h): the disjoint intervals of time at which a core was
    active, kept in an ordered set and merged as intervals arrive, and their totals
    over cores and chips. *)
From Stdlib Require Import ZArith Lia.
From stdpp Require Import base list gmap sorting.
From S2P Require Import Prelude Timespan.
Local Open Scope Z_scope.

Section tracker.
Context {T : Type} `{!Timespan T, !TimespanOps T}.
Implicit Types (s : list T) (t a : T).

(** ** The ordered set

    absl::btree_set with the comparator of the tracker: a list in its order; an
    iterator is a position, [end()] is the length. *)
Definition TimespanComparator (a b : T) : bool :=
  (begin_ps a <? begin_ps b)
  || ((begin_ps a =? begin_ps b) && (duration_ps b <? duration_ps a)).

(** Steps an iterator makes over elements that satisfy [P]. *)
Fixpoint advance (P : T -> bool) (l : list T) : nat :=
  match l with
  | a :: l' => if P a then S (advance P l') else 0%nat
  | [] => 0%nat
  end.

Definition set_lower_bound (x : T) (s : list T) : nat := advance (fun a => TimespanComparator a x) s.

(** [insert]: nothing happens when an equivalent element is there. *)
Definition set_insert (x : T) (s : list T) : list T * nat :=
  let i := set_lower_bound x s in
  if match s !! i with Some a => negb (TimespanComparator x a) | None => false end then (s, i)
  else (take i s ++ x :: drop i s, i).

Definition set_erase (i j : nat) (s : list T) : list T := take i s ++ drop j s.

(** ** The tracker *)

Record DutyCycleTracker := mk_tracker { active_time_spans_ : list T; total_time_span_ : T }.

Definition duty_tracker_new : DutyCycleTracker := mk_tracker [] ts_default.

Definition MergeOrInsert (timespan : T) (hint : nat) (s : list T) : list T * nat :=
  let merge_begin :=
    (hint + advance (fun a => (end_ps a <? begin_ps timespan)%Z) (drop hint s))%nat in
  if match s !! merge_begin with Some a => ts_Includes a timespan | None => false end
  then (s, merge_begin)
  else
    let merge_end :=
      (merge_begin + advance (fun a => (begin_ps a <=? end_ps timespan)%Z) (drop merge_begin s))%nat in
    if decide (merge_begin = merge_end) then set_insert timespan s
    else match s !! merge_begin, s !! (merge_end - 1)%nat with
         | Some first, Some last =>
             let merged := FromEndPoints (Z.min (begin_ps timespan) (begin_ps first))
                             (Z.max (end_ps timespan) (end_ps last)) in
             set_insert merged (set_erase merge_begin merge_end s)
         | _, _ => (s, merge_begin)
         end.

(** The position before the lower bound, where the search begins. *)
Definition search_from (x : T) (s : list T) : nat := (set_lower_bound x s - 1)%nat.

Definition AddInterval (time_span : T) (is_active : bool) (d : DutyCycleTracker) : DutyCycleTracker :=
  let total := ts_ExpandToInclude (total_time_span_ d) time_span in
  if negb is_active then mk_tracker (active_time_spans_ d) total
  else
    let hint := search_from time_span (active_time_spans_ d) in
    mk_tracker (MergeOrInsert time_span hint (active_time_spans_ d)).1 total.

(** The loop of [Union] with the iterator it threads. *)
Fixpoint union_loop (others : list T) (hint : nat) (s : list T) : list T :=
  match others with
  | [] => s
  | interval :: others' =>
      let '(s', hint') := MergeOrInsert interval hint s in union_loop others' hint' s'
  end.

Definition Union (other d : DutyCycleTracker) : DutyCycleTracker :=
  let total := ts_ExpandToInclude (total_time_span_ d) (total_time_span_ other) in
  match active_time_spans_ other with
  | [] => mk_tracker (active_time_spans_ d) total
  | first :: _ =>
      mk_tracker (union_loop (active_time_spans_ other) (search_from first (active_time_spans_ d))
                    (active_time_spans_ d)) total
  end.

Definition GetActiveTimePs (d : DutyCycleTracker) : Z :=
  foldl (fun acc a => u64 (acc + duration_ps a)) 0 (active_time_spans_ d).
Definition GetIdleTimePs (d : DutyCycleTracker) : Z :=
  u64 (duration_ps (total_time_span_ d) - GetActiveTimePs d).
Definition GetDurationPs (d : DutyCycleTracker) : Z := duration_ps (total_time_span_ d).

(** ** The combiner *)

Record DutyCycleCombiner := mk_combiner {
  chip_duty_cycle_trackers_ : gmap Z DutyCycleTracker;
  chip_active_time_ps_ : Z;
  chip_idle_time_ps_ : Z
}.

Definition combiner_new : DutyCycleCombiner := mk_combiner ∅ 0 0.

Definition CombineCore (core_tracker : DutyCycleTracker) (chip_id : Z) (c : DutyCycleCombiner) :
    DutyCycleCombiner :=
  let chip := default duty_tracker_new (chip_duty_cycle_trackers_ c !! chip_id) in
  mk_combiner (<[chip_id := Union core_tracker chip]> (chip_duty_cycle_trackers_ c))
    (chip_active_time_ps_ c) (chip_idle_time_ps_ c).

Definition CombineChip (chip_tracker : DutyCycleTracker) (c : DutyCycleCombiner) : DutyCycleCombiner :=
  mk_combiner (chip_duty_cycle_trackers_ c)
    (u64 (chip_active_time_ps_ c + GetActiveTimePs chip_tracker))
    (u64 (chip_idle_time_ps_ c + GetIdleTimePs chip_tracker)).

Definition GetTotalActiveTimePs (c : DutyCycleCombiner) : Z :=
  map_fold (fun _ d acc => u64 (acc + GetActiveTimePs d)) (chip_active_time_ps_ c)
    (chip_duty_cycle_trackers_ c).
Definition GetTotalIdleTimePs (c : DutyCycleCombiner) : Z :=
  map_fold (fun _ d acc => u64 (acc + GetIdleTimePs d)) (chip_idle_time_ps_ c)
    (chip_duty_cycle_trackers_ c).

(** ** Well-formed sets and what they cover *)

Definition before (a b : T) : Prop := end_ps a < begin_ps b.
Definition spans_wf s : Prop := StronglySorted before s /\ Forall span_ok s.

(** Some span of the set contains the instant. *)
Definition active s (x : Z) : bool := existsb (fun a => covers a x) s.

Lemma active_app s s' x : active (s ++ s') x = active s x || active s' x.
Proof. apply existsb_app. Qed.

Lemma active_cons a s x : active (a :: s) x = covers a x || active s x.
Proof. done. Qed.

Lemma advance_spec P l :
  Forall (fun a => P a = true) (take (advance P l) l) /\
  match drop (advance P l) l with a :: _ => P a = false | [] => True end.
Proof.
  induction l as [|a l [IH1 IH2]]; simpl; [done|]. destruct (P a) eqn:Ha; simpl; [|done].
  split; [by constructor|done].
Qed.

Lemma advance_le P l : (advance P l <= length l)%nat.
Proof. induction l as [|a l IH]; simpl; [lia|]. destruct (P a); lia. Qed.

Lemma advance_app P l k :
  Forall (fun a => P a = true) l -> advance P (l ++ k) = (length l + advance P k)%nat.
Proof. induction 1 as [|a l Ha _ IH]; simpl; [done|]. by rewrite Ha, IH. Qed.

Lemma span_le t : span_ok t -> begin_ps t <= end_ps t < 2 ^ 64.
Proof.
  intros Ht. rewrite span_end by done. unfold span_ok in Ht.
  pose proof (duration_ps_u64 t). lia.
Qed.

Lemma before_wf_app s s' :
  spans_wf (s ++ s') <-> spans_wf s /\ spans_wf s' /\ forall a b, a ∈ s -> b ∈ s' -> before a b.
Proof. unfold spans_wf. rewrite Forall_app, StronglySorted_app. naive_solver. Qed.

(** An element that comes after [l] and strictly before [k] goes between them. *)
Lemma set_insert_at x l k :
  Forall (fun a => begin_ps a < begin_ps x) l ->
  match k with b :: _ => begin_ps x < begin_ps b | [] => True end ->
  set_insert x (l ++ k) = (l ++ x :: k, length l).
Proof.
  intros Hl Hk. unfold set_insert, set_lower_bound.
  rewrite advance_app by (eapply Forall_impl; [exact Hl|]; intros a ?; unfold TimespanComparator;
    simpl; rewrite (proj2 (Z.ltb_lt _ _)) by done; done).
  assert (advance (fun a => TimespanComparator a x) k = 0%nat) as ->.
  { destruct k as [|b k]; simpl; [done|]. unfold TimespanComparator.
    rewrite (proj2 (Z.ltb_ge _ _)), (proj2 (Z.eqb_neq _ _)) by lia. done. }
  rewrite Nat.add_0_r, take_app_length, drop_app_length.
  rewrite lookup_app_r, Nat.sub_diag by lia. destruct k as [|b k]; simpl; [done|].
  unfold TimespanComparator. rewrite (proj2 (Z.ltb_lt _ _)) by lia. done.
Qed.

(** Everything in a well-formed list ends before everything after it begins. *)
Lemma wf_begin_after s a t :
  spans_wf s -> Forall (fun b => end_ps b < begin_ps t) s -> a ∈ s -> begin_ps a < begin_ps t.
Proof.
  intros [_ Hok] Hs Ha. rewrite Forall_forall in Hok, Hs. specialize (Hok _ Ha). specialize (Hs _ Ha).
  pose proof (span_le a Hok). simpl in *. lia.
Qed.

Lemma covers_spec t x : covers t x = true <-> begin_ps t <= x < end_ps t.
Proof. unfold covers. zify_bool. lia. Qed.

(** Spans that touch the interval from [b] to [e] cover, with it, one interval. *)
Lemma touching_cover b e l x :
  b <= e -> Forall (fun a => span_ok a /\ b <= end_ps a /\ begin_ps a <= e) l ->
  foldr (fun a m => Z.min (begin_ps a) m) b l <= x < foldr (fun a m => Z.max (end_ps a) m) e l
  <-> b <= x < e \/ active l x = true.
Proof.
  intros Hbe. induction 1 as [|a l (Hok & Hb & He) Hl IH]; simpl.
  { split; [by left|]. intros [?|?]; done. }
  rewrite orb_true_iff, covers_spec. pose proof (span_le a Hok).
  assert (foldr (fun a m => Z.min (begin_ps a) m) b l <= b /\ e <= foldr (fun a m => Z.max (end_ps a) m) e l).
  { clear. induction l; simpl; lia. }
  destruct (active l x); (split; [intros Hx|intros [?|[?|?]]]); try lia; try tauto.
Qed.

Lemma begins_min b a l :
  spans_wf (a :: l) -> foldr (fun a m => Z.min (begin_ps a) m) b (a :: l) = Z.min b (begin_ps a).
Proof.
  intros [Hs Hok]. apply StronglySorted_inv in Hs as [_ Hall]. inversion_clear Hok as [|?? Ha Hl].
  pose proof (span_le a Ha). enough (Z.min (begin_ps a) b <= foldr (fun a m => Z.min (begin_ps a) m) b l <= b)
    by (simpl; lia).
  induction l as [|c l IH]; simpl; [lia|]. inversion_clear Hall as [|?? Hc Hl']. inversion_clear Hl.
  unfold before in Hc. specialize (IH Hl' ltac:(done)). lia.
Qed.

Lemma ends_max e l a :
  spans_wf (l ++ [a]) -> foldr (fun a m => Z.max (end_ps a) m) e (l ++ [a]) = Z.max e (end_ps a).
Proof.
  intros (_ & [_ Ha] & Hb)%before_wf_app. inversion_clear Ha as [|?? Hok _].
  rewrite foldr_app. simpl. pose proof (span_le a Hok).
  induction l as [|c l IH]; simpl; [lia|].
  assert (before c a) as Hc by (apply Hb; left; done). unfold before in Hc.
  rewrite IH by (intros; apply Hb; [by right|done]). lia.
Qed.

(** Replacing a middle part by one span that keeps clear of both sides. *)
Lemma wf_replace pre mid post m :
  spans_wf (pre ++ mid ++ post) -> span_ok m ->
  (forall a, a ∈ pre -> before a m) -> (forall b, b ∈ post -> before m b) ->
  spans_wf (pre ++ m :: post).
Proof.
  intros (Hpre & (Hmid & Hpost & _)%before_wf_app & Hb)%before_wf_app Hm Hl Hr.
  apply before_wf_app. split_and!; [done| |].
  - change (m :: post) with ([m] ++ post). apply before_wf_app. split_and!; [|done|].
    + split; [repeat constructor|by constructor].
    + intros a b ->%list_elem_of_singleton ?. auto.
  - intros a b Ha [->|Hin]%elem_of_cons; [auto|]. apply Hb; [done|]. apply elem_of_app. by right.
Qed.

Lemma wf_head_first b l c t :
  spans_wf (b :: l) -> c ∈ b :: l -> end_ps t < begin_ps b -> end_ps t < begin_ps c.
Proof.
  intros [Hs Hok] [->|Hc]%elem_of_cons ?; [done|]. apply StronglySorted_inv in Hs as [_ Hall].
  rewrite Forall_forall in Hall. specialize (Hall _ Hc). unfold before in Hall.
  inversion_clear Hok as [|?? Hb _]. pose proof (span_le b Hb). lia.
Qed.

(** The two cases of [MergeOrInsert] that change the set. *)
Lemma insert_case t pre post :
  spans_wf (pre ++ post) -> span_ok t -> (forall a, a ∈ pre -> before a t) ->
  (forall b, b ∈ post -> before t b) ->
  set_insert t (pre ++ post) = (pre ++ t :: post, length pre) /\ spans_wf (pre ++ t :: post).
Proof.
  intros Hwf Ht Hl Hr. pose proof (span_le t Ht). split; [|by apply (wf_replace pre [] post)].
  apply before_wf_app in Hwf as (Hpre & Hpost & _). apply set_insert_at.
  - apply Forall_forall. intros a Ha. eapply wf_begin_after; [exact Hpre| |done].
    apply Forall_forall. intros. by apply Hl.
  - destruct post as [|b post]; [done|]. assert (before t b) as Hb by (apply Hr; left; done).
    unfold before in Hb. lia.
Qed.

Lemma merge_case t pre a mid l post m :
  spans_wf (pre ++ (a :: mid) ++ post) -> span_ok t -> a :: mid = l ++ [m] ->
  (forall c, c ∈ pre -> before c t) -> (forall b, b ∈ post -> before t b) ->
  begin_ps t <= end_ps a -> Forall (fun c => begin_ps c <= end_ps t) (a :: mid) ->
  let merged := FromEndPoints (Z.min (begin_ps t) (begin_ps a)) (Z.max (end_ps t) (end_ps m)) in
  set_insert merged (pre ++ post) = (pre ++ merged :: post, length pre) /\
  spans_wf (pre ++ merged :: post) /\ begin_ps merged <= begin_ps t /\
  forall x, covers merged x = covers t x || active (a :: mid) x.
Proof.
  intros Hwf Ht Hm Hl Hr Hta Htc merged. pose proof (span_le t Ht).
  pose proof Hwf as (Hpre & (Hmid & Hpost & Hmp)%before_wf_app & Hpm)%before_wf_app.
  assert (Forall span_ok (a :: mid)) as Hok by apply Hmid.
  assert (span_ok a) as Ha by (by inversion Hok). pose proof (span_le a Ha).
  assert (span_ok m) as Hmok.
  { rewrite Hm in Hok. apply Forall_app in Hok as [_ Hok]. by inversion Hok. }
  pose proof (span_le m Hmok). pose proof (begin_ps_u64 a). pose proof (begin_ps_u64 t).
  destruct (FromEndPoints_ok (Z.min (begin_ps t) (begin_ps a)) (Z.max (end_ps t) (end_ps m)))
    as (Hmb & _ & Hme & Hmok'); [lia..|]. fold merged in Hmb, Hme, Hmok'.
  assert (forall x, covers merged x = covers t x || active (a :: mid) x) as Hcov.
  { intros x. apply eq_bool_prop_intro. rewrite !Is_true_true, covers_spec, orb_true_iff, covers_spec.
    rewrite Hmb, Hme, <- (begins_min (begin_ps t) a mid Hmid), <- (ends_max (end_ps t) l m), <- Hm.
    2:{ by rewrite <- Hm. }
    apply touching_cover; [lia|]. apply Forall_forall. intros c Hc. rewrite Forall_forall in Hok, Htc.
    split_and!; [by apply Hok| |by apply Htc]. destruct Hmid as [Hs _].
    apply elem_of_cons in Hc as [->|Hc]; [done|]. apply StronglySorted_inv in Hs as [_ Hall].
    rewrite Forall_forall in Hall. specialize (Hall _ Hc). unfold before in Hall.
    pose proof (span_le c ltac:(apply Hok; by right)). lia. }
  assert (forall c, c ∈ pre -> before c merged) as Hl'.
  { intros c Hc. unfold before. rewrite Hmb. specialize (Hl _ Hc).
    assert (before c a) by (apply Hpm; [done|left]; done). unfold before in *. lia. }
  assert (forall b, b ∈ post -> before merged b) as Hr'.
  { intros c Hc. unfold before. rewrite Hme. specialize (Hr _ Hc).
    assert (before m c) by (apply Hmp; [rewrite Hm; apply elem_of_app; right; left|done]; done).
    unfold before in *. lia. }
  destruct (insert_case merged pre post) as [Hins Hwf']; [|done..|].
  { apply before_wf_app. split_and!; [done..|]. intros c b ??. apply Hpm; [done|].
    apply elem_of_app. by right. }
  split_and!; [done..| |done]. rewrite Hmb. lia.
Qed.

Lemma MergeOrInsert_split t hint s :
  spans_wf s -> span_ok t -> (hint <= length s)%nat ->
  (forall a, a ∈ take hint s -> end_ps a < begin_ps t) ->
  exists pre mid post m,
    s = pre ++ mid ++ post /\ MergeOrInsert t hint s = (pre ++ m :: post, length pre) /\
    spans_wf (pre ++ m :: post) /\ begin_ps m <= begin_ps t /\
    forall x, covers m x = covers t x || active mid x.
Proof.
  intros Hwf Ht Hh Hbefore.
  destruct (advance_spec (fun a => (end_ps a <? begin_ps t)) (drop hint s)) as [Hpre Hrest].
  pose proof (advance_le (fun a => (end_ps a <? begin_ps t)) (drop hint s)) as Hn.
  unfold MergeOrInsert. cbv zeta. set (n := advance _ (drop hint s)) in *. rewrite drop_drop in Hrest.
  rewrite length_drop in Hn.
  set (pre := take (hint + n) s). set (rest := drop (hint + n) s) in *.
  assert (s = pre ++ rest) as Hs by (symmetry; apply take_drop).
  assert (length pre = (hint + n)%nat) as Hlen by (unfold pre; rewrite length_take; lia).
  assert (forall a, a ∈ pre -> before a t) as Hpre'.
  { apply Forall_forall. unfold pre. rewrite <- take_take_drop, Forall_app. split; [by apply Forall_forall|].
    eapply Forall_impl; [exact Hpre|]. intros a ?%Z.ltb_lt. done. }
  rewrite <- Hlen. clearbody pre rest. clear Hpre Hlen Hbefore Hh n Hn. subst s.
  rewrite lookup_app_r, Nat.sub_diag by lia. destruct rest as [|a rest]; cbn [lookup list_lookup].
  { rewrite decide_True by (simpl; lia). exists pre, [], [], t.
    destruct (insert_case t pre []) as [-> ?]; [done..|by intros ? ?%not_elem_of_nil|].
    split_and!; try done. intros. by rewrite orb_false_r. }
  apply Z.ltb_ge in Hrest. rewrite ts_Includes_spec.
  destruct ((begin_ps a <=? begin_ps t) && (end_ps t <=? end_ps a)) eqn:Hinc.
  { zify_bool. exists pre, [a], rest, a. split_and!; try done; [lia|]. intros x. simpl.
    rewrite orb_false_r. unfold covers.
    apply eq_bool_prop_intro. rewrite !Is_true_true. zify_bool. lia. }
  destruct (advance_spec (fun a => (begin_ps a <=? end_ps t)) (a :: rest)) as [Hmid Hpost].
  pose proof (advance_le (fun a => (begin_ps a <=? end_ps t)) (a :: rest)) as Hk.
  set (k := advance _ (a :: rest)) in *.
  set (mid := take k (a :: rest)) in *. set (post := drop k (a :: rest)) in *.
  assert (a :: rest = mid ++ post) as Hr by (symmetry; apply take_drop).
  assert (length mid = k) as Hlen by (unfold mid; rewrite length_take; lia).
  assert (forall b, b ∈ post -> before t b) as Hpost'.
  { rewrite Hr in Hwf. apply before_wf_app in Hwf as (_ & (_ & Hwf & _)%before_wf_app & _).
    intros c Hc. unfold before. destruct post as [|b post']; [by apply not_elem_of_nil in Hc|].
    apply Z.leb_gt in Hpost. by eapply wf_head_first. }
  assert (Forall (fun c => begin_ps c <= end_ps t) mid) as Hmid'.
  { eapply Forall_impl; [exact Hmid|]. intros c ?%Z.leb_le. done. }
  exists pre, mid, post. rewrite <- Hlen. clearbody mid post k. rewrite Hr in *. clear Hmid Hpost Hlen Hk k.
  case_decide as Hd.
  - assert (mid = []) as -> by (apply length_zero_iff_nil; lia). exists t. cbn [app].
    destruct (insert_case t pre post) as [-> ?]; [done..|]. split_and!; try done. intros. by rewrite orb_false_r.
  - destruct mid as [|a' mid]; [simpl in Hd; lia|]. injection Hr as <- ->.
    destruct (exists_last (l := a :: mid)) as (l & m & Hm); [done|].
    assert ((pre ++ (a :: mid) ++ post) !! (length pre + length (a :: mid) - 1)%nat = Some m) as ->.
    { rewrite Hm, length_app. rewrite lookup_app_r by (simpl; lia). rewrite <- app_assoc.
      rewrite lookup_app_r by (simpl; lia). simpl.
      replace (length pre + (length l + 1) - 1 - length pre - length l)%nat with 0%nat by lia. done. }
    assert (set_erase (length pre) (length pre + length (a :: mid)) (pre ++ (a :: mid) ++ post) = pre ++ post) as ->.
    { unfold set_erase. by rewrite take_app_length, app_assoc, drop_app_length' by (rewrite length_app; lia). }
    destruct (merge_case t pre a mid l post m) as (-> & ? & ? & ?); try done. eexists. split_and!; done.
Qed.

(** ** The operations on covered time *)

Lemma search_from_before t s :
  spans_wf s -> (search_from t s <= length s)%nat /\
  forall a, a ∈ take (search_from t s) s -> end_ps a < begin_ps t.
Proof.
  intros Hwf. unfold search_from, set_lower_bound. set (P := fun a => TimespanComparator a t).
  destruct (advance_spec P s) as [Hlt _]. pose proof (advance_le P s). split; [lia|].
  destruct (advance P s) as [|i]; simpl; [by intros a ?%not_elem_of_nil|]. rewrite Nat.sub_0_r.
  destruct (lookup_lt_is_Some_2 s i) as [b Hb]; [lia|]. intros a Ha.
  rewrite (take_S_r _ _ b Hb), Forall_app, Forall_singleton in Hlt. destruct Hlt as [_ Hb'].
  assert (begin_ps b <= begin_ps t) by (unfold P, TimespanComparator in Hb'; zify_bool; lia).
  rewrite <- (take_drop_middle _ _ _ Hb) in Hwf.
  apply before_wf_app in Hwf as (_ & _ & Hwf).
  assert (before a b) as Hab by (apply Hwf; [done|left]; done). unfold before in Hab. lia.
Qed.

Lemma MergeOrInsert_active t hint s :
  spans_wf s -> span_ok t -> (hint <= length s)%nat ->
  (forall a, a ∈ take hint s -> end_ps a < begin_ps t) ->
  let '(s', hint') := MergeOrInsert t hint s in
  spans_wf s' /\ (hint' <= length s')%nat /\ (forall x, active s' x = covers t x || active s x) /\
  forall b, before t b -> forall a, a ∈ take hint' s' -> end_ps a < begin_ps b.
Proof.
  intros Hwf Ht Hh Hb. destruct (MergeOrInsert_split t hint s) as (pre & mid & post & m & -> & -> & Hwf' & Hmt & Hc);
    [done..|]. split_and!; [done|rewrite length_app; lia| |].
  - intros x. rewrite !active_app, active_cons, Hc.
    destruct (covers t x), (active pre x), (active mid x), (active post x); done.
  - intros b Htb a. rewrite take_app_length. intros Ha. pose proof (span_le t Ht).
    apply before_wf_app in Hwf' as (_ & _ & Hpm). assert (before a m) by (apply Hpm; [done|left]; done).
    unfold before in *. lia.
Qed.

Lemma union_loop_active others hint s :
  spans_wf others -> spans_wf s -> (hint <= length s)%nat ->
  (forall t, head others = Some t -> forall a, a ∈ take hint s -> end_ps a < begin_ps t) ->
  spans_wf (union_loop others hint s) /\
  forall x, active (union_loop others hint s) x = active others x || active s x.
Proof.
  revert hint s. induction others as [|t others IH]; intros hint s Ho Hwf Hh Hb; simpl; [done|].
  change (t :: others) with ([t] ++ others) in Ho. apply before_wf_app in Ho as ([_ Ht] & Ho & Hto).
  inversion_clear Ht. pose proof (MergeOrInsert_active t hint s Hwf) as HM.
  destruct (MergeOrInsert t hint s) as [s' hint'].
  destruct HM as (Hwf' & Hh' & Hact & Hnext); [done|done|by apply Hb|].
  destruct (IH hint' s') as [? Hx]; [done..| |].
  { intros b Hhd. apply Hnext, Hto; [left; done|]. destruct others as [|b' ?]; simplify_eq/=. by left. }
  split; [done|]. intros x. rewrite Hx, Hact. by destruct (covers t x), (active others x), (active s x).
Qed.

(** ** The measure of a set *)

Lemma countb_all (P : Z -> bool) lo n :
  0 <= n -> (forall x, lo <= x < lo + n -> P x = true) -> countb P (seqZ lo n) = n.
Proof.
  intros Hn HP. rewrite (countb_ext P (fun _ => true)) by (intros x ?%elem_of_seqZ; apply HP; lia).
  assert (forall l : list Z, countb (fun _ => true) l = Z.of_nat (length l)) as ->.
  { intros l. induction l; simpl length; simpl countb; [done|]. lia. }
  rewrite length_seqZ. lia.
Qed.

Lemma active_measure s lo hi :
  spans_wf s -> lo <= hi ->
  Forall (fun a => duration_ps a <> 0 -> lo <= begin_ps a /\ end_ps a <= hi) s ->
  zsum (duration_ps <$> s) = countb (active s) (seqZ lo (hi - lo)).
Proof.
  intros Hwf Hlo Hin. revert lo Hlo Hin. induction s as [|a s IH]; intros lo Hlo Hin.
  { simpl. symmetry. apply countb_none. done. }
  apply (before_wf_app [a]) in Hwf as ([_ Ha] & Hs & Has). rewrite Forall_singleton in Ha. rename Ha into Hok.
  apply Forall_cons in Hin as [Hbe Hin']. pose proof (span_le a Hok) as Hle.
  destruct (decide (duration_ps a = 0)) as [Hz|Hnz].
  { change (zsum (duration_ps <$> a :: s)) with (duration_ps a + zsum (duration_ps <$> s)).
    rewrite Hz, (IH Hs lo) by done. apply countb_ext. intros x _. rewrite active_cons.
    assert (covers a x = false) as ->; [|done]. unfold covers. rewrite (span_end a Hok). zify_bool. lia. }
  destruct (Hbe Hnz) as [Hb He].
  assert (forall c, c ∈ s -> end_ps a < begin_ps c) as Haft by (intros; apply Has; [by left|done]).
  change (zsum (duration_ps <$> a :: s)) with (duration_ps a + zsum (duration_ps <$> s)).
  rewrite (IH Hs (end_ps a)); [|lia|].
  2:{ rewrite Forall_forall in *. intros c Hc. specialize (Haft _ Hc). specialize (Hin' _ Hc). lia. }
  replace (hi - lo) with ((begin_ps a - lo) + ((end_ps a - begin_ps a) + (hi - end_ps a))) by lia.
  rewrite !seqZ_app, !countb_app by lia. replace (lo + (begin_ps a - lo)) with (begin_ps a) by lia.
  replace (begin_ps a + (end_ps a - begin_ps a)) with (end_ps a) by lia.
  rewrite (countb_none _ (seqZ lo _)), (countb_all _ (begin_ps a)); [|lia| |].
  - rewrite Z.add_0_l. f_equal; [rewrite span_end by done; lia|].
    apply countb_ext. intros x Hx%elem_of_seqZ.
    rewrite active_cons. assert (covers a x = false) as ->; [|done].
    unfold covers. zify_bool. lia.
  - intros x Hx. rewrite active_cons. apply orb_true_iff. left. apply covers_spec. lia.
  - intros x Hx%elem_of_seqZ. apply not_true_is_false. unfold active. rewrite existsb_exists.
    intros (c & [->|Hc]%list_elem_of_In%elem_of_cons & Hcx%covers_spec); [lia|].
    specialize (Haft _ Hc). lia.
Qed.

Lemma countb_bounds (P : Z -> bool) lo n : 0 <= n -> 0 <= countb P (seqZ lo n) <= n.
Proof.
  intros Hn. split; [apply countb_nonneg|].
  rewrite <- (countb_all (fun _ => true) lo n) at 2 by done. by apply countb_le.
Qed.

Lemma countb_negb (P : Z -> bool) lo n :
  0 <= n -> countb (fun x => negb (P x)) (seqZ lo n) = n - countb P (seqZ lo n).
Proof.
  intros Hn. enough (countb P (seqZ lo n) + countb (fun x => negb (P x)) (seqZ lo n) =
    countb (fun _ => true) (seqZ lo n)) as Hs by (rewrite (countb_all (fun _ => true)) in Hs by done; lia).
  generalize (seqZ lo n). intros l. induction l as [|x l IH]; [done|].
  unfold countb in *. cbn [foldr].
  assert (Z.b2z (P x) + Z.b2z (negb (P x)) = Z.b2z true) by (by destruct (P x)). lia.
Qed.

Lemma durations_nonneg s : 0 <= zsum (duration_ps <$> s).
Proof.
  unfold zsum. induction s as [|a s IH]; [done|]. rewrite fmap_cons. cbn [foldr].
  pose proof (duration_ps_u64 a). lia.
Qed.

Lemma active_sum s acc :
  Forall span_ok s -> 0 <= acc -> acc + zsum (duration_ps <$> s) < 2 ^ 64 ->
  foldl (fun acc a => u64 (acc + duration_ps a)) acc s = acc + zsum (duration_ps <$> s).
Proof.
  revert acc. induction s as [|a s IH]; intros acc Hok Ha Hlt; [simpl; lia|].
  change (zsum (duration_ps <$> a :: s)) with (duration_ps a + zsum (duration_ps <$> s)) in *.
  apply Forall_cons in Hok as [_ Hok]. pose proof (duration_ps_u64 a). pose proof (durations_nonneg s).
  cbn [foldl]. rewrite IH; rewrite ?wrap_small by lia; [lia|done|lia..].
Qed.

(** ** Trackers and the intervals they were given

    [built l d]: the tracker [d] results from adding the intervals [l] (each with
    its activity), directly or through the union with other such trackers. *)
Inductive built : list (T * bool) -> DutyCycleTracker -> Prop :=
  | built_new : built [] duty_tracker_new
  | built_add l d t b :
      built l d -> span_ok t -> ts_Empty t = false -> built (l ++ [(t, b)]) (AddInterval t b d)
  | built_union l d l' d' :
      built l d -> built l' d' -> l' <> [] -> built (l ++ l') (Union d' d).

Definition active_at (l : list (T * bool)) (x : Z) : bool := existsb (fun p => p.2 && covers p.1 x) l.
Definition earliest (l : list (T * bool)) : Z := foldr (fun p m => Z.min (begin_ps p.1) m) (2 ^ 64) l.
Definition latest (l : list (T * bool)) : Z := foldr (fun p m => Z.max (end_ps p.1) m) 0 l.

Lemma earliest_app l l' : earliest (l ++ l') = Z.min (earliest l) (earliest l').
Proof. unfold earliest. induction l as [|p l IH]; simpl; [|rewrite IH; lia].
  enough (foldr (fun p m => Z.min (begin_ps p.1) m) (2 ^ 64) l' <= 2 ^ 64) by lia.
  clear. induction l'; simpl; lia. Qed.

Lemma latest_app l l' : latest (l ++ l') = Z.max (latest l) (latest l').
Proof. unfold latest. induction l as [|p l IH]; simpl; [|rewrite IH; lia].
  enough (0 <= foldr (fun p m => Z.max (end_ps p.1) m) 0 l') by lia.
  clear. induction l'; simpl; lia. Qed.

Lemma active_at_app l l' x : active_at (l ++ l') x = active_at l x || active_at l' x.
Proof. apply existsb_app. Qed.

(** A proper span with the given end points. *)
Definition is_hull (t : T) (b e : Z) : Prop :=
  ts_Empty t = false /\ span_ok t /\ begin_ps t = b /\ end_ps t = e.

Record tracks (l : list (T * bool)) (d : DutyCycleTracker) : Prop := {
  tracks_wf : spans_wf (active_time_spans_ d);
  tracks_active x : active (active_time_spans_ d) x = active_at l x;
  tracks_none : l = [] -> d = duty_tracker_new;
  tracks_total : l <> [] -> is_hull (total_time_span_ d) (earliest l) (latest l)
}.

Lemma expand_hull t t' b e b' e' :
  is_hull t b e -> is_hull t' b' e' -> is_hull (ts_ExpandToInclude t t') (Z.min b b') (Z.max e e').
Proof.
  intros (Ht & Hok & <- & <-) (Ht' & Hok' & <- & <-). rewrite ts_ExpandToInclude_span by done.
  pose proof (span_le t Hok). pose proof (span_le t' Hok'). pose proof (begin_ps_u64 t). pose proof (begin_ps_u64 t').
  destruct (FromEndPoints_ok (Z.min (begin_ps t) (begin_ps t')) (Z.max (end_ps t) (end_ps t')))
    as (Hb & _ & He & Hm); [lia..|]. split_and!; [|done..].
  apply not_true_is_false. intros HE. pose proof (ts_Empty_iff _ HE). pose proof (ts_Empty_duration _ HE).
  rewrite (span_end _ Hm) in He. pose proof (ts_Empty_false _ Ht). pose proof (ts_Empty_false _ Ht').
  rewrite (span_end t Hok), (span_end t' Hok') in *.
  pose proof (duration_ps_u64 t). pose proof (duration_ps_u64 t'). lia.
Qed.

(** The part of an invariant that concerns the active spans: a set that covers what
    the intervals cover lies within them. *)
Lemma covered_within s l :
  spans_wf s -> l <> [] -> (forall x, active s x = active_at l x) ->
  Forall (fun a => duration_ps a <> 0 -> earliest l <= begin_ps a /\ end_ps a <= latest l) s.
Proof.
  intros [_ Hok] Hl Hact. rewrite Forall_forall in *. intros a Ha Hd. specialize (Hok _ Ha).
  pose proof (span_le a Hok). pose proof (duration_ps_u64 a). rewrite (span_end a Hok) in *.
  assert (forall x, covers a x = true -> earliest l <= x < latest l) as Hin.
  { intros x Hx. assert (active_at l x = true) as Hc.
    { rewrite <- Hact. unfold active. apply existsb_exists. exists a. split; [by apply list_elem_of_In|done]. }
    unfold active_at in Hc. apply existsb_exists in Hc as (q & Hq%list_elem_of_In & [_ Hc]%andb_true_iff).
    apply covers_spec in Hc. apply list_elem_of_split in Hq as (l1 & l2 & ->).
    rewrite earliest_app, latest_app. unfold earliest, latest. simpl. lia. }
  specialize (Hin (begin_ps a)) as H1. specialize (Hin (begin_ps a + duration_ps a - 1)) as H2.
  rewrite covers_spec, (span_end a Hok) in H1, H2. lia.
Qed.

Lemma span_hull t b : span_ok t -> ts_Empty t = false -> is_hull t (earliest [(t, b)]) (latest [(t, b)]).
Proof.
  intros Hok Ht. pose proof (begin_ps_u64 t). pose proof (span_le t Hok).
  unfold earliest, latest. simpl. split_and!; [done..|lia|lia].
Qed.

Lemma expand_tracks l d l' t :
  tracks l d -> is_hull t (earliest l') (latest l') ->
  is_hull (ts_ExpandToInclude (total_time_span_ d) t) (earliest (l ++ l')) (latest (l ++ l')).
Proof.
  intros Hd Ht. destruct l as [|p l].
  - rewrite (tracks_none _ _ Hd) by done. simpl. by rewrite ts_ExpandToInclude_empty by apply ts_Empty_default.
  - rewrite earliest_app, latest_app. apply expand_hull; [|done]. by apply (tracks_total _ _ Hd).
Qed.

Lemma add_tracks l d t b :
  tracks l d -> span_ok t -> ts_Empty t = false -> tracks (l ++ [(t, b)]) (AddInterval t b d).
Proof.
  intros Hd Ht He. pose proof (expand_tracks l d [(t, b)] t Hd (span_hull t b Ht He)) as Htot.
  pose proof (tracks_wf _ _ Hd) as Hwf. unfold AddInterval. destruct b; simpl.
  - destruct (search_from_before t (active_time_spans_ d)) as [Hh Hb]; [done|].
    pose proof (MergeOrInsert_active t _ _ Hwf Ht Hh Hb) as HM. destruct (MergeOrInsert _ _ _) as [s' h'].
    destruct HM as (Hwf' & _ & Hact & _). constructor; simpl; [done| |by intros [_ ?]%app_eq_nil|done].
    intros x. rewrite Hact, active_at_app, (tracks_active _ _ Hd). simpl. rewrite orb_false_r. apply orb_comm.
  - constructor; simpl; [done| |by intros [_ ?]%app_eq_nil|done].
    intros x. rewrite active_at_app, (tracks_active _ _ Hd). simpl. by rewrite orb_false_r.
Qed.

Lemma union_tracks l d l' d' :
  tracks l d -> tracks l' d' -> l' <> [] -> tracks (l ++ l') (Union d' d).
Proof.
  intros Hd Hd' Hl'. pose proof (expand_tracks l d l' _ Hd (tracks_total _ _ Hd' Hl')) as Htot.
  pose proof (tracks_wf _ _ Hd) as Hwf. pose proof (tracks_wf _ _ Hd') as Hwf'.
  assert (forall x, active_at (l ++ l') x = active (active_time_spans_ d') x || active (active_time_spans_ d) x) as Hx.
  { intros x. rewrite active_at_app, (tracks_active _ _ Hd), (tracks_active _ _ Hd'). apply orb_comm. }
  unfold Union. destruct (active_time_spans_ d') as [|first others] eqn:Ho.
  - constructor; simpl; [done| |by intros [_ ?]%app_eq_nil|done]. intros x. by rewrite Hx.
  - destruct (search_from_before first (active_time_spans_ d)) as [Hh Hb]; [done|].
    destruct (union_loop_active (first :: others) (search_from first (active_time_spans_ d)) (active_time_spans_ d))
      as [Hw Hact]; [done..|by intros t [= <-]|].
    constructor; simpl; [done| |by intros [_ ?]%app_eq_nil|done]. intros x. by rewrite Hx, <- Hact.
Qed.

Lemma built_tracks l d : built l d -> tracks l d.
Proof.
  induction 1; [|by apply add_tracks|by apply union_tracks].
  constructor; simpl; [split; constructor|done|done|done].
Qed.

(** C14. The tracker measures time: however the intervals were added, the duration is that of
    the time from the earliest begin to the latest end, the active time is the number
    of picoseconds in it that lie in some active interval, and the idle time is the
    number of the others; no sum overflows. *)
Theorem duty_cycle_measures l d :
  built l d -> l <> [] ->
  let time := seqZ (earliest l) (latest l - earliest l) in
  GetDurationPs d = latest l - earliest l /\
  GetActiveTimePs d = countb (active_at l) time /\
  GetIdleTimePs d = countb (fun x => negb (active_at l x)) time.
Proof.
  intros Hd%built_tracks Hl time. destruct (tracks_total _ _ Hd Hl) as (_ & Hok & Hb & He).
  pose proof (span_le _ Hok). rewrite (span_end _ Hok) in *. rewrite Hb, He in *.
  pose proof (begin_ps_u64 (total_time_span_ d)). pose proof (duration_ps_u64 (total_time_span_ d)).
  assert (zsum (duration_ps <$> active_time_spans_ d) = countb (active_at l) time) as Hsum.
  { rewrite (active_measure _ (earliest l) (latest l)); [|apply Hd|lia|].
    - apply countb_ext. intros. apply Hd.
    - apply covered_within; [apply Hd|done|apply Hd]. }
  assert (GetActiveTimePs d = countb (active_at l) time) as Hact.
  { unfold GetActiveTimePs. pose proof (countb_bounds (active_at l) (earliest l) (latest l - earliest l)).
    rewrite active_sum; [lia|apply Hd|lia|]. rewrite Hsum. unfold time. lia. }
  split_and!; [unfold GetDurationPs; lia|done|]. unfold GetIdleTimePs. rewrite Hact.
  pose proof (countb_bounds (active_at l) (earliest l) (latest l - earliest l)).
  unfold time in *. rewrite countb_negb by lia. rewrite wrap_small by lia. lia.
Qed.
End tracker.

Lemma duty_cycle_measures_witness :
  let l : list (pair_span * bool) := [((10, 10), true); ((30, 10), true); ((20, 15), true); ((50, 5), false)] in
  exists d, GetDurationPs d = 45 /\ GetActiveTimePs d = 30 /\ GetIdleTimePs d = 15.
Proof.
  intros l.
  pose (d := AddInterval (50, 5) false (AddInterval (20, 15) true (AddInterval (30, 10) true
    (AddInterval (10, 10) true (duty_tracker_new (T := pair_span)))))).
  exists d. destruct (duty_cycle_measures l d) as (-> & -> & ->); [|done|by vm_compute].
  apply (built_add [_; _; _]); [|done..]. apply (built_add [_; _]); [|done..].
  apply (built_add [_]); [|done..]. apply (built_add []); [|done..]. apply built_new.
Defined.
