(* ===== verification/LevelDb.v ===== *)
(** What the trace viewer's storage uses of other libraries: strings in the order of
    their bytes, the sorted string tables of LevelDB (tsl/lib/io/table*, as the class
    [TableLib] with its documented behaviour), and protocol buffers (the class
    [Proto]). *)
From Stdlib Require Import ZArith Lia Ascii String.
From stdpp Require Import base list countable sorting.
From S2P Require Import Prelude.
Local Open Scope Z_scope.

(** ** Strings in byte order *)

(** Lexicographic order of the bytes, which LevelDB's default comparator and
    std::string's [operator<] use. *)
Fixpoint bytes_lt (a b : bytes) : bool :=
  match a, b with
  | _, [] => false
  | [], _ :: _ => true
  | x :: a', y :: b' => (x <? y) || ((x =? y) && bytes_lt a' b')
  end.

(** The bytes of a string literal. *)
Definition str (s : string) : bytes := map (fun a => Z.of_N (N_of_ascii a)) (list_ascii_of_string s).

(** absl::StartsWith *)
Fixpoint StartsWith (s prefix : bytes) {struct prefix} : bool :=
  match prefix, s with
  | [], _ => true
  | _ :: _, [] => false
  | p :: prefix', c :: s' => (p =? c) && StartsWith s' prefix'
  end.

(** absl::StrContains *)
Fixpoint StrContains (s needle : bytes) : bool :=
  StartsWith s needle || match s with [] => false | _ :: s' => StrContains s' needle end.

Section byte_order.
Implicit Types a b c : bytes.

Lemma bytes_lt_irrefl a : bytes_lt a a = false.
Proof. induction a as [|x a IH]; simpl; [done|]. by rewrite Z.ltb_irrefl, IH, andb_false_r. Qed.

Lemma bytes_lt_trans a b c : bytes_lt a b = true -> bytes_lt b c = true -> bytes_lt a c = true.
Proof.
  revert b c. induction a as [|x a IH]; intros [|y b] [|z c]; simpl; try done.
  intros H1 H2. zify_bool; zify_bool. destruct H1 as [?|[-> ?]], H2 as [?|[? ?]]; [left; lia..|right].
  split; [done|]. by eapply IH.
Qed.

Lemma bytes_lt_total a b : bytes_lt a b = false -> bytes_lt b a = false -> a = b.
Proof.
  revert b. induction a as [|x a IH]; intros [|y b]; simpl; try done. intros H1 H2. zify_bool; zify_bool.
  assert (x = y) as -> by lia. f_equal. apply IH; naive_solver lia.
Qed.

Lemma bytes_lt_app p a b : bytes_lt (p ++ a) (p ++ b) = bytes_lt a b.
Proof. induction p as [|x p IH]; simpl; [done|]. by rewrite Z.ltb_irrefl, Z.eqb_refl, IH. Qed.

Lemma bytes_lt_prefix a x b : bytes_lt a (a ++ x :: b) = true.
Proof. rewrite <- (app_nil_r a) at 1. by rewrite bytes_lt_app. Qed.

(** A string with a prefix is not below the prefix, and those above it without the
    prefix are above all strings with it. *)
Lemma StartsWith_app s p : StartsWith s p = true <-> exists t, s = p ++ t.
Proof.
  revert s. induction p as [|x p IH]; intros s; simpl; [split; [by exists s|done]|].
  destruct s as [|y s]; [split; [done|by intros [t [=]]]|]. rewrite andb_true_iff, Z.eqb_eq, IH. split.
  - intros [-> [t ->]]. by exists t.
  - intros [t [= -> ->]]. split; [done|by exists t].
Qed.

Lemma StartsWith_ge s p : StartsWith s p = true -> bytes_lt s p = false.
Proof.
  intros [t ->]%StartsWith_app. rewrite <- (app_nil_r p) at 2. rewrite bytes_lt_app. by destruct t.
Qed.

Lemma StartsWith_block s s' p :
  StartsWith s p = false -> bytes_lt s p = false -> bytes_lt s s' = true -> StartsWith s' p = false.
Proof.
  revert s s'. induction p as [|x p IH]; intros s s'; simpl; [done|].
  destruct s as [|y s]; simpl; [done|]. destruct s' as [|z s']; simpl; [done|]. intros H1 H2 H3.
  apply andb_false_iff. destruct (Z.eqb_spec x z) as [->|]; [right|by left]. zify_bool; zify_bool.
  destruct H3 as [?|[-> ?]]; [lia|]. eapply IH; [| |done]; naive_solver lia.
Qed.
End byte_order.

(** ** Tables *)

Abbreviation entry := (bytes * bytes)%type.

Definition key_lt (p q : entry) : Prop := bytes_lt p.1 q.1 = true.

(** TableBuilder::Add requires that every key comes after the one added before. *)
Definition sorted_entries (l : list entry) : Prop := StronglySorted key_lt l.

(** A table is built from the entries added to it; an iterator stands before some of
    them ([remaining]), and gives the key and the value of the first ([current], none
    when it is not [Valid]). *)
Class TableLib := {
  table : Type;
  iterator : Type;
  table_build : list entry -> table;
  SeekToFirst : table -> iterator;
  Seek : table -> bytes -> iterator;
  Next : iterator -> iterator;
  current : iterator -> option entry;
  remaining : iterator -> list entry;
  SeekToFirst_built l : sorted_entries l -> remaining (SeekToFirst (table_build l)) = l;
  Seek_built l k : sorted_entries l ->
    remaining (Seek (table_build l) k) = filter (fun e => bytes_lt e.1 k = false) l;
  current_head i : current i = head (remaining i);
  Next_tail i : remaining (Next i) = tail (remaining i)
}.

(** ** Statuses (absl::Status) *)

Inductive Status := OkStatus | NotFoundError | UnknownError | InternalError | OtherError (code : Z).

#[export] Instance Status_eq_dec : EqDecision Status.
Proof. solve_decision. Defined.

Definition status_ok (st : Status) : bool := bool_decide (st = OkStatus).

(** [Update] keeps the first error. *)
Definition status_update (st new : Status) : Status := if status_ok st then new else st.

(** A file being written and one that may be opened as a table; what the file system
    answers is given. *)
Record WritableFile := mk_file { file_finish : Status; file_name : Status; file_close : Status }.

(** ** Messages *)

Class Proto (A : Type) := {
  SerializeAsString : A -> bytes;
  ParseFromString : bytes -> option A;
  parse_serialize x : ParseFromString (SerializeAsString x) = Some x
}.

(** ** Concrete instances *)

#[export] Program Instance list_table : TableLib := {
  table := list entry;
  iterator := list entry;
  table_build l := l;
  SeekToFirst l := l;
  Seek l k := filter (fun e => bytes_lt e.1 k = false) l;
  Next l := tail l;
  current l := head l;
  remaining l := l
}.
Next Obligation. done. Qed.
Next Obligation. done. Qed.
Next Obligation. done. Qed.
Next Obligation. done. Qed.

(** A message of a countable type as the bits of its code. *)
Fixpoint pos_bits (p : positive) : bytes :=
  match p with xH => [] | xO q => 0 :: pos_bits q | xI q => 1 :: pos_bits q end.
Fixpoint bits_pos (l : bytes) : positive :=
  match l with [] => xH | b :: l' => if b =? 0 then xO (bits_pos l') else xI (bits_pos l') end.

Lemma bits_pos_bits p : bits_pos (pos_bits p) = p.
Proof. induction p as [p IH|p IH|]; simpl; [by rewrite IH..|done]. Qed.

Program Definition countable_proto (A : Type) `{Countable A} : Proto A := {|
  SerializeAsString x := pos_bits (encode x);
  ParseFromString l := decode (bits_pos l)
|}.
Next Obligation. intros A ?? x. simpl. by rewrite bits_pos_bits, decode_encode. Qed.
