(* ===== verification/PosFiles.v ===== *)
(** The files of a checkpoint of PhoenixOS: their names and directory, and the calls that were
    not executed when it was taken, written by the worker (runtime/pos/src/worker.cpp) as
    api_context.cpp lays them out and queued again by src/client.cpp. *)
From Stdlib Require Import ZArith Lia Ascii String.
From stdpp Require Import base list gmap strings pretty sorting.
From S2P Require Import Prelude Config SyscallTrace FridaAttach PosCheckpoint PosHandle LevelDb.
Local Open Scope Z_scope.

(** ** The directory *)

(** Whether it exists, and its regular files by name. *)
Record ckpt_dir := mk_dir { dir_exists : bool; dir_files : gmap text bytes }.

Definition set_file (name : text) (content : bytes) (d : ckpt_dir) : ckpt_dir :=
  mk_dir (dir_exists d) (<[name := content]> (dir_files d)).

(** The file system: which files can be opened for writing, which are written to the end and what
    is left of the others, and the order of a [directory_iterator]. *)
Class Disk := {
  can_open : text -> bool;
  can_write : text -> bool;
  torn : text -> bytes -> bytes;
  dir_list : gmap text bytes -> list text;
  dir_list_perm m : dir_list m ≡ₚ (map_to_list m).*1
}.

(** ** Names *)

Definition handle_file_name (rid hid : Z) : text :=
  chars "h-" ++ chars (pretty rid) ++ chars "-" ++ chars (pretty hid) ++ chars ".bin".

(** [path::extension] of a file name: from the last dot, unless that is the first character. *)
Definition extension (name : text) : text :=
  if bool_decide (name = chars "..") then []
  else match split_last "."%char name with Some (_ :: _, e) => "."%char :: e | _ => [] end.

(** [std::getline] with a delimiter, until it fails. *)
Fixpoint getlines (delimiter : ascii) (s : text) : list text :=
  match s with
  | [] => []
  | a :: s' =>
      if bool_decide (a = delimiter) then [] :: getlines delimiter s'
      else match getlines delimiter s' with [] => [[a]] | part :: parts => (a :: part) :: parts end
  end.

(** The resource type and the id in the name of a handle's file; none where the lambda ends the
    program, by an assertion or by an exception of [stoul]. *)
Definition deassemble_file_name (filename : text) : option (Z * Z) :=
  let baseName := match split_last "."%char filename with Some (b, _) => b | None => filename end in
  match getlines "-"%char baseName with
  | [h; r; i] =>
      if bool_decide (h = chars "h") then rid ← stoul r; hid ← stoul i; Some (u32 rid, hid) else None
  | _ => None
  end.

Definition is_ckpt_file (prefix name : text) : bool :=
  bool_decide (extension name = chars ".bin") && starts_with name prefix.

(** The order of [std::set<std::filesystem::path>] on the files of one directory. *)
Definition code (a : ascii) : Z := Z.of_N (N_of_ascii a).
Definition path_lt (a b : text) : bool := bytes_lt (code <$> a) (code <$> b).
Definition path_le (a b : text) : Prop := path_lt b a = false.
#[export] Instance path_le_dec : RelDecision path_le.
Proof. intros a b. unfold path_le. apply _. Defined.

(** ** Calls *)

Inductive pos_apicxt_typeid := ApiCxt_TypeId_Normal | ApiCxt_TypeId_Unexecuted | ApiCxt_TypeId_Recomputation.
#[export] Instance pos_apicxt_typeid_eq_dec : EqDecision pos_apicxt_typeid.
Proof. solve_decision. Defined.

(** [POSHandleView]; a handle is named by its address, none is the null pointer. *)
Record POSHandleView := mk_hv {
  hv_handle : option Z;
  hv_id : Z;
  hv_resource_type_id : Z;
  hv_param_index : Z;
  hv_offset : Z
}.

(** [POSAPIContext]; the constructor for restoring does not set [retval_size]. The area for the
    returned data and the return code are not part of a checkpoint. *)
Record POSAPIContext := mk_api_cxt {
  api_id : Z;
  params : list bytes;
  retval_size : option Z
}.

(** The ticks, of creation, return, and both ends of parser and worker. *)
Record api_ticks := mk_ticks {
  create_tick : Z; return_tick : Z; parser_s_tick : Z; parser_e_tick : Z; worker_s_tick : Z; worker_e_tick : Z
}.

(** [POSAPIContext_QE], but for the client it belongs to and its execution status. *)
Record POSAPIContext_QE := mk_qe {
  qe_id : Z;
  api_cxt : POSAPIContext;
  has_return : bool;
  qe_type : pos_apicxt_typeid;
  input_handle_views : list POSHandleView;
  output_handle_views : list POSHandleView;
  create_handle_views : list POSHandleView;
  delete_handle_views : list POSHandleView;
  inout_handle_views : list POSHandleView;
  qe_ticks : api_ticks
}.

(** The messages of proto/apicxt.proto. *)
Record Bin_POSHandleView := mk_bin_hv { bv_resource_type_id : Z; bv_id : Z; bv_param_index : Z; bv_offset : Z }.
Record Bin_POSAPIParam := mk_bin_param { bp_size : Z; bp_state : bytes }.
Record Bin_POSAPIContext := mk_bin_cxt {
  bc_id : Z;
  bc_api_id : Z;
  bc_has_return : bool;
  bc_input : list Bin_POSHandleView;
  bc_output : list Bin_POSHandleView;
  bc_create : list Bin_POSHandleView;
  bc_delete : list Bin_POSHandleView;
  bc_inout : list Bin_POSHandleView;
  bc_ticks : api_ticks;
  bc_params : list Bin_POSAPIParam;
  bc_retval_size : Z
}.

(** What is behind the pointers to handles: the resource type and the handle. *)
Abbreviation handle_heap := (gmap Z (Z * POSHandle)).

Definition apicxt_file_name (type : pos_apicxt_typeid) (id : Z) : text :=
  chars (if decide (type = ApiCxt_TypeId_Unexecuted) then "ua-" else "ra-") ++ chars (pretty id) ++ chars ".bin".

Section files.
Context `{!Disk, !Proto Bin_POSAPIContext}.
Abbreviation D := (M ckpt_dir).
Implicit Types (d : ckpt_dir) (q : POSAPIContext_QE).

(** Opening an [std::ofstream], [SerializeToOstream], and closing. *)
Definition write_file (name : text) (content : bytes) : D pos_retval :=
  if can_open name then
    if can_write name then modify (set_file name content);; mret POS_SUCCESS
    else modify (set_file name (torn name content));; mret POS_FAILED
  else mret POS_FAILED.

Definition dir_assert (c : bool) : D unit := if c then mret tt else throw "assertion failed".

Definition persist_view (heap : handle_heap) (hv : POSHandleView) : D Bin_POSHandleView :=
  match hv_handle hv with
  | None => throw "null pointer"
  | Some p =>
      '(rid, h) ← need "handle released" (heap !! p);
      mret (mk_bin_hv rid (h_id h) (hv_param_index hv) (hv_offset hv))
  end.

Definition persist_param (value : bytes) : D Bin_POSAPIParam :=
  dir_assert (negb (bool_decide (value = [])));;
  mret (mk_bin_param (Z.of_nat (length value)) value).

(** [POSAPIContext_QE::persist]. *)
Definition persist (with_params : bool) (type : pos_apicxt_typeid) (heap : handle_heap) q : D pos_retval :=
  d ← get;
  dir_assert (dir_exists d);;
  retval_size ← need "retval_size is not initialised" (retval_size (api_cxt q));
  input ← mapM (persist_view heap) (input_handle_views q);
  output ← mapM (persist_view heap) (output_handle_views q);
  create ← mapM (persist_view heap) (create_handle_views q);
  delete ← mapM (persist_view heap) (delete_handle_views q);
  inout ← mapM (persist_view heap) (inout_handle_views q);
  ps ← (if with_params then mapM persist_param (params (api_cxt q)) else mret []);
  write_file (apicxt_file_name type (qe_id q))
    (SerializeAsString (mk_bin_cxt (qe_id q) (api_id (api_cxt q)) (has_return q) input output create delete inout
       (qe_ticks q) ps retval_size)).

(** One turn of the loop that saves the calls that are not executed: the batch that was polled. *)
Fixpoint persist_batch (heap : handle_heap) (wqes : list POSAPIContext_QE) (max_wqe_id : Z) : D (pos_retval * Z) :=
  match wqes with
  | [] => mret (POS_SUCCESS, max_wqe_id)
  | wqe :: wqes' =>
      r ← persist true ApiCxt_TypeId_Unexecuted heap wqe;
      if decide (r = POS_SUCCESS)
      then persist_batch heap wqes' (if max_wqe_id <? qe_id wqe then qe_id wqe else max_wqe_id)
      else mret (r, max_wqe_id)
  end.

(** The loop, on the batches that the queue gives; the last known id of a call and the greatest id
    that was executed decide about the end. [None] when it still runs after the last batch. *)
Fixpoint persist_unexecuted (heap : handle_heap) (api_inst_pc executed : Z) (batches : list (list POSAPIContext_QE)) (max_wqe_id : Z) :
    D (option pos_retval) :=
  if (max_wqe_id <? u64 (api_inst_pc - 1)) && (executed <? u64 (api_inst_pc - 1)) then
    match batches with
    | [] => mret None
    | wqes :: batches' =>
        '(r, max_wqe_id') ← persist_batch heap wqes max_wqe_id;
        if decide (r = POS_SUCCESS) then persist_unexecuted heap api_inst_pc executed batches' max_wqe_id'
        else mret (Some r)
    end
  else mret (Some POS_SUCCESS).

(** ** Restoring *)

Abbreviation Q := (M (list POSAPIContext_QE)).

Definition restored_view (hv : Bin_POSHandleView) : POSHandleView :=
  mk_hv None (bv_id hv) (bv_resource_type_id hv) (bv_param_index hv) (bv_offset hv).

(** The copy of a parameter reads the terminating null character at most. *)
Definition restored_param (p : Bin_POSAPIParam) : Q bytes :=
  (if 0 <? bp_size p then mret tt else throw "assertion failed");;
  need "memcpy beyond the parameter" (read_range 0 (Z.to_nat (bp_size p)) (bp_state p ++ [0])).

(** The constructor from a file. After a failure it leaves the members as they are, since the test
    at its end assigns [retval]; what [client] then holds is not defined. *)
Definition apicxt_from_file (type : pos_apicxt_typeid) (content : option bytes) : Q POSAPIContext_QE :=
  b ← need "client is not initialised" (content ≫= ParseFromString);
  ps ← mapM restored_param (bc_params b);
  mret (mk_qe (bc_id b) (mk_api_cxt (bc_api_id b) ps None) (bc_has_return b) type
    (restored_view <$> bc_input b) (restored_view <$> bc_output b) (restored_view <$> bc_create b)
    (restored_view <$> bc_delete b) (restored_view <$> bc_inout b) (bc_ticks b)).

(** The handle of a view, by resource type and id. *)
Definition resolve_view (managers : gmap Z POSHandleManager) (hv : POSHandleView) : Q POSHandleView :=
  match managers !! hv_resource_type_id hv ≫= get_handle_by_id (hv_id hv) with
  | Some p => mret (mk_hv (Some p) (hv_id hv) (hv_resource_type_id hv) (hv_param_index hv) (hv_offset hv))
  | None => throw "null pointer"
  end.

(** [POSClient::__reload_apicxt]; the queue to the worker is the state. *)
Definition reload_apicxt (managers : gmap Z POSHandleManager) (type : pos_apicxt_typeid) (content : option bytes) : Q pos_retval :=
  q ← apicxt_from_file type content;
  input ← mapM (resolve_view managers) (input_handle_views q);
  output ← mapM (resolve_view managers) (output_handle_views q);
  inout ← mapM (resolve_view managers) (inout_handle_views q);
  create ← mapM (resolve_view managers) (create_handle_views q);
  delete ← mapM (resolve_view managers) (delete_handle_views q);
  modify (fun queue => queue ++ [mk_qe (qe_id q) (api_cxt q) (has_return q) (qe_type q) input output create delete inout (qe_ticks q)]);;
  mret POS_SUCCESS.

Fixpoint reload_files (managers : gmap Z POSHandleManager) (type : pos_apicxt_typeid) (d : ckpt_dir) (names : list text) : Q pos_retval :=
  match names with
  | [] => mret POS_SUCCESS
  | name :: names' =>
      r ← reload_apicxt managers type (dir_files d !! name);
      if decide (r = POS_SUCCESS) then reload_files managers type d names' else mret r
  end.

(** The files of a kind, in the order of the set they are inserted into. *)
Definition sorted_files (prefix : text) (d : ckpt_dir) : list text :=
  merge_sort path_le (filter (fun n => is_ckpt_file prefix n = true) (dir_list (dir_files d))).

(** [POSClient::restore_apicxts]; with [recompute] (checkpoints of level 2) the calls to
    recompute come first. *)
Definition restore_apicxts (recompute : bool) (managers : gmap Z POSHandleManager) (d : ckpt_dir) : Q pos_retval :=
  if negb (dir_exists d) then mret POS_FAILED_INVALID_INPUT
  else
    r ← (if recompute then reload_files managers ApiCxt_TypeId_Recomputation d (sorted_files (chars "ra-") d) else mret POS_SUCCESS);
    if decide (r = POS_SUCCESS)
    then reload_files managers ApiCxt_TypeId_Unexecuted d (sorted_files (chars "ua-") d)
    else mret r.
End files.

(** ** Names *)

Lemma stoul_pretty z : 0 <= z < 2 ^ 64 -> stoul (chars (pretty z)) = Some z.
Proof.
  intros Hz. destruct (pretty_digits z) as (ds & -> & Hne & Hall & Hr); [lia|]. specialize (Hr []). rewrite app_nil_r in Hr.
  destruct ds as [|a ds]; [done|]. apply Forall_cons in Hall as [Ha _]. unfold stoul. cbn [skip_spaces].
  rewrite (digit_not_space a Ha), digit_no_sign by done. rewrite Hr. cbn. by rewrite (proj2 (Z.ltb_lt _ _)) by lia.
Qed.

Lemma digits_free ds c : Forall (fun a => is_digit a = true) ds -> is_digit c = false -> c ∉ ds.
Proof. intros Hall Hc Hin. rewrite Forall_forall in Hall. specialize (Hall _ Hin). congruence. Qed.

Lemma getlines_part c s rest : s <> [] -> c ∉ s -> getlines c (s ++ c :: rest) = s :: getlines c rest.
Proof.
  induction s as [|a s IH]; [done|]. intros _ [Hac Hin]%not_elem_of_cons. cbn [app getlines].
  rewrite bool_decide_false by done. destruct (decide (s = [])) as [->|Hs].
  - cbn [app getlines]. by rewrite bool_decide_true.
  - by rewrite IH.
Qed.

Lemma getlines_last c s : s <> [] -> c ∉ s -> getlines c s = [s].
Proof.
  induction s as [|a s IH]; [done|]. intros _ [Hac Hin]%not_elem_of_cons. cbn [getlines].
  rewrite bool_decide_false by done. destruct (decide (s = [])) as [->|Hs]; [done|]. by rewrite IH.
Qed.

Lemma deassemble_handle_file_name rid hid :
  0 <= rid < 2 ^ 32 -> 0 <= hid < 2 ^ 64 -> deassemble_file_name (handle_file_name rid hid) = Some (rid, hid).
Proof.
  intros Hr Hh. pose proof (stoul_pretty rid ltac:(lia)) as Er. pose proof (stoul_pretty hid Hh) as Eh.
  unfold deassemble_file_name, handle_file_name.
  destruct (pretty_digits rid) as (ds & Hds & Hne & Hall & _); [lia|]. destruct (pretty_digits hid) as (ds' & Hds' & Hne' & Hall' & _); [lia|].
  rewrite Hds in *. rewrite Hds' in *.
  rewrite !app_assoc, (split_last_app "."%char _ (chars "bin")) by (apply (bool_decide_unpack _); by vm_compute).
  rewrite <- !app_assoc. change (chars "h-" ++ ds ++ chars "-" ++ ds') with (chars "h" ++ "-"%char :: ds ++ "-"%char :: ds').
  rewrite getlines_part by (done || apply (bool_decide_unpack _); by vm_compute).
  rewrite getlines_part by (done || by eapply digits_free). rewrite getlines_last by (done || by eapply digits_free).
  rewrite bool_decide_true by done. rewrite Er, Eh. cbn. by rewrite (wrap_small 32) by lia.
Qed.

Lemma extension_bin p ds : p <> [] -> extension (p ++ ds ++ chars ".bin") = chars ".bin".
Proof.
  intros Hp. unfold extension. rewrite bool_decide_false.
  - change (chars ".bin") with ("."%char :: chars "bin"). rewrite app_assoc.
    rewrite split_last_app by (apply (bool_decide_unpack _); by vm_compute). destruct p; [done|]. done.
  - intros H%(f_equal length). rewrite !length_app in H. cbn in H. lia.
Qed.

Lemma apicxt_is_ckpt_file id : is_ckpt_file (chars "ua-") (apicxt_file_name ApiCxt_TypeId_Unexecuted id) = true.
Proof.
  unfold is_ckpt_file, apicxt_file_name. rewrite decide_True by done. rewrite extension_bin by done.
  by rewrite bool_decide_true.
Qed.

Lemma chars_inj a b : chars a = chars b -> a = b.
Proof. intros H%(f_equal string_of_list_ascii). by rewrite !string_of_list_ascii_of_string in H. Qed.

Lemma apicxt_file_name_inj t : Inj (=) (=) (apicxt_file_name t).
Proof. intros a b H. apply app_inv_head, app_inv_tail, chars_inj in H. by apply (inj pretty) in H. Qed.

(** *** The order of names *)

(** The digits of a number, whose count bounds it. *)
Lemma pretty_go_bounds x s : (0 < x)%N -> exists ds, chars (pretty_N_go x s) = ds ++ chars s /\
  ds <> [] /\ 10 ^ (Z.of_nat (length ds) - 1) <= Z.of_N x < 10 ^ Z.of_nat (length ds).
Proof.
  revert s. induction (N.lt_wf_0 x) as [x _ IH]. intros s Hx. rewrite pretty_N_go_step by done.
  assert (Z.of_N x = 10 * Z.of_N (x / 10) + Z.of_N (x mod 10)) as Hdiv by (pose proof (N.div_mod x 10); lia).
  assert (x mod 10 < 10)%N as Hmod by (apply N.mod_lt; lia).
  destruct (decide (x / 10 = 0)%N) as [H0|H0].
  - rewrite H0, pretty_N_go_0. exists [pretty_N_char (x `mod` 10)]. rewrite H0 in Hdiv. split_and!; try done; cbn; lia.
  - assert (x / 10 < x)%N as Hlt by (apply N.div_lt; lia). assert (0 < x / 10)%N as Hpos by (by apply N.neq_0_lt_0).
    destruct (IH _ Hlt (String (pretty_N_char (x `mod` 10)) s) Hpos) as (ds & Hds & Hne & Hlo & Hhi).
    exists (ds ++ [pretty_N_char (x `mod` 10)]). split_and!; [by rewrite Hds, <- app_assoc|by destruct ds|..];
      rewrite length_app, Nat2Z.inj_add; change (Z.of_nat (length [pretty_N_char (x `mod` 10)])) with 1.
    + destruct ds as [|c ds]; [done|]. cbn [length] in *.
      rewrite Z.add_simpl_r. replace (Z.of_nat (S (length ds))) with (Z.succ (Z.of_nat (S (length ds)) - 1)) by lia.
      rewrite Z.pow_succ_r by lia. rewrite Hdiv. revert Hlo. generalize (10 ^ (Z.of_nat (S (length ds)) - 1)). intros t Ht.
      pose proof (N2Z.is_nonneg (x mod 10)). revert Ht. generalize (Z.of_N (x / 10)). lia.
    + rewrite Z.pow_add_r by lia. lia.
Qed.

Lemma pretty_length z k : 0 <= k -> 10 ^ k <= z < 10 ^ (k + 1) -> Z.of_nat (length (chars (pretty z))) = k + 1.
Proof.
  intros Hk Hz. assert (0 < 10 ^ k) by lia. destruct z as [|p|p]; [lia| |lia]. change (pretty (Z.pos p)) with (pretty (N.pos p)).
  unfold pretty, pretty_N. rewrite decide_False by done. destruct (pretty_go_bounds (N.pos p) "") as (ds & -> & Hne & Hlo & Hhi); [lia|].
  rewrite app_nil_r. change (Z.of_N (N.pos p)) with (Z.pos p) in *.
  assert (10 ^ (Z.of_nat (length ds) - 1) < 10 ^ (k + 1)) as H1%Z.pow_lt_mono_r_iff by lia; [|lia..].
  assert (10 ^ k < 10 ^ Z.of_nat (length ds)) as H2%Z.pow_lt_mono_r_iff by lia; [|lia..]. lia.
Qed.

(** Reading digits is monotonic in the order of their codes. *)
Lemma digits_value ds a : Forall (fun c => is_digit c = true) ds ->
  exists v, digits ds (Some a) = Some (a * 10 ^ Z.of_nat (length ds) + v) /\ 0 <= v < 10 ^ Z.of_nat (length ds).
Proof.
  revert a. induction ds as [|c ds IH]; intros a Hall.
  - exists 0. cbn [digits length]. change (10 ^ Z.of_nat 0) with 1. split; [f_equal; lia|lia].
  - apply Forall_cons in Hall as [Hc Hall]. cbn [digits length]. rewrite Hc. cbn [default from_option id].
    destruct (IH (10 * a + (Z.of_N (N_of_ascii c) - 48)) Hall) as (v & -> & Hv). unfold is_digit in Hc.
    assert (0 <= Z.of_N (N_of_ascii c) - 48 <= 9) as Hd by (apply andb_true_iff in Hc as [H1%N.leb_le H2%N.leb_le]; lia).
    exists ((Z.of_N (N_of_ascii c) - 48) * 10 ^ Z.of_nat (length ds) + v). rewrite Nat2Z.inj_succ, Z.pow_succ_r by lia.
    revert Hd Hv. generalize (Z.of_N (N_of_ascii c) - 48) (10 ^ Z.of_nat (length ds)). intros x t Hx Hv. split; [f_equal; lia|nia].
Qed.

Lemma digits_lt ds ds' a v v' r r' :
  Forall (fun c => is_digit c = true) ds -> Forall (fun c => is_digit c = true) ds' -> length ds = length ds' ->
  digits ds (Some a) = Some v -> digits ds' (Some a) = Some v' -> v < v' ->
  bytes_lt ((code <$> ds) ++ r) ((code <$> ds') ++ r') = true.
Proof.
  revert ds' a v v'. induction ds as [|c ds IH]; intros [|c' ds'] a v v' Hall Hall'; try done; cbn [digits].
  { intros _ [= <-] [= <-]. lia. }
  apply Forall_cons in Hall as [Hc Hall], Hall' as [Hc' Hall']. rewrite Hc, Hc'. cbn [default from_option id].
  intros [= Hlen] Hv Hv' Hlt. cbn [fmap list_fmap app bytes_lt]. change (code c) with (Z.of_N (N_of_ascii c)). change (code c') with (Z.of_N (N_of_ascii c')).
  destruct (digits_value ds (10 * a + (Z.of_N (N_of_ascii c) - 48)) Hall) as (w & E & Hw). rewrite E in Hv. injection Hv as <-.
  destruct (digits_value ds' (10 * a + (Z.of_N (N_of_ascii c') - 48)) Hall') as (w' & E' & Hw'). rewrite E' in Hv'. injection Hv' as <-.
  rewrite Hlen in *. destruct (Z.ltb_spec (Z.of_N (N_of_ascii c)) (Z.of_N (N_of_ascii c'))); [done|].
  assert (Z.of_N (N_of_ascii c) = Z.of_N (N_of_ascii c')) as Hcc by nia. rewrite Hcc, Z.eqb_refl. cbn [orb andb].
  rewrite Hcc in E, Hlt. by apply (IH ds' (10 * a + (Z.of_N (N_of_ascii c') - 48)) _ _ Hall Hall' eq_refl E E').
Qed.

Lemma digits_start ds : ds <> [] -> Forall (fun c => is_digit c = true) ds -> digits ds (Some 0) = digits ds None.
Proof. destruct ds as [|c ds]; [done|]. intros _ [Hc _]%Forall_cons. cbn [digits]. by rewrite Hc. Qed.

(** Ids with the same number of digits are in the order of their names. *)
Lemma apicxt_name_order t k a b : 0 <= k -> 10 ^ k <= a < 10 ^ (k + 1) -> 10 ^ k <= b < 10 ^ (k + 1) -> a < b ->
  path_lt (apicxt_file_name t a) (apicxt_file_name t b) = true.
Proof.
  intros Hk Ha Hb Hab. pose proof (pretty_length a k Hk Ha) as La. pose proof (pretty_length b k Hk Hb) as Lb. assert (0 < 10 ^ k) by lia.
  unfold path_lt, apicxt_file_name. rewrite !fmap_app, bytes_lt_app.
  destruct (pretty_digits a) as (ds & E & Hne & Hall & Hr); [lia|]. destruct (pretty_digits b) as (ds' & E' & Hne' & Hall' & Hr'); [lia|].
  rewrite E in *. rewrite E' in *. specialize (Hr []). specialize (Hr' []). rewrite app_nil_r in Hr, Hr'.
  apply (digits_lt ds ds' 0 a b); try done; [lia|..].
  - by rewrite digits_start.
  - by rewrite digits_start.
Qed.

Lemma code_inj : Inj (=) (=) code.
Proof. intros a b H. apply N2Z.inj in H. rewrite <- (ascii_N_embedding a), <- (ascii_N_embedding b). by rewrite H. Qed.

#[export] Instance path_le_trans : Transitive path_le.
Proof.
  intros a b c Hab Hbc. unfold path_le, path_lt in *. destruct (bytes_lt (code <$> c) (code <$> a)) eqn:Hca; [|done].
  destruct (bytes_lt (code <$> a) (code <$> b)) eqn:Hl.
  - by rewrite (bytes_lt_trans _ _ _ Hca Hl) in Hbc.
  - pose proof (bytes_lt_total _ _ Hl Hab) as E. rewrite E in Hca. congruence.
Qed.
#[export] Instance path_le_total : Total path_le.
Proof.
  intros a b. unfold path_le, path_lt. destruct (bytes_lt (code <$> b) (code <$> a)) eqn:Hba; [right|by left].
  destruct (bytes_lt (code <$> a) (code <$> b)) eqn:Hab; [|done].
  pose proof (bytes_lt_trans _ _ _ Hba Hab) as H. by rewrite bytes_lt_irrefl in H.
Qed.

Lemma path_le_lt a b : path_le a b -> a <> b -> path_lt a b = true.
Proof.
  intros Hle Hne. destruct (path_lt a b) eqn:Hlt; [done|]. destruct Hne. pose proof code_inj. apply (inj (fmap code)).
  by apply bytes_lt_total.
Qed.

Lemma path_lt_asym a b : path_lt a b = true -> path_lt b a = true -> False.
Proof. intros H1 H2. pose proof (bytes_lt_trans _ _ _ H1 H2) as H. by rewrite bytes_lt_irrefl in H. Qed.

(** ** What a call becomes *)

Section calls.
Implicit Types (q : POSAPIContext_QE) (hv : POSHandleView) (heap : handle_heap) (managers : gmap Z POSHandleManager).

Definition all_views q : list POSHandleView :=
  input_handle_views q ++ output_handle_views q ++ create_handle_views q ++ delete_handle_views q ++ inout_handle_views q.

(** The resource type and the id of the handle of a view. *)
Definition view_target heap hv : option (Z * Z) := p ← hv_handle hv; '(rid, h) ← heap !! p; Some (rid, h_id h).

(** A call as the parser makes it: its views have handles, its parameters are not empty. *)
Definition qe_ok heap q : Prop :=
  0 <= qe_id q /\ is_Some (retval_size (api_cxt q)) /\ Forall (fun v => v <> []) (params (api_cxt q)) /\
  Forall (fun hv => is_Some (view_target heap hv)) (all_views q).

(** The handles of its views exist again. *)
Definition view_found heap managers hv : Prop :=
  exists rid hid p, view_target heap hv = Some (rid, hid) /\ managers !! rid ≫= get_handle_by_id hid = Some p.

(** The same view of the handle that has the type and the id among [managers]. *)
Definition moved_view heap managers hv : POSHandleView :=
  let '(rid, hid) := default (0, 0) (view_target heap hv) in
  mk_hv (managers !! rid ≫= get_handle_by_id hid) hid rid (hv_param_index hv) (hv_offset hv).

Definition moved heap managers (t : pos_apicxt_typeid) q : POSAPIContext_QE :=
  let f := map (moved_view heap managers) in
  mk_qe (qe_id q) (mk_api_cxt (api_id (api_cxt q)) (params (api_cxt q)) None) (has_return q) t
    (f (input_handle_views q)) (f (output_handle_views q)) (f (create_handle_views q))
    (f (delete_handle_views q)) (f (inout_handle_views q)) (qe_ticks q).

(** The message of a call. *)
Definition bin_view heap hv : Bin_POSHandleView :=
  let '(rid, hid) := default (0, 0) (view_target heap hv) in mk_bin_hv rid hid (hv_param_index hv) (hv_offset hv).
Definition bin_param (v : bytes) : Bin_POSAPIParam := mk_bin_param (Z.of_nat (length v)) v.
Definition bin_cxt heap q : Bin_POSAPIContext :=
  let f := map (bin_view heap) in
  mk_bin_cxt (qe_id q) (api_id (api_cxt q)) (has_return q) (f (input_handle_views q)) (f (output_handle_views q))
    (f (create_handle_views q)) (f (delete_handle_views q)) (f (inout_handle_views q)) (qe_ticks q)
    (map bin_param (params (api_cxt q))) (default 0 (retval_size (api_cxt q))).
End calls.

(** Running the first part of a sequence. *)
Lemma bind_ok {S A C} (m : M S A) (k : A -> M S C) s e a s' e' : m s e = Ok a s' e' -> (m ≫= k) s e = k a s' e'.
Proof. intros H. unfold mbind, M_bind. by rewrite H. Qed.

Lemma bind_throw {S A C} (m : M S A) (k : A -> M S C) s e w s' e' : m s e = Throw w s' e' -> (m ≫= k) s e = Throw w s' e'.
Proof. intros H. unfold mbind, M_bind. by rewrite H. Qed.

(** A loop whose body returns and changes nothing. *)
Lemma mapM_run {S A C} (f : A -> M S C) (g : A -> C) (l : list A) s e :
  Forall (fun x => f x s e = Ok (g x) s e) l -> mapM f l s e = Ok (map g l) s e.
Proof.
  induction 1 as [|x l Hx _ IH]; [done|]. cbn [mapM map]. by rewrite (bind_ok _ _ _ _ _ _ _ Hx), (bind_ok _ _ _ _ _ _ _ IH).
Qed.

Section round_trip.
Context `{!Disk, !Proto Bin_POSAPIContext}.
Implicit Types (d : ckpt_dir) (q : POSAPIContext_QE) (heap : handle_heap) (managers : gmap Z POSHandleManager).

Abbreviation ua := (fun q => apicxt_file_name ApiCxt_TypeId_Unexecuted (qe_id q)).

(** The disk takes the file of a call. *)
Definition disk_takes q : Prop := can_open (ua q) = true /\ can_write (ua q) = true.

Lemma persist_view_run heap hv d e :
  is_Some (view_target heap hv) -> persist_view heap hv d e = Ok (bin_view heap hv) d e.
Proof.
  intros [[rid hid] Hv]. unfold bin_view. rewrite Hv. unfold view_target in Hv. unfold persist_view.
  destruct (hv_handle hv) as [p|]; [|done]. cbn in Hv. destruct (heap !! p) as [[r h]|] eqn:Hp; [|done]. injection Hv as <- <-.
  by unfold mbind, M_bind, need.
Qed.

Lemma persist_run heap q d e :
  dir_exists d = true -> qe_ok heap q -> disk_takes q ->
  persist true ApiCxt_TypeId_Unexecuted heap q d e = Ok POS_SUCCESS (set_file (ua q) (SerializeAsString (bin_cxt heap q)) d) e.
Proof.
  intros Hd (_ & [n Hn] & Hps & Hvs) [Ho Hw]. unfold persist, bin_cxt. rewrite Hn. unfold all_views in Hvs. rewrite !Forall_app in Hvs.
  destruct Hvs as (H1 & H2 & H3 & H4 & H5).
  assert (forall l, Forall (fun hv => is_Some (view_target heap hv)) l -> mapM (persist_view heap) l d e = Ok (map (bin_view heap) l) d e) as Hm.
  { intros l Hl. apply mapM_run. eapply Forall_impl; [exact Hl|]. intros hv. apply persist_view_run. }
  assert (mapM persist_param (params (api_cxt q)) d e = Ok (map bin_param (params (api_cxt q))) d e) as Hp.
  { apply mapM_run. eapply Forall_impl; [exact Hps|]. intros v Hv. unfold persist_param. rewrite bool_decide_false by done. done. }
  assert (dir_assert (dir_exists d) d e = Ok tt d e) as Ha by (by rewrite Hd).
  rewrite (bind_ok get _ d e d d e eq_refl), (bind_ok _ _ _ _ _ _ _ Ha), (bind_ok (need _ (Some n)) _ d e n d e eq_refl).
  rewrite (bind_ok _ _ _ _ _ _ _ (Hm _ H1)), (bind_ok _ _ _ _ _ _ _ (Hm _ H2)), (bind_ok _ _ _ _ _ _ _ (Hm _ H3)),
    (bind_ok _ _ _ _ _ _ _ (Hm _ H4)), (bind_ok _ _ _ _ _ _ _ (Hm _ H5)), (bind_ok _ _ _ _ _ _ _ Hp).
  unfold write_file. by rewrite Ho, Hw.
Qed.

(** The directory after all calls of a list are saved, and the greatest id. *)
Definition save_all heap (wqes : list POSAPIContext_QE) d : ckpt_dir :=
  foldl (fun d q => set_file (ua q) (SerializeAsString (bin_cxt heap q)) d) d wqes.
Definition max_id (m : Z) (wqes : list POSAPIContext_QE) : Z := foldl Z.max m (map qe_id wqes).

Lemma save_all_exists heap wqes d : dir_exists (save_all heap wqes d) = dir_exists d.
Proof. revert d. induction wqes as [|q wqes IH]; intros d; [done|]. exact (IH _). Qed.

Lemma persist_batch_run heap wqes m d e :
  dir_exists d = true -> Forall (qe_ok heap) wqes -> Forall disk_takes wqes ->
  persist_batch heap wqes m d e = Ok (POS_SUCCESS, max_id m wqes) (save_all heap wqes d) e.
Proof.
  intros Hd Hq. revert m d Hd. induction Hq as [|q wqes Hq _ IH]; intros m d Hd Ht; [done|].
  apply Forall_cons in Ht as [Ht Hts]. cbn [persist_batch]. rewrite (bind_ok _ _ _ _ _ _ _ (persist_run heap q d e Hd Hq Ht)).
  rewrite decide_True by done. rewrite IH by done. unfold max_id, save_all. cbn [map foldl]. do 3 f_equal.
  destruct (Z.ltb_spec m (qe_id q)); lia.
Qed.

Lemma max_id_bounds m wqes b : m <= b -> Forall (fun q => qe_id q <= b) wqes ->
  max_id m wqes <= b /\ m <= max_id m wqes /\ forall q, q ∈ wqes -> qe_id q <= max_id m wqes.
Proof.
  intros Hm Hl. revert m Hm. induction Hl as [|q wqes Hq _ IH]; intros m Hm; unfold max_id; cbn [map foldl].
  - split_and!; [done|done|]. by intros q ?%not_elem_of_nil.
  - destruct (IH (Z.max m (qe_id q)) ltac:(lia)) as (H1 & H2 & H3). unfold max_id in *. split_and!; [done|lia|].
    intros q' [->|Hin]%elem_of_cons; [lia|by apply H3].
Qed.

(** The loop ends with the batch that has the last call. *)
Lemma persist_unexecuted_run heap pc executed bs b more m d e :
  0 < pc < 2 ^ 64 -> executed < pc - 1 -> m < pc - 1 ->
  dir_exists d = true -> Forall (qe_ok heap) (concat (bs ++ [b])) -> Forall disk_takes (concat (bs ++ [b])) ->
  Forall (fun q => qe_id q < pc - 1) (concat bs) -> Forall (fun q => qe_id q <= pc - 1) b -> (exists q, q ∈ b /\ qe_id q = pc - 1) ->
  persist_unexecuted heap pc executed (bs ++ b :: more) m d e = Ok (Some POS_SUCCESS) (save_all heap (concat (bs ++ [b])) d) e.
Proof.
  intros Hpc He. assert (u64 (pc - 1) = pc - 1) as Hu by (apply wrap_small; lia). revert m d.
  induction bs as [|l bs IH]; intros m d Hm Hd Hok Hdisk Hlt Hle (q & Hq & Hqid).
  - cbn in Hok, Hdisk. rewrite app_nil_r in Hok, Hdisk. cbn [app concat]. rewrite app_nil_r.
    destruct (max_id_bounds m b (pc - 1) ltac:(lia) Hle) as (H1 & _ & H3). specialize (H3 q Hq).
    cbn [persist_unexecuted]. rewrite Hu, !(proj2 (Z.ltb_lt _ _)) by lia. cbn [andb].
    rewrite (bind_ok _ _ _ _ _ _ _ (persist_batch_run heap b m d e Hd Hok Hdisk)). cbv beta iota. rewrite decide_True by done.
    destruct more; cbn [persist_unexecuted]; by rewrite Hu, (proj2 (Z.ltb_ge (max_id m b) (pc - 1))) by lia.
  - cbn [app concat] in *. rewrite !Forall_app in *. destruct Hok as [Hok1 Hok2], Hdisk as [Hd1 Hd2], Hlt as [Hl1 Hl2].
    cbn [persist_unexecuted]. rewrite Hu, !(proj2 (Z.ltb_lt _ _)) by lia. cbn [andb].
    rewrite (bind_ok _ _ _ _ _ _ _ (persist_batch_run heap l m d e Hd Hok1 Hd1)). cbv beta iota. rewrite decide_True by done.
    assert (Forall (fun q => qe_id q <= pc - 2) l) as Hl by (eapply Forall_impl; [exact Hl1|]; cbn; lia).
    destruct (max_id_bounds m l (pc - 2) ltac:(lia) Hl) as (H1 & _ & _).
    rewrite IH; [|lia|by rewrite save_all_exists|done|done|done|done|by exists q].
    unfold save_all. by rewrite foldl_app.
Qed.

Lemma save_all_lookup heap wqes d name :
  NoDup (map qe_id wqes) ->
  dir_files (save_all heap wqes d) !! name =
    match list_find (fun q => ua q = name) wqes with
    | Some (_, q) => Some (SerializeAsString (bin_cxt heap q))
    | None => dir_files d !! name
    end.
Proof.
  revert d. induction wqes as [|q wqes IH]; intros d Hn; [done|]. cbn [map] in Hn. apply NoDup_cons in Hn as [Hnot Hn].
  unfold save_all. cbn [foldl]. fold (save_all heap wqes). unfold save_all in IH. rewrite IH by done. cbn [list_find].
  destruct (decide (ua q = name)) as [<-|Hne].
  - destruct (list_find _ wqes) as [[i q']|] eqn:Hf; [|by cbn; rewrite lookup_insert_eq].
    apply list_find_Some in Hf as (Hl & Heq & _). apply apicxt_file_name_inj in Heq. destruct Hnot. rewrite <- Heq.
    apply list_elem_of_fmap_2. by eapply list_elem_of_lookup_2.
  - destruct (list_find _ wqes) as [[i q']|] eqn:Hf; cbn; [done|by rewrite lookup_insert_ne].
Qed.

(** *** Reloading *)

Lemma resolve_view_run heap managers hv (queue : list POSAPIContext_QE) e :
  view_found heap managers hv ->
  resolve_view managers (restored_view (bin_view heap hv)) queue e = Ok (moved_view heap managers hv) queue e.
Proof.
  intros (rid & hid & p & Ht & Hp). unfold bin_view, moved_view. rewrite Ht. unfold resolve_view. cbn. cbn in Hp. by rewrite Hp.
Qed.

Lemma restored_param_run v (queue : list POSAPIContext_QE) e :
  v <> [] -> restored_param (bin_param v) queue e = Ok v queue e.
Proof.
  intros Hv. unfold restored_param, bin_param. cbn [bp_size bp_state].
  assert (0 < length v)%nat by (destruct v; [done|cbn; lia]). rewrite (proj2 (Z.ltb_lt 0 _)) by lia. rewrite Nat2Z.id.
  unfold read_range. rewrite decide_True by (rewrite length_app; lia). rewrite drop_0, take_app_length. done.
Qed.

Lemma reload_apicxt_run heap managers t q queue e :
  qe_ok heap q -> Forall (view_found heap managers) (all_views q) ->
  reload_apicxt managers t (Some (SerializeAsString (bin_cxt heap q))) queue e = Ok POS_SUCCESS (queue ++ [moved heap managers t q]) e.
Proof.
  intros (_ & _ & Hps & _) Hvs. unfold all_views in Hvs. rewrite !Forall_app in Hvs. destruct Hvs as (H1 & H2 & H3 & H4 & H5).
  assert (forall l, Forall (view_found heap managers) l ->
    mapM (resolve_view managers) (restored_view <$> map (bin_view heap) l) queue e = Ok (map (moved_view heap managers) l) queue e) as Hm.
  { intros l Hl. induction Hl as [|hv l Hv _ IH]; [done|]. cbn [map fmap list_fmap mapM].
    by rewrite (bind_ok _ _ _ _ _ _ _ (resolve_view_run heap managers hv queue e Hv)), (bind_ok _ _ _ _ _ _ _ IH). }
  assert (mapM restored_param (map bin_param (params (api_cxt q))) queue e = Ok (params (api_cxt q)) queue e) as Hp.
  { clear -Hps. induction Hps as [|v l Hv _ IH]; [done|]. cbn [map mapM].
    by rewrite (bind_ok _ _ _ _ _ _ _ (restored_param_run v queue e Hv)), (bind_ok _ _ _ _ _ _ _ IH). }
  unfold reload_apicxt, apicxt_from_file. cbn [mbind option_bind]. rewrite parse_serialize.
  erewrite bind_ok; [|rewrite (bind_ok (need _ (Some _)) _ _ _ _ _ _ eq_refl), (bind_ok _ _ _ _ _ _ _ Hp); reflexivity].
  cbn [bin_cxt input_handle_views output_handle_views create_handle_views delete_handle_views inout_handle_views bc_input bc_output
    bc_create bc_delete bc_inout].
  rewrite (bind_ok _ _ _ _ _ _ _ (Hm _ H1)), (bind_ok _ _ _ _ _ _ _ (Hm _ H2)), (bind_ok _ _ _ _ _ _ _ (Hm _ H5)),
    (bind_ok _ _ _ _ _ _ _ (Hm _ H3)), (bind_ok _ _ _ _ _ _ _ (Hm _ H4)).
  done.
Qed.

(** A view whose handle does not exist: the call is not queued. *)
Lemma resolve_views heap managers l (queue : list POSAPIContext_QE) e : Forall (fun hv => is_Some (view_target heap hv)) l ->
  let r := mapM (resolve_view managers) (restored_view <$> map (bin_view heap) l) queue e in
  Forall (view_found heap managers) l /\ r = Ok (map (moved_view heap managers) l) queue e \/
  ~ Forall (view_found heap managers) l /\ r = Throw "null pointer" queue e.
Proof.
  induction 1 as [|hv l [[rid hid] Ht] _ IH]; [by left|]. cbn [map fmap list_fmap mapM] in *. cbv zeta in *.
  destruct (managers !! rid ≫= get_handle_by_id hid) as [p|] eqn:Hp.
  - assert (view_found heap managers hv) as Hv by (by exists rid, hid, p).
    rewrite (bind_ok _ _ _ _ _ _ _ (resolve_view_run heap managers hv queue e Hv)). destruct IH as [[Hl Hr]|[Hl Hr]].
    + left. split; [by constructor|]. by rewrite (bind_ok _ _ _ _ _ _ _ Hr).
    + right. split; [by intros [_ ?]%Forall_cons|]. by rewrite (bind_throw _ _ _ _ _ _ _ Hr).
  - right. split; [intros [(rid' & hid' & p & Ht' & Hp') _]%Forall_cons; congruence|].
    apply bind_throw. unfold resolve_view, bin_view, restored_view. rewrite Ht. cbn in *. by rewrite Hp.
Qed.

Lemma reload_apicxt_missing heap managers t q queue e : qe_ok heap q -> ~ Forall (view_found heap managers) (all_views q) ->
  reload_apicxt managers t (Some (SerializeAsString (bin_cxt heap q))) queue e = Throw "null pointer" queue e.
Proof.
  intros (_ & _ & Hps & Hts) Hvs. unfold all_views in Hts, Hvs. rewrite !Forall_app in Hts. destruct Hts as (T1 & T2 & T3 & T4 & T5).
  assert (mapM restored_param (map bin_param (params (api_cxt q))) queue e = Ok (params (api_cxt q)) queue e) as Hp.
  { clear -Hps. induction Hps as [|v l Hv _ IH]; [done|]. cbn [map mapM].
    by rewrite (bind_ok _ _ _ _ _ _ _ (restored_param_run v queue e Hv)), (bind_ok _ _ _ _ _ _ _ IH). }
  unfold reload_apicxt, apicxt_from_file. cbn [mbind option_bind]. rewrite parse_serialize.
  erewrite bind_ok; [|rewrite (bind_ok (need _ (Some _)) _ _ _ _ _ _ eq_refl), (bind_ok _ _ _ _ _ _ _ Hp); reflexivity].
  cbn [bin_cxt input_handle_views output_handle_views create_handle_views delete_handle_views inout_handle_views bc_input bc_output
    bc_create bc_delete bc_inout].
  destruct (resolve_views heap managers _ queue e T1) as [[H1 R1]|[_ R1]]; [rewrite (bind_ok _ _ _ _ _ _ _ R1)|by rewrite (bind_throw _ _ _ _ _ _ _ R1)].
  destruct (resolve_views heap managers _ queue e T2) as [[H2 R2]|[_ R2]]; [rewrite (bind_ok _ _ _ _ _ _ _ R2)|by rewrite (bind_throw _ _ _ _ _ _ _ R2)].
  destruct (resolve_views heap managers _ queue e T5) as [[H5 R5]|[_ R5]]; [rewrite (bind_ok _ _ _ _ _ _ _ R5)|by rewrite (bind_throw _ _ _ _ _ _ _ R5)].
  destruct (resolve_views heap managers _ queue e T3) as [[H3 R3]|[_ R3]]; [rewrite (bind_ok _ _ _ _ _ _ _ R3)|by rewrite (bind_throw _ _ _ _ _ _ _ R3)].
  destruct (resolve_views heap managers _ queue e T4) as [[H4 R4]|[_ R4]]; [|by rewrite (bind_throw _ _ _ _ _ _ _ R4)].
  destruct Hvs. by repeat apply Forall_app_2.
Qed.

(** The files that restoring finds are those of the calls that were saved. *)
Lemma sorted_files_saved heap wqes d :
  NoDup (map qe_id wqes) -> map_Forall (fun n _ => is_ckpt_file (chars "ua-") n = false) (dir_files d) ->
  exists l, l ≡ₚ wqes /\ sorted_files (chars "ua-") (save_all heap wqes d) = map ua l.
Proof.
  intros Hn Hd. set (m := dir_files (save_all heap wqes d)).
  assert (filter (fun n => is_ckpt_file (chars "ua-") n = true) (dir_list m) ≡ₚ map ua wqes) as Hp.
  { apply NoDup_Permutation.
    - apply NoDup_filter. rewrite dir_list_perm. apply NoDup_fst_map_to_list.
    - rewrite <- (map_map qe_id (apicxt_file_name ApiCxt_TypeId_Unexecuted)). pose proof (apicxt_file_name_inj ApiCxt_TypeId_Unexecuted).
      by apply (NoDup_fmap_2 (apicxt_file_name ApiCxt_TypeId_Unexecuted)).
    - intros name. rewrite list_elem_of_filter, dir_list_perm. split.
      + intros [Hc ([n c] & -> & Hin)%list_elem_of_fmap]. apply elem_of_map_to_list in Hin. unfold m in Hin.
        rewrite save_all_lookup in Hin by done. destruct (list_find _ wqes) as [[i q]|] eqn:Hf.
        * apply list_find_Some in Hf as (Hl & <- & _). apply list_elem_of_fmap. exists q. split; [done|]. by eapply list_elem_of_lookup_2.
        * specialize (Hd _ _ Hin). cbv beta in Hd. cbn [fst] in Hc, Hd. by rewrite Hd in Hc.
      + intros (q & -> & Hin)%list_elem_of_fmap. split; [apply apicxt_is_ckpt_file|].
        destruct (list_find (fun q' => ua q' = ua q) wqes) as [[i q']|] eqn:Hf.
        * apply list_elem_of_fmap. exists (ua q, SerializeAsString (bin_cxt heap q')). split; [done|].
          apply elem_of_map_to_list. unfold m. rewrite save_all_lookup by done. by rewrite Hf.
        * apply list_find_None in Hf. rewrite Forall_forall in Hf. by destruct (Hf q Hin). }
  unfold sorted_files. fold m. rewrite <- (merge_sort_Permutation path_le) in Hp. apply Permutation_map_inv in Hp as (l & El & Hl).
  exists l. split; [by rewrite Hl|done].
Qed.

Lemma reload_files_run heap managers t d l queue e :
  Forall (qe_ok heap) l -> Forall (fun q => Forall (view_found heap managers) (all_views q)) l ->
  Forall (fun q => dir_files d !! ua q = Some (SerializeAsString (bin_cxt heap q))) l ->
  reload_files managers t d (map ua l) queue e = Ok POS_SUCCESS (queue ++ map (moved heap managers t) l) e.
Proof.
  intros Hok. revert queue. induction Hok as [|q l Hq _ IH]; intros queue Hv Hf; [cbn; by rewrite app_nil_r|].
  apply Forall_cons in Hv as [Hv Hvs], Hf as [Hf Hfs]. cbn [map reload_files]. rewrite Hf.
  rewrite (bind_ok _ _ _ _ _ _ _ (reload_apicxt_run heap managers t q queue e Hq Hv)), decide_True by done.
  rewrite IH by done. by rewrite <- app_assoc.
Qed.

Lemma reload_files_stops heap managers t d l1 q l2 queue e :
  Forall (qe_ok heap) (l1 ++ q :: l2) -> Forall (fun q => Forall (view_found heap managers) (all_views q)) l1 ->
  ~ Forall (view_found heap managers) (all_views q) ->
  Forall (fun q => dir_files d !! ua q = Some (SerializeAsString (bin_cxt heap q))) (l1 ++ q :: l2) ->
  reload_files managers t d (map ua (l1 ++ q :: l2)) queue e = Throw "null pointer" (queue ++ map (moved heap managers t) l1) e.
Proof.
  intros Hok Hv Hq. revert queue Hok. induction Hv as [|q1 l1 Hv1 _ IH]; intros queue Hok Hf; cbn [app] in *;
    apply Forall_cons in Hok as [Hok1 Hok], Hf as [Hf1 Hf]; cbn [map reload_files]; rewrite Hf1.
  - cbn [map]. rewrite app_nil_r. by apply bind_throw, reload_apicxt_missing.
  - rewrite (bind_ok _ _ _ _ _ _ _ (reload_apicxt_run heap managers t q1 queue e Hok1 Hv1)), decide_True by done.
    rewrite IH by done. by rewrite <- app_assoc.
Qed.

Lemma same_id l q q' : NoDup (map qe_id l) -> q ∈ l -> q' ∈ l -> qe_id q = qe_id q' -> q = q'.
Proof.
  intros Hn (i & Hi)%list_elem_of_lookup (j & Hj)%list_elem_of_lookup E.
  assert (i = j) as ->; [|congruence]. apply (NoDup_lookup _ _ _ (qe_id q) Hn); rewrite list_lookup_fmap; [by rewrite Hi|by rewrite Hj, E].
Qed.

Lemma strict_order l : NoDup (map qe_id l) -> StronglySorted path_le (map ua l) ->
  StronglySorted (fun q q' => path_lt (ua q) (ua q') = true) l.
Proof.
  induction l as [|q l IH]; cbn [map]; [constructor|]. intros [Hnot Hn]%NoDup_cons [Hs Hall]%StronglySorted_inv.
  constructor; [by apply IH|]. rewrite Forall_forall in Hall. apply Forall_forall. intros q' Hin. apply path_le_lt.
  - apply Hall. by apply (list_elem_of_fmap_2 ua).
  - intros E%apicxt_file_name_inj. destruct Hnot. rewrite E. by apply (list_elem_of_fmap_2 qe_id).
Qed.

Lemma order_by_id k l : 0 <= k -> Forall (fun q => 10 ^ k <= qe_id q < 10 ^ (k + 1)) l -> NoDup (map qe_id l) ->
  StronglySorted (fun q q' => path_lt (ua q) (ua q') = true) l -> StronglySorted Z.lt (map qe_id l).
Proof.
  intros Hk Hl. induction Hl as [|q l Hq Hl IH]; cbn [map]; [constructor|]. intros [Hnot Hn]%NoDup_cons [Hs Hall]%StronglySorted_inv.
  constructor; [by apply IH|]. rewrite Forall_forall in Hall, Hl. apply Forall_forall. intros id (q' & -> & Hin)%list_elem_of_fmap.
  destruct (Z.lt_trichotomy (qe_id q) (qe_id q')) as [?|[E|Hgt]]; [done|..].
  - destruct Hnot. rewrite E. by apply (list_elem_of_fmap_2 qe_id).
  - exfalso. eapply path_lt_asym; [by apply Hall|]. eapply apicxt_name_order; eauto.
Qed.

(** A dump that runs without failure: the directory exists and has no saved calls yet, the disk takes
    the files, the calls come from the parser and not from an earlier restore; those of the batches
    [bs] and [b] are not executed, the last one issued is in [b]. *)
Record dump_ok heap d (pc executed : Z) (bs : list (list POSAPIContext_QE)) (b : list POSAPIContext_QE) : Prop := {
  do_dir : dir_exists d = true;
  do_new : map_Forall (fun n _ => is_ckpt_file (chars "ua-") n = false) (dir_files d);
  do_pc : 1 < pc < 2 ^ 64;
  do_executed : executed < pc - 1;
  do_ids : NoDup (map qe_id (concat (bs ++ [b])));
  do_calls : Forall (qe_ok heap) (concat (bs ++ [b]));
  do_disk : Forall disk_takes (concat (bs ++ [b]));
  do_before : Forall (fun q => qe_id q < pc - 1) (concat bs);
  do_upto : Forall (fun q => qe_id q <= pc - 1) b;
  do_last : exists q, q ∈ b /\ qe_id q = pc - 1
}.

(** C13. A dump in which every write succeeds, after at least two calls were issued, into a
    directory without files of calls, saves the calls that were issued and not executed, when they
    come from the parser (a call that was itself restored cannot be saved). A restore into
    managers in which the handles of all their views exist again queues these calls, each once and
    with its parameters and handles, in the order of their file names, which is the order of the
    calls when their ids have the same number of digits. At the first call with a handle that does
    not exist, for example one that the call itself was to create and that the dump of the handles
    skips, the restore ends with an exception, with only the calls before it queued. *)
Theorem unexecuted_round_trip heap d pc executed bs b more e :
  dump_ok heap d pc executed bs b ->
  exists d' l,
    persist_unexecuted heap pc executed (bs ++ b :: more) 0 d e = Ok (Some POS_SUCCESS) d' e /\
    l ≡ₚ concat (bs ++ [b]) /\
    StronglySorted (fun q q' => path_lt (ua q) (ua q') = true) l /\
    (forall k, 0 <= k -> Forall (fun q => 10 ^ k <= qe_id q < 10 ^ (k + 1)) (concat (bs ++ [b])) -> StronglySorted Z.lt (map qe_id l)) /\
    (forall managers, Forall (fun q => Forall (view_found heap managers) (all_views q)) l ->
      restore_apicxts false managers d' [] e = Ok POS_SUCCESS (map (moved heap managers ApiCxt_TypeId_Unexecuted) l) e) /\
    (forall managers l1 q l2, l = l1 ++ q :: l2 -> Forall (fun q => Forall (view_found heap managers) (all_views q)) l1 ->
      ~ Forall (view_found heap managers) (all_views q) ->
      restore_apicxts false managers d' [] e = Throw "null pointer" (map (moved heap managers ApiCxt_TypeId_Unexecuted) l1) e).
Proof.
  intros [Hd Hnew Hpc Hex Hids Hok Hdisk Hbef Hup Hlast].
  destruct (sorted_files_saved heap _ d Hids Hnew) as (l & Hl & Hs).
  exists (save_all heap (concat (bs ++ [b])) d), l. rewrite persist_unexecuted_run by (done || lia).
  assert (NoDup (map qe_id l)) as Hnl by (by rewrite Hl).
  assert (StronglySorted (fun q q' => path_lt (ua q) (ua q') = true) l) as Hord.
  { apply strict_order; [done|]. rewrite <- Hs. apply (StronglySorted_merge_sort path_le). }
  assert (forall managers, restore_apicxts false managers (save_all heap (concat (bs ++ [b])) d) [] e =
    reload_files managers ApiCxt_TypeId_Unexecuted (save_all heap (concat (bs ++ [b])) d) (map ua l) [] e) as Hrun.
  { intros managers. unfold restore_apicxts. rewrite save_all_exists, Hd. cbn [negb].
    rewrite (bind_ok (mret POS_SUCCESS) _ _ _ _ _ _ eq_refl), decide_True by done. by rewrite Hs. }
  assert (Forall (fun q => dir_files (save_all heap (concat (bs ++ [b])) d) !! ua q = Some (SerializeAsString (bin_cxt heap q))) l) as Hfiles.
  { rewrite Hl. apply Forall_forall. intros q Hin. rewrite save_all_lookup by done. destruct (list_find _ _) as [[i q']|] eqn:Hf.
    - apply list_find_Some in Hf as (Hi & E%apicxt_file_name_inj & _). do 3 f_equal.
      apply (same_id (concat (bs ++ [b]))); [done| |done|done]. by eapply list_elem_of_lookup_2.
    - apply list_find_None in Hf. rewrite Forall_forall in Hf. by destruct (Hf q Hin). }
  assert (Forall (qe_ok heap) l) as Hokl by (by rewrite Hl).
  split_and!; [done|done|done| | |].
  - intros k Hk Hdig. apply (order_by_id k); [done|by rewrite Hl|done|done].
  - intros managers Hv. rewrite Hrun. by apply (reload_files_run heap managers _ _ l []).
  - intros managers l1 q l2 -> Hv Hq. rewrite Hrun. by apply (reload_files_stops heap managers _ _ l1 q l2 []).
Qed.
End round_trip.

(** ** Where the code departs from its intent *)

(** Names are compared as text: the tenth call after a dump is executed before the ninth. *)
Lemma ten_before_nine t : path_lt (apicxt_file_name t 10) (apicxt_file_name t 9) = true.
Proof. by destruct t. Qed.

Section divergences.
Context `{!Disk, !Proto Bin_POSAPIContext}.

(** When one call was issued and not executed, the loop that saves it ends at once. *)
Lemma lone_call_is_lost heap batches d e : persist_unexecuted heap 1 0 batches 0 d e = Ok (Some POS_SUCCESS) d e.
Proof. by destruct batches. Qed.

(** Before the first call the bound wraps around, and the loop polls an empty queue for ever. *)
Lemma dump_before_first_call_spins heap n d e : persist_unexecuted heap 0 0 (replicate n []) 0 d e = Ok None d e.
Proof. induction n as [|n IH]; [done|]. cbn [replicate persist_unexecuted]. exact IH. Qed.

(** A file that cannot be read or parsed is not reported as a failure. *)
Lemma unreadable_call_not_reported managers t content queue e :
  content ≫= ParseFromString = None -> reload_apicxt managers t content queue e = Ub "client is not initialised".
Proof. intros Hc. unfold reload_apicxt, apicxt_from_file. rewrite Hc. done. Qed.

(** A call that was restored and is saved again has no return size. *)
Lemma restored_call_saved_again heap heap' managers t q d e :
  dir_exists d = true -> persist true ApiCxt_TypeId_Unexecuted heap' (moved heap managers t q) d e = Ub "retval_size is not initialised".
Proof.
  intros Hd. unfold persist. rewrite (bind_ok get _ d e d d e eq_refl).
  assert (dir_assert (dir_exists d) d e = Ok tt d e) as Ha by (by rewrite Hd). by rewrite (bind_ok _ _ _ _ _ _ _ Ha).
Qed.
End divergences.

(** ** A concrete dump *)

#[local] Program Instance sample_disk : Disk := {|
  can_open _ := true; can_write _ := true; torn _ c := c; dir_list m := (map_to_list m).*1
|}.
Next Obligation. done. Qed.

#[export] Instance bin_hv_eq_dec : EqDecision Bin_POSHandleView. Proof. solve_decision. Defined.
#[export] Instance bin_param_eq_dec : EqDecision Bin_POSAPIParam. Proof. solve_decision. Defined.
#[export] Instance ticks_eq_dec : EqDecision api_ticks. Proof. solve_decision. Defined.
#[export] Instance bin_cxt_eq_dec : EqDecision Bin_POSAPIContext. Proof. solve_decision. Defined.
#[export] Instance bin_hv_countable : Countable Bin_POSHandleView.
Proof.
  refine (inj_countable' (fun v => (bv_resource_type_id v, bv_id v, bv_param_index v, bv_offset v))
    (fun x => let '(a, b, c, d) := x in mk_bin_hv a b c d) _). by intros [].
Defined.
#[export] Instance bin_param_countable : Countable Bin_POSAPIParam.
Proof. refine (inj_countable' (fun v => (bp_size v, bp_state v)) (fun x => mk_bin_param x.1 x.2) _). by intros []. Defined.
#[export] Instance ticks_countable : Countable api_ticks.
Proof.
  refine (inj_countable' (fun v => (create_tick v, return_tick v, parser_s_tick v, parser_e_tick v, worker_s_tick v, worker_e_tick v))
    (fun x => let '(a, b, c, d, e, f) := x in mk_ticks a b c d e f) _). by intros [].
Defined.
#[export] Instance bin_cxt_countable : Countable Bin_POSAPIContext.
Proof.
  refine (inj_countable' (fun v => (bc_id v, bc_api_id v, bc_has_return v, bc_input v, bc_output v, bc_create v, bc_delete v, bc_inout v,
      bc_ticks v, bc_params v, bc_retval_size v))
    (fun x => let '(a, b, c, d, e, f, g, h, i, j, k) := x in mk_bin_cxt a b c d e f g h i j k) _). by intros [].
Defined.
#[local] Instance sample_cxt_proto : Proto Bin_POSAPIContext := countable_proto Bin_POSAPIContext.

(** A call with one parameter that writes the memory behind one handle. *)
Definition sample_call (id : Z) : POSAPIContext_QE :=
  mk_qe id (mk_api_cxt 7 [[1; 2]] (Some 4)) false ApiCxt_TypeId_Normal [] [mk_hv (Some 100) 0 0 0 8] [] [] [] (mk_ticks 5 0 0 0 0 0).
Definition sample_heap : handle_heap := {[ 100 := (4, handle_new 0 16 0 0) ]}.
Definition sample_managers : gmap Z POSHandleManager := {[ 4 := hm_set_handles [Some 300] (hm_new true) ]}.
Definition sample_dir : ckpt_dir := mk_dir true ∅.

Lemma sample_dump_ok : dump_ok sample_heap sample_dir 11 8 [[sample_call 9]] [sample_call 10].
Proof.
  split; try done.
  - cbn. repeat (apply NoDup_cons; split; [set_solver|]). by apply NoDup_nil.
  - cbn. repeat constructor; try done; try (by eexists); cbn; lia.
  - by repeat constructor.
  - by repeat constructor.
  - by repeat constructor.
  - exists (sample_call 10). split; [by apply list_elem_of_singleton|done].
Qed.

Lemma unexecuted_round_trip_witness :
  exists d' l,
    persist_unexecuted sample_heap 11 8 [[sample_call 9]; [sample_call 10]] 0 sample_dir 0 = Ok (Some POS_SUCCESS) d' 0 /\
    l ≡ₚ [sample_call 9; sample_call 10] /\
    restore_apicxts false sample_managers d' [] 0 = Ok POS_SUCCESS (map (moved sample_heap sample_managers ApiCxt_TypeId_Unexecuted) l) 0.
Proof.
  destruct (unexecuted_round_trip sample_heap sample_dir 11 8 [[sample_call 9]] [sample_call 10] [] 0 sample_dump_ok)
    as (d' & l & H1 & H2 & _ & _ & H3 & _).
  exists d', l. split_and!; [exact H1|exact H2|]. apply H3. rewrite H2. cbn. repeat constructor; by exists 4, 0, 300.
Defined.

(** The two calls come back in the wrong order. *)
Example calls_out_of_order :
  restore_apicxts false sample_managers (save_all sample_heap [sample_call 9; sample_call 10] sample_dir) [] 0 =
  Ok POS_SUCCESS (map (moved sample_heap sample_managers ApiCxt_TypeId_Unexecuted) [sample_call 10; sample_call 9]) 0.
Proof. vm_compute. reflexivity. Qed.
