(* ===== verification/PosDump.v ===== *)
(** Checkpoints of handles of PhoenixOS on disk: what [POSHandle] writes for a handle
    (runtime/pos/src/handle.cpp), the synchronous checkpoint of the worker (src/worker.cpp), and how
    a manager makes a memory handle again from its file (include/handle.h,
    cuda_impl/src/handle/memory.cpp). *)
From Stdlib Require Import ZArith Lia Ascii String.
From stdpp Require Import base list gmap strings pretty sorting.
From S2P Require Import Prelude Config SyscallTrace FridaAttach PosCheckpoint PosHandle LevelDb PosFiles.
Local Open Scope Z_scope.

(** ** Data *)

(** [pos_protobuf::Bin_POSHandle], the whole content of the messages of memories and modules. *)
Record Bin_POSHandle := mk_bin {
  bin_id : Z;
  bin_resource_type_id : Z;
  bin_client_addr : Z;
  bin_server_addr : Z;
  bin_size : Z;
  bin_parent_types : list Z;
  bin_parent_ids : list Z;
  bin_state_size : Z;
  bin_state_type : Z;
  bin_state : bytes
}.

(** What the class of a handle decides: memories have device state, modules host state, the others
    none. *)
Inductive handle_class := MemoryHandle | ModuleHandle | StatelessHandle.
#[export] Instance handle_class_eq_dec : EqDecision handle_class.
Proof. solve_decision. Defined.

(** A handle with what a checkpoint uses of it: the memory behind it, the latest version, the bag,
    and the result that the thread of [_persist_promise] gives, none without a thread. *)
Record ckpt_handle := mk_ch {
  ch_class : handle_class;
  ch_rid : Z;
  ch_base : POSHandle;
  ch_memory : bytes;
  latest_version : Z;
  ckpt_bag : POSCheckpointBag;
  persist_thread : option pos_retval
}.

Definition set_bag (b : POSCheckpointBag) (h : ckpt_handle) : ckpt_handle :=
  mk_ch (ch_class h) (ch_rid h) (ch_base h) (ch_memory h) (latest_version h) b (persist_thread h).
Definition set_thread (t : option pos_retval) (h : ckpt_handle) : ckpt_handle :=
  mk_ch (ch_class h) (ch_rid h) (ch_base h) (ch_memory h) (latest_version h) (ckpt_bag h) t.

(** The handles of a client by address, and the directory of the checkpoint. *)
Record ckpt_state := mk_cs { cs_handles : gmap Z ckpt_handle; cs_dir : ckpt_dir }.

Definition set_handles (hs : gmap Z ckpt_handle) (s : ckpt_state) : ckpt_state := mk_cs hs (cs_dir s).
Definition set_dir (d : ckpt_dir) (s : ckpt_state) : ckpt_state := mk_cs (cs_handles s) d.

(** [pos_ckpt_state_type_t]: device is 0 and host is 1. *)
Definition state_type (k : slot_kind) : Z := match k with HostSlotHostState => 1 | _ => 0 end.

Section dump.
Context `{!Disk, !Allocator, !MapBegin, !Proto Bin_POSHandle}.
Abbreviation K := (M ckpt_state).
Implicit Types (s : ckpt_state) (h : ckpt_handle) (p : Z).

Definition load_ch p : K ckpt_handle := s ← get; need "handle released" (cs_handles s !! p).
Definition store_ch p (h : ckpt_handle) : K unit := modify (fun s => set_handles (<[p := h]> (cs_handles s)) s).
Definition ckpt_assert (c : bool) : K unit := if c then mret tt else throw "assertion failed".

(** Running an operation of the bag of a handle. *)
Definition on_bag {A} p (m : M POSCheckpointBag A) : K A :=
  h ← load_ch p;
  zoom (fun _ => ckpt_bag h) (fun b s => set_handles (<[p := set_bag b h]> (cs_handles s)) s) m.

(** [checkpoint_commit_sync]: [__commit] of the class from the buffer, synchronously. *)
Definition checkpoint_commit_sync p (version_id : Z) (outcome : copy_outcome) : K pos_retval :=
  h ← load_ch p;
  match ch_class h with
  | MemoryHandle => on_bag p (memory_commit version_id (ch_memory h) false true outcome)
  | ModuleHandle => mret POS_SUCCESS
  | StatelessHandle => mret POS_FAILED_NOT_IMPLEMENTED
  end.

(** [__get_checkpoint_slot_for_persist] of the class. *)
Definition slot_for_persist h (version_id : Z) : K (pos_retval * option Z) :=
  match ch_class h with
  | MemoryHandle => mret (get_checkpoint_slot_for_persist version_id (ckpt_bag h))
  | ModuleHandle =>
      match get_all_scheckpoint_slots HostSlotHostState (ckpt_bag h) with
      | [q] => mret (POS_SUCCESS, Some q)
      | _ => throw "assertion failed"
      end
  | StatelessHandle => mret (POS_FAILED_NOT_IMPLEMENTED, None)
  end.

(** The types and ids of the parents. *)
Definition parent_ids (hs : gmap Z ckpt_handle) h : option (list (Z * Z)) :=
  mapM (fun q => g ← hs !! q; Some (ch_rid g, h_id (ch_base g))) (parent_handles (ch_base h)).

(** The message of a handle; with a slot its state is the content of the slot. *)
Definition handle_binary h (parents : list (Z * Z)) (slot : option POSCheckpointSlot) : option Bin_POSHandle :=
  state ← (match slot with Some sl => mapM id (slot_data sl) | None => Some [] end);
  Some (mk_bin (h_id (ch_base h)) (ch_rid h) (client_addr (ch_base h)) (server_addr (ch_base h)) (h_size (ch_base h))
    parents.*1 parents.*2
    (match slot with Some sl => state_size sl | None => h_state_size (ch_base h) end)
    (match slot with Some sl => state_type (slot_kind_of sl) | None => 0 end)
    state).

(** [__persist_async_thread]. *)
Definition persist_async_thread p (slot : option Z) : K pos_retval :=
  s ← get;
  ckpt_assert (dir_exists (cs_dir s));;
  h ← load_ch p;
  parents ← need "parent released" (parent_ids (cs_handles s) h);
  sl ← (match slot with
        | Some q => sl ← need "slot released" (bag_heap (ckpt_bag h) !! q); mret (Some sl)
        | None => mret None
        end);
  bin ← need "state not initialised" (handle_binary h parents sl);
  zoom cs_dir set_dir (write_file (handle_file_name (ch_rid h) (h_id (ch_base h))) (SerializeAsString bin)).

(** [sync_persist] waits for the thread. *)
Definition sync_persist p : K pos_retval :=
  h ← load_ch p;
  match persist_thread h with
  | Some r => store_ch p (set_thread None h);; mret r
  | None => mret POS_FAILED_NOT_EXIST
  end.

(** [checkpoint_persist_async]; the thread runs when it is started. *)
Definition checkpoint_persist_async p (with_state : bool) (version_id : Z) : K pos_retval :=
  s ← get;
  if negb (dir_exists (cs_dir s)) then mret POS_FAILED_NOT_EXIST
  else
    h ← load_ch p;
    '(r, slot) ← (if with_state && bool_decide (h_status (ch_base h) = kPOS_HandleStatus_Active)
                  then slot_for_persist h version_id else mret (POS_SUCCESS, None));
    if decide (r = POS_SUCCESS) then
      (match persist_thread h with Some _ => sync_persist p;; mret tt | None => mret tt end);;
      r ← persist_async_thread p slot;
      h ← load_ch p;
      store_ch p (set_thread (Some r) h);;
      mret POS_SUCCESS
    else mret r.

Definition checkpoint_persist_sync p (with_state : bool) (version_id : Z) : K pos_retval :=
  r ← checkpoint_persist_async p with_state version_id;
  if decide (r = POS_SUCCESS) then sync_persist p else mret r.

Definition not_checkpointed (st : pos_handle_status) : bool :=
  match st with kPOS_HandleStatus_Deleted | kPOS_HandleStatus_Create_Pending | kPOS_HandleStatus_Broken => true | _ => false end.

(** The lambda of [__checkpoint_handle_sync]: one handle, and the handles in the order of the set;
    [outcome] is that of the copy of a handle. *)
Definition commit_and_persist (outcome : Z -> copy_outcome) (with_state : bool) p (version_id : Z) : K pos_retval :=
  r ← (if with_state then checkpoint_commit_sync p version_id (outcome p) else mret POS_SUCCESS);
  if decide (r = POS_SUCCESS) then
    r ← checkpoint_persist_sync p with_state version_id;
    mret (if decide (r = POS_SUCCESS) then POS_SUCCESS else POS_FAILED)
  else mret POS_FAILED.

Fixpoint commit_and_persist_handles (outcome : Z -> copy_outcome) (with_state : bool) (handles : list Z) : K pos_retval :=
  match handles with
  | [] => mret POS_SUCCESS
  | p :: handles' =>
      h ← load_ch p;
      if not_checkpointed (h_status (ch_base h)) then commit_and_persist_handles outcome with_state handles'
      else
        r ← commit_and_persist outcome with_state p (latest_version h);
        if decide (r = POS_SUCCESS) then commit_and_persist_handles outcome with_state handles' else mret r
  end.

(** [std::set<POSHandle*>] in the order of addresses. *)
Definition in_order (X : gset Z) : list Z := merge_sort Z.le (elements X).

(** [__checkpoint_handle_sync]; [synced] is the result of the last [sync]. *)
Definition checkpoint_handle_sync (outcome : Z -> copy_outcome) (synced : pos_retval) (stateful stateless : gset Z) : K pos_retval :=
  r ← commit_and_persist_handles outcome true (in_order stateful);
  if decide (r = POS_SUCCESS) then
    r ← commit_and_persist_handles outcome false (in_order stateless);
    if decide (r = POS_SUCCESS) then mret synced else mret r
  else mret r.
End dump.

(** ** Restoring a memory *)

(** The manager of memories, the files mapped for its handles ([restore_binary_mapped], an area
    that was unmapped is [None]), and the buffers on the device by address. *)
Record restore_state := mk_rs {
  rs_hm : POSHandleManager;
  rs_mapped : gmap Z (option bytes);
  rs_device : gmap Z (list (option Z))
}.

Definition set_hm (m : POSHandleManager) (s : restore_state) : restore_state := mk_rs m (rs_mapped s) (rs_device s).
Definition set_mapped (p : Z) (area : option bytes) (s : restore_state) : restore_state :=
  mk_rs (rs_hm s) (<[p := area]> (rs_mapped s)) (rs_device s).
Definition set_device (a : Z) (c : list (option Z)) (s : restore_state) : restore_state :=
  mk_rs (rs_hm s) (rs_mapped s) (<[a := c]> (rs_device s)).
Definition add_parent (q : Z) (h : POSHandle) : POSHandle :=
  mk_handle (client_addr h) (server_addr h) (h_size h) (h_id h) (h_status h) (h_state_status h) (h_state_size h)
    (parent_handles h ++ [q]) (parent_handles_waitlist h).

Section restoring.
Context `{!Allocator, !Proto Bin_POSHandle}.
Abbreviation R := (M restore_state).
Implicit Types p : Z.

Definition on_hm {A} (m : M POSHandleManager A) : R A := zoom rs_hm set_hm m.
Definition restore_assert (c : bool) : R unit := if c then mret tt else throw "assertion failed".

(** [ParseFromArray] takes the size as an [int]. *)
Definition ParseFromArray (area : bytes) : option Bin_POSHandle :=
  let size := s32 (Z.of_nat (length area)) in
  if size <? 0 then None else ParseFromString (take (Z.to_nat size) area).

(** [POSHandleManager_CUDA_Memory::__reallocate_single_handle]. *)
Definition reallocate_memory_handle (mapped : bytes) : R (pos_retval * option Z) :=
  match ParseFromArray mapped with
  | None => mret (POS_FAILED, None)
  | Some b =>
      restore_assert (length (bin_parent_types b) =? length (bin_parent_ids b))%nat;;
      on_hm (restore_mocked_resource (bin_id b) (bin_client_addr b) (bin_server_addr b) (bin_size b)
        (zip (u32 <$> bin_parent_types b) (bin_parent_ids b)) (bin_state_size b))
  end.

(** [POSHandleManager::reallocate_single_handle]; [mappable] when the file can be opened and
    mapped. *)
Definition reallocate_single_handle (file : option bytes) (mappable : bool) : R (pos_retval * option Z) :=
  match file with
  | None => mret (POS_FAILED_INVALID_INPUT, None)
  | Some area =>
      if negb mappable then mret (POS_FAILED, None)
      else
        '(r, handle) ← reallocate_memory_handle area;
        if decide (r = POS_SUCCESS) then
          match handle with
          | None => throw "null pointer"
          | Some p =>
              h ← on_hm (load_handle p);
              (if 0 <? h_state_size h then modify (set_mapped p (Some area)) else mret tt);;
              mret (POS_SUCCESS, Some p)
          end
        else mret (r, handle)
  end.

(** [POSClient_CUDA::__reassign_handle_parents]; [find] looks a handle up by type and id, and the
    outer [None] is a manager that does not exist. *)
Fixpoint reassign_parents (find : Z -> Z -> option (option Z)) p (waitlist : list (Z * Z)) : R pos_retval :=
  match waitlist with
  | [] => mret POS_SUCCESS
  | (rid, hid) :: waitlist' =>
      match find rid hid with
      | None => throw "null pointer"
      | Some None => mret POS_FAILED_NOT_EXIST
      | Some (Some q) => on_hm (store_handle p (add_parent q));; reassign_parents find p waitlist'
      end
  end.
Definition reassign_handle_parents (find : Z -> Z -> option (option Z)) p : R pos_retval :=
  h ← on_hm (load_handle p); reassign_parents find p (parent_handles_waitlist h).

(** [POSHandle_CUDA_Memory::__restore], which [restore] calls since the pool of memories is empty:
    memory is mapped at the address of the handle, or allocated anywhere when it has none. [ok]:
    the driver creates, maps and opens the memory; [rt_ptr]: what [cudaMalloc] returns. *)
Definition memory_restore (ok : bool) (rt_ptr : option Z) p : R pos_retval :=
  h ← on_hm (load_handle p);
  restore_assert (length (parent_handles h) =? 1)%nat;;
  let buffer := replicate (Z.to_nat (h_state_size h)) None in
  if negb (server_addr h =? 0) then
    restore_assert (client_addr h =? server_addr h);;
    if ok then modify (set_device (server_addr h) buffer);; on_hm (mark_handle_status p kPOS_HandleStatus_Active)
    else mret POS_FAILED
  else
    match rt_ptr with
    | None => mret POS_FAILED
    | Some a =>
        modify (set_device a buffer);;
        r ← on_hm (set_passthrough_addr p a);
        if decide (r = POS_SUCCESS) then on_hm (mark_handle_status p kPOS_HandleStatus_Active) else mret r
    end.

(** [POSHandle_CUDA_Memory::__reload_state]; the copy may read the terminating null character, and
    the area is unmapped at the end. *)
Definition memory_reload_state (outcome : copy_outcome) p (area : bytes) : R pos_retval :=
  r ← match ParseFromArray area with
      | None => mret POS_FAILED
      | Some b =>
          h ← on_hm (load_handle p);
          data ← need "memcpy beyond the state" (read_range 0 (Z.to_nat (h_state_size h)) (bin_state b ++ [0]));
          match outcome with
          | CopyDone => modify (set_device (server_addr h) (Some <$> data));; mret POS_SUCCESS
          | CopyRefused => mret POS_FAILED
          | SyncFailed dst => modify (set_device (server_addr h) dst);; mret POS_FAILED
          end
      end;
  modify (set_mapped p None);;
  mret r.

(** [POSHandle::reload_state]. *)
Definition reload_state (outcome : copy_outcome) p : R pos_retval :=
  h ← on_hm (load_handle p);
  restore_assert (0 <? h_state_size h);;
  s ← get;
  match rs_mapped s !! p with
  | None => throw "null pointer"
  | Some None => ub "the file is not mapped any more"
  | Some (Some area) =>
      restore_assert (negb (bool_decide (area = [])));;
      if bool_decide (h_status h = kPOS_HandleStatus_Active) then memory_reload_state outcome p area else mret POS_FAILED
  end.

(** The steps of [restore_handles] for the file of one memory, for checkpoints of level 1. For
    several files the source takes each step for all of them before the next. *)
Definition restore_memory (find : Z -> Z -> option (option Z)) (ok : bool) (rt_ptr : option Z) (outcome : copy_outcome) (file : option bytes) : R (pos_retval * option Z) :=
  '(r, handle) ← reallocate_single_handle file true;
  match handle with
  | Some p =>
      if decide (r = POS_SUCCESS) then
        r ← reassign_handle_parents find p;
        if decide (r = POS_SUCCESS) then
          r ← memory_restore ok rt_ptr p;
          if decide (r = POS_SUCCESS) then
            h ← on_hm (load_handle p);
            r ← (if 0 <? h_state_size h then reload_state outcome p else mret POS_SUCCESS);
            mret (r, Some p)
          else mret (r, Some p)
        else mret (r, Some p)
      else mret (r, Some p)
  | None => mret (r, None)
  end.
End restoring.

(** ** The bag of a handle that is checkpointed synchronously *)

(** Its host slots for device state are one at most, spare or saved. *)
Definition one_slot (st : store) : Prop :=
  (saved st = ∅ /\ exists v c, spare st = {[v := c]}) \/
  (spare st = ∅ /\ (saved st = ∅ \/ exists v c, saved st = {[v := c]})).

Section commit.
Context `{!Allocator, !MapBegin}.
Implicit Types b : POSCheckpointBag.

Lemma save_one_slot size v data st st' :
  one_slot st -> spec_save true size v data st st' ->
  exists c, st' = mk_store {[v := overwrite data c]} ∅ /\
    ((exists w, spare st !! w = Some c) \/ (exists w, saved st !! w = Some c) \/ c = replicate (Z.to_nat size) None).
Proof.
  unfold one_slot. intros Hone (c & st1 & Ht & ->). exists c. unfold spec_put. destruct Ht as [m X w c Hw|m w c _ Hw|m Hm]; cbn [saved spare] in *.
  - destruct Hone as [(-> & v0 & c0 & ->)|[-> _]]; [|done]. apply lookup_singleton_Some in Hw as [<- ->].
    rewrite lookup_empty, delete_singleton_eq. split; [done|]. left. exists v0. apply lookup_singleton_eq.
  - destruct Hone as [(-> & _)|[_ [->|(v0 & c0 & ->)]]]; [done|done|]. apply lookup_singleton_Some in Hw as [<- ->].
    rewrite delete_singleton_eq, lookup_empty. split; [done|]. right; left. exists v0. apply lookup_singleton_eq.
  - rewrite (Hm eq_refl), lookup_empty. split; [done|]. by right; right.
Qed.

(** A synchronous commit: the slot of the version holds the memory. *)
Lemma commit_one_slot v (memory : bytes) b e :
  bag_ok b -> Z.of_nat (length memory) = fixed_state_size b -> one_slot (view b HostSlotDeviceState) ->
  exists b' q, memory_commit v memory false true CopyDone b e = Ok POS_SUCCESS b' e /\
    bag_ok b' /\ fixed_state_size b' = fixed_state_size b /\ one_slot (view b' HostSlotDeviceState) /\
    get_checkpoint_slot_for_persist v b' = (POS_SUCCESS, Some q) /\
    bag_heap b' !! q = Some (mk_slot (fixed_state_size b) (Some <$> memory) HostSlotDeviceState).
Proof.
  intros Hb Hm Hone. destruct (commit_spec v memory false true CopyDone b (Some <$> memory) e Hb Hm eq_refl) as (b' & Hr & Hb' & Hf & Hs & _).
  destruct (save_one_slot _ _ _ _ _ Hone Hs) as (c & Hv & Hc).
  assert (length c = Z.to_nat (fixed_state_size b)) as Hlen.
  { destruct Hc as [[w Hw]|[[w Hw]| ->]]; [by apply (spare_length HostSlotDeviceState w)|by apply (saved_length HostSlotDeviceState w)|apply length_replicate]. }
  assert (overwrite (Some <$> memory) c = Some <$> memory) as Ho.
  { unfold overwrite. rewrite length_fmap, drop_ge by lia. apply app_nil_r. }
  cbn [copied fst] in Hv. rewrite Ho in Hv.
  assert (saved (view b' HostSlotDeviceState) !! v = Some (Some <$> memory)) as Hsv by (rewrite Hv; apply lookup_singleton_eq).
  destruct (saved_content _ _ _ b' Hb' Hsv) as (q & sl & Hq & Hsl & Hok & Hdata). exists b', q. split_and!; try done.
  - rewrite Hv. right. split; [done|]. right. by exists v, (Some <$> memory).
  - unfold get_checkpoint_slot_for_persist, get_checkpoint_slot. rewrite (bo_versions b' Hb'), Hq, bool_decide_eq_false_2; [done|].
    apply elem_of_dom_2 in Hq. set_solver.
  - rewrite Hsl. f_equal. destruct sl as [n data k]. cbn in *. subst data. pose proof (so_kind _ _ _ Hok) as Hk. pose proof (so_fixed _ _ _ Hok) as Hn.
    cbn in Hk, Hn. rewrite Hk, Hn, Hf by done. done.
Qed.
End commit.

(** ** What a checkpoint writes *)

(** The part of a handle that a checkpoint leaves as it is. *)
Definition core (h : ckpt_handle) := (ch_class h, ch_rid h, ch_base h, ch_memory h, latest_version h).

(** The slot whose content goes to the file: the memory, or the only host state of a module; none
    for a handle that is not active. *)
Definition slot_image (with_state : bool) (h : ckpt_handle) : option POSCheckpointSlot :=
  if with_state && bool_decide (h_status (ch_base h) = kPOS_HandleStatus_Active) then
    match ch_class h with
    | MemoryHandle => Some (mk_slot (fixed_state_size (ckpt_bag h)) (Some <$> ch_memory h) HostSlotDeviceState)
    | ModuleHandle => head (get_all_scheckpoint_slots HostSlotHostState (ckpt_bag h)) ≫= fun q => bag_heap (ckpt_bag h) !! q
    | StatelessHandle => None
    end
  else None.

Definition image (hs : gmap Z ckpt_handle) (with_state : bool) (h : ckpt_handle) : option Bin_POSHandle :=
  parents ← parent_ids hs h; handle_binary h parents (slot_image with_state h).

(** What the message of a handle says, field by field: the handle's own fields, type and id of each
    parent in order, and the state: the bytes of an active memory, the content of the one host slot
    of an active module, and otherwise none, with the handle's state size. *)
Record describes (hs : gmap Z ckpt_handle) (with_state : bool) (h : ckpt_handle) (bin : Bin_POSHandle) : Prop := {
  ds_id : bin_id bin = h_id (ch_base h);
  ds_type : bin_resource_type_id bin = ch_rid h;
  ds_client : bin_client_addr bin = client_addr (ch_base h);
  ds_server : bin_server_addr bin = server_addr (ch_base h);
  ds_size : bin_size bin = h_size (ch_base h);
  ds_parent_types : Forall2 (fun q ty => exists g, hs !! q = Some g /\ ty = ch_rid g) (parent_handles (ch_base h)) (bin_parent_types bin);
  ds_parent_ids : Forall2 (fun q id => exists g, hs !! q = Some g /\ id = h_id (ch_base g)) (parent_handles (ch_base h)) (bin_parent_ids bin);
  ds_memory : with_state = true -> h_status (ch_base h) = kPOS_HandleStatus_Active -> ch_class h = MemoryHandle ->
    bin_state bin = ch_memory h /\ bin_state_size bin = fixed_state_size (ckpt_bag h) /\ bin_state_type bin = state_type HostSlotDeviceState;
  ds_module q sl : with_state = true -> h_status (ch_base h) = kPOS_HandleStatus_Active -> ch_class h = ModuleHandle ->
    get_all_scheckpoint_slots HostSlotHostState (ckpt_bag h) = [q] -> bag_heap (ckpt_bag h) !! q = Some sl ->
    Some <$> bin_state bin = slot_data sl /\ bin_state_size bin = state_size sl /\ bin_state_type bin = state_type (slot_kind_of sl);
  ds_none : with_state = false \/ h_status (ch_base h) <> kPOS_HandleStatus_Active ->
    bin_state bin = [] /\ bin_state_size bin = h_state_size (ch_base h) /\ bin_state_type bin = 0
}.

Lemma mapM_id_Some (l : list (option Z)) l' : mapM id l = Some l' -> Some <$> l' = l.
Proof.
  revert l'. induction l as [|[x|] l IH]; intros l'; cbn; [by intros [= <-]| |done].
  destruct (mapM id l) as [k|] eqn:Hk; [|done]. cbn. intros [= <-]. cbn. by rewrite (IH k).
Qed.

Lemma image_describes hs ws h bin : image hs ws h = Some bin -> describes hs ws h bin.
Proof.
  unfold image. destruct (parent_ids hs h) as [parents|] eqn:Hp; [|done]. cbn [mbind option_bind]. unfold handle_binary.
  destruct (match slot_image ws h with Some sl => mapM id (slot_data sl) | None => Some [] end) as [state|] eqn:Hs; [|done].
  cbn [mbind option_bind]. intros [= <-].
  assert (Forall2 (fun q x => exists g, hs !! q = Some g /\ x = (ch_rid g, h_id (ch_base g))) (parent_handles (ch_base h)) parents) as Hpar.
  { apply mapM_Some in Hp. eapply Forall2_impl; [exact Hp|]. intros q x Hq. apply bind_Some in Hq as (g & Hg & [= <-]). eauto. }
  split; cbn; try done.
  - apply Forall2_fmap_r. eapply Forall2_impl; [exact Hpar|]. intros q x (g & Hg & ->). eauto.
  - apply Forall2_fmap_r. eapply Forall2_impl; [exact Hpar|]. intros q x (g & Hg & ->). eauto.
  - intros -> Ha Hc. revert Hs. unfold slot_image. rewrite Ha, bool_decide_eq_true_2, Hc by done. cbn.
    intros Hs%mapM_id_Some. split_and!; [|done|done]. by apply (inj (fmap Some)) in Hs.
  - intros q sl -> Ha Hc Hq Hsl. revert Hs. unfold slot_image. rewrite Ha, bool_decide_eq_true_2, Hc, Hq by done. cbn. rewrite Hsl. cbn.
    intros Hs%mapM_id_Some. done.
  - intros Hn. assert (slot_image ws h = None) as Hnone.
    { unfold slot_image. destruct Hn as [-> |Hn]; [done|]. by rewrite bool_decide_eq_false_2, andb_false_r by done. }
    rewrite Hnone in *. by injection Hs as <-.
Qed.

Definition file_of (h : ckpt_handle) : text := handle_file_name (ch_rid h) (h_id (ch_base h)).

(** A handle whose state can be committed: a memory with one host slot, a module with one state. *)
Definition ready (with_state : bool) (h : ckpt_handle) : Prop :=
  with_state = true ->
  match ch_class h with
  | MemoryHandle => bag_ok (ckpt_bag h) /\ Z.of_nat (length (ch_memory h)) = fixed_state_size (ckpt_bag h) /\
      one_slot (view (ckpt_bag h) HostSlotDeviceState)
  | ModuleHandle => exists q sl, get_all_scheckpoint_slots HostSlotHostState (ckpt_bag h) = [q] /\ bag_heap (ckpt_bag h) !! q = Some sl
  | StatelessHandle => False
  end.

Lemma handle_binary_core h h' parents sl : core h' = core h -> handle_binary h' parents sl = handle_binary h parents sl.
Proof. unfold core, handle_binary. intros [= _ -> -> _ _]. done. Qed.

Lemma parent_ids_core hs hs' h h' : core h' = core h ->
  (forall q, core <$> hs' !! q = core <$> hs !! q) -> parent_ids hs' h' = parent_ids hs h.
Proof.
  unfold parent_ids. intros Hc Hq. assert (ch_base h' = ch_base h) as -> by (by injection Hc).
  induction (parent_handles (ch_base h)) as [|q l IH]; [done|]. cbn [mapM]. rewrite IH. specialize (Hq q).
  destruct (hs' !! q) as [g'|], (hs !! q) as [g|]; try done. cbn in Hq. injection Hq as _ H1 H2 _ _. cbn. by rewrite H1, H2.
Qed.

Section writing.
Context `{!Disk, !Allocator, !MapBegin, !Proto Bin_POSHandle}.
Implicit Types (s : ckpt_state) (h : ckpt_handle) (p : Z).

(** The directory, which exists, takes the file of a handle. *)
Definition takes s h : Prop := dir_exists (cs_dir s) = true /\ can_open (file_of h) = true /\ can_write (file_of h) = true.

Definition with_file h bin s : ckpt_state := set_dir (set_file (file_of h) (SerializeAsString bin) (cs_dir s)) s.

Lemma persist_thread_run s p h slot sl parents bin e :
  takes s h -> cs_handles s !! p = Some h -> parent_ids (cs_handles s) h = Some parents ->
  match slot with Some q => bag_heap (ckpt_bag h) !! q = sl /\ is_Some sl | None => sl = None end ->
  handle_binary h parents sl = Some bin ->
  persist_async_thread p slot s e = Ok POS_SUCCESS (with_file h bin s) e.
Proof.
  intros (Hd & Ho & Hw) Hp Hpar Hsl Hbin. unfold persist_async_thread, load_ch, ckpt_assert. mrun. rewrite Hd, Hp, Hpar. cbv beta iota.
  destruct slot as [q|].
  - destruct Hsl as [Hq [x ->]]. rewrite Hq, Hbin. unfold write_file. fold (file_of h). rewrite Ho, Hw. done.
  - subst sl. rewrite Hbin. unfold write_file. fold (file_of h). rewrite Ho, Hw. done.
Qed.

(** Only the entry of [p] differs, and not in its core. *)
Lemma core_insert (hs : gmap Z ckpt_handle) p h h' : hs !! p = Some h -> core h' = core h ->
  forall q, core <$> <[p := h']> hs !! q = core <$> hs !! q.
Proof. intros Hp Hc q. destruct (decide (q = p)) as [->|]; [rewrite lookup_insert_eq, Hp; cbn; by f_equal|by rewrite lookup_insert_ne]. Qed.

Lemma persist_sync_run s p h (ws : bool) v slot sl bin e :
  takes s h -> cs_handles s !! p = Some h ->
  (if ws && bool_decide (h_status (ch_base h) = kPOS_HandleStatus_Active) then slot_for_persist h v else mret (POS_SUCCESS, None)) s e =
    Ok (POS_SUCCESS, slot) s e ->
  match slot with Some q => bag_heap (ckpt_bag h) !! q = sl /\ is_Some sl | None => sl = None end ->
  (parents ← parent_ids (cs_handles s) h; handle_binary h parents sl) = Some bin ->
  exists s', checkpoint_persist_sync p ws v s e = Ok POS_SUCCESS s' e /\
    cs_handles s' = <[p := set_thread None h]> (cs_handles s) /\ cs_dir s' = set_file (file_of h) (SerializeAsString bin) (cs_dir s).
Proof.
  intros (Hd & Ho & Hw) Hp Hslot Hsl (parents & Hpar & Hbin)%bind_Some.
  set (s1 := if persist_thread h then set_handles (<[p := set_thread None h]> (cs_handles s)) s else s).
  set (h1 := if persist_thread h then set_thread None h else h).
  assert (cs_handles s1 !! p = Some h1) as Hp1 by (unfold s1, h1; destruct (persist_thread h); [apply lookup_insert_eq|done]).
  assert (core h1 = core h) as Hc1 by (unfold h1; by destruct (persist_thread h)).
  assert (parent_ids (cs_handles s1) h1 = Some parents) as Hpar1.
  { rewrite <- Hpar. apply parent_ids_core; [done|]. unfold s1. destruct (persist_thread h); [|done]. by apply (core_insert _ _ h). }
  assert (takes s1 h1) as Ht1 by (unfold s1, h1, takes; by destruct (persist_thread h)).
  assert (persist_async_thread p slot s1 e = Ok POS_SUCCESS (with_file h1 bin s1) e) as Hrun.
  { eapply persist_thread_run; try done; [|by rewrite (handle_binary_core h)].
    unfold h1. destruct (persist_thread h); exact Hsl. }
  assert (checkpoint_persist_async p ws v s e =
    Ok POS_SUCCESS (set_handles (<[p := set_thread (Some POS_SUCCESS) h1]> (cs_handles s1)) (with_file h1 bin s1)) e) as Hasync.
  { unfold checkpoint_persist_async. rewrite (bind_ok get _ s e s s e eq_refl), Hd. cbn [negb].
    assert (load_ch p s e = Ok h s e) as Hl by (unfold load_ch; mrun; by rewrite Hp). rewrite (bind_ok _ _ _ _ _ _ _ Hl), (bind_ok _ _ _ _ _ _ _ Hslot).
    cbv beta iota. rewrite decide_True by done.
    assert ((match persist_thread h with Some _ => sync_persist p;; mret tt | None => mret tt end) s e = Ok tt s1 e) as Hsync.
    { unfold s1. destruct (persist_thread h) eqn:Ht; [|done]. unfold sync_persist, load_ch, store_ch. mrun. by rewrite Hp, Ht. }
    rewrite (bind_ok _ _ _ _ _ _ _ Hsync), (bind_ok _ _ _ _ _ _ _ Hrun).
    assert (load_ch p (with_file h1 bin s1) e = Ok h1 (with_file h1 bin s1) e) as Hl1 by (unfold load_ch; mrun; change (cs_handles (with_file h1 bin s1)) with (cs_handles s1); by rewrite Hp1).
    by rewrite (bind_ok _ _ _ _ _ _ _ Hl1). }
  eexists. unfold checkpoint_persist_sync. rewrite (bind_ok _ _ _ _ _ _ _ Hasync), decide_True by done.
  unfold sync_persist, load_ch, store_ch. mrun. cbn [cs_handles set_handles]. rewrite lookup_insert_eq. cbn [persist_thread set_thread].
  split; [done|]. split.
  - cbn. rewrite insert_insert_eq. unfold s1, h1. destruct (persist_thread h); [cbn; by rewrite insert_insert_eq|done].
  - cbn. unfold s1, h1. by destruct (persist_thread h).
Qed.

Lemma active_slot (ws a : bool) h v q sl s e :
  slot_for_persist h v s e = Ok (POS_SUCCESS, Some q) s e -> bag_heap (ckpt_bag h) !! q = Some sl ->
  exists slot osl, (if ws && a then slot_for_persist h v else mret (POS_SUCCESS, None)) s e = Ok (POS_SUCCESS, slot) s e /\
    match slot with Some q => bag_heap (ckpt_bag h) !! q = osl /\ is_Some osl | None => osl = None end /\
    osl = if ws && a then Some sl else None.
Proof.
  intros Hs Hq. destruct (ws && a).
  - exists (Some q), (Some sl). split_and!; [done|done|by eexists|done].
  - by exists None, None.
Qed.

Lemma commit_and_persist_run s p h ws v outcome bin e :
  takes s h -> cs_handles s !! p = Some h -> ready ws h -> (ws = true -> outcome p = CopyDone) -> image (cs_handles s) ws h = Some bin ->
  exists s' h', commit_and_persist outcome ws p v s e = Ok POS_SUCCESS s' e /\
    cs_handles s' = <[p := h']> (cs_handles s) /\ core h' = core h /\ cs_dir s' = set_file (file_of h) (SerializeAsString bin) (cs_dir s).
Proof.
  intros Ht Hp Hr Ho Hi. unfold commit_and_persist. assert (load_ch p s e = Ok h s e) as Hl by (unfold load_ch; mrun; by rewrite Hp).
  destruct ws.
  2: { rewrite (bind_ok (mret POS_SUCCESS) _ s e _ s e eq_refl), decide_True by done.
       destruct (persist_sync_run s p h false v None None bin e Ht Hp eq_refl eq_refl Hi) as (s' & Hrun & Hh & Hd).
       rewrite (bind_ok _ _ _ _ _ _ _ Hrun). by exists s', (set_thread None h). }
  specialize (Hr eq_refl). specialize (Ho eq_refl). unfold image, slot_image in Hi. unfold checkpoint_commit_sync.
  destruct (ch_class h) eqn:Hc; [|clear Ho|done].
  - destruct Hr as (Hb & Hm & Hone). destruct (commit_one_slot v (ch_memory h) (ckpt_bag h) e Hb Hm Hone) as (b' & q & Hrun & _ & Hf & _ & Hg & Hq).
    set (h1 := set_bag b' h). set (s1 := set_handles (<[p := h1]> (cs_handles s)) s).
    assert ((h ← load_ch p; match ch_class h with
      | MemoryHandle => on_bag p (memory_commit v (ch_memory h) false true (outcome p))
      | ModuleHandle => mret POS_SUCCESS | StatelessHandle => mret POS_FAILED_NOT_IMPLEMENTED end) s e = Ok POS_SUCCESS s1 e) as Hcommit.
    { rewrite (bind_ok _ _ _ _ _ _ _ Hl), Hc. unfold on_bag. rewrite (bind_ok _ _ _ _ _ _ _ Hl). unfold zoom. by rewrite Ho, Hrun. }
    rewrite (bind_ok _ _ _ _ _ _ _ Hcommit), decide_True by done.
    assert (cs_handles s1 !! p = Some h1) as Hp1 by apply lookup_insert_eq.
    destruct (active_slot true (bool_decide (h_status (ch_base h) = kPOS_HandleStatus_Active)) h1 v q
      (mk_slot (fixed_state_size (ckpt_bag h)) (Some <$> ch_memory h) HostSlotDeviceState) s1 e) as (slot & osl & E1 & E2 & E3);
      [unfold slot_for_persist; cbn [ch_class h1 set_bag ckpt_bag]; by rewrite Hc, Hg|exact Hq|].
    destruct (persist_sync_run s1 p h1 true v slot osl bin e) as (s' & Hs' & Hh & Hd); [done|done|exact E1|exact E2|..].
    { rewrite (parent_ids_core (cs_handles s) _ h) by (done || by apply (core_insert _ _ h)). rewrite <- Hi, E3. cbn [andb].
      by destruct (parent_ids (cs_handles s) h). }
    rewrite (bind_ok _ _ _ _ _ _ _ Hs'). exists s', (set_thread None h1). split_and!; [done| |done|done].
    rewrite Hh. apply insert_insert_eq.
  - destruct Hr as (q & sl & Hall & Hq).
    assert ((h ← load_ch p; match ch_class h with
      | MemoryHandle => on_bag p (memory_commit v (ch_memory h) false true (outcome p))
      | ModuleHandle => mret POS_SUCCESS | StatelessHandle => mret POS_FAILED_NOT_IMPLEMENTED end) s e = Ok POS_SUCCESS s e) as Hcommit.
    { by rewrite (bind_ok _ _ _ _ _ _ _ Hl), Hc. }
    rewrite (bind_ok _ _ _ _ _ _ _ Hcommit), decide_True by done.
    destruct (active_slot true (bool_decide (h_status (ch_base h) = kPOS_HandleStatus_Active)) h v q sl s e) as (slot & osl & E1 & E2 & E3);
      [unfold slot_for_persist; by rewrite Hc, Hall|exact Hq|].
    destruct (persist_sync_run s p h true v slot osl bin e Ht Hp E1 E2) as (s' & Hs' & Hh & Hd).
    { rewrite <- Hi, E3, Hall. cbn [head mbind option_bind]. by rewrite Hq. }
    rewrite (bind_ok _ _ _ _ _ _ _ Hs'). by exists s', (set_thread None h).
Qed.

(** *** All handles *)

Definition alive h : bool := negb (not_checkpointed (h_status (ch_base h))).

(** The directory with the files of the live handles of a list. *)
Definition write_handle (hs : gmap Z ckpt_handle) (ws : bool) p (d : ckpt_dir) : ckpt_dir :=
  match hs !! p with
  | Some h => if alive h then
                match image hs ws h with Some bin => set_file (file_of h) (SerializeAsString bin) d | None => d end
              else d
  | None => d
  end.
Definition write_handles hs ws (l : list Z) (d : ckpt_dir) : ckpt_dir := foldl (fun d p => write_handle hs ws p d) d l.

(** What the client guarantees about a handle of the set. *)
Definition dumpable (hs : gmap Z ckpt_handle) (ws : bool) p : Prop :=
  exists h, hs !! p = Some h /\ (alive h = true ->
    ready ws h /\ is_Some (image hs ws h) /\ can_open (file_of h) = true /\ can_write (file_of h) = true).

Lemma write_handle_exists hs ws p d : dir_exists (write_handle hs ws p d) = dir_exists d.
Proof. unfold write_handle. destruct (hs !! p) as [h|]; [|done]. destruct (alive h), (image hs ws h); done. Qed.

Lemma image_core hs hs' ws h : (forall q, core <$> hs' !! q = core <$> hs !! q) -> image hs' ws h = image hs ws h.
Proof. intros Hq. unfold image. by rewrite (parent_ids_core hs hs' h h eq_refl Hq). Qed.

Lemma commit_and_persist_handles_run hs outcome ws l s e :
  NoDup l -> Forall (dumpable hs ws) l -> Forall (fun p => ws = true -> outcome p = CopyDone) l -> dir_exists (cs_dir s) = true ->
  (forall q, core <$> cs_handles s !! q = core <$> hs !! q) -> (forall q, q ∈ l -> cs_handles s !! q = hs !! q) ->
  exists s', commit_and_persist_handles outcome ws l s e = Ok POS_SUCCESS s' e /\
    (forall q, core <$> cs_handles s' !! q = core <$> hs !! q) /\
    (forall q, q ∉ l -> cs_handles s' !! q = cs_handles s !! q) /\ cs_dir s' = write_handles hs ws l (cs_dir s).
Proof.
  intros Hn. revert s. induction Hn as [|p l Hnot Hn IH]; intros s Hdump Hout Hd Hcore Hsame; [by exists s|].
  apply Forall_cons in Hdump as [(h & Hh & Hlive) Hdump], Hout as [Ho Hout]. cbn [commit_and_persist_handles].
  assert (cs_handles s !! p = Some h) as Hp by (by rewrite Hsame by set_solver).
  assert (load_ch p s e = Ok h s e) as Hl by (unfold load_ch; mrun; by rewrite Hp). rewrite (bind_ok _ _ _ _ _ _ _ Hl).
  unfold write_handles. cbn [foldl]. fold (write_handles hs ws l (write_handle hs ws p (cs_dir s))).
  unfold write_handle at 1. rewrite Hh. destruct (alive h) eqn:Ha; unfold alive in Ha.
  - rewrite negb_true_iff in Ha. rewrite Ha. destruct (Hlive eq_refl) as (Hr & [bin Hi] & Hopen & Hwrite). rewrite Hi.
    destruct (commit_and_persist_run s p h ws (latest_version h) outcome bin e) as (s1 & h' & Hrun & Hh1 & Hc1 & Hd1); try done.
    { by rewrite (image_core hs). }
    rewrite (bind_ok _ _ _ _ _ _ _ Hrun), decide_True by done.
    assert (forall q, core <$> cs_handles s1 !! q = core <$> hs !! q) as Hcore1.
    { intros q. rewrite Hh1, <- Hcore. by apply (core_insert _ _ h). }
    destruct (IH s1) as (s' & Hs' & Hc' & Hq' & Hd'); [done|done|by rewrite Hd1|done| |].
    { intros q Hq. rewrite Hh1, lookup_insert_ne by (intros ->; done). apply Hsame. set_solver. }
    exists s'. split_and!; [done|done| |by rewrite Hd', Hd1].
    intros q Hq. apply not_elem_of_cons in Hq as [Hne Hq]. by rewrite Hq', Hh1, lookup_insert_ne.
  - rewrite negb_false_iff in Ha. rewrite Ha. destruct (IH s) as (s' & Hs' & Hc' & Hq' & Hd'); [done|done|done|done|set_solver|].
    exists s'. split_and!; [done|done| |done]. intros q [_ Hq]%not_elem_of_cons. by apply Hq'.
Qed.

(** Different handles have different files. *)
Definition distinct_files (hs : gmap Z ckpt_handle) : Prop :=
  forall p q h g, hs !! p = Some h -> hs !! q = Some g -> file_of h = file_of g -> p = q.

(** They have when resource type and id identify a handle. *)
Lemma distinct_by_id (hs : gmap Z ckpt_handle) :
  (forall p h, hs !! p = Some h -> 0 <= ch_rid h < 2 ^ 32 /\ 0 <= h_id (ch_base h) < 2 ^ 64) ->
  (forall p q h g, hs !! p = Some h -> hs !! q = Some g -> ch_rid h = ch_rid g -> h_id (ch_base h) = h_id (ch_base g) -> p = q) ->
  distinct_files hs.
Proof.
  intros Hr Hu p q h g Hp Hq E%(f_equal deassemble_file_name). destruct (Hr p h Hp), (Hr q g Hq).
  unfold file_of in E. rewrite !deassemble_handle_file_name in E by done. injection E as E1 E2. by apply (Hu p q h g).
Qed.

Lemma write_handles_other hs ws l d name :
  (forall p h, p ∈ l -> hs !! p = Some h -> alive h = true -> file_of h <> name) ->
  dir_files (write_handles hs ws l d) !! name = dir_files d !! name.
Proof.
  revert d. induction l as [|p l IH]; intros d Hne; [done|]. unfold write_handles. cbn [foldl]. fold (write_handles hs ws l (write_handle hs ws p d)).
  rewrite IH by (intros; eapply Hne; [by apply elem_of_cons; right|done|done]). unfold write_handle.
  destruct (hs !! p) as [h|] eqn:Hp; [|done]. destruct (alive h) eqn:Ha; [|done]. destruct (image hs ws h); [|done]. cbn.
  apply lookup_insert_ne. apply (Hne p h); [set_solver|done|done].
Qed.

Lemma write_handles_lookup hs ws l d p h bin :
  distinct_files hs -> NoDup l -> p ∈ l -> hs !! p = Some h -> alive h = true -> image hs ws h = Some bin ->
  dir_files (write_handles hs ws l d) !! file_of h = Some (SerializeAsString bin).
Proof.
  intros Hdf Hn Hin Hp Ha Hi. revert d. induction Hn as [|q l Hnot Hn IH]; intros d; [by apply not_elem_of_nil in Hin|].
  unfold write_handles. cbn [foldl]. fold (write_handles hs ws l (write_handle hs ws q d)).
  apply elem_of_cons in Hin as [<-|Hin]; [|by apply IH].
  rewrite write_handles_other.
  - unfold write_handle. rewrite Hp, Ha, Hi. cbn. apply lookup_insert_eq.
  - intros q g Hq Hg _ E. assert (q = p) as -> by (by eapply Hdf). done.
Qed.

(** A client whose handles can be checkpointed: the sets have no handle in common, and every copy
    and every write succeeds. *)
Record checkpointable s (outcome : Z -> copy_outcome) (stateful stateless : gset Z) : Prop := {
  ck_dir : dir_exists (cs_dir s) = true;
  ck_disjoint : stateful ## stateless;
  ck_stateful p : p ∈ stateful -> dumpable (cs_handles s) true p /\ outcome p = CopyDone;
  ck_stateless p : p ∈ stateless -> dumpable (cs_handles s) false p;
  ck_files : distinct_files (cs_handles s)
}.

Lemma in_order_perm (X : gset Z) : in_order X ≡ₚ elements X.
Proof. apply merge_sort_Permutation. Qed.
Lemma elem_of_in_order (X : gset Z) p : p ∈ in_order X <-> p ∈ X.
Proof. by rewrite in_order_perm, elem_of_elements. Qed.
Lemma NoDup_in_order (X : gset Z) : NoDup (in_order X).
Proof. rewrite in_order_perm. apply NoDup_elements. Qed.

Lemma checkpoint_run s outcome stateful stateless e : checkpointable s outcome stateful stateless ->
  exists s', checkpoint_handle_sync outcome POS_SUCCESS stateful stateless s e = Ok POS_SUCCESS s' e /\
    (forall q, core <$> cs_handles s' !! q = core <$> cs_handles s !! q) /\
    cs_dir s' = write_handles (cs_handles s) false (in_order stateless) (write_handles (cs_handles s) true (in_order stateful) (cs_dir s)).
Proof.
  intros [Hd Hdis Hsf Hsl _]. set (hs := cs_handles s).
  destruct (commit_and_persist_handles_run hs outcome true (in_order stateful) s e) as (s1 & Hr1 & Hc1 & Hq1 & Hd1); try done.
  { apply NoDup_in_order. } { apply Forall_forall. intros p Hp%elem_of_in_order. by apply Hsf. }
  { apply Forall_forall. intros p Hp%elem_of_in_order. intros _. by apply Hsf. }
  assert (dir_exists (cs_dir s1) = true) as Hd1'.
  { rewrite Hd1. clear -Hd. unfold write_handles. generalize (cs_dir s) Hd. induction (in_order stateful) as [|p l IH]; intros d Hd'; [done|].
    cbn [foldl]. apply IH. by rewrite write_handle_exists. }
  destruct (commit_and_persist_handles_run hs outcome false (in_order stateless) s1 e) as (s2 & Hr2 & Hc2 & Hq2 & Hd2); try done.
  { apply NoDup_in_order. } { apply Forall_forall. intros p Hp%elem_of_in_order. by apply Hsl. }
  { by apply Forall_forall. }
  { intros q Hq%elem_of_in_order. apply Hq1. rewrite elem_of_in_order. set_solver. }
  exists s2. unfold checkpoint_handle_sync. rewrite (bind_ok _ _ _ _ _ _ _ Hr1), decide_True by done.
  rewrite (bind_ok _ _ _ _ _ _ _ Hr2), decide_True by done. split_and!; [done|done|by rewrite Hd2, Hd1].
Qed.

(** C17. A synchronous checkpoint of two sets without a common handle, into an existing directory,
    whose copies and writes succeed: it writes, for each live handle of the two sets, one file
    whose message has its id, type, addresses, size and parents and, when it is active and
    stateful, its state: for a memory the bytes behind the handle at that time. No other file
    changes, nor does any handle but for its checkpoint bag. *)
Theorem sync_checkpoint_writes s outcome stateful stateless e : checkpointable s outcome stateful stateless ->
  exists s', checkpoint_handle_sync outcome POS_SUCCESS stateful stateless s e = Ok POS_SUCCESS s' e /\
    (forall q, core <$> cs_handles s' !! q = core <$> cs_handles s !! q) /\
    (forall ws p h, p ∈ (if ws : bool then stateful else stateless) -> cs_handles s !! p = Some h -> alive h = true ->
       exists bin, image (cs_handles s) ws h = Some bin /\ describes (cs_handles s) ws h bin /\
         dir_files (cs_dir s') !! file_of h = Some (SerializeAsString bin)) /\
    (forall name, (forall p h, p ∈ stateful ∪ stateless -> cs_handles s !! p = Some h -> alive h = true -> file_of h <> name) ->
       dir_files (cs_dir s') !! name = dir_files (cs_dir s) !! name).
Proof.
  intros Hck. destruct (checkpoint_run s outcome stateful stateless e Hck) as (s' & Hrun & Hcore & Hd). exists s'.
  destruct Hck as [_ Hdis Hsf Hsl Hdf]. split_and!; [done|done|..].
  - intros ws p h Hin Hp Ha. rewrite Hd.
    assert (dumpable (cs_handles s) ws p) as (h' & Hp' & Hl) by (destruct ws; [by apply Hsf|by apply Hsl]). rewrite Hp in Hp'. injection Hp' as <-.
    destruct (Hl Ha) as (_ & [bin Hi] & _). exists bin. split; [done|]. split; [by apply image_describes|]. destruct ws.
    + rewrite write_handles_other.
      * eapply write_handles_lookup; try done; [apply NoDup_in_order|by apply elem_of_in_order].
      * intros q g Hq%elem_of_in_order Hg _ E. assert (q = p) as -> by (by eapply Hdf). set_solver.
    + eapply write_handles_lookup; try done; [apply NoDup_in_order|by apply elem_of_in_order].
  - intros name Hne. rewrite Hd, !write_handles_other; [done|..]; intros p h Hp%elem_of_in_order Hh; apply (Hne p h); set_solver.
Qed.
End writing.

(** ** From the file back to the memory *)

Section back.
Context `{!Allocator, !Proto Bin_POSHandle}.
Implicit Types (m : POSHandleManager) (p : Z).

(** Recording an address changes the index only. *)
Lemma record_frame a p m e r m' e' : record_handle_address a p m e = Ok r m' e' ->
  hm_heap m' = hm_heap m /\ hm_handles m' = hm_handles m.
Proof.
  unfold record_handle_address. unfold mbind, M_bind. destruct (get_handle_by_client_addr a m e) as [o m1 e1|w m1 e1|w] eqn:Hg; [|done|done].
  assert (m1 = m) as ->.
  { revert Hg. unfold get_handle_by_client_addr, load_handle, hm_assert. mrun. destruct (handle_address_map m !! a) as [q|].
    - destruct (hm_heap m !! q) as [h|]; [|done]. destruct (negb _); [|done]. by intros [= _ -> _].
    - destruct (predecessor _ _) as [[? q]|]; [|by intros [= _ -> _]]. destruct (hm_heap m !! q) as [h|]; [|done]. destruct (negb _); [|done].
      by intros [= _ -> _]. }
  destruct o; by intros [= _ <- _].
Qed.

(** The handle that a restore makes. *)
Definition restored_handle (id addr size st : Z) (waitlist : list (Z * Z)) : POSHandle :=
  mk_handle addr addr size id kPOS_HandleStatus_Broken kPOS_HandleStatus_StateMiss st [] waitlist.

Lemma restore_new_fields id a size st m e p r m' e' : hm_passthrough m = true ->
  restore_new_handle id a a size st m e = Ok (p, r) m' e' ->
  hm_heap m' !! p = Some (set_addrs a a (handle_new 0 size id st)) /\ hm_handles m' = hm_handles m.
Proof.
  intros Hpt. unfold restore_new_handle. rewrite (bind_ok get _ m e m m e eq_refl), Hpt.
  destruct (new_handle_spec (handle_new 0 size id st) m e) as (q & Hn & _). set (m1 := hm_set_heap _ m) in Hn.
  assert (store_handle q (set_addrs a a) m1 e = Ok tt (hm_set_heap (<[q := set_addrs a a (handle_new 0 size id st)]> (hm_heap m1)) m1) e) as Hst.
  { apply store_handle_spec. apply lookup_insert_eq. }
  set (m2 := hm_set_heap _ m1) in Hst. intros Hrun. unfold mbind, M_bind in Hrun. rewrite Hn in Hrun. unfold set_passthrough_addr, mbind, M_bind in Hrun.
  rewrite Hst in Hrun. destruct (record_handle_address a q m2 e) as [r2 m3 e3|? ? ?|?] eqn:H1; [|done|done].
  cbn [mret M_ret] in Hrun. destruct (record_handle_address a q m3 e3) as [r4 m4 e4|? ? ?|?] eqn:H2; [|done|done]. injection Hrun as <- <- <- <-.
  destruct (record_frame _ _ _ _ _ _ _ H1) as [F1 G1]. destruct (record_frame _ _ _ _ _ _ _ H2) as [F2 G2].
  rewrite F2, F1, G2, G1. split; [apply lookup_insert_eq|done].
Qed.

Lemma restore_mocked_fields id a size waitlist st m e : hm_ok m -> hm_passthrough m = true -> get_handle_by_id id m = None ->
  0 <= id -> 0 < size -> 0 <= a -> a + size <= kPOS_ResourceEndAddr -> extent_free (extents m) a size ->
  exists p m', restore_mocked_resource id a a size waitlist st m e = Ok (POS_SUCCESS, Some p) m' e /\ hm_ok m' /\
    hm_heap m' !! p = Some (restored_handle id a size st waitlist) /\ get_handle_by_id id m' = Some p.
Proof.
  intros Hm Hpt Hid0 Hid Hz Ha Hend Hf. unfold restore_mocked_resource.
  set (m1 := hm_set_handles (resize_handles id (hm_handles m)) m).
  destruct (hm_handles_ok (resize_handles id (hm_handles m)) m Hm) as [Hm1 He1]. fold m1 in Hm1, He1.
  rewrite (bind_ok (modify (fun s => hm_set_handles (resize_handles id (hm_handles s)) s)) _ m e tt m1 e eq_refl), (bind_ok get _ m1 e m1 m1 e eq_refl).
  unfold m1 at 1. rewrite get_by_id_resized, Hid0 by done. fold m1. change (hm_passthrough m1) with (hm_passthrough m). rewrite Hpt. cbn [negb andb].
  destruct (restore_passthrough_spec id a size st m1 e) as (p & m2 & Hp & Hrun & Hm2 & He2 & [h Hh]); try done;
    [unfold kPOS_ResourceEndAddr in *; lia|right; by rewrite He1|].
  destruct (restore_new_fields _ _ _ _ m1 _ _ _ _ _ Hpt Hrun) as [Hfield Hhs]. rewrite (bind_ok _ _ _ _ _ _ _ Hrun). cbv beta iota.
  rewrite decide_True by done.
  destruct (restore_tail p h id waitlist m2 e Hm2 Hh) as (m3 & Ht & Hm3 & _). exists p, m3. split_and!; [done|done|..].
  - revert Ht. unfold mark_handle_status, mark_state_status, hm_assert. mbase. erewrite store_handle_spec by done. cbv beta iota.
    erewrite store_handle_spec by apply lookup_insert_eq. cbv beta iota. erewrite store_handle_spec by apply lookup_insert_eq. cbv beta iota.
    intros [= <-]. cbn. rewrite lookup_insert_eq. rewrite Hh in Hfield. injection Hfield as ->. done.
  - revert Ht. unfold mark_handle_status, mark_state_status, hm_assert. mbase. erewrite store_handle_spec by done. cbv beta iota.
    erewrite store_handle_spec by apply lookup_insert_eq. cbv beta iota. erewrite store_handle_spec by apply lookup_insert_eq. cbv beta iota.
    intros [= <-]. unfold get_handle_by_id. cbn. rewrite length_insert, Hhs. pose proof (resize_length id (hm_handles m) Hid) as Hlen.
    change (hm_handles m1) with (resize_handles id (hm_handles m)).
    rewrite (proj2 (Z.leb_gt _ _)) by lia. rewrite list_lookup_insert_eq by lia. done.
Qed.

Lemma on_hm_ok {A} (c : M POSHandleManager A) s e (a : A) m' e' : c (rs_hm s) e = Ok a m' e' -> on_hm c s e = Ok a (set_hm m' s) e'.
Proof. intros Hc. unfold on_hm, zoom. by rewrite Hc. Qed.

Lemma load_ok p h s e : hm_heap (rs_hm s) !! p = Some h -> on_hm (load_handle p) s e = Ok h s e.
Proof.
  intros Hp. rewrite (on_hm_ok _ s e h (rs_hm s) e); [by destruct s|]. unfold load_handle. mrun. by rewrite Hp.
Qed.

Lemma store_ok p f h s e : hm_heap (rs_hm s) !! p = Some h ->
  on_hm (store_handle p f) s e = Ok tt (set_hm (hm_set_heap (<[p := f h]> (hm_heap (rs_hm s))) (rs_hm s)) s) e.
Proof. intros Hp. apply on_hm_ok. by apply store_handle_spec. Qed.

Lemma parse_array_round_trip b : Z.of_nat (length (SerializeAsString b)) < 2 ^ 31 -> ParseFromArray (SerializeAsString b) = Some b.
Proof.
  intros Hl. unfold ParseFromArray. rewrite s32_small by lia. rewrite (proj2 (Z.ltb_ge _ 0)) by lia.
  rewrite Nat2Z.id, firstn_all. apply parse_serialize.
Qed.

(** A message that describes a memory with one parent, and a manager that has room for it. *)
Record restorable (b : Bin_POSHandle) (area : bytes) (m : POSHandleManager) (find : Z -> Z -> option (option Z)) (rid hid q : Z) : Prop := {
  rb_parse : ParseFromArray area = Some b;
  rb_area : area <> [];
  rb_parents : bin_parent_types b = [rid] /\ bin_parent_ids b = [hid] /\ 0 <= rid < 2 ^ 32;
  rb_find : find rid hid = Some (Some q);
  rb_addr : bin_client_addr b = bin_server_addr b /\ 0 < bin_server_addr b /\ bin_server_addr b + bin_size b <= kPOS_ResourceEndAddr;
  rb_state : bin_state_size b = Z.of_nat (length (bin_state b)) /\ bin_state b <> [];
  rb_id : 0 <= bin_id b /\ get_handle_by_id (bin_id b) m = None;
  rb_size : 0 < bin_size b;
  rb_manager : hm_ok m /\ hm_passthrough m = true;
  rb_free : extent_free (extents m) (bin_server_addr b) (bin_size b)
}.

(** The handle as it is after its restore. *)
Definition active_handle (b : Bin_POSHandle) (rid hid q : Z) : POSHandle :=
  mk_handle (bin_server_addr b) (bin_server_addr b) (bin_size b) (bin_id b) kPOS_HandleStatus_Active kPOS_HandleStatus_StateMiss
    (bin_state_size b) [q] [(rid, hid)].

Lemma reallocate_run b area s find rid hid q e : restorable b area (rs_hm s) find rid hid q ->
  exists p m', reallocate_single_handle (Some area) true s e = Ok (POS_SUCCESS, Some p) (set_mapped p (Some area) (set_hm m' s)) e /\
    hm_heap m' !! p = Some (restored_handle (bin_id b) (bin_server_addr b) (bin_size b) (bin_state_size b) [(rid, hid)]) /\
    get_handle_by_id (bin_id b) m' = Some p.
Proof.
  intros [Hparse _ (Ht & Hi & Hr) _ (Hc & Ha & Hend) (Hst & Hne) (Hid & Hnone) Hz (Hm & Hpt) Hf].
  assert (0 < bin_state_size b) as Hpos by (rewrite Hst; destruct (bin_state b); [done|cbn; lia]).
  destruct (restore_mocked_fields (bin_id b) (bin_server_addr b) (bin_size b) [(rid, hid)] (bin_state_size b) (rs_hm s) e)
    as (p & m' & Hrun & _ & Hh & Hg); try done; [lia|].
  exists p, m'. split_and!; [|done|done]. unfold reallocate_single_handle. cbn [negb].
  assert (reallocate_memory_handle area s e = Ok (POS_SUCCESS, Some p) (set_hm m' s) e) as Hre.
  { unfold reallocate_memory_handle. rewrite Hparse, Ht, Hi, Hc. cbn [length Nat.eqb fmap list_fmap zip zip_with]. rewrite wrap_small by lia.
    rewrite (bind_ok (restore_assert true) _ s e tt s e eq_refl). by apply on_hm_ok. }
  rewrite (bind_ok _ _ _ _ _ _ _ Hre). cbv beta iota. rewrite decide_True by done.
  rewrite (bind_ok _ _ _ _ _ _ _ (load_ok p _ (set_hm m' s) e Hh)). cbn [h_state_size restored_handle].
  by rewrite (proj2 (Z.ltb_lt 0 _)) by lia.
Qed.

Lemma reload_run b area p h s e : ParseFromArray area = Some b -> area <> [] -> bin_state b <> [] ->
  hm_heap (rs_hm s) !! p = Some h -> h_state_size h = Z.of_nat (length (bin_state b)) -> h_status h = kPOS_HandleStatus_Active ->
  rs_mapped s !! p = Some (Some area) ->
  reload_state CopyDone p s e = Ok POS_SUCCESS (set_mapped p None (set_device (server_addr h) (Some <$> bin_state b) s)) e.
Proof.
  intros Hparse Harea Hne Hp Hst Hact Hmap. assert (0 < h_state_size h) as Hpos by (rewrite Hst; destruct (bin_state b); [done|cbn; lia]).
  unfold reload_state. rewrite (bind_ok _ _ _ _ _ _ _ (load_ok p h s e Hp)), (proj2 (Z.ltb_lt 0 _)) by lia.
  rewrite (bind_ok (restore_assert true) _ s e tt s e eq_refl), (bind_ok get _ s e s s e eq_refl), Hmap.
  rewrite (bool_decide_false (area = [])) by done. cbn [negb]. rewrite (bind_ok (restore_assert true) _ s e tt s e eq_refl), bool_decide_true by done.
  unfold memory_reload_state. rewrite Hparse.
  assert ((h ← on_hm (load_handle p);
     data ← need "memcpy beyond the state" (read_range 0 (Z.to_nat (h_state_size h)) (bin_state b ++ [0]));
     modify (set_device (server_addr h) (Some <$> data));; mret POS_SUCCESS) s e =
     Ok POS_SUCCESS (set_device (server_addr h) (Some <$> bin_state b) s) e) as Hcopy.
  { rewrite (bind_ok _ _ _ _ _ _ _ (load_ok p h s e Hp)), Hst, Nat2Z.id. unfold read_range.
    rewrite decide_True by (rewrite length_app; lia). by rewrite drop_0, take_app_length. }
  by rewrite (bind_ok _ _ _ _ _ _ _ Hcopy).
Qed.

Lemma restore_memory_run b area s find rid hid q rt e : restorable b area (rs_hm s) find rid hid q ->
  exists p s', restore_memory find true rt CopyDone (Some area) s e = Ok (POS_SUCCESS, Some p) s' e /\
    get_handle_by_id (bin_id b) (rs_hm s') = Some p /\ hm_heap (rs_hm s') !! p = Some (active_handle b rid hid q) /\
    rs_device s' !! bin_server_addr b = Some (Some <$> bin_state b) /\ rs_mapped s' !! p = Some None.
Proof.
  intros Hb. destruct (reallocate_run b area s find rid hid q e Hb) as (p & m1 & Hre & Hh1 & Hg).
  destruct Hb as [Hparse Harea _ Hfind (_ & Ha & _) (Hst & Hne) _ _ _ _].
  set (s1 := set_mapped p (Some area) (set_hm m1 s)) in Hre. set (h1 := restored_handle _ _ _ _ _) in Hh1.
  set (m2 := hm_set_heap (<[p := add_parent q h1]> (hm_heap m1)) m1). set (s2 := set_hm m2 s1).
  assert (reassign_handle_parents find p s1 e = Ok POS_SUCCESS s2 e) as Hpar.
  { unfold reassign_handle_parents. rewrite (bind_ok _ _ _ _ _ _ _ (load_ok p h1 s1 e Hh1)). cbn [parent_handles_waitlist h1 restored_handle reassign_parents].
    rewrite Hfind. by rewrite (bind_ok _ _ _ _ _ _ _ (store_ok p (add_parent q) h1 s1 e Hh1)). }
  set (h2 := add_parent q h1). assert (hm_heap (rs_hm s2) !! p = Some h2) as Hh2 by apply lookup_insert_eq.
  set (s3 := set_device (bin_server_addr b) (replicate (Z.to_nat (bin_state_size b)) None) s2).
  set (s4 := set_hm (hm_set_heap (<[p := active_handle b rid hid q]> (hm_heap m2)) m2) s3).
  assert (memory_restore true rt p s2 e = Ok POS_SUCCESS s4 e) as Hres.
  { unfold memory_restore. rewrite (bind_ok _ _ _ _ _ _ _ (load_ok p h2 s2 e Hh2)).
    change (parent_handles h2) with [q]. change (server_addr h2) with (bin_server_addr b). change (client_addr h2) with (bin_server_addr b).
    change (h_state_size h2) with (bin_state_size b). rewrite (bind_ok (restore_assert true) _ s2 e tt s2 e eq_refl). cbv zeta.
    rewrite (proj2 (Z.eqb_neq (bin_server_addr b) 0)), Z.eqb_refl by lia. cbn [negb].
    rewrite (bind_ok (restore_assert true) _ s2 e tt s2 e eq_refl), (bind_ok (modify _) _ s2 e tt s3 e eq_refl).
    apply on_hm_ok. unfold mark_handle_status. by rewrite (bind_ok _ _ _ _ _ _ _ (store_handle_spec p (set_status kPOS_HandleStatus_Active) h2 m2 e Hh2)). }
  assert (hm_heap (rs_hm s4) !! p = Some (active_handle b rid hid q)) as Hh4 by apply lookup_insert_eq.
  assert (reload_state CopyDone p s4 e = Ok POS_SUCCESS (set_mapped p None (set_device (bin_server_addr b) (Some <$> bin_state b) s4)) e) as Hrel.
  { apply (reload_run b area p (active_handle b rid hid q)); try done. apply lookup_insert_eq. }
  exists p. eexists. split.
  { unfold restore_memory. rewrite (bind_ok _ _ _ _ _ _ _ Hre). cbv beta iota. rewrite decide_True by done.
    rewrite (bind_ok _ _ _ _ _ _ _ Hpar), decide_True by done. rewrite (bind_ok _ _ _ _ _ _ _ Hres), decide_True by done.
    rewrite (bind_ok _ _ _ _ _ _ _ (load_ok p _ s4 e Hh4)). cbn [h_state_size active_handle].
    rewrite (proj2 (Z.ltb_lt 0 (bin_state_size b))) by (rewrite Hst; destruct (bin_state b); [done|cbn; lia]).
    by rewrite (bind_ok _ _ _ _ _ _ _ Hrel). }
  split_and!; [exact Hg|exact Hh4|apply lookup_insert_eq|apply lookup_insert_eq].
Qed.

(** The memory handle has no state to be read a second time. *)
Lemma second_reload_unmapped outcome p h s e : hm_heap (rs_hm s) !! p = Some h -> 0 < h_state_size h -> rs_mapped s !! p = Some None ->
  reload_state outcome p s e = Ub "the file is not mapped any more".
Proof.
  intros Hp Hst Hm. unfold reload_state. rewrite (bind_ok _ _ _ _ _ _ _ (load_ok p h s e Hp)), (proj2 (Z.ltb_lt 0 _)) by done.
  rewrite (bind_ok (restore_assert true) _ s e tt s e eq_refl), (bind_ok get _ s e s s e eq_refl). by rewrite Hm.
Qed.

(** A file of 2 GiB or more is not parsed. *)
Lemma large_file_refused area s e : 2 ^ 31 <= Z.of_nat (length area) < 2 ^ 32 ->
  reallocate_single_handle (Some area) true s e = Ok (POS_FAILED, None) s e.
Proof.
  intros Hl. unfold reallocate_single_handle, reallocate_memory_handle, ParseFromArray. cbn [negb].
  assert (s32 (Z.of_nat (length area)) <? 0 = true) as ->; [|done]. apply Z.ltb_lt. unfold s32.
  rewrite <- (Z_mod_plus_full _ (-1)), Z.mod_small; lia.
Qed.
End back.

(** ** A checkpoint and its restore *)

Section whole.
Context `{!Disk, !Allocator, !MapBegin, !Proto Bin_POSHandle}.
Implicit Types (s : ckpt_state) (h : ckpt_handle) (p : Z).

(** The message of an active memory. *)
Lemma memory_image hs h parents : ch_class h = MemoryHandle -> h_status (ch_base h) = kPOS_HandleStatus_Active ->
  parent_ids hs h = Some parents ->
  image hs true h = Some (mk_bin (h_id (ch_base h)) (ch_rid h) (client_addr (ch_base h)) (server_addr (ch_base h)) (h_size (ch_base h))
    parents.*1 parents.*2 (fixed_state_size (ckpt_bag h)) 0 (ch_memory h)).
Proof.
  intros Hc Ha Hp. unfold image, slot_image. rewrite Hp, Ha, Hc. cbn [mbind option_bind andb]. rewrite bool_decide_true by done.
  unfold handle_binary. cbn [slot_data]. assert (mapM id (Some <$> ch_memory h) = Some (ch_memory h)) as ->; [|done].
  induction (ch_memory h) as [|x l IH]; [done|]. cbn. by rewrite IH.
Qed.

(** The memory whose file is read and the manager that makes it again. *)
Record memory_back s (m : POSHandleManager) (find : Z -> Z -> option (option Z)) h (rid hid q : Z) : Prop := {
  mb_class : ch_class h = MemoryHandle;
  mb_active : h_status (ch_base h) = kPOS_HandleStatus_Active;
  mb_parent : parent_ids (cs_handles s) h = Some [(rid, hid)] /\ 0 <= rid < 2 ^ 32 /\ find rid hid = Some (Some q);
  mb_addr : client_addr (ch_base h) = server_addr (ch_base h) /\ 0 < server_addr (ch_base h) /\
    server_addr (ch_base h) + h_size (ch_base h) <= kPOS_ResourceEndAddr;
  mb_size : 0 < h_size (ch_base h) /\ ch_memory h <> [];
  mb_id : 0 <= h_id (ch_base h) /\ get_handle_by_id (h_id (ch_base h)) m = None;
  mb_manager : hm_ok m /\ hm_passthrough m = true /\ extent_free (extents m) (server_addr (ch_base h)) (h_size (ch_base h));
  mb_file bin : image (cs_handles s) true h = Some bin -> 0 < Z.of_nat (length (SerializeAsString bin)) < 2 ^ 31
}.

(** C7. What a synchronous checkpoint writes for an active memory that is not empty brings it
    back, when the copies and writes of the checkpoint and the copy of the reload succeed and the
    file is below 2 GiB: in a pass-through manager that does not have it and whose extents leave
    its address range free, with its one parent back, the handle gets its id, address, size and
    parent, it is active, and the buffer at its address holds the bytes that the memory had when
    the checkpoint was taken. *)
Theorem checkpoint_restores_memory s outcome stateful stateless p h m find rid hid q mapped device e :
  checkpointable s outcome stateful stateless -> p ∈ stateful -> cs_handles s !! p = Some h -> memory_back s m find h rid hid q ->
  exists s' p' t, checkpoint_handle_sync outcome POS_SUCCESS stateful stateless s e = Ok POS_SUCCESS s' e /\
    restore_memory find true None CopyDone (dir_files (cs_dir s') !! file_of h) (mk_rs m mapped device) e = Ok (POS_SUCCESS, Some p') t e /\
    get_handle_by_id (h_id (ch_base h)) (rs_hm t) = Some p' /\
    hm_heap (rs_hm t) !! p' = Some (mk_handle (client_addr (ch_base h)) (server_addr (ch_base h)) (h_size (ch_base h)) (h_id (ch_base h))
      kPOS_HandleStatus_Active kPOS_HandleStatus_StateMiss (Z.of_nat (length (ch_memory h))) [q] [(rid, hid)]) /\
    rs_device t !! server_addr (ch_base h) = Some (Some <$> ch_memory h).
Proof.
  intros Hck Hin Hp [Hc Ha (Hpar & Hr & Hfind) (Haddr & Hpos & Hend) (Hz & Hne) (Hid & Hnone) (Hm & Hpt & Hf) Hfile].
  destruct (checkpoint_run s outcome stateful stateless e Hck) as (s' & Hrun & _ & Hd). destruct Hck as [_ Hdis Hsf _ Hdf].
  assert (alive h = true) as Hal by (unfold alive; by rewrite Ha). destruct (Hsf p Hin) as [(h' & Hp' & Hl) _]. rewrite Hp in Hp'. injection Hp' as <-.
  destruct (Hl Hal) as (Hready & _). specialize (Hready eq_refl). rewrite Hc in Hready. destruct Hready as (_ & Hlen & _).
  pose proof (memory_image (cs_handles s) h _ Hc Ha Hpar) as Hi. set (bin := mk_bin _ _ _ _ _ _ _ _ _ _) in Hi.
  assert (dir_files (cs_dir s') !! file_of h = Some (SerializeAsString bin)) as Hlook.
  { rewrite Hd, write_handles_other.
    - eapply write_handles_lookup; try done; [apply NoDup_in_order|by apply elem_of_in_order].
    - intros p2 g Hq%elem_of_in_order Hg _ E. assert (p2 = p) as -> by (by eapply Hdf). set_solver. }
  specialize (Hfile bin Hi).
  destruct (restore_memory_run bin (SerializeAsString bin) (mk_rs m mapped device) find rid hid q None e) as (p' & t & Hres & Hg & Hh & Hdev & _).
  { split; try done; [apply parse_array_round_trip; lia|by intros E; rewrite E in Hfile; cbn in Hfile; lia]. }
  exists s', p', t. rewrite Hlook. split_and!; [done|done|done| |done].
  rewrite Hh. unfold active_handle, bin. cbn. by rewrite Haddr, Hlen.
Qed.
End whole.

(** ** A concrete checkpoint *)

#[export] Instance bin_eq_dec : EqDecision Bin_POSHandle. Proof. solve_decision. Defined.
#[export] Instance bin_countable : Countable Bin_POSHandle.
Proof.
  refine (inj_countable' (fun v => (bin_id v, bin_resource_type_id v, bin_client_addr v, bin_server_addr v, bin_size v, bin_parent_types v,
      bin_parent_ids v, bin_state_size v, bin_state_type v, bin_state v))
    (fun x => let '(a, b, c, d, e, f, g, h, i, j) := x in mk_bin a b c d e f g h i j) _). by intros [].
Defined.
#[local] Instance sample_bin_proto : Proto Bin_POSHandle := countable_proto Bin_POSHandle.
#[local] Program Instance sample_disk : Disk := {|
  can_open _ := true; can_write _ := true; torn _ c := c; dir_list m := (map_to_list m).*1
|}.
Next Obligation. done. Qed.
#[local] Instance sample_alloc : Allocator := {| alloc := fresh; alloc_fresh := is_fresh |}.
#[local] Instance sample_begin : MapBegin :=
  {| map_begin := first_entry; map_begin_elem := first_entry_elem; map_begin_empty := first_entry_empty |}.

(** A device and a memory of two bytes on it. *)
Definition sample_device : ckpt_handle :=
  mk_ch StatelessHandle 1 (mk_handle 0x1000 0 16 0 kPOS_HandleStatus_Active kPOS_HandleStatus_StateReady 0 [] []) [] 0 sample_bag None.
Definition sample_memory : ckpt_handle :=
  mk_ch MemoryHandle 5 (mk_handle 0x7000 0x7000 2 0 kPOS_HandleStatus_Active kPOS_HandleStatus_StateReady 2 [1] []) [7; 8] 3 sample_bag None.
Definition sample_state : ckpt_state := mk_cs (<[1 := sample_device]> {[2 := sample_memory]}) (mk_dir true ∅).

Lemma sample_checkpointable : checkpointable sample_state (fun _ => CopyDone) {[2]} {[1]}.
Proof.
  split.
  - done.
  - set_solver.
  - intros p ->%elem_of_singleton. split; [|done]. exists sample_memory. split; [done|]. intros _. split_and!; [|by eexists|done|done].
    intros _. destruct sample_bag_ok as [Hb Hs]. split_and!; [done|done|]. left. split; [by vm_compute|]. exists 0, [None; None]. by vm_compute.
  - intros p ->%elem_of_singleton. exists sample_device. split; [done|]. intros _. split_and!; [done|by eexists|done|done].
  - intros p q h g. cbn [cs_handles sample_state]. intros [[<- <-]|[_ [<- <-]%lookup_singleton_Some]]%lookup_insert_Some
      [[<- <-]|[_ [<- <-]%lookup_singleton_Some]]%lookup_insert_Some E; done.
Qed.

Lemma sync_checkpoint_writes_witness :
  exists s', checkpoint_handle_sync (fun _ => CopyDone) POS_SUCCESS {[2]} {[1]} sample_state 0 = Ok POS_SUCCESS s' 0 /\
    exists bin, image (cs_handles sample_state) true sample_memory = Some bin /\ bin_state bin = [7; 8] /\
      dir_files (cs_dir s') !! chars "h-5-0.bin" = Some (SerializeAsString bin).
Proof.
  destruct (sync_checkpoint_writes sample_state (fun _ => CopyDone) {[2]} {[1]} 0 sample_checkpointable) as (s' & Hrun & _ & Hw & _).
  exists s'. split; [exact Hrun|]. destruct (Hw true 2 sample_memory) as (bin & Hi & Hds & Hf); [set_solver|done|done|].
  exists bin. split_and!; [done| |exact Hf]. by destruct (ds_memory _ _ _ _ Hds) as [-> _].
Defined.

Definition sample_find (rid hid : Z) : option (option Z) := if (rid =? 1) && (hid =? 0) then Some (Some 50) else Some None.

Lemma sample_memory_back : memory_back sample_state (hm_new true) sample_find sample_memory 1 0 50.
Proof.
  split; try done. intros bin Hi. vm_compute in Hi. injection Hi as <-. split; by vm_compute.
Qed.

Lemma checkpoint_restores_memory_witness :
  exists s' p' t, checkpoint_handle_sync (fun _ => CopyDone) POS_SUCCESS {[2]} {[1]} sample_state 0 = Ok POS_SUCCESS s' 0 /\
    restore_memory sample_find true None CopyDone (dir_files (cs_dir s') !! chars "h-5-0.bin") (mk_rs (hm_new true) ∅ ∅) 0 =
      Ok (POS_SUCCESS, Some p') t 0 /\ rs_device t !! 0x7000 = Some [Some 7; Some 8].
Proof.
  destruct (checkpoint_restores_memory sample_state (fun _ => CopyDone) {[2]} {[1]} 2 sample_memory (hm_new true) sample_find 1 0 50 ∅ ∅ 0
    sample_checkpointable ltac:(set_solver) eq_refl sample_memory_back) as (s' & p' & t & H1 & H2 & _ & _ & H5).
  exists s', p', t. split_and!; [exact H1|exact H2|exact H5].
Defined.

(** A handle that is about to be deleted loses its state: its file has the size of the state and no
    bytes, which a restore would read. *)
Lemma deleted_pending_without_state :
  (bin_state_size <$> image ∅ true (mk_ch MemoryHandle 5
     (mk_handle 0x7000 0x7000 2 0 kPOS_HandleStatus_Delete_Pending kPOS_HandleStatus_StateReady 2 [] []) [7; 8] 3 sample_bag None)) = Some 2 /\
  (bin_state <$> image ∅ true (mk_ch MemoryHandle 5
     (mk_handle 0x7000 0x7000 2 0 kPOS_HandleStatus_Delete_Pending kPOS_HandleStatus_StateReady 2 [] []) [7; 8] 3 sample_bag None)) = Some [].
Proof. by vm_compute. Qed.
