(* ===== verification/PrefixTrie.v ===== *)
(** The prefix index of the trace viewer (xprof/convert/trace_viewer/prefix_trie.{h,cc}):
    a trie of names with the identifiers of the events that have them, its traversal
    into a sorted table, and the search of a prefix in that table. *)
From Stdlib Require Import ZArith Lia.
From stdpp Require Import base list sorting.
From S2P Require Import Prelude LevelDb.
Local Open Scope Z_scope.

(** ** The trie *)

Inductive PrefixTrieNode := mk_node {
  terminal_key_ids : list bytes;
  children : list (Z * PrefixTrieNode)
}.

Definition empty_node : PrefixTrieNode := mk_node [] [].

(** The value of a byte as a [char], which is signed on x86-64. *)
Definition schar (b : Z) : Z := if b <? 128 then b else b - 256.

(** [children[c]], created when it is missing, in the order of absl::btree_map. *)
Fixpoint child_update (c : Z) (f : PrefixTrieNode -> PrefixTrieNode)
    (ch : list (Z * PrefixTrieNode)) : list (Z * PrefixTrieNode) :=
  match ch with
  | [] => [(c, f empty_node)]
  | (d, n) :: ch' =>
      if schar c <? schar d then (c, f empty_node) :: ch
      else if c =? d then (d, f n) :: ch'
      else (d, n) :: child_update c f ch'
  end.

(** [PrefixTrie::Insert]: down the path of [key], then the identifier is appended. *)
Fixpoint Insert (key id : bytes) (node : PrefixTrieNode) : PrefixTrieNode :=
  match key with
  | [] => mk_node (terminal_key_ids node ++ [id]) (children node)
  | c :: key' => mk_node (terminal_key_ids node) (child_update c (Insert key' id) (children node))
  end.

(** The message of a node holds its identifiers only. *)
Abbreviation PrefixTrieNodeProto := (list bytes).
Definition ToProto (node : PrefixTrieNode) : PrefixTrieNodeProto := terminal_key_ids node.

Record PrefixSearchResult := mk_result { result_key : bytes; result_ids : list bytes }.

Section storage.
Context `{!TableLib, !Proto PrefixTrieNodeProto}.

(** The traversal with an explicit stack, whose top is the head of the list. *)
Fixpoint iterate_loop (fuel : nat) (stack : list (PrefixTrieNode * bytes)) : option (list entry) :=
  match stack with
  | [] => Some []
  | (node, key) :: rest =>
      match fuel with
      | O => None
      | S fuel' =>
          let pushed := map (fun '(c, child) => (child, key ++ [c])) (children node) in
          cons (key, SerializeAsString (ToProto node)) <$> iterate_loop fuel' (pushed ++ rest)
      end
  end.

(** The number of nodes. *)
Fixpoint node_size (n : PrefixTrieNode) : nat :=
  S ((fix go (l : list (Z * PrefixTrieNode)) : nat :=
        match l with [] => 0%nat | (_, child) :: l' => (node_size child + go l')%nat end) (children n)).

Definition IterateTrieAndSaveToLevelDbTable (node : PrefixTrieNode) : option (list entry) :=
  iterate_loop (node_size node) [(node, [])].

(** The status, and the table the file then holds. *)
Definition SaveAsLevelDbTable (root : PrefixTrieNode) (file : WritableFile) : option (Status * table) :=
  entries ← IterateTrieAndSaveToLevelDbTable root;
  Some (if negb (status_ok (file_finish file)) then file_finish file
        else if negb (status_ok (file_name file)) then file_name file
        else file_close file, table_build entries).

Fixpoint search_loop (fuel : nat) (prefix : bytes) (it : iterator) (results : list PrefixSearchResult) :
    option (Status + list PrefixSearchResult) :=
  match current it with
  | None => Some (inr results)
  | Some (key, value) =>
      match fuel with
      | O => None
      | S fuel' =>
          if StartsWith key prefix then
            match ParseFromString value with
            | None => Some (inl InternalError)
            | Some ids =>
                let results' := if bool_decide (ids = []) then results else results ++ [mk_result key ids] in
                search_loop fuel' prefix (Next it) results'
            end
          else Some (inr results)
      end
  end.

(** [opened]: what opening the file as a table gave. *)
Definition LoadTrieAsLevelDbTableAndSearch (opened : Status + table) (prefix : bytes) :
    option (Status + list PrefixSearchResult) :=
  match opened with
  | inl st => Some (inl st)
  | inr t => let it := Seek t prefix in search_loop (S (length (remaining it))) prefix it []
  end.
End storage.

(** ** Induction on tries *)

Lemma node_ind' (P : PrefixTrieNode -> Prop) :
  (forall ids ch, Forall (fun p => P p.2) ch -> P (mk_node ids ch)) -> forall n, P n.
Proof.
  intros H. fix IH 1. intros [ids ch]. apply H. induction ch as [|[c n] ch IHch]; constructor; [apply IH|done].
Qed.

(** The identifiers at the end of the path of [k]. *)
Fixpoint child_of (c : Z) (ch : list (Z * PrefixTrieNode)) : PrefixTrieNode :=
  match ch with
  | [] => empty_node
  | (d, n) :: ch' => if c =? d then n else child_of c ch'
  end.
Fixpoint trie_ids (k : bytes) (n : PrefixTrieNode) : list bytes :=
  match k with
  | [] => terminal_key_ids n
  | c :: k' => trie_ids k' (child_of c (children n))
  end.

(** Children in strict order of their characters, all below [hi]. *)
Definition char_lt (p q : Z * PrefixTrieNode) : Prop := schar p.1 < schar q.1.
Inductive trie_wf (hi : Z) : PrefixTrieNode -> Prop :=
  | trie_wf_node ids ch :
      StronglySorted char_lt ch -> Forall (fun p => 0 <= p.1 < hi /\ trie_wf hi p.2) ch ->
      trie_wf hi (mk_node ids ch).

Lemma trie_wf_empty hi : trie_wf hi empty_node.
Proof. repeat constructor. Qed.

Lemma trie_ids_empty k : trie_ids k empty_node = [].
Proof. induction k; simpl; [done|]. done. Qed.

Lemma schar_inj b c : 0 <= b < 256 -> 0 <= c < 256 -> schar b = schar c -> b = c.
Proof. unfold schar. destruct (Z.ltb_spec b 128), (Z.ltb_spec c 128); lia. Qed.

Section updates.
Context (hi : Z) (Hhi : hi <= 256).
Implicit Types ch : list (Z * PrefixTrieNode).

Definition children_wf ch : Prop :=
  StronglySorted char_lt ch /\ Forall (fun p => 0 <= p.1 < hi /\ trie_wf hi p.2) ch.

Lemma child_of_absent c ch : Forall (fun p => schar c < schar p.1) ch -> child_of c ch = empty_node.
Proof.
  induction 1 as [|[d n] ch Hd _ IH]; simpl in *; [done|]. destruct (Z.eqb_spec c d) as [->|]; [lia|done].
Qed.

Lemma child_update_lookup c f ch d :
  children_wf ch -> 0 <= c < hi ->
  child_of d (child_update c f ch) = if d =? c then f (child_of c ch) else child_of d ch.
Proof.
  intros [Hs Hall] Hc. induction ch as [|[e n] ch IH]; simpl.
  { destruct (Z.eqb_spec d c); done. }
  apply StronglySorted_inv in Hs as [Hs Hlt]. apply Forall_cons in Hall as [[He _] Hall]. simpl in He.
  destruct (Z.ltb_spec (schar c) (schar e)).
  - simpl. destruct (Z.eqb_spec d c) as [->|]; [|done]. destruct (Z.eqb_spec c e) as [->|]; [lia|].
    rewrite child_of_absent; [done|]. eapply Forall_impl; [exact Hlt|]. unfold char_lt. simpl. intros; lia.
  - destruct (Z.eqb_spec c e) as [->|Hne]; simpl.
    + destruct (Z.eqb_spec d e); done.
    + rewrite IH by done. destruct (Z.eqb_spec d e) as [->|]; [|done].
      destruct (Z.eqb_spec e c) as [->|]; [lia|done].
Qed.

Lemma child_update_chars c f ch p : p ∈ child_update c f ch -> p.1 = c \/ exists q, q ∈ ch /\ q.1 = p.1.
Proof.
  induction ch as [|[d n] ch IH]; simpl; [intros ->%list_elem_of_singleton; by left|].
  destruct (_ <? _).
  - intros [->|Hp]%elem_of_cons; [by left|right; eauto].
  - destruct (Z.eqb_spec c d) as [->|].
    + intros [->|Hp]%elem_of_cons; [by left|right]. exists p. split; [by right|done].
    + intros [->|Hp]%elem_of_cons; [right; eexists; split; [by left|done]|].
      destruct (IH Hp) as [?|(q & ? & ?)]; [by left|right]. exists q. split; [by right|done].
Qed.

Lemma child_update_wf c f ch :
  (forall n, trie_wf hi n -> trie_wf hi (f n)) -> 0 <= c < hi -> children_wf ch ->
  children_wf (child_update c f ch).
Proof.
  intros Hf Hc [Hs Hall]. induction ch as [|[d n] ch IH]; simpl.
  { split; repeat constructor; simpl; try lia. apply Hf, trie_wf_empty. }
  pose proof Hs as [Hs' Hlt]%StronglySorted_inv. pose proof Hall as [[Hd Hn] Hall']%Forall_cons. simpl in *.
  destruct (Z.ltb_spec (schar c) (schar d)).
  - split; [|constructor; [split; [done|apply Hf, trie_wf_empty]|done]]. constructor; [done|].
    constructor; [done|]. eapply Forall_impl; [exact Hlt|]. unfold char_lt. simpl. intros; lia.
  - destruct (Z.eqb_spec c d) as [->|Hne].
    + split; [by constructor|]. constructor; [|done]. split; [done|by apply Hf].
    + destruct IH as [IHs IHall]; [done..|]. split; [|by constructor].
      constructor; [done|]. apply Forall_forall. intros p [Hp|(q & Hq & Hp)]%child_update_chars.
      * unfold char_lt. simpl. rewrite Hp. assert (schar c <> schar d) by (intros ?%schar_inj; lia). lia.
      * rewrite Forall_forall in Hlt. specialize (Hlt _ Hq). unfold char_lt in *. simpl in *. by rewrite <- Hp.
Qed.

(** [Insert] keeps tries well formed and adds the identifier to its key only. *)
Lemma Insert_wf key id n :
  Forall (fun c => 0 <= c < hi) key -> trie_wf hi n -> trie_wf hi (Insert key id n).
Proof.
  intros Hk. revert n. induction Hk as [|c key Hc _ IH]; intros n Hn; destruct Hn as [ids ch Hs Hall]; simpl.
  - by constructor.
  - destruct (child_update_wf c (Insert key id) ch) as [??]; [done..|]. by constructor.
Qed.

Lemma Insert_ids key id n k :
  Forall (fun c => 0 <= c < hi) key -> trie_wf hi n ->
  trie_ids k (Insert key id n) = if bool_decide (k = key) then trie_ids k n ++ [id] else trie_ids k n.
Proof.
  intros Hk. revert n k. induction Hk as [|c key Hc _ IH]; intros n k Hn; destruct Hn as [ids ch Hs Hall]; simpl.
  - by destruct k.
  - destruct k as [|d k]; [done|]. cbn [trie_ids children].
    rewrite child_update_lookup by done. destruct (Z.eqb_spec d c) as [->|Hne].
    + rewrite IH.
      * case_bool_decide as Hk; case_bool_decide as Hk'; try done; naive_solver.
      * clear IH Hs. induction ch as [|[e n] ch IHch]; simpl; [apply trie_wf_empty|].
        apply Forall_cons in Hall as [[_ ?] ?]. destruct (c =? e); auto.
    + rewrite bool_decide_eq_false_2; [done|]. naive_solver.
Qed.
End updates.

(** ** The traversal *)

(** The nodes in order, each with its path and its identifiers. *)
Fixpoint trie_entries (key : bytes) (n : PrefixTrieNode) : list (bytes * list bytes) :=
  (key, terminal_key_ids n) ::
  (fix go (l : list (Z * PrefixTrieNode)) : list (bytes * list bytes) :=
     match l with [] => [] | (c, child) :: l' => trie_entries (key ++ [c]) child ++ go l' end) (children n).

Definition child_entries (key : bytes) (ch : list (Z * PrefixTrieNode)) : list (bytes * list bytes) :=
  concat (map (fun '(c, child) => trie_entries (key ++ [c]) child) ch).

Lemma trie_entries_unfold key ids ch :
  trie_entries key (mk_node ids ch) = (key, ids) :: child_entries key ch.
Proof.
  cbn [trie_entries terminal_key_ids children]. f_equal. unfold child_entries.
  induction ch as [|[c n] ch IH]; simpl; [done|]. by rewrite IH.
Qed.

Fixpoint sizes (l : list PrefixTrieNode) : nat :=
  match l with [] => 0%nat | n :: l' => (node_size n + sizes l')%nat end.

Lemma sizes_app l k : sizes (l ++ k) = (sizes l + sizes k)%nat.
Proof. induction l as [|n l IH]; simpl; [done|]. rewrite IH. lia. Qed.

Lemma node_size_unfold ids ch : node_size (mk_node ids ch) = S (sizes ch.*2).
Proof.
  cbn [node_size children]. f_equal.
  induction ch as [|[c n] ch IH]; simpl; [done|]. by rewrite IH.
Qed.

Section traversal.
Context `{!TableLib, !Proto PrefixTrieNodeProto}.

Definition stored (e : bytes * list bytes) : entry := (e.1, SerializeAsString e.2).

(** The loop visits the nodes of its stack in order; the number of nodes is fuel enough. *)
Lemma iterate_loop_entries fuel stack :
  (sizes stack.*1 <= fuel)%nat ->
  iterate_loop fuel stack = Some (stored <$> concat (map (fun '(n, key) => trie_entries key n) stack)).
Proof.
  revert stack. induction fuel as [|fuel IH]; intros [|[[ids ch] key] stack] Hf; try done.
  { rewrite fmap_cons in Hf. cbn [sizes fst] in Hf. rewrite node_size_unfold in Hf. lia. }
  cbn [iterate_loop children]. rewrite IH.
  - cbn [map concat]. rewrite trie_entries_unfold. simpl. f_equal. f_equal. f_equal.
    rewrite map_app, concat_app. f_equal. unfold child_entries. f_equal. rewrite map_map.
    apply map_ext. by intros [c n].
  - rewrite fmap_cons in Hf. cbn [sizes fst] in Hf. rewrite node_size_unfold in Hf.
    rewrite fmap_app, sizes_app.
    assert ((map (fun '(c, child) => (child, key ++ [c])) ch).*1 = ch.*2) as ->; [|simpl in *; lia].
    clear. induction ch as [|[c n] ch IH]; simpl; [done|]. by f_equal.
Qed.

Lemma Iterate_entries root :
  IterateTrieAndSaveToLevelDbTable root = Some (stored <$> trie_entries [] root).
Proof.
  unfold IterateTrieAndSaveToLevelDbTable. rewrite iterate_loop_entries; [by simpl; rewrite app_nil_r|].
  simpl. lia.
Qed.
End traversal.

(** ** The entries of a well-formed trie *)

Lemma entries_prefix key n e : e ∈ trie_entries key n -> exists k, e.1 = key ++ k.
Proof.
  revert key e. induction n as [ids ch IH] using node_ind'. intros key e. rewrite trie_entries_unfold.
  intros [->|He]%elem_of_cons; [exists []; by rewrite app_nil_r|]. unfold child_entries in He.
  apply list_elem_of_In, in_concat in He as (l & Hl & He). apply in_map_iff in Hl as ([c child] & <- & Hc).
  rewrite Forall_forall in IH. apply list_elem_of_In in Hc, He. destruct (IH _ Hc _ _ He) as [k ->].
  exists (c :: k). by rewrite <- app_assoc.
Qed.

(** Every node is there once, under its path. *)
Lemma entries_ids hi key n k ids :
  hi <= 256 -> trie_wf hi n -> ids <> [] ->
  (key ++ k, ids) ∈ trie_entries key n <-> trie_ids k n = ids.
Proof.
  intros Hhi. revert key k. induction n as [ids' ch IH] using node_ind'. intros key k Hwf Hids.
  inversion_clear Hwf as [?? Hs Hall]. rewrite trie_entries_unfold, elem_of_cons.
  assert (forall c child, (c, child) ∈ ch -> child_of c ch = child) as Hchild.
  { clear IH Hids. induction ch as [|[d n] ch IHch]; intros c child; [by intros ?%not_elem_of_nil|].
    apply StronglySorted_inv in Hs as [Hs Hlt]. apply Forall_cons in Hall as [_ Hall].
    intros [[= -> ->]|Hin]%elem_of_cons; simpl; [by rewrite Z.eqb_refl|].
    destruct (Z.eqb_spec c d) as [->|]; [|by apply IHch].
    rewrite Forall_forall in Hlt. specialize (Hlt _ Hin). unfold char_lt in Hlt. simpl in Hlt. lia. }
  unfold child_entries. rewrite list_elem_of_In, in_concat. split.
  - intros [[= Hk ->]|(l & Hl & He)].
    { assert (k = []) as ->; [|done]. apply (f_equal length) in Hk. rewrite length_app in Hk.
      destruct k; simpl in *; [done|lia]. }
    apply in_map_iff in Hl as ([c child] & <- & Hc). apply list_elem_of_In in Hc, He.
    destruct (entries_prefix _ _ _ He) as [k' Hk]. simpl in Hk. rewrite <- app_assoc in Hk.
    apply app_inv_head in Hk as ->. simpl. rewrite (Hchild _ _ Hc). rewrite Forall_forall in IH, Hall.
    apply (IH _ Hc (key ++ [c]) k'); [by apply (Hall _ Hc)|done|]. by rewrite <- app_assoc.
  - intros Hk. destruct k as [|c k]; simpl in Hk; [left; by rewrite app_nil_r, Hk|right].
    assert (child_of c ch = empty_node \/ (c, child_of c ch) ∈ ch) as [Hn|Hin].
    { clear. induction ch as [|[d n] ch IHch]; simpl; [by left|]. destruct (Z.eqb_spec c d) as [->|].
      - right. left.
      - destruct IHch; [by left|right; by right]. }
    + rewrite Hn, trie_ids_empty in Hk. by subst.
    + exists (trie_entries (key ++ [c]) (child_of c ch)). split.
      * apply in_map_iff. exists (c, child_of c ch). split; [done|]. by apply list_elem_of_In.
      * apply list_elem_of_In. rewrite Forall_forall in IH, Hall. replace (key ++ c :: k) with ((key ++ [c]) ++ k)
          by (by rewrite <- app_assoc). apply (IH _ Hin); [by apply (Hall _ Hin)|done..].
Qed.

(** With characters below 128, the order of the traversal is the order of the bytes. *)
Lemma entries_sorted key n :
  trie_wf 128 n -> StronglySorted (fun e f : bytes * list bytes => bytes_lt e.1 f.1 = true) (trie_entries key n).
Proof.
  revert key. induction n as [ids ch IH] using node_ind'. intros key Hwf.
  inversion_clear Hwf as [?? Hs Hall]. rewrite trie_entries_unfold.
  assert (forall e, e ∈ child_entries key ch -> exists c n k, (c, n) ∈ ch /\ e.1 = key ++ c :: k) as Hin.
  { unfold child_entries. intros e (l & Hl & He)%list_elem_of_In%in_concat.
    apply in_map_iff in Hl as ([c n] & <- & Hc%list_elem_of_In). apply list_elem_of_In in He.
    destruct (entries_prefix _ _ _ He) as [k Hk]. exists c, n, k. by rewrite Hk, <- app_assoc. }
  constructor.
  2:{ apply Forall_forall. intros e (c & n & k & _ & ->)%Hin. apply bytes_lt_prefix. }
  clear Hin.
  unfold child_entries in *. clear ids. induction ch as [|[c n] ch IHch]; simpl; [constructor|].
  apply StronglySorted_inv in Hs as [Hs Hlt]. apply Forall_cons in Hall as [[Hc Hn] Hall].
  apply Forall_cons in IH as [IHn IH]. apply StronglySorted_app. split_and!.
  - intros e f He Hf. apply entries_prefix in He as [k1 ->].
    apply list_elem_of_In, in_concat in Hf as (l & Hl & Hf).
    apply in_map_iff in Hl as ([d m] & <- & Hd%list_elem_of_In). apply list_elem_of_In in Hf.
    apply entries_prefix in Hf as [k2 ->]. rewrite <- !app_assoc, bytes_lt_app. simpl.
    rewrite Forall_forall in Hlt, Hall. specialize (Hlt _ Hd). destruct (Hall _ Hd) as [Hd' _].
    unfold char_lt, schar in Hlt. simpl in *. destruct (Z.ltb_spec c 128), (Z.ltb_spec d 128); lia.
  - by apply IHn.
  - by apply IHch.
Qed.

(** ** Searching *)

Section searching.
Context `{!TableLib, !Proto PrefixTrieNodeProto}.

Lemma stored_sorted l :
  StronglySorted (fun e f : bytes * list bytes => bytes_lt e.1 f.1 = true) l -> sorted_entries (stored <$> l).
Proof. by apply StronglySorted_fmap. Qed.

Definition found (prefix : bytes) (e : bytes * list bytes) : bool :=
  StartsWith e.1 prefix && negb (bool_decide (e.2 = [])).

Definition to_result (e : bytes * list bytes) : PrefixSearchResult := mk_result e.1 e.2.

(** From the prefix on, the loop takes the entries with the prefix, which come first. *)
Lemma search_loop_finds prefix l fuel it acc :
  StronglySorted (fun e f : bytes * list bytes => bytes_lt e.1 f.1 = true) l ->
  Forall (fun e => bytes_lt e.1 prefix = false) l ->
  remaining it = stored <$> l -> (length l < fuel)%nat ->
  search_loop fuel prefix it acc = Some (inr (acc ++ (to_result <$> filter (found prefix) l))).
Proof.
  intros Hs. revert fuel it acc. induction Hs as [|[k ids] l Hs IH Hall]; intros fuel it acc Hge Hrem Hf.
  { destruct fuel; [lia|]. simpl. rewrite current_head, Hrem. simpl. by rewrite app_nil_r. }
  apply Forall_cons in Hge as [Hk Hge]. destruct fuel as [|fuel]; [lia|]. cbn [search_loop].
  rewrite current_head, Hrem. simpl. destruct (StartsWith k prefix) eqn:Hp.
  - rewrite parse_serialize, IH; [|done|by rewrite Next_tail, Hrem|simpl in Hf; lia].
    destruct (bool_decide_reflect (ids = [])) as [->|Hne].
    + rewrite filter_cons_False; [done|]. unfold found. simpl. rewrite andb_false_r. by intros [].
    + rewrite filter_cons_True, <- app_assoc; [done|]. unfold found. simpl. rewrite Hp.
      by rewrite bool_decide_eq_false_2.
  - rewrite filter_cons_False by (unfold found; simpl; rewrite Hp; by intros []).
    assert (filter (found prefix) l = []) as ->; [|by rewrite app_nil_r].
    apply filter_none. eapply Forall_impl; [exact Hall|]. intros e He.
    unfold found. simpl in *. rewrite (StartsWith_block k e.1 prefix) by done. by intros [].
Qed.

(** The trie of a sequence of insertions, and the identifiers inserted under a key. *)
Definition trie_of (inserted : list (bytes * bytes)) : PrefixTrieNode :=
  foldl (fun n p => Insert p.1 p.2 n) empty_node inserted.
Definition ids_of (k : bytes) (inserted : list (bytes * bytes)) : list bytes :=
  (filter (fun p => p.1 = k) inserted).*2.

Definition ascii (k : bytes) : Prop := Forall (fun c => 0 <= c < 128) k.

Lemma trie_of_spec inserted :
  Forall (fun p => ascii p.1) inserted ->
  trie_wf 128 (trie_of inserted) /\ forall k, trie_ids k (trie_of inserted) = ids_of k inserted.
Proof.
  unfold trie_of. induction inserted as [|p l IH] using rev_ind; intros Ha.
  { split; [apply trie_wf_empty|apply trie_ids_empty]. }
  apply Forall_app in Ha as [Hl Hp]. rewrite Forall_singleton in Hp. destruct (IH Hl) as [Hwf Hids].
  rewrite foldl_app. simpl. split; [by apply Insert_wf|]. intros k.
  rewrite (Insert_ids 128) by done. rewrite Hids. unfold ids_of.
  rewrite filter_app, fmap_app. destruct (bool_decide_reflect (k = p.1)) as [->|Hne].
  - by rewrite filter_cons_True by done.
  - rewrite filter_cons_False by done. by rewrite app_nil_r.
Qed.

(** Saving the index of any names (of characters below 128) and searching a prefix in the
    file finds exactly the names with that prefix, in order, each with the identifiers
    inserted under it in the order of their insertion. *)
Lemma prefix_search_finds inserted prefix file :
  Forall (fun p => ascii p.1) inserted ->
  exists st t results,
    SaveAsLevelDbTable (trie_of inserted) file = Some (st, t) /\
    LoadTrieAsLevelDbTableAndSearch (inr t) prefix = Some (inr results) /\
    StronglySorted (fun r r' => bytes_lt (result_key r) (result_key r') = true) results /\
    forall k ids, mk_result k ids ∈ results <->
      StartsWith k prefix = true /\ ids = ids_of k inserted /\ ids <> [].
Proof.
  intros Ha. destruct (trie_of_spec _ Ha) as [Hwf Hids]. set (root := trie_of inserted) in *.
  unfold SaveAsLevelDbTable. rewrite Iterate_entries. simpl.
  pose proof (entries_sorted [] root Hwf) as Hs. set (l := trie_entries [] root) in *.
  set (l' := filter (fun e : bytes * list bytes => bytes_lt e.1 prefix = false) l).
  do 2 eexists. exists (to_result <$> filter (found prefix) l'). split; [done|]. split_and!.
  - unfold LoadTrieAsLevelDbTableAndSearch.
    assert (remaining (Seek (table_build (stored <$> l)) prefix) = stored <$> l') as Hrem.
    { rewrite Seek_built by (by apply stored_sorted). unfold l'. by rewrite filter_fmap. }
    apply (search_loop_finds prefix l' (S (length (remaining (Seek (table_build (stored <$> l)) prefix)))) _ []);
      [| |done|rewrite Hrem, length_fmap; lia].
    + by apply StronglySorted_filter.
    + apply Forall_forall. by intros e [? _]%list_elem_of_filter.
  - assert (StronglySorted (fun e f : bytes * list bytes => bytes_lt e.1 f.1 = true) (filter (found prefix) l')) as Hs'
      by (by do 2 apply StronglySorted_filter).
    by eapply StronglySorted_fmap; [|exact Hs'].
  - intros k ids. rewrite list_elem_of_fmap. transitivity ((k, ids) ∈ filter (found prefix) l').
    { split; [by intros ([k' ids'] & [= -> ->] & ?)|]. intros ?. by exists (k, ids). }
    unfold l'. rewrite !list_elem_of_filter. unfold found. simpl.
    split.
    + intros (Hf & _ & Hin). apply Is_true_true, andb_true_iff in Hf as [Hp Hne].
      apply negb_true_iff, bool_decide_eq_false in Hne. split_and!; [done| |done].
      rewrite <- Hids. symmetry. by apply (entries_ids 128 []).
    + intros (Hp & -> & Hne). split; [|split; [by apply StartsWith_ge|]].
      * by rewrite Hp, bool_decide_eq_false_2 by done.
      * rewrite <- Hids in *. by apply (entries_ids 128 [] root k).
Qed.
End searching.

(** With a character above 127 the traversal leaves the byte order, on which the table
    relies: such characters are negative and come first. *)
Theorem non_ascii_unsorted :
  let root := trie_of [([97], [1]); ([195; 169], [2])] in
  (trie_entries [] root).*1 = [[]; [195]; [195; 169]; [97]] /\ bytes_lt [195; 169] [97] = false.
Proof. by vm_compute. Qed.

Lemma prefix_search_finds_witness :
  let inserted := [([97; 98], [1]); ([97], [2]); ([97; 98], [3]); ([98], [4])] in
  let proto := countable_proto PrefixTrieNodeProto in
  Forall (fun p => ascii p.1) inserted /\
  exists t results, SaveAsLevelDbTable (trie_of inserted) (mk_file OkStatus OkStatus OkStatus) = Some (OkStatus, t) /\
    LoadTrieAsLevelDbTableAndSearch (inr t) [97] = Some (inr results) /\
    results = [mk_result [97] [[2]]; mk_result [97; 98] [[1]; [3]]].
Proof.
  intros inserted proto. assert (Forall (fun p => ascii p.1) inserted) as Ha.
  { repeat constructor; simpl; lia. }
  split; [done|].
  destruct (prefix_search_finds inserted [97] (mk_file OkStatus OkStatus OkStatus) Ha) as (st & t & r & H1 & H2 & _).
  exists t, r. assert (st = OkStatus) as -> by (vm_compute in H1; congruence).
  split_and!; [done..|]. vm_compute in H1. injection H1 as <-. vm_compute in H2. congruence.
Defined.
