(* ===== verification/NwayMerge.v ===== *)
(** Merging sorted sequences (xprof/convert/trace_viewer/trace_events_util.h):
    [push_down_root], which restores a binary heap whose root has changed, and
    [nway_merge] on top of it. *)
From Stdlib Require Import ZArith Lia.
From stdpp Require Import base list sorting.
From S2P Require Import Prelude.

(** ** Comparators *)

(** A strict weak order, as C++ asks of a comparator. *)
Class StrictWeak {A : Type} (comp : A -> A -> bool) : Prop := {
  sw_asym a b : comp a b = true -> comp b a = false;
  sw_negtrans a b c : comp a b = false -> comp b c = false -> comp a c = false
}.

Lemma sw_irrefl {A} (comp : A -> A -> bool) `{!StrictWeak comp} a : comp a a = false.
Proof. destruct (comp a a) eqn:H; [|done]. by rewrite <- (sw_asym a a H). Qed.

(** A comparator on the images of a function. *)
Lemma StrictWeak_on {A B} (f : A -> B) (comp : B -> B -> bool) :
  StrictWeak comp -> StrictWeak (fun x y => comp (f x) (f y)).
Proof. intros [H1 H2]. split; eauto. Qed.

(** The order from a key to integers, with a comparator for equal keys. *)
Lemma StrictWeak_key {A} (f : A -> Z) (comp : A -> A -> bool) :
  StrictWeak comp ->
  StrictWeak (fun x y => if (f x =? f y)%Z then comp x y else (f x <? f y)%Z).
Proof.
  intros [H1 H2]. split.
  - intros a b. rewrite (Z.eqb_sym (f b)). destruct (Z.eqb_spec (f a) (f b)); [by apply H1|]. lia.
  - intros a b c. destruct (Z.eqb_spec (f a) (f b)), (Z.eqb_spec (f b) (f c)), (Z.eqb_spec (f a) (f c));
      try lia. by apply H2.
Qed.

(** ** Heaps in an array *)

Section heap.
Context {A : Type} (comp : A -> A -> bool).
Implicit Types v : list A.

(** The greater child of a hole; [l_child] when there is at most one. *)
Definition max_child (v : list A) (hole : nat) : nat :=
  let l_child := (2 * hole + 1)%nat in
  let r_child := (l_child + 1)%nat in
  match v !! l_child, v !! r_child with
  | Some l, Some r => if comp l r then r_child else l_child
  | _, _ => l_child
  end.

Fixpoint push_down_loop (fuel : nat) (v : list A) (hole : nat) (value : A) : option (list A) :=
  match fuel with
  | O => None
  | S fuel' =>
      match v !! max_child v hole with
      | None => Some (<[hole := value]> v)
      | Some child =>
          if comp value child then push_down_loop fuel' (<[hole := child]> v) (max_child v hole) value
          else Some (<[hole := value]> v)
      end
  end.

Definition push_down_root (v : list A) : option (list A) :=
  match v with [] => None | value :: _ => push_down_loop (S (length v)) v 0 value end.

Definition parent (i : nat) : nat := ((i - 1) / 2)%nat.

(** No element comes, by [comp], after its parent. *)
Definition is_heap v : Prop :=
  forall i x p, (0 < i)%nat -> v !! i = Some x -> v !! parent i = Some p -> comp p x = false.

(** The same, but for the children of [h], which only keep below the parent of [h]. *)
Definition heap_but v (h : nat) : Prop :=
  (forall i x p, (0 < i)%nat -> parent i <> h -> v !! i = Some x -> v !! parent i = Some p -> comp p x = false) /\
  (forall i x p, (0 < i)%nat -> (0 < h)%nat -> parent i = h -> v !! i = Some x -> v !! parent h = Some p ->
     comp p x = false).

Lemma parent_children i h : (0 < i)%nat -> parent i = h <-> i = (2 * h + 1)%nat \/ i = (2 * h + 1 + 1)%nat.
Proof.
  unfold parent. intros Hi. split.
  - intros <-. pose proof (Nat.div_mod_eq (i - 1) 2). pose proof (Nat.mod_upper_bound (i - 1) 2). lia.
  - intros [->| ->].
    + replace (2 * h + 1 - 1)%nat with (h * 2)%nat by lia. by apply Nat.div_mul.
    + replace (2 * h + 1 + 1 - 1)%nat with (1 + h * 2)%nat by lia. rewrite Nat.div_add by lia. done.
Qed.

Lemma parent_lt i : (0 < i)%nat -> (parent i < i)%nat.
Proof. unfold parent. intros. apply Nat.Div0.div_lt_upper_bound. lia. Qed.

Context `{!StrictWeak comp}.

(** The child the loop compares with: none exists, or it is a greatest one. *)
Lemma max_child_spec v h :
  match v !! max_child v h with
  | None => forall i, (0 < i)%nat -> parent i = h -> v !! i = None
  | Some c => (0 < max_child v h)%nat /\ parent (max_child v h) = h /\
      forall i x, (0 < i)%nat -> parent i = h -> v !! i = Some x -> comp c x = false
  end.
Proof.
  unfold max_child. cbv zeta. set (l := (2 * h + 1)%nat). destruct (v !! l) as [x|] eqn:Hl.
  - destruct (v !! (l + 1)%nat) as [y|] eqn:Hr.
    + destruct (comp x y) eqn:Hxy; rewrite ?Hl, ?Hr; (split_and!; [lia|apply parent_children; lia|]).
      all: intros i z Hi Hp Hz; apply (parent_children i h Hi) in Hp as [Hi'|Hi']; subst i.
      all: fold l in Hz; rewrite ?Hl, ?Hr in Hz; injection Hz as <-.
      all: auto using sw_irrefl, sw_asym.
    + rewrite Hl. split_and!; [lia|apply parent_children; lia|].
      intros i z Hi Hp Hz. apply (parent_children i h Hi) in Hp as [Hi'|Hi']; subst i; fold l in Hz.
      * rewrite Hl in Hz. injection Hz as <-. by apply sw_irrefl.
      * by rewrite Hr in Hz.
  - assert (v !! (l + 1)%nat = None) as Hr by (rewrite lookup_ge_None in *; lia).
    rewrite Hl. intros i Hi Hp. apply (parent_children i h Hi) in Hp as [Hi'|Hi']; by subst i.
Qed.

(** One turn of the loop moves the hole to its greatest child. *)
Lemma heap_but_step v h m c value :
  (h < length v)%nat -> (0 < m)%nat -> parent m = h -> v !! m = Some c ->
  heap_but (<[h := value]> v) h -> comp value c = true ->
  (forall i x, (0 < i)%nat -> parent i = h -> v !! i = Some x -> comp c x = false) ->
  heap_but (<[m := value]> (<[h := c]> v)) m.
Proof.
  intros Hh Hm Hpm Hc [H1 H2] Hlt Hmax. pose proof (parent_lt m Hm). assert (h <> m) by lia.
  assert (m < length v)%nat by (by apply lookup_lt_is_Some; eauto). split.
  - intros i x p Hi Hpi Hx Hp. rewrite list_lookup_insert_ne in Hp by done.
    destruct (decide (parent i = h)) as [Hph|Hph].
    + rewrite Hph, list_lookup_insert_eq in Hp by done. injection Hp as <-.
      destruct (decide (i = m)) as [->|].
      * rewrite list_lookup_insert_eq in Hx by (by rewrite length_insert). injection Hx as <-. by apply sw_asym.
      * rewrite list_lookup_insert_ne in Hx by done. pose proof (parent_lt i Hi).
        rewrite list_lookup_insert_ne in Hx by lia. by eapply Hmax.
    + rewrite list_lookup_insert_ne in Hp by done. destruct (decide (i = m)) as [->|]; [by rewrite Hpm in Hph|].
      rewrite list_lookup_insert_ne in Hx by done. destruct (decide (i = h)) as [->|].
      * rewrite list_lookup_insert_eq in Hx by done. injection Hx as <-.
        apply (H2 m c p Hm Hi Hpm); rewrite list_lookup_insert_ne; [done|lia|done|].
        pose proof (parent_lt h Hi). lia.
      * rewrite list_lookup_insert_ne in Hx by done. apply (H1 i x p Hi Hph); by rewrite list_lookup_insert_ne.
  - intros i x p Hi _ Hpi Hx Hp. pose proof (parent_lt i Hi).
    rewrite Hpm, list_lookup_insert_ne, list_lookup_insert_eq in Hp by done. injection Hp as <-.
    rewrite !list_lookup_insert_ne in Hx by lia.
    apply (H1 i x c Hi); [lia|by rewrite list_lookup_insert_ne by lia|].
    rewrite Hpi. by rewrite list_lookup_insert_ne.
Qed.

(** Two cells exchanged. *)
Lemma swap_perm v i j x y :
  i <> j -> v !! i = Some x -> v !! j = Some y -> <[j := x]> (<[i := y]> v) ≡ₚ v.
Proof.
  intros Hij Hx Hy. apply Permutation_inj. split; [by rewrite !length_insert|].
  exists (fun k => if decide (k = i) then j else if decide (k = j) then i else k). split.
  - intros k k'. repeat case_decide; lia.
  - intros k. pose proof (lookup_lt_Some _ _ _ Hx). pose proof (lookup_lt_Some _ _ _ Hy).
    repeat case_decide; subst.
    + rewrite list_lookup_insert_ne, list_lookup_insert_eq by done. by rewrite Hy.
    + rewrite list_lookup_insert_eq by (by rewrite length_insert). by rewrite Hx.
    + by rewrite !list_lookup_insert_ne by done.
Qed.

Lemma push_down_loop_spec fuel v h value :
  (length v - h < fuel)%nat -> (h < length v)%nat -> heap_but (<[h := value]> v) h ->
  exists v', push_down_loop fuel v h value = Some v' /\ is_heap v' /\ v' ≡ₚ <[h := value]> v.
Proof.
  revert v h. induction fuel as [|fuel IH]; intros v h Hf Hh Hb; [lia|]. cbn [push_down_loop].
  pose proof (max_child_spec v h) as Hm. set (m := max_child v h) in *.
  destruct (v !! m) as [c|] eqn:Hc.
  - destruct Hm as (Hm & Hpm & Hmax). pose proof (parent_lt m Hm). pose proof (lookup_lt_Some _ _ _ Hc).
    destruct (comp value c) eqn:Hlt.
    + destruct (IH (<[h := c]> v) m) as (v' & -> & Hheap & Hperm).
      * rewrite length_insert. lia.
      * by rewrite length_insert.
      * by apply heap_but_step.
      * exists v'. split_and!; [done..|]. rewrite Hperm.
        rewrite <- (list_insert_insert_eq v h c value) at 1.
        replace (<[m:=value]> (<[h:=c]> v)) with (<[m:=value]> (<[h:=c]> (<[h:=value]> v)))
          by (by rewrite list_insert_insert_eq).
        apply swap_perm; [lia|by apply list_lookup_insert_eq|]. rewrite list_lookup_insert_ne by lia. done.
    + exists (<[h := value]> v). split_and!; [done| |done]. intros i x p Hi Hx Hp.
      destruct (decide (parent i = h)) as [Hph|Hph]; [|by apply (proj1 Hb i x p)].
      rewrite Hph, list_lookup_insert_eq in Hp by done. injection Hp as <-.
      pose proof (parent_lt i Hi). rewrite list_lookup_insert_ne in Hx by lia.
      eapply sw_negtrans; [exact Hlt|]. by eapply Hmax.
  - exists (<[h := value]> v). split_and!; [done| |done]. intros i x p Hi Hx Hp.
    destruct (decide (parent i = h)) as [Hph|Hph]; [|by apply (proj1 Hb i x p)].
    pose proof (parent_lt i Hi). rewrite list_lookup_insert_ne in Hx by lia. by rewrite Hm in Hx.
Qed.

(** A heap whose root was replaced becomes a heap again. *)
Lemma push_down_root_spec x v y :
  is_heap (y :: v) -> exists v', push_down_root (x :: v) = Some v' /\ is_heap v' /\ v' ≡ₚ x :: v.
Proof.
  intros Hh. unfold push_down_root. destruct (push_down_loop_spec (S (length (x :: v))) (x :: v) 0 x) as (v' & ? & ? & ?).
  - simpl. lia.
  - simpl. lia.
  - simpl. split; [|lia]. intros i z p Hi Hpi Hz Hp. destruct i as [|i]; [lia|].
    apply (Hh (S i) z p); [done..|]. destruct (parent (S i)); [lia|done].
  - eauto.
Qed.

(** The root of a heap comes after no element. *)
Lemma heap_root v x y i : is_heap v -> v !! 0%nat = Some x -> v !! i = Some y -> comp x y = false.
Proof.
  intros Hh Hx. revert y. induction (lt_wf i) as [i _ IH]. intros y Hy.
  destruct (decide (i = 0%nat)) as [->|]; [rewrite Hx in Hy; injection Hy as <-; by apply sw_irrefl|].
  pose proof (parent_lt i ltac:(lia)). destruct (lookup_lt_is_Some_2 v (parent i)) as [p Hp].
  { pose proof (lookup_lt_Some _ _ _ Hy). lia. }
  eapply sw_negtrans; [by eapply IH|]. eapply (Hh i y p); [lia|done..].
Qed.

Lemma heap_init v x : is_heap (v ++ [x]) -> is_heap v.
Proof.
  intros Hh i y p Hi Hy Hp. apply (Hh i y p Hi); by apply lookup_app_l_Some.
Qed.
End heap.

(** ** The merge *)

(** std::make_heap permutes a range into a heap, unspecified which. *)
Class MakeHeap := {
  make_heap {A : Type} : (A -> A -> bool) -> list A -> list A;
  make_heap_perm {A} (comp : A -> A -> bool) v : make_heap comp v ≡ₚ v;
  make_heap_heap {A} (comp : A -> A -> bool) v : StrictWeak comp -> is_heap comp (make_heap comp v)
}.

Section merge.
Context {A : Type} (cmp : A -> A -> bool) `{!MakeHeap}.

(** A pair of iterators that differ: the element at the first and those after it. *)
Abbreviation Range := (A * list A)%type.

Definition heap_cmp (a b : Range) : bool := cmp b.1 a.1.

Definition sources_of (containers : list (list A)) : list Range :=
  omap (fun container => match container with [] => None | x :: l => Some (x, l) end) containers.

Fixpoint merge_loop (fuel : nat) (sources : list Range) (out : list A) : option (list A) :=
  match fuel, sources with
  | O, _ | _, [] => None
  | S fuel', (x, rest) :: others =>
      let out' := out ++ [x] in
      match rest, last others with
      | [], None => Some out'
      | [], Some back =>
          s ← push_down_root heap_cmp (back :: removelast others); merge_loop fuel' s out'
      | y :: rest', _ =>
          s ← push_down_root heap_cmp ((y, rest') :: others); merge_loop fuel' s out'
      end
  end.

Definition nway_merge (containers : list (list A)) : option (list A) :=
  match sources_of containers with
  | [] => Some []
  | sources => merge_loop (length (concat containers)) (make_heap heap_cmp sources) []
  end.

(** ** Correctness *)

(** [x] may stand before [y]. *)
Definition not_after (x y : A) : Prop := cmp y x = false.

Definition expand (r : Range) : list A := r.1 :: r.2.
Definition elements (sources : list Range) : list A := concat (expand <$> sources).

Lemma elements_perm s s' : s ≡ₚ s' -> elements s ≡ₚ elements s'.
Proof. intros Hp. unfold elements. by rewrite Hp. Qed.

Lemma elements_sources containers : elements (sources_of containers) = concat containers.
Proof. unfold elements, sources_of. induction containers as [|[|x l] cs IH]; csimpl; [done..|]. by rewrite IH. Qed.

Context `{!StrictWeak cmp}.

Lemma heap_cmp_sw : StrictWeak heap_cmp.
Proof.
  split; unfold heap_cmp.
  - intros a b. apply sw_asym.
  - intros a b c H1 H2. by eapply sw_negtrans.
Qed.

(** What is left after taking the first element of the front range. *)
Lemma next_sources x rest others :
  is_heap heap_cmp ((x, rest) :: others) -> (rest <> [] \/ others <> []) ->
  exists s, (match rest, last others with
    | [], None => None
    | [], Some back => push_down_root heap_cmp (back :: removelast others)
    | y :: rest', _ => push_down_root heap_cmp ((y, rest') :: others) end) = Some s /\
    is_heap heap_cmp s /\ elements s ≡ₚ rest ++ elements others /\
    s ≡ₚ (match rest with [] => others | y :: rest' => (y, rest') :: others end).
Proof.
  intros Hh Hne. pose proof heap_cmp_sw. destruct rest as [|y rest].
  - destruct (exists_last (l := others)) as (l & back & ->); [naive_solver|].
    rewrite last_snoc, removelast_last.
    destruct (push_down_root_spec heap_cmp back l (x, [])) as (s & -> & Hs & Hp).
    { by apply (heap_init heap_cmp _ back). }
    assert (s ≡ₚ l ++ [back]) as Hp' by (by rewrite Hp, Permutation_app_comm).
    exists s. split_and!; [done..|by apply elements_perm|done].
  - destruct (push_down_root_spec heap_cmp (y, rest) others (x, y :: rest) Hh) as (s & -> & Hs & Hp).
    exists s. split_and!; [done..|by apply elements_perm in Hp|done].
Qed.

(** The loop writes all elements; when the ranges are sorted, in order. *)
Lemma merge_loop_spec fuel sources out :
  sources <> [] -> (length (elements sources) <= fuel)%nat -> is_heap heap_cmp sources ->
  exists res, merge_loop fuel sources out = Some (out ++ res) /\ res ≡ₚ elements sources /\
    Forall (fun r => expand r `sublist_of` res) sources /\
    (Forall (fun r => StronglySorted not_after (expand r)) sources -> StronglySorted not_after res).
Proof.
  revert sources out. induction fuel as [|fuel IH]; intros [|[x rest] others] out Hne Hf Hh; try done.
  { simpl in Hf. lia. }
  pose proof heap_cmp_sw as Hsw. cbn [merge_loop].
  assert (Forall (fun r => StronglySorted not_after (expand r)) ((x, rest) :: others) ->
    forall y, y ∈ rest ++ elements others -> not_after x y) as Hmin.
  { intros [Hx Hall]%Forall_cons y [Hy|Hy]%elem_of_app.
    - apply StronglySorted_inv in Hx as [_ Hx]. rewrite Forall_forall in Hx. by apply Hx.
    - unfold elements in Hy. apply list_elem_of_In, in_concat in Hy as (l & Hl & Hy).
      apply list_elem_of_In, list_elem_of_fmap in Hl as ([z l'] & -> & Hl). rewrite Forall_forall in Hall.
      assert (not_after x z) as Hxz.
      { apply list_elem_of_lookup in Hl as [i Hi]. by apply (heap_root heap_cmp _ (x, rest) (z, l') (S i)) in Hh. }
      apply list_elem_of_In, elem_of_cons in Hy as [->|Hy]; [done|].
      specialize (Hall _ Hl). apply StronglySorted_inv in Hall as [_ Hz]. rewrite Forall_forall in Hz.
      specialize (Hz _ Hy). unfold not_after in *. by eapply sw_negtrans. }
  destruct (decide (rest = [] /\ others = [])) as [[-> ->]|Hmore].
  { exists [x]. simpl. split_and!; [done..|by repeat constructor|]. intros _. repeat constructor. }
  destruct (next_sources x rest others Hh) as (s & Hs & Hhs & Hel & Hperm).
  { destruct rest; [right; naive_solver|by left]. }
  assert (exists res, merge_loop fuel s (out ++ [x]) = Some ((out ++ [x]) ++ res) /\ res ≡ₚ elements s /\
    Forall (fun r => expand r `sublist_of` res) s /\
    (Forall (fun r => StronglySorted not_after (expand r)) s -> StronglySorted not_after res))
    as (res & Hres & Hp & Hsub & Hsort).
  { apply IH; [| |done].
    2:{ rewrite Hel. unfold elements in *. csimpl in Hf. cbn [concat expand fst snd length] in Hf.
      simpl in Hf. rewrite !length_app in *. lia. }
    intros ->. apply Permutation_nil_l in Hperm. destruct rest; [naive_solver|done]. }
  exists (x :: res). split_and!.
  - rewrite <- app_assoc in Hres. simpl in Hres. destruct rest as [|y rest]; [destruct (last others) as [b|]|];
      simplify_eq/=; rewrite ?Hs; simpl; rewrite ?Hres; done.
  - by rewrite Hp, Hel.
  - rewrite Hperm in Hsub. assert (rest `sublist_of` res /\ Forall (fun r => expand r `sublist_of` res) others) as [H1 H2].
    { destruct rest; [split; [apply sublist_nil_l|done]|]. by apply Forall_cons in Hsub. }
    constructor; [by apply sublist_skip|]. eapply Forall_impl; [exact H2|]. intros r ?. by apply sublist_cons.
  - intros Hall. constructor.
    + apply Hsort. rewrite Hperm. apply Forall_cons in Hall as [Hx Hall].
      destruct rest; [done|]. constructor; [|done]. by apply StronglySorted_inv in Hx as [? _].
    + apply Forall_forall. intros y Hy. apply Hmin; [done|]. by rewrite <- Hel, <- Hp.
Qed.

(** [nway_merge] returns; its output has the elements of all containers, those of each
    in their order, and is sorted when they are. *)
Lemma nway_merge_spec containers :
  exists out, nway_merge containers = Some out /\ out ≡ₚ concat containers /\
    Forall (fun c => c `sublist_of` out) containers /\
    (Forall (StronglySorted not_after) containers -> StronglySorted not_after out).
Proof.
  unfold nway_merge. destruct (sources_of containers) as [|r rs] eqn:Hs.
  { exists []. rewrite <- elements_sources, Hs. split_and!; [done..| |intros _; constructor].
    unfold sources_of in Hs. induction containers as [|[|x l] cs IH]; simpl in *; [constructor| |done].
    constructor; [done|by apply IH]. }
  pose proof heap_cmp_sw. set (v := make_heap heap_cmp (r :: rs)).
  assert (v ≡ₚ r :: rs) as Hv by apply make_heap_perm.
  assert (elements v ≡ₚ concat containers) as Hel by (rewrite <- elements_sources, Hs; by apply elements_perm).
  destruct (merge_loop_spec (length (concat containers)) v []) as (res & Hres & Hp & Hsub & Hsort).
  - intros Hv'. rewrite Hv' in Hv. by apply Permutation_nil_l in Hv.
  - by rewrite Hel.
  - by apply make_heap_heap.
  - exists res. split_and!; [done|by rewrite Hp| |].
    { rewrite Hv, <- Hs in Hsub. clear -Hsub.
      unfold sources_of in Hsub. induction containers as [|[|x l] cs IH]; simpl in *; [constructor|..].
      - constructor; [apply sublist_nil_l|by apply IH].
      - apply Forall_cons in Hsub as [??]. constructor; [done|by apply IH]. }
    intros Hall. apply Hsort. rewrite Hv, <- Hs.
    clear -Hall. induction Hall as [|[|x l] cs Hc _ IH]; simpl; [constructor|done|]. by constructor.
Qed.
End merge.

(** ** Sorting *)

(** std::sort: some sorted permutation, unspecified among equivalent elements. *)
Class StdSort := {
  std_sort {A : Type} : (A -> A -> bool) -> list A -> list A;
  std_sort_perm {A} (comp : A -> A -> bool) v : std_sort comp v ≡ₚ v;
  std_sort_sorted {A} (comp : A -> A -> bool) v :
    StrictWeak comp -> StronglySorted (not_after comp) (std_sort comp v)
}.

(** ** Concrete instances, from merge sort *)

Section sort_heap.
Context {A : Type} (comp : A -> A -> bool).
Definition comp_ge (x y : A) : Prop := comp x y = false.
#[local] Instance comp_ge_dec : RelDecision comp_ge.
Proof. unfold RelDecision, comp_ge. apply _. Defined.

Definition sort_desc (v : list A) : list A := merge_sort comp_ge v.

Lemma sort_desc_sorted v : StrictWeak comp -> StronglySorted comp_ge (sort_desc v).
Proof.
  intros Hsw. apply StronglySorted_merge_sort.
  - intros a b c. apply sw_negtrans.
  - intros a b. unfold comp_ge. destruct (comp a b) eqn:H; [right; by apply sw_asym|by left].
Qed.

Lemma sort_desc_heap v : StrictWeak comp -> is_heap comp (sort_desc v).
Proof.
  intros Hsw i x p Hi Hx Hp.
  apply (StronglySorted_lookup_lt comp_ge (sort_desc v) (parent i) i); [|done..|by apply parent_lt].
  by apply sort_desc_sorted.
Qed.

Lemma sort_desc_perm v : sort_desc v ≡ₚ v.
Proof. apply merge_sort_Permutation. Qed.
End sort_heap.

#[export] Instance sort_MakeHeap : MakeHeap := {|
  make_heap A := sort_desc;
  make_heap_perm A := sort_desc_perm;
  make_heap_heap A := sort_desc_heap
|}.

Lemma StrictWeak_flip {A} (comp : A -> A -> bool) : StrictWeak comp -> StrictWeak (fun x y => comp y x).
Proof. intros [H1 H2]. split; eauto. Qed.

#[export] Program Instance merge_StdSort : StdSort := {
  std_sort A comp v := sort_desc (fun x y => comp y x) v
}.
Next Obligation. intros. apply sort_desc_perm. Qed.
Next Obligation. intros A comp v Hsw. by apply sort_desc_sorted, StrictWeak_flip. Qed.
