(* ===== verification/TraceEvent.v ===== *)
(** Trace events (trace_events.proto) and the functions on single events and flows
    (xprof/convert/trace_viewer/trace_events_util.{h,cc}, trace_events.{h,cc}): their order,
    the span of a trace, flows, zoom levels and the keys of the stored tables. *)
From Stdlib Require Import ZArith Lia.
From stdpp Require Import base list gmap countable sorting strings.
From S2P Require Import Prelude Timespan LevelDb NwayMerge.
Local Open Scope Z_scope.

(** ** Messages

    Fields whose presence the code asks for are options; the others have their default. *)
Inductive FlowEntryType := FLOW_NONE | FLOW_START | FLOW_MID | FLOW_END.
#[export] Instance FlowEntryType_eq_dec : EqDecision FlowEntryType.
Proof. solve_decision. Defined.
Definition flow_entry_number (t : FlowEntryType) : Z :=
  match t with FLOW_NONE => 0 | FLOW_START => 1 | FLOW_MID => 2 | FLOW_END => 3 end.

Inductive EventName := NoName | Name (s : bytes) | NameRef (ref : Z).

(** The message of an event. Its field [type] is left out: no function modelled here sets or reads it,
    the type of an event being computed from the other fields ([GetTraceEventType]). *)
Record TraceEvent := mk_event {
  ev_device_id : Z;
  ev_resource_id : option Z;
  ev_name_oneof : EventName;
  ev_group_id : option Z;
  ev_timestamp_ps : Z;
  ev_duration_ps : Z;
  ev_raw_data : option bytes;
  ev_flow_id : option Z;
  ev_flow_entry_type : FlowEntryType;
  ev_flow_category : option Z;
  ev_serial : option Z
}.

Definition ev_name (e : TraceEvent) : bytes := match ev_name_oneof e with Name s => s | _ => [] end.
Definition ev_name_ref (e : TraceEvent) : option Z :=
  match ev_name_oneof e with NameRef r => Some r | _ => None end.
Definition has_resource_id (e : TraceEvent) : bool := bool_decide (is_Some (ev_resource_id e)).
Definition has_flow_id (e : TraceEvent) : bool := bool_decide (is_Some (ev_flow_id e)).
Definition resource_id_or_0 (e : TraceEvent) : Z := default 0 (ev_resource_id e).
Definition serial_or_0 (e : TraceEvent) : Z := default 0 (ev_serial e).

Definition set_timestamp (t : Z) (e : TraceEvent) : TraceEvent :=
  mk_event (ev_device_id e) (ev_resource_id e) (ev_name_oneof e) (ev_group_id e) t (ev_duration_ps e)
    (ev_raw_data e) (ev_flow_id e) (ev_flow_entry_type e) (ev_flow_category e) (ev_serial e).
Definition set_raw_data (d : option bytes) (e : TraceEvent) : TraceEvent :=
  mk_event (ev_device_id e) (ev_resource_id e) (ev_name_oneof e) (ev_group_id e) (ev_timestamp_ps e)
    (ev_duration_ps e) d (ev_flow_id e) (ev_flow_entry_type e) (ev_flow_category e) (ev_serial e).
Definition set_serial (n : Z) (e : TraceEvent) : TraceEvent :=
  mk_event (ev_device_id e) (ev_resource_id e) (ev_name_oneof e) (ev_group_id e) (ev_timestamp_ps e)
    (ev_duration_ps e) (ev_raw_data e) (ev_flow_id e) (ev_flow_entry_type e) (ev_flow_category e) (Some n).
Definition set_device_id (d : Z) (e : TraceEvent) : TraceEvent :=
  mk_event d (ev_resource_id e) (ev_name_oneof e) (ev_group_id e) (ev_timestamp_ps e)
    (ev_duration_ps e) (ev_raw_data e) (ev_flow_id e) (ev_flow_entry_type e) (ev_flow_category e) (ev_serial e).
Definition set_name (s : bytes) (e : TraceEvent) : TraceEvent :=
  mk_event (ev_device_id e) (ev_resource_id e) (Name s) (ev_group_id e) (ev_timestamp_ps e)
    (ev_duration_ps e) (ev_raw_data e) (ev_flow_id e) (ev_flow_entry_type e) (ev_flow_category e) (ev_serial e).

Record Resource := mk_resource { res_name : bytes; res_id : Z; res_num_events : Z }.
Record Device := mk_device { dev_name : bytes; dev_id : Z; dev_resources : gmap Z Resource }.
Record Trace := mk_trace {
  tr_devices : gmap Z Device;
  tr_tasks : gmap Z bytes;
  tr_min_timestamp_ps : option Z;
  tr_max_timestamp_ps : option Z;
  tr_num_events : option Z;
  tr_name_table : gmap Z bytes
}.
Definition empty_trace : Trace := mk_trace ∅ ∅ None None None ∅.

#[export] Instance EventName_eq_dec : EqDecision EventName.
Proof. solve_decision. Defined.
#[export] Instance TraceEvent_eq_dec : EqDecision TraceEvent.
Proof. solve_decision. Defined.

(** ** The order of events *)

(** By time, longer ones first, so that nested events come after those around them. *)
Definition TraceEventsComparator (a b : TraceEvent) : bool :=
  if negb (ev_timestamp_ps a =? ev_timestamp_ps b) then ev_timestamp_ps a <? ev_timestamp_ps b
  else if negb (ev_duration_ps a =? ev_duration_ps b) then ev_duration_ps b <? ev_duration_ps a
  else if negb (ev_device_id a =? ev_device_id b) then ev_device_id a <? ev_device_id b
  else if has_resource_id a && negb (has_resource_id b) then true
  else if negb (has_resource_id a) && has_resource_id b then false
  else if has_resource_id a then resource_id_or_0 a <? resource_id_or_0 b
  else bytes_lt (ev_name a) (ev_name b).

Definition FlowEventsComparator (a b : TraceEvent) : bool :=
  if ev_timestamp_ps a <? ev_timestamp_ps b then true
  else if ev_timestamp_ps b <? ev_timestamp_ps a then false
  else flow_entry_number (ev_flow_entry_type a) <? flow_entry_number (ev_flow_entry_type b).

Lemma StrictWeak_ext {A} (f g : A -> A -> bool) : (forall a b, f a b = g a b) -> StrictWeak g -> StrictWeak f.
Proof. intros He [H1 H2]. split; intros *; rewrite !He; eauto. Qed.

Lemma bytes_lt_sw : StrictWeak bytes_lt.
Proof.
  split.
  - intros a b H. destruct (bytes_lt b a) eqn:H'; [|done].
    by rewrite <- (bytes_lt_irrefl a), (bytes_lt_trans a b a).
  - intros a b c H1 H2. destruct (bytes_lt a c) eqn:H; [|done]. destruct (bytes_lt c b) eqn:H'.
    + by rewrite <- H1, (bytes_lt_trans a c b).
    + by rewrite <- H1, (bytes_lt_total b c).
Qed.

#[export] Instance TraceEventsComparator_sw : StrictWeak TraceEventsComparator.
Proof.
  eapply StrictWeak_ext; [|apply (StrictWeak_key ev_timestamp_ps),
    (StrictWeak_key (fun e => - ev_duration_ps e)), (StrictWeak_key ev_device_id),
    (StrictWeak_key (fun e => Z.b2z (negb (has_resource_id e)))), (StrictWeak_key resource_id_or_0),
    (StrictWeak_on (fun e => if has_resource_id e then [] else ev_name e) bytes_lt bytes_lt_sw)].
  intros a b. unfold TraceEventsComparator. cbv beta.
  destruct (ev_timestamp_ps a =? ev_timestamp_ps b); [|done]. simpl.
  replace (- ev_duration_ps a =? - ev_duration_ps b) with (ev_duration_ps a =? ev_duration_ps b) by lia.
  replace (- ev_duration_ps a <? - ev_duration_ps b) with (ev_duration_ps b <? ev_duration_ps a) by lia.
  destruct (ev_duration_ps a =? ev_duration_ps b); [|done]. simpl.
  destruct (ev_device_id a =? ev_device_id b); [|done]. simpl.
  unfold has_resource_id, resource_id_or_0. destruct (ev_resource_id a), (ev_resource_id b); simpl; try done.
  destruct (Z.eqb_spec z z0) as [->|]; [by rewrite Z.ltb_irrefl|done].
Qed.

#[export] Instance FlowEventsComparator_sw : StrictWeak FlowEventsComparator.
Proof.
  eapply StrictWeak_ext; [|apply (StrictWeak_key ev_timestamp_ps),
    (StrictWeak_key (fun e => flow_entry_number (ev_flow_entry_type e))), (StrictWeak_on (fun _ => []) bytes_lt bytes_lt_sw)].
  intros a b. unfold FlowEventsComparator. simpl.
  destruct (Z.eqb_spec (ev_timestamp_ps a) (ev_timestamp_ps b)) as [->|].
  - rewrite Z.ltb_irrefl. destruct (Z.eqb_spec (flow_entry_number (ev_flow_entry_type a))
      (flow_entry_number (ev_flow_entry_type b))) as [->|]; [by rewrite Z.ltb_irrefl|done].
  - destruct (Z.ltb_spec (ev_timestamp_ps a) (ev_timestamp_ps b)); [done|].
    by rewrite (proj2 (Z.ltb_lt _ _)) by lia.
Qed.

(** ** Flows *)

(** [SplitEventFlow] after sorting: the flows so far, and whether the last is open. *)
Definition split_step (st : list (list TraceEvent) * bool) (event : TraceEvent) : list (list TraceEvent) * bool :=
  let '(flows, current) := st in
  let flows' :=
    if negb current || bool_decide (ev_flow_entry_type event = FLOW_START) then flows ++ [[]] else flows in
  let flows'' := match last flows' with
                 | Some l => removelast flows' ++ [l ++ [event]]
                 | None => flows' end in
  (flows'', negb (bool_decide (ev_flow_entry_type event = FLOW_END))).

Section flows.
Context `{!StdSort}.
Definition SplitEventFlow (flow : list TraceEvent) : list (list TraceEvent) :=
  (foldl split_step ([], false) (std_sort FlowEventsComparator flow)).1.
End flows.

Definition IsCompleteFlow (flow : list TraceEvent) : bool :=
  match head flow, last flow with
  | Some a, Some b => bool_decide (ev_flow_entry_type a = FLOW_START) && bool_decide (ev_flow_entry_type b = FLOW_END)
  | _, _ => false
  end.

Definition IsFlowMid (event : TraceEvent) : bool :=
  has_flow_id event && bool_decide (ev_flow_entry_type event = FLOW_MID).

(** ** The span of a trace *)

Definition max_ts : Z := (2 ^ 64 - 1) / 2.

Section spans.
Context {T : Type} `{!Timespan T, !TimespanOps T}.

Definition event_span (e : TraceEvent) : T := mk_span (ev_timestamp_ps e) (ev_duration_ps e).
Definition TraceSpan (trace : Trace) : T :=
  FromEndPoints (default 0 (tr_min_timestamp_ps trace)) (default 0 (tr_max_timestamp_ps trace)).

Definition ExpandTraceSpan (span : T) (trace : Trace) : Trace :=
  let min :=
    if (begin_ps span <=? max_ts)
       && match tr_min_timestamp_ps trace with None => true | Some m => begin_ps span <? m end
    then Some (begin_ps span) else tr_min_timestamp_ps trace in
  let max :=
    if (end_ps span <=? max_ts)
       && match tr_max_timestamp_ps trace with None => true | Some m => m <? end_ps span end
    then Some (end_ps span) else tr_max_timestamp_ps trace in
  mk_trace (tr_devices trace) (tr_tasks trace) min max (tr_num_events trace) (tr_name_table trace).
End spans.

(** ** Types, zoom levels and keys *)

Inductive EventType := EVENT_TYPE_UNSPECIFIED | EVENT_TYPE_COMPLETE | EVENT_TYPE_ASYNC | EVENT_TYPE_COUNTER.
#[export] Instance EventType_eq_dec : EqDecision EventType.
Proof. solve_decision. Defined.

Definition GetTraceEventType (event : TraceEvent) : EventType :=
  if has_resource_id event then EVENT_TYPE_COMPLETE
  else if has_flow_id event then EVENT_TYPE_ASYNC else EVENT_TYPE_COUNTER.

Definition kLayerResolutions : list Z :=
  [1000000000000; 100000000000; 10000000000; 1000000000; 100000000; 10000000; 1000000; 100000;
   10000; 1000; 100; 10; 1].
Definition NumLevels : nat := length kLayerResolutions.

Definition LayerResolutionPs (level : nat) : Z :=
  if decide (NumLevels <= level)%nat then 0 else kLayerResolutions !!! level.

(** The loop over the levels from [i] on, with the resolution of the one before. *)
Fixpoint level_bounds_loop (duration_ps prev : Z) (levels : list Z) : Z * Z :=
  match levels with
  | [] => (0, 1)
  | r :: levels' => if r <? duration_ps then (r, prev) else level_bounds_loop duration_ps r levels'
  end.
Definition GetLevelBoundsForDuration (duration_ps : Z) : Z * Z :=
  let top := LayerResolutionPs 0 in
  if (duration_ps =? 0) || (top <? duration_ps) then (top, 2 ^ 63 - 1)
  else level_bounds_loop duration_ps top (tail kLayerResolutions).

Definition kLevelKey : bytes := str "123456789ABCDEFGHIJKLMNOPQ".
Definition kTraceMetadataKey : bytes := str "/trace".
Definition kLevelDbKeyLength : nat := 10.

Definition be_encode (n : nat) (z : Z) : bytes := reverse (le_encode n z).

(** Level, big-endian timestamp, repetition; empty when the repetition needs more than
    a byte. *)
Definition LevelDbTableKey (zoom_level : nat) (timestamp repetition : Z) : bytes :=
  if 256 <=? repetition then []
  else (kLevelKey !!! zoom_level) :: be_encode 8 timestamp ++ [repetition].

Definition TimestampFromLevelDbTableKey (key : bytes) : Z := le_decode (reverse (take 8 (drop 1 key))).

(** ** Serials *)

#[export] Instance TraceEvent_inhabited : Inhabited TraceEvent :=
  populate (mk_event 0 None NoName None 0 0 None None FLOW_NONE None None).

(** The events an arena holds, by pointer. *)
Definition deref_event (arena : list TraceEvent) (p : nat) : TraceEvent := arena !!! p.

(** Events of equal timestamp are numbered, in the arena, from the second on; the others
    keep the serial they have. The field has 32 bits. *)
Fixpoint unique_id_loop (arena : list TraceEvent) (last_ts serial : Z) (events : list nat) : list TraceEvent :=
  match events with
  | [] => arena
  | p :: events' =>
      let event := deref_event arena p in
      let '(arena', serial') :=
        if ev_timestamp_ps event =? last_ts
        then (<[p := set_serial (u32 (serial + 1)) event]> arena, u64 (serial + 1))
        else (arena, 0) in
      unique_id_loop arena' (ev_timestamp_ps event) serial' events'
  end.
Definition MaybeAddEventUniqueId (arena : list TraceEvent) (all_events : list nat) : list TraceEvent :=
  unique_id_loop arena (2 ^ 64 - 1) 0 all_events.

(** ** Names *)

Section references.
(** RawData::ParseFromString, reduced to the references among the arguments. *)
Context (raw_data_refs : bytes -> option (list Z)).

Definition GetEventReferencesInTraceNameTable (event : TraceEvent) : Status + list Z :=
  let refs := match ev_name_ref event with Some r => [r] | None => [] end in
  match ev_raw_data event with
  | None => inr refs
  | Some d => match raw_data_refs d with None => inl InternalError | Some more => inr (refs ++ more) end
  end.
End references.

Definition PurgeIrrelevantEntriesInTraceNameTable (trace : Trace) (required : list Z) : Trace :=
  mk_trace (tr_devices trace) (tr_tasks trace) (tr_min_timestamp_ps trace) (tr_max_timestamp_ps trace)
    (tr_num_events trace) (filter (fun p => p.1 ∈ required) (tr_name_table trace)).

(** ** Encodings, for concrete messages *)

#[export] Instance Resource_eq_dec : EqDecision Resource.
Proof. solve_decision. Defined.
#[export] Instance Device_eq_dec : EqDecision Device.
Proof. solve_decision. Defined.
#[export] Instance Trace_eq_dec : EqDecision Trace.
Proof. solve_decision. Defined.

#[export] Program Instance FlowEntryType_countable : Countable FlowEntryType :=
  inj_countable' flow_entry_number (fun n => if n =? 1 then FLOW_START else if n =? 2 then FLOW_MID
                                             else if n =? 3 then FLOW_END else FLOW_NONE) _.
Next Obligation. by intros []. Qed.

#[export] Program Instance EventName_countable : Countable EventName :=
  inj_countable' (fun n => match n with NoName => inl () | Name s => inr (inl s) | NameRef r => inr (inr r) end)
    (fun x => match x with inl () => NoName | inr (inl s) => Name s | inr (inr r) => NameRef r end) _.
Next Obligation. by intros []. Qed.

#[export] Program Instance TraceEvent_countable : Countable TraceEvent :=
  inj_countable' (fun e => (ev_device_id e, ev_resource_id e, ev_name_oneof e, ev_group_id e, ev_timestamp_ps e,
      ev_duration_ps e, ev_raw_data e, ev_flow_id e, ev_flow_entry_type e, ev_flow_category e, ev_serial e))
    (fun '(a, b, c, d, e, f, g, h, i, j, k) => mk_event a b c d e f g h i j k) _.
Next Obligation. by intros []. Qed.

#[export] Program Instance Resource_countable : Countable Resource :=
  inj_countable' (fun r => (res_name r, res_id r, res_num_events r)) (fun '(a, b, c) => mk_resource a b c) _.
Next Obligation. by intros []. Qed.

#[export] Program Instance Device_countable : Countable Device :=
  inj_countable' (fun d => (dev_name d, dev_id d, dev_resources d)) (fun '(a, b, c) => mk_device a b c) _.
Next Obligation. by intros []. Qed.

#[export] Program Instance Trace_countable : Countable Trace :=
  inj_countable' (fun t => (tr_devices t, tr_tasks t, tr_min_timestamp_ps t, tr_max_timestamp_ps t, tr_num_events t, tr_name_table t))
    (fun '(a, b, c, d, e, f) => mk_trace a b c d e f) _.
Next Obligation. by intros []. Qed.

(** ** Keys and levels *)

Lemma le_encode_snoc n z x : reverse (le_encode (S n) z) ++ x = reverse (le_encode n (z / 256)) ++ (z mod 256 :: x).
Proof. cbn [le_encode]. rewrite reverse_cons, <- app_assoc. done. Qed.

(** Big-endian numbers are in byte order as numbers are in theirs. *)
Lemma bytes_lt_be n a b x y :
  0 <= a < 256 ^ Z.of_nat n -> 0 <= b < 256 ^ Z.of_nat n ->
  bytes_lt (be_encode n a ++ x) (be_encode n b ++ y) = (a <? b) || ((a =? b) && bytes_lt x y).
Proof.
  unfold be_encode. revert a b x y. induction n as [|n IH]; intros a b x y Ha Hb.
  { simpl in *. assert (a = b) as -> by lia. by rewrite Z.ltb_irrefl, Z.eqb_refl. }
  rewrite Nat2Z.inj_succ, Z.pow_succ_r in * by lia. rewrite !le_encode_snoc, IH.
  - simpl. pose proof (Z.div_mod a 256). pose proof (Z.div_mod b 256).
    pose proof (Z.mod_pos_bound a 256). pose proof (Z.mod_pos_bound b 256). destruct (bytes_lt x y); lia.
  - split; [apply Z.div_pos|apply Z.div_lt_upper_bound]; lia.
  - split; [apply Z.div_pos|apply Z.div_lt_upper_bound]; lia.
Qed.

Definition level_char (z : nat) : Z := kLevelKey !!! z.

Lemma level_char_lt z z' : (z < z' < 26)%nat -> level_char z < level_char z'.
Proof.
  intros [H1 H2]. assert (forallb (fun z' => forallb (fun z => level_char z <? level_char z') (seq 0 z')) (seq 0 26) = true)
    as Hall by (by vm_compute).
  rewrite forallb_forall in Hall. specialize (Hall z'). rewrite forallb_forall in Hall.
  apply Z.ltb_lt, Hall; apply in_seq; lia.
Qed.

Lemma level_char_ge z : (z < 26)%nat -> 49 <= level_char z.
Proof.
  intros Hz. destruct (decide (z = 0)%nat) as [->|]; [by vm_compute|]. pose proof (level_char_lt 0 z).
  change 49 with (level_char 0). lia.
Qed.

(** Keys are in the order of level, time and serial. *)
Lemma LevelDbTableKey_lt z t r z' t' r' :
  (z < 26)%nat -> (z' < 26)%nat -> 0 <= t < 2 ^ 64 -> 0 <= t' < 2 ^ 64 -> r < 256 -> r' < 256 ->
  bytes_lt (LevelDbTableKey z t r) (LevelDbTableKey z' t' r') =
  bool_decide (z < z' \/ z = z' /\ (t < t' \/ t = t' /\ r < r')%Z)%nat.
Proof.
  intros Hz Hz' Ht Ht' Hr Hr'. unfold LevelDbTableKey.
  rewrite (proj2 (Z.leb_gt 256 r)), (proj2 (Z.leb_gt 256 r')) by lia. cbn [bytes_lt].
  fold (level_char z) (level_char z'). rewrite bytes_lt_be by done. cbn [bytes_lt].
  destruct (lt_eq_lt_dec z z') as [[Hlt| ->]|Hgt].
  - pose proof (level_char_lt z z'). rewrite (proj2 (Z.ltb_lt _ _)) by lia. rewrite bool_decide_eq_true_2 by lia. done.
  - rewrite Z.ltb_irrefl, Z.eqb_refl. simpl. rewrite andb_false_r, orb_false_r.
    case_bool_decide; lia.
  - pose proof (level_char_lt z' z). rewrite (proj2 (Z.ltb_ge _ _)), (proj2 (Z.eqb_neq _ _)) by lia.
    rewrite bool_decide_eq_false_2 by lia. done.
Qed.

Lemma key_nonempty z t r : LevelDbTableKey z t r = [] <-> 256 <= r.
Proof. unfold LevelDbTableKey. destruct (Z.leb_spec 256 r); split; done || lia. Qed.

Lemma key_timestamp z t r :
  0 <= t < 2 ^ 64 -> r < 256 -> TimestampFromLevelDbTableKey (LevelDbTableKey z t r) = t.
Proof.
  intros Ht Hr. unfold LevelDbTableKey, TimestampFromLevelDbTableKey.
  rewrite (proj2 (Z.leb_gt 256 r)) by lia. cbn [drop]. rewrite drop_0. unfold be_encode.
  rewrite take_app_length' by (by rewrite length_reverse, length_le_encode).
  rewrite reverse_involutive. by apply le_decode_encode.
Qed.

(** C40. The zoom level bounds of a duration, as their comment states them: the duration is
    above the lower and not above the upper one. *)
Theorem level_bounds_contain duration :
  0 < duration < 2 ^ 63 ->
  let '(lower, upper) := GetLevelBoundsForDuration duration in lower < duration <= upper.
Proof.
  intros Hd. unfold GetLevelBoundsForDuration. rewrite (proj2 (Z.eqb_neq _ _)) by lia. cbn [orb].
  destruct (Z.ltb_spec (LayerResolutionPs 0) duration); [lia|].
  change (LayerResolutionPs 0) with 1000000000000 in *. cbn [tail kLayerResolutions level_bounds_loop].
  repeat match goal with |- context [?r <? duration] => destruct (Z.ltb_spec r duration); [lia|] end. lia.
Qed.

Lemma level_bounds_contain_witness :
  let '(lower, upper) := GetLevelBoundsForDuration 12345 in lower < 12345 <= upper.
Proof. apply (level_bounds_contain 12345). lia. Defined.

(** The key of an event gives back its time, and keys sort by level, time and serial. *)
Theorem keys_round_trip z t r z' t' r' :
  (z < 26)%nat -> (z' < 26)%nat -> 0 <= t < 2 ^ 64 -> 0 <= t' < 2 ^ 64 -> 0 <= r < 256 -> 0 <= r' < 256 ->
  TimestampFromLevelDbTableKey (LevelDbTableKey z t r) = t /\
  length (LevelDbTableKey z t r) = kLevelDbKeyLength /\
  (bytes_lt (LevelDbTableKey z t r) (LevelDbTableKey z' t' r') = true <->
   (z < z')%nat \/ z = z' /\ (t < t' \/ t = t' /\ r < r')).
Proof.
  intros. split_and!; [apply key_timestamp; lia| |].
  - unfold LevelDbTableKey. rewrite (proj2 (Z.leb_gt 256 r)) by lia. cbn [length].
    rewrite length_app. unfold be_encode. by rewrite length_reverse, length_le_encode.
  - rewrite LevelDbTableKey_lt by lia. by rewrite bool_decide_eq_true.
Qed.

Lemma keys_round_trip_witness :
  TimestampFromLevelDbTableKey (LevelDbTableKey 3 123456789 7) = 123456789 /\
  bytes_lt (LevelDbTableKey 3 255 9) (LevelDbTableKey 3 256 0) = true.
Proof.
  destruct (keys_round_trip 3 123456789 7 3 0 0) as (H & _ & _); [lia..|]. split; [done|].
  apply (keys_round_trip 3 255 9 3 256 0); lia.
Defined.
