(* ===== verification/RawData.v ===== *)
(** The raw data of trace events (trace_events_raw.proto) and what the trace viewer does
    with it: building arguments (trace_event_arguments_builder.h), interning long strings in
    the name table, the references it holds, and the searchable keys
    (xprof/convert/trace_viewer/trace_events.{h,cc}). *)
From Stdlib Require Import ZArith Lia String.
From stdpp Require Import base list gmap pretty strings.
From S2P Require Import Prelude Timespan LevelDb PrefixTrie TraceEvent.
Local Open Scope Z_scope.

(** ** Messages *)

Inductive ArgValue :=
  | NoValue | StrValue (s : bytes) | UintValue (n : Z) | IntValue (n : Z) | DoubleValue (bits : Z) | RefValue (ref : Z).
Record Argument := mk_arg { arg_name : bytes; arg_value : ArgValue }.
Record DmaActivity := mk_dma {
  start_time_cycles : option Z; end_time_cycles : option Z; kilobytes : option Z; dma_mesh_chip_id : option Z;
  dma_core_id : option Z; dma_address : option Z; multicast : option Z; segmented : option Z; temporary : option Z
}.
Inductive RawData := RawNone | RawDma (d : DmaActivity) | RawArgs (args : list Argument) | RawTpu (dummy : option Z).

Definition has_args (raw_data : RawData) : bool := match raw_data with RawArgs _ => true | _ => false end.
Definition args_of (raw_data : RawData) : list Argument := match raw_data with RawArgs l => l | _ => [] end.

(** ** [TraceEventArgumentsBuilder] *)

Definition Append_str (key value : bytes) (args : list Argument) : list Argument := args ++ [mk_arg key (StrValue value)].
Definition Append_int (key : bytes) (value : Z) (args : list Argument) : list Argument := args ++ [mk_arg key (IntValue value)].
Definition Append_uint (key : bytes) (value : Z) (args : list Argument) : list Argument := args ++ [mk_arg key (UintValue value)].
Definition Append_double (key : bytes) (bits : Z) (args : list Argument) : list Argument := args ++ [mk_arg key (DoubleValue bits)].

(** ** The name table *)

Section interning.
(** The hash of names. *)
Context (hash : bytes -> Z).
Implicit Types table : gmap Z bytes.

(** [MaybeInternString]: the first name of a fingerprint stays. *)
Definition MaybeInternString (name : bytes) table : Z * gmap Z bytes :=
  let fingerprint := hash name in
  let interned := default [] (table !! fingerprint) in
  (fingerprint, <[fingerprint := if bool_decide (interned = []) then name else interned]> table).

Definition kNameInternThreshold : nat := 32.
Definition MaybeInternEventName (name : bytes) table : EventName * gmap Z bytes :=
  if (kNameInternThreshold <? length name)%nat then
    let '(ref, table') := MaybeInternString name table in (NameRef ref, table')
  else (Name name, table).

Definition kTraceArgInternThreshold : nat := 16.
Definition intern_arg (arg : Argument) table : Argument * gmap Z bytes :=
  match arg_value arg with
  | StrValue s =>
      if (kTraceArgInternThreshold <? length s)%nat then
        let text := if bool_decide (arg_name arg = str "long_name" \/ arg_name arg = str "hlo_text")
                    then str "@@" ++ s else s in
        let '(ref, table') := MaybeInternString text table in (mk_arg (arg_name arg) (RefValue ref), table')
      else (arg, table)
  | _ => (arg, table)
  end.
Fixpoint intern_args (args : list Argument) table : list Argument * gmap Z bytes :=
  match args with
  | [] => ([], table)
  | arg :: args' =>
      let '(arg', table1) := intern_arg arg table in
      let '(args'', table2) := intern_args args' table1 in (arg' :: args'', table2)
  end.
Definition MaybeInternTraceArgument (raw_data : RawData) table : RawData * gmap Z bytes :=
  match raw_data with
  | RawArgs args => let '(args', table') := intern_args args table in (RawArgs args', table')
  | _ => (raw_data, table)
  end.

(** The strings that names and arguments stand for. *)
Definition resolve_name table (n : EventName) : option bytes :=
  match n with NoName => Some [] | Name s => Some s | NameRef r => table !! r end.
Definition resolve_value table (v : ArgValue) : option bytes :=
  match v with StrValue s => Some s | RefValue r => table !! r | _ => None end.

(** What a table says of the strings already interned. *)
Definition injective_on (names : list bytes) : Prop :=
  forall a b, a ∈ names -> b ∈ names -> hash a = hash b -> a = b.
Definition interned table (names : list bytes) : Prop :=
  (forall a, a ∈ names -> table !! hash a = Some a) /\
  (forall r s, table !! r = Some s -> s ∈ names /\ r = hash s).

Lemma MaybeInternString_spec name table names :
  name <> [] -> injective_on (name :: names) -> interned table names ->
  let '(ref, table') := MaybeInternString name table in
  ref = hash name /\ interned table' (name :: names) /\ (forall r s, table !! r = Some s -> table' !! r = Some s).
Proof.
  intros Hne Hinj [Hin Hout]. unfold MaybeInternString. cbv zeta.
  assert (table !! hash name = None \/ table !! hash name = Some name) as Hcur.
  { destruct (table !! hash name) as [s|] eqn:Hs; [right|by left]. destruct (Hout _ _ Hs) as [Hsn Heq]. f_equal.
    apply Hinj; [by apply list_elem_of_further|apply list_elem_of_here|done]. }
  set (t' := <[hash name := _]> table).
  assert (t' = <[hash name := name]> table) as ->.
  { unfold t'. f_equal. destruct Hcur as [-> | ->]; simpl; [done|]. by rewrite bool_decide_eq_false_2. }
  split_and!; [done| |].
  - split.
    + intros a [->|Ha]%elem_of_cons; [by rewrite lookup_insert_eq|]. destruct (decide (hash a = hash name)) as [He|He].
      * rewrite He, lookup_insert_eq. f_equal. apply Hinj; [apply list_elem_of_here|by apply list_elem_of_further|done].
      * rewrite lookup_insert_ne by done. auto.
    + intros r s. destruct (decide (r = hash name)) as [->|He].
      * rewrite lookup_insert_eq. intros [= <-]. split; [apply list_elem_of_here|done].
      * rewrite lookup_insert_ne by done. intros Hs. destruct (Hout _ _ Hs). split; [by apply list_elem_of_further|done].
  - intros r s Hs. destruct (decide (r = hash name)) as [->|He]; [|by rewrite lookup_insert_ne].
    rewrite lookup_insert_eq. destruct Hcur as [Hc|Hc]; congruence.
Qed.

(** The strings an argument list interns. *)
Definition arg_text (arg : Argument) : bytes :=
  match arg_value arg with
  | StrValue s => if (kTraceArgInternThreshold <? length s)%nat &&
                     bool_decide (arg_name arg = str "long_name" \/ arg_name arg = str "hlo_text")
                  then str "@@" ++ s else s
  | _ => []
  end.

Lemma intern_arg_spec arg table names :
  injective_on (arg_text arg :: names) -> interned table names ->
  let '(arg', table') := intern_arg arg table in
  arg_name arg' = arg_name arg /\
  (forall s, arg_value arg = StrValue s -> resolve_value table' (arg_value arg') = Some (arg_text arg)) /\
  (exists names', names' ⊆ arg_text arg :: names /\ names ⊆ names' /\ interned table' names') /\
  (forall r s, table !! r = Some s -> table' !! r = Some s).
Proof.
  intros Hinj Hin. unfold intern_arg, arg_text in *. destruct (arg_value arg) as [|s|n|n|bits|r] eqn:Hv.
  2: destruct (_ <? _)%nat eqn:Hlen; cbn [andb] in Hinj |- *.
  2: { set (text := if bool_decide _ then _ else _) in *.
       assert (text <> []) as Hne.
       { unfold text. case_bool_decide; [intros Heq; by vm_compute in Heq|]. by destruct s; [vm_compute in Hlen|]. }
       pose proof (MaybeInternString_spec text table names Hne Hinj Hin) as Hspec.
       destruct (MaybeInternString text table) as [ref table']. destruct Hspec as (-> & Hin' & Hext).
       split_and!; [done|..|done].
       - intros s' _. simpl. apply Hin', list_elem_of_here.
       - exists (text :: names). split_and!; [done|intros x Hx; by apply list_elem_of_further|done]. }
  all: split_and!; [done| |exists names; split_and!; [intros x Hx; by apply list_elem_of_further|done..]|done].
  all: intros s' [= <-]; by rewrite Hv.
Qed.
End interning.

(** ** Searchable keys *)

Definition is_decimal_digit (c : Z) : bool := (48 <=? c) && (c <=? 57).

(** RE2::FullMatch with "request_id[0-9]*" *)
Definition searchable_key (name : bytes) : bool :=
  StartsWith name (str "request_id") && forallb is_decimal_digit (drop (length (str "request_id")) name).

Definition searchable_value (name_table : gmap Z bytes) (arg : Argument) : bytes :=
  match arg_value arg with
  | StrValue s => s
  | RefValue r => default [] (name_table !! r)
  | IntValue n | UintValue n => str (pretty n)
  | NoValue | DoubleValue _ => []
  end.

Section raw.
Context `{!Proto RawData}.

Definition ExtractMetadataKeys (event : TraceEvent) (trace : Trace) (event_id : bytes) (prefix_trie : PrefixTrieNode) :
    PrefixTrieNode :=
  match ev_raw_data event with
  | None => prefix_trie
  | Some d =>
      match ParseFromString d with
      | Some (RawArgs args) =>
          foldl (fun t arg =>
            if searchable_key (arg_name arg) then
              let val := searchable_value (tr_name_table trace) arg in
              if bool_decide (val = []) then t else Insert val event_id t
            else t) prefix_trie args
      | _ => prefix_trie
      end
  end.

(** The references among the arguments of raw data, and the raw data of an event that has
    none of its own. *)
Definition raw_data_refs (d : bytes) : option (list Z) :=
  (fun r => omap (fun arg => match arg_value arg with RefValue n => Some n | _ => None end) (args_of r))
    <$> ParseFromString d.
Definition uid_raw_data (serial : Z) : bytes := SerializeAsString (RawArgs [mk_arg (str "uid") (IntValue serial)]).
End raw.

(** ** Interning keeps the texts *)

Section texts.
Context (hash : bytes -> Z).

(** An argument after interning: a string resolves to its text, other values stay. *)
Definition same_text (table : gmap Z bytes) (arg arg' : Argument) : Prop :=
  arg_name arg' = arg_name arg /\
  match arg_value arg with
  | StrValue s => resolve_value table (arg_value arg') = Some (arg_text arg)
  | v => arg_value arg' = v
  end.

Lemma same_text_mono (table table' : gmap Z bytes) arg arg' :
  (forall r s, table !! r = Some s -> table' !! r = Some s) -> same_text table arg arg' -> same_text table' arg arg'.
Proof.
  intros Hext [Hn Hv]. split; [done|]. destruct (arg_value arg); try done.
  destruct (arg_value arg'); simpl in *; try done. by apply Hext.
Qed.

Lemma intern_arg_same_text arg table names :
  injective_on hash (arg_text arg :: names) -> interned hash table names ->
  let '(arg', table') := intern_arg hash arg table in
  same_text table' arg arg' /\
  (exists names', names' ⊆ arg_text arg :: names /\ names ⊆ names' /\ interned hash table' names') /\
  (forall r s, table !! r = Some s -> table' !! r = Some s).
Proof.
  intros Hinj Hin. pose proof (intern_arg_spec hash arg table names Hinj Hin) as Hspec.
  destruct (intern_arg hash arg table) as [arg' table'] eqn:Harg. destruct Hspec as (Hn & Hs & Hex & Hext).
  split_and!; try done. split; [done|].
  destruct (arg_value arg) as [|s|n|n|b|r] eqn:Hv; unfold intern_arg in Harg; rewrite Hv in Harg.
  2: by apply (Hs s). all: by injection Harg as <- <-.
Qed.

Lemma intern_args_spec args table names :
  injective_on hash ((arg_text <$> args) ++ names) -> interned hash table names ->
  let '(args', table') := intern_args hash args table in
  Forall2 (same_text table') args args' /\ (forall r s, table !! r = Some s -> table' !! r = Some s).
Proof.
  revert table names. induction args as [|arg args IH]; intros table names Hinj Hin; [by split|]. cbn [intern_args].
  assert (injective_on hash (arg_text arg :: names)) as Hinj1.
  { intros a b Ha Hb. apply Hinj; rewrite fmap_cons, elem_of_app, !elem_of_cons in *; tauto. }
  pose proof (intern_arg_same_text arg table names Hinj1 Hin) as Hspec.
  destruct (intern_arg hash arg table) as [arg' table1]. destruct Hspec as (Hsame & (names' & Hsub & _ & Hin') & Hext).
  specialize (IH table1 names'). destruct (intern_args hash args table1) as [args' table2].
  destruct IH as [IHs IHext]; [|done|].
  { intros a b Ha Hb. apply Hinj; rewrite fmap_cons, !elem_of_app in *; simpl.
    - destruct Ha as [Ha|Ha%Hsub]; rewrite !elem_of_cons in *; tauto.
    - destruct Hb as [Hb|Hb%Hsub]; rewrite !elem_of_cons in *; tauto. }
  split; [|auto]. constructor; [|done]. by eapply same_text_mono.
Qed.

(** Interning the name and the arguments of an event, in a table whose strings the hash tells
    apart from them, keeps every text: the name and each string argument resolve to it in
    the new table (marked when they may be stack frames), other arguments stay, and what
    was interned before still resolves as it did. *)
Theorem interning_keeps_texts name args table names :
  name <> [] -> interned hash table names -> injective_on hash ((arg_text <$> args) ++ name :: names) ->
  let '(n, table1) := MaybeInternEventName hash name table in
  let '(raw, table2) := MaybeInternTraceArgument hash (RawArgs args) table1 in
  resolve_name table2 n = Some name /\ Forall2 (same_text table2) args (args_of raw) /\
  forall r s, table !! r = Some s -> table2 !! r = Some s.
Proof.
  intros Hne Hin Hinj. unfold MaybeInternEventName.
  assert (injective_on hash (name :: names)) as Hinj1.
  { intros a b Ha Hb. apply Hinj; apply elem_of_app; by right. }
  destruct (_ <? _)%nat.
  - pose proof (MaybeInternString_spec hash name table names Hne Hinj1 Hin) as Hspec.
    destruct (MaybeInternString hash name table) as [ref table1]. destruct Hspec as (-> & Hin1 & Hext1).
    cbn [MaybeInternTraceArgument]. pose proof (intern_args_spec args table1 (name :: names) Hinj Hin1) as Hspec.
    destruct (intern_args hash args table1) as [args' table2]. destruct Hspec as [Hs Hext]. split_and!; [|done|auto].
    simpl. apply Hext, Hin1, list_elem_of_here.
  - cbn [MaybeInternTraceArgument].
    assert (injective_on hash ((arg_text <$> args) ++ names)) as Hinj2.
    { intros a b. rewrite !elem_of_app. intros Ha Hb. apply Hinj; apply elem_of_app; rewrite elem_of_cons; naive_solver. }
    pose proof (intern_args_spec args table names Hinj2 Hin) as Hspec.
    destruct (intern_args hash args table) as [args' table2]. by destruct Hspec as [Hs Hext].
Qed.

End texts.

(** A hash of names for concrete tables. *)
Definition sum_hash (name : bytes) : Z := foldr (fun c acc => c + 257 * acc) 0 name.

Lemma interning_keeps_texts_witness :
  let name := replicate 40 97 in let arg := mk_arg (str "long_name") (StrValue (replicate 20 98)) in
  let '(n, table1) := MaybeInternEventName sum_hash name ∅ in
  let '(raw, table2) := MaybeInternTraceArgument sum_hash (RawArgs [arg]) table1 in
  n = NameRef (sum_hash name) /\ resolve_name table2 n = Some name /\ Forall2 (same_text table2) [arg] (args_of raw).
Proof.
  intros name arg. assert (injective_on sum_hash ((arg_text <$> [arg]) ++ [name])) as Hinj.
  { intros a b. change ((arg_text <$> [arg]) ++ [name]) with [arg_text arg; name].
    intros [->|[->|[]%not_elem_of_nil]%elem_of_cons]%elem_of_cons [->|[->|[]%not_elem_of_nil]%elem_of_cons]%elem_of_cons; try done.
    all: intros H; by vm_compute in H. }
  assert (interned sum_hash ∅ []) as Hin. { split; [by intros a ?%not_elem_of_nil|by intros r s ?]. }
  pose proof (interning_keeps_texts sum_hash name [arg] ∅ [] (ltac:(done)) Hin Hinj) as H.
  destruct (MaybeInternEventName sum_hash name ∅) as [n table1] eqn:Hn.
  destruct (MaybeInternTraceArgument sum_hash (RawArgs [arg]) table1) as [raw table2].
  destruct H as (H1 & H2 & _). split_and!; [|done..]. vm_compute in Hn. injection Hn as <- _. by vm_compute.
Defined.

(** ** Encodings, for concrete messages *)

#[export] Instance ArgValue_eq_dec : EqDecision ArgValue.
Proof. solve_decision. Defined.
#[export] Instance Argument_eq_dec : EqDecision Argument.
Proof. solve_decision. Defined.
#[export] Instance DmaActivity_eq_dec : EqDecision DmaActivity.
Proof. solve_decision. Defined.
#[export] Instance RawData_eq_dec : EqDecision RawData.
Proof. solve_decision. Defined.

#[export] Program Instance ArgValue_countable : Countable ArgValue :=
  inj_countable' (fun v => match v with
      | NoValue => (0, [], 0) | StrValue s => (1, s, 0) | UintValue n => (2, [], n) | IntValue n => (3, [], n)
      | DoubleValue n => (4, [], n) | RefValue n => (5, [], n) end)
    (fun '(tag, s, n) => if tag =? 0 then NoValue else if tag =? 1 then StrValue s else if tag =? 2 then UintValue n
      else if tag =? 3 then IntValue n else if tag =? 4 then DoubleValue n else RefValue n) _.
Next Obligation. by intros []. Qed.
#[export] Program Instance Argument_countable : Countable Argument :=
  inj_countable' (fun a => (arg_name a, arg_value a)) (fun '(n, v) => mk_arg n v) _.
Next Obligation. by intros []. Qed.
#[export] Program Instance DmaActivity_countable : Countable DmaActivity :=
  inj_countable' (fun d => (start_time_cycles d, end_time_cycles d, kilobytes d, dma_mesh_chip_id d, dma_core_id d,
      dma_address d, multicast d, segmented d, temporary d))
    (fun '(a, b, c, d, e, f, g, h, i) => mk_dma a b c d e f g h i) _.
Next Obligation. by intros []. Qed.
#[export] Program Instance RawData_countable : Countable RawData :=
  inj_countable' (fun r => match r with
      | RawNone => inl (inl ()) | RawDma d => inl (inr d) | RawArgs l => inr (inl l) | RawTpu n => inr (inr n) end)
    (fun x => match x with inl (inl ()) => RawNone | inl (inr d) => RawDma d | inr (inl l) => RawArgs l | inr (inr n) => RawTpu n end) _.
Next Obligation. by intros []. Qed.

(** The message without fields has an empty encoding, as in protocol buffers. *)
Program Definition raw_data_proto : Proto RawData := {|
  SerializeAsString r := if bool_decide (r = RawNone) then [] else 1 :: pos_bits (encode r);
  ParseFromString l := match l with [] => Some RawNone | _ :: l' => decode (bits_pos l') end
|}.
Next Obligation. intros x. simpl. case_bool_decide as H; [by rewrite H|]. by rewrite bits_pos_bits, decode_encode. Qed.
