(* ===== verification/Visibility.v ===== *)
(** Which events of a trace can be told apart on the screen
    (xprof/convert/trace_viewer/trace_viewer_visibility.{h,cc}, trace_utils.h): the rows with the
    ends of their last visible events, flows and counters, and the filter around them. *)
From Stdlib Require Import ZArith Lia SpecFloat.
From stdpp Require Import base list gmap strings.
From S2P Require Import Prelude Timespan LevelDb TraceEvent.
Local Open Scope Z_scope.

(** ** Rows *)

(** The stack of the ends of the last visible events, outermost first, and the arrow of
    the last visible flow event. *)
Record RowVisibility := mk_row {
  last_end_timestamp_ps_ : list Z;
  last_flow_timestamp_ps_ : option Z
}.
Definition row_new : RowVisibility := mk_row [] None.

Fixpoint depth_loop (ends : list Z) (begin_timestamp_ps : Z) : nat :=
  match ends with
  | [] => 0%nat
  | e :: ends' => if e <=? begin_timestamp_ps then 0%nat else S (depth_loop ends' begin_timestamp_ps)
  end.
Definition Depth (begin_timestamp_ps : Z) (row : RowVisibility) : nat :=
  depth_loop (last_end_timestamp_ps_ row) begin_timestamp_ps.

Definition LastEndTimestampPs (depth : nat) (row : RowVisibility) : option Z :=
  last_end_timestamp_ps_ row !! depth.

(** [resize] then [push_back]. *)
Definition SetLastEndTimestampPs (depth : nat) (timestamp_ps : Z) (row : RowVisibility) : RowVisibility :=
  let ends := last_end_timestamp_ps_ row in
  mk_row (take depth ends ++ replicate (depth - length ends) 0 ++ [timestamp_ps]) (last_flow_timestamp_ps_ row).

Definition SetLastFlowTimestampPs (timestamp_ps : Z) (row : RowVisibility) : RowVisibility :=
  mk_row (last_end_timestamp_ps_ row) (Some timestamp_ps).

(** ** Visibility *)

Section visibility.
Context {T : Type} `{!Timespan T, !TimespanOps T}.

Record TraceViewerVisibility := mk_visibility {
  visible_span_ : T;
  resolution_ps_ : Z;
  rows_ : gmap (Z * Z) RowVisibility;
  flows_ : gmap Z bool;
  last_counter_timestamp_ps_ : gmap (Z * bytes) Z
}.

Definition visibility_new (visible_span : T) (resolution_ps : Z) : TraceViewerVisibility :=
  mk_visibility visible_span resolution_ps ∅ ∅ ∅.

Definition set_rows (r : gmap (Z * Z) RowVisibility) (v : TraceViewerVisibility) : TraceViewerVisibility :=
  mk_visibility (visible_span_ v) (resolution_ps_ v) r (flows_ v) (last_counter_timestamp_ps_ v).
Definition set_flows (f : gmap Z bool) (v : TraceViewerVisibility) : TraceViewerVisibility :=
  mk_visibility (visible_span_ v) (resolution_ps_ v) (rows_ v) f (last_counter_timestamp_ps_ v).
Definition set_counters (c : gmap (Z * bytes) Z) (v : TraceViewerVisibility) : TraceViewerVisibility :=
  mk_visibility (visible_span_ v) (resolution_ps_ v) (rows_ v) (flows_ v) c.

(** The resource is a 64-bit number in the event and a 32-bit one in the row. *)
Definition RowId (event : TraceEvent) : Z * Z := (ev_device_id event, u32 (resource_id_or_0 event)).
Definition CounterRowId (event : TraceEvent) : Z * bytes := (ev_device_id event, ev_name event).

Definition ev_end (event : TraceEvent) : Z := end_ps (event_span event : T).

(** The part of [VisibleAtResolution] for counters. *)
Definition counter_visible (event : TraceEvent) (v : TraceViewerVisibility) : bool * TraceViewerVisibility :=
  let visible := match last_counter_timestamp_ps_ v !! CounterRowId event with
                 | None => true
                 | Some last => resolution_ps_ v <=? u64 (ev_timestamp_ps event - last)
                 end in
  (visible, if visible
            then set_counters (<[CounterRowId event := ev_timestamp_ps event]> (last_counter_timestamp_ps_ v)) v
            else v).

(** The part for flows: the visibility of the event, the new flows, the new row. *)
Definition flow_visible (event : TraceEvent) (flow_id : Z) (visible : bool) (row : RowVisibility)
    (resolution : Z) (flows : gmap Z bool) : bool * gmap Z bool * RowVisibility :=
  let '(value, inserted) := match flows !! flow_id with Some b => (b, false) | None => (visible, true) end in
  let value' :=
    if negb visible && inserted then
      match last_flow_timestamp_ps_ row with
      | None => true
      | Some last => resolution <=? u64 (ev_end event - last)
      end
    else value in
  let visible' := if negb visible then value' else visible in
  let flows' := if bool_decide (ev_flow_entry_type event = FLOW_END) then delete flow_id flows
                else <[flow_id := value']> flows in
  (visible', flows', if visible' then SetLastFlowTimestampPs (ev_end event) row else row).

Definition VisibleAtResolution (event : TraceEvent) (v : TraceViewerVisibility) : bool * TraceViewerVisibility :=
  if negb (has_resource_id event) then counter_visible event v
  else
    let span : T := event_span event in
    let row := default row_new (rows_ v !! RowId event) in
    let depth := Depth (begin_ps span) row in
    let visible :=
      (resolution_ps_ v <=? duration_ps span)
      || match LastEndTimestampPs depth row with
         | None => true
         | Some last => resolution_ps_ v <=? u64 (begin_ps span - last)
         end in
    let '(visible, flows, row) :=
      match ev_flow_id event with
      | Some flow_id => flow_visible event flow_id visible row (resolution_ps_ v) (flows_ v)
      | None => (visible, flows_ v, row)
      end in
    let row := if visible then SetLastEndTimestampPs depth (end_ps span) row else row in
    (visible, set_rows (<[RowId event := row]> (rows_ v)) (set_flows flows v)).

Definition Visible (event : TraceEvent) (v : TraceViewerVisibility) : bool * TraceViewerVisibility :=
  if ts_Instant (visible_span_ v) then (true, v)
  else if negb (ts_Overlaps (visible_span_ v) (event_span event)) then (false, v)
  else if resolution_ps_ v =? 0 then (true, v)
  else VisibleAtResolution event v.

Definition SetVisibleAtResolution (event : TraceEvent) (v : TraceViewerVisibility) : TraceViewerVisibility :=
  if negb (has_resource_id event) then
    set_counters (<[CounterRowId event := ev_timestamp_ps event]> (last_counter_timestamp_ps_ v)) v
  else
    let span : T := event_span event in
    let row := default row_new (rows_ v !! RowId event) in
    let '(flows, row) :=
      match ev_flow_id event with
      | Some flow_id =>
          (if bool_decide (ev_flow_entry_type event = FLOW_END) then delete flow_id (flows_ v)
           else match flows_ v !! flow_id with Some _ => flows_ v | None => <[flow_id := true]> (flows_ v) end,
           SetLastFlowTimestampPs (end_ps span) row)
      | None => (flows_ v, row)
      end in
    let depth := Depth (begin_ps span) row in
    set_rows (<[RowId event := SetLastEndTimestampPs depth (end_ps span) row]> (rows_ v)) (set_flows flows v).

(** ** The filter *)

Record TraceVisibilityFilter := mk_vfilter {
  vf_full_dma : bool;
  vf_resolution : double;
  vf_visibility : TraceViewerVisibility;
  vf_tpu_noncore_devices : gset Z;
  vf_tpu_core_devices : gset Z
}.

(** [ResolutionPs]: [std::llround] rounds halves away from zero. *)
Definition vf_ResolutionPs (resolution : double) (duration_ps : Z) : Z :=
  if SFeqb resolution (S754_zero false) then 0
  else u64 (llround (ddiv (double_of_Z duration_ps) resolution)).

Definition vfilter_new (visible_span : T) (resolution : double) (full_dma : bool) : TraceVisibilityFilter :=
  mk_vfilter full_dma resolution
    (visibility_new visible_span (vf_ResolutionPs resolution (duration_ps visible_span))) ∅ ∅.

(** The names of planes that tsl's xplane_schema.h defines. *)
Context (kTpuPlanePrefix kTpuNonCorePlaneNamePrefix : bytes).

Definition IsTpuCoreDeviceName (device_name : bytes) : bool :=
  StrContains device_name kTpuPlanePrefix || StrContains device_name (str "TensorNode")
  || StrContains device_name (str "TPU Core").
Definition MaybeTpuHostInterfaceDeviceName (device_name : bytes) : bool :=
  StrContains device_name (str "Host Interface").
Definition IsTpuHbmDeviceName (device_name : bytes) : bool := StrContains device_name (str "HBM").
Definition IsTpuIciRouterDeviceName (device_name : bytes) : bool := StrContains device_name (str "ICI Router").
Definition MaybeTpuNonCoreDeviceName (device_name : bytes) : bool :=
  StrContains device_name kTpuNonCorePlaneNamePrefix
  && (MaybeTpuHostInterfaceDeviceName device_name || IsTpuHbmDeviceName device_name
      || IsTpuIciRouterDeviceName device_name).

(** The visible span narrowed to the bounds of the trace; an end of 0 means no bound. *)
Definition narrowed_span (trace : Trace) (visible_span : T) : T :=
  let start_time_ps := match tr_min_timestamp_ps trace with
                       | Some m => if begin_ps visible_span <? m then m else begin_ps visible_span
                       | None => begin_ps visible_span end in
  let end_time_ps := match tr_max_timestamp_ps trace with
                     | Some m => if (end_ps visible_span =? 0) || (m <? end_ps visible_span) then m
                                 else end_ps visible_span
                     | None => end_ps visible_span end in
  FromEndPoints start_time_ps end_time_ps.

Definition vf_SetUp (trace : Trace) (f : TraceVisibilityFilter) : TraceVisibilityFilter :=
  let visible_span := narrowed_span trace (visible_span_ (vf_visibility f)) in
  let core := dom (filter (fun p => IsTpuCoreDeviceName (dev_name p.2) = true) (tr_devices trace)) in
  let noncore := dom (filter (fun p => IsTpuCoreDeviceName (dev_name p.2) = false /\
                                       MaybeTpuNonCoreDeviceName (dev_name p.2) = true) (tr_devices trace)) in
  mk_vfilter (vf_full_dma f) (vf_resolution f)
    (visibility_new visible_span (vf_ResolutionPs (vf_resolution f) (duration_ps visible_span)))
    (vf_tpu_noncore_devices f ∪ noncore) (vf_tpu_core_devices f ∪ core).

Definition UpdateVisibility (resolution : double) (f : TraceVisibilityFilter) : TraceVisibilityFilter :=
  let span := visible_span_ (vf_visibility f) in
  mk_vfilter (vf_full_dma f) resolution
    (visibility_new span (vf_ResolutionPs resolution (duration_ps span)))
    (vf_tpu_noncore_devices f) (vf_tpu_core_devices f).

(** [Filter]: true if the event should not be added. *)
Definition vf_Filter (event : TraceEvent) (f : TraceVisibilityFilter) : bool * TraceVisibilityFilter :=
  if IsFlowMid event
     && (bool_decide (ev_device_id event ∈ vf_tpu_core_devices f)
         || bool_decide (ev_device_id event ∈ vf_tpu_noncore_devices f))
  then (negb (vf_full_dma f), f)
  else
    let '(visible, v) := Visible event (vf_visibility f) in
    (negb visible, mk_vfilter (vf_full_dma f) (vf_resolution f) v (vf_tpu_noncore_devices f) (vf_tpu_core_devices f)).
End visibility.
Arguments TraceViewerVisibility T : clear implicits.
Arguments TraceVisibilityFilter T : clear implicits.

(** ** What is dropped *)

Section dropping.
Context {T : Type} `{!Timespan T, !TimespanOps T}.
Implicit Types (v : TraceViewerVisibility T) (e : TraceEvent).

(** Times that fit 64 bits, as those of a trace do. *)
Definition ev_ok e : Prop :=
  0 <= ev_timestamp_ps e /\ 0 <= ev_duration_ps e /\ ev_timestamp_ps e + ev_duration_ps e < 2 ^ 64.

Lemma event_span_ok e : ev_ok e ->
  begin_ps (event_span e : T) = ev_timestamp_ps e /\ duration_ps (event_span e : T) = ev_duration_ps e /\
  end_ps (event_span e : T) = ev_timestamp_ps e + ev_duration_ps e /\ span_ok (event_span e : T).
Proof.
  intros (Ht & Hd & Hs). unfold event_span.
  assert (begin_ps (mk_span (ev_timestamp_ps e) (ev_duration_ps e) : T) = ev_timestamp_ps e) as Hb
    by (apply mk_span_begin; lia).
  assert (duration_ps (mk_span (ev_timestamp_ps e) (ev_duration_ps e) : T) = ev_duration_ps e) as Hd'
    by (apply mk_span_duration; lia).
  assert (span_ok (mk_span (ev_timestamp_ps e) (ev_duration_ps e) : T)) by (unfold span_ok; lia).
  split_and!; [done..| |done]. rewrite span_end by done. lia.
Qed.

Lemma ev_end_ok e : ev_ok e -> ev_end (T := T) e = ev_timestamp_ps e + ev_duration_ps e.
Proof. intros He. unfold ev_end. by destruct (event_span_ok e He) as (_ & _ & -> & _). Qed.

Lemma depth_loop_spec ends t :
  match ends !! depth_loop ends t with
  | Some x => x <= t
  | None => depth_loop ends t = length ends
  end /\ (depth_loop ends t <= length ends)%nat.
Proof.
  induction ends as [|x ends [IH1 IH2]]; simpl; [done|]. destruct (Z.leb_spec x t); simpl; [split; [done|lia]|].
  split; [|lia]. destruct (ends !! _); [done|]. by rewrite IH1.
Qed.

(** The stack after an event: some ends from before, and the event's. *)
Lemma SetLastEnd_spec t x row :
  let row' := SetLastEndTimestampPs (Depth t row) x row in
  last_end_timestamp_ps_ row' = take (Depth t row) (last_end_timestamp_ps_ row) ++ [x] /\
  last_flow_timestamp_ps_ row' = last_flow_timestamp_ps_ row.
Proof.
  unfold SetLastEndTimestampPs, Depth. simpl. destruct (depth_loop_spec (last_end_timestamp_ps_ row) t) as [_ Hl].
  split; [|done]. by rewrite (proj2 (Nat.sub_0_le _ _) Hl).
Qed.

(** The visibility of the parts. *)
Lemma flow_visible_true e id row r flows :
  let '(b, _, row') := flow_visible (T := T) e id true row r flows in
  b = true /\ last_end_timestamp_ps_ row' = last_end_timestamp_ps_ row.
Proof. unfold flow_visible. destruct (flows !! id); done. Qed.

Lemma flow_visible_ends e id b row r flows :
  last_end_timestamp_ps_ (flow_visible (T := T) e id b row r flows).2 = last_end_timestamp_ps_ row.
Proof. unfold flow_visible. destruct (flows !! id), b; simpl; by repeat (case_match; simpl). Qed.

(** An event with a resource that is at least as long as the resolution is visible. *)
Lemma long_event_visible e v :
  ev_ok e -> has_resource_id e = true -> resolution_ps_ v <= ev_duration_ps e ->
  (VisibleAtResolution e v).1 = true.
Proof.
  intros He Hr Hd. unfold VisibleAtResolution. rewrite Hr. simpl.
  destruct (event_span_ok e He) as (-> & -> & _ & _). rewrite (proj2 (Z.leb_le _ _)) by done. simpl.
  destruct (ev_flow_id e) as [id|]; [|done].
  pose proof (flow_visible_true e id (default row_new (rows_ v !! RowId e)) (resolution_ps_ v) (flows_ v)) as Hf.
  destruct (flow_visible _ _ _ _ _ _) as [[b fl] row]. by destruct Hf as [-> _].
Qed.

(** A sequence of events, with the answer for each. *)
Fixpoint visible_run (es : list TraceEvent) v : list (TraceEvent * bool) * TraceViewerVisibility T :=
  match es with
  | [] => ([], v)
  | e :: es' =>
      let '(b, v') := VisibleAtResolution e v in
      let '(rest, v'') := visible_run es' v' in ((e, b) :: rest, v'')
  end.

(** Everything a state remembers comes from an event that was visible. *)
Record remembers (hist : list (TraceEvent * bool)) v : Prop := {
  remembers_rows k row x : rows_ v !! k = Some row -> x ∈ last_end_timestamp_ps_ row ->
    exists e, (e, true) ∈ hist /\ has_resource_id e = true /\ RowId e = k /\ ev_end (T := T) e = x;
  remembers_counters k x : last_counter_timestamp_ps_ v !! k = Some x ->
    exists e, (e, true) ∈ hist /\ has_resource_id e = false /\ CounterRowId e = k /\ ev_timestamp_ps e = x
}.

(** An earlier visible event of the same row, less than the resolution away. *)
Definition close_to_visible (hist : list (TraceEvent * bool)) (r : Z) e : Prop :=
  if has_resource_id e then
    exists e', (e', true) ∈ hist /\ has_resource_id e' = true /\ RowId e' = RowId e /\
      0 <= ev_timestamp_ps e - ev_end (T := T) e' < r
  else
    exists e', (e', true) ∈ hist /\ has_resource_id e' = false /\ CounterRowId e' = CounterRowId e /\
      u64 (ev_timestamp_ps e - ev_timestamp_ps e') < r.

Lemma remembers_weaken hist p v : remembers hist v -> remembers (hist ++ [p]) v.
Proof.
  intros [Hr Hc]. split.
  - intros k row x Hk Hx. destruct (Hr k row x Hk Hx) as (e & ? & ?). exists e. split; [|done]. apply elem_of_app. by left.
  - intros k x Hk. destruct (Hc k x Hk) as (e & ? & ?). exists e. split; [|done]. apply elem_of_app. by left.
Qed.

(** One step: the memory stays faithful, and what is dropped is short and close to
    something visible. *)
Lemma visible_step hist e v :
  ev_ok e -> remembers hist v ->
  let '(b, v') := VisibleAtResolution e v in
  remembers (hist ++ [(e, b)]) v' /\ resolution_ps_ v' = resolution_ps_ v /\
  (b = false -> close_to_visible hist (resolution_ps_ v) e /\
     (has_resource_id e = true -> ev_duration_ps e < resolution_ps_ v)).
Proof.
  intros He Hrem. unfold VisibleAtResolution, close_to_visible.
  destruct (has_resource_id e) eqn:Hres; cbn [negb]; cbv zeta.
  - set (row := default row_new (rows_ v !! RowId e)).
    destruct (event_span_ok e He) as (Hb & Hd & Hend & _). rewrite Hb, Hd.
    assert (forall x, x ∈ last_end_timestamp_ps_ row -> exists e', (e', true) ∈ hist /\
      has_resource_id e' = true /\ RowId e' = RowId e /\ ev_end (T := T) e' = x) as Hrow.
    { unfold row. destruct (rows_ v !! RowId e) as [row'|] eqn:Hr; simpl; [by eauto using remembers_rows|].
      by intros x ?%not_elem_of_nil. }
    assert (forall x, LastEndTimestampPs (Depth (ev_timestamp_ps e) row) row = Some x ->
      x ∈ last_end_timestamp_ps_ row /\ x <= ev_timestamp_ps e) as Hdep.
    { unfold LastEndTimestampPs, Depth. intros x Hx. split; [by eapply list_elem_of_lookup_2|].
      destruct (depth_loop_spec (last_end_timestamp_ps_ row) (ev_timestamp_ps e)) as [Hd' _]. by rewrite Hx in Hd'. }
    set (vis := (resolution_ps_ v <=? ev_duration_ps e) || _).
    assert (vis = false -> (exists e', (e', true) ∈ hist /\ has_resource_id e' = true /\ RowId e' = RowId e /\
      0 <= ev_timestamp_ps e - ev_end (T := T) e' < resolution_ps_ v) /\ ev_duration_ps e < resolution_ps_ v) as Hvis.
    { unfold vis. intros [Hlong Hl]%orb_false_iff. apply Z.leb_gt in Hlong. split; [|done].
      fold row in Hl. destruct (LastEndTimestampPs _ row) as [x|]; [|done].
      apply Z.leb_gt in Hl. destruct (Hdep x eq_refl) as [Hin Hle]. destruct (Hrow x Hin) as (e' & ? & ? & ? & <-).
      exists e'. split_and!; [done..|lia|]. rewrite wrap_small in Hl; [done|].
      destruct He as (? & ? & ?). unfold ev_end in *.
      assert (0 <= end_ps (event_span e' : T)); [|lia]. rewrite end_ps_sum. apply wrap_range. lia. }
    destruct (match ev_flow_id e with
              | Some id => flow_visible e id vis row (resolution_ps_ v) (flows_ v)
              | None => (vis, flows_ v, row) end) as [[b fl] row'] eqn:Hfl.
    assert (last_end_timestamp_ps_ row' = last_end_timestamp_ps_ row /\ (vis = true -> b = true)) as [Hends Hbt].
    { destruct (ev_flow_id e) as [id|].
      - pose proof (flow_visible_ends e id vis row (resolution_ps_ v) (flows_ v)) as H1. rewrite Hfl in H1.
        split; [done|]. intros Hv. rewrite Hv in Hfl.
        pose proof (flow_visible_true e id row (resolution_ps_ v) (flows_ v)) as H2. rewrite Hfl in H2. by destruct H2.
      - by injection Hfl as <- <- <-. }
    split_and!; [|done|].
    + split; simpl.
      * intros k r x Hk Hx. apply lookup_insert_Some in Hk as [[<- <-]|[Hne Hk]].
        -- assert (x ∈ last_end_timestamp_ps_ row \/ (x = end_ps (event_span e : T) /\ b = true)) as [Hx'|[-> ->]].
           { destruct b; [|left; by rewrite <- Hends].
             assert (Depth (ev_timestamp_ps e) row' = Depth (ev_timestamp_ps e) row) as Hdd
               by (unfold Depth; by rewrite Hends).
             rewrite <- Hdd in Hx. rewrite (proj1 (SetLastEnd_spec _ _ row')), Hends in Hx.
             apply elem_of_app in Hx as [Hx| ->%list_elem_of_singleton]; [left|by right].
             apply elem_of_take in Hx as (i & Hi & _). by eapply list_elem_of_lookup_2. }
           ++ destruct (Hrow x Hx') as (e' & ? & ?). exists e'. split; [apply elem_of_app; by left|done].
           ++ exists e. split_and!; [apply elem_of_app; right; by left|done..].
        -- by eapply (remembers_rows _ _ (remembers_weaken _ (e, b) _ Hrem)).
      * apply (remembers_counters _ _ (remembers_weaken _ (e, b) _ Hrem)).
    + intros ->. destruct vis; [by discriminate Hbt|]. destruct Hvis as [? ?]; done.
  - unfold counter_visible.
    destruct (last_counter_timestamp_ps_ v !! CounterRowId e) as [x|] eqn:Hx.
    + destruct (remembers_counters _ _ Hrem _ _ Hx) as (e' & Hin & Hr & Hk & <-).
      destruct (Z.leb_spec (resolution_ps_ v) (u64 (ev_timestamp_ps e - ev_timestamp_ps e'))); simpl.
      * split_and!; [|done..]. split; simpl; [apply (remembers_rows _ _ (remembers_weaken _ (e, true) _ Hrem))|].
        intros k x [[<- <-]|[_ Hk']]%lookup_insert_Some.
        -- exists e. split_and!; [apply elem_of_app; right; by left|done..].
        -- by apply (remembers_counters _ _ (remembers_weaken _ (e, true) _ Hrem)).
      * split_and!; [by apply remembers_weaken|done|]. intros _. split; [eauto 10|done].
    + simpl. split_and!; [|done..]. split; simpl; [apply (remembers_rows _ _ (remembers_weaken _ (e, true) _ Hrem))|].
      intros k x [[<- <-]|[_ Hk']]%lookup_insert_Some.
      -- exists e. split_and!; [apply elem_of_app; right; by left|done..].
      -- by apply (remembers_counters _ _ (remembers_weaken _ (e, true) _ Hrem)).
Qed.

Lemma visible_run_spec es hist v :
  Forall ev_ok es -> remembers hist v ->
  let '(run, v') := visible_run es v in
  run.*1 = es /\
  forall h1 e h2, run = h1 ++ (e, false) :: h2 ->
    close_to_visible (hist ++ h1) (resolution_ps_ v) e /\
    (has_resource_id e = true -> ev_duration_ps e < resolution_ps_ v).
Proof.
  intros Hes. revert hist v. induction Hes as [|e es He _ IH]; intros hist v Hrem; simpl.
  { split; [done|]. by intros [|??] ??. }
  pose proof (visible_step hist e v He Hrem) as Hstep. destruct (VisibleAtResolution e v) as [b v'].
  destruct Hstep as (Hrem' & Hres & Hdrop). specialize (IH _ _ Hrem'). destruct (visible_run es v') as [run v''].
  destruct IH as [<- IH]. split; [done|]. intros [|p h1] e' h2 Heq; simplify_eq/=.
  - rewrite app_nil_r. by apply Hdrop.
  - rewrite (cons_middle _ hist h1), app_assoc, <- Hres. by eapply IH.
Qed.

(** C25. Downsampling drops no event that could be told apart: for any sequence of events,
    one that is dropped has, earlier in the sequence, a visible event of its row less
    than the resolution away (for an event with a resource, one that ended before it
    began), and is itself shorter than the resolution unless it is a counter. *)
Theorem dropped_events_close es (span : T) r :
  Forall ev_ok es ->
  let run := (visible_run es (visibility_new span r)).1 in
  run.*1 = es /\
  forall h1 e h2, run = h1 ++ (e, false) :: h2 ->
    close_to_visible h1 r e /\ (has_resource_id e = true -> ev_duration_ps e < r).
Proof.
  intros Hes run. pose proof (visible_run_spec es [] (visibility_new span r) Hes) as H.
  subst run. destruct (visible_run es _) as [run v']. apply H. split; simpl.
  - intros k row x Hk. by rewrite lookup_empty in Hk.
  - intros k x Hk. by rewrite lookup_empty in Hk.
Qed.

(** ** Flows *)

(** The event ends the flow. *)
Definition ends_flow (id : Z) e : bool :=
  bool_decide (ev_flow_id e = Some id) && bool_decide (ev_flow_entry_type e = FLOW_END).

Lemma VisibleAtResolution_keeps_flow e v id :
  flows_ v !! id = Some true -> ends_flow id e = false ->
  flows_ (VisibleAtResolution e v).2 !! id = Some true.
Proof.
  intros Hid He. unfold VisibleAtResolution. destruct (has_resource_id e); simpl.
  2:{ unfold counter_visible. by repeat case_match. }
  destruct (ev_flow_id e) as [id'|] eqn:Hfl; simpl; [|done]. unfold flow_visible.
  unfold ends_flow in He. rewrite Hfl in He.
  destruct (decide (id' = id)) as [->|Hne].
  - rewrite Hid. rewrite bool_decide_eq_true_2 in He by done. simpl in He. rewrite He. rewrite andb_false_r.
    simpl. by rewrite lookup_insert_eq.
  - destruct (match flows_ v !! id' with Some b => _ | None => _ end) as [value inserted].
    simpl. destruct (bool_decide (ev_flow_entry_type e = FLOW_END)); simpl.
    + by rewrite lookup_delete_ne.
    + by rewrite lookup_insert_ne.
Qed.

Lemma known_flow_visible e v id :
  has_resource_id e = true -> ev_flow_id e = Some id -> flows_ v !! id = Some true ->
  (VisibleAtResolution e v).1 = true.
Proof.
  intros Hr Hf Hid. unfold VisibleAtResolution. rewrite Hr, Hf. simpl. unfold flow_visible. rewrite Hid.
  rewrite andb_false_r. by destruct (_ || _).
Qed.

Lemma first_flow_event e v id :
  has_resource_id e = true -> ev_flow_id e = Some id -> flows_ v !! id = None ->
  ev_flow_entry_type e <> FLOW_END -> (VisibleAtResolution e v).1 = true ->
  flows_ (VisibleAtResolution e v).2 !! id = Some true.
Proof.
  intros Hr Hf Hid Hend. unfold VisibleAtResolution. rewrite Hr, Hf. simpl. unfold flow_visible. rewrite Hid.
  rewrite bool_decide_eq_false_2 by done. set (vis := _ || _). rewrite andb_true_r. simpl.
  rewrite lookup_insert_eq. by destruct vis; simpl; intros; f_equal.
Qed.

(** The visibility of a flow is decided by its first event: when that is visible, every
    later event of the flow is, up to the one that ends it, whatever comes between. *)
Theorem flow_follows_first first es e v id :
  has_resource_id first = true -> ev_flow_id first = Some id -> flows_ v !! id = None ->
  ev_flow_entry_type first <> FLOW_END -> Forall (fun x => ends_flow id x = false) es ->
  has_resource_id e = true -> ev_flow_id e = Some id ->
  (VisibleAtResolution first v).1 = true ->
  let v' := (visible_run es (VisibleAtResolution first v).2).2 in
  (VisibleAtResolution e v').1 = true.
Proof.
  intros Hr Hf Hid Hend Hes Hre Hfe Hvis v'. apply (known_flow_visible e v' id); [done..|]. subst v'.
  pose proof (first_flow_event first v id Hr Hf Hid Hend Hvis) as Hk. clear Hvis.
  revert Hk. generalize (VisibleAtResolution first v).2. clear v Hid.
  induction Hes as [|x es Hx _ IH]; intros v Hk; simpl; [done|].
  pose proof (VisibleAtResolution_keeps_flow x v id Hk Hx) as Hk'.
  destruct (VisibleAtResolution x v) as [b v1]. simpl in Hk'. specialize (IH v1 Hk').
  by destruct (visible_run es v1).
Qed.
End dropping.

(** ** Witnesses *)

Definition sample_event (ts dur : Z) (flow : option Z) (ty : FlowEntryType) : TraceEvent :=
  mk_event 1 (Some 2) (Name []) None ts dur None flow ty None None.

Lemma dropped_events_close_witness :
  let es := [sample_event 0 5 None FLOW_NONE; sample_event 8 1 None FLOW_NONE; sample_event 100 1 None FLOW_NONE] in
  Forall ev_ok es /\
  (visible_run es (visibility_new ((0, 1000) : pair_span) 10)).1.*1 = es /\
  close_to_visible (T := pair_span) [(sample_event 0 5 None FLOW_NONE, true)] 10 (sample_event 8 1 None FLOW_NONE).
Proof.
  intros es. assert (Forall ev_ok es) as Hes by (repeat constructor; simpl; lia).
  split; [done|]. destruct (dropped_events_close es ((0, 1000) : pair_span) 10 Hes) as [H1 H2].
  split; [done|]. by apply (H2 [(sample_event 0 5 None FLOW_NONE, true)] (sample_event 8 1 None FLOW_NONE)
    [(sample_event 100 1 None FLOW_NONE, true)]).
Defined.

Lemma flow_follows_first_witness :
  let v := visibility_new ((0, 1000) : pair_span) 10 in
  let first := sample_event 0 1 (Some 7) FLOW_START in
  let between := [sample_event 3 1 None FLOW_NONE] in
  (VisibleAtResolution (sample_event 5 1 (Some 7) FLOW_MID) (visible_run between (VisibleAtResolution first v).2).2).1
  = true.
Proof.
  intros v first between. apply (flow_follows_first first between _ v 7); try done. by repeat constructor.
Defined.
