(* ===== verification/TraceLevels.v ===== *)
(** Zoom levels (xprof/convert/trace_viewer/trace_events.cc): every event of a trace is put at
    the first level at whose resolution it can be told apart, flow events at one level for
    the whole flow. Events are pointers into an arena. *)
From Stdlib Require Import ZArith Lia.
From stdpp Require Import base list gmap sorting.
From S2P Require Import Prelude Timespan LevelDb NwayMerge TraceEvent Visibility.
Local Open Scope Z_scope.

Section levels.
Context {T : Type} `{!Timespan T, !TimespanOps T, !MakeHeap}.

(** What a pointer points to. *)
Context (ev : nat -> TraceEvent).

Abbreviation TraceEventTrack := (list nat).
Definition ptr_cmp (p q : nat) : bool := TraceEventsComparator (ev p) (ev q).

Definition NumEvents (event_tracks : list TraceEventTrack) : Z :=
  foldl (fun n track => s32 (n + Z.of_nat (length track))) 0 event_tracks.

Definition MergeEventTracks (event_tracks : list TraceEventTrack) : option (list nat) :=
  nway_merge ptr_cmp event_tracks.

Definition nonempty (l : list nat) : Prop := l <> [].
#[local] Instance nonempty_dec l : Decision (nonempty l).
Proof. unfold nonempty. apply _. Defined.

Definition ExtractFlowEventsParallel (event_tracks : list TraceEventTrack) : option (list nat) :=
  let track_flow_events := filter (fun p => has_flow_id (ev p) = true) <$> event_tracks in
  nway_merge ptr_cmp (filter nonempty track_flow_events).

(** The visibilities of all levels but the last. *)
Definition visibilities (trace_span : T) : list (TraceViewerVisibility T) :=
  (fun zoom_level => visibility_new trace_span (LayerResolutionPs zoom_level)) <$> seq 0 (NumLevels - 1).

Definition try_emplace (id : Z) (b : bool) (m : gmap Z bool) : gmap Z bool :=
  match m !! id with Some _ => m | None => <[id := b]> m end.

(** One flow event at the levels from some level on. *)
Fixpoint flow_event_levels (e : TraceEvent) (levels : list (TraceViewerVisibility T * gmap Z bool)) :
    list (TraceViewerVisibility T * gmap Z bool) :=
  match levels with
  | [] => []
  | (v, m) :: levels' =>
      let id := default 0 (ev_flow_id e) in
      let '(visible, v') := VisibleAtResolution e v in
      (v', try_emplace id visible m) ::
      (if visible
       then map (fun '(v, m) => (SetVisibleAtResolution e v, try_emplace id true m)) levels'
       else flow_event_levels e levels')
  end.

Definition CalculateFlowVisibility (flow_events : list nat) (trace_span : T) : list (gmap Z bool) :=
  (foldl (fun levels p => flow_event_levels (ev p) levels) ((fun v => (v, ∅)) <$> visibilities trace_span)
     flow_events).*2 ++ [∅].

(** The level of a flow event: the first at which its flow is visible or that it is long
    enough for. *)
Fixpoint flow_level (zoom_level : nat) (flow_visibility : list (gmap Z bool)) (id duration : Z) : nat :=
  match flow_visibility with
  | [] => zoom_level
  | m :: flow_visibility' =>
      if bool_decide (m !! id = Some true) || (LayerResolutionPs zoom_level <=? duration) then zoom_level
      else flow_level (S zoom_level) flow_visibility' id duration
  end.

(** The level of another event, and the visibilities that know of it. *)
Fixpoint visible_level (e : TraceEvent) (vs : list (TraceViewerVisibility T)) :
    nat * list (TraceViewerVisibility T) :=
  match vs with
  | [] => (0%nat, [])
  | v :: vs' =>
      let '(visible, v') := VisibleAtResolution e v in
      if visible then (0%nat, v' :: (SetVisibleAtResolution e <$> vs'))
      else let '(z, vs'') := visible_level e vs' in (S z, v' :: vs'')
  end.

Definition event_level (flow_visibility : list (gmap Z bool)) (e : TraceEvent)
    (vs : list (TraceViewerVisibility T)) : nat * list (TraceViewerVisibility T) :=
  match ev_flow_id e with
  | Some id =>
      let z := flow_level 0 (take (NumLevels - 1) flow_visibility) id (ev_duration_ps e) in
      (z, take z vs ++ (SetVisibleAtResolution e <$> drop z vs))
  | None => visible_level e vs
  end.

(** The events of a track, level by level. *)
Fixpoint track_loop (flow_visibility : list (gmap Z bool)) (track : TraceEventTrack)
    (vs : list (TraceViewerVisibility T)) (by_level : list (list nat)) : list (list nat) :=
  match track with
  | [] => by_level
  | p :: track' =>
      let '(z, vs') := event_level flow_visibility (ev p) vs in
      track_loop flow_visibility track' vs' (alter (fun l => l ++ [p]) z by_level)
  end.

Definition ProcessTrackEventsParallel (event_tracks : list TraceEventTrack)
    (flow_visibility : list (gmap Z bool)) (trace_span : T) : list (list (list nat)) :=
  (fun track => track_loop flow_visibility track (visibilities trace_span) (replicate NumLevels [])) <$> event_tracks.

Definition GetEventsByLevel (trace : Trace) (event_tracks : list TraceEventTrack) : option (list (list nat)) :=
  flow_events ← ExtractFlowEventsParallel event_tracks;
  let flow_visibility := CalculateFlowVisibility flow_events (TraceSpan trace) in
  let track_events := ProcessTrackEventsParallel event_tracks flow_visibility (TraceSpan trace) in
  mapM (fun zoom_level => nway_merge ptr_cmp (filter nonempty ((fun t => t !!! zoom_level) <$> track_events)))
    (seq 0 NumLevels).

(** ** One track *)

Lemma ptr_cmp_sw : StrictWeak ptr_cmp.
Proof. apply (StrictWeak_on ev), _. Qed.

Lemma length_flow_event_levels e levels : length (flow_event_levels e levels) = length levels.
Proof.
  induction levels as [|[v m] levels IH]; simpl; [done|]. destruct (VisibleAtResolution e v) as [[] v']; simpl.
  - by rewrite length_map.
  - by rewrite IH.
Qed.

Lemma length_visibilities span : length (visibilities span) = (NumLevels - 1)%nat.
Proof. done. Qed.

Lemma length_CalculateFlowVisibility fes span : length (CalculateFlowVisibility fes span) = NumLevels.
Proof.
  unfold CalculateFlowVisibility. rewrite length_app, length_fmap.
  assert (forall levels, length levels = (NumLevels - 1)%nat ->
    length (foldl (fun levels p => flow_event_levels (ev p) levels) levels fes) = (NumLevels - 1)%nat) as ->; [|done..].
  induction fes as [|p fes IH]; intros levels Hl; simpl; [done|]. apply IH. by rewrite length_flow_event_levels.
Qed.

(** A level is at most the number of visibilities, which do not change in number. *)
Lemma flow_level_le z fvs id d : (z <= flow_level z fvs id d <= z + length fvs)%nat.
Proof.
  revert z. induction fvs as [|m fvs IH]; intros z; simpl; [lia|]. destruct (_ || _); [lia|].
  specialize (IH (S z)). lia.
Qed.

Lemma visible_level_le e vs :
  let '(z, vs') := visible_level e vs in (z <= length vs)%nat /\ length vs' = length vs.
Proof.
  induction vs as [|v vs IH]; simpl; [done|]. destruct (VisibleAtResolution e v) as [[] v'].
  - simpl. rewrite length_fmap. lia.
  - destruct (visible_level e vs) as [z vs']. simpl. lia.
Qed.

Lemma event_level_le fvs e vs :
  length fvs = NumLevels -> length vs = (NumLevels - 1)%nat ->
  let '(z, vs') := event_level fvs e vs in (z < NumLevels)%nat /\ length vs' = (NumLevels - 1)%nat.
Proof.
  intros Hf Hv. unfold event_level. destruct (ev_flow_id e) as [id|].
  - pose proof (flow_level_le 0 (take (NumLevels - 1) fvs) id (ev_duration_ps e)) as Hl.
    rewrite length_take, Hf in Hl. set (z := flow_level _ _ _ _) in *.
    rewrite length_app, length_fmap, length_take, length_drop, Hv. unfold NumLevels in *. simpl in *. lia.
  - pose proof (visible_level_le e vs) as Hl. destruct (visible_level e vs) as [z vs'].
    unfold NumLevels in *. simpl in *. lia.
Qed.

Lemma concat_alter z (p : nat) (ll : list (list nat)) :
  (z < length ll)%nat -> concat (alter (fun l => l ++ [p]) z ll) ≡ₚ concat ll ++ [p].
Proof.
  revert z. induction ll as [|l ll IH]; intros [|z] Hz; simpl in *; try lia.
  - rewrite <- !app_assoc. apply Permutation_app_head, Permutation_app_comm.
  - etransitivity; [apply Permutation_app_head, (IH z); lia|]. by rewrite app_assoc.
Qed.

Lemma Forall_alter {A} (P Q : A -> Prop) (f : A -> A) i l :
  Forall P l -> (forall x, P x -> Q x) -> (forall x, P x -> Q (f x)) -> Forall Q (alter f i l).
Proof.
  intros Hl HPQ HPf. apply Forall_lookup. intros j y Hy. rewrite Forall_lookup in Hl.
  destruct (decide (i = j)) as [->|].
  - rewrite list_lookup_alter_eq in Hy. apply fmap_Some in Hy as (x & Hx & ->). eauto.
  - rewrite list_lookup_alter_ne in Hy by done. eauto.
Qed.

(** The loop distributes the track over the levels and keeps its order at each. *)
Lemma track_loop_spec fvs track vs by_level done_ :
  length fvs = NumLevels -> length vs = (NumLevels - 1)%nat -> length by_level = NumLevels ->
  concat by_level ≡ₚ done_ -> Forall (fun l => l `sublist_of` done_) by_level ->
  let r := track_loop fvs track vs by_level in
  length r = NumLevels /\ concat r ≡ₚ done_ ++ track /\ Forall (fun l => l `sublist_of` (done_ ++ track)) r.
Proof.
  intros Hf. revert vs by_level done_. induction track as [|p track IH]; intros vs bl dn Hv Hb Hp Hs; cbn [track_loop].
  { by rewrite app_nil_r. }
  pose proof (event_level_le fvs (ev p) vs Hf Hv) as Hz. destruct (event_level fvs (ev p) vs) as [z vs'].
  destruct Hz as [Hz Hv']. rewrite (cons_middle p dn track), app_assoc. apply IH; [done|by rewrite length_alter| |].
  - rewrite concat_alter by lia. by rewrite Hp.
  - eapply Forall_alter; [exact Hs|..]; simpl; intros l Hl; [by apply sublist_inserts_r|by apply sublist_app].
Qed.

(** Lists picked out of a sorted one are sorted. *)
Lemma sublist_sorted {A} (R : relation A) (l k : list A) :
  l `sublist_of` k -> StronglySorted R k -> StronglySorted R l.
Proof.
  induction 1 as [|x l k Hs IH|x l k Hs IH]; intros Hk; [constructor|..];
    apply StronglySorted_inv in Hk as [Hk Hall]; [|by apply IH].
  constructor; [by apply IH|]. rewrite Forall_forall in *. intros y Hy. apply Hall.
  by eapply elem_of_sublist.
Qed.

(** ** All tracks *)

Lemma concat_transpose {B} (tl : list (list (list B))) (zs : list nat) :
  concat ((fun z => concat ((fun t => t !!! z) <$> tl)) <$> zs) ≡ₚ
  concat ((fun t => concat ((fun z => t !!! z) <$> zs)) <$> tl).
Proof.
  induction tl as [|t tl IH]; csimpl.
  - induction zs as [|z zs IHz]; csimpl; done.
  - rewrite <- IH. clear IH. induction zs as [|z zs IHz]; csimpl; [done|]. rewrite IHz.
    rewrite <- !app_assoc. apply Permutation_app_head. rewrite !app_assoc. apply Permutation_app_tail, Permutation_app_comm.
Qed.

Lemma seq_total_lookup {B} (t : list (list B)) n : length t = n -> (fun z => t !!! z) <$> seq 0 n = t.
Proof.
  intros <-. apply list_eq. intros i. rewrite list_lookup_fmap. destruct (decide (i < length t)%nat) as [Hi|Hi].
  - rewrite lookup_seq_lt by done. simpl. by rewrite list_lookup_lookup_total_lt.
  - rewrite lookup_seq_ge by lia. symmetry. apply lookup_ge_None. lia.
Qed.

Lemma concat_filter_nonempty (ll : list (list nat)) : concat (filter nonempty ll) = concat ll.
Proof.
  induction ll as [|l ll IH]; [done|]. rewrite filter_cons. case_decide as Hl; simpl; rewrite IH; [done|].
  unfold nonempty in Hl. by destruct l; [|destruct Hl].
Qed.

(** What a track has at each level. *)
Definition levels_of_track (trace : Trace) (fes : list nat) (track : TraceEventTrack) : list (list nat) :=
  track_loop (CalculateFlowVisibility fes (TraceSpan trace)) track (visibilities (TraceSpan trace))
    (replicate NumLevels []).

Lemma levels_of_track_spec trace fes track :
  let t := levels_of_track trace fes track in
  length t = NumLevels /\ concat t ≡ₚ track /\ forall z, t !!! z `sublist_of` track.
Proof.
  destruct (track_loop_spec (CalculateFlowVisibility fes (TraceSpan trace)) track (visibilities (TraceSpan trace))
    (replicate NumLevels []) []) as (Hl & Hc & Hs).
  - apply length_CalculateFlowVisibility.
  - done.
  - done.
  - done.
  - by apply Forall_replicate.
  - split_and!; [done..|]. intros z. destruct (decide (z < NumLevels)%nat).
    + rewrite Forall_forall in Hs. apply Hs. apply list_elem_of_lookup_total_2. by rewrite Hl.
    + rewrite list_lookup_total_alt, lookup_ge_None_2; [apply sublist_nil_l|].
      unfold levels_of_track. rewrite Hl. lia.
Qed.

(** A level of the result is a merge of what the tracks have at it. *)
Definition level_merge (trace : Trace) (tracks : list TraceEventTrack) (fes : list nat) (z : nat) (l : list nat) : Prop :=
  l ≡ₚ concat ((fun t => levels_of_track trace fes t !!! z) <$> tracks) /\
  Forall (fun t => levels_of_track trace fes t !!! z `sublist_of` l) tracks /\
  (Forall (StronglySorted (not_after ptr_cmp)) tracks -> StronglySorted (not_after ptr_cmp) l).

Lemma GetEventsByLevel_levels trace tracks :
  exists fes lv, ExtractFlowEventsParallel tracks = Some fes /\ GetEventsByLevel trace tracks = Some lv /\
    length lv = NumLevels /\ forall z l, lv !! z = Some l -> level_merge trace tracks fes z l.
Proof.
  pose proof ptr_cmp_sw as Hsw. unfold GetEventsByLevel.
  destruct (nway_merge_spec ptr_cmp (filter nonempty ((filter (fun p => has_flow_id (ev p) = true)) <$> tracks)))
    as (fes & Hfes & _). unfold ExtractFlowEventsParallel at 2. cbv zeta. rewrite Hfes. simpl.
  set (te := ProcessTrackEventsParallel tracks (CalculateFlowVisibility fes (TraceSpan trace)) (TraceSpan trace)).
  set (g := fun z => nway_merge ptr_cmp (filter nonempty ((fun t => t !!! z) <$> te))).
  assert (forall z, exists l, g z = Some l /\ level_merge trace tracks fes z l) as Hg.
  { intros z. unfold g.
    set (parts := (fun t => t !!! z) <$> te).
    assert (parts = (fun t => levels_of_track trace fes t !!! z) <$> tracks) as Hparts
      by (unfold parts, te, ProcessTrackEventsParallel; by rewrite <- list_fmap_compose).
    destruct (nway_merge_spec ptr_cmp (filter nonempty parts)) as (l & Hl & Hp & Hsub & Hsort).
    exists l. split; [done|]. rewrite concat_filter_nonempty, Hparts in Hp. split_and!; [done| |].
    - apply Forall_forall. intros t Ht. destruct (decide (nonempty (levels_of_track trace fes t !!! z))) as [Hn|Hn].
      + rewrite Forall_forall in Hsub. apply Hsub, list_elem_of_filter. split; [done|]. rewrite Hparts.
        apply list_elem_of_fmap. by exists t.
      + assert (levels_of_track trace fes t !!! z = []) as ->; [|apply sublist_nil_l].
        unfold nonempty in Hn. by destruct (_ !!! z) as [|??]; [|destruct Hn].
    - intros Hall. apply Hsort. apply Forall_forall. intros k [_ Hk]%list_elem_of_filter. rewrite Hparts in Hk.
      apply list_elem_of_fmap in Hk as (t & -> & Ht). rewrite Forall_forall in Hall.
      destruct (levels_of_track_spec trace fes t) as (_ & _ & Hsu). by eapply sublist_sorted; [apply Hsu|auto]. }
  assert (exists lv, mapM g (seq 0 NumLevels) = Some lv) as [lv Hlv].
  { clear -Hg. induction (seq 0 NumLevels) as [|z zs [lv IH]]; [by eexists|].
    destruct (Hg z) as (l & Hl & _). exists (l :: lv). simpl. by rewrite Hl, IH. }
  exists fes, lv. split_and!; [done..| |].
  - apply mapM_Some, Forall2_length in Hlv. by rewrite length_seq in Hlv.
  - intros z l Hz. apply mapM_Some in Hlv. destruct (Forall2_lookup_r _ _ _ _ _ Hlv Hz) as (z' & Hz' & Hgz).
    apply lookup_seq in Hz' as [-> _]. simpl in *. destruct (Hg z) as (l' & Hl' & Hm).
    rewrite Hl' in Hgz. by injection Hgz as <-.
Qed.

(** Every event of the tracks appears at exactly one level, and each level is in order
    when the tracks are. *)
Lemma levels_partition trace tracks fes lv :
  length lv = NumLevels -> (forall z l, lv !! z = Some l -> level_merge trace tracks fes z l) ->
  concat lv ≡ₚ concat tracks.
Proof.
  intros Hlen Hlv. transitivity (concat ((fun z => concat ((fun t => t !!! z) <$> (levels_of_track trace fes <$> tracks)))
    <$> seq 0 NumLevels)).
  - rewrite <- Hlen. clear Hlen. assert (forall i l, lv !! i = Some l ->
      l ≡ₚ concat ((fun t => t !!! (0 + i)%nat) <$> (levels_of_track trace fes <$> tracks))) as Hi'.
    { intros i l Hi. rewrite <- list_fmap_compose. by apply Hlv. }
    clear Hlv. revert Hi'. generalize 0%nat. induction lv as [|l lv IH]; intros n Hi'; [done|]. csimpl.
    rewrite (IH (S n)).
    + apply Permutation_app_tail. rewrite (Hi' 0%nat l) by done. by rewrite Nat.add_0_r.
    + intros i k Hi. rewrite (Hi' (S i) k) by done. by rewrite Nat.add_succ_r.
  - rewrite concat_transpose. clear. induction tracks as [|t tracks IH]; [done|].
    rewrite !fmap_cons. cbn [concat]. rewrite IH. destruct (levels_of_track_spec trace fes t) as (Hl & Hc & _). rewrite seq_total_lookup by done. by rewrite Hc.
Qed.

(** C33. [GetEventsByLevel] returns; every event of the tracks is at exactly one of the
    levels, and when the tracks are sorted so is each level. *)
Theorem events_by_level_partition trace tracks :
  exists lv, GetEventsByLevel trace tracks = Some lv /\ length lv = NumLevels /\
    concat lv ≡ₚ concat tracks /\
    (Forall (StronglySorted (not_after ptr_cmp)) tracks -> Forall (StronglySorted (not_after ptr_cmp)) lv).
Proof.
  destruct (GetEventsByLevel_levels trace tracks) as (fes & lv & _ & Hlv & Hlen & Hm).
  exists lv. split_and!; [done..|by eapply levels_partition|]. intros Hs. apply Forall_lookup. intros z l Hz.
  by apply (Hm z l Hz).
Qed.

(** ** Durations at a level *)

Lemma VisibleAtResolution_resolution e (v : TraceViewerVisibility T) :
  resolution_ps_ (VisibleAtResolution e v).2 = resolution_ps_ v.
Proof.
  unfold VisibleAtResolution, counter_visible. destruct (negb (has_resource_id e)); simpl; [by repeat case_match|].
  destruct (ev_flow_id e); [|done]. by destruct (flow_visible _ _ _ _ _ _) as [[??]?].
Qed.

Lemma SetVisibleAtResolution_resolution e (v : TraceViewerVisibility T) :
  resolution_ps_ (SetVisibleAtResolution e v) = resolution_ps_ v.
Proof. unfold SetVisibleAtResolution. destruct (negb (has_resource_id e)); [done|]. by destruct (ev_flow_id e). Qed.

(** An event whose duration counts: all but counters. *)
Definition measured (e : TraceEvent) : bool := has_resource_id e || has_flow_id e.

(** No longer than the resolution of the level before. *)
Definition level_bound (z : nat) (e : TraceEvent) : Prop :=
  match z with O => True | S z' => ev_duration_ps e < LayerResolutionPs z' end.

Lemma flow_level_bound z fvs id d :
  (flow_level z fvs id d <= z)%nat \/ d < LayerResolutionPs (flow_level z fvs id d - 1).
Proof.
  revert z. induction fvs as [|m fvs IH]; intros z; simpl; [left; lia|].
  destruct (bool_decide (m !! id = Some true) || (LayerResolutionPs z <=? d)) eqn:Hm; [left; lia|].
  apply orb_false_iff in Hm as [_ Hm%Z.leb_gt]. pose proof (flow_level_le (S z) fvs id d) as Hle.
  destruct (IH (S z)) as [Hz|Hz]; [|by right]. right.
  by replace (flow_level (S z) fvs id d - 1)%nat with z by lia.
Qed.

Lemma visible_level_bound e vs z0 :
  ev_ok e -> has_resource_id e = true -> resolution_ps_ <$> vs = LayerResolutionPs <$> seq z0 (length vs) ->
  let z := (visible_level e vs).1 in
  z = 0%nat \/ ev_duration_ps e < LayerResolutionPs (z0 + z - 1).
Proof.
  intros He Hr. revert z0. induction vs as [|v vs IH]; intros z0 Hvs; [by left|].
  cbn [length seq] in Hvs. rewrite !fmap_cons in Hvs. injection Hvs as Hv Hvs.
  pose proof (long_event_visible e v He Hr) as Hlong. cbn [visible_level].
  destruct (VisibleAtResolution e v) as [[] v']; [by left|right].
  specialize (IH (S z0) Hvs). destruct (visible_level e vs) as [z vs']. simpl in *. destruct IH as [->|Hz].
  - replace (z0 + 1 - 1)%nat with z0 by lia. destruct (decide (ev_duration_ps e < LayerResolutionPs z0)); [done|].
    rewrite Hv in Hlong. discriminate Hlong. lia.
  - by replace (z0 + S z - 1)%nat with (S z0 + z - 1)%nat by lia.
Qed.

Lemma visible_level_resolutions e vs :
  resolution_ps_ <$> (visible_level e vs).2 = resolution_ps_ <$> vs.
Proof.
  induction vs as [|v vs IH]; [done|]. pose proof (VisibleAtResolution_resolution e v) as Hres.
  cbn [visible_level]. destruct (VisibleAtResolution e v) as [[] v']; cbn [snd] in *; rewrite fmap_cons.
  - rewrite fmap_cons, Hres, <- list_fmap_compose. f_equal. apply list_fmap_ext. intros ? x _. apply SetVisibleAtResolution_resolution.
  - destruct (visible_level e vs) as [z vs']. cbn [snd] in *. by rewrite fmap_cons, Hres, IH.
Qed.

Lemma event_level_bound fvs e vs :
  ev_ok e -> resolution_ps_ <$> vs = LayerResolutionPs <$> seq 0 (NumLevels - 1) ->
  let '(z, vs') := event_level fvs e vs in
  (measured e = true -> level_bound z e) /\ resolution_ps_ <$> vs' = resolution_ps_ <$> vs.
Proof.
  intros He Hvs. assert (length vs = (NumLevels - 1)%nat) as Hlen
    by (apply (f_equal length) in Hvs; by rewrite !length_fmap in Hvs).
  unfold event_level, measured, has_flow_id. destruct (ev_flow_id e) as [id|]; simpl.
  - split.
    + intros _. pose proof (flow_level_bound 0 (take (NumLevels - 1) fvs) id (ev_duration_ps e)) as Hb.
      set (z := flow_level _ _ _ _) in *. destruct z as [|z]; [done|]. simpl.
      destruct Hb as [?|Hb]; [lia|]. by replace (S z - 1)%nat with z in Hb by lia.
    + set (z := flow_level _ _ _ _). rewrite fmap_app, <- list_fmap_compose. rewrite <- (take_drop z vs) at 3.
      rewrite fmap_app. f_equal. apply list_fmap_ext. intros ? x _. apply SetVisibleAtResolution_resolution.
  - rewrite orb_false_r. pose proof (visible_level_resolutions e vs) as Hr.
    pose proof (visible_level_bound e vs 0 He) as Hb. rewrite Hlen in Hb.
    destruct (visible_level e vs) as [z vs']. cbn [fst snd] in *. split; [|done]. intros Hres.
    destruct (Hb Hres Hvs) as [->|Hd]; [done|]. destruct z as [|z]; [done|].
    simpl. by replace (0 + S z - 1)%nat with z in Hd by lia.
Qed.

Lemma track_loop_bound fvs track vs by_level :
  Forall (fun p => ev_ok (ev p)) track ->
  resolution_ps_ <$> vs = LayerResolutionPs <$> seq 0 (NumLevels - 1) ->
  (forall z l p, by_level !! z = Some l -> p ∈ l -> measured (ev p) = true -> level_bound z (ev p)) ->
  forall z l p, track_loop fvs track vs by_level !! z = Some l -> p ∈ l -> measured (ev p) = true -> level_bound z (ev p).
Proof.
  intros Hok. revert vs by_level. induction Hok as [|p track Hp _ IH]; intros vs bl Hvs Hbl; cbn [track_loop]; [done|].
  pose proof (event_level_bound fvs (ev p) vs Hp Hvs) as Hb. destruct (event_level fvs (ev p) vs) as [z vs'].
  destruct Hb as [Hb Hvs']. apply IH; [by rewrite Hvs'|]. intros z' l q Hl Hq Hm.
  destruct (decide (z = z')) as [->|].
  - rewrite list_lookup_alter_eq in Hl. apply fmap_Some in Hl as (l' & Hl' & ->).
    apply elem_of_app in Hq as [Hq| ->%list_elem_of_singleton]; [by eapply Hbl|by apply Hb].
  - rewrite list_lookup_alter_ne in Hl by done. by eapply Hbl.
Qed.

Lemma levels_of_track_bound trace fes track z p :
  Forall (fun p => ev_ok (ev p)) track -> p ∈ levels_of_track trace fes track !!! z ->
  measured (ev p) = true -> level_bound z (ev p).
Proof.
  intros Hok Hp Hm. destruct (levels_of_track_spec trace fes track) as (Hlen & _ & _).
  destruct (levels_of_track trace fes track !! z) as [l|] eqn:Hl.
  - rewrite (list_lookup_total_correct _ _ _ Hl) in Hp. unfold levels_of_track in Hl.
    eapply track_loop_bound; [exact Hok| | |exact Hl|done|done].
    { unfold visibilities. by rewrite <- list_fmap_compose. }
    intros z' l' q Hl'. apply lookup_replicate in Hl' as [-> _]. by intros ?%not_elem_of_nil.
  - rewrite list_lookup_total_alt, Hl in Hp. by apply not_elem_of_nil in Hp.
Qed.

(** Above the first level no event, other than a counter, lasts as long as the
    resolution of the level before: what that level can show is not put further down. *)
Lemma level_durations trace tracks lv z l p :
  Forall (Forall (fun p => ev_ok (ev p))) tracks -> GetEventsByLevel trace tracks = Some lv ->
  lv !! S z = Some l -> p ∈ l -> measured (ev p) = true -> ev_duration_ps (ev p) < LayerResolutionPs z.
Proof.
  intros Hok Hget Hl Hp Hm. destruct (GetEventsByLevel_levels trace tracks) as (fes & lv' & _ & Hlv & _ & Hmerge).
  rewrite Hget in Hlv. injection Hlv as <-. destruct (Hmerge _ _ Hl) as (Hperm & _ & _). rewrite Hperm in Hp.
  apply list_elem_of_In, in_concat in Hp as (k & Hk & Hp). apply list_elem_of_In, list_elem_of_fmap in Hk as (t & -> & Ht).
  rewrite Forall_forall in Hok. apply (levels_of_track_bound trace fes t (S z) p); [by apply Hok| |done].
  by apply list_elem_of_In.
Qed.
End levels.
