(* ===== verification/TraceStore.v ===== *)
(** Storing a trace (xprof/convert/trace_viewer/trace_events.cc): the serials that make keys
    unique, the forms in which events are stored, and the tables that are written. *)
From Stdlib Require Import ZArith Lia.
From stdpp Require Import base list gmap sorting strings.
From S2P Require Import Prelude Timespan LevelDb PrefixTrie NwayMerge TraceEvent Visibility TraceLevels.
Local Open Scope Z_scope.

(** ** The order of pointers in merges *)

(** [x] comes before [y] in [l]. *)
Definition in_order {A} (l : list A) (x y : A) : Prop := [x; y] `sublist_of` l.

Section orders.
Context {A : Type}.
Implicit Types l k : list A.

Lemma in_order_sorted (R : relation A) l x y : StronglySorted R l -> in_order l x y -> R x y.
Proof.
  intros Hs Ho. apply (sublist_sorted R [x; y]) in Hs; [|done].
  apply StronglySorted_inv in Hs as [_ Hs]. by rewrite Forall_singleton in Hs.
Qed.

Lemma sorted_in_order (R : relation A) l : (forall x y, in_order l x y -> R x y) -> StronglySorted R l.
Proof.
  induction l as [|x l IH]; intros H; constructor.
  - apply IH. intros a b Hab. apply H. by apply sublist_cons.
  - apply Forall_forall. intros y Hy. apply H. apply sublist_skip. by apply singleton_sublist_l.
Qed.

Lemma sorted_impl (R R' : relation A) l :
  (forall x y, R x y -> R' x y) -> StronglySorted R l -> StronglySorted R' l.
Proof.
  intros H. induction 1 as [|x l _ IH Hall]; constructor; [done|]. eapply Forall_impl; [exact Hall|]. apply H.
Qed.

Lemma in_order_total l x y : x ∈ l -> y ∈ l -> x <> y -> in_order l x y \/ in_order l y x.
Proof.
  induction l as [|z l IH]; intros Hx Hy Hne; [by apply not_elem_of_nil in Hx|].
  apply elem_of_cons in Hx as [->|Hx], Hy as [->|Hy]; [done|left|right|].
  - apply sublist_skip. by apply singleton_sublist_l.
  - apply sublist_skip. by apply singleton_sublist_l.
  - destruct (IH Hx Hy Hne); [left|right]; by apply sublist_cons.
Qed.

Lemma in_order_cons z l x y : in_order (z :: l) x y <-> in_order l x y \/ (x = z /\ y ∈ l).
Proof.
  unfold in_order. rewrite sublist_cons_r. split.
  - intros [?|(k & [= -> <-] & Hk)]; [by left|right]. split; [done|]. by apply singleton_sublist_l.
  - intros [?|[-> Hy]]; [by left|right]. exists [y]. split; [done|]. by apply singleton_sublist_l.
Qed.

Lemma in_order_elem l x y : in_order l x y -> x ∈ l /\ y ∈ l.
Proof. intros H. split; (eapply elem_of_sublist; [|exact H]); set_solver. Qed.

Lemma in_order_antisym l x y : NoDup l -> in_order l x y -> in_order l y x -> False.
Proof.
  induction 1 as [|z l Hz _ IH]; [by intros ?%sublist_nil_r|].
  rewrite !in_order_cons. intros [H1|[-> H1]] [H2|[H2 H3]]; [by apply IH|..].
  - apply in_order_elem in H1 as [_ ?]. by subst.
  - by apply in_order_elem in H2 as [_ ?].
  - by subst.
Qed.

(** An order that holds in a list holds in its parts. *)
Lemma in_order_sublist l k x y :
  NoDup l -> k `sublist_of` l -> x ∈ k -> y ∈ k -> in_order l x y -> in_order k x y.
Proof.
  intros Hnd Hk Hx Hy Ho.
  assert (x <> y) as Hne. { intros ->. by apply (in_order_antisym l y y). }
  destruct (in_order_total k x y Hx Hy Hne) as [?|Hyx]; [done|]. exfalso.
  apply (in_order_antisym l x y Hnd Ho). unfold in_order in *. by trans k.
Qed.
End orders.

(** Pointers are ordered by the comparator, those it does not tell apart as in their track. *)
Definition track_order (ev : nat -> TraceEvent) (tracks : list (list nat)) (x y : nat) : Prop :=
  ptr_cmp ev x y = true \/
  (ptr_cmp ev y x = false /\ exists t, t ∈ tracks /\ in_order t x y).

(** Events the comparator does not tell apart are in one track: they have the same
    device, and the same resource or name. *)
Definition ties_in_tracks (ev : nat -> TraceEvent) (tracks : list (list nat)) : Prop :=
  forall x y, x ∈ concat tracks -> y ∈ concat tracks -> ptr_cmp ev x y = false -> ptr_cmp ev y x = false ->
    exists t, t ∈ tracks /\ x ∈ t /\ y ∈ t.

Section track_orders.
Context (ev : nat -> TraceEvent) (tracks : list (list nat)).
Context (Hnd : NoDup (concat tracks)) (Hties : ties_in_tracks ev tracks).

Lemma NoDup_track t : t ∈ tracks -> NoDup t.
Proof.
  intros (l1 & l2 & Heq)%list_elem_of_split. rewrite Heq, concat_app in Hnd. simpl in Hnd.
  apply NoDup_app in Hnd as (_ & _ & H%NoDup_app). apply H.
Qed.

Lemma same_track t t' x : t ∈ tracks -> t' ∈ tracks -> x ∈ t -> x ∈ t' -> t = t'.
Proof.
  clear Hties. revert Hnd. induction tracks as [|s ts IH]; simpl; [by intros _ ?%not_elem_of_nil|].
  intros (_ & Hdis & Hnd')%NoDup_app [->|Ht]%elem_of_cons [->|Ht']%elem_of_cons Hx Hx'; [done| | |by apply IH].
  - destruct (Hdis x Hx). apply list_elem_of_In, in_concat. exists t'. by rewrite <- !list_elem_of_In.
  - destruct (Hdis x Hx'). apply list_elem_of_In, in_concat. exists t. by rewrite <- !list_elem_of_In.
Qed.

Lemma track_order_antisym x y : track_order ev tracks x y -> track_order ev tracks y x -> False.
Proof.
  pose proof (ptr_cmp_sw ev). intros [H1|[H1 (t & Ht & Ho)]] [H2|[H2 (t' & Ht' & Ho')]].
  - by rewrite (sw_asym _ _ H1) in H2.
  - by rewrite H2 in H1.
  - by rewrite H1 in H2.
  - apply in_order_elem in Ho as Hin. apply in_order_elem in Ho' as Hin'.
    assert (t = t') as -> by (apply (same_track t t' x); naive_solver).
    by apply (in_order_antisym t' x y); [apply NoDup_track|..].
Qed.

(** A sorted merge of parts of the tracks that keeps them in order is in track order. *)
Lemma merge_track_order (parts : list nat -> list nat) l :
  (forall t, t ∈ tracks -> parts t `sublist_of` t) -> NoDup l ->
  l ≡ₚ concat (parts <$> tracks) -> Forall (fun t => parts t `sublist_of` l) tracks ->
  StronglySorted (not_after (ptr_cmp ev)) l -> StronglySorted (track_order ev tracks) l.
Proof.
  intros Hparts Hl Hp Hsub Hs. apply sorted_in_order. intros x y Ho.
  destruct (in_order_elem _ _ _ Ho) as [Hx Hy].
  assert (forall z, z ∈ l -> exists t, t ∈ tracks /\ z ∈ parts t) as Hin.
  { intros z. rewrite Hp. intros (k & Hk & Hz)%list_elem_of_In%in_concat.
    apply list_elem_of_In, list_elem_of_fmap in Hk as (t & -> & Ht). exists t. split; [done|by apply list_elem_of_In]. }
  assert (forall t z, t ∈ tracks -> z ∈ parts t -> z ∈ concat tracks /\ z ∈ t) as Hup.
  { intros t z Ht Hz. assert (z ∈ t) by (eapply elem_of_sublist; eauto). split; [|done].
    apply list_elem_of_In, in_concat. exists t. by rewrite <- !list_elem_of_In. }
  pose proof (in_order_sorted _ _ _ _ Hs Ho) as Hna. unfold not_after in Hna.
  destruct (ptr_cmp ev x y) eqn:Hxy; [by left|right]. split; [done|].
  destruct (Hin x Hx) as (t1 & Ht1 & Hx1), (Hin y Hy) as (t2 & Ht2 & Hy2).
  destruct (Hup _ _ Ht1 Hx1) as [Hx' Hxt], (Hup _ _ Ht2 Hy2) as [Hy' Hyt].
  destruct (Hties x y Hx' Hy' Hxy Hna) as (t & Ht & Hxt' & Hyt').
  assert (t1 = t) as -> by (by eapply same_track). assert (t2 = t) as -> by (by eapply same_track).
  exists t. split; [done|]. rewrite Forall_forall in Hsub.
  pose proof (in_order_sublist l (parts t) x y Hl (Hsub t Ht) Hx1 Hy2 Ho). unfold in_order in *.
  trans (parts t); [done|auto].
Qed.
End track_orders.

(** ** Serials *)

(** The same event but for its serial. *)
Definition same_but_serial (e e' : TraceEvent) : Prop := e' = e \/ exists n, e' = set_serial n e.

Lemma same_but_serial_trans e e' e'' : same_but_serial e e' -> same_but_serial e' e'' -> same_but_serial e e''.
Proof. intros [->|[n ->]] [->|[m ->]]; [by left|by right; exists m|by right; exists n|]. right. by exists m. Qed.

Lemma same_timestamp e e' : same_but_serial e e' -> ev_timestamp_ps e' = ev_timestamp_ps e.
Proof. by intros [->|[n ->]]. Qed.

Section serials.
Implicit Types (arena : list TraceEvent) (ps : list nat).

Definition ts arena (p : nat) : Z := ev_timestamp_ps (deref_event arena p).
Definition serial arena (p : nat) : Z := serial_or_0 (deref_event arena p).

Lemma deref_insert arena p e q :
  (p < length arena)%nat -> deref_event (<[p := e]> arena) q = if decide (p = q) then e else deref_event arena q.
Proof.
  intros Hp. unfold deref_event. case_decide as H; [subst; by apply list_lookup_total_insert_eq|].
  by apply list_lookup_total_insert_ne.
Qed.

(** One turn: the arena and the serial it goes on with. *)
Definition unique_id_turn arena (last_ts n : Z) (p : nat) : list TraceEvent * Z :=
  if ts arena p =? last_ts
  then (<[p := set_serial (u32 (n + 1)) (deref_event arena p)]> arena, u64 (n + 1)) else (arena, 0).

Lemma unique_id_loop_cons arena last_ts n p ps :
  unique_id_loop arena last_ts n (p :: ps) =
  let '(arena', n') := unique_id_turn arena last_ts n p in unique_id_loop arena' (ts arena p) n' ps.
Proof. done. Qed.

Lemma unique_id_turn_spec arena last_ts n p :
  (p < length arena)%nat ->
  let '(arena', n') := unique_id_turn arena last_ts n p in
  length arena' = length arena /\ (forall q, p <> q -> deref_event arena' q = deref_event arena q) /\
  (forall q, same_but_serial (deref_event arena q) (deref_event arena' q)).
Proof.
  intros Hp. unfold unique_id_turn. destruct (_ =? _); [|split_and!; [done..|by left]].
  split_and!; [by rewrite length_insert|intros q Hq; by rewrite deref_insert, decide_False|].
  intros q. rewrite deref_insert by done. case_decide; [subst; right; by eexists|by left].
Qed.

Lemma unique_id_loop_frame ps arena last_ts n :
  Forall (fun p => (p < length arena)%nat) ps ->
  let arena' := unique_id_loop arena last_ts n ps in
  length arena' = length arena /\ (forall q, q ∉ ps -> deref_event arena' q = deref_event arena q) /\
  (forall q, same_but_serial (deref_event arena q) (deref_event arena' q)).
Proof.
  revert arena last_ts n. induction ps as [|p ps IH]; intros arena last_ts n Hps; [split_and!; [done..|by left]|].
  apply Forall_cons in Hps as [Hp Hps]. rewrite unique_id_loop_cons.
  pose proof (unique_id_turn_spec arena last_ts n p Hp) as Ht.
  destruct (unique_id_turn arena last_ts n p) as [arena' n']. destruct Ht as (Hl & Hne & Hsame).
  destruct (IH arena' (ts arena p) n') as (Hl' & Hne' & Hsame'); [by rewrite Hl|].
  split_and!; [by rewrite Hl'|intros q Hq|intros q; by eapply same_but_serial_trans].
  apply not_elem_of_cons in Hq as [??]. rewrite Hne', Hne; done.
Qed.

Lemma unique_id_loop_nonneg ps arena last_ts n q :
  Forall (fun p => (p < length arena)%nat) ps -> 0 <= serial arena q -> 0 <= serial (unique_id_loop arena last_ts n ps) q.
Proof.
  revert arena last_ts n. induction ps as [|p ps IH]; intros arena last_ts n Hps Hq; [done|].
  apply Forall_cons in Hps as [Hp Hps]. rewrite unique_id_loop_cons. unfold unique_id_turn.
  destruct (_ =? _); [|by apply IH]. apply IH; [by rewrite length_insert|].
  unfold serial. rewrite deref_insert by done. case_decide; [|done]. unfold serial_or_0. simpl. apply wrap_range. lia.
Qed.

(** Events of the time the loop goes on with get serials above the one it goes on with. *)
Lemma unique_id_loop_above ps arena last_ts n y :
  NoDup ps -> Forall (fun p => (p < length arena)%nat) ps -> StronglySorted (fun x y => ts arena x <= ts arena y) ps ->
  Forall (fun p => last_ts <= ts arena p) ps -> 0 <= n -> n + Z.of_nat (length ps) < 2 ^ 32 ->
  y ∈ ps -> ts arena y = last_ts -> n < serial (unique_id_loop arena last_ts n ps) y.
Proof.
  intros Hnd. revert arena last_ts n. induction Hnd as [|p ps Hp _ IH]; intros arena last_ts n Hb Hs Hlast Hn Hlen Hy Hty.
  { by apply not_elem_of_nil in Hy. }
  apply Forall_cons in Hb as [Hpb Hb]. apply StronglySorted_inv in Hs as [Hs Hall]. apply Forall_cons in Hlast as [Hpl Hlast].
  rewrite unique_id_loop_cons. pose proof (unique_id_turn_spec arena last_ts n p Hpb) as Ht.
  unfold unique_id_turn in *. destruct (Z.eqb_spec (ts arena p) last_ts) as [He|He].
  - destruct Ht as (Hl & Hne & Hsame). set (arena' := <[p := _]> arena) in *.
    assert (forall q, ts arena' q = ts arena q) as Hts by (intros q; unfold ts; apply same_timestamp, Hsame).
    assert (Forall (fun q => (q < length arena')%nat) ps) as Hb' by (by rewrite Hl).
    cbn [length] in Hlen. rewrite Nat2Z.inj_succ in Hlen.
    rewrite (wrap_small 64) by lia.
    apply elem_of_cons in Hy as [->|Hy].
    + destruct (unique_id_loop_frame ps arena' (ts arena p) (n + 1) Hb') as (_ & Hfr & _).
      unfold serial. rewrite Hfr by done. unfold arena'. rewrite deref_insert, decide_True by done. simpl.
      unfold serial_or_0. simpl. rewrite wrap_small by lia. lia.
    + assert (n + 1 < serial (unique_id_loop arena' (ts arena p) (n + 1) ps) y); [|lia].
      apply IH; try done; try lia.
      * eapply sorted_impl; [|exact Hs]. simpl. intros a b. by rewrite !Hts.
      * eapply Forall_impl; [exact Hall|]. simpl. intros b. by rewrite !Hts.
      * rewrite Hts. lia.
  - exfalso. apply elem_of_cons in Hy as [->|Hy]; [done|]. rewrite Forall_forall in Hall. specialize (Hall _ Hy). simpl in Hall. lia.
Qed.

(** Of two events of the same time that had no serial, the later gets the greater. *)
Lemma unique_id_loop_order ps arena last_ts n x y :
  NoDup ps -> Forall (fun p => (p < length arena)%nat) ps -> StronglySorted (fun x y => ts arena x <= ts arena y) ps ->
  Forall (fun p => serial arena p = 0) ps -> 0 <= n -> n + Z.of_nat (length ps) < 2 ^ 32 ->
  in_order ps x y -> ts arena x = ts arena y ->
  0 <= serial (unique_id_loop arena last_ts n ps) x < serial (unique_id_loop arena last_ts n ps) y.
Proof.
  intros Hnd. revert arena last_ts n. induction Hnd as [|p ps Hp Hnd IH]; intros arena last_ts n Hb Hs H0 Hn Hlen Ho Hxy.
  { by apply sublist_nil_r in Ho. }
  apply Forall_cons in Hb as [Hpb Hb]. apply StronglySorted_inv in Hs as [Hs Hall]. apply Forall_cons in H0 as [Hp0 H0].
  rewrite unique_id_loop_cons. cbn [length] in Hlen. rewrite Nat2Z.inj_succ in Hlen.
  pose proof (unique_id_turn_spec arena last_ts n p Hpb) as Ht.
  destruct (unique_id_turn arena last_ts n p) as [arena' n'] eqn:Hturn. destruct Ht as (Hl & Hne & Hsame).
  assert (forall q, ts arena' q = ts arena q) as Hts by (intros q; unfold ts; apply same_timestamp, Hsame).
  assert (0 <= n' <= n + 1 /\ serial arena' p = n') as [Hn' Hsp].
  { unfold unique_id_turn in Hturn. destruct (ts arena p =? last_ts); injection Hturn as <- <-; [|lia].
    rewrite wrap_small by lia. split; [lia|]. unfold serial. rewrite deref_insert, decide_True by done.
    unfold serial_or_0. simpl. apply wrap_small. lia. }
  assert (Forall (fun q => (q < length arena')%nat) ps) as Hb' by (by rewrite Hl).
  assert (StronglySorted (fun x y => ts arena' x <= ts arena' y) ps) as Hs'.
  { eapply sorted_impl; [|exact Hs]. simpl. intros a b. by rewrite !Hts. }
  apply in_order_cons in Ho as [Ho|[-> Hy]].
  - apply IH; try done; [|lia..|by rewrite !Hts]. apply Forall_forall. intros q Hq. rewrite Forall_forall in H0.
    unfold serial. rewrite Hne; [by apply H0|]. by intros ->.
  - destruct (unique_id_loop_frame ps arena' (ts arena p) n' Hb') as (_ & Hfr & _).
    unfold serial at 1 2. rewrite Hfr by done. fold (serial arena' p). rewrite Hsp. split; [lia|].
    apply unique_id_loop_above; try done; try lia.
    + eapply Forall_impl; [exact Hall|]. simpl. intros b. by rewrite Hts.
    + by rewrite Hts.
Qed.
End serials.

(** ** The levels of a container, with serials *)

Section store.
Context {T : Type} `{!Timespan T, !TimespanOps T, !MakeHeap, !TableLib, !Proto TraceEvent, !Proto Trace,
  !Proto PrefixTrieNodeProto}.
Implicit Types arena : list TraceEvent.

(** [TraceEventsContainerBase::EventsByLevel]: the two computations that run in parallel
    only read the events; then the serials are set. *)
Definition EventsByLevel (trace : Trace) (arena : list TraceEvent) (event_tracks : list (list nat)) :
    option (list (list nat) * list TraceEvent) :=
  events_by_level ← GetEventsByLevel (T := T) (deref_event arena) trace event_tracks;
  all_events ← nway_merge (ptr_cmp (deref_event arena)) (filter nonempty event_tracks);
  Some (events_by_level, MaybeAddEventUniqueId arena all_events).

(** ** Forms of an event *)

Abbreviation SerializeEventFn := (TraceEvent -> Status + bytes).

Definition SerializeTraceEventForPersistingFullEvent : SerializeEventFn := fun event =>
  inr (SerializeAsString (set_timestamp 0 event)).

Definition SerializeTraceEventForPersistingEventWithoutMetadata : SerializeEventFn := fun event =>
  let copy := set_timestamp 0 event in
  inr (SerializeAsString
    (if bool_decide (GetTraceEventType copy = EVENT_TYPE_COUNTER) then copy else set_raw_data None copy)).

Definition SerializeTraceEventForPersistingOnlyMetadata : SerializeEventFn := fun event =>
  if bool_decide (GetTraceEventType event = EVENT_TYPE_COUNTER) then inl NotFoundError
  else inr (SerializeAsString (set_raw_data (Some (default [] (ev_raw_data event))) inhabitant)).

(** ** Writing a table *)

Definition kChunkSize : nat := Z.to_nat 10000.

(** The work of one task: the entries of its events, and the number of those dropped. *)
Fixpoint chunk_loop (serialize : SerializeEventFn) (zoom_level : nat) (events : list TraceEvent) :
    Status + (list entry * Z) :=
  match events with
  | [] => inr ([], 0)
  | event :: events' =>
      let key := LevelDbTableKey zoom_level (ev_timestamp_ps event) (serial_or_0 event) in
      if bool_decide (key = []) then
        match chunk_loop serialize zoom_level events' with
        | inl st => inl st
        | inr (entries, dropped) => inr (entries, dropped + 1)
        end
      else
        match serialize event with
        | inr buffer =>
            match chunk_loop serialize zoom_level events' with
            | inl st => inl st
            | inr (entries, dropped) => inr ((key, buffer) :: entries, dropped)
            end
        | inl st => if bool_decide (st = NotFoundError) then chunk_loop serialize zoom_level events' else inl st
        end
  end.

(** The tasks, in the order in which the writer takes their results. *)
Definition num_chunks (num_events : nat) : nat := ((num_events + kChunkSize - 1) / kChunkSize)%nat.
Definition level_tasks (zoom_level : nat) (level_events : list TraceEvent) : list (nat * list TraceEvent) :=
  (fun chunk_idx => (zoom_level, take kChunkSize (drop (chunk_idx * kChunkSize) level_events)))
    <$> seq 0 (num_chunks (length level_events)).
Fixpoint tasks_from (zoom_level : nat) (events_by_level : list (list TraceEvent)) : list (nat * list TraceEvent) :=
  match events_by_level with
  | [] => []
  | level_events :: rest => level_tasks zoom_level level_events ++ tasks_from (S zoom_level) rest
  end.
Definition task_descriptors (events_by_level : list (list TraceEvent)) : list (nat * list TraceEvent) :=
  tasks_from 0 events_by_level.

Fixpoint writer_loop (serialize : SerializeEventFn) (tasks : list (nat * list TraceEvent)) :
    Status + (list entry * Z) :=
  match tasks with
  | [] => inr ([], 0)
  | (zoom_level, events) :: tasks' =>
      match chunk_loop serialize zoom_level events with
      | inl st => inl st
      | inr (chunk_data, dropped) =>
          match writer_loop serialize tasks' with
          | inl st => inl st
          | inr (entries, dropped') => inr (chunk_data ++ entries, dropped + dropped')
          end
      end
  end.

(** The status, the entries added to the builder, and the number of events dropped. *)
Definition DoStoreAsLevelDbTable (file : WritableFile) (trace : Trace) (events_by_level : list (list TraceEvent))
    (serialize : SerializeEventFn) : Status + (Status * list entry * Z) :=
  match writer_loop serialize (task_descriptors events_by_level) with
  | inl st => inl st
  | inr (entries, dropped) =>
      let st := if negb (status_ok (file_name file)) then file_name file
                else if negb (status_ok (file_finish file)) then file_finish file else file_close file in
      inr (st, (kTraceMetadataKey, SerializeAsString trace) :: entries, dropped)
  end.

(** ** What is written *)

(** A serializer that fails on no event it has to store. *)
Definition total_serializer (serialize : SerializeEventFn) : Prop :=
  forall e st, serialize e = inl st -> st = NotFoundError.

Definition event_entry (serialize : SerializeEventFn) (z : nat) (e : TraceEvent) : option entry :=
  let key := LevelDbTableKey z (ev_timestamp_ps e) (serial_or_0 e) in
  if bool_decide (key = []) then None
  else match serialize e with inr buffer => Some (key, buffer) | inl _ => None end.

Definition level_entries (serialize : SerializeEventFn) (z : nat) (es : list TraceEvent) : list entry :=
  omap (event_entry serialize z) es.

Definition dropped_events (es : list TraceEvent) : Z := countb (fun e => 256 <=? serial_or_0 e) es.

Lemma chunk_loop_spec serialize z es :
  total_serializer serialize ->
  chunk_loop serialize z es = inr (level_entries serialize z es, dropped_events es).
Proof.
  intros Htot. induction es as [|e es IH]; [done|]. cbn [chunk_loop]. unfold level_entries, dropped_events in *.
  cbn [omap list_omap countb foldr]. unfold countb. cbn [foldr]. fold (countb (fun e => 256 <=? serial_or_0 e) es).
  unfold event_entry at 1. rewrite IH. pose proof (key_nonempty z (ev_timestamp_ps e) (serial_or_0 e)) as Hk.
  case_bool_decide as Hkey.
  - apply Hk in Hkey. rewrite (proj2 (Z.leb_le _ _)) by done. cbn [Z.b2z]. by rewrite Z.add_comm.
  - assert ((256 <=? serial_or_0 e) = false) as ->.
    { destruct (Z.leb_spec 256 (serial_or_0 e)); [|done]. by destruct Hkey; apply Hk. }
    simpl.
    destruct (serialize e) as [st|b] eqn:Hs; [|done]. rewrite (Htot _ _ Hs). done.
Qed.

Lemma writer_loop_spec serialize tasks :
  total_serializer serialize ->
  writer_loop serialize tasks =
  inr (concat ((fun '(z, es) => level_entries serialize z es) <$> tasks), zsum (dropped_events <$> tasks.*2)).
Proof.
  intros Htot. induction tasks as [|[z es] tasks IH]; [done|]. cbn [writer_loop]. rewrite chunk_loop_spec, IH by done. done.
Qed.

(** The chunks of a list. *)
Lemma concat_chunks {A} (l : list A) k n :
  concat ((fun i => take k (drop (i * k) l)) <$> seq 0 n) = take (n * k) l.
Proof.
  induction n as [|n IH]; [done|]. rewrite seq_S, fmap_app, concat_app, IH. simpl. rewrite app_nil_r.
  rewrite take_take_drop. f_equal. lia.
Qed.

Lemma num_chunks_enough n : (n <= num_chunks n * kChunkSize)%nat.
Proof.
  unfold num_chunks. assert (0 < kChunkSize)%nat as Hk by (unfold kChunkSize; lia). revert Hk. generalize kChunkSize as k.
  intros k Hk. pose proof (Nat.div_mod_eq (n + k - 1) k). pose proof (Nat.mod_upper_bound (n + k - 1) k). lia.
Qed.

Lemma all_chunks {A} (l : list A) :
  concat ((fun i => take kChunkSize (drop (i * kChunkSize) l)) <$> seq 0 (num_chunks (length l))) = l.
Proof. rewrite concat_chunks. apply take_ge, num_chunks_enough. Qed.

Lemma level_entries_concat serialize z ll :
  level_entries serialize z (concat ll) = concat (level_entries serialize z <$> ll).
Proof.
  unfold level_entries. induction ll as [|l ll IH]; [done|]. rewrite fmap_cons. cbn [concat].
  by rewrite omap_app, IH.
Qed.

Lemma dropped_concat ll : zsum (dropped_events <$> ll) = dropped_events (concat ll).
Proof.
  unfold dropped_events, zsum. induction ll as [|l ll IH]; [done|]. rewrite fmap_cons. cbn [concat foldr].
  by rewrite countb_app, IH.
Qed.

(** The entries of the levels from [z] on. *)
Fixpoint entries_from (serialize : SerializeEventFn) (z : nat) (lv : list (list TraceEvent)) : list entry :=
  match lv with
  | [] => []
  | l :: lv' => level_entries serialize z l ++ entries_from serialize (S z) lv'
  end.

Lemma tasks_entries serialize z lv :
  concat ((fun '(z, es) => level_entries serialize z es) <$> tasks_from z lv) = entries_from serialize z lv /\
  concat (tasks_from z lv).*2 = concat lv.
Proof.
  revert z. induction lv as [|l lv IH]; intros z; [done|]. cbn [tasks_from entries_from concat].
  destruct (IH (S z)) as [IH1 IH2]. rewrite !fmap_app, !concat_app, IH1, IH2. unfold level_tasks. split; f_equal.
  - rewrite <- list_fmap_compose. rewrite <- (all_chunks l) at 2. by rewrite level_entries_concat, <- list_fmap_compose.
  - rewrite <- list_fmap_compose. apply (all_chunks l).
Qed.

Lemma store_entries serialize file trace lv :
  total_serializer serialize ->
  exists st, DoStoreAsLevelDbTable file trace lv serialize =
    inr (st, (kTraceMetadataKey, SerializeAsString trace) :: entries_from serialize 0 lv, dropped_events (concat lv)).
Proof.
  intros Htot. unfold DoStoreAsLevelDbTable, task_descriptors. rewrite writer_loop_spec by done.
  destruct (tasks_entries serialize 0 lv) as [-> Hd]. rewrite dropped_concat, Hd. by eexists.
Qed.

(** ** The order of the table *)

(** What a container guarantees of its tracks. *)
Record tracks_ok (arena : list TraceEvent) (tracks : list (list nat)) : Prop := {
  tk_nodup : NoDup (concat tracks);
  tk_bound : Forall (fun p => (p < length arena)%nat) (concat tracks);
  tk_events : Forall (fun p => ev_ok (deref_event arena p)) (concat tracks);
  tk_serial : Forall (fun p => ev_serial (deref_event arena p) = None) (concat tracks);
  tk_sorted : Forall (StronglySorted (not_after (ptr_cmp (deref_event arena)))) tracks;
  tk_ties : ties_in_tracks (deref_event arena) tracks;
  tk_count : Z.of_nat (length (concat tracks)) < 2 ^ 32
}.

Lemma not_after_ts ev x y : not_after (ptr_cmp ev) x y -> ev_timestamp_ps (ev x) <= ev_timestamp_ps (ev y).
Proof.
  unfold not_after, ptr_cmp, TraceEventsComparator. destruct (Z.eqb_spec (ev_timestamp_ps (ev y)) (ev_timestamp_ps (ev x))); simpl; lia.
Qed.

(** By time, then by serial. *)
Definition key_order arena (x y : nat) : Prop :=
  ts arena x < ts arena y \/ ts arena x = ts arena y /\ serial arena x < serial arena y.

(** [EventsByLevel]: the levels with the serials that order them. *)
Lemma EventsByLevel_spec trace arena tracks :
  tracks_ok arena tracks ->
  exists fes lv arena', EventsByLevel trace arena tracks = Some (lv, arena') /\ length lv = NumLevels /\
    concat lv ≡ₚ concat tracks /\
    (forall z l, lv !! z = Some l -> level_merge (T := T) (deref_event arena) trace tracks fes z l) /\
    (forall q, same_but_serial (deref_event arena q) (deref_event arena' q)) /\
    Forall (fun p => 0 <= serial arena' p) (concat tracks) /\
    Forall (StronglySorted (key_order arena')) lv /\
    (forall x y, x ∈ concat tracks -> y ∈ concat tracks -> x <> y -> key_order arena' x y \/ key_order arena' y x).
Proof.
  intros Hok. set (ev := deref_event arena). pose proof (ptr_cmp_sw ev) as Hsw. unfold EventsByLevel.
  destruct (GetEventsByLevel_levels (T := T) ev trace tracks) as (fes & lv & _ & Hlv & Hlen & Hm).
  destruct (nway_merge_spec (ptr_cmp ev) (filter nonempty tracks)) as (all & Hall & Hperm & Hsub & Hsort).
  rewrite concat_filter_nonempty in Hperm.
  fold ev. rewrite Hlv. simpl. rewrite Hall. simpl. exists fes, lv. eexists. split; [done|].
  set (arena' := MaybeAddEventUniqueId arena all).
  assert (NoDup all) as Hnd by (rewrite Hperm; apply Hok).
  assert (Forall (fun p => (p < length arena)%nat) all) as Hb by (rewrite Hperm; apply Hok).
  destruct (unique_id_loop_frame all arena (2 ^ 64 - 1) 0 Hb) as (_ & _ & Hsame).
  assert (concat lv ≡ₚ concat tracks) as Hpart by (by eapply levels_partition).
  assert (StronglySorted (not_after (ptr_cmp ev)) all) as Hs.
  { apply Hsort. apply Forall_forall. intros t [_ Ht]%list_elem_of_filter. pose proof (tk_sorted _ _ Hok) as Hk.
    rewrite Forall_forall in Hk. by apply Hk. }
  assert (StronglySorted (track_order ev tracks) all) as Hto.
  { apply (merge_track_order ev tracks (tk_nodup _ _ Hok) (tk_ties _ _ Hok) (fun t => t)); try done.
    - by rewrite list_fmap_id.
    - apply Forall_forall. intros t Ht. destruct t as [|x t]; [apply sublist_nil_l|].
      rewrite Forall_forall in Hsub. apply Hsub, list_elem_of_filter. done. }
  assert (forall x y, in_order all x y -> key_order arena' x y) as Hkey.
  { intros x y Ho. unfold key_order, ts, serial. rewrite !(same_timestamp _ _ (Hsame _)).
    pose proof (not_after_ts ev x y (in_order_sorted _ _ _ _ Hs Ho)) as Hle.
    destruct (decide (ev_timestamp_ps (ev x) = ev_timestamp_ps (ev y))) as [He|]; [right|left; unfold ev in *; lia].
    split; [done|]. apply (unique_id_loop_order all arena (2 ^ 64 - 1) 0); try done.
    - eapply sorted_impl; [|exact Hs]. intros a b. apply not_after_ts.
    - rewrite Hperm. eapply Forall_impl; [apply (tk_serial _ _ Hok)|]. intros p Hp.
      unfold serial, serial_or_0. by rewrite Hp.
    - rewrite Hperm. apply Hok. }
  split_and!; [done..| | |].
  3: { intros x y Hx Hy Hne. rewrite <- Hperm in Hx, Hy. destruct (in_order_total all x y Hx Hy Hne); auto. }
  - rewrite <- Hperm. apply Forall_forall. intros p Hp. apply unique_id_loop_nonneg; [done|].
    unfold serial, serial_or_0. rewrite Hperm in Hp. pose proof (tk_serial _ _ Hok) as Hser. rewrite Forall_forall in Hser.
    by rewrite (Hser p Hp).
  - apply Forall_lookup. intros z l Hz. destruct (Hm z l Hz) as (Hp & Hsubl & Hsl).
    assert (l `sublist_of` concat lv) as Hlsub.
    { apply list_elem_of_split_length in Hz as (l1 & l2 & -> & _). rewrite concat_app. simpl.
      apply sublist_inserts_l. by apply sublist_inserts_r. }
    assert (NoDup l) as Hndl by (eapply sublist_NoDup; [|exact Hlsub]; rewrite Hpart; apply Hok).
    assert (StronglySorted (track_order ev tracks) l) as Htl.
    { apply (merge_track_order ev tracks (tk_nodup _ _ Hok) (tk_ties _ _ Hok)
        (fun t => levels_of_track (T := T) ev trace fes t !!! z)); try done.
      - intros t _. apply levels_of_track_spec.
      - apply Hsl, Hok. }
    apply sorted_in_order. intros x y Ho. apply Hkey.
    destruct (in_order_elem _ _ _ Ho) as [Hx Hy].
    assert (forall w, w ∈ l -> w ∈ all) as Hin.
    { intros w Hw. rewrite Hperm, <- Hpart. by eapply elem_of_sublist. }
    destruct (in_order_total all x y) as [?|Hyx]; [by auto|by auto| |done|].
    { intros ->. by apply (in_order_antisym l y y). }
    exfalso. apply (track_order_antisym ev tracks (tk_nodup _ _ Hok) x y).
    + exact (in_order_sorted _ _ _ _ Htl Ho).
    + exact (in_order_sorted _ _ _ _ Hto Hyx).
Qed.

(** Keys of levels in order are in order. *)
Lemma omap_sorted {A B} (f : A -> option B) (R : relation A) (R' : relation B) l :
  (forall x y fx fy, x ∈ l -> y ∈ l -> R x y -> f x = Some fx -> f y = Some fy -> R' fx fy) ->
  StronglySorted R l -> StronglySorted R' (omap f l).
Proof.
  intros Hf. induction 1 as [|x l _ IH Hall]; [constructor|]. simpl.
  assert (StronglySorted R' (omap f l)) as IH'.
  { apply IH. intros a b fa fb Ha Hb. apply Hf; by apply list_elem_of_further. }
  destruct (f x) as [fx|] eqn:Hx; [|done]. constructor; [done|]. apply Forall_forall.
  intros fy (y & Hy & Hfy)%list_elem_of_omap. rewrite Forall_forall in Hall.
  apply (Hf x y fx fy); [apply list_elem_of_here|by apply list_elem_of_further|by apply Hall|done..].
Qed.

Definition level_events arena (lv : list (list nat)) : list (list TraceEvent) :=
  (fun l : list nat => deref_event arena <$> l) <$> lv.

Definition stored_ok arena (p : nat) : Prop := ev_ok (deref_event arena p) /\ 0 <= serial arena p.

Lemma entry_key serialize z e k b :
  event_entry serialize z e = Some (k, b) ->
  k = LevelDbTableKey z (ev_timestamp_ps e) (serial_or_0 e) /\ serial_or_0 e < 256.
Proof.
  unfold event_entry. case_bool_decide as Hk; [done|]. destruct (serialize e); [done|]. intros [= <- <-].
  split; [done|]. destruct (Z.ltb_spec (serial_or_0 e) 256); [done|]. destruct Hk. by apply key_nonempty.
Qed.

Lemma level_sorted serialize arena z l :
  (z < 26)%nat -> Forall (stored_ok arena) l -> StronglySorted (key_order arena) l ->
  sorted_entries (level_entries serialize z (deref_event arena <$> l)).
Proof.
  intros Hz Hok Hs. unfold level_entries, sorted_entries.
  apply (omap_sorted _ (fun e e' => ev_timestamp_ps e < ev_timestamp_ps e' \/
    ev_timestamp_ps e = ev_timestamp_ps e' /\ serial_or_0 e < serial_or_0 e')).
  - intros e e' [k b] [k' b'] (p & -> & Hp)%list_elem_of_fmap (q & -> & Hq)%list_elem_of_fmap Hr
      [-> He]%entry_key [-> He']%entry_key. unfold key_lt. simpl. rewrite Forall_forall in Hok.
    destruct (Hok p Hp) as [(? & ? & ?) ?], (Hok q Hq) as [(? & ? & ?) ?].
    rewrite LevelDbTableKey_lt by lia. rewrite bool_decide_eq_true. by right.
  - by eapply StronglySorted_fmap; [|exact Hs].
Qed.

Lemma entries_from_sorted serialize arena z lv :
  (z + length lv <= 26)%nat -> Forall (Forall (stored_ok arena)) lv -> Forall (StronglySorted (key_order arena)) lv ->
  sorted_entries (entries_from serialize z (level_events arena lv)) /\
  forall e, e ∈ entries_from serialize z (level_events arena lv) ->
    exists z' t r, (z <= z' < z + length lv)%nat /\ 0 <= t < 2 ^ 64 /\ 0 <= r < 256 /\ e.1 = LevelDbTableKey z' t r.
Proof.
  revert z. induction lv as [|l lv IH]; intros z Hz Hok Hs.
  { split; [constructor|]. by intros e ?%not_elem_of_nil. }
  apply Forall_cons in Hok as [Hl Hok]. apply Forall_cons in Hs as [Hsl Hs]. cbn [length] in Hz.
  destruct (IH (S z)) as [IHs IHin]; [lia|done..|]. cbn [level_events fmap list_fmap entries_from].
  assert (forall e, e ∈ level_entries serialize z (deref_event arena <$> l) ->
    exists t r, 0 <= t < 2 ^ 64 /\ 0 <= r < 256 /\ e.1 = LevelDbTableKey z t r) as Hhere.
  { intros [k b] (e & (p & -> & Hp)%list_elem_of_fmap & [-> He]%entry_key)%list_elem_of_omap.
    rewrite Forall_forall in Hl. destruct (Hl p Hp) as [(? & ? & ?) ?]. do 2 eexists. split_and!; [| | | |done]; try lia.
    all: try done. }
  split.
  - apply StronglySorted_app. split_and!; [|by apply level_sorted; [lia|..]|done].
    intros e f He Hf. destruct (Hhere e He) as (t & r & ? & ? & Hk), (IHin f Hf) as (z' & t' & r' & ? & ? & ? & Hk').
    unfold key_lt. rewrite Hk, Hk', LevelDbTableKey_lt by lia. rewrite bool_decide_eq_true. left. lia.
  - intros e [He|He]%elem_of_app.
    + destruct (Hhere e He) as (t & r & ? & ? & ?). exists z, t, r. simpl. split_and!; try done; lia.
    + destruct (IHin e He) as (z' & t & r & ? & ? & ? & ?). exists z', t, r. simpl. split_and!; try done; lia.
Qed.

Lemma full_event_total : total_serializer SerializeTraceEventForPersistingFullEvent.
Proof. by intros e st. Qed.

Lemma entries_from_count serialize z lv :
  (forall e, exists b, serialize e = inr b) ->
  Z.of_nat (length (entries_from serialize z lv)) + dropped_events (concat lv) = Z.of_nat (length (concat lv)).
Proof.
  intros Hser. revert z. induction lv as [|l lv IH]; intros z; [done|]. cbn [entries_from concat].
  rewrite !length_app, !Nat2Z.inj_add, <- (IH (S z)). unfold dropped_events. rewrite countb_app.
  assert (Z.of_nat (length (level_entries serialize z l)) + countb (fun e => 256 <=? serial_or_0 e) l = Z.of_nat (length l)); [|lia].
  clear -Hser. induction l as [|e l IH]; [done|]. unfold level_entries in *. cbn [omap list_omap].
  unfold countb in *. cbn [foldr length].
  unfold event_entry at 1. pose proof (key_nonempty z (ev_timestamp_ps e) (serial_or_0 e)).
  case_bool_decide as Hk; destruct (Z.leb_spec 256 (serial_or_0 e)); cbn [Z.b2z]; [lia|naive_solver lia|naive_solver lia|].
  destruct (Hser e) as [b ->]. cbn [length]. lia.
Qed.

Lemma entries_from_elem serialize z lv i l e en :
  lv !! i = Some l -> e ∈ l -> event_entry serialize (z + i) e = Some en -> en ∈ entries_from serialize z lv.
Proof.
  revert z i. induction lv as [|k lv IH]; intros z i Hi He Hen; [done|]. cbn [entries_from]. apply elem_of_app.
  destruct i as [|i]; [left|right; apply (IH (S z) i); [done..|]].
  - injection Hi as ->. apply list_elem_of_omap. exists e. by rewrite Nat.add_0_r in Hen.
  - by rewrite Nat.add_succ_r in Hen.
Qed.

Lemma stored_levels trace arena tracks lv arena' :
  tracks_ok arena tracks -> EventsByLevel trace arena tracks = Some (lv, arena') ->
  length lv = NumLevels /\ concat lv ≡ₚ concat tracks /\
  (forall q, same_but_serial (deref_event arena q) (deref_event arena' q)) /\
  Forall (Forall (stored_ok arena')) lv /\ Forall (StronglySorted (key_order arena')) lv.
Proof.
  intros Hok Hev. destruct (EventsByLevel_spec trace arena tracks Hok) as (fes & lv' & a & He & Hlen & Hp & _ & Hsame & Hser & Hs & _).
  rewrite Hev in He. injection He as <- <-. split_and!; [done..| |done]. apply Forall_lookup. intros z l Hl.
  apply Forall_forall. intros p Hpl. assert (p ∈ concat tracks) as Hin.
  { rewrite <- Hp. apply list_elem_of_In, in_concat. exists l. rewrite <- !list_elem_of_In. split; [by eapply list_elem_of_lookup_2|done]. }
  pose proof (tk_events _ _ Hok) as Hev'. rewrite Forall_forall in Hser, Hev'. split; [|by apply Hser].
  specialize (Hev' p Hin). destruct (Hsame p) as [->|[n ->]]; done.
Qed.

(** The table of the levels of a container: its keys are in strictly ascending order, as
    the table builder requires, whatever the serializer. *)
Lemma stored_table_sorted serialize trace arena tracks lv arena' :
  tracks_ok arena tracks -> EventsByLevel trace arena tracks = Some (lv, arena') ->
  sorted_entries ((kTraceMetadataKey, SerializeAsString trace) :: entries_from serialize 0 (level_events arena' lv)).
Proof.
  intros Hok Hev. destruct (stored_levels _ _ _ _ _ Hok Hev) as (Hlen & _ & _ & Hst & Hs).
  destruct (entries_from_sorted serialize arena' 0 lv) as [Hse Hin]; [rewrite Hlen; vm_compute; lia|done..|].
  constructor; [done|]. apply Forall_forall. intros e He. destruct (Hin e He) as (z & t & r & Hz & Ht & Hr & Hk).
  unfold key_lt. rewrite Hk. unfold LevelDbTableKey. rewrite (proj2 (Z.leb_gt _ _)) by lia. cbn [kTraceMetadataKey fst].
  assert (47 < level_char z) by (pose proof (level_char_ge z); rewrite Hlen in Hz; change NumLevels with 13%nat in Hz; lia).
  fold (level_char z). change (str "/trace") with (47 :: str "trace"). cbn [bytes_lt].
  apply orb_true_iff; left; by apply Z.ltb_lt.
Qed.

(** [StoreAsLevelDbTable] on the levels of a container gives the table builder keys in
    strictly ascending order; the entries and the events dropped are all the events and
    the trace; and every event with a serial below 256 is there, with its content, under
    the key of its level. *)
Theorem store_writes_all trace arena tracks file :
  tracks_ok arena tracks ->
  exists lv arena' st entries dropped,
    EventsByLevel trace arena tracks = Some (lv, arena') /\
    DoStoreAsLevelDbTable file trace (level_events arena' lv) SerializeTraceEventForPersistingFullEvent =
      inr (st, entries, dropped) /\
    sorted_entries entries /\
    head entries = Some (kTraceMetadataKey, SerializeAsString trace) /\
    Z.of_nat (length entries) + dropped = 1 + Z.of_nat (length (concat tracks)) /\
    forall p, p ∈ concat tracks -> serial arena' p < 256 ->
      exists z l, lv !! z = Some l /\ p ∈ l /\
        (LevelDbTableKey z (ts arena p) (serial arena' p),
         SerializeAsString (set_timestamp 0 (deref_event arena' p))) ∈ entries.
Proof.
  intros Hok. destruct (EventsByLevel_spec trace arena tracks Hok) as (fes & lv & arena' & Hev & _).
  destruct (stored_levels _ _ _ _ _ Hok Hev) as (Hlen & Hp & Hsame & Hst & Hs).
  destruct (store_entries SerializeTraceEventForPersistingFullEvent file trace (level_events arena' lv) full_event_total)
    as [st Hstore].
  exists lv, arena', st. do 2 eexists. split_and!; [done|exact Hstore|by eapply stored_table_sorted|done| |].
  - cbn [length]. rewrite Nat2Z.inj_succ.
    pose proof (entries_from_count SerializeTraceEventForPersistingFullEvent 0 (level_events arena' lv)) as Hc.
    assert (length (concat (level_events arena' lv)) = length (concat tracks)) as Hl.
    { unfold level_events. rewrite <- Hp. clear. induction lv as [|l lv IH]; [done|]. rewrite fmap_cons.
      cbn [concat]. by rewrite !length_app, length_fmap, IH. }
    rewrite Hl in Hc. rewrite <- Hc; [lia|]. intros e. by eexists.
  - intros p Hin Hser. rewrite <- Hp in Hin. apply list_elem_of_In, in_concat in Hin as (l & Hl & Hpl).
    apply list_elem_of_In, list_elem_of_lookup in Hl as [z Hz]. apply list_elem_of_In in Hpl.
    exists z, l. split_and!; [done..|]. apply elem_of_cons. right.
    apply (entries_from_elem _ 0 _ z (deref_event arena' <$> l) (deref_event arena' p)).
    + unfold level_events. by rewrite list_lookup_fmap, Hz.
    + apply list_elem_of_fmap. by exists p.
    + unfold event_entry, ts. rewrite <- (same_timestamp _ _ (Hsame p)). cbn [plus]. fold (serial arena' p).
      rewrite bool_decide_eq_false_2; [done|]. rewrite key_nonempty. lia.
Qed.
End store.

(** ** A container with two tracks *)

Definition sample_complete (ts dur : Z) : TraceEvent :=
  mk_event 1 (Some 7) (Name [102]) None ts dur (Some [1; 2]) None FLOW_NONE None None.
Definition sample_counter (ts : Z) : TraceEvent :=
  mk_event 1 None (Name [99]) None ts 0 (Some [3]) None FLOW_NONE None None.
Definition sample_arena : list TraceEvent := [sample_complete 10 5; sample_complete 10 5; sample_counter 20].
Definition sample_tracks : list (list nat) := [[0; 1]; [2]]%nat.
Definition sample_trace : Trace := mk_trace ∅ ∅ (Some 10) (Some 20) (Some 3) ∅.

Lemma sample_tracks_ok : tracks_ok sample_arena sample_tracks.
Proof.
  split.
  - by apply (bool_decide_unpack _).
  - by apply (bool_decide_unpack _).
  - repeat constructor; simpl; lia.
  - repeat constructor.
  - repeat constructor.
  - intros x y Hx Hy. unfold sample_tracks in *. simpl in Hx, Hy.
    rewrite !elem_of_cons in Hx, Hy. setoid_rewrite elem_of_nil in Hx. setoid_rewrite elem_of_nil in Hy.
    intros H1 H2. destruct Hx as [->|[->|[->|[]]]], Hy as [->|[->|[->|[]]]]; try (by vm_compute in H1); try (by vm_compute in H2).
    all: first [by exists [0; 1]%nat; split_and!; apply (bool_decide_unpack _)|by exists [2]%nat; split_and!; apply (bool_decide_unpack _)].
  - vm_compute. done.
Qed.

Lemma store_writes_all_witness :
  let pe := countable_proto TraceEvent in let pt := countable_proto Trace in
  tracks_ok sample_arena sample_tracks /\
  exists lv arena' st entries dropped,
    EventsByLevel (T := pair_span) sample_trace sample_arena sample_tracks = Some (lv, arena') /\
    DoStoreAsLevelDbTable (mk_file OkStatus OkStatus OkStatus) sample_trace (level_events arena' lv)
      SerializeTraceEventForPersistingFullEvent = inr (st, entries, dropped) /\
    sorted_entries entries /\ Z.of_nat (length entries) + dropped = 4.
Proof.
  intros pe pt. split; [apply sample_tracks_ok|].
  destruct (store_writes_all (T := pair_span) sample_trace sample_arena sample_tracks (mk_file OkStatus OkStatus OkStatus) sample_tracks_ok)
    as (lv & arena' & st & entries & dropped & H1 & H2 & H3 & _ & H4 & _).
  by exists lv, arena', st, entries, dropped.
Defined.
