(* ===== verification/TraceLoad.v ===== *)
(** Loading a stored trace (DoLoadFromLevelDbTable and the functions beside it in
    xprof/convert/trace_viewer/trace_events.{h,cc}, and the filter of trace_options.cc): the
    levels read through iterators, the join with the metadata table, the filters, and that
    what was stored is what is loaded. *)
From Stdlib Require Import ZArith Lia SpecFloat.
From stdpp Require Import base list gmap sorting strings.
From S2P Require Import Prelude Timespan LevelDb PrefixTrie NwayMerge TraceEvent Visibility TraceLevels TraceStore.
Local Open Scope Z_scope.

(** ** Filters *)

(** [TraceEventsFilterInterface]: [Filter] is true for an event not to be added. *)
Class EventsFilter (F : Type) := {
  SetUp : Trace -> F -> F;
  Filter : TraceEvent -> F -> bool * F
}.

Inductive TraceDeviceType := kUnknownDevice | kTpu | kGpu.

(** [filter_internal::TraceEventsFilter]; of its options it reads [full_dma]. *)
Record TraceEventsFilter := mk_efilter {
  ef_full_dma : bool;
  ef_device_type : TraceDeviceType;
  ef_tpu_noncore_devices : gset Z;
  ef_tpu_core_devices : gset Z
}.

Definition CreateTraceEventsFilterFromTraceOptions (full_dma : bool) : TraceEventsFilter :=
  mk_efilter full_dma kUnknownDevice ∅ ∅.

Section options_filter.
Context (kTpuPlanePrefix kTpuNonCorePlaneNamePrefix : bytes).

Definition IsTpuTrace (trace : Trace) : bool :=
  existsb (fun p => IsTpuCoreDeviceName kTpuPlanePrefix (dev_name p.2)) (map_to_list (tr_devices trace)).

Definition ef_SetUp (trace : Trace) (f : TraceEventsFilter) : TraceEventsFilter :=
  let core := dom (filter (fun p => IsTpuCoreDeviceName kTpuPlanePrefix (dev_name p.2) = true) (tr_devices trace)) in
  let noncore := dom (filter (fun p => IsTpuCoreDeviceName kTpuPlanePrefix (dev_name p.2) = false /\
      MaybeTpuNonCoreDeviceName kTpuNonCorePlaneNamePrefix (dev_name p.2) = true) (tr_devices trace)) in
  mk_efilter (ef_full_dma f) (if IsTpuTrace trace then kTpu else ef_device_type f)
    (ef_tpu_noncore_devices f ∪ noncore) (ef_tpu_core_devices f ∪ core).

Definition ef_Filter (event : TraceEvent) (f : TraceEventsFilter) : bool :=
  match ef_device_type f with
  | kTpu =>
      if (bool_decide (ev_device_id event ∈ ef_tpu_noncore_devices f)
          || bool_decide (ev_device_id event ∈ ef_tpu_core_devices f)) && IsFlowMid event
      then negb (ef_full_dma f) else false
  | kUnknownDevice | kGpu => false
  end.
End options_filter.

Definition options_filter (kTpuPlanePrefix kTpuNonCorePlaneNamePrefix : bytes) : EventsFilter TraceEventsFilter := {|
  SetUp := ef_SetUp kTpuPlanePrefix kTpuNonCorePlaneNamePrefix;
  Filter e f := (ef_Filter e f, f)
|}.

Section load.
Context {T F : Type} `{!Timespan T, !TimespanOps T, !MakeHeap, !TableLib, !Proto TraceEvent, !Proto Trace, !EventsFilter F}.
Context (kTpuPlanePrefix kTpuNonCorePlaneNamePrefix : bytes).
(** The raw data of one argument "uid" with the given value, serialized. *)
Context (uid_raw_data : Z -> bytes).

(** ** The metadata of a trace *)

Definition ReadTraceMetadata (it : iterator) (metadata_key : bytes) : option Trace :=
  match current it with
  | None => None
  | Some (key, value) => if bool_decide (key = metadata_key) then ParseFromString value else None
  end.

(** The two keys under which it may be: the current one and the one of old files. *)
Definition read_metadata (t : table) : option Trace :=
  match ReadTraceMetadata (SeekToFirst t) kTraceMetadataKey with
  | Some trace => Some trace
  | None => ReadTraceMetadata (Seek t (str "trace")) (str "trace")
  end.

Definition ReadFileTraceMetadata (opened : Status + table) : Status + Trace :=
  match opened with
  | inl st => inl st
  | inr t => match read_metadata t with Some trace => inr trace | None => inl UnknownError end
  end.

(** ** One level *)

(** The iterator over the metadata table, with the table. *)
Abbreviation MdIterator := (option (table * iterator)).

Definition md_key (mit : iterator) : option bytes := fst <$> current mit.

(** Forward to the key of the event when it is behind it. *)
Definition md_seek (key : bytes) (md : MdIterator) : MdIterator :=
  match md with
  | Some (m, mit) =>
      match md_key mit with
      | Some k => if bytes_lt k key then Some (m, Seek m key) else md
      | None => md
      end
  | None => None
  end.
Definition md_raw_data (key : bytes) (md : MdIterator) (event : TraceEvent) : TraceEvent :=
  match md with
  | Some (_, mit) =>
      match current mit with
      | Some (k, v) =>
          if bool_decide (k = key) then
            match ParseFromString v with
            | Some event_metadata => set_raw_data (Some (default [] (ev_raw_data event_metadata))) event
            | None => event
            end
          else event
      | None => event
      end
  | None => event
  end.
Definition md_next (key : bytes) (md : MdIterator) : MdIterator :=
  match md with
  | Some (m, mit) => if bool_decide (md_key mit = Some key) then Some (m, Next mit) else md
  | None => None
  end.

(** The events of level [i] from the iterator on, up to [span_end]; the number filtered. *)
Fixpoint level_loop (fuel i : nat) (span_end : Z) (it : iterator) (md : MdIterator) (flt : option F)
    (loaded : list TraceEvent) (filtered : Z) : option (Status + (list TraceEvent * Z * option F)) :=
  match current it with
  | None => Some (inr (loaded, filtered, flt))
  | Some (key, value) =>
      if bool_decide (head key = Some (kLevelKey !!! i)) then
        match fuel with
        | O => None
        | S fuel' =>
            match ParseFromString value with
            | None => Some (inl UnknownError)
            | Some parsed =>
                let event := set_timestamp (TimestampFromLevelDbTableKey key) parsed in
                if span_end <? ev_timestamp_ps event then Some (inr (loaded, filtered, flt))
                else
                  let md := md_seek key md in
                  let event := md_raw_data key md event in
                  let '(drop, flt) := match flt with
                                      | None => (false, None)
                                      | Some f => let '(b, f') := Filter event f in (b, Some f')
                                      end in
                  let loaded := if drop then loaded else loaded ++ [event] in
                  let filtered := if drop then filtered + 1 else filtered in
                  level_loop fuel' i span_end (Next it) (md_next key md) flt loaded filtered
            end
        end
      else Some (inr (loaded, filtered, flt))
  end.

(** ** All levels *)

(** Where the reading of level [i] begins. *)
Definition level_min_ts (i : nat) (visible_begin : Z) : Z :=
  match i with
  | O => 0
  | S j => if LayerResolutionPs j <? visible_begin then visible_begin - LayerResolutionPs j else 0
  end.

(** The levels from [i] on, until the resolution read is fine enough. *)
Fixpoint levels_loop (fuel i : nat) (t : table) (metadata : option table) (visible_span : T)
    (container_resolution_ps : Z) (flt : option F) (by_level : list (list TraceEvent)) :
    option (Status + list (list TraceEvent)) :=
  match fuel with
  | O => None
  | S fuel' =>
      let it := Seek t (LevelDbTableKey i (level_min_ts i (begin_ps visible_span)) 0) in
      let md := match metadata, current it with
                | Some m, Some (key, _) => Some (m, Seek m key)
                | _, _ => None
                end in
      match level_loop (length (remaining it)) i (end_ps visible_span) it md flt [] 0 with
      | None => None
      | Some (inl st) => Some (inl st)
      | Some (inr (loaded, _, flt')) =>
          let by_level := by_level ++ [loaded] in
          if LayerResolutionPs i <=? container_resolution_ps then Some (inr by_level)
          else levels_loop fuel' (S i) t metadata visible_span container_resolution_ps flt' by_level
      end
  end.

(** ** What is added *)

Definition with_uid (metadata_file_exists : bool) (event : TraceEvent) : TraceEvent :=
  if metadata_file_exists && bool_decide (ev_raw_data event = None)
  then set_raw_data (Some (uid_raw_data (serial_or_0 event))) event else event.

Fixpoint add_loop (metadata_file_exists : bool) (vf : option (TraceVisibilityFilter T)) (events : list TraceEvent) :
    list TraceEvent :=
  match events with
  | [] => []
  | event :: events' =>
      let '(drop, vf) := match vf with
                         | None => (false, None)
                         | Some f => let '(b, f') := vf_Filter event f in (b, Some f')
                         end in
      if drop then add_loop metadata_file_exists vf events'
      else with_uid metadata_file_exists event :: add_loop metadata_file_exists vf events'
  end.

Definition filters_by_visibility (threshold : Z) (trace : Trace) : bool :=
  (threshold =? -1)
  || match tr_num_events trace with None => true | Some n => u64 threshold <=? n end.

(** The visibility filter as it is used, the span to load and its resolution. *)
Definition visibility_setup (filter_by_visibility : bool) (trace : Trace) (vf : option (TraceVisibilityFilter T)) :
    option (TraceVisibilityFilter T) * T * Z :=
  match vf with
  | None => (None, TraceSpan trace, 0)
  | Some f =>
      let f := if filter_by_visibility then f else UpdateVisibility (S754_zero false) f in
      let f := vf_SetUp kTpuPlanePrefix kTpuNonCorePlaneNamePrefix trace f in
      (Some f, visible_span_ (vf_visibility f), resolution_ps_ (vf_visibility f))
  end.

(** [opened]: the table of the events file; [metadata]: the one of the metadata file, none
    when there is no such file. The trace, whether it is filtered by visibility, and the
    events added to the container, in order. *)
Definition DoLoadFromLevelDbTable (opened : Status + table) (metadata : option (Status + table))
    (flt : option F) (vf : option (TraceVisibilityFilter T)) (filter_by_visibility_threshold : Z)
    (load_metadata : bool) : option (Status + (Trace * bool * list TraceEvent)) :=
  match opened with
  | inl st => Some (inl st)
  | inr t =>
      let md := match metadata with Some (inr m) => if load_metadata then Some m else None | _ => None end in
      match read_metadata t with
      | None => Some (inl UnknownError)
      | Some trace =>
          let flt := SetUp trace <$> flt in
          let filter_by_visibility := filters_by_visibility filter_by_visibility_threshold trace in
          let '(vf, visible_span, resolution) := visibility_setup filter_by_visibility trace vf in
          match levels_loop (S NumLevels) 0 t md visible_span resolution flt [] with
          | None => None
          | Some (inl st) => Some (inl st)
          | Some (inr by_level) =>
              loaded_events ← nway_merge TraceEventsComparator by_level;
              Some (inr (trace, filter_by_visibility,
                         add_loop (bool_decide (is_Some metadata)) vf loaded_events))
          end
      end
  end.
End load.

(** ** Reading a level from its entries *)

Lemma sorted_split {A} (f : A -> Z) (a : Z) (l : list A) :
  StronglySorted (fun x y => f x <= f y) l ->
  l = filter (fun x => f x < a) l ++ filter (fun x => ~ f x < a) l.
Proof.
  induction 1 as [|x l Hs IH Hall]; [done|]. destruct (decide (f x < a)) as [Hx|Hx].
  - rewrite filter_cons_True, (filter_cons_False _ x l) by (done || tauto). simpl. by f_equal.
  - rewrite filter_cons_False, (filter_cons_True _ x l) by done.
    assert (Forall (fun y => ~ f y < a) l) as Hl by (eapply Forall_impl; [exact Hall|]; simpl; intros; lia).
    rewrite (filter_none (fun y => f y < a)), filter_all; done.
Qed.

Section reading.
Context {T F : Type} `{!Timespan T, !TimespanOps T, !MakeHeap, !TableLib, !Proto TraceEvent, !Proto Trace, !EventsFilter F}.

(** The value of a key among entries. *)
Fixpoint value_of (key : bytes) (l : list entry) : option bytes :=
  match l with
  | [] => None
  | (k, v) :: l' => if bool_decide (k = key) then Some v else value_of key l'
  end.

(** The event of an entry, with the raw data the metadata has for it. *)
Definition join_metadata (ms : option (list entry)) (key : bytes) (e : TraceEvent) : TraceEvent :=
  match m ← ms; v ← value_of key m; ParseFromString v with
  | Some em => set_raw_data (Some (default [] (ev_raw_data em))) e
  | None => e
  end.
Definition entry_event (ms : option (list entry)) (en : entry) : option TraceEvent :=
  (fun e => join_metadata ms en.1 (set_timestamp (TimestampFromLevelDbTableKey en.1) e)) <$> ParseFromString en.2.

(** The metadata iterator has not passed the key. *)
Definition md_ready (ms : option (list entry)) (key : bytes) (md : option (table * iterator)) : Prop :=
  match ms, md with
  | Some m, Some (t, mit) =>
      t = table_build m /\ sorted_entries m /\
      exists pre, m = pre ++ remaining mit /\ Forall (fun e => bytes_lt e.1 key = true) pre
  | None, None => True
  | _, _ => False
  end.

Lemma value_of_skip key pre l :
  Forall (fun e => bytes_lt e.1 key = true) pre -> value_of key (pre ++ l) = value_of key l.
Proof.
  induction 1 as [|[k v] pre Hk _ IH]; [done|]. simpl in *. rewrite bool_decide_eq_false_2; [done|].
  intros ->. by rewrite bytes_lt_irrefl in Hk.
Qed.

Lemma value_of_above key l : Forall (fun e => bytes_lt key e.1 = true) l -> value_of key l = None.
Proof.
  induction 1 as [|[k v] l Hk _ IH]; [done|]. simpl in *. rewrite bool_decide_eq_false_2; [done|].
  intros ->. by rewrite bytes_lt_irrefl in Hk.
Qed.

Lemma sorted_entries_ge m key :
  sorted_entries m -> m = filter (fun e => bytes_lt e.1 key = true) m ++ filter (fun e => bytes_lt e.1 key = false) m.
Proof.
  induction 1 as [|x l Hs IH Hall]; [done|]. destruct (bytes_lt x.1 key) eqn:Hx.
  - rewrite filter_cons_True, (filter_cons_False _ x l) by (done || by rewrite Hx). simpl. by f_equal.
  - rewrite filter_cons_False, (filter_cons_True _ x l) by (done || by rewrite Hx).
    assert (Forall (fun y : entry => bytes_lt y.1 key = false) l) as Hl.
    { eapply Forall_impl; [exact Hall|]. unfold key_lt. intros y Hy. destruct (bytes_lt y.1 key) eqn:Hyk; [|done].
      by rewrite (bytes_lt_trans x.1 y.1 key) in Hx. }
    rewrite filter_none, filter_all; [done..|]. eapply Forall_impl; [exact Hl|]. simpl. intros y ->. done.
Qed.

Lemma md_ready_seek ms key t k :
  (forall m, ms = Some m -> t = table_build m /\ sorted_entries m) -> is_Some ms ->
  (k = key \/ bytes_lt k key = true) -> md_ready ms key (Some (t, Seek t k)).
Proof.
  intros Hm [m ->] Hk. destruct (Hm m eq_refl) as [-> Hs]. simpl. split_and!; [done..|].
  exists (filter (fun e => bytes_lt e.1 k = true) m). rewrite Seek_built by done. split; [by apply sorted_entries_ge|].
  apply Forall_forall. intros e [He _]%list_elem_of_filter. destruct Hk as [->|Hk]; [done|]. by eapply bytes_lt_trans.
Qed.

(** After the seek the iterator stands at the first key that is not below. *)
Lemma md_seek_spec m key mit :
  md_ready (Some m) key (Some (table_build m, mit)) ->
  exists mit', md_seek key (Some (table_build m, mit)) = Some (table_build m, mit') /\
    md_ready (Some m) key (Some (table_build m, mit')) /\
    Forall (fun x : entry => bytes_lt x.1 key = false) (remaining mit').
Proof.
  intros (_ & Hs & pre & Hm & Hpre). simpl. unfold md_key. rewrite current_head.
  destruct (remaining mit) as [|[k v] rest] eqn:Hrem; simpl.
  { exists mit. rewrite Hrem. split_and!; try done. by exists pre. }
  destruct (bytes_lt k key) eqn:Hk.
  - eexists. split; [done|]. split; [|rewrite Seek_built by done; apply Forall_forall; by intros x [? _]%list_elem_of_filter].
    apply (md_ready_seek (Some m) key); [|done|by left]. by intros ? [= <-].
  - exists mit. rewrite Hrem. split_and!; try done; [by exists pre|].
    rewrite Hm in Hs. apply StronglySorted_app in Hs as (_ & _ & Hs). apply StronglySorted_inv in Hs as [_ Hall].
    constructor; [done|]. eapply Forall_impl; [exact Hall|]. unfold key_lt. simpl. intros x Hx.
    destruct (bytes_lt x.1 key) eqn:Hxk; [|done]. by rewrite (bytes_lt_trans k x.1 key) in Hk.
Qed.

Lemma below_trans key key' (l : list entry) :
  bytes_lt key key' = true -> Forall (fun e => bytes_lt e.1 key = true) l -> Forall (fun e => bytes_lt e.1 key' = true) l.
Proof. intros Hk Hl. eapply Forall_impl; [exact Hl|]. simpl. intros x Hx. by apply (bytes_lt_trans x.1 key). Qed.

(** Reading the raw data through the iterator is the lookup, and the iterator is ready for
    the keys that follow. *)
Lemma md_lookup ms key md e :
  md_ready ms key md ->
  md_raw_data key (md_seek key md) e = join_metadata ms key e /\
  forall key', bytes_lt key key' = true -> md_ready ms key' (md_next key (md_seek key md)).
Proof.
  intros Hr. destruct ms as [m|], md as [[t mit]|]; try done. assert (t = table_build m) as -> by apply Hr.
  destruct (md_seek_spec m key mit Hr) as (mit' & -> & (_ & Hs & pre & Hm & Hpre) & Hge).
  unfold join_metadata. simpl.
  assert (value_of key m = value_of key (remaining mit')) as -> by (rewrite Hm at 1; by apply value_of_skip).
  unfold md_key. rewrite current_head. destruct (remaining mit') as [|[k v] rest] eqn:Hrem; simpl.
  { split; [done|]. intros key' Hkey'. split_and!; [done..|]. exists pre. rewrite Hrem. split; [done|]. by eapply below_trans. }
  destruct (bool_decide_reflect (k = key)) as [->|Hne]; simpl.
  - split; [by destruct (ParseFromString v)|]. intros key' Hkey'. rewrite bool_decide_eq_true_2 by done.
    split_and!; [done..|]. exists (pre ++ [(key, v)]). rewrite Next_tail, Hrem. simpl. split; [by rewrite <- app_assoc|].
    apply Forall_app. split; [by eapply below_trans|by constructor].
  - apply Forall_cons in Hge as [Hk Hge]. simpl in Hk. split.
    + assert (value_of key rest = None) as ->; [|done]. apply value_of_above.
      assert (bytes_lt key k = true) as Hlt. { destruct (bytes_lt key k) eqn:?; [done|]. destruct Hne. by apply bytes_lt_total. }
      rewrite Hm in Hs. apply StronglySorted_app in Hs as (_ & _ & Hs). apply StronglySorted_inv in Hs as [_ Hall].
      eapply Forall_impl; [exact Hall|]. unfold key_lt. simpl. intros x. by apply bytes_lt_trans.
    + intros key' Hkey'. rewrite bool_decide_eq_false_2 by congruence. split_and!; [done..|]. exists pre. rewrite Hrem.
      split; [done|]. by eapply below_trans.
Qed.

(** Entries at which the reading of level [i] ends. *)
Definition level_ends (i : nat) (span_end : Z) (l : list entry) : Prop :=
  match l with
  | [] => True
  | (k, v) :: _ => head k = Some (kLevelKey !!! i) ->
      span_end < TimestampFromLevelDbTableKey k /\ is_Some (ParseFromString v : option TraceEvent)
  end.

(** Entries of level [i] that are read. *)
Definition level_entry (i : nat) (span_end : Z) (en : entry) : Prop :=
  head en.1 = Some (kLevelKey !!! i) /\ TimestampFromLevelDbTableKey en.1 <= span_end.

(** A filter whose answers do not depend on the events seen. *)
Definition pure_filter (flt : option F) : Prop :=
  match flt with None => True | Some f => forall e, (Filter e f).2 = f end.
Definition keeps (flt : option F) (e : TraceEvent) : bool :=
  match flt with None => true | Some f => negb (Filter e f).1 end.

Lemma md_raw_data_timestamp key md e : ev_timestamp_ps (md_raw_data key md e) = ev_timestamp_ps e.
Proof. unfold md_raw_data. by repeat case_match. Qed.

Lemma app_middle {A} (l k : list A) x : l ++ x :: k = (l ++ [x]) ++ k.
Proof. by rewrite <- app_assoc. Qed.

Lemma level_loop_spec i span_end ms flt l l' es fuel it md loaded n :
  pure_filter flt -> remaining it = l ++ l' -> (length (l ++ l') <= fuel)%nat ->
  sorted_entries l -> Forall (level_entry i span_end) l -> level_ends i span_end l' ->
  Forall2 (fun en e => entry_event ms en = Some e) l es ->
  match l with [] => True | en :: _ => md_ready ms en.1 md end ->
  exists n', level_loop fuel i span_end it md flt loaded n =
    Some (inr (loaded ++ filter (fun e => keeps flt e = true) es, n', flt)).
Proof.
  intros Hpure Hrem Hf Hs Hall Hend Hes. revert fuel it md loaded n Hrem Hf Hs Hall.
  induction Hes as [|[k v] e l es Hev Hes IH]; intros fuel it md loaded n Hrem Hf Hs Hall Hmd.
  { exists n. rewrite app_nil_r. destruct l' as [|[k v] l'].
    { destruct fuel; cbn [level_loop]; by rewrite current_head, Hrem. }
    destruct fuel as [|fuel]; [simpl in Hf; lia|]. cbn [level_loop]. rewrite current_head, Hrem. simpl.
    case_bool_decide as Hk; [|done]. destruct (Hend Hk) as [Ht [e He]]. rewrite He. simpl. by rewrite (proj2 (Z.ltb_lt _ _)). }
  destruct fuel as [|fuel]; [simpl in Hf; lia|]. apply Forall_cons in Hall as [[Hk Ht] Hall]. apply StronglySorted_inv in Hs as [Hs Hgt].
  cbn [level_loop]. rewrite current_head, Hrem. cbn [app head]. simpl in Hk, Ht. rewrite bool_decide_eq_true_2 by done.
  unfold entry_event in Hev. simpl in Hev. destruct (ParseFromString v) as [parsed|]; [|done]. injection Hev as Hev.
  cbn [ev_timestamp_ps set_timestamp]. rewrite (proj2 (Z.ltb_ge _ _)) by done. cbv zeta.
  destruct (md_lookup ms k md (set_timestamp (TimestampFromLevelDbTableKey k) parsed) Hmd) as [-> Hnext]. rewrite Hev.
  assert (match l with [] => True | en :: _ => md_ready ms en.1 (md_next k (md_seek k md)) end) as Hmd'.
  { destruct l as [|en l]; [done|]. apply Hnext. by apply Forall_cons in Hgt as [? _]. }
  assert (remaining (Next it) = l ++ l') as Hrem' by (by rewrite Next_tail, Hrem). simpl in Hf.
  destruct flt as [f|]; cbn [pure_filter keeps] in *.
  - specialize (Hpure e). destruct (Filter e f) as [b f'] eqn:Hfe. simpl in Hpure. subst f'.
    assert (keeps (Some f) e = negb b) as Hkeep by (simpl; by rewrite Hfe). destruct b.
    + rewrite filter_cons_False by (simpl in Hkeep; by rewrite Hkeep). apply IH; try done. lia.
    + rewrite filter_cons_True by (simpl in Hkeep; by rewrite Hkeep). rewrite (app_middle loaded (filter _ es)). apply IH; try done. lia.
  - rewrite filter_cons_True by done. rewrite (app_middle loaded (filter _ es)). apply IH; try done. lia.
Qed.
End reading.
