(* ===== verification/TraceReload.v ===== *)
(** What is stored is what is loaded: the table written by DoStoreAsLevelDbTable for the
    levels of a container, read back by DoLoadFromLevelDbTable
    (xprof/convert/trace_viewer/trace_events.{h,cc}). *)
From Stdlib Require Import ZArith Lia.
From stdpp Require Import base list gmap sorting strings.
From S2P Require Import Prelude Timespan LevelDb PrefixTrie NwayMerge TraceEvent Visibility TraceLevels TraceStore TraceLoad.
Local Open Scope Z_scope.

(** ** The levels a resolution needs *)

(** The levels coarser than the resolution, and the first that is not. *)
Definition levels_read (resolution : Z) : nat := S (length (filter (fun r => resolution < r) kLayerResolutions)).

Ltac eval_resolution :=
  match goal with
  | |- context [LayerResolutionPs ?n] =>
      let v := eval vm_compute in (LayerResolutionPs n) in change (LayerResolutionPs n) with v
  end.

Lemma levels_read_spec resolution :
  0 <= resolution ->
  (levels_read resolution <= S NumLevels)%nat /\
  (forall j, (j < levels_read resolution - 1)%nat -> resolution < LayerResolutionPs j) /\
  LayerResolutionPs (levels_read resolution - 1) <= resolution.
Proof.
  intros Hr. unfold levels_read, NumLevels, kLayerResolutions.
  repeat match goal with
  | |- context [filter ?P (?r :: ?l)] =>
      destruct (decide (resolution < r));
      [rewrite (filter_cons_True P r l) by done|rewrite (filter_none P (r :: l)) by (repeat constructor; lia)]
  end; cbn [filter list_filter length Nat.sub].
  all: split_and!; [cbn [length]; lia| |eval_resolution; lia..].
  all: intros j Hj; do 14 (destruct j as [|j]; [first [lia|eval_resolution; lia]|]); lia.
Qed.

Lemma LayerResolutionPs_nonneg i : 0 <= LayerResolutionPs i.
Proof.
  unfold LayerResolutionPs. case_decide; [done|].
  assert (Forall (fun r => 0 <= r) kLayerResolutions) as Hall by (repeat constructor; lia).
  rewrite Forall_forall in Hall. apply Hall, list_elem_of_lookup_total_2. unfold NumLevels in *. lia.
Qed.

Lemma level_min_ts_range i b : 0 <= b < 2 ^ 64 -> 0 <= level_min_ts i b < 2 ^ 64.
Proof.
  intros Hb. destruct i as [|i]; simpl; [lia|]. destruct (Z.ltb_spec (LayerResolutionPs i) b); [|lia].
  pose proof (LayerResolutionPs_nonneg i). lia.
Qed.

Lemma level_min_ts_le i b : 0 <= b -> level_min_ts i b <= b.
Proof.
  intros Hb. destruct i as [|i]; simpl; [done|]. destruct (Z.ltb_spec (LayerResolutionPs i) b); [|done].
  pose proof (LayerResolutionPs_nonneg i). lia.
Qed.

Section reload.
Context {T F : Type} `{!Timespan T, !TimespanOps T, !MakeHeap, !TableLib, !Proto TraceEvent, !Proto Trace,
  !Proto PrefixTrieNodeProto, !EventsFilter F}.

(** ** The entries of one level *)

Section entries.
Context (serialize : TraceEvent -> Status + bytes) (enc : TraceEvent -> bytes).
Context (Henc : forall e, serialize e = inr (enc e)).

Definition key_entry (z : nat) (e : TraceEvent) : entry :=
  (LevelDbTableKey z (ev_timestamp_ps e) (serial_or_0 e), enc e).

Lemma level_entries_fmap z es :
  level_entries serialize z es = key_entry z <$> filter (fun e => serial_or_0 e < 256) es.
Proof using Henc.
  unfold level_entries. induction es as [|e es IH]; [done|]. cbn [omap list_omap]. unfold event_entry at 1.
  pose proof (key_nonempty z (ev_timestamp_ps e) (serial_or_0 e)) as Hk.
  destruct (decide (serial_or_0 e < 256)) as [Hs|Hs].
  - rewrite filter_cons_True, bool_decide_eq_false_2 by (done || intros ?%Hk; lia). rewrite Henc. simpl. by f_equal.
  - rewrite filter_cons_False, bool_decide_eq_true_2 by (done || apply Hk; lia). done.
Qed.

(** Events as they are stored: valid, with a serial that is not negative. *)
Definition event_stored (e : TraceEvent) : Prop := ev_ok e /\ 0 <= serial_or_0 e.
Definition event_order (e e' : TraceEvent) : Prop :=
  ev_timestamp_ps e < ev_timestamp_ps e' \/ ev_timestamp_ps e = ev_timestamp_ps e' /\ serial_or_0 e < serial_or_0 e'.

Lemma entries_from_key z lv en :
  Forall (Forall event_stored) lv -> en ∈ entries_from serialize z lv ->
  exists z' e, (z <= z' < z + length lv)%nat /\ event_stored e /\ serial_or_0 e < 256 /\ en = key_entry z' e.
Proof using Henc.
  revert z. induction lv as [|l lv IH]; intros z Hok; [by intros ?%not_elem_of_nil|].
  apply Forall_cons in Hok as [Hl Hok]. cbn [entries_from length]. rewrite level_entries_fmap.
  intros [(e & -> & [Hs He]%list_elem_of_filter)%list_elem_of_fmap|Hin]%elem_of_app.
  - rewrite Forall_forall in Hl. exists z, e. split_and!; try lia; auto.
  - destruct (IH (S z) Hok Hin) as (z' & e & ? & ? & ? & ->). exists z', e. split_and!; try done; lia.
Qed.

(** Seeking a time in a level: what of the level is not earlier, then the finer levels. *)
Lemma seek_entries z lv i m :
  (z + length lv <= 26)%nat -> (z <= i < 26)%nat -> 0 <= m < 2 ^ 64 -> Forall (Forall event_stored) lv ->
  filter (fun en => bytes_lt en.1 (LevelDbTableKey i m 0) = false) (entries_from serialize z lv) =
  (key_entry i <$> filter (fun e => serial_or_0 e < 256 /\ m <= ev_timestamp_ps e) (lv !!! (i - z)%nat)) ++
  entries_from serialize (S i) (drop (S i - z) lv).
Proof using Henc.
  revert z. induction lv as [|l lv IH]; intros z Hz Hi Hm Hok.
  { simpl. by rewrite drop_nil. }
  apply Forall_cons in Hok as [Hl Hok]. cbn [entries_from length] in *. rewrite filter_app.
  rewrite level_entries_fmap, filter_fmap.
  destruct (decide (z = i)) as [->|Hne].
  - rewrite Nat.sub_diag. replace (S i - i)%nat with 1%nat by lia. simpl. rewrite drop_0. f_equal.
    + rewrite list_filter_filter. f_equal. apply filter_iff_in. rewrite Forall_forall in *. intros e He.
      destruct (Hl e He) as [(? & ? & ?) ?]. simpl. split.
      * intros [Hb Hs]. split; [done|]. rewrite LevelDbTableKey_lt, bool_decide_eq_false in Hb by lia. lia.
      * intros [Hs Ht]. split; [|done]. rewrite LevelDbTableKey_lt, bool_decide_eq_false by lia. lia.
    + apply filter_all. apply Forall_forall. intros en (z' & e & ? & [(? & ? & ?) ?] & ? & ->)%entries_from_key; [|done].
      simpl. rewrite LevelDbTableKey_lt, bool_decide_eq_false by lia. lia.
  - rewrite (filter_none (fun x => bytes_lt (key_entry z x).1 _ = false)).
    + simpl. rewrite IH by (done || lia). replace (i - z)%nat with (S (i - S z)) by lia.
      replace (S i - z)%nat with (S (S i - S z)) by lia. done.
    + apply Forall_forall. intros e [Hs He]%list_elem_of_filter. rewrite Forall_forall in Hl.
      destruct (Hl e He) as [(? & ? & ?) ?]. simpl. rewrite LevelDbTableKey_lt by lia. rewrite bool_decide_eq_false. lia.
Qed.

(** ** Reading all levels *)

Section levels.
Context (lv : list (list TraceEvent)) (trace : Trace) (ms : option (list entry)) (dec : TraceEvent -> TraceEvent).
Context (Hlen : length lv = NumLevels) (Hstored : Forall (Forall event_stored) lv).
Context (Hsorted : Forall (StronglySorted event_order) lv).
Context (Hms : forall m, ms = Some m -> sorted_entries m).
Context (Hdec : forall z e, e ∈ lv !!! z -> serial_or_0 e < 256 -> entry_event ms (key_entry z e) = Some (dec e)).

(** The events of level [i] that are read: those that may overlap the span. *)
Definition level_window (b e : Z) (i : nat) : list TraceEvent :=
  filter (fun ev => serial_or_0 ev < 256 /\ level_min_ts i b <= ev_timestamp_ps ev <= e) (lv !!! i).

Definition stored_entries : list entry := (kTraceMetadataKey, SerializeAsString trace) :: entries_from serialize 0 lv.
Context (Hentries : sorted_entries stored_entries).

Lemma key_entry_level z e : serial_or_0 e < 256 -> head (key_entry z e).1 = Some (kLevelKey !!! z).
Proof. intros Hs. simpl. unfold LevelDbTableKey. by rewrite (proj2 (Z.leb_gt _ _)). Qed.

Lemma key_entry_timestamp z e : event_stored e -> serial_or_0 e < 256 ->
  TimestampFromLevelDbTableKey (key_entry z e).1 = ev_timestamp_ps e.
Proof. intros [(? & ? & ?) ?] Hs. apply key_timestamp; lia. Qed.

Lemma level_stored i e : e ∈ lv !!! i -> event_stored e.
Proof using Hstored.
  intros He. destruct (lv !! i) as [l|] eqn:Hl; [|by rewrite list_lookup_total_alt, Hl in He; apply not_elem_of_nil in He].
  rewrite (list_lookup_total_correct _ _ _ Hl) in He. rewrite Forall_lookup in Hstored.
  specialize (Hstored i l Hl). rewrite Forall_forall in Hstored. by apply Hstored.
Qed.

(** The rest of the table from the window of a level on. *)
Lemma window_split b e i :
  0 <= b < 2 ^ 64 -> (i <= NumLevels)%nat ->
  exists l', remaining (Seek (table_build stored_entries) (LevelDbTableKey i (level_min_ts i b) 0)) =
    (key_entry i <$> level_window b e i) ++ l' /\ level_ends i e l'.
Proof using Henc Hlen Hstored Hsorted Hdec Hentries.
  intros Hb Hi. change NumLevels with 13%nat in *. pose proof (level_min_ts_range i b Hb) as Hm.
  rewrite Seek_built by done. unfold stored_entries. rewrite filter_cons_False.
  2: { change kTraceMetadataKey with (47 :: str "trace"). unfold LevelDbTableKey. simpl. fold (level_char i).
       pose proof (level_char_ge i). by rewrite (proj2 (Z.ltb_lt _ _)) by lia. }
  rewrite seek_entries by (done || lia). rewrite Nat.sub_0_r.
  set (later := entries_from serialize (S i) (drop (S i - 0) lv)).
  set (l := filter (fun e => serial_or_0 e < 256 /\ level_min_ts i b <= ev_timestamp_ps e) (lv !!! i)).
  assert (StronglySorted (fun x y => ev_timestamp_ps x <= ev_timestamp_ps y) l) as Hl.
  { apply StronglySorted_filter. destruct (lv !! i) as [k|] eqn:Hk; [|rewrite list_lookup_total_alt, Hk; constructor].
    rewrite (list_lookup_total_correct _ _ _ Hk). rewrite Forall_lookup in Hsorted.
    eapply sorted_impl; [|exact (Hsorted i k Hk)]. unfold event_order. intros; lia. }
  exists ((key_entry i <$> filter (fun x => ~ ev_timestamp_ps x < e + 1) l) ++ later). split.
  - rewrite (sorted_split ev_timestamp_ps (e + 1) l Hl) at 1. rewrite fmap_app, <- app_assoc. f_equal. f_equal.
    unfold l, level_window. rewrite list_filter_filter. apply list_filter_iff. intros x. lia.
  - destruct (filter (fun x => ~ ev_timestamp_ps x < e + 1) l) as [|x l'] eqn:Hx.
    + simpl. destruct later as [|[k v] later'] eqn:Hlater; [done|]. simpl.
      assert ((k, v) ∈ later) as Hin by (rewrite Hlater; apply list_elem_of_here).
      apply entries_from_key in Hin as (z & ev & Hz & _ & Hs & [= -> ->]); [|by apply Forall_drop].
      intros Hk. pose proof (key_entry_level z ev Hs) as Hk'. simpl in Hk'. rewrite Hk' in Hk. injection Hk as Hk.
      rewrite length_drop in Hz. pose proof (level_char_lt i z). unfold level_char in *. lia.
    + assert (x ∈ filter (fun x => ~ ev_timestamp_ps x < e + 1) l) as Hin by (rewrite Hx; apply list_elem_of_here).
      apply list_elem_of_filter in Hin as [Ht Hin]. unfold l in Hin. apply list_elem_of_filter in Hin as [[Hs _] Hin].
      intros _. pose proof (key_entry_timestamp i x (level_stored i x Hin) Hs) as Hts. simpl in Hts. rewrite Hts. split; [lia|].
      specialize (Hdec i x Hin Hs). unfold entry_event in Hdec. apply fmap_Some in Hdec as (p & Hp & _). by exists p.
Qed.

Lemma read_level b e i flt :
  0 <= b < 2 ^ 64 -> (i <= NumLevels)%nat -> pure_filter flt ->
  let it := Seek (table_build stored_entries) (LevelDbTableKey i (level_min_ts i b) 0) in
  let md := match table_build <$> ms, current it with Some m, Some (key, _) => Some (m, Seek m key) | _, _ => None end in
  exists n, level_loop (length (remaining it)) i e it md flt [] 0 =
    Some (inr (filter (fun x => keeps flt x = true) (dec <$> level_window b e i), n, flt)).
Proof using Henc Hlen Hstored Hsorted Hms Hdec Hentries.
  intros Hb Hi Hpure it md. destruct (window_split b e i Hb Hi) as (l' & Hrem & Hend). fold it in Hrem.
  assert (StronglySorted event_order (level_window b e i)) as Hsw.
  { apply StronglySorted_filter. destruct (lv !! i) as [k|] eqn:Hk; [|rewrite list_lookup_total_alt, Hk; constructor].
    rewrite (list_lookup_total_correct _ _ _ Hk). rewrite Forall_lookup in Hsorted. exact (Hsorted i k Hk). }
  assert (forall x, x ∈ level_window b e i ->
    x ∈ lv !!! i /\ event_stored x /\ serial_or_0 x < 256 /\ ev_timestamp_ps x <= e) as Hin.
  { intros x [[Hs Ht] Hx]%list_elem_of_filter. split_and!; [done|by eapply level_stored|done|lia]. }
  apply (level_loop_spec i e ms flt (key_entry i <$> level_window b e i) l' (dec <$> level_window b e i) _ it md []); try done;
    [by rewrite Hrem|..].
  - eapply (sublist_sorted _ _ (remaining it)); [rewrite Hrem; by apply sublist_inserts_r|].
    unfold it. rewrite Seek_built by done. by apply StronglySorted_filter.
  - apply Forall_fmap, Forall_forall. intros x Hx. destruct (Hin x Hx) as (_ & Hst & Hs & Ht). split.
    + by apply (key_entry_level i x).
    + by rewrite (key_entry_timestamp i x Hst Hs).
  - clear -Hdec Hin. induction (level_window b e i) as [|x l IH]; [constructor|]. rewrite !fmap_cons. constructor.
    + destruct (Hin x (list_elem_of_here _ _)) as (? & ? & ? & ?). by apply Hdec.
    + apply IH. intros y Hy. apply Hin. by apply list_elem_of_further.
  - destruct (level_window b e i) as [|x l]; [done|]. rewrite fmap_cons in *. unfold md. rewrite current_head, Hrem. simpl.
    destruct ms as [m|] eqn:Hm; [|done]. simpl. apply (md_ready_seek (Some m)); [|done|by left].
    intros m' [= <-]. auto.
Qed.

(** The levels up to the resolution, each with the events of its window. *)
Lemma levels_loop_spec (span : T) resolution flt :
  0 <= resolution -> pure_filter flt ->
  levels_loop (S NumLevels) 0 (table_build stored_entries) (table_build <$> ms) span resolution flt [] =
  Some (inr ((fun i => filter (fun x => keeps flt x = true) (dec <$> level_window (begin_ps span) (end_ps span) i))
    <$> seq 0 (levels_read resolution))).
Proof using Henc Hlen Hstored Hsorted Hms Hdec Hentries.
  intros Hr Hpure. destruct (levels_read_spec resolution Hr) as (Hn & Hmore & Hlast).
  set (g := fun i => _). set (n := levels_read resolution) in *.
  assert (1 <= n)%nat as H1 by (unfold n, levels_read; lia).
  assert (forall k i acc, (i + k = n)%nat -> (1 <= k)%nat -> forall fuel, (k <= fuel)%nat ->
    levels_loop fuel i (table_build stored_entries) (table_build <$> ms) span resolution flt acc =
    Some (inr (acc ++ (g <$> seq i k)))) as Hgo.
  { induction k as [|k IH]; intros i acc Hik Hk fuel Hf; [lia|]. destruct fuel as [|fuel]; [lia|]. cbn [levels_loop].
    destruct (read_level (begin_ps span) (end_ps span) i flt) as [c Hlev]; [apply begin_ps_u64|lia|done|].
    cbv zeta in Hlev. rewrite Hlev. destruct (decide (k = 0)%nat) as [->|].
    - assert (i = n - 1)%nat as -> by lia. by rewrite (proj2 (Z.leb_le _ _)).
    - rewrite (proj2 (Z.leb_gt _ _)) by (apply Hmore; lia). rewrite IH by lia. cbn [seq]. rewrite fmap_cons.
      by rewrite <- app_assoc. }
  by rewrite (Hgo n 0%nat [] eq_refl H1 (S NumLevels)).
Qed.
End levels.
End entries.

(** ** From container to table and back *)

Section container.
Context (kTpuPlanePrefix kTpuNonCorePlaneNamePrefix : bytes) (uid_raw_data : Z -> bytes).
Implicit Types (arena : list TraceEvent) (tracks : list (list nat)).

Abbreviation Load := (DoLoadFromLevelDbTable (T := T) (F := F) kTpuPlanePrefix kTpuNonCorePlaneNamePrefix uid_raw_data).
Abbreviation Full := SerializeTraceEventForPersistingFullEvent.

Lemma level_events_stored arena lv :
  Forall (Forall (stored_ok arena)) lv -> Forall (StronglySorted (key_order arena)) lv ->
  Forall (Forall event_stored) (level_events arena lv) /\ Forall (StronglySorted event_order) (level_events arena lv).
Proof.
  intros Hst Hs. unfold level_events. rewrite !Forall_fmap. split.
  - eapply Forall_impl; [exact Hst|]. intros l Hl. simpl. apply Forall_fmap. eapply Forall_impl; [exact Hl|]. done.
  - eapply Forall_impl; [exact Hs|]. intros l Hl. simpl. by eapply StronglySorted_fmap; [|exact Hl].
Qed.

Lemma full_event_decodes z e :
  event_stored e -> serial_or_0 e < 256 ->
  entry_event None (key_entry (fun e => SerializeAsString (set_timestamp 0 e)) z e) = Some e.
Proof.
  intros He Hs. unfold entry_event. simpl. rewrite parse_serialize. simpl. unfold join_metadata. simpl.
  destruct He as [(? & ? & ?) ?]. rewrite key_timestamp by lia. by destruct e.
Qed.

Lemma read_metadata_stored trace entries :
  sorted_entries ((kTraceMetadataKey, SerializeAsString trace) :: entries) ->
  read_metadata (table_build ((kTraceMetadataKey, SerializeAsString trace) :: entries)) = Some trace.
Proof.
  intros Hs. unfold read_metadata, ReadTraceMetadata. rewrite current_head, SeekToFirst_built by done. simpl.
  by rewrite parse_serialize.
Qed.

Lemma setup_resolution fbv trace (vf : option (TraceVisibilityFilter T)) :
  0 <= (visibility_setup kTpuPlanePrefix kTpuNonCorePlaneNamePrefix fbv trace vf).2.
Proof.
  destruct vf as [f|]; simpl; [|done]. unfold vf_ResolutionPs. case_match; [done|]. apply wrap_range. lia.
Qed.

Lemma comparator_same_but_serial a a' b b' :
  same_but_serial a a' -> same_but_serial b b' -> TraceEventsComparator a' b' = TraceEventsComparator a b.
Proof. by intros [->|[n ->]] [->|[m ->]]. Qed.

Lemma level_events_sorted trace arena tracks lv arena' :
  tracks_ok arena tracks -> EventsByLevel (T := T) trace arena tracks = Some (lv, arena') ->
  Forall (StronglySorted (not_after TraceEventsComparator)) (level_events arena' lv).
Proof.
  intros Hok Hev. destruct (EventsByLevel_spec trace arena tracks Hok) as (fes & lv' & a & He & _ & _ & Hm & Hsame & _).
  rewrite Hev in He. injection He as <- <-. apply Forall_fmap, Forall_lookup. intros z l Hz. simpl.
  destruct (Hm z l Hz) as (_ & _ & Hs). eapply StronglySorted_fmap; [|apply Hs, Hok].
  intros x y. unfold not_after, ptr_cmp. by rewrite (comparator_same_but_serial _ _ _ _ (Hsame y) (Hsame x)).
Qed.

Lemma Forall_lookup_total_default {A} (P : list A -> Prop) (ll : list (list A)) i : P [] -> Forall P ll -> P (ll !!! i).
Proof.
  intros Hnil Hall. rewrite list_lookup_total_alt. destruct (ll !! i) as [l|] eqn:Hl; [|done].
  rewrite Forall_lookup in Hall. by eapply Hall.
Qed.

(** What loading the table of a container gives to the visibility filter. *)
Lemma load_stored trace arena tracks lv arena' flt vf threshold load_md :
  tracks_ok arena tracks -> EventsByLevel (T := T) trace arena tracks = Some (lv, arena') ->
  pure_filter (SetUp trace <$> flt) ->
  let fbv := filters_by_visibility threshold trace in
  let '(vf', span, resolution) := visibility_setup kTpuPlanePrefix kTpuNonCorePlaneNamePrefix fbv trace vf in
  exists merged,
    Load (inr (table_build (stored_entries Full (level_events arena' lv) trace))) None flt vf threshold load_md =
      Some (inr (trace, fbv, add_loop uid_raw_data false vf' merged)) /\
    StronglySorted (not_after TraceEventsComparator) merged /\
    merged ≡ₚ concat ((fun i => filter (fun x => keeps (SetUp trace <$> flt) x = true)
      (level_window (level_events arena' lv) (begin_ps span) (end_ps span) i)) <$> seq 0 (levels_read resolution)).
Proof.
  intros Hok Hev Hpure fbv. pose proof (setup_resolution fbv trace vf) as Hres.
  destruct (visibility_setup _ _ fbv trace vf) as [[vf' span] resolution] eqn:Hsetup. simpl in Hres.
  destruct (stored_levels _ _ _ _ _ Hok Hev) as (Hlen & _ & _ & Hst & Hs).
  destruct (level_events_stored _ _ Hst Hs) as [Hst' Hs'].
  pose proof (stored_table_sorted Full trace arena tracks lv arena' Hok Hev) as Hsorted.
  pose proof (levels_loop_spec Full (fun e => SerializeAsString (set_timestamp 0 e)) (fun e => eq_refl)
    (level_events arena' lv) trace None (fun e => e)) as Hloop.
  specialize (Hloop (ltac:(unfold level_events; by rewrite length_fmap)) Hst' Hs' (ltac:(done))).
  specialize (Hloop (fun z e He Hse => full_event_decodes z e (level_stored _ Hst' z e He) Hse) Hsorted span resolution _ Hres Hpure).
  set (by_level := (fun i => _) <$> seq 0 (levels_read resolution)) in Hloop.
  destruct (nway_merge_spec TraceEventsComparator by_level) as (merged & Hmerge & Hperm & _ & Hsort).
  exists merged. split_and!.
  - unfold DoLoadFromLevelDbTable, stored_entries. rewrite read_metadata_stored by done. fold fbv. rewrite Hsetup.
    unfold stored_entries in Hloop. cbn [fmap option_fmap option_map] in Hloop. rewrite Hloop. simpl. by rewrite Hmerge.
  - apply Hsort. unfold by_level. apply Forall_fmap, Forall_forall. intros i _. simpl. apply StronglySorted_filter.
    rewrite list_fmap_id. apply StronglySorted_filter. apply (Forall_lookup_total_default _ (level_events arena' lv)); [constructor|].
    by eapply level_events_sorted.
  - rewrite Hperm. unfold by_level. match goal with |- ?a ≡ₚ ?b => assert (a = b) as ->; [|done] end. f_equal. apply list_fmap_ext. intros. by rewrite list_fmap_id.
Qed.

(** The trace of a container covers its events. *)
Definition trace_covers (trace : Trace) arena tracks : Prop :=
  exists b e, tr_min_timestamp_ps trace = Some b /\ tr_max_timestamp_ps trace = Some e /\ 0 <= b <= e /\ e < 2 ^ 64 /\
    Forall (fun p => b <= ts arena p <= e) (concat tracks).

Lemma level_elem arena lv z (x : TraceEvent) :
  x ∈ level_events arena lv !!! z -> exists p l, lv !! z = Some l /\ p ∈ l /\ x = deref_event arena p.
Proof.
  unfold level_events. rewrite list_lookup_total_alt, list_lookup_fmap. destruct (lv !! z) as [l|]; simpl; [|by intros ?%not_elem_of_nil].
  intros (p & -> & Hp)%list_elem_of_fmap. by exists p, l.
Qed.

Lemma elem_of_concat {A} (l : list A) ll z x : ll !! z = Some l -> x ∈ l -> x ∈ concat ll.
Proof.
  intros Hz Hx. apply list_elem_of_In, in_concat. exists l. rewrite <- !list_elem_of_In. split; [by eapply list_elem_of_lookup_2|done].
Qed.

Lemma concat_all_levels {A} (P : A -> Prop) `{!forall x, Decision (P x)} (ll : list (list A)) n :
  (length ll <= n)%nat -> concat ((fun i => filter P (ll !!! i)) <$> seq 0 n) = filter P (concat ll).
Proof.
  revert n. induction ll as [|l ll IH]; intros n Hn.
  - change (concat []) with ([] : list A). cbn [filter list_filter]. generalize 0%nat. clear. induction n as [|n IH]; intros k; [done|].
    cbn [seq]. rewrite fmap_cons. cbn [concat]. rewrite IH. by destruct k.
  - destruct n as [|n]; [simpl in Hn; lia|]. cbn [seq]. rewrite fmap_cons. cbn [concat]. rewrite filter_app. f_equal.
    rewrite <- (IH n) by (simpl in Hn; lia). rewrite <- fmap_S_seq, <- list_fmap_compose. done.
Qed.

Lemma concat_level_events arena lv : concat (level_events arena lv) = deref_event arena <$> concat lv.
Proof. unfold level_events. induction lv as [|l lv IH]; [done|]. rewrite fmap_cons. cbn [concat]. by rewrite fmap_app, IH. Qed.

(** Every window of a span that covers the events is the whole level. *)
Lemma full_window trace arena tracks lv arena' b e i :
  tracks_ok arena tracks -> EventsByLevel (T := T) trace arena tracks = Some (lv, arena') -> 0 <= b ->
  Forall (fun p => b <= ts arena p <= e) (concat tracks) ->
  level_window (level_events arena' lv) b e i = filter (fun x => serial_or_0 x < 256) (level_events arena' lv !!! i).
Proof.
  intros Hok Hev Hb Hcov. destruct (stored_levels _ _ _ _ _ Hok Hev) as (_ & Hp & Hsame & _ & _).
  apply filter_iff_in, Forall_forall. intros x (p & l & Hl & Hpl & ->)%level_elem.
  pose proof (elem_of_concat _ _ _ _ Hl Hpl) as Hin. rewrite Hp in Hin. rewrite Forall_forall in Hcov.
  specialize (Hcov p Hin). unfold ts in Hcov. rewrite (same_timestamp _ _ (Hsame p)). pose proof (level_min_ts_le i b Hb). lia.
Qed.

Lemma filter_length_countb {A} (f : A -> Z) (l : list A) :
  Z.of_nat (length (filter (fun x => f x < 256) l)) + countb (fun x => 256 <=? f x) l = Z.of_nat (length l).
Proof.
  unfold countb. induction l as [|x l IH]; [done|]. cbn [foldr length]. destruct (decide (f x < 256)).
  - rewrite filter_cons_True, (proj2 (Z.leb_gt _ _)) by done. cbn [length Z.b2z]. lia.
  - rewrite filter_cons_False, (proj2 (Z.leb_le _ _)) by (done || lia). cbn [Z.b2z]. lia.
Qed.

(** C6. Storing the levels of a container in a table and loading that table, without filters,
    gives back the trace and exactly the events whose serial is below 256, each with all
    its fields, in the order of the comparator. *)
Theorem store_load_round_trip trace arena tracks file threshold load_md :
  tracks_ok arena tracks -> trace_covers trace arena tracks ->
  exists lv arena' st entries dropped added,
    EventsByLevel (T := T) trace arena tracks = Some (lv, arena') /\
    DoStoreAsLevelDbTable file trace (level_events arena' lv) Full = inr (st, entries, dropped) /\
    Load (inr (table_build entries)) None None None threshold load_md =
      Some (inr (trace, filters_by_visibility threshold trace, added)) /\
    StronglySorted (not_after TraceEventsComparator) added /\
    added ≡ₚ deref_event arena' <$> filter (fun p => serial arena' p < 256) (concat tracks) /\
    Z.of_nat (length added) + dropped = Z.of_nat (length (concat tracks)).
Proof.
  intros Hok (b & e & Hmin & Hmax & Hbe & He & Hcov).
  destruct (EventsByLevel_spec trace arena tracks Hok) as (fes & lv & arena' & Hev & _).
  destruct (stored_levels _ _ _ _ _ Hok Hev) as (Hlen & Hp & Hsame & _ & _).
  destruct (store_entries Full file trace (level_events arena' lv) full_event_total) as [st Hstore].
  destruct (load_stored trace arena tracks lv arena' None None threshold load_md Hok Hev) as (added & Hload & Hsort & Hperm); [done|].
  assert (added ≡ₚ deref_event arena' <$> filter (fun p => serial arena' p < 256) (concat lv)) as Hall.
  { rewrite Hperm. destruct (FromEndPoints_ok (T := T) b e Hbe He) as (Hb & _ & He' & _).
    unfold TraceSpan. rewrite Hmin, Hmax. cbn [default from_option id]. rewrite Hb, He'.
    rewrite (list_fmap_ext _ (fun i => filter (fun x => serial_or_0 x < 256) (level_events arena' lv !!! i))).
    - rewrite concat_all_levels; [by rewrite concat_level_events, filter_fmap|].
      unfold level_events. rewrite length_fmap, Hlen. vm_compute; lia.
    - intros _ i _. rewrite filter_all; [|by apply Forall_forall]. by eapply full_window; [..|lia|]. }
  exists lv, arena', st. do 2 eexists. exists added. split_and!; [done|exact Hstore|..].
  - etransitivity; [exact Hload|]. do 3 f_equal. clear. by induction added as [|x l IH]; [|simpl; rewrite IH].
  - done.
  - by rewrite Hall, Hp.
  - rewrite Hall, length_fmap, <- Hp, concat_level_events. unfold dropped_events.
    rewrite <- (length_fmap (deref_event arena') (concat lv)), <- filter_length_countb with (f := serial_or_0).
    by rewrite filter_fmap, length_fmap.
Qed.

(** An event of a level that ends in or after the span begins no earlier than the level's
    reading does: on finer levels events are shorter than the resolution before. *)
Lemma overlapping_read trace arena tracks lv arena' z l p b :
  tracks_ok arena tracks -> EventsByLevel (T := T) trace arena tracks = Some (lv, arena') ->
  lv !! z = Some l -> p ∈ l ->
  measured (deref_event arena p) = true \/ ev_duration_ps (deref_event arena p) = 0 ->
  b <= ts arena p + ev_duration_ps (deref_event arena p) -> level_min_ts z b <= ts arena p.
Proof.
  intros Hok Hev Hz Hp Hm Hb. pose proof (stored_levels _ _ _ _ _ Hok Hev) as (_ & Hperm & _ & _ & _).
  pose proof (elem_of_concat _ _ _ _ Hz Hp) as Hin. rewrite Hperm in Hin.
  pose proof (tk_events _ _ Hok) as Hevs. rewrite Forall_forall in Hevs. destruct (Hevs p Hin) as (? & ? & ?).
  destruct z as [|z]; simpl; [done|]. unfold ts in *. destruct (Z.ltb_spec (LayerResolutionPs z) b); [|done].
  pose proof (LayerResolutionPs_nonneg z). destruct Hm as [Hm|Hm]; [|lia].
  assert (ev_duration_ps (deref_event arena p) < LayerResolutionPs z); [|lia].
  unfold EventsByLevel in Hev. destruct (GetEventsByLevel (deref_event arena) trace tracks) as [lv'|] eqn:Hget; [|done].
  simpl in Hev. destruct (nway_merge _ _); [|done]. injection Hev as <- _.
  eapply (level_durations (T := T) (deref_event arena)); [|exact Hget|exact Hz|done|done].
  apply Forall_forall. intros t Ht. apply Forall_forall. intros q Hq. apply Hevs.
  apply list_elem_of_lookup in Ht as [j Hj]. by eapply elem_of_concat.
Qed.

(** C23. Loading a stored trace at a resolution: no event that overlaps the visible span, is at
    one of the levels the resolution needs and is kept by the filter is missed before the
    visibility filter, which gets the events in the comparator's order and nothing but events
    of the container. *)
Theorem load_covers_window trace arena tracks file lv arena' flt vf threshold load_md st entries dropped :
  tracks_ok arena tracks -> EventsByLevel (T := T) trace arena tracks = Some (lv, arena') ->
  DoStoreAsLevelDbTable file trace (level_events arena' lv) Full = inr (st, entries, dropped) ->
  pure_filter (SetUp trace <$> flt) ->
  let fbv := filters_by_visibility threshold trace in
  let '(vf', span, resolution) := visibility_setup kTpuPlanePrefix kTpuNonCorePlaneNamePrefix fbv trace vf in
  exists merged,
    Load (inr (table_build entries)) None flt vf threshold load_md =
      Some (inr (trace, fbv, add_loop uid_raw_data false vf' merged)) /\
    StronglySorted (not_after TraceEventsComparator) merged /\
    (forall x, x ∈ merged -> exists p, p ∈ concat tracks /\ x = deref_event arena' p /\ keeps (SetUp trace <$> flt) x = true) /\
    forall z l p, lv !! z = Some l -> p ∈ l -> (z < levels_read resolution)%nat -> serial arena' p < 256 ->
      measured (deref_event arena p) = true \/ ev_duration_ps (deref_event arena p) = 0 ->
      ts arena p <= end_ps span -> begin_ps span <= ts arena p + ev_duration_ps (deref_event arena p) ->
      keeps (SetUp trace <$> flt) (deref_event arena' p) = true -> deref_event arena' p ∈ merged.
Proof.
  intros Hok Hev Hstore Hpure fbv.
  destruct (store_entries Full file trace (level_events arena' lv) full_event_total) as [st' Hstore'].
  rewrite Hstore in Hstore'. injection Hstore' as -> -> _.
  pose proof (load_stored trace arena tracks lv arena' flt vf threshold load_md Hok Hev Hpure) as Hload. cbv zeta in Hload. fold fbv in Hload.
  destruct (visibility_setup _ _ fbv trace vf) as [[vf' span] resolution]. destruct Hload as (merged & Hload & Hsort & Hperm).
  destruct (stored_levels _ _ _ _ _ Hok Hev) as (Hlen & Hp & Hsame & _ & _).
  exists merged. split_and!; [exact Hload|done|..].
  - intros x. rewrite Hperm. intros (k & Hk & Hx)%list_elem_of_In%in_concat.
    apply list_elem_of_In, list_elem_of_fmap in Hk as (i & -> & _). apply list_elem_of_In in Hx. apply list_elem_of_filter in Hx as [Hkeep Hx].
    apply list_elem_of_filter in Hx as [_ Hx]. apply level_elem in Hx as (p & l & Hl & Hpl & ->). exists p. split_and!; [|done..].
    rewrite <- Hp. by eapply elem_of_concat.
  - intros z l p Hz Hpl Hres Hs Hm He Hb Hkeep. rewrite Hperm.
    eapply (elem_of_concat _ _ z). { rewrite list_lookup_fmap, lookup_seq_lt by done. done. }
    apply list_elem_of_filter. split; [done|]. apply list_elem_of_filter. split.
    + split; [done|]. rewrite (same_timestamp _ _ (Hsame p)). split; [|done]. by eapply overlapping_read.
    + cbn [plus]. unfold level_events. rewrite list_lookup_total_alt, list_lookup_fmap, Hz. simpl. apply list_elem_of_fmap. by exists p.
Qed.
End container.
End reload.

Lemma store_load_round_trip_witness :
  let pe := countable_proto TraceEvent in let pt := countable_proto Trace in let flt := options_filter [] [] in
  trace_covers sample_trace sample_arena sample_tracks /\
  exists entries added,
    DoLoadFromLevelDbTable (T := pair_span) (F := TraceEventsFilter) [] [] (fun _ => []) (inr (table_build entries)) None None None (-1) false =
      Some (inr (sample_trace, true, added)) /\
    length added = 3%nat.
Proof.
  intros pe pt flt.
  assert (trace_covers sample_trace sample_arena sample_tracks) as Hcov.
  { exists 10, 20. split_and!; [done..|lia|lia|]. repeat constructor; vm_compute; done. }
  split; [done|].
  destruct (store_load_round_trip (T := pair_span) (F := TraceEventsFilter) [] [] (fun _ => []) sample_trace sample_arena sample_tracks
    (mk_file OkStatus OkStatus OkStatus) (-1) false sample_tracks_ok Hcov)
    as (lv & arena' & st & entries & dropped & added & Hev & Hst & Hload & _ & Hp & _).
  exists entries, added. split; [exact Hload|]. rewrite Hp, length_fmap. vm_compute in Hev. injection Hev as <- <-. by vm_compute.
Defined.

Lemma load_covers_window_witness :
  let pe := countable_proto TraceEvent in let pt := countable_proto Trace in let flt := options_filter [] [] in
  let f := CreateTraceEventsFilterFromTraceOptions false in
  let vf := vfilter_new ((5, 7) : pair_span) (double_of_Z 100) false in
  exists lv arena' st entries dropped (merged : list TraceEvent) added,
    EventsByLevel (T := pair_span) sample_trace sample_arena sample_tracks = Some (lv, arena') /\
    DoStoreAsLevelDbTable (mk_file OkStatus OkStatus OkStatus) sample_trace (level_events arena' lv)
      SerializeTraceEventForPersistingFullEvent = inr (st, entries, dropped) /\
    DoLoadFromLevelDbTable [] [] (fun _ => []) (inr (table_build entries)) None (Some f) (Some vf) (-1) false =
      Some (inr (sample_trace, true, added)) /\
    deref_event arena' 0 ∈ merged /\ deref_event arena' 1 ∈ merged.
Proof.
  intros pe pt flt f vf.
  destruct (EventsByLevel (T := pair_span) sample_trace sample_arena sample_tracks) as [[lv arena']|] eqn:Hev; [|by vm_compute in Hev].
  destruct (DoStoreAsLevelDbTable (mk_file OkStatus OkStatus OkStatus) sample_trace (level_events arena' lv)
    SerializeTraceEventForPersistingFullEvent) as [st|[[st entries] dropped]] eqn:Hst;
    [vm_compute in Hev; injection Hev as <- <-; by vm_compute in Hst|].
  pose proof (load_covers_window (T := pair_span) (F := TraceEventsFilter) [] [] (fun _ => []) sample_trace sample_arena sample_tracks
    (mk_file OkStatus OkStatus OkStatus) lv arena' (Some f) (Some vf) (-1) false st entries dropped sample_tracks_ok Hev Hst
    (fun e => eq_refl)) as Hload.
  cbv zeta in Hload. vm_compute in Hev. injection Hev as <- <-.
  destruct (visibility_setup _ _ _ _ _) as [[vf' span] resolution] eqn:Hsetup. vm_compute in Hsetup.
  injection Hsetup as <- <- <-. destruct Hload as (merged & Hload & _ & _ & Hin).
  do 5 eexists. exists merged. eexists. split_and!; [done|exact Hst|exact Hload|..].
  - eapply (Hin 0%nat); [done|apply list_elem_of_here|vm_compute; lia|by vm_compute|by left|by vm_compute|by vm_compute|done].
  - eapply (Hin 0%nat); [done|apply list_elem_of_further, list_elem_of_here|vm_compute; lia|by vm_compute|by left|by vm_compute|by vm_compute|done].
Defined.
