(* ===== verification/TraceContainer.v ===== *)
(** The container of trace events (TraceEventsContainerBase of
    xprof/convert/trace_viewer/trace_events.{h,cc}): tracks of events by device and by resource
    or counter name, the operations that add events, metadata and whole containers, and the
    traversals. *)
From Stdlib Require Import ZArith Lia.
From stdpp Require Import base list gmap sorting strings.
From S2P Require Import Prelude Timespan LevelDb PrefixTrie NwayMerge TraceEvent RawData TraceLevels TraceStore Visibility.
Local Open Scope Z_scope.

(** ** Data *)

(** The entries of a std::map in the order of its keys, and those of an
    absl::flat_hash_map in some order. *)
Definition key_le {A} (p q : Z * A) : Prop := p.1 <= q.1.
#[export] Instance key_le_dec {A} : RelDecision (@key_le A).
Proof. intros p q. unfold key_le. apply _. Defined.
Definition map_items {A} (m : gmap Z A) : list (Z * A) := merge_sort key_le (map_to_list m).
Class HashIteration := {
  hash_items {A} : gmap bytes A -> list (bytes * A);
  hash_items_perm {A} (m : gmap bytes A) : hash_items m ≡ₚ map_to_list m
}.
#[export] Program Instance list_HashIteration : HashIteration := {| hash_items A m := map_to_list m |}.
Next Obligation. done. Qed.

(** [ResourceValue]: a resource or the name of a counter. *)
Abbreviation ResourceValue := (Z + bytes)%type.

Record DeviceEvents := mk_device_events {
  counter_events_by_name : gmap bytes (list nat);
  events_by_resource : gmap Z (list nat)
}.
Definition empty_device_events : DeviceEvents := mk_device_events ∅ ∅.

(** Events are referred to by their place in the arena. *)
Record TraceEventsContainer := mk_container {
  c_arena : list TraceEvent;
  events_by_device : gmap Z DeviceEvents;
  c_trace : Trace;
  filter_by_visibility : bool
}.
Definition container_new : TraceEventsContainer := mk_container [] ∅ empty_trace true.

Definition set_arena (a : list TraceEvent) (c : TraceEventsContainer) : TraceEventsContainer :=
  mk_container a (events_by_device c) (c_trace c) (filter_by_visibility c).
Definition set_trace (t : Trace) (c : TraceEventsContainer) : TraceEventsContainer :=
  mk_container (c_arena c) (events_by_device c) t (filter_by_visibility c).
Definition set_events (m : gmap Z DeviceEvents) (c : TraceEventsContainer) : TraceEventsContainer :=
  mk_container (c_arena c) m (c_trace c) (filter_by_visibility c).
Definition set_name_table (t : gmap Z bytes) (tr : Trace) : Trace :=
  mk_trace (tr_devices tr) (tr_tasks tr) (tr_min_timestamp_ps tr) (tr_max_timestamp_ps tr) (tr_num_events tr) t.
Definition set_devices (d : gmap Z Device) (tr : Trace) : Trace :=
  mk_trace d (tr_tasks tr) (tr_min_timestamp_ps tr) (tr_max_timestamp_ps tr) (tr_num_events tr) (tr_name_table tr).
Definition set_tasks (t : gmap Z bytes) (tr : Trace) : Trace :=
  mk_trace (tr_devices tr) t (tr_min_timestamp_ps tr) (tr_max_timestamp_ps tr) (tr_num_events tr) (tr_name_table tr).
Definition set_num_events (n : Z) (tr : Trace) : Trace :=
  mk_trace (tr_devices tr) (tr_tasks tr) (tr_min_timestamp_ps tr) (tr_max_timestamp_ps tr) (Some n) (tr_name_table tr).

(** [events_by_device_[d]] and a track of it, extended at the end. *)
Definition append_track (d : Z) (rv : ResourceValue) (l : list nat) (m : gmap Z DeviceEvents) : gmap Z DeviceEvents :=
  let de := default empty_device_events (m !! d) in
  <[d := match rv with
         | inl r => mk_device_events (counter_events_by_name de)
                      (<[r := default [] (events_by_resource de !! r) ++ l]> (events_by_resource de))
         | inr n => mk_device_events (<[n := default [] (counter_events_by_name de !! n) ++ l]> (counter_events_by_name de))
                      (events_by_resource de)
         end]> m.

(** The track of an event. *)
Definition event_key (e : TraceEvent) : Z * ResourceValue :=
  (ev_device_id e, match ev_resource_id e with Some r => inl r | None => inr (ev_name e) end).

Section operations.
Context {T : Type} `{!Timespan T, !TimespanOps T, !Proto RawData, !HashIteration, !StdSort}.
Context (hash : bytes -> Z).
Implicit Types c : TraceEventsContainer.

(** ** Adding events *)

Definition AddArenaEvent (p : nat) c : TraceEventsContainer :=
  let event := deref_event (c_arena c) p in
  let '(d, rv) := event_key event in
  set_events (append_track d rv [p] (events_by_device c)) (set_trace (ExpandTraceSpan (event_span event : T) (c_trace c)) c).

(** [CreateArenaEvent] and [CopyEventToArena]: the pointer to the new event. *)
Definition CopyEventToArena (event : TraceEvent) c : nat * TraceEventsContainer :=
  (length (c_arena c), set_arena (c_arena c ++ [event]) c).

Definition add_event (event : TraceEvent) c : TraceEventsContainer :=
  let '(p, c') := CopyEventToArena event c in AddArenaEvent p c'.

(** The raw data of a new event: arguments interned, none when nothing is serialized. *)
Definition intern_raw_data (raw_data : option RawData) (table : gmap Z bytes) : option bytes * gmap Z bytes :=
  match raw_data with
  | None => (None, table)
  | Some raw =>
      let '(raw', table') := MaybeInternTraceArgument hash raw table in
      let d := SerializeAsString raw' in (if bool_decide (d = []) then None else Some d, table')
  end.

(** A serial is set when it is given and positive, as 32 bits. *)
Definition new_serial (serial : option Z) : option Z :=
  match serial with Some n => if 0 <? n then Some (u32 n) else None | None => None end.

Definition intern_event (name : bytes) (raw_data : option RawData) c :
    EventName * option bytes * TraceEventsContainer :=
  let '(n, table1) := MaybeInternEventName hash name (tr_name_table (c_trace c)) in
  let '(raw, table2) := intern_raw_data raw_data table1 in
  (n, raw, set_trace (set_name_table table2 (c_trace c)) c).

Definition AddCompleteEvent (name : bytes) (resource_id device_id : Z) (timespan : T) (raw_data : option RawData)
    (group_id serial : option Z) c : TraceEventsContainer :=
  let '(n, raw, c) := intern_event name raw_data c in
  add_event (mk_event device_id (Some resource_id) n group_id (begin_ps timespan) (duration_ps timespan) raw
    None FLOW_NONE None (new_serial serial)) c.

Definition AddFlowEvent (name : bytes) (resource_id device_id : Z) (timespan : T) (flow_id : Z)
    (flow_entry_type : FlowEntryType) (flow_category : Z) (raw_data : option RawData) (group_id serial : option Z)
    c : TraceEventsContainer :=
  let '(n, raw, c) := intern_event name raw_data c in
  add_event (mk_event device_id (Some resource_id) n group_id (begin_ps timespan) (duration_ps timespan) raw
    (Some flow_id) flow_entry_type (Some (u32 flow_category)) (new_serial serial)) c.

Definition AddAsyncEvent (name : bytes) (device_id : Z) (timespan : T) (flow_id : Z)
    (flow_entry_type : FlowEntryType) (flow_category : Z) (raw_data : option RawData) (group_id serial : option Z)
    c : TraceEventsContainer :=
  let '(n, raw, c) := intern_event name raw_data c in
  add_event (mk_event device_id None n group_id (begin_ps timespan) (duration_ps timespan) raw
    (Some flow_id) flow_entry_type (Some (u32 flow_category)) (new_serial serial)) c.

Definition AddCounterEvent (name : bytes) (device_id timestamp_ps : Z) (raw_data : RawData) (serial : option Z)
    c : TraceEventsContainer :=
  add_event (mk_event device_id None (Name name) None timestamp_ps 0 (Some (SerializeAsString raw_data))
    None FLOW_NONE None (new_serial serial)) c.

(** ** Metadata *)

Definition empty_device : Device := mk_device [] 0 ∅.
Definition empty_resource : Resource := mk_resource [] 0 0.

(** What the caller does through the pointer that [MutableDevice] returns. *)
Definition MutableDevice (device_id : Z) (f : Device -> Device) c : TraceEventsContainer :=
  let devices := tr_devices (c_trace c) in
  set_trace (set_devices (<[device_id := f (default empty_device (devices !! device_id))]> devices) (c_trace c)) c.
Definition MutableResource (resource_id device_id : Z) (f : Resource -> Resource) c : TraceEventsContainer :=
  MutableDevice device_id (fun d => mk_device (dev_name d) (dev_id d)
    (<[resource_id := f (default empty_resource (dev_resources d !! resource_id))]> (dev_resources d))) c.

Definition device_metadata (device_name : Z -> bytes) (resource_name : Z -> Z -> bytes) (device_id : Z)
    (device_events : DeviceEvents) (d : Device) : Device :=
  mk_device (device_name device_id) device_id
    (foldl (fun resources '(resource_id, events) =>
       <[resource_id := mk_resource (resource_name device_id resource_id) resource_id (u32 (Z.of_nat (length events)))]> resources)
       (dev_resources d) (map_items (events_by_resource device_events))).

Definition AddMetadataEvents (device_name : Z -> bytes) (resource_name : Z -> Z -> bytes) c : TraceEventsContainer :=
  foldl (fun c '(device_id, device_events) =>
    MutableDevice device_id (device_metadata device_name resource_name device_id device_events) c)
    c (map_items (events_by_device c)).

Definition AddTask (host_id : Z) (task : bytes) c : TraceEventsContainer :=
  set_trace (set_tasks (<[host_id := task]> (tr_tasks (c_trace c))) (c_trace c)) c.

(** ** Traversals *)

Definition device_tracks (d : Z) (de : DeviceEvents) : list (Z * ResourceValue * list nat) :=
  ((fun '(n, l) => (d, inr n, l)) <$> hash_items (counter_events_by_name de)) ++
  ((fun '(r, l) => (d, inl r, l)) <$> map_items (events_by_resource de)).

(** The tracks in the order of the traversals, empty ones included. *)
Definition every_track (m : gmap Z DeviceEvents) : list (Z * ResourceValue * list nat) :=
  concat ((fun '(d, de) => device_tracks d de) <$> map_items m).

(** [ForAllMutableTracks]: the calls of the callback. *)
Definition ForAllMutableTracks c : list (Z * ResourceValue * list nat) :=
  filter (fun t => t.2 <> []) (every_track (events_by_device c)).

(** [ForAllTracks]: the callback ends the traversal by answering false. *)
Fixpoint for_tracks {A} (callback : Z -> ResourceValue -> list nat -> A -> bool * A)
    (tracks : list (Z * ResourceValue * list nat)) (a : A) : A :=
  match tracks with
  | [] => a
  | (d, rv, l) :: tracks' =>
      let '(go_on, a') := callback d rv l a in if go_on then for_tracks callback tracks' a' else a'
  end.
Definition ForAllTracks {A} (callback : Z -> ResourceValue -> list nat -> A -> bool * A) (a : A) c : A :=
  for_tracks callback (ForAllMutableTracks c) a.

Definition ForAllEvents {A} (callback : TraceEvent -> A -> A) (a : A) c : A :=
  foldl (fun a p => callback (deref_event (c_arena c) p) a) a (concat (every_track (events_by_device c)).*2).

Definition ForAllDeviceFirstEvents c : list TraceEvent :=
  omap (fun '(_, de) => match head (map_items (events_by_resource de)) with
                        | Some (_, p :: _) => Some (deref_event (c_arena c) p)
                        | _ => None end) (map_items (events_by_device c)).

(** The events of the resources by flow id, then split into flows. *)
Definition flows_of c : gmap Z (list TraceEvent) :=
  foldl (fun flows p => let e := deref_event (c_arena c) p in
           match ev_flow_id e with
           | Some id => <[id := default [] (flows !! id) ++ [e]]> flows
           | None => flows end) ∅
    (concat ((fun '(_, de) => concat (map_items (events_by_resource de)).*2) <$> map_items (events_by_device c))).
Definition ForAllFlows c : list (Z * list TraceEvent) :=
  concat ((fun '(flow_id, combined) => (fun flow => (flow_id, flow)) <$> SplitEventFlow combined) <$> map_to_list (flows_of c)).

Definition container_NumEvents c : Z := zsum ((fun l : list nat => Z.of_nat (length l)) <$> (every_track (events_by_device c)).*2).

(** The number of tracks is accumulated in an int. *)
Definition NumTracks c : Z :=
  foldl (fun tracks '(_, de) =>
    s32 (tracks + Z.of_nat (size (counter_events_by_name de)) + Z.of_nat (size (events_by_resource de))))
    0 (map_items (events_by_device c)).

(** ** Merging *)

Definition MergeTrace (other_trace : Trace) (trace : Trace) : Trace :=
  let trace := set_tasks (tr_tasks trace ∪ tr_tasks other_trace) trace in
  let trace := set_name_table (tr_name_table trace ∪ tr_name_table other_trace) trace in
  let trace := match tr_min_timestamp_ps other_trace, tr_max_timestamp_ps other_trace with
               | Some _, Some _ => ExpandTraceSpan (TraceSpan other_trace : T) trace
               | _, _ => trace end in
  set_num_events (u64 (default 0 (tr_num_events trace) + default 0 (tr_num_events other_trace))) trace.

Definition kMaxDevicesPerHost : Z := 1000.
Definition target_device (host_id other_id : Z) : Z := u32 (other_id + host_id * kMaxDevicesPerHost).

(** Devices of the other trace under their new ids; those already there stay. *)
Definition merged_devices (host_id : Z) (devices other_devices : gmap Z Device) : gmap Z Device :=
  foldl (fun m '(other_id, other_device) =>
    let target_id := target_device host_id other_id in
    match m !! target_id with
    | Some _ => m
    | None => <[target_id := mk_device (dev_name other_device) target_id (dev_resources other_device)]> m
    end) devices (map_to_list other_devices).

(** One track of the other container, whose events lie at [offset] in the arena. *)
Definition merge_track (host_id : Z) (other_devices : gmap Z Device) (offset : nat)
    (st : option (list TraceEvent * gmap Z DeviceEvents)) (t : Z * ResourceValue * list nat) :
    option (list TraceEvent * gmap Z DeviceEvents) :=
  '(arena, m) ← st;
  let '(other_device_id, rv, track) := t in
  _ ← other_devices !! other_device_id;
  let this_device_id := target_device host_id other_device_id in
  let track' := (fun p => p + offset)%nat <$> track in
  let arena' := foldl (fun a p => <[p := set_device_id this_device_id (deref_event a p)]> a) arena track' in
  Some (arena', append_track this_device_id rv track' m).

(** [Merge]: none when an event's device is missing from the other trace ([at] throws). The
    other container gives up its arenas, tracks and trace. It is another object: that [Merge]
    returns at once when both are the same one is not part of the definition, whose arguments are
    values without identity. *)
Definition Merge (other : TraceEventsContainer) (host_id : Z) c : option TraceEventsContainer :=
  if (container_NumEvents other =? 0) && bool_decide (tr_devices (c_trace other) = ∅) then Some c
  else
    let devices := merged_devices host_id (tr_devices (c_trace c)) (tr_devices (c_trace other)) in
    '(arena, events) ← foldl (merge_track host_id (tr_devices (c_trace other)) (length (c_arena c)))
      (Some (c_arena c ++ c_arena other, events_by_device c)) (ForAllMutableTracks other);
    Some (mk_container arena events (MergeTrace (c_trace other) (set_devices devices (c_trace c))) (filter_by_visibility c)).
End operations.

(** ** Tracks by key *)

Definition track_at (m : gmap Z DeviceEvents) (k : Z * ResourceValue) : list nat :=
  match m !! k.1 with
  | None => []
  | Some de => match k.2 with
               | inl r => default [] (events_by_resource de !! r)
               | inr n => default [] (counter_events_by_name de !! n)
               end
  end.

Lemma track_at_append d rv l m k :
  track_at (append_track d rv l m) k = track_at m k ++ if bool_decide (k = (d, rv)) then l else [].
Proof.
  destruct k as [d' rv']. unfold track_at, append_track. simpl. destruct (decide (d' = d)) as [->|Hd].
  - rewrite lookup_insert_eq. destruct rv as [r|n], rv' as [r'|n']; simpl.
    + destruct (decide (r' = r)) as [->|Hr].
      * rewrite lookup_insert_eq, bool_decide_eq_true_2 by done. by destruct (m !! d).
      * rewrite lookup_insert_ne, bool_decide_eq_false_2 by congruence. rewrite app_nil_r. by destruct (m !! d).
    + rewrite bool_decide_eq_false_2 by congruence. rewrite app_nil_r. by destruct (m !! d).
    + rewrite bool_decide_eq_false_2 by congruence. rewrite app_nil_r. by destruct (m !! d).
    + destruct (decide (n' = n)) as [->|Hr].
      * rewrite lookup_insert_eq, bool_decide_eq_true_2 by done. by destruct (m !! d).
      * rewrite lookup_insert_ne, bool_decide_eq_false_2 by congruence. rewrite app_nil_r. by destruct (m !! d).
  - rewrite lookup_insert_ne, bool_decide_eq_false_2 by congruence. by rewrite app_nil_r.
Qed.

Lemma map_items_perm {A} (m : gmap Z A) : map_items m ≡ₚ map_to_list m.
Proof. apply merge_sort_Permutation. Qed.

Lemma elem_of_map_items {A} (m : gmap Z A) k x : (k, x) ∈ map_items m <-> m !! k = Some x.
Proof. rewrite map_items_perm. apply elem_of_map_to_list. Qed.

Lemma NoDup_fmap_inj_keys {A B K} (g : A -> K) (l : list (A * B)) (f : A * B -> K) :
  (forall x, f x = g x.1) -> Inj (=) (=) g -> NoDup l.*1 -> NoDup (f <$> l).
Proof.
  intros Hf Hg Hnd. rewrite (list_fmap_ext f (g ∘ fst)) by done. rewrite list_fmap_compose. by apply NoDup_fmap_2.
Qed.

Section traversal.
Context `{!HashIteration}.

Lemma elem_of_every_track m d rv l :
  (d, rv, l) ∈ every_track m <->
  exists de, m !! d = Some de /\
    match rv with inl r => events_by_resource de !! r = Some l | inr n => counter_events_by_name de !! n = Some l end.
Proof.
  unfold every_track. rewrite list_elem_of_In, in_concat. setoid_rewrite <- list_elem_of_In. split.
  - intros (k & Hk & Hin). apply list_elem_of_fmap in Hk as ([d' de] & -> & Hd). apply elem_of_map_items in Hd.
    unfold device_tracks in Hin. apply elem_of_app in Hin as [Hin|Hin].
    + apply list_elem_of_fmap in Hin as ([n l'] & [= -> -> ->] & Hn). rewrite hash_items_perm in Hn.
      apply elem_of_map_to_list in Hn. by exists de.
    + apply list_elem_of_fmap in Hin as ([r l'] & [= -> -> ->] & Hr). apply elem_of_map_items in Hr. by exists de.
  - intros (de & Hd & Hl). exists (device_tracks d de). split.
    + apply list_elem_of_fmap. exists (d, de). split; [done|]. by apply elem_of_map_items.
    + unfold device_tracks. apply elem_of_app. destruct rv as [r|n]; [right|left].
      * apply list_elem_of_fmap. exists (r, l). split; [done|]. by apply elem_of_map_items.
      * apply list_elem_of_fmap. exists (n, l). split; [done|]. rewrite hash_items_perm. by apply elem_of_map_to_list.
Qed.

(** A pointer is in a track exactly when it is in the track of the key. *)
Lemma elem_of_track_at m d rv l p : (d, rv, l) ∈ every_track m -> p ∈ l <-> p ∈ track_at m (d, rv).
Proof.
  intros (de & Hd & Hl)%elem_of_every_track. unfold track_at. simpl. rewrite Hd. by destruct rv; rewrite Hl.
Qed.

Lemma track_at_elem m k p : p ∈ track_at m k -> exists l, (k.1, k.2, l) ∈ every_track m /\ p ∈ l /\ l = track_at m k.
Proof.
  destruct k as [d rv]. unfold track_at. simpl. destruct (m !! d) as [de|] eqn:Hd; [|by intros ?%not_elem_of_nil]. intros Hp.
  destruct rv as [r|n].
  - destruct (events_by_resource de !! r) as [l|] eqn:Hl; [|by apply not_elem_of_nil in Hp]. exists l.
    split; [|done]. apply elem_of_every_track. by exists de.
  - destruct (counter_events_by_name de !! n) as [l|] eqn:Hl; [|by apply not_elem_of_nil in Hp]. exists l.
    split; [|done]. apply elem_of_every_track. by exists de.
Qed.

Lemma NoDup_every_track m : NoDup (every_track m).*1.
Proof.
  unfold every_track. assert (NoDup (map_items m).*1) as Hnd by (rewrite map_items_perm; apply NoDup_fst_map_to_list).
  induction (map_items m) as [|[d de] l IH]; [constructor|]. rewrite fmap_cons in *. cbn [concat]. rewrite fmap_app.
  simpl in Hnd. apply NoDup_cons in Hnd as [Hd Hnd]. apply NoDup_app. split_and!; [| |by apply IH].
  - unfold device_tracks. rewrite fmap_app, <- !list_fmap_compose. apply NoDup_app. split_and!.
    + apply (NoDup_fmap_inj_keys (fun n => (d, inr n))); [by intros []|by intros ?? [=]|].
      rewrite hash_items_perm. apply NoDup_fst_map_to_list.
    + intros x (y & -> & _)%list_elem_of_fmap (z & Hz & _)%list_elem_of_fmap. by destruct y, z.
    + apply (NoDup_fmap_inj_keys (fun r => (d, inl r))); [by intros []|by intros ?? [=]|].
      rewrite map_items_perm. apply NoDup_fst_map_to_list.
  - intros [d' rv] Hin Hin'. apply Hd.
    assert (d' = d) as ->.
    { unfold device_tracks in Hin. rewrite fmap_app, <- !list_fmap_compose, elem_of_app in Hin.
      by destruct Hin as [([??] & [= -> _] & _)%list_elem_of_fmap|([??] & [= -> _] & _)%list_elem_of_fmap]. }
    apply list_elem_of_fmap in Hin' as ([[d' rv'] t] & [= <- <-] & Hin'). apply list_elem_of_In, in_concat in Hin' as (k & Hk & Ht).
    apply list_elem_of_In in Hk, Ht. apply list_elem_of_fmap in Hk as ([d' de'] & -> & Hde).
    apply list_elem_of_fmap. exists (d', de'). split; [|done]. simpl.
    unfold device_tracks in Ht. apply elem_of_app in Ht as [([??] & [= -> _ _] & _)%list_elem_of_fmap|([??] & [= -> _ _] & _)%list_elem_of_fmap]; done.
Qed.
End traversal.

(** ** The span of the trace *)

Definition trace_spans (tr : Trace) (b e : Z) : Prop :=
  exists m M, tr_min_timestamp_ps tr = Some m /\ tr_max_timestamp_ps tr = Some M /\ m <= b /\ e <= M.
Definition trace_bounds (tr : Trace) : Prop :=
  (forall m, tr_min_timestamp_ps tr = Some m -> 0 <= m <= max_ts) /\
  (forall M, tr_max_timestamp_ps tr = Some M -> 0 <= M <= max_ts).

Section expanding.
Context {T : Type} `{!Timespan T, !TimespanOps T}.
Implicit Types span : T.

Lemma Expand_covers span tr :
  begin_ps span <= end_ps span <= max_ts -> trace_spans (ExpandTraceSpan span tr) (begin_ps span) (end_ps span).
Proof.
  intros Hs. unfold trace_spans, ExpandTraceSpan. simpl.
  rewrite !(proj2 (Z.leb_le _ max_ts)) by lia. cbn [andb].
  assert (exists m, (if match tr_min_timestamp_ps tr with None => true | Some m => begin_ps span <? m end
    then Some (begin_ps span) else tr_min_timestamp_ps tr) = Some m /\ m <= begin_ps span) as (m & -> & ?).
  { destruct (tr_min_timestamp_ps tr) as [m|]; [|by eexists]. destruct (Z.ltb_spec (begin_ps span) m); by eexists. }
  assert (exists M, (if match tr_max_timestamp_ps tr with None => true | Some M => M <? end_ps span end
    then Some (end_ps span) else tr_max_timestamp_ps tr) = Some M /\ end_ps span <= M) as (M & -> & ?).
  { destruct (tr_max_timestamp_ps tr) as [M|]; [|by eexists]. destruct (Z.ltb_spec M (end_ps span)); by eexists. }
  by exists m, M.
Qed.

Lemma Expand_keeps span tr b e : trace_spans tr b e -> trace_spans (ExpandTraceSpan span tr) b e.
Proof.
  intros (m & M & Hm & HM & Hb & He). unfold trace_spans, ExpandTraceSpan. simpl. rewrite Hm, HM.
  destruct ((begin_ps span <=? max_ts) && (begin_ps span <? m)) eqn:H1, ((end_ps span <=? max_ts) && (M <? end_ps span)) eqn:H2.
  all: do 2 eexists; split_and!; [done..|lia|lia].
Qed.

Lemma Expand_bounds span tr : trace_bounds tr -> trace_bounds (ExpandTraceSpan span tr).
Proof.
  intros [Hm HM]. pose proof (begin_ps_u64 span). assert (0 <= end_ps span) by (rewrite end_ps_sum; apply wrap_range; lia).
  unfold trace_bounds, ExpandTraceSpan. simpl. split.
  - destruct (Z.leb_spec (begin_ps span) max_ts); simpl; [|done]. intros m.
    destruct (match tr_min_timestamp_ps tr with None => _ | Some _ => _ end); [intros [= <-]; lia|auto].
  - destruct (Z.leb_spec (end_ps span) max_ts); simpl; [|done]. intros M.
    destruct (match tr_max_timestamp_ps tr with None => _ | Some _ => _ end); [intros [= <-]; lia|auto].
Qed.
End expanding.

(** ** The invariant *)

(** The event is one of the device and the resource, or without a resource of the name. *)
Definition on_track (k : Z * ResourceValue) (e : TraceEvent) : Prop :=
  ev_device_id e = k.1 /\
  match k.2 with inl r => ev_resource_id e = Some r | inr n => ev_resource_id e = None /\ ev_name e = n end.

Lemma on_track_key k e : on_track k e <-> event_key e = k.
Proof.
  unfold on_track, event_key. destruct k as [d [r|n]]; simpl; destruct (ev_resource_id e); naive_solver.
Qed.

(** Each track holds, once each, events of its device and its resource or name; every event
    of the arena is on a track; the trace covers the events that end within the range of
    profiles. *)
Definition in_range (e : TraceEvent) : Prop := ev_ok e /\ ev_timestamp_ps e + ev_duration_ps e <= max_ts.
Record container_ok (c : TraceEventsContainer) : Prop := {
  co_nodup k : NoDup (track_at (events_by_device c) k);
  co_bound k : Forall (fun p => (p < length (c_arena c))%nat) (track_at (events_by_device c) k);
  co_key k : Forall (fun p => on_track k (deref_event (c_arena c) p)) (track_at (events_by_device c) k);
  co_span k p : p ∈ track_at (events_by_device c) k -> in_range (deref_event (c_arena c) p) ->
    trace_spans (c_trace c) (ts (c_arena c) p) (ts (c_arena c) p + ev_duration_ps (deref_event (c_arena c) p));
  co_trace : trace_bounds (c_trace c);
  co_all p : (p < length (c_arena c))%nat -> exists k, p ∈ track_at (events_by_device c) k
}.

Lemma track_key c k p :
  container_ok c -> p ∈ track_at (events_by_device c) k -> event_key (deref_event (c_arena c) p) = k.
Proof. intros Hc Hp. pose proof (co_key _ Hc k) as Hk. rewrite Forall_forall in Hk. by apply on_track_key, Hk. Qed.

Lemma container_new_ok : container_ok container_new.
Proof.
  assert (forall k, track_at ∅ k = []) as He by done.
  split; cbn [container_new events_by_device c_arena c_trace].
  - intros k. rewrite He. constructor.
  - intros k. rewrite He. constructor.
  - intros k. rewrite He. constructor.
  - intros k p. rewrite He. by intros ?%not_elem_of_nil.
  - by split.
  - simpl. lia.
Qed.

Section adding.
Context {T : Type} `{!Timespan T, !TimespanOps T, !Proto RawData}.
Context (hash : bytes -> Z).
Implicit Types c : TraceEventsContainer.

Lemma deref_app_l (a b : list TraceEvent) p : (p < length a)%nat -> deref_event (a ++ b) p = deref_event a p.
Proof. intros Hp. unfold deref_event. rewrite !list_lookup_total_alt. by rewrite lookup_app_l. Qed.
Lemma deref_app_r (a b : list TraceEvent) p : deref_event (a ++ b) (p + length a) = deref_event b p.
Proof. unfold deref_event. rewrite !list_lookup_total_alt, lookup_app_r by lia. do 2 f_equal. lia. Qed.

(** A name table is no part of the invariant. *)
Lemma set_name_table_ok t c : container_ok c -> container_ok (set_trace (set_name_table t (c_trace c)) c).
Proof. by intros [H1 H2 H3 H4 H5 H6]. Qed.

Lemma track_at_bound c k p : container_ok c -> p ∈ track_at (events_by_device c) k -> (p < length (c_arena c))%nat.
Proof. intros Hc Hp. pose proof (co_bound _ Hc k) as Hb. rewrite Forall_forall in Hb. auto. Qed.

(** Adding an event puts it at the end of its track, and leaves the other tracks, and the
    events there are, as they were. *)
Lemma add_event_spec e c :
  container_ok c ->
  let c' := add_event (T := T) e c in
  container_ok c' /\ c_arena c' = c_arena c ++ [e] /\
  (forall k, track_at (events_by_device c') k =
     track_at (events_by_device c) k ++ if bool_decide (k = event_key e) then [length (c_arena c)] else []) /\
  c_trace c' = ExpandTraceSpan (event_span e : T) (c_trace c).
Proof.
  intros Hc c'. assert (deref_event (c_arena c ++ [e]) (length (c_arena c)) = e) as Hde.
  { exact (deref_app_r (c_arena c) [e] 0). }
  assert (c' = mk_container (c_arena c ++ [e]) (append_track (event_key e).1 (event_key e).2 [length (c_arena c)] (events_by_device c))
    (ExpandTraceSpan (event_span e : T) (c_trace c)) (filter_by_visibility c)) as ->.
  { unfold c', add_event, AddArenaEvent. simpl. rewrite Hde. by destruct (event_key e). }
  assert (forall k, track_at (append_track (event_key e).1 (event_key e).2 [length (c_arena c)] (events_by_device c)) k =
    track_at (events_by_device c) k ++ if bool_decide (k = event_key e) then [length (c_arena c)] else []) as Htr.
  { intros k. rewrite track_at_append. by destruct (event_key e). }
  split_and!; [|done|by intros k; simpl; rewrite Htr|done].
  assert (forall k p, p ∈ track_at (events_by_device c) k -> deref_event (c_arena c ++ [e]) p = deref_event (c_arena c) p) as Hold.
  { intros k p Hp. apply deref_app_l. by eapply track_at_bound. }
  split; simpl; intros *; rewrite ?Htr.
  - apply NoDup_app. split_and!; [apply Hc| |case_bool_decide; [apply NoDup_singleton|constructor]].
    intros p Hp. pose proof (track_at_bound c k p Hc Hp). case_bool_decide; [|apply not_elem_of_nil].
    rewrite list_elem_of_singleton. lia.
  - apply Forall_app. rewrite length_app. simpl. split; [eapply Forall_impl; [apply (co_bound _ Hc k)|simpl; lia]|].
    case_bool_decide; [|done]. repeat constructor. lia.
  - apply Forall_app. split.
    + rewrite Forall_forall. intros p Hp. rewrite (Hold k p Hp). pose proof (co_key _ Hc k) as Hk. rewrite Forall_forall in Hk. auto.
    + case_bool_decide as Hk; [|done]. apply Forall_singleton. rewrite Hde. by apply on_track_key.
  - intros [Hp|Hp]%elem_of_app Hr.
    + unfold ts. rewrite (Hold k p Hp) in *. apply Expand_keeps. by apply (co_span _ Hc k).
    + case_bool_decide; [|by apply not_elem_of_nil in Hp]. apply list_elem_of_singleton in Hp as ->. unfold ts. rewrite Hde in *.
      destruct Hr as [Hok Hr]. destruct (event_span_ok (T := T) e Hok) as (Hb & _ & He & _). rewrite <- Hb at 1. rewrite <- He.
      apply Expand_covers. rewrite Hb, He. destruct Hok as (? & ? & ?). lia.
  - apply Expand_bounds, Hc.
  - rewrite length_app. simpl. intros Hp. destruct (decide (p = length (c_arena c))) as [->|Hne].
    + exists (event_key e). rewrite Htr, bool_decide_eq_true_2 by done. apply elem_of_app. right. apply list_elem_of_here.
    + destruct (co_all _ Hc p) as [k Hk]; [lia|]. exists k. rewrite Htr. apply elem_of_app. by left.
Qed.

Lemma intern_event_spec name raw c n raw' c' :
  intern_event hash name raw c = (n, raw', c') -> exists t, c' = set_trace (set_name_table t (c_trace c)) c.
Proof.
  unfold intern_event. destruct (MaybeInternEventName hash name _) as [n1 t1], (intern_raw_data hash raw t1) as [r2 t2].
  intros [= <- <- <-]. by exists t2.
Qed.
End adding.

(** ** Merging containers *)

Section merging.
Context {T : Type} `{!Timespan T, !TimespanOps T, !HashIteration}.
Implicit Types c other : TraceEventsContainer.

Lemma MergeTrace_keeps (other tr : Trace) b e : trace_spans tr b e -> trace_spans (MergeTrace (T := T) other tr) b e.
Proof.
  intros Hs. unfold MergeTrace. destruct (tr_min_timestamp_ps other), (tr_max_timestamp_ps other); try done.
  by apply Expand_keeps.
Qed.

Lemma MergeTrace_covers (other tr : Trace) b e :
  trace_bounds other -> trace_spans other b e -> b <= e -> trace_spans (MergeTrace (T := T) other tr) b e.
Proof.
  intros [Hm HM] (m & M & Em & EM & Hb & He) Hbe. unfold MergeTrace. rewrite Em, EM.
  specialize (Hm _ Em). specialize (HM _ EM).
  assert (max_ts < 2 ^ 64) by (vm_compute; done).
  destruct (FromEndPoints_ok (T := T) m M) as (Hbeg & _ & Hend & _); [lia..|].
  assert (TraceSpan (T := T) other = FromEndPoints m M) as -> by (unfold TraceSpan; by rewrite Em, EM).
  destruct (Expand_covers (FromEndPoints m M : T) (set_name_table (tr_name_table (set_tasks (tr_tasks tr ∪ tr_tasks other) tr)
    ∪ tr_name_table other) (set_tasks (tr_tasks tr ∪ tr_tasks other) tr))) as (m' & M' & H1 & H2 & H3 & H4); [lia|].
  exists m', M'. split_and!; [done..|lia|lia].
Qed.

Lemma MergeTrace_bounds (other tr : Trace) : trace_bounds tr -> trace_bounds (MergeTrace (T := T) other tr).
Proof.
  intros Hb. unfold MergeTrace. destruct (tr_min_timestamp_ps other), (tr_max_timestamp_ps other); try done.
  by apply (Expand_bounds (TraceSpan other : T) (set_name_table _ _)).
Qed.

(** What the merge of the tracks [l] makes of the tracks of a key. *)
Definition moved (host_id : Z) (offset : nat) (k : Z * ResourceValue) (l : list (Z * ResourceValue * list nat)) : list nat :=
  concat ((fun t => if bool_decide (k = (target_device host_id t.1.1, t.1.2)) then (fun p => p + offset)%nat <$> t.2 else []) <$> l).

(** Setting the device of some events of the arena. *)
Lemma set_devices_spec d ps (a : list TraceEvent) :
  Forall (fun p => (p < length a)%nat) ps ->
  let a' := foldl (fun a p => <[p := set_device_id d (deref_event a p)]> a) a ps in
  length a' = length a /\
  forall p, deref_event a' p = if bool_decide (p ∈ ps) then set_device_id d (deref_event a p) else deref_event a p.
Proof.
  revert a. induction ps as [|q ps IH]; intros a Hps; [split; [done|]; intros p; by rewrite bool_decide_eq_false_2 by apply not_elem_of_nil|].
  apply Forall_cons in Hps as [Hq Hps]. simpl. set (a1 := <[q := set_device_id d (deref_event a q)]> a).
  assert (length a1 = length a) as Hl by apply length_insert.
  destruct (IH a1) as [IHl IHd]; [by rewrite Hl|]. rewrite IHl, Hl. split; [done|]. intros p. rewrite IHd. unfold a1.
  rewrite deref_insert by done. destruct (decide (q = p)) as [->|Hne].
  - rewrite (bool_decide_eq_true_2 (p ∈ p :: ps)) by apply list_elem_of_here. by case_bool_decide.
  - assert (p ∈ q :: ps <-> p ∈ ps) as Hiff by (rewrite elem_of_cons; naive_solver).
    by rewrite (bool_decide_ext _ _ Hiff).
Qed.

Lemma merge_tracks_spec host_id other off ts (a : list TraceEvent) m :
  length a = (off + length (c_arena other))%nat ->
  Forall (fun t => is_Some (tr_devices (c_trace other) !! t.1.1)) ts ->
  Forall (fun t => Forall (fun p => (p < length (c_arena other))%nat) t.2) ts -> NoDup (concat ts.*2) ->
  exists a' m', foldl (merge_track host_id (tr_devices (c_trace other)) off) (Some (a, m)) ts = Some (a', m') /\
    length a' = length a /\
    (forall p, (p < off)%nat -> deref_event a' p = deref_event a p) /\
    (forall t q, t ∈ ts -> q ∈ t.2 ->
       deref_event a' (q + off) = set_device_id (target_device host_id t.1.1) (deref_event a (q + off))) /\
    (forall q, q ∉ concat ts.*2 -> deref_event a' (q + off) = deref_event a (q + off)) /\
    (forall k, track_at m' k = track_at m k ++ moved host_id off k ts).
Proof.
  revert a m. induction ts as [|[[d rv] l] ts IH]; intros a m Hlen Hdev Hb Hnd.
  { exists a, m. split_and!; try done; [by intros t q ?%not_elem_of_nil|]. intros k. unfold moved. simpl. by rewrite app_nil_r. }
  apply Forall_cons in Hdev as [[dev Hd] Hdev]. apply Forall_cons in Hb as [Hl Hb]. simpl in Hd, Hl.
  rewrite fmap_cons in Hnd. cbn [concat] in Hnd. apply NoDup_app in Hnd as (Hndl & Hdis & Hnd).
  cbn [foldl]. unfold merge_track at 2. simpl. rewrite Hd. simpl.
  set (l' := (fun p => p + off)%nat <$> l). set (d' := target_device host_id d).
  assert (forall p, (p + off)%nat ∈ l' <-> p ∈ l) as Hl'.
  { intros p. unfold l'. rewrite list_elem_of_fmap. split; [intros (q & ? & ?); by assert (p = q) as -> by lia|]. intros ?. by exists p. }
  destruct (set_devices_spec d' l' a) as [Hla Hda].
  { unfold l'. apply Forall_fmap. eapply Forall_impl; [exact Hl|]. simpl. intros; lia. }
  set (a1 := foldl _ a l') in *.
  destruct (IH a1 (append_track d' rv l' m)) as (a' & m' & Hfold & Hlen' & Hlow & Hin & Hout & Htr); [by rewrite Hla|done..|].
  exists a', m'. split_and!; [exact Hfold|by rewrite Hlen'|..].
  - intros p Hp. rewrite Hlow, Hda by done. rewrite bool_decide_eq_false_2; [done|]. unfold l'. rewrite list_elem_of_fmap. intros (q & -> & _). lia.
  - intros t q [->|Ht]%elem_of_cons Hq.
    + simpl in *. rewrite Hout by (by apply Hdis). by rewrite Hda, bool_decide_eq_true_2 by (by apply Hl').
    + rewrite (Hin t q) by done. rewrite Hda, bool_decide_eq_false_2; [done|]. rewrite Hl'. intros Hql.
      apply (Hdis q Hql). apply list_elem_of_In, in_concat. exists t.2. rewrite <- !list_elem_of_In. split; [|done].
      apply list_elem_of_fmap. by exists t.
  - intros q Hq. apply not_elem_of_app in Hq as [Hq1 Hq2].
    rewrite Hout by done. rewrite Hda, bool_decide_eq_false_2; [done|]. by rewrite Hl'.
  - intros k. rewrite Htr, track_at_append, <- app_assoc. f_equal.
Qed.

Lemma NoDup_concat_keys {K} (f : nat -> K) (l : list (K * list nat)) :
  NoDup l.*1 -> Forall (fun t => NoDup t.2 /\ forall p, p ∈ t.2 -> f p = t.1) l -> NoDup (concat l.*2).
Proof.
  induction l as [|[k ps] l IH]; intros Hk Hall; [constructor|]. rewrite fmap_cons in *. cbn [concat]. simpl in Hk.
  apply NoDup_cons in Hk as [Hk Hnd]. apply Forall_cons in Hall as [[Hps Hf] Hall]. simpl in Hps, Hf.
  apply NoDup_app. split_and!; [done| |by apply IH]. intros p Hp Hin. apply Hk.
  apply list_elem_of_In, in_concat in Hin as (qs & Hqs & Hpq). apply list_elem_of_In, list_elem_of_fmap in Hqs as ([k' qs'] & -> & Ht).
  apply list_elem_of_fmap. exists (k', qs'). split; [|done]. simpl. rewrite Forall_forall in Hall.
  destruct (Hall _ Ht) as [_ Hf']. rewrite <- (Hf p Hp). apply Hf'. by apply list_elem_of_In.
Qed.

Lemma every_track_at c t : t ∈ every_track (events_by_device c) -> t.2 = track_at (events_by_device c) t.1.
Proof.
  destruct t as [[d rv] l]. intros (de & Hd & Hl)%elem_of_every_track. unfold track_at. simpl. rewrite Hd. by destruct rv; rewrite Hl.
Qed.

Lemma tracks_nodup c : container_ok c -> NoDup (concat (ForAllMutableTracks c).*2).
Proof.
  intros Hc. apply (NoDup_concat_keys (fun p => event_key (deref_event (c_arena c) p))).
  - eapply sublist_NoDup; [apply NoDup_every_track|]. unfold ForAllMutableTracks. apply fmap_sublist, sublist_filter.
  - apply Forall_forall. intros t [_ Ht]%list_elem_of_filter. rewrite (every_track_at c t Ht). split; [apply Hc|].
    intros p Hp. by apply track_key.
Qed.

(** The tracks cover the events at their keys. *)
Lemma elem_of_tracks c p : p ∈ concat (ForAllMutableTracks c).*2 <-> exists k, p ∈ track_at (events_by_device c) k.
Proof.
  rewrite list_elem_of_In, in_concat. setoid_rewrite <- list_elem_of_In. split.
  - intros (l & (t & -> & [_ Ht]%list_elem_of_filter)%list_elem_of_fmap & Hp). exists t.1. by rewrite <- (every_track_at c t Ht).
  - intros [k (l & Hl & Hp & Heq)%track_at_elem]. exists l. split; [|done]. apply list_elem_of_fmap. exists (k.1, k.2, l).
    split; [done|]. apply list_elem_of_filter. split; [|done]. simpl. by intros ->; apply not_elem_of_nil in Hp.
Qed.

Lemma elem_of_moved host_id off k (l : list (Z * ResourceValue * list nat)) p :
  p ∈ moved host_id off k l <->
  exists t q, t ∈ l /\ q ∈ t.2 /\ k = (target_device host_id t.1.1, t.1.2) /\ p = (q + off)%nat.
Proof.
  unfold moved. rewrite list_elem_of_In, in_concat. setoid_rewrite <- list_elem_of_In. split.
  - intros (x & (t & -> & Ht)%list_elem_of_fmap & Hp). case_bool_decide as Hk; [|by apply not_elem_of_nil in Hp].
    apply list_elem_of_fmap in Hp as (q & -> & Hq). by exists t, q.
  - intros (t & q & Ht & Hq & -> & ->). eexists. split; [apply list_elem_of_fmap; by exists t|].
    rewrite bool_decide_eq_true_2 by done. apply list_elem_of_fmap. by exists q.
Qed.

Lemma NoDup_moved host_id off k (l : list (Z * ResourceValue * list nat)) : NoDup (concat l.*2) -> NoDup (moved host_id off k l).
Proof.
  intros Hnd. assert (moved host_id off k l `sublist_of` ((fun p => p + off)%nat <$> concat l.*2)) as Hs.
  { unfold moved. clear. induction l as [|t l IH]; [done|]. rewrite !fmap_cons. cbn [concat]. rewrite fmap_app.
    apply sublist_app; [|done]. case_bool_decide; [done|apply sublist_nil_l]. }
  eapply sublist_NoDup; [|exact Hs]. apply NoDup_fmap_2; [|done]. intros x y. lia.
Qed.

Lemma NumEvents_tracks c : container_NumEvents c = Z.of_nat (length (concat (ForAllMutableTracks c).*2)).
Proof.
  unfold container_NumEvents, ForAllMutableTracks, zsum. induction (every_track (events_by_device c)) as [|[k l] ts IH]; [done|].
  rewrite !fmap_cons. cbn [foldr]. rewrite IH. destruct (decide (l = [])) as [->|Hl].
  - by rewrite filter_cons_False by (simpl; tauto).
  - rewrite filter_cons_True by done. rewrite fmap_cons. cbn [concat snd]. rewrite length_app. lia.
Qed.

(** The invariant after the merge. *)
Lemma merged_ok other host_id c (a' : list TraceEvent) m' devices :
  container_ok c -> container_ok other ->
  length a' = length (c_arena c ++ c_arena other) ->
  (forall p, (p < length (c_arena c))%nat -> deref_event a' p = deref_event (c_arena c ++ c_arena other) p) ->
  (forall k q, q ∈ track_at (events_by_device other) k ->
    deref_event a' (q + length (c_arena c)) = set_device_id (target_device host_id k.1) (deref_event (c_arena other) q)) ->
  (forall k, track_at m' k =
    track_at (events_by_device c) k ++ moved host_id (length (c_arena c)) k (ForAllMutableTracks other)) ->
  container_ok (mk_container a' m' (MergeTrace (T := T) (c_trace other) (set_devices devices (c_trace c))) (filter_by_visibility c)).
Proof.
  intros Hc Ho Hlen Hlow Hq Htr. set (off := length (c_arena c)) in *.
  assert (forall k p, p ∈ track_at (events_by_device c) k -> deref_event a' p = deref_event (c_arena c) p) as Hold.
  { intros k p Hp. pose proof (track_at_bound c k p Hc Hp). rewrite Hlow by done. by apply deref_app_l. }
  assert (forall k p, p ∈ moved host_id off k (ForAllMutableTracks other) -> exists k' q,
    q ∈ track_at (events_by_device other) k' /\ k = (target_device host_id k'.1, k'.2) /\ p = (q + off)%nat) as Hmoved.
  { intros k p (t & q & [_ Ht]%list_elem_of_filter & Hqt & -> & ->)%elem_of_moved. exists t.1, q. split_and!; [|done..].
    by rewrite <- every_track_at. }
  split; simpl; intros *; rewrite ?Htr.
  - apply NoDup_app. split_and!; [apply Hc| |by apply NoDup_moved, tracks_nodup].
    intros p Hp (k' & q & _ & _ & ->)%Hmoved. pose proof (track_at_bound c k _ Hc Hp). unfold off in *. lia.
  - apply Forall_app. rewrite Hlen, length_app. split; [eapply Forall_impl; [apply (co_bound _ Hc k)|simpl; lia]|].
    apply Forall_forall. intros p (k' & q & Hqk & _ & ->)%Hmoved. pose proof (track_at_bound other k' q Ho Hqk). unfold off. lia.
  - apply Forall_app. split; apply Forall_forall.
    + intros p Hp. rewrite (Hold k p Hp). pose proof (co_key _ Hc k) as Hk. rewrite Forall_forall in Hk. auto.
    + intros p (k' & q & Hqk & -> & ->)%Hmoved. rewrite (Hq k' q Hqk). pose proof (co_key _ Ho k') as Hk. rewrite Forall_forall in Hk.
      destruct (Hk q Hqk) as [_ Hrv]. by split.
  - intros [Hp|Hp]%elem_of_app Hr.
    + unfold ts. rewrite (Hold k p Hp) in *. apply MergeTrace_keeps. by apply (co_span _ Hc k).
    + apply Hmoved in Hp as (k' & q & Hqk & -> & ->). unfold ts. rewrite (Hq k' q Hqk) in *. simpl.
      pose proof (co_span _ Ho k' q Hqk) as Hspan. apply MergeTrace_covers; [apply Ho|by apply Hspan|].
      destruct Hr as [(? & ? & ?) _]. simpl in *. lia.
  - apply MergeTrace_bounds. apply Hc.
  - rewrite Hlen, length_app. intros Hp. destruct (decide (p < off)%nat) as [Hlt|Hge].
    + destruct (co_all _ Hc p Hlt) as [k Hk]. exists k. rewrite Htr. apply elem_of_app. by left.
    + destruct (co_all _ Ho (p - off)%nat) as [k Hk]; [unfold off in *; lia|].
      exists (target_device host_id k.1, k.2). rewrite Htr. apply elem_of_app. right. apply elem_of_moved.
      destruct (track_at_elem _ _ _ Hk) as (l & Hl & Hkl & ->). exists (k.1, k.2, track_at (events_by_device other) k), (p - off)%nat.
      split_and!; [|done|done|lia]. apply list_elem_of_filter. split; [|done]. simpl. intros Hnil. rewrite Hnil in Hkl.
      by apply not_elem_of_nil in Hkl.
Qed.

(** The whole merge: what it does to the tracks, the events and the invariant. *)
Lemma Merge_spec other host_id c :
  container_ok c -> container_ok other ->
  (forall k, track_at (events_by_device other) k <> [] -> is_Some (tr_devices (c_trace other) !! k.1)) ->
  exists c', Merge (T := T) other host_id c = Some c' /\ container_ok c' /\
    (forall k, track_at (events_by_device c') k =
       track_at (events_by_device c) k ++ moved host_id (length (c_arena c)) k (ForAllMutableTracks other)) /\
    (forall p, (p < length (c_arena c))%nat -> deref_event (c_arena c') p = deref_event (c_arena c) p) /\
    (forall k q, q ∈ track_at (events_by_device other) k ->
       deref_event (c_arena c') (q + length (c_arena c)) =
         set_device_id (target_device host_id k.1) (deref_event (c_arena other) q)).
Proof.
  intros Hc Ho Hdev. unfold Merge. destruct ((container_NumEvents other =? 0) && _) eqn:Hempty.
  { apply andb_true_iff in Hempty as [Hz%Z.eqb_eq _]. rewrite NumEvents_tracks in Hz.
    assert (concat (ForAllMutableTracks other).*2 = []) as Hnil by (apply nil_length_inv; lia).
    exists c. split_and!; [done..| |done|].
    - intros k. assert (moved host_id (length (c_arena c)) k (ForAllMutableTracks other) = []) as ->; [|by rewrite app_nil_r].
      apply elem_of_nil_inv. intros p (t & q & Ht & Hq & _)%elem_of_moved. apply (not_elem_of_nil q). rewrite <- Hnil.
      apply list_elem_of_In, in_concat. exists t.2. rewrite <- !list_elem_of_In. split; [|done]. apply list_elem_of_fmap. by exists t.
    - intros k q Hq. exfalso. apply (not_elem_of_nil q). rewrite <- Hnil. apply elem_of_tracks. by exists k. }
  set (off := length (c_arena c)).
  destruct (merge_tracks_spec host_id other off (ForAllMutableTracks other) (c_arena c ++ c_arena other) (events_by_device c))
    as (a' & m' & Hfold & Hlen & Hlow & Hin & _ & Htr).
  { by rewrite length_app. }
  { apply Forall_forall. intros t [Hne Ht]%list_elem_of_filter. apply (Hdev t.1). by rewrite <- every_track_at. }
  { apply Forall_forall. intros t [_ Ht]%list_elem_of_filter. rewrite (every_track_at other t Ht). apply Ho. }
  { by apply tracks_nodup. }
  assert (forall k q, q ∈ track_at (events_by_device other) k ->
    deref_event a' (q + off) = set_device_id (target_device host_id k.1) (deref_event (c_arena other) q)) as Hq.
  { intros k q Hq. destruct (track_at_elem _ _ _ Hq) as (l & Hl & Hql & ->). rewrite (Hin (k.1, k.2, track_at (events_by_device other) k) q).
    - simpl. unfold off. by rewrite deref_app_r.
    - apply list_elem_of_filter. split; [|done]. simpl. by intros Hnil; rewrite Hnil in Hq; apply not_elem_of_nil in Hq.
    - done. }
  rewrite Hfold. eexists. split; [done|]. split_and!; simpl; [|done| |done].
  2: { intros p Hp. rewrite Hlow by done. by apply deref_app_l. }
  by apply (merged_ok other host_id c a' m').
Qed.
End merging.

(** ** Containers that operations build *)

Section building.
Context {T : Type} `{!Timespan T, !TimespanOps T, !Proto RawData, !HashIteration, !StdSort}.
Context (hash : bytes -> Z).
Implicit Types c other : TraceEventsContainer.

Lemma set_devices_ok d c : container_ok c -> container_ok (set_trace (set_devices d (c_trace c)) c).
Proof. by intros [H1 H2 H3 H4 H5 H6]. Qed.
Lemma set_tasks_ok t c : container_ok c -> container_ok (set_trace (set_tasks t (c_trace c)) c).
Proof. by intros [H1 H2 H3 H4 H5 H6]. Qed.

Lemma AddMetadataEvents_ok device_name resource_name c :
  container_ok c -> container_ok (AddMetadataEvents device_name resource_name c).
Proof.
  unfold AddMetadataEvents. generalize (map_items (events_by_device c)). intros l. revert c.
  induction l as [|[d de] l IH]; intros c Hc; [done|]. simpl. apply IH. by apply set_devices_ok.
Qed.

Lemma intern_event_ok name raw c n raw' c' : intern_event hash name raw c = (n, raw', c') -> container_ok c -> container_ok c'.
Proof. intros [t ->]%intern_event_spec Hc. by apply set_name_table_ok. Qed.

(** The containers that the operations build from an empty one. *)
Inductive built : TraceEventsContainer -> Prop :=
  | built_new : built container_new
  | built_complete name r d (span : T) raw g s c :
      built c -> built (AddCompleteEvent hash name r d span raw g s c)
  | built_flow name r d (span : T) id ty cat raw g s c :
      built c -> built (AddFlowEvent hash name r d span id ty cat raw g s c)
  | built_async name d (span : T) id ty cat raw g s c :
      built c -> built (AddAsyncEvent hash name d span id ty cat raw g s c)
  | built_counter name d t raw s c : built c -> built (AddCounterEvent (T := T) name d t raw s c)
  | built_device d f c : built c -> built (MutableDevice d f c)
  | built_resource r d f c : built c -> built (MutableResource r d f c)
  | built_metadata dn rn c : built c -> built (AddMetadataEvents dn rn c)
  | built_task h t c : built c -> built (AddTask h t c)
  | built_merge other host_id c c' :
      built c -> built other ->
      (forall k, track_at (events_by_device other) k <> [] -> is_Some (tr_devices (c_trace other) !! k.1)) ->
      Merge (T := T) other host_id c = Some c' -> built c'.

(** C10. Whatever sequence of operations built a container: every event of the
    arena is on a track, every track has the events of its device and its resource (or
    name), each event once, and the trace covers all events that end within the range of
    profiles. *)
Theorem built_containers_ok c : built c -> container_ok c.
Proof.
  induction 1 as [|name r d span raw g s c _ IH|name r d span id ty cat raw g s c _ IH|name d span id ty cat raw g s c _ IH
    |name d t raw s c _ IH|d f c _ IH|r d f c _ IH|dn rn c _ IH|h t c _ IH|other h c c' _ IHc _ IHo Hdev Hm].
  - apply container_new_ok.
  - unfold AddCompleteEvent. destruct (intern_event hash name raw c) as [[n raw'] c'] eqn:Hi.
    by eapply add_event_spec, intern_event_ok.
  - unfold AddFlowEvent. destruct (intern_event hash name raw c) as [[n raw'] c'] eqn:Hi.
    by eapply add_event_spec, intern_event_ok.
  - unfold AddAsyncEvent. destruct (intern_event hash name raw c) as [[n raw'] c'] eqn:Hi.
    by eapply add_event_spec, intern_event_ok.
  - by apply add_event_spec.
  - by apply set_devices_ok.
  - by apply set_devices_ok.
  - by apply AddMetadataEvents_ok.
  - by apply set_tasks_ok.
  - destruct (Merge_spec (T := T) other h c IHc IHo Hdev) as (c'' & Hm' & Hok & _). rewrite Hm in Hm'. by injection Hm' as <-.
Qed.

(** C27. Merging keeps the events of both containers: the tracks of the other one follow those
    here, with their events' devices renumbered by host, and the counts add up. *)
Theorem merge_keeps_events other host_id c :
  container_ok c -> container_ok other ->
  (forall k, track_at (events_by_device other) k <> [] -> is_Some (tr_devices (c_trace other) !! k.1)) ->
  exists c', Merge (T := T) other host_id c = Some c' /\ container_ok c' /\
    container_NumEvents c' = container_NumEvents c + container_NumEvents other /\
    (forall k p, p ∈ track_at (events_by_device c) k ->
       p ∈ track_at (events_by_device c') k /\ deref_event (c_arena c') p = deref_event (c_arena c) p) /\
    (forall k q, q ∈ track_at (events_by_device other) k -> exists p,
       p ∈ track_at (events_by_device c') (target_device host_id k.1, k.2) /\
       deref_event (c_arena c') p = set_device_id (target_device host_id k.1) (deref_event (c_arena other) q)).
Proof.
  intros Hc Ho Hdev. destruct (Merge_spec (T := T) other host_id c Hc Ho Hdev) as (c' & Hm & Hok & Htr & Hlow & Hq).
  exists c'. split_and!; [done..| | |].
  - rewrite !NumEvents_tracks, <- Nat2Z.inj_add. f_equal. set (off := length (c_arena c)) in *.
    rewrite <- (length_fmap (fun p => p + off)%nat (concat (ForAllMutableTracks other).*2)), <- length_app.
    apply Permutation_length, NoDup_Permutation.
    + by apply tracks_nodup.
    + apply NoDup_app. split_and!; [by apply tracks_nodup| |].
      * intros p [k Hp]%elem_of_tracks (q & -> & _)%list_elem_of_fmap. pose proof (track_at_bound c k _ Hc Hp). unfold off in *. lia.
      * apply NoDup_fmap_2; [intros x y; lia|by apply tracks_nodup].
    + intros p. rewrite elem_of_tracks, elem_of_app, elem_of_tracks, list_elem_of_fmap. setoid_rewrite Htr.
      setoid_rewrite elem_of_app. setoid_rewrite elem_of_moved. setoid_rewrite elem_of_tracks. split.
      * intros (k & [Hp|(t & q & [_ Ht]%list_elem_of_filter & Hqt & _ & ->)]); [left; by exists k|right].
        exists q. split; [done|]. exists t.1. by rewrite <- every_track_at.
      * intros [[k Hp]|(q & -> & k & Hqk)]; [exists k; by left|]. destruct (track_at_elem _ _ _ Hqk) as (l & Hl & Hql & ->).
        exists (target_device host_id k.1, k.2). right. exists (k.1, k.2, track_at (events_by_device other) k), q.
        split_and!; [|done..]. apply list_elem_of_filter. split; [|done]. simpl. intros Hnil. rewrite Hnil in Hql. by apply not_elem_of_nil in Hql.
  - intros k p Hp. rewrite Htr, elem_of_app. split; [by left|]. apply Hlow. by eapply track_at_bound.
  - intros k q Hqk. exists (q + length (c_arena c))%nat. split; [|by apply Hq]. rewrite Htr, elem_of_app. right.
    apply elem_of_moved. destruct (track_at_elem _ _ _ Hqk) as (l & Hl & Hql & ->).
    exists (k.1, k.2, track_at (events_by_device other) k), q. split_and!; [|done..]. apply list_elem_of_filter. split; [|done].
    simpl. intros Hnil. rewrite Hnil in Hql. by apply not_elem_of_nil in Hql.
Qed.
End building.

(** ** Tracks that can be stored *)

(** Events that the comparator does not tell apart belong to one track. *)
Lemma comparator_ties a b :
  TraceEventsComparator a b = false -> TraceEventsComparator b a = false -> event_key a = event_key b.
Proof.
  unfold TraceEventsComparator, event_key. intros H1 H2.
  destruct (Z.eqb_spec (ev_timestamp_ps a) (ev_timestamp_ps b)) as [Ht|]; [|rewrite (Z.eqb_sym _ (ev_timestamp_ps a)), (proj2 (Z.eqb_neq _ _)) in H2 by done; simpl in *; lia].
  rewrite Ht, Z.eqb_refl in H2. simpl in *.
  destruct (Z.eqb_spec (ev_duration_ps a) (ev_duration_ps b)) as [Hd|]; [|rewrite (Z.eqb_sym _ (ev_duration_ps a)), (proj2 (Z.eqb_neq _ _)) in H2 by done; simpl in *; lia].
  rewrite Hd, Z.eqb_refl in H2. simpl in *.
  destruct (Z.eqb_spec (ev_device_id a) (ev_device_id b)) as [Hv|]; [|rewrite (Z.eqb_sym _ (ev_device_id a)), (proj2 (Z.eqb_neq _ _)) in H2 by done; simpl in *; lia].
  rewrite Hv, Z.eqb_refl in H2. simpl in *. f_equal; [done|].
  unfold has_resource_id, resource_id_or_0 in *. destruct (ev_resource_id a), (ev_resource_id b); simpl in *; try done.
  - f_equal. lia.
  - f_equal. by apply bytes_lt_total.
Qed.

Section storing.
Context `{!HashIteration}.
Implicit Types c : TraceEventsContainer.

Definition tracks c : list (list nat) := (ForAllMutableTracks c).*2.

(** A container that operations built, whose events have valid times, no serials of their own
    and are in order in their tracks, can be stored. *)
Lemma container_tracks_ok c :
  container_ok c ->
  Forall (fun p => ev_ok (deref_event (c_arena c) p) /\ ev_serial (deref_event (c_arena c) p) = None) (concat (tracks c)) ->
  Forall (StronglySorted (not_after (ptr_cmp (deref_event (c_arena c))))) (tracks c) ->
  Z.of_nat (length (concat (tracks c))) < 2 ^ 32 -> tracks_ok (c_arena c) (tracks c).
Proof.
  intros Hc Hev Hs Hn. split; try done.
  - by apply tracks_nodup.
  - apply Forall_forall. intros p [k Hp]%elem_of_tracks. by eapply track_at_bound.
  - eapply Forall_impl; [exact Hev|]. by intros p [? _].
  - eapply Forall_impl; [exact Hev|]. by intros p [_ ?].
  - intros x y [k Hx]%elem_of_tracks [k' Hy]%elem_of_tracks H1 H2.
    assert (k = k') as <-.
    { rewrite <- (track_key c k x Hc Hx), <- (track_key c k' y Hc Hy). by apply comparator_ties. }
    destruct (track_at_elem _ _ _ Hx) as (l & Hl & Hxl & ->). exists (track_at (events_by_device c) k). split; [|done].
    unfold tracks. apply list_elem_of_fmap. exists (k.1, k.2, track_at (events_by_device c) k). split; [done|].
    apply list_elem_of_filter. split; [|done]. simpl. intros Hnil. rewrite Hnil in Hxl. by apply not_elem_of_nil in Hxl.
Qed.
End storing.

(** ** Flows *)

Section flows.
Context `{!StdSort}.
Implicit Types e : TraceEvent.

Definition starts e : bool := bool_decide (ev_flow_entry_type e = FLOW_START).
Definition ends e : bool := bool_decide (ev_flow_entry_type e = FLOW_END).

(** One flow: not empty, a start only in front, an end only at the back. *)
Definition one_flow (l : list TraceEvent) : Prop :=
  l <> [] /\ Forall (fun e => starts e = false) (tail l) /\ Forall (fun e => ends e = false) (removelast l).

(** The state of the loop: the flows so far, and whether the last is open. *)
Definition split_inv (seen : list TraceEvent) (st : list (list TraceEvent) * bool) : Prop :=
  concat st.1 = seen /\ Forall one_flow st.1 /\
  match last st.1 with
  | Some l => st.2 = match last l with Some e => negb (ends e) | None => false end
  | None => st.2 = false
  end.

Lemma removelast_snoc {A} (l : list A) x : removelast (l ++ [x]) = l.
Proof. apply removelast_last. Qed.

Lemma split_step_inv seen st e : split_inv seen st -> split_inv (seen ++ [e]) (split_step st e).
Proof.
  destruct st as [flows cur]. intros (Hc & Hall & Hcur). simpl in *. unfold split_step, split_inv.
  destruct (negb cur || bool_decide (ev_flow_entry_type e = FLOW_START)) eqn:Hnew.
  - cbv zeta. rewrite last_snoc, removelast_snoc. simpl. rewrite last_snoc. split_and!.
    + rewrite concat_app. simpl. by rewrite Hc.
    + apply Forall_app. split; [done|]. repeat constructor; done.
    + done.
  - apply orb_false_iff in Hnew as [Hopen Hstart]. apply negb_false_iff in Hopen. subst cur.
    cbv zeta. destruct (last flows) as [l|] eqn:Hlast; [|done]. apply last_Some in Hlast as [fs ->].
    rewrite removelast_snoc. simpl. rewrite last_snoc, last_snoc. apply Forall_app in Hall as [Hfs Hl].
    rewrite Forall_singleton in Hl. destruct Hl as (Hne & Ht & He). destruct (last l) as [z|] eqn:Hz; [|done].
    split_and!; [| |done].
    + rewrite concat_app in *. simpl in *. rewrite !app_nil_r in *. by rewrite <- Hc, <- app_assoc.
    + apply Forall_app. split; [done|]. repeat constructor.
      * by destruct l.
      * destruct l as [|x l]; [done|]. simpl in *. apply Forall_app. split; [done|]. by repeat constructor.
      * rewrite removelast_snoc. apply last_Some in Hz as [k ->]. rewrite removelast_snoc in He.
        apply Forall_app. split; [done|]. repeat constructor. by apply negb_true_iff.
Qed.

(** Splitting the events of a flow id: sorted by time, they are cut into flows so that a
    start always begins a flow and an end always finishes one. *)
Theorem split_flows flow :
  let flows := SplitEventFlow flow in
  concat flows = std_sort FlowEventsComparator flow /\ concat flows ≡ₚ flow /\
  StronglySorted (not_after FlowEventsComparator) (concat flows) /\ Forall one_flow flows.
Proof.
  assert (forall l seen st, split_inv seen st -> split_inv (seen ++ l) (foldl split_step st l)) as Hfold.
  { induction l as [|e l IH]; intros seen st Hst; [by rewrite app_nil_r|]. simpl.
    rewrite (app_assoc seen [e] l : seen ++ e :: l = _). by apply IH, split_step_inv. }
  destruct (Hfold (std_sort FlowEventsComparator flow) [] ([], false)) as (Hc & Hall & _); [by split_and!|].
  simpl in Hc. unfold SplitEventFlow. cbv zeta. rewrite Hc. split_and!; [done|apply std_sort_perm|apply std_sort_sorted; apply _|done].
Qed.
End flows.

(** ** Concrete containers *)

Section samples.
Context `{!Proto RawData}.

Definition sample_event_3 : TraceEvent := mk_event 3 (Some 7) (Name [102]) None 10 5 None None FLOW_NONE None None.
Definition sample_container : TraceEventsContainer :=
  MutableDevice 3 (fun d => d) (AddCompleteEvent (T := pair_span) sum_hash [102] 7 3 (10, 5) None None None container_new).

Lemma sample_container_ok : container_ok sample_container.
Proof.
  apply set_devices_ok. apply (add_event_spec (T := pair_span) sample_event_3).
  apply set_name_table_ok, container_new_ok.
Qed.

Lemma sample_container_devices k :
  track_at (events_by_device sample_container) k <> [] -> is_Some (tr_devices (c_trace sample_container) !! k.1).
Proof.
  destruct k as [d rv]. unfold track_at. cbn [fst snd]. destruct (decide (d = 3)) as [->|Hd].
  - intros _. vm_compute. by eexists.
  - assert (events_by_device sample_container !! d = None) as ->; [|done].
    change (events_by_device sample_container) with (append_track 3 (inl 7) [0%nat] ∅). unfold append_track.
    by rewrite lookup_insert_ne.
Qed.
End samples.

Lemma built_containers_ok_witness :
  let p := countable_proto RawData in
  exists c, built (T := pair_span) sum_hash c /\ container_ok c /\ container_NumEvents c = 2.
Proof.
  intros p. exists (AddCounterEvent (T := pair_span) [99] 3 20 RawNone None sample_container).
  assert (built (T := pair_span) sum_hash (AddCounterEvent (T := pair_span) [99] 3 20 RawNone None sample_container)) as Hb.
  { apply built_counter, built_device, built_complete, built_new. }
  split_and!; [done|by apply (built_containers_ok (T := pair_span) sum_hash)|by vm_compute].
Defined.

Lemma merge_keeps_events_witness :
  let p := countable_proto RawData in
  exists c', Merge (T := pair_span) sample_container 2 sample_container = Some c' /\ container_NumEvents c' = 2.
Proof.
  intros p. destruct (merge_keeps_events (T := pair_span) sample_container 2 sample_container
    sample_container_ok sample_container_ok sample_container_devices) as (c' & Hm & _ & Hn & _).
  exists c'. split; [done|]. rewrite Hn. by vm_compute.
Defined.

(** Async events with names that are interned share the track of the empty name. *)
Lemma async_long_names_share_track :
  let p := countable_proto RawData in
  let add name := AddAsyncEvent (T := pair_span) sum_hash name 3 (10, 5) 1 FLOW_START 0 None None None in
  let c := add (replicate 40 98) (add (replicate 40 97) container_new) in
  track_at (events_by_device c) (3, inr []) = [0; 1]%nat.
Proof. by vm_compute. Qed.
