(* ===== verification/TraceSearch.v ===== *)
(** Storing a trace in three tables (events, metadata, index of names), searching names in
    them and reading single events (DoStoreAsLevelDbTables, CreateAndSavePrefixTrie,
    DoSearchInLevelDbTable, DoReadFullEventFromLevelDbTable of
    xprof/convert/trace_viewer/trace_events.{h,cc}), and these operations of the container. *)
From Stdlib Require Import ZArith Lia SpecFloat.
From stdpp Require Import base list gmap sorting strings.
From S2P Require Import Prelude Timespan LevelDb PrefixTrie NwayMerge TraceEvent RawData Visibility TraceLevels.
From S2P Require Import TraceStore TraceLoad TraceReload TraceContainer.
Local Open Scope Z_scope.

Section search.
Context {T F : Type} `{!Timespan T, !TimespanOps T, !MakeHeap, !StdSort, !TableLib, !Proto TraceEvent, !Proto Trace,
  !Proto PrefixTrieNodeProto, !Proto RawData, !EventsFilter F, !HashIteration}.
Context (kTpuPlanePrefix kTpuNonCorePlaneNamePrefix : bytes).

(** ** The index of names *)

(** The name under which an event is indexed. *)
Definition indexed_name (trace : Trace) (event : TraceEvent) : bytes :=
  match ev_name_ref event with
  | Some r => match tr_name_table trace !! r with Some n => n | None => ev_name event end
  | None => ev_name event
  end.

Definition index_event (enable_metadata_indexing : bool) (trace : Trace) (zoom_level : nat) (prefix_trie : PrefixTrieNode)
    (event : TraceEvent) : PrefixTrieNode :=
  let event_id := LevelDbTableKey zoom_level (ev_timestamp_ps event) (serial_or_0 event) in
  if bool_decide (event_id = []) then prefix_trie
  else
    let event_name := indexed_name trace event in
    let prefix_trie := if bool_decide (event_name = []) then prefix_trie else Insert event_name event_id prefix_trie in
    if enable_metadata_indexing then ExtractMetadataKeys event trace event_id prefix_trie else prefix_trie.

Fixpoint index_levels (enable_metadata_indexing : bool) (trace : Trace) (zoom_level : nat)
    (events_by_level : list (list TraceEvent)) (prefix_trie : PrefixTrieNode) : PrefixTrieNode :=
  match events_by_level with
  | [] => prefix_trie
  | events :: rest =>
      index_levels enable_metadata_indexing trace (S zoom_level) rest
        (foldl (index_event enable_metadata_indexing trace zoom_level) prefix_trie events)
  end.

(** The status and the table the file then holds. *)
Definition CreateAndSavePrefixTrie (enable_metadata_indexing : bool) (file : WritableFile)
    (events_by_level : list (list TraceEvent)) (trace : Trace) : option (Status * option table) :=
  let prefix_trie := index_levels enable_metadata_indexing trace 0 events_by_level empty_node in
  if negb (status_ok (file_name file)) then Some (file_name file, None)
  else '(st, t) ← SaveAsLevelDbTable prefix_trie file; Some (st, Some t).

(** ** The three tables *)

Definition store_status (r : Status + (Status * list entry * Z)) : Status :=
  match r with inl st => st | inr (st, _, _) => st end.
Definition stored_table (r : Status + (Status * list entry * Z)) : option table :=
  match r with inl _ => None | inr (_, entries, _) => Some (table_build entries) end.

Definition DoStoreAsLevelDbTables (enable_metadata_indexing : bool) (events_by_level : list (list TraceEvent)) (trace : Trace)
    (trace_events_file trace_events_metadata_file trace_events_prefix_trie_file : WritableFile) :
    option (Status * (option table * option table * option table)) :=
  let events := DoStoreAsLevelDbTable trace_events_file trace events_by_level
                  SerializeTraceEventForPersistingEventWithoutMetadata in
  let metadata := DoStoreAsLevelDbTable trace_events_metadata_file trace events_by_level
                    SerializeTraceEventForPersistingOnlyMetadata in
  '(trie_status, trie) ← CreateAndSavePrefixTrie enable_metadata_indexing trace_events_prefix_trie_file events_by_level trace;
  Some (status_update (status_update (store_status events) (store_status metadata)) trie_status,
        (stored_table events, stored_table metadata, trie)).

(** ** Searching *)

Fixpoint std_unique (l : list bytes) : list bytes :=
  match l with
  | x :: l' => match l' with
               | y :: _ => if bool_decide (x = y) then std_unique l' else x :: std_unique l'
               | [] => [x]
               end
  | [] => []
  end.

Definition kSearchParallelizationThreshold : nat := 100.

(** The event of an identifier: whatever entry the table has from it on. *)
Definition search_event (t : table) (md : option table) (event_id : bytes) : option TraceEvent :=
  match current (Seek t event_id) with
  | None => None
  | Some (_, value) =>
      event ← ParseFromString value;
      let event := match md with
                   | None => event
                   | Some m => md_raw_data event_id (Some (m, Seek m event_id)) event
                   end in
      Some (set_timestamp (TimestampFromLevelDbTableKey event_id) event)
  end.

(** The part of thread [i] out of [n]. *)
Definition thread_ids (event_ids : list bytes) (n i : nat) : list bytes :=
  let start := (length event_ids * i / n)%nat in
  let end_ := (length event_ids * (i + 1) / n)%nat in
  take (end_ - start) (drop start event_ids).

Definition found_events (t : table) (md : option table) (event_ids : list bytes) (num_threads : nat) : list TraceEvent :=
  concat ((fun i => omap (search_event t md) (thread_ids event_ids num_threads i)) <$> seq 0 num_threads).

Fixpoint add_matches (flt : option F) (events : list TraceEvent) : list TraceEvent :=
  match events with
  | [] => []
  | event :: events' =>
      let '(drop, flt) := match flt with
                          | None => (false, None)
                          | Some f => let '(b, f') := Filter event f in (b, Some f')
                          end in
      if drop then add_matches flt events' else with_uid uid_raw_data true event :: add_matches flt events'
  end.

(** A missing index means that nothing is found. *)
Definition search_status (r : Status + list PrefixSearchResult) : Status + list PrefixSearchResult :=
  match r with inl NotFoundError => inr [] | _ => r end.

Definition DoSearchInLevelDbTable (trie_file events_file metadata_file : Status + table) (event_name_prefix : bytes)
    (flt : option F) (search_metadata : bool) (max_parallelism : nat) : option (Status + (Trace * list TraceEvent)) :=
  search_results ← search_status <$> LoadTrieAsLevelDbTableAndSearch trie_file event_name_prefix;
  match events_file with
  | inl st => Some (inl st)
  | inr t =>
      match search_results with
      | inl st => Some (inl st)
      | inr results =>
          match read_metadata t with
          | None => Some (inl UnknownError)
          | Some trace =>
              let flt := SetUp trace <$> flt in
              let event_ids := concat (result_ids <$> results) in
              if bool_decide (event_ids = []) then Some (inr (trace, []))
              else
                let event_ids := std_unique (std_sort bytes_lt event_ids) in
                let num_threads := Nat.min max_parallelism
                  (if (length event_ids <? kSearchParallelizationThreshold)%nat then 1 else length event_ids)%nat in
                let md := if search_metadata then match metadata_file with inr m => Some m | inl _ => None end else None in
                Some (inr (trace, add_matches flt (found_events t md event_ids num_threads)))
          end
      end
  end.

(** ** Reading one event *)

Definition with_table_name (trace : Trace) (event : TraceEvent) : TraceEvent :=
  match ev_name_ref event with
  | Some r => match tr_name_table trace !! r with Some n => set_name n event | None => event end
  | None => event
  end.

Fixpoint full_event_loop (t m : table) (trace : Trace) (event_name : bytes) (timestamp_ps duration_ps unique_id : Z)
    (levels : list nat) : Status + (Trace * TraceEvent) :=
  match levels with
  | [] => inl NotFoundError
  | zoom_level :: levels' =>
      let key := LevelDbTableKey zoom_level (u64 timestamp_ps) (u64 unique_id) in
      let next := full_event_loop t m trace event_name timestamp_ps duration_ps unique_id levels' in
      match current (Seek t key) with
      | Some (k, value) =>
          if bool_decide (k = key) then
            match ParseFromString value with
            | None => inl UnknownError
            | Some event =>
                let event := with_table_name trace event in
                if negb (bool_decide (ev_name event = event_name)) || negb (ev_duration_ps event =? u64 duration_ps) then next
                else
                  let metadata := match current (Seek m key) with
                                  | Some (k', v) => if bool_decide (k' = key) then ParseFromString v else Some inhabitant
                                  | None => Some inhabitant
                                  end in
                  match metadata with
                  | None => inl UnknownError
                  | Some event_metadata =>
                      let event := set_raw_data (Some (default [] (ev_raw_data event_metadata)))
                                     (set_timestamp (u64 timestamp_ps) event) in
                      match GetEventReferencesInTraceNameTable raw_data_refs event with
                      | inl st => inl st
                      | inr refs => inr (PurgeIrrelevantEntriesInTraceNameTable trace refs, event)
                      end
                  end
            end
          else next
      | None => next
      end
  end.

Definition DoReadFullEventFromLevelDbTable (events_file metadata_file : Status + table) (event_name : bytes)
    (timestamp_ps duration_ps unique_id : Z) : Status + (Trace * TraceEvent) :=
  match events_file, metadata_file with
  | inl st, _ | inr _, inl st => inl st
  | inr t, inr m =>
      match read_metadata t with
      | None => inl UnknownError
      | Some trace => full_event_loop t m trace event_name timestamp_ps duration_ps unique_id (seq 0 NumLevels)
      end
  end.

(** ** These operations of the container *)

Implicit Types c : TraceEventsContainer.

Definition stored_trace c : Trace := set_num_events (container_NumEvents c) (c_trace c).

(** The levels of the container, which gets the serials; the tracks are those of the traversal. *)
Definition container_EventsByLevel c : option (list (list TraceEvent) * TraceEventsContainer) :=
  '(lv, arena) ← EventsByLevel (T := T) (c_trace c) (c_arena c) (tracks c);
  Some (level_events arena lv, set_arena arena c).

Definition SortedEvents c : option (list nat) := MergeEventTracks (deref_event (c_arena c)) (tracks c).

Definition StoreAsLevelDbTable (file : WritableFile) c :
    option (Status + (Status * list entry * Z)) :=
  '(lv, _) ← container_EventsByLevel c;
  Some (DoStoreAsLevelDbTable file (stored_trace c) lv SerializeTraceEventForPersistingFullEvent).

Definition StoreAsLevelDbTables (enable_metadata_indexing : bool) (f1 f2 f3 : WritableFile) c :
    option (Status * (option table * option table * option table)) :=
  '(lv, _) ← container_EventsByLevel c;
  if negb (status_ok (file_name f1)) then Some (file_name f1, (None, None, None))
  else DoStoreAsLevelDbTables enable_metadata_indexing lv (stored_trace c) f1 f2 f3.

(** What loading adds, in order, to the container whose trace is the one read. *)
Definition add_loaded (trace : Trace) (events : list TraceEvent) c : TraceEventsContainer :=
  foldl (fun c e => add_event (T := T) e c) (set_trace trace c) events.

Definition LoadFromLevelDbTable (events_file : Status + table) (metadata_file : option (Status + table)) (flt : option F)
    (vf : option (TraceVisibilityFilter T)) (threshold : Z) (load_metadata : bool) c :
    option (Status + TraceEventsContainer) :=
  r ← DoLoadFromLevelDbTable kTpuPlanePrefix kTpuNonCorePlaneNamePrefix uid_raw_data events_file metadata_file flt vf threshold load_metadata;
  Some match r with
       | inl st => inl st
       | inr (trace, fbv, events) =>
           let c' := add_loaded trace events c in
           inr (mk_container (c_arena c') (events_by_device c') (c_trace c') fbv)
       end.

Definition SearchInLevelDbTable (trie_file events_file metadata_file : Status + table) (event_name_prefix : bytes)
    (flt : option F) (search_metadata : bool) (max_parallelism : nat) c : option (Status + TraceEventsContainer) :=
  r ← DoSearchInLevelDbTable trie_file events_file metadata_file event_name_prefix flt search_metadata max_parallelism;
  Some match r with inl st => inl st | inr (trace, events) => inr (add_loaded trace events c) end.

Definition ReadFullEventFromLevelDbTable (events_file metadata_file : Status + table) (event_name : bytes)
    (timestamp_ps duration_ps unique_id : Z) c : Status + TraceEventsContainer :=
  match DoReadFullEventFromLevelDbTable events_file metadata_file event_name timestamp_ps duration_ps unique_id with
  | inl st => inl st
  | inr (trace, event) => inr (add_loaded trace [event] c)
  end.
End search.

(** ** Events with their levels *)

Fixpoint located (z : nat) (lv : list (list TraceEvent)) : list (nat * TraceEvent) :=
  match lv with
  | [] => []
  | l :: lv' => (pair z <$> l) ++ located (S z) lv'
  end.

Definition event_id (x : nat * TraceEvent) : bytes := LevelDbTableKey x.1 (ev_timestamp_ps x.2) (serial_or_0 x.2).
Definition has_id (x : nat * TraceEvent) : Prop := serial_or_0 x.2 < 256.
#[export] Instance has_id_dec x : Decision (has_id x).
Proof. unfold has_id. apply _. Defined.

Lemma located_snd z lv : (located z lv).*2 = concat lv.
Proof.
  revert z. induction lv as [|l lv IH]; intros z; [done|]. cbn [located concat]. rewrite fmap_app, IH. f_equal.
  rewrite <- list_fmap_compose. apply list_fmap_id.
Qed.

Lemma elem_of_located z lv i e : (i, e) ∈ located z lv <-> (z <= i)%nat /\ exists l, lv !! (i - z)%nat = Some l /\ e ∈ l.
Proof.
  revert z. induction lv as [|l lv IH]; intros z; cbn [located].
  { rewrite elem_of_nil. split; [done|]. by intros (_ & l & ? & _). }
  rewrite elem_of_app, IH, list_elem_of_fmap. split.
  - intros [(e' & [= -> ->] & He)|(Hi & l' & Hl & He)].
    + split; [done|]. exists l. by rewrite Nat.sub_diag.
    + split; [lia|]. exists l'. by replace (i - z)%nat with (S (i - S z)) by lia.
  - intros (Hi & l' & Hl & He). destruct (decide (i = z)) as [->|Hne].
    + left. rewrite Nat.sub_diag in Hl. injection Hl as ->. by exists e.
    + right. split; [lia|]. exists l'. by replace (i - z)%nat with (S (i - S z)) in Hl by lia.
Qed.

Section tables.
Context `{!TableLib}.

Lemma entries_located serialize enc z lv :
  (forall e, serialize e = inr (enc e)) ->
  entries_from serialize z lv = (fun x => (event_id x, enc x.2)) <$> filter has_id (located z lv).
Proof.
  intros Henc. revert z. induction lv as [|l lv IH]; intros z; [done|]. cbn [entries_from located].
  rewrite (level_entries_fmap serialize enc Henc), IH, filter_app, fmap_app. f_equal.
  rewrite filter_fmap, <- list_fmap_compose. done.
Qed.

(** Seeking a key that is there. *)
Lemma seek_exact l k v : sorted_entries l -> (k, v) ∈ l -> current (Seek (table_build l) k) = Some (k, v).
Proof.
  intros Hs Hin. rewrite current_head, Seek_built by done. apply list_elem_of_split in Hin as (l1 & l2 & ->).
  rewrite filter_app, (filter_none _ l1).
  - rewrite filter_cons_True by apply bytes_lt_irrefl. done.
  - apply StronglySorted_app in Hs as (Hcross & _ & _). apply Forall_forall. intros x Hx.
    specialize (Hcross x (k, v) Hx (list_elem_of_here _ _)). unfold key_lt in Hcross. simpl in *. by rewrite Hcross.
Qed.

(** Seeking a key that is not there finds another one or none. *)
Lemma seek_absent l k : sorted_entries l -> k ∉ l.*1 ->
  match current (Seek (table_build l) k) with Some (k', _) => k' <> k | None => True end.
Proof.
  intros Hs Hk. rewrite current_head, Seek_built by done.
  destruct (filter (fun e : entry => bytes_lt e.1 k = false) l) as [|[k' v] l'] eqn:Hf; [done|]. simpl. intros ->. apply Hk.
  assert ((k, v) ∈ filter (fun e : entry => bytes_lt e.1 k = false) l) as [_ Hin]%list_elem_of_filter by (rewrite Hf; apply list_elem_of_here).
  apply list_elem_of_fmap. by exists (k, v).
Qed.
End tables.

(** An element of lists without common elements is in one of them. *)
Lemma same_level {A} (ll : list (list A)) : NoDup (concat ll) ->
  forall i j k l x, ll !! i = Some k -> ll !! j = Some l -> x ∈ k -> x ∈ l -> i = j.
Proof.
  induction ll as [|m ll IH]; intros Hnd i j k l x Hi Hj Hk Hl; [done|]. cbn [concat] in Hnd. apply NoDup_app in Hnd as (_ & Hdis & Hnd).
  destruct i as [|i], j as [|j]; [done|..|f_equal; by eapply IH]; simpl in Hi, Hj; simplify_eq.
  - destruct (Hdis x Hk). by eapply elem_of_concat.
  - destruct (Hdis x Hl). by eapply elem_of_concat.
Qed.

(** ** Sorted identifiers *)

Definition ids_sorted (l : list bytes) : Prop := StronglySorted (fun a b => bytes_lt a b = true) l.

Lemma std_unique_spec l :
  StronglySorted (not_after bytes_lt) l ->
  ids_sorted (std_unique l) /\ (forall x, x ∈ std_unique l <-> x ∈ l) /\ head (std_unique l) = head l.
Proof.
  induction l as [|x l IH]; intros Hs; [split_and!; [constructor|done..]|]. apply StronglySorted_inv in Hs as [Hs Hall].
  destruct (IH Hs) as (IHs & IHin & IHh). destruct l as [|y l]; [split_and!; [repeat constructor|done..]|].
  cbn [std_unique]. fold (std_unique (y :: l)). destruct (bool_decide_reflect (x = y)) as [->|Hne].
  - split_and!; [done| |done]. intros z. rewrite IHin, !elem_of_cons. tauto.
  - split_and!; [|intros z; by rewrite !elem_of_cons, IHin, elem_of_cons|done]. constructor; [done|].
    assert (bytes_lt x y = true) as Hxy.
    { apply Forall_cons in Hall as [Hyx _]. unfold not_after in Hyx. destruct (bytes_lt x y) eqn:H; [done|].
      destruct Hne. by apply bytes_lt_total. }
    apply Forall_forall. intros z Hz%IHin. apply StronglySorted_inv in Hs as [_ Hy].
    apply elem_of_cons in Hz as [->|Hz]; [done|]. rewrite Forall_forall in Hy. specialize (Hy z Hz). unfold not_after in Hy.
    destruct (bytes_lt y z) eqn:Hyz; [by eapply bytes_lt_trans|]. by rewrite <- (bytes_lt_total y z).
Qed.

Lemma ids_sorted_eq l k : ids_sorted l -> ids_sorted k -> (forall x, x ∈ l <-> x ∈ k) -> l = k.
Proof.
  intros Hl. revert k. induction Hl as [|x l Hl IH Hx]; intros k Hk Heq.
  { symmetry. apply elem_of_nil_inv. intros x Hx%Heq. by apply not_elem_of_nil in Hx. }
  destruct Hk as [|y k Hk Hy]; [by destruct (proj1 (elem_of_nil x)); apply Heq, list_elem_of_here|].
  rewrite Forall_forall in Hx, Hy.
  assert (x = y) as ->.
  { pose proof (proj1 (Heq x) (list_elem_of_here _ _)) as Hxk. pose proof (proj2 (Heq y) (list_elem_of_here _ _)) as Hyl.
    apply elem_of_cons in Hxk as [->|Hxk]; [done|]. apply elem_of_cons in Hyl as [->|Hyl]; [done|].
    pose proof (bytes_lt_trans _ _ _ (Hx y Hyl) (Hy x Hxk)) as H. by rewrite bytes_lt_irrefl in H. }
  f_equal. apply IH; [done|]. intros z. specialize (Heq z). rewrite !elem_of_cons in Heq. split; intros Hz.
  - destruct (proj1 Heq (or_intror Hz)) as [->|?]; [|done]. specialize (Hx _ Hz). by rewrite bytes_lt_irrefl in Hx.
  - destruct (proj2 Heq (or_intror Hz)) as [->|?]; [|done]. specialize (Hy _ Hz). by rewrite bytes_lt_irrefl in Hy.
Qed.

(** The threads' parts are all identifiers in order. *)
Lemma thread_ids_all ids n : (1 <= n)%nat -> concat (thread_ids ids n <$> seq 0 n) = ids.
Proof.
  intros Hn. assert (forall j, concat (thread_ids ids n <$> seq 0 j) = take (length ids * j / n) ids) as Hj.
  { induction j as [|j IH]; [by rewrite Nat.mul_0_r, Nat.Div0.div_0_l|].
    rewrite seq_S, fmap_app, concat_app, IH. simpl. rewrite app_nil_r. unfold thread_ids. cbv zeta. rewrite Nat.add_1_r.
    assert (length ids * j / n <= length ids * S j / n)%nat by (apply Nat.Div0.div_le_mono; lia).
    rewrite take_take_drop. f_equal. lia. }
  rewrite Hj. rewrite Nat.div_mul by lia. by apply take_ge.
Qed.

(** ** Searching what was stored *)

Section finding.
Context {T F : Type} `{!Timespan T, !TimespanOps T, !MakeHeap, !StdSort, !TableLib, !Proto TraceEvent, !Proto Trace,
  !Proto PrefixTrieNodeProto, !Proto RawData, !EventsFilter F, !HashIteration}.
Implicit Types (arena : list TraceEvent) (lv : list (list TraceEvent)) (x : nat * TraceEvent).

(** The pairs of name and identifier that are indexed. *)
Definition indexed (trace : Trace) x : Prop := has_id x /\ indexed_name trace x.2 <> [].
#[export] Instance indexed_dec trace x : Decision (indexed trace x).
Proof. unfold indexed. apply _. Defined.
Definition index_pairs (trace : Trace) (l : list (nat * TraceEvent)) : list (bytes * bytes) :=
  (fun x => (indexed_name trace x.2, event_id x)) <$> filter (indexed trace) l.

Lemma index_levels_trie trace z lv inserted :
  index_levels false trace z lv (trie_of inserted) = trie_of (inserted ++ index_pairs trace (located z lv)).
Proof.
  revert z inserted. induction lv as [|l lv IH]; intros z inserted; [by unfold index_pairs; rewrite app_nil_r|].
  cbn [index_levels located]. unfold index_pairs. rewrite filter_app, fmap_app, app_assoc. fold (index_pairs trace (located (S z) lv)).
  rewrite <- IH. f_equal. clear. revert inserted. induction l as [|e l IH]; intros inserted; [by rewrite app_nil_r|].
  cbn [foldl]. rewrite fmap_cons. unfold index_event at 2. cbv zeta.
  pose proof (key_nonempty z (ev_timestamp_ps e) (serial_or_0 e)) as Hk.
  destruct (decide (indexed trace (z, e))) as [[Hid Hn]|Hni].
  - rewrite filter_cons_True by done. unfold has_id in Hid. simpl in Hid, Hn.
    rewrite bool_decide_eq_false_2 by (intros ?%Hk; lia). rewrite bool_decide_eq_false_2 by done.
    assert (Insert (indexed_name trace e) (LevelDbTableKey z (ev_timestamp_ps e) (serial_or_0 e)) (trie_of inserted) =
      trie_of (inserted ++ [(indexed_name trace e, event_id (z, e))])) as ->.
    { unfold trie_of. by rewrite foldl_app. }
    rewrite IH, fmap_cons, <- app_assoc. done.
  - rewrite filter_cons_False by done.
    assert ((if bool_decide (LevelDbTableKey z (ev_timestamp_ps e) (serial_or_0 e) = []) then trie_of inserted
      else if bool_decide (indexed_name trace e = []) then trie_of inserted
      else Insert (indexed_name trace e) (LevelDbTableKey z (ev_timestamp_ps e) (serial_or_0 e)) (trie_of inserted)) =
      trie_of inserted) as ->; [|apply IH].
    case_bool_decide as Hkey; [done|]. case_bool_decide as Hname; [done|]. destruct Hni. split; [|done]. unfold has_id. simpl.
    destruct (decide (serial_or_0 e < 256)); [done|]. destruct Hkey. apply Hk. lia.
Qed.

(** Events whose name has the prefix. *)
Definition matches (trace : Trace) (prefix : bytes) x : Prop :=
  indexed trace x /\ StartsWith (indexed_name trace x.2) prefix = true.
#[export] Instance matches_dec trace prefix x : Decision (matches trace prefix x).
Proof. unfold matches. apply _. Defined.

(** The identifiers that the search collects. *)
Lemma search_ids trace lv prefix file t :
  Forall (fun x => ascii (indexed_name trace x.2)) (located 0 lv) ->
  sorted_entries (entries_from SerializeTraceEventForPersistingEventWithoutMetadata 0 lv) ->
  CreateAndSavePrefixTrie false file lv trace = Some (OkStatus, Some t) ->
  exists results, LoadTrieAsLevelDbTableAndSearch (inr t) prefix = Some (inr results) /\
    std_unique (std_sort bytes_lt (concat (result_ids <$> results))) = event_id <$> filter (matches trace prefix) (located 0 lv).
Proof.
  intros Hascii Hs Hsave. unfold CreateAndSavePrefixTrie in Hsave.
  change empty_node with (trie_of []) in Hsave. rewrite (index_levels_trie trace 0 lv []) in Hsave. cbn [app] in Hsave.
  destruct (negb (status_ok (file_name file))); [done|].
  destruct (prefix_search_finds (index_pairs trace (located 0 lv)) prefix file) as (st & t' & results & Hsave' & Hload & _ & Hin).
  { unfold index_pairs. apply Forall_fmap, Forall_forall. intros x [_ Hx]%list_elem_of_filter. rewrite Forall_forall in Hascii. by apply Hascii. }
  rewrite Hsave' in Hsave. simpl in Hsave. injection Hsave as -> ->. exists results. split; [done|].
  destruct (std_unique_spec (std_sort bytes_lt (concat (result_ids <$> results)))) as (Hsorted & Hmem & _).
  { apply std_sort_sorted, bytes_lt_sw. }
  apply ids_sorted_eq; [done| |].
  - rewrite (entries_located _ (fun e => match SerializeTraceEventForPersistingEventWithoutMetadata e with inr b => b | inl _ => [] end)) in Hs by done.
    assert (ids_sorted (event_id <$> filter has_id (located 0 lv))) as Hall.
    { unfold sorted_entries in Hs. eapply (StronglySorted_fmap fst key_lt (fun a b => bytes_lt a b = true)) in Hs; [|done].
      by rewrite <- list_fmap_compose in Hs. }
    eapply sublist_sorted; [|exact Hall]. apply fmap_sublist.
    rewrite <- (list_filter_filter_l (matches trace prefix) has_id); [apply sublist_filter|]. by intros x [[? _] _].
  - intros id. rewrite Hmem, std_sort_perm, list_elem_of_In, in_concat, list_elem_of_fmap. setoid_rewrite <- list_elem_of_In. split.
    + intros (ids & ([k ids'] & -> & (Hp & -> & _)%Hin)%list_elem_of_fmap & Hid). simpl in Hid. unfold ids_of in Hid.
      apply list_elem_of_fmap in Hid as ([k' id'] & -> & [Hk Hpair]%list_elem_of_filter). simpl in *. subst k'.
      apply list_elem_of_fmap in Hpair as (x & [= -> ->] & [Hx Hl]%list_elem_of_filter). exists x. split; [done|].
      apply list_elem_of_filter. by split.
    + intros (x & -> & [[Hx Hp] Hl]%list_elem_of_filter). set (k := indexed_name trace x.2) in *.
      assert (event_id x ∈ ids_of k (index_pairs trace (located 0 lv))) as Hid.
      { unfold ids_of. apply list_elem_of_fmap. exists (k, event_id x). split; [done|]. apply list_elem_of_filter. split; [done|].
        apply list_elem_of_fmap. exists x. split; [done|]. by apply list_elem_of_filter. }
      exists (ids_of k (index_pairs trace (located 0 lv))). split; [|done]. apply list_elem_of_fmap.
      exists (mk_result k (ids_of k (index_pairs trace (located 0 lv)))). split; [done|]. apply Hin. split_and!; [done..|].
      intros Hnil. rewrite Hnil in Hid. by apply not_elem_of_nil in Hid.
Qed.

(** What the events file holds of an event. *)
Definition without_metadata (e : TraceEvent) : TraceEvent :=
  if bool_decide (GetTraceEventType e = EVENT_TYPE_COUNTER) then e else set_raw_data None e.

Definition without_metadata_bytes (e : TraceEvent) : bytes :=
  SerializeAsString (set_timestamp 0 (without_metadata e)).

Lemma without_metadata_serialized e :
  SerializeTraceEventForPersistingEventWithoutMetadata e = inr (without_metadata_bytes e).
Proof.
  unfold SerializeTraceEventForPersistingEventWithoutMetadata, without_metadata_bytes, without_metadata. cbv zeta.
  change (GetTraceEventType (set_timestamp 0 e)) with (GetTraceEventType e). by case_bool_decide.
Qed.

Lemma set_timestamp_without t u e : set_timestamp t (set_timestamp u (without_metadata e)) = set_timestamp t (without_metadata e).
Proof. done. Qed.

Definition events_entries (trace : Trace) lv : list entry :=
  (kTraceMetadataKey, SerializeAsString trace) :: entries_from SerializeTraceEventForPersistingEventWithoutMetadata 0 lv.
Definition metadata_entries (trace : Trace) lv : list entry :=
  (kTraceMetadataKey, SerializeAsString trace) :: entries_from SerializeTraceEventForPersistingOnlyMetadata 0 lv.

Lemma event_in_table trace lv x :
  x ∈ located 0 lv -> has_id x -> (event_id x, without_metadata_bytes x.2) ∈ events_entries trace lv.
Proof.
  intros Hx Hid. unfold events_entries. apply list_elem_of_further.
  rewrite (entries_located _ without_metadata_bytes) by apply without_metadata_serialized.
  apply list_elem_of_fmap. exists x. split; [done|]. by apply list_elem_of_filter.
Qed.

Lemma search_event_stored trace lv x :
  sorted_entries (events_entries trace lv) -> x ∈ located 0 lv -> has_id x -> event_stored x.2 ->
  search_event (table_build (events_entries trace lv)) None (event_id x) = Some (without_metadata x.2).
Proof.
  intros Hs Hx Hid [(? & ? & ?) ?]. unfold search_event.
  rewrite (seek_exact _ _ _ Hs (event_in_table trace lv x Hx Hid)). unfold without_metadata_bytes. rewrite parse_serialize. simpl.
  unfold event_id. rewrite key_timestamp by (done || lia). f_equal. rewrite set_timestamp_without.
  unfold without_metadata. destruct x as [z []]. by case_bool_decide.
Qed.

Definition ok_file : WritableFile := mk_file OkStatus OkStatus OkStatus.

Lemma only_metadata_total : total_serializer SerializeTraceEventForPersistingOnlyMetadata.
Proof. intros e st. unfold SerializeTraceEventForPersistingOnlyMetadata. case_bool_decide; congruence. Qed.
Lemma without_metadata_total : total_serializer SerializeTraceEventForPersistingEventWithoutMetadata.
Proof. by intros e st. Qed.

(** The three tables that are written. *)
Lemma three_tables trace lv :
  exists trie, CreateAndSavePrefixTrie false ok_file lv trace = Some (OkStatus, Some trie) /\
    DoStoreAsLevelDbTables false lv trace ok_file ok_file ok_file =
    Some (OkStatus, (Some (table_build (events_entries trace lv)), Some (table_build (metadata_entries trace lv)), Some trie)).
Proof.
  assert (exists trie, CreateAndSavePrefixTrie false ok_file lv trace = Some (OkStatus, Some trie)) as [trie Htrie].
  { unfold CreateAndSavePrefixTrie, SaveAsLevelDbTable. simpl. rewrite Iterate_entries. simpl. by eexists. }
  exists trie. split; [done|]. unfold DoStoreAsLevelDbTables. rewrite Htrie. simpl.
  unfold DoStoreAsLevelDbTable, task_descriptors.
  rewrite (writer_loop_spec _ _ without_metadata_total), (writer_loop_spec _ _ only_metadata_total).
  destruct (tasks_entries SerializeTraceEventForPersistingEventWithoutMetadata 0 lv) as [-> _].
  by destruct (tasks_entries SerializeTraceEventForPersistingOnlyMetadata 0 lv) as [-> _].
Qed.

Lemma found_events_stored trace lv prefix n :
  (1 <= n)%nat -> sorted_entries (events_entries trace lv) -> Forall (Forall event_stored) lv ->
  found_events (table_build (events_entries trace lv)) None (event_id <$> filter (matches trace prefix) (located 0 lv)) n =
  (fun x => without_metadata x.2) <$> filter (matches trace prefix) (located 0 lv).
Proof.
  intros Hn Hs Hst. unfold found_events. set (ids := event_id <$> _). set (g := search_event _ _).
  assert (concat ((fun i => omap g (thread_ids ids n i)) <$> seq 0 n) = omap g ids) as ->.
  { trans (omap g (concat (thread_ids ids n <$> seq 0 n))); [|by rewrite thread_ids_all]. generalize (seq 0 n). intros l. clear. induction l as [|i l IH]; [done|].
    rewrite !fmap_cons. cbn [concat]. by rewrite omap_app, IH. }
  unfold ids. assert (forall x, x ∈ filter (matches trace prefix) (located 0 lv) -> g (event_id x) = Some (without_metadata x.2)) as Hg.
  { intros [z e] [[[Hid _] _] Hx]%list_elem_of_filter. apply search_event_stored; try done. simpl.
    apply elem_of_located in Hx as (_ & l & Hl & He). rewrite Forall_lookup in Hst. specialize (Hst _ _ Hl).
    rewrite Forall_forall in Hst. by apply Hst. }
  induction (filter (matches trace prefix) (located 0 lv)) as [|x l IH]; [done|]. rewrite !fmap_cons. cbn [omap list_omap].
  rewrite Hg by apply list_elem_of_here. f_equal. apply IH. intros y Hy. apply Hg. by apply list_elem_of_further.
Qed.

Lemma indexed_name_serial trace e e' : same_but_serial e e' -> indexed_name trace e' = indexed_name trace e.
Proof. by intros [->|[n ->]]. Qed.

Lemma located_levels arena l :
  (located 0 (level_events arena l)).*2 = deref_event arena <$> concat l.
Proof. by rewrite located_snd, concat_level_events. Qed.

Lemma add_matches_all es : add_matches (F := F) None es = with_uid uid_raw_data true <$> es.
Proof. induction es as [|e es IH]; [done|]. simpl. by rewrite IH. Qed.

(** The same of events without their level. *)
Definition event_matches (trace : Trace) (prefix : bytes) (e : TraceEvent) : Prop :=
  serial_or_0 e < 256 /\ indexed_name trace e <> [] /\ StartsWith (indexed_name trace e) prefix = true.
#[export] Instance event_matches_dec trace prefix e : Decision (event_matches trace prefix e).
Proof. unfold event_matches. apply _. Defined.

Lemma search_stored trace lv trie prefix max_parallelism :
  (1 <= max_parallelism)%nat -> sorted_entries (events_entries trace lv) -> Forall (Forall event_stored) lv ->
  Forall (fun x => ascii (indexed_name trace x.2)) (located 0 lv) ->
  CreateAndSavePrefixTrie false ok_file lv trace = Some (OkStatus, Some trie) ->
  forall md, DoSearchInLevelDbTable (F := F) (inr trie) (inr (table_build (events_entries trace lv))) md prefix None false max_parallelism =
    Some (inr (trace, (fun x => with_uid uid_raw_data true (without_metadata x.2)) <$> filter (matches trace prefix) (located 0 lv))).
Proof.
  intros Hpar Hsorted Hst Hascii Htrie md. assert (sorted_entries (entries_from SerializeTraceEventForPersistingEventWithoutMetadata 0 lv))
    as Hs by (by apply StronglySorted_inv in Hsorted as [? _]).
  destruct (search_ids trace lv prefix ok_file trie Hascii Hs Htrie) as (results & Hload & Hids).
  unfold DoSearchInLevelDbTable. rewrite Hload. simpl. unfold events_entries at 1. rewrite read_metadata_stored by done. simpl.
  rewrite Hids. case_bool_decide as Hnil.
  - rewrite Hnil in Hids. assert (std_sort bytes_lt ([] : list bytes) = []) as Hsn by (apply Permutation_nil_r, std_sort_perm).
    rewrite Hsn in Hids. simpl in Hids. symmetry in Hids. apply fmap_nil_inv in Hids. by rewrite Hids.
  - rewrite add_matches_all, found_events_stored, <- list_fmap_compose; [done| |done|done].
    set (n := length _). destruct (_ <? _)%nat eqn:Hlt; [lia|]. apply Nat.ltb_ge in Hlt. unfold kSearchParallelizationThreshold in Hlt. lia.
Qed.

(** C9. With metadata indexing off, and when the name of every event consists of characters below
    128: storing a container in the three tables and searching a prefix returns exactly the
    events with a serial below 256 and a name that is not empty and starts with the prefix, each
    once, with all their fields but the raw data, which counters keep and in whose place the
    others have their serial; with any number of threads. *)
Theorem stored_search_finds trace arena tracks (lv : list (list nat)) arena' prefix max_parallelism :
  tracks_ok arena tracks -> EventsByLevel (T := T) trace arena tracks = Some (lv, arena') ->
  Forall (fun p => ascii (indexed_name trace (deref_event arena p))) (concat tracks) -> (1 <= max_parallelism)%nat ->
  exists events metadata trie added,
    DoStoreAsLevelDbTables false (level_events arena' lv) trace ok_file ok_file ok_file =
      Some (OkStatus, (Some events, Some metadata, Some trie)) /\
    DoSearchInLevelDbTable (F := F) (inr trie) (inr events) (inr metadata) prefix None false max_parallelism =
      Some (inr (trace, added)) /\
    added ≡ₚ (fun p => with_uid uid_raw_data true (without_metadata (deref_event arena' p))) <$>
      filter (fun p => serial arena' p < 256 /\ indexed_name trace (deref_event arena p) <> [] /\
                       StartsWith (indexed_name trace (deref_event arena p)) prefix = true) (concat tracks).
Proof.
  intros Hok Hev Hascii Hpar. destruct (stored_levels _ _ _ _ _ Hok Hev) as (Hlen & Hp & Hsame & Hst & Hs).
  destruct (level_events_stored _ _ Hst Hs) as [Hst' _].
  pose proof (stored_table_sorted SerializeTraceEventForPersistingEventWithoutMetadata trace arena tracks lv arena' Hok Hev) as Hsorted.
  destruct (three_tables trace (level_events arena' lv)) as (trie & Htrie & Hstore).
  do 3 eexists. eexists. split_and!; [exact Hstore|apply search_stored; try done|].
  - apply Forall_forall. intros x Hx. assert (x.2 ∈ (located 0 (level_events arena' lv)).*2) as Hin by (apply list_elem_of_fmap; by exists x).
    rewrite located_levels, Hp in Hin. apply list_elem_of_fmap in Hin as (p & -> & Hin).
    rewrite (indexed_name_serial _ _ _ (Hsame p)). rewrite Forall_forall in Hascii. by apply Hascii.
  - set (P := event_matches trace prefix).
    assert (filter (matches trace prefix) (located 0 (level_events arena' lv)) = filter (fun x => P x.2) (located 0 (level_events arena' lv))) as ->.
    { apply list_filter_iff. intros x. unfold matches, indexed, has_id, P, event_matches. tauto. }
    set (g := fun e => with_uid uid_raw_data true (without_metadata e)).
    trans (g <$> (filter (fun x => P x.2) (located 0 (level_events arena' lv))).*2); [by rewrite <- list_fmap_compose|].
    rewrite <- (filter_fmap snd P), located_levels, filter_fmap, <- list_fmap_compose, Hp.
    match goal with |- ?a ≡ₚ ?b => assert (a = b) as ->; [|done] end. f_equal. apply list_filter_iff. intros p. unfold P, event_matches, serial.
    by rewrite (indexed_name_serial _ _ _ (Hsame p)).
Qed.

(** ** Reading what was stored *)

Lemma key_inj z t r z' t' r' :
  (z < 26)%nat -> (z' < 26)%nat -> 0 <= t < 2 ^ 64 -> 0 <= t' < 2 ^ 64 -> r < 256 -> r' < 256 ->
  LevelDbTableKey z t r = LevelDbTableKey z' t' r' -> z = z' /\ t = t' /\ r = r'.
Proof.
  intros Hz Hz' Ht Ht' Hr Hr' Heq.
  pose proof (LevelDbTableKey_lt z t r z' t' r' Hz Hz' Ht Ht' Hr Hr') as Hlt.
  pose proof (LevelDbTableKey_lt z' t' r' z t r Hz' Hz Ht' Ht Hr' Hr) as Hgt.
  rewrite Heq, bytes_lt_irrefl in Hlt. rewrite Heq, bytes_lt_irrefl in Hgt. symmetry in Hlt, Hgt.
  apply bool_decide_eq_false in Hlt, Hgt. lia.
Qed.

Lemma indexed_name_table trace e : ev_name (with_table_name trace e) = indexed_name trace e.
Proof. unfold with_table_name, indexed_name. destruct (ev_name_ref e); [|done]. by destruct (_ !! _). Qed.

(** The entries of a table come from the events of the levels. *)
Lemma entries_from_inv serialize z lv k b : (k, b) ∈ entries_from serialize z lv ->
  exists x, x ∈ located z lv /\ event_id x = k /\ has_id x /\ serialize x.2 = inr b.
Proof.
  revert z. induction lv as [|l lv IH]; intros z; cbn [entries_from located]; [by intros ?%elem_of_nil|].
  intros [Hin|(x & Hx & Hrest)%IH]%elem_of_app; [|exists x; split; [apply elem_of_app; by right|done]].
  apply list_elem_of_omap in Hin as (e & He & Hen). exists (z, e). split; [apply elem_of_app; left; by apply list_elem_of_fmap_2|].
  revert Hen. unfold event_entry, event_id, has_id. simpl. pose proof (key_nonempty z (ev_timestamp_ps e) (serial_or_0 e)) as Hk.
  case_bool_decide as Hkey; [done|]. destruct (serialize e); [done|]. intros [= -> ->]. split_and!; [done| |done].
  destruct (decide (serial_or_0 e < 256)); [done|]. destruct Hkey. apply Hk. lia.
Qed.

(** A key is not in a table that has no entry for any event of this key. *)
Lemma key_absent serialize trace lv z t r : (z < NumLevels)%nat -> 0 <= t < 2 ^ 64 -> 0 <= r < 256 ->
  (forall x b, x ∈ located 0 lv -> has_id x -> event_id x = LevelDbTableKey z t r -> serialize x.2 = inr b -> False) ->
  LevelDbTableKey z t r ∉ ((kTraceMetadataKey, @SerializeAsString Trace _ trace) :: entries_from serialize 0 lv).*1.
Proof.
  intros Hz Ht Hr Hno ([k b] & Hk & Hin)%list_elem_of_fmap. simpl in Hk. subst k. apply elem_of_cons in Hin as [[= Hk _]|Hin].
  - unfold LevelDbTableKey in Hk. rewrite (proj2 (Z.leb_gt _ _)) in Hk by lia. by injection Hk.
  - apply entries_from_inv in Hin as (x & Hx & Hid & Hhas & Hb). by eapply Hno.
Qed.

(** The level of a stored event, and that no other stored event and no other level has its key. *)
Lemma stored_level trace arena tracks (lv : list (list nat)) arena' p :
  tracks_ok arena tracks -> EventsByLevel (T := T) trace arena tracks = Some (lv, arena') ->
  p ∈ concat tracks -> serial arena' p < 256 ->
  exists z, (z < NumLevels)%nat /\ (z, deref_event arena' p) ∈ located 0 (level_events arena' lv) /\
    forall i x, (i < NumLevels)%nat -> x ∈ located 0 (level_events arena' lv) -> has_id x ->
      event_id x = LevelDbTableKey i (ev_timestamp_ps (deref_event arena' p)) (serial arena' p) ->
      i = z /\ x = (z, deref_event arena' p).
Proof.
  intros Hok Hev Hp Hser.
  destruct (EventsByLevel_spec trace arena tracks Hok) as (fes & lv' & a & He & Hlen & Hperm & _ & Hsame & _ & _ & Huniq).
  rewrite Hev in He. injection He as <- <-. destruct (stored_levels _ _ _ _ _ Hok Hev) as (_ & _ & _ & Hst & _).
  pose proof Hp as Hpl. rewrite <- Hperm in Hpl. apply list_elem_of_In, in_concat in Hpl as (l & Hl & Hpl).
  apply list_elem_of_In in Hl, Hpl. apply list_elem_of_lookup in Hl as [z Hz]. pose proof (lookup_lt_Some _ _ _ Hz) as Hzlt.
  rewrite Hlen in Hzlt. exists z. split_and!; [done| |].
  { apply elem_of_located. split; [lia|]. exists (deref_event arena' <$> l). rewrite Nat.sub_0_r. unfold level_events.
    rewrite list_lookup_fmap, Hz. split; [done|]. apply list_elem_of_fmap. by exists p. }
  assert (NoDup (concat lv)) as Hnd by (rewrite Hperm; apply Hok).
  assert (forall j k q, lv !! j = Some k -> q ∈ k -> stored_ok arena' q) as Hsq.
  { intros j k q Hj Hq. rewrite Forall_lookup in Hst. specialize (Hst j k Hj). rewrite Forall_forall in Hst. by apply Hst. }
  change NumLevels with 13%nat in *. destruct (Hsq z l p Hz Hpl) as [(? & ? & ?) ?].
  intros i [j e] Hi Hj Hid Hk. unfold has_id in Hid. simpl in Hid.
  apply elem_of_located in Hj as (_ & k & Hk' & He). rewrite Nat.sub_0_r in Hk'. unfold level_events in Hk'. rewrite list_lookup_fmap in Hk'.
  apply fmap_Some in Hk' as (k' & Hk' & ->). apply list_elem_of_fmap in He as (q & -> & Hq). unfold event_id in Hk. simpl in Hk.
  destruct (Hsq j k' q Hk' Hq) as [(? & ? & ?) ?]. pose proof (lookup_lt_Some _ _ _ Hk').
  apply key_inj in Hk as (-> & Ht & Hs); [|lia..].
  destruct (decide (p = q)) as [<-|Hne].
  - assert (i = z) as ->; [|done]. by apply (same_level lv Hnd i z k' l p).
  - destruct (Huniq p q) as [Hlt|Hlt]; try done.
    + rewrite <- Hperm. apply (elem_of_concat _ _ _ _ Hk' Hq).
    + unfold key_order, ts in Hlt. fold (serial arena' q) in Hs. lia.
    + unfold key_order, ts in Hlt. fold (serial arena' q) in Hs. lia.
Qed.

Lemma metadata_in_table trace lv z e :
  (z, e) ∈ located 0 lv -> serial_or_0 e < 256 -> GetTraceEventType e <> EVENT_TYPE_COUNTER ->
  (LevelDbTableKey z (ev_timestamp_ps e) (serial_or_0 e),
   SerializeAsString (set_raw_data (Some (default [] (ev_raw_data e))) inhabitant)) ∈ metadata_entries trace lv.
Proof.
  intros (_ & l & Hl & He)%elem_of_located Hs Ht. apply list_elem_of_further. rewrite Nat.sub_0_r in Hl.
  apply (entries_from_elem _ 0 lv z l e); [done..|]. unfold event_entry, SerializeTraceEventForPersistingOnlyMetadata. cbn [plus].
  rewrite bool_decide_eq_false_2 by (rewrite key_nonempty; lia). by rewrite bool_decide_eq_false_2.
Qed.

Lemma full_event_loop_skip t m trace name timestamp_ps duration_ps unique_id before after :
  Forall (fun i => match current (Seek t (LevelDbTableKey i (u64 timestamp_ps) (u64 unique_id))) with
                   | Some (k, _) => k <> LevelDbTableKey i (u64 timestamp_ps) (u64 unique_id) | None => True end) before ->
  full_event_loop t m trace name timestamp_ps duration_ps unique_id (before ++ after) =
  full_event_loop t m trace name timestamp_ps duration_ps unique_id after.
Proof.
  induction 1 as [|i before Hi _ IH]; [done|]. cbn [app full_event_loop]. rewrite IH.
  destruct (current _) as [[k v]|]; [|done]. by rewrite bool_decide_eq_false_2.
Qed.

(** What [DoReadFullEventFromLevelDbTable] reads for a stored event from the metadata table. *)
Definition metadata_of (e : TraceEvent) : bytes :=
  if bool_decide (GetTraceEventType e = EVENT_TYPE_COUNTER) then [] else default [] (ev_raw_data e).

Lemma read_metadata_entry trace (lv : list (list TraceEvent)) z e :
  sorted_entries (metadata_entries trace lv) ->
  (z, e) ∈ located 0 lv -> (z < NumLevels)%nat -> event_stored e -> serial_or_0 e < 256 ->
  (forall x, x ∈ located 0 lv -> has_id x -> event_id x = event_id (z, e) -> x = (z, e)) ->
  exists m, match current (Seek (table_build (metadata_entries trace lv)) (event_id (z, e))) with
    | Some (k, v) => if bool_decide (k = event_id (z, e)) then ParseFromString v else Some inhabitant
    | None => Some inhabitant
    end = Some m /\ default [] (ev_raw_data m) = metadata_of e.
Proof.
  intros Hsorted Hin Hz [(? & ? & ?) ?] Hser Huniq. unfold metadata_of. case_bool_decide as Hty.
  - pose proof (seek_absent _ (event_id (z, e)) Hsorted) as Habs. destruct (current _) as [[k v]|]; [|by eexists].
    rewrite bool_decide_eq_false_2; [by eexists|]. apply Habs. 
    apply key_absent; [done|cbn [snd]; lia|cbn [snd]; lia|].
    intros x b Hx Hid Hk Hb. rewrite (Huniq x Hx Hid Hk) in Hb. simpl in Hb. revert Hb.
    unfold SerializeTraceEventForPersistingOnlyMetadata. by rewrite bool_decide_eq_true_2.
  - unfold event_id. cbn [fst snd].
    rewrite (seek_exact _ _ _ Hsorted (metadata_in_table trace _ z e Hin Hser Hty)), bool_decide_eq_true_2, parse_serialize by done.
    by eexists.
Qed.

(** The event read from the events table, with its name looked up. *)
Lemma read_event_fields trace e d :
  let e0 := with_table_name trace (set_timestamp 0 (without_metadata e)) in
  ev_name e0 = indexed_name trace e /\ ev_duration_ps e0 = ev_duration_ps e /\
  set_raw_data d (set_timestamp (ev_timestamp_ps e) e0) = set_raw_data d (with_table_name trace e).
Proof.
  unfold with_table_name, without_metadata, indexed_name. destruct e as [dv rs nm g t l raw fl fe fc sr].
  unfold ev_name_ref. case_bool_decide; destruct nm as [|n|n]; simpl; try done; by destruct (tr_name_table trace !! n).
Qed.

(** C31. Reading an event that was stored in the events and metadata tables, by its name, time,
    duration and serial (below 256), gives it back: every field, and its name from the name
    table, of which the entries that the event refers to are kept. The raw data is that of the
    metadata table (an empty one when the event had none); a counter, which has no entry
    there, comes back with an empty one whatever it had. The references of the event found
    must be readable. *)
Theorem read_full_event trace arena tracks (lv : list (list nat)) arena' p refs :
  tracks_ok arena tracks -> EventsByLevel (T := T) trace arena tracks = Some (lv, arena') ->
  p ∈ concat tracks -> serial arena' p < 256 ->
  let e := deref_event arena' p in
  let raw := if bool_decide (GetTraceEventType e = EVENT_TYPE_COUNTER) then [] else default [] (ev_raw_data e) in
  let full := set_raw_data (Some raw) (with_table_name trace e) in
  GetEventReferencesInTraceNameTable raw_data_refs full = inr refs ->
  exists events metadata trie,
    DoStoreAsLevelDbTables false (level_events arena' lv) trace ok_file ok_file ok_file =
      Some (OkStatus, (Some events, Some metadata, Some trie)) /\
    DoReadFullEventFromLevelDbTable (inr events) (inr metadata) (indexed_name trace e)
      (ev_timestamp_ps e) (ev_duration_ps e) (serial_or_0 e) =
      inr (PurgeIrrelevantEntriesInTraceNameTable trace refs, full).
Proof.
  intros Hok Hev Hp Hser e raw full Hrefs. destruct (stored_levels _ _ _ _ _ Hok Hev) as (_ & _ & Hsame & _ & _).
  destruct (three_tables trace (level_events arena' lv)) as (trie & _ & Hstore). do 3 eexists. split; [exact Hstore|].
  pose proof (stored_table_sorted SerializeTraceEventForPersistingEventWithoutMetadata trace arena tracks lv arena' Hok Hev) as Hsorted.
  pose proof (stored_table_sorted SerializeTraceEventForPersistingOnlyMetadata trace arena tracks lv arena' Hok Hev) as Hsorted'.
  assert (event_stored e) as Hst.
  { destruct (EventsByLevel_spec trace arena tracks Hok) as (? & ? & ? & He & _ & _ & _ & _ & Hs & _). rewrite Hev in He. injection He as <- <-.
    pose proof (tk_events _ _ Hok) as Hevs. rewrite Forall_forall in Hs, Hevs. split; [|by apply Hs].
    unfold e. specialize (Hevs p Hp). by destruct (Hsame p) as [->|[n ->]]. }
  pose proof Hst as [(? & ? & ?) ?].
  destruct (stored_level trace arena tracks lv arena' p Hok Hev Hp Hser) as (z & Hz & Hin & Huniq). unfold serial in Hser, Huniq. fold e in Hin, Hser, Huniq.
  unfold DoReadFullEventFromLevelDbTable, events_entries at 1. rewrite read_metadata_stored by done.
  replace (seq 0 NumLevels) with (seq 0 z ++ z :: seq (S z) (NumLevels - S z)).
  2: { change (z :: seq (S z) (NumLevels - S z)) with (seq (0 + z) (S (NumLevels - S z))). rewrite <- seq_app. f_equal. lia. }
  rewrite full_event_loop_skip.
  2: { apply Forall_forall. intros i Hi%elem_of_seq. rewrite !wrap_small by lia.
       apply (seek_absent (events_entries trace (level_events arena' lv))); [done|]. apply key_absent; [lia..|].
       intros x b Hx Hid Hk _. destruct (Huniq i x) as [-> _]; [lia|done..|]. lia. }
  cbn [full_event_loop]. rewrite !wrap_small by lia.
  rewrite (seek_exact _ _ _ Hsorted (event_in_table trace _ (z, e) Hin Hser)), bool_decide_eq_true_2 by done.
  destruct (read_metadata_entry trace (level_events arena' lv) z e) as (m & Hm & Hraw); try done.
  { intros x Hx Hid Hk. by apply (Huniq z x). }
  unfold event_id in Hm. cbn [fst snd] in Hm. unfold without_metadata_bytes. rewrite parse_serialize.
  destruct (read_event_fields trace e (Some raw)) as (Hn & Hd & Hfull).
  cbn [snd]. cbv zeta. rewrite Hn, Hd, Hm, !bool_decide_eq_true_2, Z.eqb_refl by done. cbn [negb orb]. rewrite Hraw.
  change (metadata_of e) with raw. rewrite Hfull. fold full. by rewrite Hrefs.
Qed.
End finding.

(** ** Concrete tables *)

Lemma stored_search_finds_witness :
  let pe := countable_proto TraceEvent in let pt := countable_proto Trace in
  let pn := countable_proto PrefixTrieNodeProto in let pr := countable_proto RawData in let flt := options_filter [] [] in
  exists lv arena' events metadata trie added,
    EventsByLevel (T := pair_span) sample_trace sample_arena sample_tracks = Some (lv, arena') /\
    DoStoreAsLevelDbTables false (level_events arena' lv) sample_trace ok_file ok_file ok_file =
      Some (OkStatus, (Some events, Some metadata, Some trie)) /\
    DoSearchInLevelDbTable (F := TraceEventsFilter) (inr trie) (inr events) (inr metadata) [102] None false 4 =
      Some (inr (sample_trace, added)) /\
    length added = 2%nat.
Proof.
  intros pe pt pn pr flt.
  destruct (EventsByLevel (T := pair_span) sample_trace sample_arena sample_tracks) as [[lv arena']|] eqn:Hev; [|by vm_compute in Hev].
  assert (Forall (fun p => ascii (indexed_name sample_trace (deref_event sample_arena p))) (concat sample_tracks)) as Ha.
  { repeat constructor; simpl; lia. }
  destruct (stored_search_finds (T := pair_span) (F := TraceEventsFilter) sample_trace sample_arena sample_tracks lv arena' [102] 4
    sample_tracks_ok Hev Ha) as (events & metadata & trie & added & Hst & Hse & Hp); [lia|].
  exists lv, arena', events, metadata, trie, added. split_and!; [done..|]. rewrite Hp, length_fmap.
  vm_compute in Hev. injection Hev as <- <-. by vm_compute.
Defined.

Lemma read_full_event_witness :
  let pe := countable_proto TraceEvent in let pt := countable_proto Trace in
  let pn := countable_proto PrefixTrieNodeProto in
  let d := @SerializeAsString RawData (countable_proto RawData) (RawArgs [mk_arg [120] (IntValue 5)]) in
  let pr := countable_proto RawData in
  let arena := [set_raw_data (Some d) (sample_complete 10 5); sample_counter 20] in
  exists lv arena' events metadata trie,
    EventsByLevel (T := pair_span) sample_trace arena [[0]; [1]]%nat = Some (lv, arena') /\
    DoStoreAsLevelDbTables false (level_events arena' lv) sample_trace ok_file ok_file ok_file =
      Some (OkStatus, (Some events, Some metadata, Some trie)) /\
    DoReadFullEventFromLevelDbTable (inr events) (inr metadata) [102] 10 5 0 =
      inr (sample_trace, set_raw_data (Some d) (sample_complete 10 5)).
Proof.
  intros pe pt pn d pr arena.
  assert (tracks_ok arena [[0]; [1]]%nat) as Hok.
  { split; [by apply (bool_decide_unpack _)|by apply (bool_decide_unpack _)|repeat constructor; simpl; lia|repeat constructor..| |vm_compute; done].
    intros x y Hx Hy H1 H2. simpl in Hx, Hy. rewrite !elem_of_cons in Hx, Hy.
    destruct Hx as [->|[->|[]%not_elem_of_nil]], Hy as [->|[->|[]%not_elem_of_nil]]; try (by vm_compute in H1); try (by vm_compute in H2).
    - exists [0%nat]. split_and!; by apply (bool_decide_unpack _).
    - exists [1%nat]. split_and!; by apply (bool_decide_unpack _). }
  destruct (EventsByLevel (T := pair_span) sample_trace arena [[0]; [1]]%nat) as [[lv arena']|] eqn:Hev; [|by vm_compute in Hev].
  pose proof (read_full_event (T := pair_span) sample_trace arena [[0]; [1]]%nat lv arena' 0 [] Hok Hev) as H.
  vm_compute in Hev. injection Hev as <- <-.
  destruct H as (events & metadata & trie & Hst & Hrd); [by apply (bool_decide_unpack _)|by vm_compute|by vm_compute|].
  do 2 eexists. exists events, metadata, trie. split; [done|]. split; [exact Hst|]. clear Hst Hok.
  match type of Hrd with DoReadFullEventFromLevelDbTable _ _ ?n ?t ?l ?r = inr (?tr, ?e) =>
    assert (n = [102] /\ t = 10 /\ l = 5 /\ r = 0 /\ tr = sample_trace /\ e = set_raw_data (Some d) (sample_complete 10 5))
      as (En & Et & El & Er & Etr & Ee) by (split_and!; by vm_compute);
    rewrite En, Et, El, Er, Etr, Ee in Hrd
  end.
  exact Hrd.
Defined.

(** A counter keeps its raw data in the events table and has no entry in the metadata table;
    reading it in full replaces that data by an empty one. *)
Lemma read_counter_loses_raw_data :
  let pe := countable_proto TraceEvent in let pt := countable_proto Trace in
  let pn := countable_proto PrefixTrieNodeProto in let pr := raw_data_proto in
  let lv := [[sample_counter 20]] in
  let t := table_build (events_entries sample_trace lv) in let m := table_build (metadata_entries sample_trace lv) in
  search_event t None (event_id (0%nat, sample_counter 20)) = Some (sample_counter 20) /\
  exists tr e, full_event_loop t m sample_trace [99] 20 0 0 [0%nat] = inr (tr, e) /\ ev_raw_data e = Some [].
Proof.
  intros. split; [by vm_compute|]. exists sample_trace, (set_raw_data (Some []) (sample_counter 20)). split; by vm_compute.
Qed.
